(* ===== verification/_CoqProject ===== *)
-Q . S2P
Prelude.v
Hash.v
Sha.v
Sha256.v
Libc.v
BootImg.v
MkBootImg.v
UnMkBootImg.v
Modular.v
Digits.v
P256.v
Primes.v
Felem.v
Curve.v
Chord.v
Abelian.v
Group.v
P256Point.v
P256Table.v
P256Group.v
Cofactor.v
P256Scalar.v
P256Ec.v
P256Mul.v
Ecdsa.v
HexText.v
EcdsaTest.v
Arc4.v
AkbOpts.v
AkbArgs.v
AkbRtc.v
AkbGen.v
AkbRun.v
AkbEnv.v
AkbTrace.v
AkbMain.v
Cpio.v
Mkbootfs.v
MkbootfsConfig.v
Rsa.v
DumpKey.v
RsaTest.v
Shell.v
Flash.v
Update.v
Build.v
Linked.v
RingList.v
LruCache.v
BitSet.v
StrongPointer.v
TypeHelpers.v
SortedVectors.v
Flattenable.v
WeakPointer.v
Atomic.v
RefThreads.v
