(* ===== verification/Prelude.v ===== *)
(** * A verification of the AKB sources

    The repository builds Android kernel packages.  Its programs in C are the
    boot image tools mkbootimg and unmkbootimg, the archiver mkbootfs, the
    cryptographic library libmincrypt, which mkbootimg uses for the identity of
    an image and which also verifies the RSA and ECDSA signatures of packages,
    and akb_cc, which turns a shell script into an encrypted C program.  Its
    shell scripts build packages and install them on devices, and its headers
    hold containers of the Android system.  This library models these programs
    and proves what makes them correct.

    ** Files

    Shared: Prelude (machine words, loops, digit arrays), Libc (strings, number
    conversion and formatting of the C library), Digits (loops over 32-bit
    digits, windows into arrays), Modular (congruence as a setoid).

    Hashes, bootimg_tools/libmincrypt: Hash (hash-internal.h and the code that
    sha.c and sha256.c share), Sha, Sha256.  The code consumes a stream in
    pieces; the theorems refine it to the definitions of FIPS 180-4.

    Boot images, bootimg_tools/mkbootimg: BootImg (bootimg.h and the calls on
    files), MkBootImg, UnMkBootImg.  The theorems give the bytes of an image,
    show that unpacking inverts packing, with a second stage where
    unmkbootimg finds it, and that the command it prints, read as a shell reads
    it, rebuilds the image.  Output through stdio is buffered: what is written
    reaches the file when the buffer is full or the file is closed, and on a
    full device the program sees only the first of these fail.

    Ramdisks, bootimg_tools/cpio: Cpio (the reader of the archive format, which
    is the specification), Mkbootfs (the program), MkbootfsConfig (termination
    and the canned configuration).  The main theorem refines the walk over path
    buffers and system calls to a traversal of directory trees.

    Signatures, bootimg_tools/libmincrypt: P256 (p256.c), Primes (the constants
    are prime), Felem, P256Point, P256Table, P256Scalar and P256Ec (p256_ec.c
    from the limbs to the interface), Ecdsa (dsa_sig.c, p256_ecdsa.c), Rsa
    (rsa.c).  Their specification is the group of the curve: Curve (chords and
    tangents, Jacobian coordinates), Chord (three points on a line, over an
    integral domain), Abelian (the interface of an abelian group, multiples,
    orders), Group (the addition of points is such a group), P256Group (the base
    point has order n), Cofactor (it generates all points), P256Mul (the loops
    compute multiples in that group).

    Around the signatures, bootimg_tools/libmincrypt/tools and test: DumpKey
    (DumpPublicKey.java, which prints keys; its text is read back as a C
    initializer), HexText (parsehex), EcdsaTest and RsaTest (the test programs).
    The theorems show that a printed key is one RSA_verify can use, and that
    both test programs pass on the functions verified here, which ties the
    definitions to known signatures.

    Scripts: Shell (scripts as trees of commands), Flash (flashme.sh and
    tools/fcore.sh in sources/otagen, which put a new kernel on a device),
    Update (update-binary, which the recovery runs around them), Build
    (sources/bin, btool and install: what sets a source tree up, builds it and
    packs the tools).  All their commands are other programs, so a script is a
    tree that branches on what these answer, and the theorems are about all its
    runs: what has happened when the partition is written, or when the kernel is
    made, and what is in a package.

    Containers, bootimg_tools/include: Linked (programs over a memory, and the
    shape of doubly linked lists), RingList (cutils/list.h, utils/List.h and its
    copy in sysutils), LruCache, BitSet (utils/BitSet.h, cutils/bitops.h),
    StrongPointer (sp and LightRefBase), RefThreads (LightRefBase shared by
    threads), WeakPointer (wp), TypeHelpers (objects in raw storage),
    SortedVectors (SortedVector.h, KeyedVector.h), Flattenable, Atomic
    (cutils/atomic.h).  The theorems refine the memory to sequences, maps
    and sets, and keep the counts of references: of objects that own others,
    which a last pointer takes with it, and of weak references whatever happens
    inside the calls that count them.  What these headers call and do not define
    is a parameter: RefBase, of which nothing is assumed, and SortedVectorImpl,
    a class with the comments of its declaration as laws and an instance that
    shows they can hold.

    akb_cc, cc/akb_cc.c: Arc4 (the cipher, and RC4), AkbOpts (options, script,
    shell), AkbArgs (the strings of -i, -x and -l, which are encrypted where they
    lie in the arguments, and the arguments as they read afterwards), AkbRtc (the text RTC), AkbGen (the program written), AkbRun (what
    that text does when it runs), AkbEnv (chkenv and the two executions of one
    program), AkbTrace (the main of that program, its debugging output and the
    two processes of untraceable), AkbMain (make and main).  The theorems
    compose: a script given to akb_cc is what the shell is handed at the end.

    ** Conventions

    A C integer is a [Z]; [u8], [u32], [u64] and [s32] are the conversions on
    stores.  Arrays and buffers are lists.  Functions keep the names of the
    code.  A failed assertion, a read or write outside a buffer, a null pointer
    followed or an undefined operation is [None] or the constructor UB, and a
    call of exit keeps the output so far.  System calls and library functions
    that depend on the outside (files, rand, mktime, system, fs_config) are
    parameters, in a record where there are several.

    ** Loops and fuel

    Loops with a counter are [for_] or recursion on lists.  The others take
    fuel and come with a theorem that it is enough: 1024 iterations for the
    inverse modulo a number of 256 bits ([P256.p256_modinv_vartime_correct]),
    three rounds for the minimal form of a field element
    ([Felem.felem_is_zero_correct]), 257 for the padding of an archive and the
    size of the path buffers for the depth of a directory
    ([MkbootfsConfig.main_terminates]), the number of options for their loop
    ([AkbOpts.parse_args_correct]), for the loops over a list or a cache any
    number not below its length ([RingList.List_correct],
    [LruCache.LruCache_correct]), and for the loops over rand any bound on the
    waiting time for a small number ([AkbRun.write_C_correct]).  The inverse of
    0 has no bound: [P256.p256_modinv_vartime_zero].

    ** Groups of theorems

    Refinement: the two hashes, the archive, the field, point and scalar
    operations up to p256_points_mul_vartime, the program akb_cc writes, the
    lists, the cache, the bit sets, the sorted vectors and the objects deleted
    with a last pointer.  The chain of the
    signature check is closed: the limbs stand for residues, the formulas for
    chords and tangents, these are the addition of a group, in which every point
    has order n, so that no loop meets a case its formulas leave out, and
    p256_ecdsa_verify accepts exactly the signatures made with the private key.
    Round trips: header, command line, image, rebuild command, Montgomery form,
    canned configuration, the environment variable of chkenv, printed keys,
    make.prop, flattened fields. Verification: what RSA_verify and
    p256_ecdsa_verify accept and refuse, and their test programs.  State
    machines: the program and the child that tries to trace it, as a step
    relation with an invariant and a bound on its runs; threads at a lock and at
    a counted object.  Errors: a run of mkbootimg that sees an error leaves no
    image, one that fails after its last write to the buffer leaves the part
    that fitted, unmkbootimg loses a second stage, operator= of sp moves from a
    freed variable, a canned configuration without a default crashes mkbootfs, a
    shell without a slash crashes akb_cc, a signature with s = 0 is read past
    its end, the build script stops at a command that nobody defines.  Bounds:
    shift counts, limbs, the 64-bit accumulators, arrays of bit words,
    alignment.  Invariants: the cipher state, the table of multiples of the base
    point, the counts of strong and weak references, the lock.
    Storage: moving and copying items never overwrites an object that is still
    to be destroyed.

    ** Not modelled

    The other headers under bootimg_tools/include are Android's constants and
    declarations (graphics.h, window.h, camera.h, log.h, Looper.h and the like)
    and wrappers of functions and system calls that are defined elsewhere
    (Vector.h, String8.h, Mutex.h); the programs here use no more of them than
    the declaration of fs_config, whose definition is in another repository.  Of
    the containers, capacities, hashing and tracing are left out, and
    memory orders: a thread's step is seen by all at once.  Of DumpKey, the
    reading of certificates is a parameter, and the messages on the standard
    error are left out.  Of akb_cc, the -v traces and warnings on the
    standard error are not modelled; whether getopt moves operands behind the
    options is a parameter, and so is where the strings of the arguments lie,
    as far as no two of them overlap.  Memory allocation succeeds, except in
    mkbootfs, where it is a parameter; so the error that add of SortedVectorImpl
    may return does not occur.  Of the destructor of an object only its sp
    members are modelled, and which objects RefBase deletes is not.  Of the run-time text, what the kernel answers to
    the child of untraceable is a parameter. *)
From Stdlib Require Export ZArith Lia Bool List.
From stdpp Require Export base numbers list strings gmap sorting.
#[global] Open Scope Z_scope.

(** * Machine words

    A C object of type [uint8_t], [uint32_t] or [uint64_t] is a [Z] in the
    range of its width; the conversions below are the implicit conversions
    C applies when a value is stored into such an object. *)

Definition u8 (x : Z) : Z := Z.land x 0xff.
Definition u32 (x : Z) : Z := Z.land x 0xffffffff.
Definition u64 (x : Z) : Z := Z.land x 0xffffffffffffffff.

(** Conversion to a two's complement [int32_t] / [int64_t]. *)
Definition s32 (x : Z) : Z := let y := u32 x in if y <? 2 ^ 31 then y else y - 2 ^ 32.

(** [is_word w x]: [x] is a value of a [w]-bit unsigned type. *)
Definition is_word (w x : Z) : Prop := 0 <= x < 2 ^ w.
Abbreviation words w := (Forall (is_word w)).

Declare Scope c_scope.
Delimit Scope c_scope with c.
Infix ".&" := Z.land (at level 40, left associativity) : c_scope.
Infix ".^" := Z.lxor (at level 50, left associativity) : c_scope.
Infix ".|" := Z.lor (at level 50, left associativity) : c_scope.
Infix ">>" := Z.shiftr (at level 38, left associativity) : c_scope.
Infix "<<" := Z.shiftl (at level 38, left associativity) : c_scope.
#[global] Open Scope c_scope.

(** The bounded loop [for (i = lo; i < lo + n; i++) s = body i s]. *)
Fixpoint for_ {S : Type} (lo n : nat) (body : nat -> S -> S) (s : S) : S :=
  match n with
  | O => s
  | S n' => for_ (Datatypes.S lo) n' body (body lo s)
  end.

(** [while (cond s) s = body s], cut after [fuel] iterations.  Every use comes
    with a theorem that [cond] is false of the result for the fuel given. *)
Fixpoint while_ {S : Type} (fuel : nat) (cond : S -> bool) (body : S -> S) (s : S) : S :=
  match fuel with
  | O => s
  | Datatypes.S k => if cond s then while_ k cond body (body s) else s
  end.

(** [uint32_t] to four bytes, most significant first:
    [*p++ = tmp >> 24; *p++ = tmp >> 16; *p++ = tmp >> 8; *p++ = tmp >> 0;] *)
Definition be_bytes4 (w : Z) : list Z :=
  [u8 (w >> 24); u8 (w >> 16); u8 (w >> 8); u8 (w >> 0)].

(** Four bytes to a [uint32_t]:
    [(p[0] << 24) | (p[1] << 16) | (p[2] << 8) | p[3]]. *)
Definition be_word (b0 b1 b2 b3 : Z) : Z :=
  u32 (((u32 (b0 << 24) .| (b1 << 16)) .| (b2 << 8)) .| b3).

(** Value of a little-endian array of [w]-bit digits. *)
Fixpoint le_eval (w : Z) (l : list Z) : Z :=
  match l with
  | [] => 0
  | x :: l' => x + 2 ^ w * le_eval w l'
  end.

(** The [n] low [w]-bit digits of [v], least significant first. *)
Fixpoint le_digits (w : Z) (n : nat) (v : Z) : list Z :=
  match n with
  | O => []
  | S n' => v mod 2 ^ w :: le_digits w n' (v / 2 ^ w)
  end.

(** Value of a big-endian byte string. *)
Definition be_eval (w : Z) (l : list Z) : Z := le_eval w (rev l).

(** Append [n] elements, each computed from its index and those before it. *)
Fixpoint extend {A} (g : nat -> list A -> A) (n : nat) (l : list A) : list A :=
  match n with
  | O => l
  | S n' => extend g n' (l ++ [g (length l) l])
  end.

(** Split [words w [x; y; ...]] hypotheses into one per element. *)
Ltac inv_words :=
  repeat match goal with
  | H : Forall (is_word _) (_ :: _) |- _ => apply Forall_cons in H as [? H]
  | H : Forall (is_word _) [] |- _ => clear H
  end.

(** * Lemmas on machine words *)

Lemma u8_mod x : u8 x = x mod 2 ^ 8.
Proof. exact (Z.land_ones x 8 ltac:(lia)). Qed.
Lemma u32_mod x : u32 x = x mod 2 ^ 32.
Proof. exact (Z.land_ones x 32 ltac:(lia)). Qed.
Lemma u64_mod x : u64 x = x mod 2 ^ 64.
Proof. exact (Z.land_ones x 64 ltac:(lia)). Qed.

Create HintDb words discriminated.
Create Rewrite HintDb words.
Create Rewrite HintDb pull_words.
#[export] Hint Rewrite u8_mod u32_mod u64_mod : words.

Lemma u8_range x : is_word 8 (u8 x).
Proof. rewrite u8_mod. apply Z.mod_pos_bound. lia. Qed.
Lemma u32_range x : is_word 32 (u32 x).
Proof. rewrite u32_mod. apply Z.mod_pos_bound. lia. Qed.
Lemma u64_range x : is_word 64 (u64 x).
Proof. rewrite u64_mod. apply Z.mod_pos_bound. lia. Qed.
#[export] Hint Resolve u8_range u32_range u64_range : words.

Lemma u8_small x : is_word 8 x -> u8 x = x.
Proof. rewrite u8_mod. apply Z.mod_small. Qed.
Lemma u32_small x : is_word 32 x -> u32 x = x.
Proof. rewrite u32_mod. apply Z.mod_small. Qed.
Lemma u64_small x : is_word 64 x -> u64 x = x.
Proof. rewrite u64_mod. apply Z.mod_small. Qed.

Lemma u32_add_l x y : u32 (u32 x + y) = u32 (x + y).
Proof. rewrite !u32_mod. apply Zplus_mod_idemp_l. Qed.
Lemma u32_add_r x y : u32 (x + u32 y) = u32 (x + y).
Proof. rewrite !u32_mod. apply Zplus_mod_idemp_r. Qed.
Lemma u32_idemp x : u32 (u32 x) = u32 x.
Proof. apply u32_small, u32_range. Qed.
Lemma u64_add_l x y : u64 (u64 x + y) = u64 (x + y).
Proof. rewrite !u64_mod. apply Zplus_mod_idemp_l. Qed.
Lemma u32_sub_l x y : u32 (u32 x - y) = u32 (x - y).
Proof. rewrite !u32_mod. apply Zminus_mod_idemp_l. Qed.
Lemma u32_sub_r x y : u32 (x - u32 y) = u32 (x - y).
Proof. rewrite !u32_mod. apply Zminus_mod_idemp_r. Qed.
#[export] Hint Rewrite u32_add_l u32_add_r u32_sub_l u32_sub_r u32_idemp u64_add_l : pull_words.

Lemma s32_range x : - 2 ^ 31 <= s32 x < 2 ^ 31.
Proof.
  unfold s32. pose proof (u32_range x) as H. unfold is_word in H.
  destruct (Z.ltb_spec (u32 x) (2 ^ 31)); lia.
Qed.

Lemma s32_small x : 0 <= x < 2 ^ 31 -> s32 x = x.
Proof.
  intros Hx. unfold s32. rewrite u32_small by (unfold is_word; lia).
  by rewrite (proj2 (Z.ltb_lt _ _)) by lia.
Qed.

Lemma is_word_le w w' x : is_word w x -> w <= w' -> is_word w' x.
Proof.
  unfold is_word. intros [? ?] ?. split; [done|].
  destruct (Z.le_gt_cases 0 w).
  - assert (2 ^ w <= 2 ^ w') by (apply Z.pow_le_mono_r; lia). lia.
  - rewrite Z.pow_neg_r in * by lia. lia.
Qed.

Lemma is_word_testbit w x i : 0 <= w -> is_word w x -> w <= i -> Z.testbit x i = false.
Proof.
  intros Hw Hx Hi. rewrite <- (Z.mod_small x (2 ^ w)) by exact Hx.
  apply Z.mod_pow2_bits_high. lia.
Qed.

Lemma is_word_of_testbit w x :
  0 <= w -> 0 <= x -> (forall i, w <= i -> Z.testbit x i = false) -> is_word w x.
Proof.
  intros Hw Hx H. assert (x = x mod 2 ^ w) as ->.
  { apply Z.bits_inj'. intros i Hi. destruct (Z.lt_ge_cases i w).
    - by rewrite Z.mod_pow2_bits_low.
    - rewrite Z.mod_pow2_bits_high by lia. auto. }
  apply Z.mod_pos_bound. lia.
Qed.

Lemma is_word_lxor w x y : 0 <= w -> is_word w x -> is_word w y -> is_word w (x .^ y).
Proof.
  intros Hw Hx Hy. apply is_word_of_testbit; [done | |].
  - apply Z.lxor_nonneg. unfold is_word in *. lia.
  - intros i Hi. rewrite Z.lxor_spec, (is_word_testbit w x), (is_word_testbit w y); done.
Qed.

Lemma is_word_lor w x y : 0 <= w -> is_word w x -> is_word w y -> is_word w (x .| y).
Proof.
  intros Hw Hx Hy. apply is_word_of_testbit; [done | |].
  - apply Z.lor_nonneg. unfold is_word in *. lia.
  - intros i Hi. rewrite Z.lor_spec, (is_word_testbit w x), (is_word_testbit w y); done.
Qed.

Lemma is_word_land w x y : 0 <= w -> is_word w x -> is_word w (x .& y).
Proof.
  intros Hw Hx. apply is_word_of_testbit; [done | |].
  - apply Z.land_nonneg. unfold is_word in *. lia.
  - intros i Hi. rewrite Z.land_spec, (is_word_testbit w x); done.
Qed.

Lemma is_word_shiftr w x n : 0 <= n -> is_word w x -> is_word w (x >> n).
Proof.
  unfold is_word. intros Hn Hx. rewrite Z.shiftr_div_pow2 by done.
  assert (0 < 2 ^ n) by lia. split; [apply Z.div_pos; lia|].
  apply Z.le_lt_trans with x; [|lia]. apply Z.div_le_upper_bound; [lia|]. nia.
Qed.
#[export] Hint Resolve is_word_lxor is_word_lor is_word_land is_word_shiftr : words.

(** Disjoint bit fields: [or] is addition. *)
Lemma lor_add x y n : 0 <= n -> is_word n x -> (x .| (y << n)) = x + 2 ^ n * y.
Proof.
  intros Hn Hx. assert (Z.land x (y << n) = 0) as H0.
  2: { pose proof (Z.add_lor_land x (y << n)) as H. rewrite H0 in H.
       rewrite Z.shiftl_mul_pow2 in * by done. lia. }
  apply Z.bits_inj'. intros i Hi. rewrite Z.land_spec, Z.bits_0, Z.shiftl_spec by done.
  destruct (Z.lt_ge_cases i n).
  - rewrite (Z.testbit_neg_r y) by lia. by rewrite andb_false_r.
  - by rewrite (is_word_testbit n x) by done.
Qed.

Lemma is_word_shiftl w n x : 0 <= n -> 0 <= w -> is_word w x -> is_word (w + n) (x << n).
Proof.
  unfold is_word. intros Hn Hw Hx. rewrite Z.shiftl_mul_pow2, Z.pow_add_r by done.
  assert (0 < 2 ^ n) by lia. nia.
Qed.

Lemma be_word_eval b0 b1 b2 b3 :
  words 8 [b0; b1; b2; b3] -> be_word b0 b1 b2 b3 = le_eval 8 [b3; b2; b1; b0].
Proof.
  intros H. decompose_Forall_hyps. unfold be_word.
  rewrite (u32_small (b0 << 24)) by (by apply (is_word_shiftl 8 24)).
  rewrite Z.lor_comm. rewrite (Z.lor_comm (_ .| _)), (Z.lor_comm (b0 << 24)).
  replace (b2 << 8) with ((b2 .| 0) << 8) by (by rewrite Z.lor_0_r).
  replace (b1 << 16) with ((b1 << 8) << 8) by by rewrite Z.shiftl_shiftl by lia.
  replace (b0 << 24) with (((b0 << 8) << 8) << 8) by by rewrite !Z.shiftl_shiftl by lia.
  rewrite Z.lor_0_r, <- !Z.shiftl_lor, !(lor_add _ _ 8) by (lia || done).
  cbn [le_eval]. rewrite u32_small; [ring|]. unfold is_word in *. lia.
Qed.

(** * Lemmas on loops *)

Lemma for_inv {S} (P : nat -> S -> Prop) (body : nat -> S -> S) n lo s :
  P lo s ->
  (forall i s, (lo <= i < lo + n)%nat -> P i s -> P (Datatypes.S i) (body i s)) ->
  P (lo + n)%nat (for_ lo n body s).
Proof.
  revert lo s. induction n as [|n IH]; intros lo s H0 Hstep; simpl.
  - by rewrite Nat.add_0_r.
  - rewrite <- Nat.add_succ_comm. apply IH.
    + apply Hstep; [lia | done].
    + intros i s' Hi. apply Hstep. lia.
Qed.

Lemma for_last {S} lo n (body : nat -> S -> S) s :
  for_ lo (Datatypes.S n) body s = body (lo + n)%nat (for_ lo n body s).
Proof.
  revert lo s. induction n as [|n IH]; intros lo s; simpl.
  - by rewrite Nat.add_0_r.
  - simpl in IH. rewrite IH. f_equal. lia.
Qed.

Lemma for_ext {S} (f g : nat -> S -> S) n lo s :
  (forall i s, (lo <= i < lo + n)%nat -> f i s = g i s) -> for_ lo n f s = for_ lo n g s.
Proof.
  revert lo s. induction n as [|n IH]; intros lo s H; simpl; [done|].
  rewrite H by lia. apply IH. intros. apply H. lia.
Qed.

(** An array filled from the left is a list that grows. *)
Lemma fill_spec {A} (g : nat -> list A -> A) n l d (k : nat) :
  (forall l' r, (length l <= length l')%nat -> g (length l') (l' ++ r) = g (length l') l') ->
  for_ (length l) n (fun t W => <[t := g t W]> W) (l ++ replicate (n + k) d)
  = extend g n l ++ replicate k d.
Proof.
  revert l. induction n as [|n IH]; intros l Hg; cbn [for_ extend]; [done|].
  rewrite Hg by done. cbn [Nat.add replicate].
  pose proof (insert_app_r l (d :: replicate (n + k) d) 0 (g (length l) l)) as Hi.
  rewrite Nat.add_0_r in Hi. rewrite Hi.
  change (<[0%nat := g (length l) l]> (d :: replicate (n + k) d))
    with ([g (length l) l] ++ replicate (n + k) d).
  rewrite app_assoc. specialize (IH (l ++ [g (length l) l])).
  rewrite length_app, Nat.add_1_r in IH. apply IH. intros. apply Hg. lia.
Qed.

Lemma extend_ext {A} (P : list A -> Prop) (g g' : nat -> list A -> A) n l :
  P l ->
  (forall l', P l' -> (length l <= length l')%nat ->
    g (length l') l' = g' (length l') l' /\ P (l' ++ [g (length l') l'])) ->
  extend g n l = extend g' n l.
Proof.
  revert l. induction n as [|n IH]; intros l Hl H; cbn [extend]; [done|].
  destruct (H l Hl ltac:(done)) as [Heq HP]. rewrite <- Heq. apply IH; [done|].
  intros l' Hl' Hle. apply H; [done|]. rewrite length_app in Hle. lia.
Qed.

Lemma extend_length {A} (g : nat -> list A -> A) n l : length (extend g n l) = (length l + n)%nat.
Proof.
  revert l. induction n as [|n IH]; intros l; cbn [extend]; [lia|].
  rewrite IH, length_app. cbn. lia.
Qed.

Lemma extend_map {A} (h : nat -> A) n l :
  extend (fun t _ => h t) n l = l ++ map h (seq (length l) n).
Proof.
  revert l. induction n as [|n IH]; intros l; cbn [extend seq map]; [by rewrite app_nil_r|].
  rewrite IH, length_app, Nat.add_1_r, <- app_assoc. done.
Qed.

Lemma fill_map {A} (h : nat -> A) n k d :
  for_ 0 n (fun t W => <[t := h t]> W) (replicate (n + k) d) = map h (seq 0 n) ++ replicate k d.
Proof.
  pose proof (fill_spec (fun t _ => h t) n [] d k ltac:(done)) as E.
  rewrite extend_map in E. exact E.
Qed.

(** Four consecutive elements of an array. *)
Lemma take_drop_4 (l : list Z) i :
  (i + 4 <= length l)%nat ->
  take 4 (drop i l) = [l !!! i; l !!! (i + 1)%nat; l !!! (i + 2)%nat; l !!! (i + 3)%nat].
Proof.
  intros H.
  assert (forall j, (j < length l)%nat -> drop j l = l !!! j :: drop (S j) l) as Hd
    by (intros; by apply drop_S, list_lookup_lookup_total_lt).
  replace (i + 1)%nat with (S i) by lia. replace (i + 2)%nat with (S (S i)) by lia.
  replace (i + 3)%nat with (S (S (S i))) by lia.
  rewrite (Hd i), (Hd (S i)), (Hd (S (S i))), (Hd (S (S (S i)))) by lia. done.
Qed.

Lemma extend_Forall {A} (P : A -> Prop) (g : nat -> list A -> A) n l :
  (forall i l, P (g i l)) -> Forall P l -> Forall P (extend g n l).
Proof.
  intros Hg. revert l. induction n as [|n IH]; intros l Hl; cbn [extend]; [done|].
  apply IH, Forall_app. auto.
Qed.

(** * Lemmas on digit arrays *)

Lemma le_eval_app w l1 l2 :
  0 <= w -> le_eval w (l1 ++ l2) = le_eval w l1 + 2 ^ (w * Z.of_nat (length l1)) * le_eval w l2.
Proof.
  intros Hw. induction l1 as [|x l1 IH]; cbn [le_eval length app].
  - rewrite Z.mul_0_r. lia.
  - rewrite IH, Nat2Z.inj_succ, Z.mul_succ_r, Z.pow_add_r by lia. ring.
Qed.

Lemma le_eval_bound w l :
  0 <= w -> words w l -> 0 <= le_eval w l < 2 ^ (w * Z.of_nat (length l)).
Proof.
  intros Hw. induction 1 as [|x l Hx Hl IH]; cbn [le_eval length].
  - rewrite Z.mul_0_r. lia.
  - rewrite Nat2Z.inj_succ, Z.mul_succ_r, Z.add_comm, Z.pow_add_r by lia.
    unfold is_word in Hx. nia.
Qed.

Lemma le_digits_length w n v : length (le_digits w n v) = n.
Proof. revert v. induction n; intros; simpl; auto. Qed.

Lemma le_digits_words w n v : 0 <= w -> words w (le_digits w n v).
Proof.
  intros Hw. revert v. induction n; intros v; simpl; constructor; auto.
  apply Z.mod_pos_bound. lia.
Qed.

Lemma le_eval_digits w n v :
  0 <= w -> le_eval w (le_digits w n v) = v mod 2 ^ (w * Z.of_nat n).
Proof.
  intros Hw. revert v. induction n as [|n IH]; intros v; cbn [le_digits le_eval].
  - by rewrite Z.mul_0_r, Z.mod_1_r.
  - rewrite IH, Nat2Z.inj_succ, Z.mul_succ_r, Z.add_comm, (Z.add_comm (w * _)), Z.pow_add_r by lia.
    assert (0 < 2 ^ w) by lia. assert (0 < 2 ^ (w * Z.of_nat n)) by (apply Z.pow_pos_nonneg; lia).
    rewrite (Z.rem_mul_r v (2 ^ w)) by lia. ring.
Qed.

Lemma le_digits_eval w l :
  0 <= w -> words w l -> le_digits w (length l) (le_eval w l) = l.
Proof.
  intros Hw. induction 1 as [|x l Hx Hl IH]; cbn [le_digits le_eval length]; [done|].
  assert (2 ^ w <> 0) by lia.
  rewrite (Z.mul_comm (2 ^ w)), Z.mod_add, (Z.mod_small x) by done.
  rewrite Z.div_add, (Z.div_small x) by done.
  by rewrite Z.add_0_l, IH.
Qed.

Lemma le_eval_inj w l1 l2 :
  0 <= w -> words w l1 -> words w l2 -> length l1 = length l2 ->
  le_eval w l1 = le_eval w l2 -> l1 = l2.
Proof.
  intros Hw H1 H2 Hl He.
  by rewrite <- (le_digits_eval w l1), <- (le_digits_eval w l2), He, Hl by done.
Qed.

Lemma words_lookup_total w l i : 0 < w -> words w l -> is_word w (l !!! i).
Proof.
  intros Hw Hl. destruct (decide (i < length l)%nat) as [Hi|Hi].
  - by apply (Forall_lookup_total_1 _ _ _ Hl).
  - rewrite list_lookup_total_alt, lookup_ge_None_2 by lia.
    change (is_word w 1). split; [done | by apply Z.pow_gt_1].
Qed.
#[export] Hint Resolve words_lookup_total : words.

Lemma words_insert w l i x : words w l -> is_word w x -> words w (<[i:=x]> l).
Proof. intros. by apply Forall_insert. Qed.
#[export] Hint Resolve words_insert : words.

Lemma words_app w l1 l2 : words w l1 -> words w l2 -> words w (l1 ++ l2).
Proof. intros. by apply Forall_app. Qed.
#[export] Hint Resolve words_app : words.

(** The big-endian words a byte array holds. *)
Lemma be_word_array (p : list Z) n :
  words 8 p -> (4 * n <= length p)%nat ->
  map (fun t => be_word (p !!! (4 * t)%nat) (p !!! (4 * t + 1)%nat)
                  (p !!! (4 * t + 2)%nat) (p !!! (4 * t + 3)%nat)) (seq 0 n)
  = map (fun t => be_eval 8 (take 4 (drop (4 * t) p))) (seq 0 n).
Proof.
  intros Hp Hn. apply map_ext_in. intros t Ht. apply in_seq in Ht.
  rewrite be_word_eval
    by (repeat apply Forall_cons_2; try apply Forall_nil_2; by apply words_lookup_total).
  by rewrite take_drop_4 by lia.
Qed.
