(* ===== verification/Hash.v ===== *)
(** * Streaming hash core: include/mincrypt/hash-internal.h

    The context record shared by SHA-1 and SHA-256, the update/final code the
    two C files have in common (they differ in the block transform, the number
    of state words and the initial values only), and the refinement of that
    code to the Merkle-Damgard specification of FIPS 180-4.  A C buffer given
    as a (pointer, length) pair is the list of its [length] bytes. *)
From S2P Require Import Prelude.

(** [ctx->f] points to one of the two constant tables. *)
Inductive HASH_VTAB := SHA_VTAB | SHA256_VTAB.

#[export] Instance HASH_VTAB_eq_dec : EqDecision HASH_VTAB.
Proof. solve_decision. Defined.

Record HASH_CTX := {
  f : HASH_VTAB;
  count : Z;       (* uint64_t *)
  buf : list Z;    (* uint8_t[64] *)
  state : list Z   (* uint32_t[8] *)
}.

Definition set_f (v : HASH_VTAB) (c : HASH_CTX) : HASH_CTX :=
  {| f := v; count := count c; buf := buf c; state := state c |}.
Definition set_count (n : Z) (c : HASH_CTX) : HASH_CTX :=
  {| f := f c; count := n; buf := buf c; state := state c |}.
Definition set_buf (i : nat) (b : Z) (c : HASH_CTX) : HASH_CTX :=
  {| f := f c; count := count c; buf := <[i := b]> (buf c); state := state c |}.
Definition set_state (i : nat) (w : Z) (c : HASH_CTX) : HASH_CTX :=
  {| f := f c; count := count c; buf := buf c; state := <[i := w]> (state c) |}.

(** What the C types guarantee of any context, initialised or not. *)
Record ctx_ok (c : HASH_CTX) : Prop := {
  ok_buf : length (buf c) = 64%nat;
  ok_bytes : words 8 (buf c);
  ok_state : length (state c) = 8%nat;
  ok_words : words 32 (state c);
  ok_count : is_word 64 (count c)
}.

(** * The code of SHA_update and SHA_final, over the block transform *)
Section stream.
Variable Transform : HASH_CTX -> HASH_CTX.

(** [while (len--) { ctx->buf[i++] = *p++; if (i == 64) { Transform(ctx); i = 0; } }] *)
Fixpoint update_loop (data : list Z) (i : nat) (ctx : HASH_CTX) : HASH_CTX :=
  match data with
  | [] => ctx
  | b :: data' =>
      let ctx := set_buf i b ctx in
      let i := S i in
      if (i =? 64)%nat then update_loop data' 0 (Transform ctx)
      else update_loop data' i ctx
  end.

Definition hash_update (ctx : HASH_CTX) (data : list Z) : HASH_CTX :=
  let i := Z.to_nat (count ctx .& 63) in
  let ctx := set_count (u64 (count ctx + Z.of_nat (length data))) ctx in
  update_loop data i ctx.

(** [while ((ctx->count & 63) != 56) update(ctx, "\0", 1);] *)
Definition pad_loop (ctx : HASH_CTX) : HASH_CTX :=
  while_ 64 (fun c => negb ((count c .& 63) =? 56)) (fun c => hash_update c [0]) ctx.

(** [tmp = (uint8_t)(cnt >> ((7 - i) * 8)); update(ctx, &tmp, 1);] for [i < 8] *)
Definition length_loop (cnt : Z) (ctx : HASH_CTX) : HASH_CTX :=
  for_ 0 8 (fun i c => hash_update c [u8 (cnt >> ((7 - Z.of_nat i) * 8))]) ctx.

(** The digest is written over [ctx->buf], [n] state words of it. *)
Definition write_digest (n : nat) (ctx : HASH_CTX) : HASH_CTX :=
  for_ 0 n (fun i c =>
    let tmp := state c !!! i in
    set_buf (4 * i + 3) (u8 (tmp >> 0))
      (set_buf (4 * i + 2) (u8 (tmp >> 8))
        (set_buf (4 * i + 1) (u8 (tmp >> 16))
          (set_buf (4 * i) (u8 (tmp >> 24)) c)))) ctx.

Definition hash_final (n : nat) (ctx : HASH_CTX) : HASH_CTX :=
  let cnt := u64 (count ctx * 8) in
  let ctx := hash_update ctx [0x80] in
  let ctx := pad_loop ctx in
  let ctx := length_loop cnt ctx in
  write_digest n ctx.
End stream.

(** * Specification: FIPS 180-4, sections 5.1.1, 5.2.1 and 6 *)

(** The message cut into [n] blocks of 64 bytes. *)
Fixpoint blocks (n : nat) (m : list Z) : list (list Z) :=
  match n with
  | O => []
  | S n' => take 64 m :: blocks n' (drop 64 m)
  end.

Definition full_blocks (m : list Z) : list (list Z) := blocks (length m / 64) m.

(** [be64 v]: the 64-bit big-endian representation of [v]. *)
Definition be64 (v : Z) : list Z := map (fun i => u8 (v >> ((7 - i) * 8))) (seqZ 0 8).

(** A one bit, the least number of zero bits, the length in bits. *)
Definition pad (m : list Z) : list Z :=
  m ++ [0x80]
    ++ replicate (Z.to_nat ((55 - Z.of_nat (length m)) mod 64)) 0
    ++ be64 (8 * Z.of_nat (length m)).

Section spec.
Variable compress : list Z -> list Z -> list Z.

Definition absorb (h : list Z) (m : list Z) : list Z := fold_left compress (full_blocks m) h.

Definition hash_spec (h0 : list Z) (m : list Z) : list Z :=
  flat_map be_bytes4 (absorb h0 (pad m)).
End spec.

(** The promise of a block transform to the streaming code: it replaces the
    first [n] state words by their compression with the buffered block and
    leaves the rest of the context alone. *)
Class BlockTransform (n : nat) (Transform : HASH_CTX -> HASH_CTX)
    (compress : list Z -> list Z -> list Z) : Prop := {
  transform_state c : ctx_ok c ->
    take n (state (Transform c)) = compress (take n (state c)) (buf c);
  transform_state_length c : length (state (Transform c)) = length (state c);
  transform_state_words c : words 32 (state c) -> words 32 (state (Transform c));
  transform_buf c : buf (Transform c) = buf c;
  transform_count c : count (Transform c) = count c;
  transform_f c : f (Transform c) = f c;
  transform_words : (n <= 8)%nat
}.

(** * Lemmas on blocks *)

Lemma blocks_app n m l : (64 * n <= length m)%nat -> blocks n (m ++ l) = blocks n m.
Proof.
  revert m. induction n as [|n IH]; intros m Hm; cbn [blocks]; [done|].
  rewrite take_app_le, drop_app_le by lia. rewrite IH by (rewrite length_drop; lia). done.
Qed.

Lemma blocks_snoc n m : blocks (S n) m = blocks n m ++ [take 64 (drop (64 * n) m)].
Proof.
  revert m. induction n as [|n IH]; intros m; [by rewrite drop_0|].
  change (blocks (S (S n)) m) with (take 64 m :: blocks (S n) (drop 64 m)).
  rewrite IH, drop_drop. by replace (64 * S n)%nat with (64 + 64 * n)%nat by lia.
Qed.

Lemma full_blocks_same m l :
  (length (m ++ l) / 64 = length m / 64)%nat -> full_blocks (m ++ l) = full_blocks m.
Proof.
  intros H. unfold full_blocks. rewrite H. apply blocks_app.
  pose proof (Nat.div_mod_eq (length m) 64). lia.
Qed.

Lemma full_blocks_next m b q :
  (length m = 64 * q + 63)%nat ->
  full_blocks (m ++ [b]) = full_blocks m ++ [drop (64 * q) m ++ [b]].
Proof.
  intros H. unfold full_blocks. rewrite length_app, H. cbn [length].
  replace ((64 * q + 63 + 1) / 64)%nat with (S q) by (apply (Nat.div_unique _ _ _ 0); lia).
  replace ((64 * q + 63) / 64)%nat with q by (apply (Nat.div_unique _ _ _ 63); lia).
  rewrite blocks_snoc, blocks_app, drop_app_le by lia.
  rewrite take_ge; [done|]. rewrite length_app, length_drop. cbn. lia.
Qed.

Lemma land63 x : 0 <= x -> x .& 63 = x mod 64.
Proof. intros. exact (Z.land_ones x 6 ltac:(lia)). Qed.

(** * Refinement of the streaming code to the specification *)
Section refine.
Context {n : nat} {Transform : HASH_CTX -> HASH_CTX} {compress : list Z -> list Z -> list Z}.
Context `{!BlockTransform n Transform compress}.
Variable h0 : list Z.

(** The context has absorbed [m]: the full blocks of [m] are compressed into
    the state, the rest of [m] is in the buffer. *)
Record absorbed (c : HASH_CTX) (m : list Z) : Prop := {
  abs_ok : ctx_ok c;
  abs_state : take n (state c) = absorb compress h0 m;
  abs_buf : take (length m mod 64) (buf c) = drop (64 * (length m / 64)) m
}.

Lemma set_buf_ok i b c : ctx_ok c -> is_word 8 b -> ctx_ok (set_buf i b c).
Proof. intros [] Hb. split; cbn; rewrite ?length_insert; auto with words. Qed.

Lemma transform_ok c : ctx_ok c -> ctx_ok (Transform c).
Proof.
  intros []. split; rewrite ?transform_buf, ?transform_state_length, ?transform_count; try done.
  by apply transform_state_words.
Qed.

Lemma absorbed_step c m b :
  absorbed c m -> is_word 8 b ->
  let i := (length m mod 64)%nat in
  let c1 := set_buf i b c in
  absorbed (if (S i =? 64)%nat then Transform c1 else c1) (m ++ [b]).
Proof.
  intros [Hok Hst Hbuf] Hb i c1.
  pose proof (Nat.div_mod_eq (length m) 64) as Hdm. fold i in Hdm, Hbuf.
  pose proof (Nat.mod_upper_bound (length m) 64 ltac:(lia)) as Hi. fold i in Hi.
  assert (ctx_ok c1) as Hok1 by by apply set_buf_ok.
  assert (take (S i) (buf c1) = drop (64 * (length m / 64)) m ++ [b]) as Hbuf1.
  { assert (i < length (buf c))%nat by (rewrite ok_buf by done; lia).
    change (buf c1) with (<[i := b]> (buf c)).
    rewrite (take_S_r _ _ b) by by apply list_lookup_insert_eq.
    by rewrite take_insert_ge, Hbuf by lia. }
  set (q := (length m / 64)%nat) in *. clearbody i q.
  destruct (Nat.eqb_spec (S i) 64) as [Hlast|Hlast].
  - split; [by apply transform_ok | |].
    + rewrite transform_state by done. cbn [state c1 set_buf].
      rewrite Hst. unfold absorb. rewrite (full_blocks_next m b q), fold_left_app by lia.
      cbn [fold_left]. rewrite <- Hbuf1, Hlast, take_ge; [done|].
      rewrite ok_buf by done. lia.
    + rewrite length_app. cbn [length].
      rewrite <- (Nat.mod_unique (length m + 1) 64 (S q) 0) by lia.
      rewrite <- (Nat.div_unique (length m + 1) 64 (S q) 0) by lia.
      rewrite take_0, drop_ge; [done|]. rewrite length_app. cbn [length]. lia.
  - assert (length (m ++ [b]) / 64 = q)%nat as Hq.
    { rewrite length_app. cbn [length]. symmetry. apply (Nat.div_unique _ _ _ (S i)); lia. }
    split; [done | |].
    + cbn [state c1 set_buf]. rewrite Hst. unfold absorb.
      rewrite full_blocks_same; [done|]. rewrite Hq.
      apply (Nat.div_unique _ _ _ i); lia.
    + rewrite Hq, <- (Nat.mod_unique (length (m ++ [b])) 64 q (S i))
        by (rewrite ?length_app; cbn [length]; lia).
      rewrite Hbuf1, drop_app_le by lia. done.
Qed.

Lemma update_loop_absorbed data c m :
  absorbed c m -> words 8 data -> absorbed (update_loop Transform data (length m mod 64) c) (m ++ data).
Proof.
  revert c m. induction data as [|b data IH]; intros c m H Hd; cbn [update_loop].
  { by rewrite app_nil_r. }
  apply Forall_cons in Hd as [Hb Hd].
  pose proof (absorbed_step c m b H Hb) as Hs. cbv zeta in Hs.
  replace (m ++ b :: data) with ((m ++ [b]) ++ data) by by rewrite <- app_assoc.
  pose proof (Nat.div_mod_eq (length m) 64).
  pose proof (Nat.mod_upper_bound (length m) 64 ltac:(lia)).
  destruct (Nat.eqb_spec (S (length m mod 64)) 64) as [E|E]; specialize (IH _ _ Hs Hd);
    rewrite length_app in IH; cbn [length] in IH.
  - by rewrite <- (Nat.mod_unique (length m + 1) 64 (S (length m / 64)) 0) in IH by lia.
  - by rewrite <- (Nat.mod_unique (length m + 1) 64 (length m / 64) (S (length m mod 64))) in IH by lia.
Qed.

Lemma update_loop_count data i c : count (update_loop Transform data i c) = count c.
Proof.
  revert i c. induction data as [|b data IH]; intros i c; cbn [update_loop]; [done|].
  destruct (S i =? 64)%nat; rewrite IH, ?transform_count; done.
Qed.

Lemma update_loop_f data i c : f (update_loop Transform data i c) = f c.
Proof.
  revert i c. induction data as [|b data IH]; intros i c; cbn [update_loop]; [done|].
  destruct (S i =? 64)%nat; rewrite IH, ?transform_f; done.
Qed.

(** The context between two calls: [m] absorbed and counted. *)
Record holds (c : HASH_CTX) (m : list Z) : Prop := {
  holds_absorbed : absorbed c m;
  holds_count : count c = u64 (Z.of_nat (length m))
}.

Lemma holds_index c m : holds c m -> Z.to_nat (count c .& 63) = (length m mod 64)%nat.
Proof.
  intros [[Hok _ _] Hc]. pose proof (ok_count _ Hok) as [? _].
  rewrite land63, Hc, u64_mod by done.
  rewrite (Z.mod_mod_divide _ (2 ^ 64) 64) by by exists (2 ^ 58).
  rewrite <- (Nat2Z.id (length m mod 64)), Nat2Z.inj_mod. done.
Qed.

Lemma set_count_absorbed k c m : is_word 64 k -> absorbed c m -> absorbed (set_count k c) m.
Proof. intros Hk [[] Hs Hb]. by repeat split; try apply Hk. Qed.

Lemma hash_update_holds c m data :
  holds c m -> words 8 data -> holds (hash_update Transform c data) (m ++ data).
Proof.
  intros H Hd. unfold hash_update. rewrite (holds_index c m H). destruct H as [Ha Hc]. split.
  - apply update_loop_absorbed; [apply set_count_absorbed; auto with words | done].
  - rewrite update_loop_count. cbn. rewrite Hc, u64_add_l, length_app, Nat2Z.inj_add. done.
Qed.

Lemma hash_update_f c data : f (hash_update Transform c data) = f c.
Proof. unfold hash_update. by rewrite update_loop_f. Qed.

Lemma pad_while_holds fuel c m :
  holds c m -> (56 - Z.of_nat (length m)) mod 64 < Z.of_nat fuel ->
  let c' := while_ fuel (fun c => negb ((count c .& 63) =? 56))
              (fun c => hash_update Transform c [0]) c in
  holds c' (m ++ replicate (Z.to_nat ((56 - Z.of_nat (length m)) mod 64)) 0)
  /\ count c' .& 63 = 56.
Proof.
  revert c m. induction fuel as [|fuel IH]; intros c m H Hk; cbn [while_].
  { pose proof (Z.mod_pos_bound (56 - Z.of_nat (length m)) 64 ltac:(lia)). lia. }
  assert (count c .& 63 = Z.of_nat (length m) mod 64) as Hi.
  { pose proof (holds_index c m H) as Hi.
    assert (0 <= count c .& 63).
    { apply Z.land_nonneg. lia. }
    rewrite <- (Z2Nat.id (count c .& 63)), Hi, Nat2Z.inj_mod by done. done. }
  set (L := Z.of_nat (length m)) in *.
  destruct (Z.eqb_spec (count c .& 63) 56) as [E|E]; cbn [negb].
  - split; [|done]. rewrite Hi in E.
    replace ((56 - L) mod 64) with 0; [by rewrite app_nil_r|].
    rewrite Zminus_mod, E. done.
  - assert ((56 - L) mod 64 = (56 - (L + 1)) mod 64 + 1) as Hn.
    { rewrite Hi in E. Z.div_mod_to_equations. lia. }
    destruct (IH (hash_update Transform c [0]) (m ++ [0])) as [IH1 IH2].
    + apply hash_update_holds; [done|]. by repeat constructor.
    + rewrite length_app. cbn. fold L. rewrite Nat2Z.inj_add. fold L. lia.
    + split; [|done]. rewrite length_app, Nat2Z.inj_add in IH1. fold L in IH1.
      change (Z.of_nat (length [0])) with 1 in IH1.
      pose proof (Z.mod_pos_bound (56 - (L + 1)) 64 ltac:(lia)).
      rewrite Hn, Z2Nat.inj_add, Nat.add_comm by lia. cbn.
      by rewrite <- app_assoc in IH1.
Qed.

Lemma length_loop_holds cnt c m :
  holds c m ->
  holds (length_loop Transform cnt c) (m ++ map (fun i => u8 (cnt >> ((7 - i) * 8))) (seqZ 0 8)).
Proof.
  intros H. unfold length_loop. cbn [for_].
  change (seqZ 0 8) with [0; 1; 2; 3; 4; 5; 6; 7]. cbn [map].
  repeat (match goal with |- holds _ (_ ++ ?x :: ?l) =>
    change (x :: l) with ([x] ++ l) end; rewrite app_assoc).
  rewrite app_nil_r. do 8 (apply hash_update_holds; [|by auto with words]). done.
Qed.

Lemma take_insert4 {A} (l : list A) i a b c d :
  (i + 4 <= length l)%nat ->
  take (i + 4) (<[i+3:=d]> (<[i+2:=c]> (<[i+1:=b]> (<[i:=a]> l))))%nat = take i l ++ [a; b; c; d].
Proof.
  intros H. apply list_eq. intros j. destruct (decide (j < i + 4)%nat) as [Hj|Hj].
  - rewrite lookup_take_lt by done. destruct (decide (j < i)%nat).
    + rewrite lookup_app_l, lookup_take_lt, !list_lookup_insert_ne
        by (rewrite ?length_take; lia). done.
    + assert (j = i \/ j = i + 1 \/ j = i + 2 \/ j = i + 3)%nat as Hc by lia.
      rewrite lookup_app_r, length_take, Nat.min_l by (rewrite ?length_take; lia).
      destruct Hc as [->|[->|[->| ->]]];
        repeat (rewrite list_lookup_insert_ne by lia);
        rewrite list_lookup_insert_eq by (rewrite ?length_insert; lia).
      * by rewrite Nat.sub_diag.
      * by replace (i + 1 - i)%nat with 1%nat by lia.
      * by replace (i + 2 - i)%nat with 2%nat by lia.
      * by replace (i + 3 - i)%nat with 3%nat by lia.
  - rewrite !lookup_ge_None_2; [done | |];
      rewrite ?length_app, ?length_take, ?length_insert; cbn [length]; lia.
Qed.

Lemma write_digest_buf k c :
  ctx_ok c -> (k <= 8)%nat ->
  take (4 * k) (buf (write_digest k c)) = flat_map be_bytes4 (take k (state c)).
Proof.
  intros Hok Hk.
  pose (P := fun (i : nat) (c' : HASH_CTX) => state c' = state c /\ length (buf c') = 64%nat
    /\ take (4 * i) (buf c') = flat_map be_bytes4 (take i (state c))).
  cut (P (0 + k)%nat (write_digest k c)); [by intros (_ & _ & H)|].
  unfold write_digest. apply for_inv.
  { split; [done | split; [by apply ok_buf | by rewrite !take_0]]. }
  intros i c' Hi (Hst & Hlen & Hbuf). split; [done | split].
  - cbn. by rewrite !length_insert.
  - cbn [buf set_buf]. replace (4 * S i)%nat with (4 * i + 4)%nat by lia.
    rewrite take_insert4 by lia. rewrite Hbuf, Hst.
    assert (i < length (state c))%nat as Hi' by (rewrite ok_state by done; lia).
    rewrite (take_S_r (state c) i (state c !!! i)) by by apply list_lookup_lookup_total_lt.
    by rewrite flat_map_app.
Qed.

Lemma be64_u64 v : map (fun i => u8 (u64 v >> ((7 - i) * 8))) (seqZ 0 8) = be64 v.
Proof.
  unfold be64. apply map_ext_in. intros i Hi. apply list_elem_of_In, elem_of_seqZ in Hi.
  rewrite !u8_mod, u64_mod. apply Z.bits_inj'. intros j Hj.
  destruct (Z.lt_ge_cases j 8).
  - rewrite !Z.mod_pow2_bits_low, !Z.shiftr_spec, Z.mod_pow2_bits_low by lia. done.
  - by rewrite !Z.mod_pow2_bits_high by lia.
Qed.

Lemma hash_final_holds c m :
  holds c m ->
  take (4 * n) (buf (hash_final Transform n c)) = hash_spec compress h0 m.
Proof.
  intros H. unfold hash_final, hash_spec, pad.
  pose proof (hash_update_holds _ _ [0x80] H ltac:(by repeat constructor)) as H1.
  destruct (pad_while_holds 64 _ _ H1) as [H2 _]; [by apply Z.mod_pos_bound|].
  pose proof (length_loop_holds (u64 (count c * 8)) _ _ H2) as [[Hok Hst _] _].
  rewrite write_digest_buf; [ | done | apply transform_words].
  fold (pad_loop Transform (hash_update Transform c [128])) in Hst.
  rewrite Hst. do 2 f_equal.
  assert (count c = u64 (Z.of_nat (length m))) as -> by apply H.
  rewrite length_app, Nat2Z.inj_add, <- !app_assoc. change (Z.of_nat (length [128])) with 1.
  replace (56 - (Z.of_nat (length m) + 1)) with (55 - Z.of_nat (length m)) by lia.
  do 3 f_equal. rewrite <- (be64_u64 (8 * _)), !u64_mod, Zmult_mod_idemp_l.
  by rewrite Z.mul_comm.
Qed.

Lemma pad_loop_exits c m :
  holds c m -> count (pad_loop Transform c) .& 63 = 56.
Proof. intros H. apply (pad_while_holds 64 c m H). by apply Z.mod_pos_bound. Qed.
End refine.

Create HintDb hash discriminated.

#[export] Hint Resolve hash_update_holds transform_ok set_buf_ok : hash.
