(* ===== verification/Sha.v ===== *)
(** * SHA-1: libmincrypt/sha.c

    The functions of sha.c, the FIPS 180-4 definition of SHA-1, and the
    refinement of the first to the second. *)
From S2P Require Import Prelude Hash.

Definition SHA_DIGEST_SIZE : nat := 20.

(** [#define rol(bits, value) (((value) << (bits)) | ((value) >> (32 - (bits))))] *)
Definition rol (bits value : Z) : Z := u32 (value << bits) .| (value >> (32 - bits)).

(** The first loop of SHA1_Transform: [W[t]] from [ctx->buf], big endian. *)
Definition SHA1_load (p : list Z) (W : list Z) : list Z :=
  for_ 0 16 (fun t W =>
    <[t := be_word (p !!! (4 * t)%nat) (p !!! (4 * t + 1)%nat)
                   (p !!! (4 * t + 2)%nat) (p !!! (4 * t + 3)%nat)]> W) W.

(** The second loop: the message schedule. *)
Definition SHA1_schedule (W : list Z) : list Z :=
  for_ 16 64 (fun t W =>
    <[t := rol 1 (W !!! (t-3)%nat .^ W !!! (t-8)%nat .^ W !!! (t-14)%nat .^ W !!! (t-16)%nat)]> W) W.

(** The working variables [A, B, C, D, E]. *)
Definition vars5 : Type := Z * Z * Z * Z * Z.

(** One iteration of the third loop. *)
Definition SHA1_round (W : list Z) (t : nat) (v : vars5) : vars5 :=
  let '(A, B, C, D, E) := v in
  let tmp := u32 (rol 5 A + E + W !!! t) in
  let tmp :=
    if (t <? 20)%nat then u32 (tmp + ((D .^ (B .& (C .^ D))) + 0x5A827999))
    else if (t <? 40)%nat then u32 (tmp + ((B .^ C .^ D) + 0x6ED9EBA1))
    else if (t <? 60)%nat then u32 (tmp + (((B .& C) .| (D .& (B .| C))) + 0x8F1BBCDC))
    else u32 (tmp + ((B .^ C .^ D) + 0xCA62C1D6)) in
  (tmp, A, rol 30 B, C, D).

Definition SHA1_Transform (ctx : HASH_CTX) : HASH_CTX :=
  let W := SHA1_schedule (SHA1_load (buf ctx) (replicate 80 0)) in
  let s := state ctx in
  let '(A, B, C, D, E) :=
    for_ 0 80 (SHA1_round W) (s !!! 0%nat, s !!! 1%nat, s !!! 2%nat, s !!! 3%nat, s !!! 4%nat) in
  let ctx := set_state 0 (u32 (state ctx !!! 0%nat + A)) ctx in
  let ctx := set_state 1 (u32 (state ctx !!! 1%nat + B)) ctx in
  let ctx := set_state 2 (u32 (state ctx !!! 2%nat + C)) ctx in
  let ctx := set_state 3 (u32 (state ctx !!! 3%nat + D)) ctx in
  set_state 4 (u32 (state ctx !!! 4%nat + E)) ctx.

Definition SHA_init (ctx : HASH_CTX) : HASH_CTX :=
  let ctx := set_f SHA_VTAB ctx in
  let ctx := set_state 0 0x67452301 ctx in
  let ctx := set_state 1 0xEFCDAB89 ctx in
  let ctx := set_state 2 0x98BADCFE ctx in
  let ctx := set_state 3 0x10325476 ctx in
  let ctx := set_state 4 0xC3D2E1F0 ctx in
  set_count 0 ctx.

Definition SHA_update (ctx : HASH_CTX) (data : list Z) : HASH_CTX :=
  hash_update SHA1_Transform ctx data.

(** The returned pointer is [ctx->buf], whose first 20 bytes are the digest. *)
Definition SHA_final (ctx : HASH_CTX) : HASH_CTX := hash_final SHA1_Transform 5 ctx.

(** [ctx] is the uninitialised local variable of the C function. *)
Definition SHA_hash (ctx : HASH_CTX) (data : list Z) : list Z :=
  let ctx := SHA_init ctx in
  let ctx := SHA_update ctx data in
  take SHA_DIGEST_SIZE (buf (SHA_final ctx)).

(** * Specification: FIPS 180-4, sections 4.1.1, 4.2.1, 5.3.1 and 6.1.2 *)
Module Sha1Spec.
Definition ROTL (n x : Z) : Z := (x * 2 ^ n) mod 2 ^ 32 + x / 2 ^ (32 - n).
Definition NOT (x : Z) : Z := 2 ^ 32 - 1 - x.
Definition Ch (x y z : Z) : Z := (x .& y) .^ (NOT x .& z).
Definition Parity (x y z : Z) : Z := x .^ y .^ z.
Definition Maj (x y z : Z) : Z := (x .& y) .^ (x .& z) .^ (y .& z).

Definition ft (t : nat) : Z -> Z -> Z -> Z :=
  if (t <=? 19)%nat then Ch else if (t <=? 39)%nat then Parity
  else if (t <=? 59)%nat then Maj else Parity.
Definition Kt (t : nat) : Z :=
  if (t <=? 19)%nat then 0x5a827999 else if (t <=? 39)%nat then 0x6ed9eba1
  else if (t <=? 59)%nat then 0x8f1bbcdc else 0xca62c1d6.

(** The message block as sixteen words, extended to eighty. *)
Definition words_of (M : list Z) : list Z :=
  map (fun t => be_eval 8 (take 4 (drop (4 * t) M))) (seq 0 16).
Definition Wt (t : nat) (W : list Z) : Z :=
  ROTL 1 (W !!! (t-3)%nat .^ W !!! (t-8)%nat .^ W !!! (t-14)%nat .^ W !!! (t-16)%nat).
Definition schedule (M : list Z) : list Z := extend Wt 64 (words_of M).

Definition step (W : list Z) (t : nat) (v : vars5) : vars5 :=
  let '(a, b, c, d, e) := v in
  ((ROTL 5 a + ft t b c d + e + Kt t + W !!! t) mod 2 ^ 32, a, ROTL 30 b, c, d).

Definition compress (H M : list Z) : list Z :=
  match H with
  | [h0; h1; h2; h3; h4] =>
      let '(a, b, c, d, e) := for_ 0 80 (step (schedule M)) (h0, h1, h2, h3, h4) in
      [(h0 + a) mod 2 ^ 32; (h1 + b) mod 2 ^ 32; (h2 + c) mod 2 ^ 32;
       (h3 + d) mod 2 ^ 32; (h4 + e) mod 2 ^ 32]
  | _ => H
  end.

Definition H0 : list Z := [0x67452301; 0xefcdab89; 0x98badcfe; 0x10325476; 0xc3d2e1f0].

Definition SHA1 (m : list Z) : list Z := hash_spec compress H0 m.
End Sha1Spec.

(** * Refinement *)

Lemma rol_ROTL n x : 0 <= n <= 32 -> is_word 32 x -> rol n x = Sha1Spec.ROTL n x.
Proof.
  intros Hn Hx. unfold rol, Sha1Spec.ROTL. set (k := 32 - n).
  assert (2 ^ 32 = 2 ^ k * 2 ^ n) as E32 by (rewrite <- Z.pow_add_r by lia; f_equal; lia).
  assert (0 < 2 ^ k) by (apply Z.pow_pos_nonneg; lia).
  assert (0 < 2 ^ n) by (apply Z.pow_pos_nonneg; lia).
  assert (is_word n (x >> k)) as Hr.
  { rewrite Z.shiftr_div_pow2 by lia. destruct Hx as [Hx0 Hx]. split; [by apply Z.div_pos|].
    apply Z.div_lt_upper_bound; [done|]. lia. }
  assert ((x * 2 ^ n) mod 2 ^ 32 = (x mod 2 ^ k) * 2 ^ n) as E
    by (rewrite E32; apply Z.mul_mod_distr_r; lia).
  rewrite u32_mod, Z.shiftl_mul_pow2, E by lia.
  rewrite <- (Z.shiftl_mul_pow2 (x mod 2 ^ k)), Z.lor_comm, lor_add by (lia || done).
  rewrite Z.shiftr_div_pow2, Z.shiftl_mul_pow2 by lia. lia.
Qed.

Lemma rol_range n x : 0 <= n <= 32 -> is_word 32 x -> is_word 32 (rol n x).
Proof. intros. unfold rol. auto with words lia. Qed.

Lemma NOT_testbit x i :
  is_word 32 x -> 0 <= i -> Z.testbit (Sha1Spec.NOT x) i = (i <? 32) && negb (Z.testbit x i).
Proof.
  intros Hx Hi. unfold Sha1Spec.NOT. change (2 ^ 32 - 1) with (Z.ones 32).
  rewrite Z.sub_nocarry_ldiff.
  - rewrite Z.ldiff_spec, Z.testbit_ones_nonneg by lia. done.
  - apply Z.bits_inj'. intros j Hj. rewrite Z.ldiff_spec, Z.bits_0, Z.testbit_ones_nonneg by lia.
    destruct (Z.ltb_spec j 32); [by rewrite andb_false_r|].
    by rewrite (is_word_testbit 32 x).
Qed.

Lemma ch_eq b c d :
  is_word 32 b -> is_word 32 c -> is_word 32 d -> d .^ (b .& (c .^ d)) = Sha1Spec.Ch b c d.
Proof.
  intros Hb Hc Hd. apply Z.bits_inj'. intros i Hi. unfold Sha1Spec.Ch.
  rewrite !Z.lxor_spec, !Z.land_spec, Z.lxor_spec, NOT_testbit by done.
  destruct (Z.ltb_spec i 32).
  - by destruct (Z.testbit b i), (Z.testbit c i), (Z.testbit d i).
  - by rewrite (is_word_testbit 32 b), (is_word_testbit 32 d).
Qed.

Lemma maj_eq b c d : (b .& c) .| (d .& (b .| c)) = Sha1Spec.Maj b c d.
Proof.
  apply Z.bits_inj'. intros i Hi. unfold Sha1Spec.Maj.
  rewrite !Z.lxor_spec, !Z.lor_spec, !Z.land_spec, Z.lor_spec.
  by destruct (Z.testbit b i), (Z.testbit c i), (Z.testbit d i).
Qed.

Definition vars5_ok (v : vars5) : Prop :=
  let '(a, b, c, d, e) := v in
  is_word 32 a /\ is_word 32 b /\ is_word 32 c /\ is_word 32 d /\ is_word 32 e.

Lemma SHA1_round_eq W t v :
  words 32 W -> vars5_ok v -> SHA1_round W t v = Sha1Spec.step W t v.
Proof.
  intros HW. destruct v as [[[[a b] c] d] e]. intros (Ha & Hb & Hc & Hd & He).
  unfold SHA1_round, Sha1Spec.step, Sha1Spec.ft, Sha1Spec.Kt.
  rewrite !rol_ROTL, ch_eq, maj_eq by (lia || done).
  assert (forall k, (t <=? k)%nat = (t <? S k)%nat) as Hle by done.
  rewrite !Hle.
  destruct (t <? 20)%nat, (t <? 40)%nat, (t <? 60)%nat;
    autorewrite with pull_words; rewrite u32_mod; unfold Sha1Spec.Parity;
    match goal with |- (?x mod _, _, _, _, _) = (?y mod _, _, _, _, _) =>
      by replace x with y by lia end.
Qed.

Lemma SHA1_round_ok W t v : vars5_ok v -> vars5_ok (SHA1_round W t v).
Proof.
  destruct v as [[[[a b] c] d] e]. intros (Ha & Hb & Hc & Hd & He). unfold SHA1_round.
  repeat split; try (by apply Ha || by apply Hb || by apply Hc || by apply Hd);
    try (apply rol_range; [lia | done]);
    repeat case_match; apply u32_range.
Qed.

(** The array after the first two loops is the FIPS message schedule. *)
Lemma SHA1_load_eq p k :
  length p = 64%nat -> words 8 p ->
  SHA1_load p (replicate (16 + k) 0) = Sha1Spec.words_of p ++ replicate k 0.
Proof.
  intros Hlen Hp. unfold SHA1_load.
  rewrite (fill_map (fun t => be_word (p !!! (4 * t)%nat) (p !!! (4 * t + 1)%nat)
                                      (p !!! (4 * t + 2)%nat) (p !!! (4 * t + 3)%nat)) 16 k).
  rewrite be_word_array by (done || lia). done.
Qed.

Lemma words_of_words p : words 8 p -> words 32 (Sha1Spec.words_of p).
Proof.
  intros Hp. apply Forall_map, Forall_forall. intros t _. unfold be_eval.
  pose proof (le_eval_bound 8 (rev (take 4 (drop (4 * t) p))) ltac:(lia)) as [? H].
  { by apply Forall_rev, Forall_take, Forall_drop. }
  split; [done|]. eapply Z.lt_le_trans; [exact H|].
  rewrite length_rev, length_take. apply Z.pow_le_mono_r; lia.
Qed.

Lemma SHA1_schedule_eq p :
  length p = 64%nat -> words 8 p ->
  SHA1_schedule (SHA1_load p (replicate 80 0)) = Sha1Spec.schedule p.
Proof.
  intros Hlen Hp. change (replicate 80 0) with (replicate (16 + 64) 0).
  rewrite SHA1_load_eq by done. unfold SHA1_schedule, Sha1Spec.schedule.
  pose (g := fun (t : nat) (W : list Z) =>
    rol 1 (W !!! (t-3)%nat .^ W !!! (t-8)%nat .^ W !!! (t-14)%nat .^ W !!! (t-16)%nat)).
  assert (length (Sha1Spec.words_of p) = 16%nat) as Hl16 by done.
  pose proof (fill_spec g 64 (Sha1Spec.words_of p) 0 0) as E.
  rewrite Hl16, app_nil_r in E. etransitivity; [apply E|].
  { intros l r Hl. unfold g. by rewrite !lookup_total_app_l by lia. }
  apply (extend_ext (Forall (is_word 32))); [by apply words_of_words|].
  intros l Hl _. assert (forall i, is_word 32 (l !!! i)) as Hi by (by intros; apply words_lookup_total).
  split.
  - apply rol_ROTL; [lia|]. auto with words lia.
  - apply words_app; [done|]. repeat constructor; apply rol_range; auto with words lia.
Qed.

Lemma SHA1_rounds_eq W v n :
  words 32 W -> vars5_ok v ->
  for_ 0 n (SHA1_round W) v = for_ 0 n (Sha1Spec.step W) v
  /\ vars5_ok (for_ 0 n (SHA1_round W) v).
Proof.
  intros HW Hv. induction n as [|n [IH1 IH2]]; [done|].
  rewrite !for_last, <- IH1, <- SHA1_round_eq by done. split; [done|].
  by apply SHA1_round_ok.
Qed.

#[export] Instance sha1_transform : BlockTransform 5 SHA1_Transform Sha1Spec.compress.
Proof.
  split; [ | | | | | | lia]; intros c;
    try (unfold SHA1_Transform; destruct (for_ 0 80 _ _) as [[[[? ?] ?] ?] ?]; try done;
         cbn [state set_state]; rewrite ?length_insert; auto 10 with words; done).
  intros [Hbuf Hbytes Hst Hwords].
  assert (words 32 (Sha1Spec.schedule (buf c))) as HW.
  { rewrite <- SHA1_schedule_eq by done. unfold SHA1_schedule.
    apply (for_inv (fun _ W => words 32 W)).
    - unfold SHA1_load. apply (for_inv (fun _ W => words 32 W)).
      + by apply Forall_replicate.
      + intros i W _ HW. apply words_insert; [done|]. apply u32_range.
    - intros i W _ HW. apply words_insert; [done|].
      assert (forall i, is_word 32 (W !!! i)) by (intros; by apply words_lookup_total).
      apply rol_range; auto with words lia. }
  destruct (state c) as [|s0 [|s1 [|s2 [|s3 [|s4 [|s5 [|s6 [|s7 [|]]]]]]]]] eqn:Es; try discriminate Hst.
  inv_words.
  unfold SHA1_Transform, Sha1Spec.compress. rewrite Es, SHA1_schedule_eq by done. cbn [take].
  destruct (SHA1_rounds_eq (Sha1Spec.schedule (buf c)) (s0, s1, s2, s3, s4) 80 HW) as [E _]; [done|].
  cbn [lookup_total list_lookup_total]. rewrite E. clear E.
  destruct (for_ 0 80 _ _) as [[[[a b] cc] d] e].
  cbn [set_state state]. rewrite Es. cbn [lookup_total list_lookup_total insert list_insert take].
  by rewrite !u32_mod.
Qed.

Lemma SHA_init_holds c : ctx_ok c -> holds (n := 5) (compress := Sha1Spec.compress) Sha1Spec.H0 (SHA_init c) [].
Proof.
  intros [Hbuf Hbytes Hst Hwords Hcount].
  destruct (state c) as [|s0 [|s1 [|s2 [|s3 [|s4 [|s5 [|s6 [|s7 [|]]]]]]]]] eqn:Es; try discriminate Hst.
  unfold SHA_init. split; [|done]. split; [|by cbn; rewrite Es|done].
  split; cbn; rewrite ?Es; try done. cbn. inv_words.
  repeat (apply Forall_cons_2; [done || (unfold is_word; lia)|]). done.
Qed.

Lemma SHA_updates_hold chunks c m :
  holds (n := 5) (compress := Sha1Spec.compress) Sha1Spec.H0 c m -> Forall (Forall (is_word 8)) chunks ->
  holds (n := 5) (compress := Sha1Spec.compress) Sha1Spec.H0 (fold_left SHA_update chunks c) (m ++ concat chunks).
Proof.
  intros H Hb. revert c m H. induction Hb as [|d chunks Hd Hb IH]; intros c m H; cbn [fold_left concat].
  - by rewrite app_nil_r.
  - rewrite app_assoc. apply IH. by apply hash_update_holds.
Qed.

(** C2.  Streaming SHA-1 is SHA-1: whatever was in the context before
    [SHA_init], and however the message is cut into [SHA_update] calls, the
    first twenty bytes of [ctx->buf] after [SHA_final] are the FIPS 180-4
    SHA-1 digest of the concatenated message. *)
Theorem SHA_stream_correct ctx chunks :
  ctx_ok ctx -> Forall (Forall (is_word 8)) chunks ->
  take SHA_DIGEST_SIZE (buf (SHA_final (fold_left SHA_update chunks (SHA_init ctx))))
  = Sha1Spec.SHA1 (concat chunks).
Proof.
  intros Hok Hb. pose proof (SHA_updates_hold chunks _ [] (SHA_init_holds ctx Hok) Hb) as H.
  exact (hash_final_holds Sha1Spec.H0 _ _ H).
Qed.

(** An all-zero context, for the concrete runs. *)
Definition zero_ctx : HASH_CTX :=
  {| f := SHA_VTAB; count := 0; buf := replicate 64 0; state := replicate 8 0 |}.

Lemma zero_ctx_ok : ctx_ok zero_ctx.
Proof. split; try done; by apply Forall_replicate. Qed.

Lemma SHA_hash_spec ctx data :
  ctx_ok ctx -> Forall (is_word 8) data -> SHA_hash ctx data = Sha1Spec.SHA1 data.
Proof.
  intros Hok Hd. pose proof (SHA_updates_hold [data] _ [] (SHA_init_holds ctx Hok)) as H.
  cbn [fold_left concat app] in H. rewrite app_nil_r in H.
  exact (hash_final_holds Sha1Spec.H0 _ _ (H ltac:(by constructor))).
Qed.

Lemma SHA_stream_correct_witness :
  take SHA_DIGEST_SIZE (buf (SHA_final (fold_left SHA_update [[0x61]; [0x62; 0x63]] (SHA_init zero_ctx))))
    = Sha1Spec.SHA1 [0x61; 0x62; 0x63]
  /\ Sha1Spec.SHA1 [0x61; 0x62; 0x63]
    = [0xa9; 0x99; 0x3e; 0x36; 0x47; 0x06; 0x81; 0x6a; 0xba; 0x3e;
       0x25; 0x71; 0x78; 0x50; 0xc2; 0x6c; 0x9c; 0xd0; 0xd8; 0x9d].
Proof.
  split; [|vm_compute; reflexivity].
  apply (SHA_stream_correct zero_ctx [[0x61]; [0x62; 0x63]]).
  - exact zero_ctx_ok.
  - repeat constructor; unfold is_word; lia.
Defined.
