(* ===== verification/Sha256.v ===== *)
(** * SHA-256: libmincrypt/sha256.c, and the dispatch macros of hash-internal.h

    The functions of sha256.c, the FIPS 180-4 definition of SHA-256, the
    refinement of the first to the second, and [HASH_init], [HASH_update],
    [HASH_final], [HASH_hash], [HASH_size] over the two function tables. *)
From S2P Require Import Prelude Hash Sha.

Definition SHA256_DIGEST_SIZE : nat := 32.

(** [#define ror(value, bits) (((value) >> (bits)) | ((value) << (32 - (bits))))] *)
Definition ror (value bits : Z) : Z := (value >> bits) .| u32 (value << (32 - bits)).
(** [#define shr(value, bits) ((value) >> (bits))] *)
Definition shr (value bits : Z) : Z := value >> bits.

Definition K : list Z := [
  0x428A2F98; 0x71374491; 0xB5C0FBCF; 0xE9B5DBA5;
  0x3956C25B; 0x59F111F1; 0x923F82A4; 0xAB1C5ED5;
  0xD807AA98; 0x12835B01; 0x243185BE; 0x550C7DC3;
  0x72BE5D74; 0x80DEB1FE; 0x9BDC06A7; 0xC19BF174;
  0xE49B69C1; 0xEFBE4786; 0x0FC19DC6; 0x240CA1CC;
  0x2DE92C6F; 0x4A7484AA; 0x5CB0A9DC; 0x76F988DA;
  0x983E5152; 0xA831C66D; 0xB00327C8; 0xBF597FC7;
  0xC6E00BF3; 0xD5A79147; 0x06CA6351; 0x14292967;
  0x27B70A85; 0x2E1B2138; 0x4D2C6DFC; 0x53380D13;
  0x650A7354; 0x766A0ABB; 0x81C2C92E; 0x92722C85;
  0xA2BFE8A1; 0xA81A664B; 0xC24B8B70; 0xC76C51A3;
  0xD192E819; 0xD6990624; 0xF40E3585; 0x106AA070;
  0x19A4C116; 0x1E376C08; 0x2748774C; 0x34B0BCB5;
  0x391C0CB3; 0x4ED8AA4A; 0x5B9CCA4F; 0x682E6FF3;
  0x748F82EE; 0x78A5636F; 0x84C87814; 0x8CC70208;
  0x90BEFFFA; 0xA4506CEB; 0xBEF9A3F7; 0xC67178F2 ].

(** The first loop of SHA256_Transform. *)
Definition SHA256_load (p : list Z) (W : list Z) : list Z :=
  for_ 0 16 (fun t W =>
    <[t := be_word (p !!! (4 * t)%nat) (p !!! (4 * t + 1)%nat)
                   (p !!! (4 * t + 2)%nat) (p !!! (4 * t + 3)%nat)]> W) W.

(** The right-hand side of the second loop. *)
Definition SHA256_word (t : nat) (W : list Z) : Z :=
  let s0 := ror (W !!! (t-15)%nat) 7 .^ ror (W !!! (t-15)%nat) 18 .^ shr (W !!! (t-15)%nat) 3 in
  let s1 := ror (W !!! (t-2)%nat) 17 .^ ror (W !!! (t-2)%nat) 19 .^ shr (W !!! (t-2)%nat) 10 in
  u32 (W !!! (t-16)%nat + s0 + W !!! (t-7)%nat + s1).

Definition SHA256_schedule (W : list Z) : list Z :=
  for_ 16 48 (fun t W => <[t := SHA256_word t W]> W) W.

Definition vars8 : Type := Z * Z * Z * Z * Z * Z * Z * Z.

(** One iteration of the third loop.  [~E] is [u32 (Z.lnot E)]. *)
Definition SHA256_round (W : list Z) (t : nat) (v : vars8) : vars8 :=
  let '(A, B, C, D, E, F, G, H) := v in
  let s0 := ror A 2 .^ ror A 13 .^ ror A 22 in
  let maj := (A .& B) .^ (A .& C) .^ (B .& C) in
  let t2 := u32 (s0 + maj) in
  let s1 := ror E 6 .^ ror E 11 .^ ror E 25 in
  let ch := (E .& F) .^ (u32 (Z.lnot E) .& G) in
  let t1 := u32 (H + s1 + ch + K !!! t + W !!! t) in
  (u32 (t1 + t2), A, B, C, u32 (D + t1), E, F, G).

Definition SHA256_Transform (ctx : HASH_CTX) : HASH_CTX :=
  let W := SHA256_schedule (SHA256_load (buf ctx) (replicate 64 0)) in
  let s := state ctx in
  let '(A, B, C, D, E, F, G, H) :=
    for_ 0 64 (SHA256_round W)
      (s !!! 0%nat, s !!! 1%nat, s !!! 2%nat, s !!! 3%nat,
       s !!! 4%nat, s !!! 5%nat, s !!! 6%nat, s !!! 7%nat) in
  let ctx := set_state 0 (u32 (state ctx !!! 0%nat + A)) ctx in
  let ctx := set_state 1 (u32 (state ctx !!! 1%nat + B)) ctx in
  let ctx := set_state 2 (u32 (state ctx !!! 2%nat + C)) ctx in
  let ctx := set_state 3 (u32 (state ctx !!! 3%nat + D)) ctx in
  let ctx := set_state 4 (u32 (state ctx !!! 4%nat + E)) ctx in
  let ctx := set_state 5 (u32 (state ctx !!! 5%nat + F)) ctx in
  let ctx := set_state 6 (u32 (state ctx !!! 6%nat + G)) ctx in
  set_state 7 (u32 (state ctx !!! 7%nat + H)) ctx.

Definition SHA256_init (ctx : HASH_CTX) : HASH_CTX :=
  let ctx := set_f SHA256_VTAB ctx in
  let ctx := set_state 0 0x6a09e667 ctx in
  let ctx := set_state 1 0xbb67ae85 ctx in
  let ctx := set_state 2 0x3c6ef372 ctx in
  let ctx := set_state 3 0xa54ff53a ctx in
  let ctx := set_state 4 0x510e527f ctx in
  let ctx := set_state 5 0x9b05688c ctx in
  let ctx := set_state 6 0x1f83d9ab ctx in
  let ctx := set_state 7 0x5be0cd19 ctx in
  set_count 0 ctx.

Definition SHA256_update (ctx : HASH_CTX) (data : list Z) : HASH_CTX :=
  hash_update SHA256_Transform ctx data.

Definition SHA256_final (ctx : HASH_CTX) : HASH_CTX := hash_final SHA256_Transform 8 ctx.

Definition SHA256_hash (ctx : HASH_CTX) (data : list Z) : list Z :=
  let ctx := SHA256_init ctx in
  let ctx := SHA256_update ctx data in
  take SHA256_DIGEST_SIZE (buf (SHA256_final ctx)).

(** * The dispatch macros of hash-internal.h *)

Definition HASH_init (ctx : HASH_CTX) : HASH_CTX :=
  match f ctx with SHA_VTAB => SHA_init ctx | SHA256_VTAB => SHA256_init ctx end.
Definition HASH_update (ctx : HASH_CTX) (data : list Z) : HASH_CTX :=
  match f ctx with SHA_VTAB => SHA_update ctx data | SHA256_VTAB => SHA256_update ctx data end.
Definition HASH_final (ctx : HASH_CTX) : HASH_CTX :=
  match f ctx with SHA_VTAB => SHA_final ctx | SHA256_VTAB => SHA256_final ctx end.
Definition HASH_size (ctx : HASH_CTX) : nat :=
  match f ctx with SHA_VTAB => SHA_DIGEST_SIZE | SHA256_VTAB => SHA256_DIGEST_SIZE end.

(** * Specification: FIPS 180-4, sections 4.1.2, 4.2.2, 5.3.3 and 6.2.2 *)
Module Sha256Spec.
Import Sha1Spec.
Definition ROTR (n x : Z) : Z := x / 2 ^ n + (x * 2 ^ (32 - n)) mod 2 ^ 32.
Definition SHR (n x : Z) : Z := x / 2 ^ n.
Definition Sigma0 (x : Z) : Z := ROTR 2 x .^ ROTR 13 x .^ ROTR 22 x.
Definition Sigma1 (x : Z) : Z := ROTR 6 x .^ ROTR 11 x .^ ROTR 25 x.
Definition sigma0 (x : Z) : Z := ROTR 7 x .^ ROTR 18 x .^ SHR 3 x.
Definition sigma1 (x : Z) : Z := ROTR 17 x .^ ROTR 19 x .^ SHR 10 x.

Definition Wt (t : nat) (W : list Z) : Z :=
  (sigma1 (W !!! (t-2)%nat) + W !!! (t-7)%nat + sigma0 (W !!! (t-15)%nat) + W !!! (t-16)%nat)
    mod 2 ^ 32.
Definition schedule (M : list Z) : list Z := extend Wt 48 (words_of M).

Definition step (W : list Z) (t : nat) (v : vars8) : vars8 :=
  let '(a, b, c, d, e, f, g, h) := v in
  let T1 := h + Sigma1 e + Ch e f g + K !!! t + W !!! t in
  let T2 := Sigma0 a + Maj a b c in
  ((T1 + T2) mod 2 ^ 32, a, b, c, (d + T1) mod 2 ^ 32, e, f, g).

Definition compress (H M : list Z) : list Z :=
  match H with
  | [h0; h1; h2; h3; h4; h5; h6; h7] =>
      let '(a, b, c, d, e, f, g, h) :=
        for_ 0 64 (step (schedule M)) (h0, h1, h2, h3, h4, h5, h6, h7) in
      [(h0 + a) mod 2 ^ 32; (h1 + b) mod 2 ^ 32; (h2 + c) mod 2 ^ 32; (h3 + d) mod 2 ^ 32;
       (h4 + e) mod 2 ^ 32; (h5 + f) mod 2 ^ 32; (h6 + g) mod 2 ^ 32; (h7 + h) mod 2 ^ 32]
  | _ => H
  end.

Definition H0 : list Z :=
  [0x6a09e667; 0xbb67ae85; 0x3c6ef372; 0xa54ff53a; 0x510e527f; 0x9b05688c; 0x1f83d9ab; 0x5be0cd19].

Definition SHA256 (m : list Z) : list Z := hash_spec compress H0 m.
End Sha256Spec.

Definition vars8_ok (v : vars8) : Prop :=
  let '(a, b, c, d, e, f, g, h) := v in
  is_word 32 a /\ is_word 32 b /\ is_word 32 c /\ is_word 32 d
  /\ is_word 32 e /\ is_word 32 f /\ is_word 32 g /\ is_word 32 h.

(** * Refinement *)

Lemma ror_ROTR x n : 0 <= n <= 32 -> is_word 32 x -> ror x n = Sha256Spec.ROTR n x.
Proof.
  intros Hn Hx. unfold Sha256Spec.ROTR.
  assert (ror x n = rol (32 - n) x) as ->.
  { unfold ror, rol. rewrite Z.lor_comm. do 2 f_equal. lia. }
  rewrite rol_ROTL by (lia || done). unfold Sha1Spec.ROTL.
  replace (32 - (32 - n)) with n by lia. lia.
Qed.

Lemma ror_range x n : 0 <= n <= 32 -> is_word 32 x -> is_word 32 (ror x n).
Proof. intros. unfold ror. auto with words lia. Qed.

Lemma shr_SHR x n : 0 <= n -> shr x n = Sha256Spec.SHR n x.
Proof. intros. by apply Z.shiftr_div_pow2. Qed.

Lemma not_NOT x : is_word 32 x -> u32 (Z.lnot x) = Sha1Spec.NOT x.
Proof.
  intros Hx. apply Z.bits_inj'. intros i Hi. rewrite NOT_testbit, u32_mod by done.
  destruct (Z.ltb_spec i 32).
  - by rewrite Z.mod_pow2_bits_low, Z.lnot_spec by lia.
  - by rewrite Z.mod_pow2_bits_high by lia.
Qed.

Lemma SHA256_round_eq W t v :
  vars8_ok v -> SHA256_round W t v = Sha256Spec.step W t v.
Proof.
  destruct v as [[[[[[[a b] c] d] e] f] g] h]. intros (Ha & Hb & Hc & Hd & He & Hf & Hg & Hh).
  unfold SHA256_round, Sha256Spec.step, Sha256Spec.Sigma0, Sha256Spec.Sigma1, Sha1Spec.Ch, Sha1Spec.Maj.
  rewrite !ror_ROTR, not_NOT by (lia || done).
  autorewrite with pull_words. rewrite !u32_mod. done.
Qed.

Lemma SHA256_round_ok W t v : vars8_ok v -> vars8_ok (SHA256_round W t v).
Proof.
  destruct v as [[[[[[[a b] c] d] e] f] g] h]. intros (Ha & Hb & Hc & Hd & He & Hf & Hg & Hh).
  cbn. auto 12 with words.
Qed.

Lemma SHA256_rounds_eq W v n :
  vars8_ok v ->
  for_ 0 n (SHA256_round W) v = for_ 0 n (Sha256Spec.step W) v
  /\ vars8_ok (for_ 0 n (SHA256_round W) v).
Proof.
  intros Hv. induction n as [|n [IH1 IH2]]; [done|].
  rewrite !for_last, <- IH1, <- SHA256_round_eq by done. split; [done|].
  by apply SHA256_round_ok.
Qed.

Lemma SHA256_word_eq t W : words 32 W -> SHA256_word t W = Sha256Spec.Wt t W.
Proof.
  intros HW. assert (forall i, is_word 32 (W !!! i)) by (intros; by apply words_lookup_total).
  unfold SHA256_word, Sha256Spec.Wt, Sha256Spec.sigma0, Sha256Spec.sigma1.
  rewrite !ror_ROTR, !shr_SHR, u32_mod by (lia || done). f_equal. lia.
Qed.

Lemma SHA256_schedule_eq p :
  length p = 64%nat -> words 8 p ->
  SHA256_schedule (SHA256_load p (replicate 64 0)) = Sha256Spec.schedule p.
Proof.
  intros Hlen Hp. change (replicate 64 0) with (replicate (16 + 48) 0).
  change (SHA256_load p) with (SHA1_load p).
  rewrite SHA1_load_eq by done. unfold SHA256_schedule, Sha256Spec.schedule.
  pose proof (fill_spec SHA256_word 48 (Sha1Spec.words_of p) 0 0) as E.
  assert (length (Sha1Spec.words_of p) = 16%nat) as Hl16 by done.
  rewrite Hl16, app_nil_r in E. etransitivity; [apply E|].
  { intros l r Hl. unfold SHA256_word. by rewrite !lookup_total_app_l by lia. }
  apply (extend_ext (Forall (is_word 32))); [by apply words_of_words|].
  intros l Hl _. split; [by apply SHA256_word_eq|].
  apply words_app; [done|]. repeat constructor; apply u32_range.
Qed.

#[export] Instance sha256_transform : BlockTransform 8 SHA256_Transform Sha256Spec.compress.
Proof.
  split; [ | | | | | | lia]; intros c;
    try (unfold SHA256_Transform; destruct (for_ 0 64 _ _) as [[[[[[[? ?] ?] ?] ?] ?] ?] ?]; try done;
         cbn [state set_state]; rewrite ?length_insert; auto 12 with words; done).
  intros [Hbuf Hbytes Hst Hwords].
  destruct (state c) as [|s0 [|s1 [|s2 [|s3 [|s4 [|s5 [|s6 [|s7 [|]]]]]]]]] eqn:Es; try discriminate Hst.
  inv_words.
  unfold SHA256_Transform, Sha256Spec.compress. rewrite Es, SHA256_schedule_eq by done. cbn [take].
  destruct (SHA256_rounds_eq (Sha256Spec.schedule (buf c)) (s0, s1, s2, s3, s4, s5, s6, s7) 64)
    as [E _]; [cbn; auto 12|].
  cbn [lookup_total list_lookup_total]. rewrite E. clear E.
  destruct (for_ 0 64 _ _) as [[[[[[[a b] cc] d] e] ff] g] h].
  cbn [set_state state]. rewrite Es. cbn [lookup_total list_lookup_total insert list_insert take].
  by rewrite !u32_mod.
Qed.

Abbreviation holds256 := (holds (n := 8) (compress := Sha256Spec.compress) Sha256Spec.H0).

Lemma SHA256_init_holds c : ctx_ok c -> holds256 (SHA256_init c) [].
Proof.
  intros [Hbuf Hbytes Hst Hwords Hcount].
  destruct (state c) as [|s0 [|s1 [|s2 [|s3 [|s4 [|s5 [|s6 [|s7 [|]]]]]]]]] eqn:Es; try discriminate Hst.
  unfold SHA256_init. split; [|done]. split; [|by cbn; rewrite Es|done].
  split; cbn; rewrite ?Es; try done. cbn.
  repeat (apply Forall_cons_2; [unfold is_word; lia|]). done.
Qed.

Lemma SHA256_updates_hold chunks c m :
  holds256 c m -> Forall (Forall (is_word 8)) chunks ->
  holds256 (fold_left SHA256_update chunks c) (m ++ concat chunks).
Proof.
  intros H Hb. revert c m H. induction Hb as [|d chunks Hd Hb IH]; intros c m H; cbn [fold_left concat].
  - by rewrite app_nil_r.
  - rewrite app_assoc. apply IH. by apply hash_update_holds.
Qed.

(** C1.  Streaming SHA-256 is SHA-256: for every initial content of the
    context and every cutting of the message into [SHA256_update] calls, the
    32 bytes at [ctx->buf] after [SHA256_final] are the FIPS 180-4 digest of
    the concatenated message. *)
Theorem SHA256_stream_correct ctx chunks :
  ctx_ok ctx -> Forall (Forall (is_word 8)) chunks ->
  take SHA256_DIGEST_SIZE (buf (SHA256_final (fold_left SHA256_update chunks (SHA256_init ctx))))
  = Sha256Spec.SHA256 (concat chunks).
Proof.
  intros Hok Hb. pose proof (SHA256_updates_hold chunks _ [] (SHA256_init_holds ctx Hok) Hb) as H.
  exact (hash_final_holds Sha256Spec.H0 _ _ H).
Qed.

Lemma SHA256_hash_spec ctx data :
  ctx_ok ctx -> Forall (is_word 8) data -> SHA256_hash ctx data = Sha256Spec.SHA256 data.
Proof.
  intros Hok Hd. pose proof (SHA256_updates_hold [data] _ [] (SHA256_init_holds ctx Hok)) as H.
  cbn [fold_left concat app] in H. rewrite app_nil_r in H.
  exact (hash_final_holds Sha256Spec.H0 _ _ (H ltac:(by constructor))).
Qed.

Lemma SHA256_stream_correct_witness :
  take SHA256_DIGEST_SIZE (buf (SHA256_final (fold_left SHA256_update [[0x61]; [0x62; 0x63]] (SHA256_init zero_ctx))))
    = Sha256Spec.SHA256 [0x61; 0x62; 0x63]
  /\ Sha256Spec.SHA256 [0x61; 0x62; 0x63]
    = [0xba; 0x78; 0x16; 0xbf; 0x8f; 0x01; 0xcf; 0xea; 0x41; 0x41; 0x40; 0xde; 0x5d; 0xae; 0x22; 0x23;
       0xb0; 0x03; 0x61; 0xa3; 0x96; 0x17; 0x7a; 0x9c; 0xb4; 0x10; 0xff; 0x61; 0xf2; 0x00; 0x15; 0xad].
Proof.
  split; [|vm_compute; reflexivity].
  apply (SHA256_stream_correct zero_ctx [[0x61]; [0x62; 0x63]]).
  - exact zero_ctx_ok.
  - repeat constructor; unfold is_word; lia.
Defined.

(** The digest each function table computes. *)
Definition hash_digest (v : HASH_VTAB) (m : list Z) : list Z :=
  match v with SHA_VTAB => Sha1Spec.SHA1 m | SHA256_VTAB => Sha256Spec.SHA256 m end.

Lemma HASH_updates_fold v chunks c :
  f c = v ->
  fold_left HASH_update chunks c
  = fold_left (match v with SHA_VTAB => SHA_update | SHA256_VTAB => SHA256_update end) chunks c
  /\ f (fold_left HASH_update chunks c) = v.
Proof.
  revert c. induction chunks as [|d chunks IH]; intros c Hf; cbn [fold_left]; [done|].
  assert (HASH_update c d = (match v with SHA_VTAB => SHA_update | SHA256_VTAB => SHA256_update end) c d
          /\ f (HASH_update c d) = v) as [E Ef].
  { unfold HASH_update. rewrite Hf. destruct v; (split; [done|]).
    - unfold SHA_update. by rewrite (hash_update_f (n := 5) (compress := Sha1Spec.compress)).
    - unfold SHA256_update. by rewrite (hash_update_f (n := 8) (compress := Sha256Spec.compress)). }
  rewrite <- E. by apply IH.
Qed.

(** The dispatch macros keep to the table they start with: for a context
    whose [f] is [v], [HASH_init], any sequence of [HASH_update] and
    [HASH_final] leave the digest that table's hash computes in the first
    [HASH_size] bytes of the buffer. *)
Theorem HASH_dispatch_correct ctx chunks :
  ctx_ok ctx -> Forall (Forall (is_word 8)) chunks ->
  take (HASH_size ctx) (buf (HASH_final (fold_left HASH_update chunks (HASH_init ctx))))
  = hash_digest (f ctx) (concat chunks).
Proof.
  intros Hok Hb. unfold HASH_size, HASH_init, hash_digest, HASH_final.
  destruct (f ctx) eqn:Ef.
  - destruct (HASH_updates_fold SHA_VTAB chunks (SHA_init ctx)) as [E E']; [done|].
    rewrite E'. rewrite E.
    exact (hash_final_holds Sha1Spec.H0 _ _ (SHA_updates_hold chunks _ [] (SHA_init_holds ctx Hok) Hb)).
  - destruct (HASH_updates_fold SHA256_VTAB chunks (SHA256_init ctx)) as [E E']; [done|].
    rewrite E'. rewrite E.
    exact (hash_final_holds Sha256Spec.H0 _ _ (SHA256_updates_hold chunks _ [] (SHA256_init_holds ctx Hok) Hb)).
Qed.

Lemma HASH_dispatch_correct_witness :
  take (HASH_size zero_ctx) (buf (HASH_final (fold_left HASH_update [[0x61; 0x62; 0x63]] (HASH_init zero_ctx))))
  = hash_digest SHA_VTAB [0x61; 0x62; 0x63].
Proof.
  apply (HASH_dispatch_correct zero_ctx [[0x61; 0x62; 0x63]]).
  - exact zero_ctx_ok.
  - repeat constructor; unfold is_word; lia.
Defined.
