(* ===== verification/Libc.v ===== *)
(** * The C library functions the programs call

    Executable models of the standard functions whose results the programs
    depend on: string to integer conversion, the printf conversions used, and
    strncpy.  A C string is the [string] of its characters before the NUL. *)
From S2P Require Import Prelude.
From Stdlib Require Import Ascii.

Definition byte_of_ascii (c : ascii) : Z := Z.of_N (N_of_ascii c).
Definition ascii_of_byte (b : Z) : ascii := ascii_of_N (Z.to_N (u8 b)).

(** The bytes of a C string, without the terminating NUL. *)
Fixpoint bytes_of (s : string) : list Z :=
  match s with
  | EmptyString => []
  | String c s' => byte_of_ascii c :: bytes_of s'
  end.

Fixpoint string_of (l : list Z) : string :=
  match l with
  | [] => EmptyString
  | b :: l' => String (ascii_of_byte b) (string_of l')
  end.

(** The C string that starts at the head of a memory area: the bytes before
    the first NUL, or [None] when the area has no NUL. *)
Fixpoint c_string (mem : list Z) : option (list Z) :=
  match mem with
  | [] => None
  | b :: mem' => if b =? 0 then Some [] else (b ::.) <$> c_string mem'
  end.

(** A string a C program can hold. *)
Definition no_nul (s : string) : Prop := Forall (fun b => b <> 0) (bytes_of s).

#[export] Instance no_nul_dec s : Decision (no_nul s).
Proof. unfold no_nul. apply _. Defined.

(** [strncpy(dst, src, n)] into the start of [dst]: at most [n] bytes of the
    source, NUL bytes up to [n]. *)
Definition strncpy (dst src : list Z) (n : nat) : list Z :=
  take n (src ++ replicate n 0) ++ drop n dst.

(** [isspace] in the C locale. *)
Definition isspace (b : Z) : bool := (b =? 32) || ((9 <=? b) && (b <=? 13)).

Definition isdigit (b : Z) : bool := (48 <=? b) && (b <=? 57).

Definition isalpha (b : Z) : bool :=
  ((65 <=? b) && (b <=? 90)) || ((97 <=? b) && (b <=? 122)).

Definition isalnum (b : Z) : bool := isdigit b || isalpha b.

(** Value of a digit character, in a base up to 36. *)
Definition digit_val (b : Z) : option Z :=
  if isdigit b then Some (b - 48)
  else if (97 <=? b) && (b <=? 122) then Some (b - 87)
  else if (65 <=? b) && (b <=? 90) then Some (b - 55)
  else None.

Definition is_base_digit (base : Z) (b : Z) : bool :=
  match digit_val b with Some d => d <? base | None => false end.

(** The longest prefix of digits, as a number. *)
Fixpoint scan_digits (base acc : Z) (l : list Z) : Z :=
  match l with
  | [] => acc
  | b :: l' =>
      match digit_val b with
      | Some d => if d <? base then scan_digits base (acc * base + d) l' else acc
      | None => acc
      end
  end.

Fixpoint skip_spaces (l : list Z) : list Z :=
  match l with
  | b :: l' => if isspace b then skip_spaces l' else l
  | [] => []
  end.

(** Optional [0x] prefix of base 16, taken only when a digit follows. *)
Definition skip_0x (base : Z) (l : list Z) : list Z :=
  match l with
  | z :: x :: d :: l' =>
      if (base =? 16) && (z =? 48) && ((x =? 120) || (x =? 88)) && is_base_digit 16 d
      then d :: l' else l
  | _ => l
  end.

(** Optional sign: whether the number is negated, and what follows. *)
Definition scan_sign (l : list Z) : bool * list Z :=
  match l with
  | b :: l' => if b =? 45 then (true, l') else if b =? 43 then (false, l') else (false, l)
  | [] => (false, [])
  end.

(** [strtoul] with a 64-bit [unsigned long]: saturates at ULONG_MAX, a minus
    sign negates in [unsigned long]. *)
Definition strtoul (s : list Z) (base : Z) : Z :=
  let '(neg, l) := scan_sign (skip_spaces s) in
  let v := scan_digits base 0 (skip_0x base l) in
  if 2 ^ 64 <=? v then 2 ^ 64 - 1 else if neg then u64 (- v) else v.

(** [strtol]: saturates at LONG_MIN and LONG_MAX. *)
Definition strtol (s : list Z) (base : Z) : Z :=
  let '(neg, l) := scan_sign (skip_spaces s) in
  let v := scan_digits base 0 (skip_0x base l) in
  if neg then Z.max (- 2 ^ 63) (- v) else Z.min (2 ^ 63 - 1) v.

(** [atoi(s)] is [(int) strtol(s, NULL, 10)]. *)
Definition atoi (s : list Z) : Z := s32 (strtol s 10).

Definition digit_char (d : Z) : Z := if d <? 10 then 48 + d else 87 + d.

(** The digits of [v], most significant first, at least one. *)
Fixpoint digits (fuel : nat) (base v : Z) : list Z :=
  match fuel with
  | O => []
  | S k => (if v <? base then [] else digits k base (v / base)) ++ [digit_char (v mod base)]
  end.

(** Left padding of [%08x] and the like. *)
Definition zero_pad (w : nat) (l : list Z) : list Z := replicate (w - length l) 48 ++ l.

(** [%x] / [%0wx] of an [unsigned], [%0wo], [%u], [%d]. *)
Definition fmt_x (w : nat) (v : Z) : list Z := zero_pad w (digits 16 16 v).
Definition fmt_o (w : nat) (v : Z) : list Z := zero_pad w (digits 24 8 v).
Definition fmt_u (v : Z) : list Z := digits 20 10 v.
Definition fmt_d (v : Z) : list Z := if v <? 0 then 45 :: digits 20 10 (- v) else digits 20 10 v.

(** * Lemmas *)

Lemma byte_of_ascii_range c : is_word 8 (byte_of_ascii c).
Proof.
  unfold byte_of_ascii, is_word. pose proof (N_ascii_bounded c). lia.
Qed.

Lemma bytes_of_words s : words 8 (bytes_of s).
Proof. induction s; cbn; constructor; auto using byte_of_ascii_range. Qed.

Lemma bytes_of_length s : length (bytes_of s) = String.length s.
Proof. induction s; cbn; auto. Qed.

Lemma bytes_of_app s t : bytes_of (s ++ t) = bytes_of s ++ bytes_of t.
Proof.
  induction s as [|c s IH]; [done|].
  change (byte_of_ascii c :: bytes_of (s ++ t) = byte_of_ascii c :: bytes_of s ++ bytes_of t).
  by rewrite IH.
Qed.

Lemma string_of_bytes_of s : string_of (bytes_of s) = s.
Proof.
  induction s as [|c s IH]; cbn; [done|]. rewrite IH. f_equal.
  unfold ascii_of_byte. rewrite u8_small by apply byte_of_ascii_range.
  unfold byte_of_ascii. by rewrite N2Z.id, ascii_N_embedding.
Qed.

Lemma bytes_of_string_of l : words 8 l -> bytes_of (string_of l) = l.
Proof.
  induction 1 as [|b l Hb Hl IH]; cbn; [done|]. rewrite IH. f_equal.
  unfold byte_of_ascii, ascii_of_byte. rewrite u8_small by done.
  unfold is_word in Hb. rewrite N_ascii_embedding by lia. lia.
Qed.

Lemma bytes_of_inj s t : bytes_of s = bytes_of t -> s = t.
Proof. intros H. by rewrite <- (string_of_bytes_of s), H, string_of_bytes_of. Qed.

Lemma c_string_app l m : Forall (fun b => b <> 0) l -> c_string (l ++ 0 :: m) = Some l.
Proof.
  induction 1 as [|b l Hb Hl IH]; cbn [c_string app]; [done|].
  rewrite (proj2 (Z.eqb_neq _ _) Hb), IH. done.
Qed.

Lemma digit_char_val base d :
  0 <= d < base -> base <= 16 -> digit_val (digit_char d) = Some d.
Proof.
  intros. unfold digit_char, digit_val, isdigit.
  destruct (Z.ltb_spec d 10);
    repeat (match goal with |- context [?a <=? ?b] => destruct (Z.leb_spec a b) end); cbn; f_equal; lia.
Qed.

Lemma scan_digits_app base acc l d :
  Forall (fun b => is_base_digit base b = true) l ->
  scan_digits base acc (l ++ d) = scan_digits base (scan_digits base acc l) d.
Proof.
  intros H. revert acc. induction H as [|b l Hb Hl IH]; intros acc; cbn [scan_digits app]; [done|].
  unfold is_base_digit in Hb. destruct (digit_val b) as [v|]; [|done]. rewrite Hb. apply IH.
Qed.

Lemma digits_base fuel base v :
  1 < base <= 16 -> Forall (fun b => is_base_digit base b = true) (digits fuel base v).
Proof.
  intros Hb. revert v. induction fuel as [|k IH]; intros v; cbn [digits]; [done|].
  apply Forall_app. split; [by case_match|]. constructor; [|done].
  pose proof (Z.mod_pos_bound v base ltac:(lia)). unfold is_base_digit.
  rewrite (digit_char_val base) by lia. apply Z.ltb_lt. lia.
Qed.

(** Printing then scanning gives the number back. *)
Lemma scan_digits_digits fuel base v :
  1 < base <= 16 -> 0 <= v < base ^ Z.of_nat fuel ->
  scan_digits base 0 (digits fuel base v) = v.
Proof.
  intros Hb. revert v. induction fuel as [|k IH]; intros v Hv; [cbn in *; lia|].
  cbn [digits]. rewrite scan_digits_app by (case_match; [done|by apply digits_base]).
  pose proof (Z.mod_pos_bound v base ltac:(lia)).
  cbn [scan_digits]. rewrite (digit_char_val base) by lia.
  rewrite (proj2 (Z.ltb_lt (v mod base) base)) by lia.
  destruct (Z.ltb_spec v base).
  - cbn [scan_digits]. rewrite Z.mod_small; lia.
  - rewrite IH.
    + pose proof (Z.div_mod v base ltac:(lia)). lia.
    + split; [apply Z.div_pos; lia|]. apply Z.div_lt_upper_bound; [lia|].
      rewrite Nat2Z.inj_succ, Z.pow_succ_r in Hv by lia. lia.
Qed.

Lemma scan_digits_zeros base n l : 1 < base -> scan_digits base 0 (replicate n 48 ++ l) = scan_digits base 0 l.
Proof.
  intros Hb. induction n as [|n IH]; cbn [replicate app scan_digits]; [done|].
  change (digit_val 48) with (Some 0). cbv beta iota.
  rewrite (proj2 (Z.ltb_lt 0 base)) by lia. exact IH.
Qed.

Lemma fmt_x_digits w v : Forall (fun b => is_base_digit 16 b = true) (fmt_x w v).
Proof. apply Forall_app. split; [by apply Forall_replicate | by apply digits_base]. Qed.

Lemma fmt_x_nonempty w v : exists d l, fmt_x w v = d :: l /\ is_base_digit 16 d = true.
Proof.
  pose proof (fmt_x_digits w v) as H. destruct (fmt_x w v) as [|d l] eqn:E.
  - unfold fmt_x, zero_pad in E. apply (f_equal length) in E.
    cbn [digits] in E. rewrite !length_app in E. cbn in E. lia.
  - apply Forall_cons in H as [H _]. eauto.
Qed.

(** [strtoul(sprintf("0x%0wx", v), 0, 16)] is [v]. *)
Lemma strtoul_hex w v : is_word 32 v -> strtoul (48 :: 120 :: fmt_x w v) 16 = v.
Proof.
  intros Hv. destruct (fmt_x_nonempty w v) as (d & l & E & Hd).
  unfold strtoul. rewrite E. cbn [skip_spaces scan_sign].
  change (isspace 48) with false. cbn [scan_sign]. change (48 =? 45) with false.
  change (48 =? 43) with false. cbn [skip_0x].
  change (16 =? 16) with true. change (48 =? 48) with true. change (120 =? 120) with true.
  rewrite Hd. cbn [andb orb]. rewrite <- E. unfold fmt_x, zero_pad.
  rewrite scan_digits_zeros, scan_digits_digits by (unfold is_word in Hv; lia).
  unfold is_word in Hv. rewrite (proj2 (Z.leb_gt (2 ^ 64) v)) by lia. done.
Qed.
