(* ===== verification/BootImg.v ===== *)
(** * Boot images: mkbootimg/bootimg.h, and the file helpers of the two tools

    The packed header, its little-endian memory image and back, the layout of
    the sections in pages, and the model of the file system calls that
    mkbootimg.c and unmkbootimg.c share ([load_file] is the same text in both). *)
From S2P Require Import Prelude Libc.

Definition BOOT_MAGIC : string := "ANDROID!".
Definition BOOT_MAGIC_SIZE : nat := 8.
Definition BOOT_NAME_SIZE : nat := 16.
Definition BOOT_ARGS_SIZE : nat := 512.
Definition BOOT_EXTRA_ARGS_SIZE : nat := 1024.

(** [struct boot_img_hdr]: byte arrays as lists of bytes, [uint32_t] fields as
    words, [id] as its eight words. *)
Record boot_img_hdr := {
  hdr_magic : list Z;
  hdr_kernel_size : Z;
  hdr_kernel_addr : Z;
  hdr_ramdisk_size : Z;
  hdr_ramdisk_addr : Z;
  hdr_second_size : Z;
  hdr_second_addr : Z;
  hdr_tags_addr : Z;
  hdr_page_size : Z;
  hdr_unused : Z;
  hdr_os_version : Z;
  hdr_name : list Z;
  hdr_cmdline : list Z;
  hdr_id : list Z;
  hdr_extra_cmdline : list Z
}.

Record hdr_ok (h : boot_img_hdr) : Prop := {
  hdr_magic_ok : words 8 (hdr_magic h) /\ length (hdr_magic h) = BOOT_MAGIC_SIZE;
  hdr_words_ok : words 32 [hdr_kernel_size h; hdr_kernel_addr h; hdr_ramdisk_size h;
    hdr_ramdisk_addr h; hdr_second_size h; hdr_second_addr h; hdr_tags_addr h;
    hdr_page_size h; hdr_unused h; hdr_os_version h];
  hdr_name_ok : words 8 (hdr_name h) /\ length (hdr_name h) = BOOT_NAME_SIZE;
  hdr_cmdline_ok : words 8 (hdr_cmdline h) /\ length (hdr_cmdline h) = BOOT_ARGS_SIZE;
  hdr_id_ok : words 32 (hdr_id h) /\ length (hdr_id h) = 8%nat;
  hdr_extra_ok : words 8 (hdr_extra_cmdline h) /\ length (hdr_extra_cmdline h) = BOOT_EXTRA_ARGS_SIZE
}.

(** A [uint32_t] in memory, little endian; an array of them. *)
Definition le32 (v : Z) : list Z := le_digits 8 4 v.
Definition le32s (l : list Z) : list Z := flat_map le32 l.

(** The memory image of the packed struct. *)
Definition hdr_bytes (h : boot_img_hdr) : list Z :=
  hdr_magic h ++ le32 (hdr_kernel_size h) ++ le32 (hdr_kernel_addr h)
  ++ le32 (hdr_ramdisk_size h) ++ le32 (hdr_ramdisk_addr h)
  ++ le32 (hdr_second_size h) ++ le32 (hdr_second_addr h)
  ++ le32 (hdr_tags_addr h) ++ le32 (hdr_page_size h)
  ++ le32 (hdr_unused h) ++ le32 (hdr_os_version h)
  ++ hdr_name h ++ hdr_cmdline h ++ le32s (hdr_id h) ++ hdr_extra_cmdline h.

Definition sizeof_hdr : nat := 1632.

(** The [n] bytes of [mem] at [off]. *)
Definition bytes_at (off n : nat) (mem : list Z) : list Z := take n (drop off mem).
Definition u32_at (off : nat) (mem : list Z) : Z := le_eval 8 (bytes_at off 4 mem).

(** The header a pointer cast to [boot_img_hdr *] reads. *)
Definition hdr_of_bytes (mem : list Z) : boot_img_hdr := {|
  hdr_magic := bytes_at 0 8 mem;
  hdr_kernel_size := u32_at 8 mem;
  hdr_kernel_addr := u32_at 12 mem;
  hdr_ramdisk_size := u32_at 16 mem;
  hdr_ramdisk_addr := u32_at 20 mem;
  hdr_second_size := u32_at 24 mem;
  hdr_second_addr := u32_at 28 mem;
  hdr_tags_addr := u32_at 32 mem;
  hdr_page_size := u32_at 36 mem;
  hdr_unused := u32_at 40 mem;
  hdr_os_version := u32_at 44 mem;
  hdr_name := bytes_at 48 16 mem;
  hdr_cmdline := bytes_at 64 512 mem;
  hdr_id := map (fun i => u32_at (576 + 4 * i) mem) (seq 0 8);
  hdr_extra_cmdline := bytes_at 608 1024 mem
|}.

(** * The operating system the tools run on

    What the library calls may answer: the files there are, which seeks and
    allocations succeed, how much of a file can be read and written. *)
Record os := {
  os_fs : gmap string (list Z);
  os_seek_end_ok : string -> bool;
  os_seek_set_ok : string -> bool;
  os_malloc_ok : Z -> bool;
  os_readable : string -> nat;
  os_can_create : string -> bool;
  os_quota : string -> nat;
  os_keeps : string -> nat -> nat -> nat;
  os_strerror : string
}.

(** [load_file]: the contents and [*_sz], or [None] for a null pointer.
    [ftell] gives the size of the file, converted to [int]. *)
Definition load_file (o : os) (fn : string) : option (list Z * Z) :=
  match os_fs o !! fn with
  | None => None                                        (* fopen *)
  | Some contents =>
      if negb (os_seek_end_ok o fn) then None else
      let sz := s32 (Z.of_nat (length contents)) in
      if sz <? 0 then None else
      if negb (os_seek_set_ok o fn) then None else
      if negb (os_malloc_ok o sz) then None else
      let data := take (Nat.min (Z.to_nat sz) (os_readable o fn)) contents in
      if negb (Z.of_nat (length data) =? sz) then None else
      Some (data, u32 sz)
  end.

(** How a run of a tool ends: exit status, files, standard output, and the
    messages on standard error, each without its final newline. *)
Record outcome := {
  code : Z;
  files : gmap string (list Z);
  out : list Z;
  err : list string
}.

(** * Page layout *)

(** The number of zero bytes that fill the last page of an item. *)
Definition page_fill (pagesize size : Z) : Z := (- size) mod pagesize.

(** An item of the image, padded to whole pages. *)
Definition section (pagesize : Z) (data : list Z) : list Z :=
  data ++ replicate (Z.to_nat (page_fill pagesize (Z.of_nat (length data)))) 0.

(** Pages an item takes, as the comment of bootimg.h counts them. *)
Definition pages (pagesize size : Z) : Z := (size + pagesize - 1) / pagesize.

(** * Lemmas *)

Lemma le32_length v : length (le32 v) = 4%nat.
Proof. done. Qed.
Lemma le32s_length l : length (le32s l) = (4 * length l)%nat.
Proof. induction l as [|x l IH]; [done|]. unfold le32s in *. cbn [flat_map length].
  rewrite length_app, le32_length, IH. lia. Qed.

Lemma hdr_bytes_length h : hdr_ok h -> length (hdr_bytes h) = sizeof_hdr.
Proof.
  intros [[_ Hm] _ [_ Hn] [_ Hc] [_ Hi] [_ He]]. unfold hdr_bytes.
  repeat rewrite length_app. rewrite le32s_length, !le32_length, Hm, Hn, Hc, Hi, He. done.
Qed.

Lemma le32_words v : words 8 (le32 v).
Proof. by apply le_digits_words. Qed.
Lemma le32s_words l : words 8 (le32s l).
Proof. induction l as [|x l IH]; [done|]. apply words_app; [apply le32_words | done]. Qed.

Lemma hdr_bytes_words h : hdr_ok h -> words 8 (hdr_bytes h).
Proof.
  intros [[Hm _] _ [Hn _] [Hc _] [_ _] [He _]]. unfold hdr_bytes.
  repeat (apply words_app; [auto using le32_words, le32s_words|]). done.
Qed.

Lemma bytes_at_app_r off n pre mem :
  bytes_at (length pre + off) n (pre ++ mem) = bytes_at off n mem.
Proof. unfold bytes_at. by rewrite drop_app_add. Qed.

Lemma bytes_at_here pre x mem : bytes_at (length pre) (length x) (pre ++ x ++ mem) = x.
Proof. unfold bytes_at. by rewrite drop_app_length, take_app_length. Qed.

Lemma le32_eval v : is_word 32 v -> le_eval 8 (le32 v) = v.
Proof. intros Hv. unfold le32. rewrite le_eval_digits by lia. by apply Z.mod_small. Qed.

Lemma bytes_at_skip off n k x mem :
  length x = k -> (k <= off)%nat -> bytes_at off n (x ++ mem) = bytes_at (off - k) n mem.
Proof. intros Hx Hk. unfold bytes_at. by rewrite drop_app_ge, Hx by lia. Qed.

Lemma bytes_at_hit n x mem : length x = n -> bytes_at 0 n (x ++ mem) = x.
Proof. intros Hx. unfold bytes_at. rewrite drop_0. by apply take_app_length'. Qed.

(** Find the field of a concatenation that an offset points to. *)
Ltac find_field :=
  repeat first [ rewrite bytes_at_skip with (k := 4%nat) by (first [apply le32_length | lia])
               | erewrite bytes_at_skip by (first [eassumption | lia]) ];
  cbn [Nat.sub];
  try (rewrite bytes_at_hit by (first [apply le32_length | assumption]));
  try (apply le32_eval; assumption); try reflexivity.

Lemma hdr_read_back h rest :
  hdr_ok h -> hdr_of_bytes (hdr_bytes h ++ rest) = h.
Proof.
  intros [[_ Hm] Hw [_ Hn] [_ Hc] [Hiw Hi] [_ He]].
  destruct h as [m ks ka rs ra ss sa ta ps un ov nm cm ids ex].
  cbn [hdr_magic hdr_kernel_size hdr_kernel_addr hdr_ramdisk_size hdr_ramdisk_addr hdr_second_size
       hdr_second_addr hdr_tags_addr hdr_page_size hdr_unused hdr_os_version hdr_name hdr_cmdline
       hdr_id hdr_extra_cmdline] in *.
  destruct ids as [|i0 [|i1 [|i2 [|i3 [|i4 [|i5 [|i6 [|i7 [|]]]]]]]]]; try discriminate Hi.
  inv_words.
  unfold hdr_bytes, hdr_of_bytes, u32_at, le32s.
  cbn [hdr_magic hdr_kernel_size hdr_kernel_addr hdr_ramdisk_size hdr_ramdisk_addr hdr_second_size
       hdr_second_addr hdr_tags_addr hdr_page_size hdr_unused hdr_os_version hdr_name hdr_cmdline
       hdr_id hdr_extra_cmdline flat_map seq map Nat.add Nat.mul].
  rewrite <- !app_assoc, app_nil_l. unfold BOOT_MAGIC_SIZE, BOOT_NAME_SIZE, BOOT_ARGS_SIZE, BOOT_EXTRA_ARGS_SIZE in *.
  f_equal; find_field.
  repeat (f_equal; [find_field|]). f_equal. find_field.
Qed.

Lemma bytes_at_cat a n mem : bytes_at a n mem ++ drop (a + n) mem = drop a mem.
Proof. unfold bytes_at. rewrite <- (take_drop n (drop a mem)) at 2. by rewrite drop_drop. Qed.

Lemma le32_u32_at off mem :
  words 8 mem -> (off + 4 <= length mem)%nat -> le32 (u32_at off mem) = bytes_at off 4 mem.
Proof.
  intros Hm Hl. unfold le32, u32_at.
  assert (length (bytes_at off 4 mem) = 4%nat) as E
    by (unfold bytes_at; rewrite length_take, length_drop; lia).
  rewrite <- E at 1. apply le_digits_eval; [lia|]. by apply Forall_take, Forall_drop.
Qed.

(** The packed header round-trips both ways: reading a struct back from
    its memory image gives the struct, whatever follows it in the file, and
    any 1632 bytes or more are the image of the header read from them. *)
Theorem hdr_bytes_roundtrip :
  (forall h rest, hdr_ok h -> hdr_of_bytes (hdr_bytes h ++ rest) = h)
  /\ (forall mem, words 8 mem -> (sizeof_hdr <= length mem)%nat ->
       hdr_bytes (hdr_of_bytes mem) = take sizeof_hdr mem).
Proof.
  split; [exact hdr_read_back|]. intros mem Hm Hl. unfold sizeof_hdr in *.
  unfold hdr_bytes, hdr_of_bytes.
  cbn [hdr_magic hdr_kernel_size hdr_kernel_addr hdr_ramdisk_size hdr_ramdisk_addr hdr_second_size
       hdr_second_addr hdr_tags_addr hdr_page_size hdr_unused hdr_os_version hdr_name hdr_cmdline
       hdr_id hdr_extra_cmdline seq map Nat.add Nat.mul].
  unfold le32s. cbn [flat_map]. rewrite !le32_u32_at by (done || lia).
  apply (app_inv_tail (drop 1632 mem)). rewrite take_drop, <- !app_assoc, app_nil_l.
  transitivity (drop 0 mem); [|apply drop_0].
  repeat match goal with |- context [bytes_at ?a ?n mem ++ drop ?b mem] =>
    rewrite (bytes_at_cat a n mem : bytes_at a n mem ++ drop b mem = drop a mem) end.
  done.
Qed.
