(* ===== verification/MkBootImg.v ===== *)
(** * mkbootimg: mkbootimg/mkbootimg.c

    The argument parser, the construction of the header, the identification
    hash and the writer of the image, with every error exit of [main]. *)
From S2P Require Import Prelude Libc Hash Sha BootImg.

(** The local variables of [main] that the argument loop sets. *)
Record mk_args := {
  kernel_fn : option string;
  ramdisk_fn : option string;
  second_fn : option string;
  cmdline : string;
  bootimg : option string;
  board : string;
  pagesize : Z;
  base : Z;
  kernel_offset : Z;
  ramdisk_offset : Z;
  second_offset : Z;
  tags_offset : Z;
  get_id : bool
}.

Definition mk_defaults : mk_args := {|
  kernel_fn := None; ramdisk_fn := None; second_fn := None; cmdline := ""; bootimg := None;
  board := ""; pagesize := 2048; base := 0x10000000; kernel_offset := 0x00008000;
  ramdisk_offset := 0x01000000; second_offset := 0x00f00000; tags_offset := 0x00000100;
  get_id := false |}.

Definition set_bootimg v a := {| kernel_fn := kernel_fn a; ramdisk_fn := ramdisk_fn a; second_fn := second_fn a; cmdline := cmdline a; bootimg := Some v; board := board a; pagesize := pagesize a; base := base a; kernel_offset := kernel_offset a; ramdisk_offset := ramdisk_offset a; second_offset := second_offset a; tags_offset := tags_offset a; get_id := get_id a |}.
Definition set_kernel v a := {| kernel_fn := Some v; ramdisk_fn := ramdisk_fn a; second_fn := second_fn a; cmdline := cmdline a; bootimg := bootimg a; board := board a; pagesize := pagesize a; base := base a; kernel_offset := kernel_offset a; ramdisk_offset := ramdisk_offset a; second_offset := second_offset a; tags_offset := tags_offset a; get_id := get_id a |}.
Definition set_ramdisk v a := {| kernel_fn := kernel_fn a; ramdisk_fn := Some v; second_fn := second_fn a; cmdline := cmdline a; bootimg := bootimg a; board := board a; pagesize := pagesize a; base := base a; kernel_offset := kernel_offset a; ramdisk_offset := ramdisk_offset a; second_offset := second_offset a; tags_offset := tags_offset a; get_id := get_id a |}.
Definition set_second v a := {| kernel_fn := kernel_fn a; ramdisk_fn := ramdisk_fn a; second_fn := Some v; cmdline := cmdline a; bootimg := bootimg a; board := board a; pagesize := pagesize a; base := base a; kernel_offset := kernel_offset a; ramdisk_offset := ramdisk_offset a; second_offset := second_offset a; tags_offset := tags_offset a; get_id := get_id a |}.
Definition set_cmdline v a := {| kernel_fn := kernel_fn a; ramdisk_fn := ramdisk_fn a; second_fn := second_fn a; cmdline := v; bootimg := bootimg a; board := board a; pagesize := pagesize a; base := base a; kernel_offset := kernel_offset a; ramdisk_offset := ramdisk_offset a; second_offset := second_offset a; tags_offset := tags_offset a; get_id := get_id a |}.
Definition set_board v a := {| kernel_fn := kernel_fn a; ramdisk_fn := ramdisk_fn a; second_fn := second_fn a; cmdline := cmdline a; bootimg := bootimg a; board := v; pagesize := pagesize a; base := base a; kernel_offset := kernel_offset a; ramdisk_offset := ramdisk_offset a; second_offset := second_offset a; tags_offset := tags_offset a; get_id := get_id a |}.
Definition set_pagesize v a := {| kernel_fn := kernel_fn a; ramdisk_fn := ramdisk_fn a; second_fn := second_fn a; cmdline := cmdline a; bootimg := bootimg a; board := board a; pagesize := v; base := base a; kernel_offset := kernel_offset a; ramdisk_offset := ramdisk_offset a; second_offset := second_offset a; tags_offset := tags_offset a; get_id := get_id a |}.
Definition set_base v a := {| kernel_fn := kernel_fn a; ramdisk_fn := ramdisk_fn a; second_fn := second_fn a; cmdline := cmdline a; bootimg := bootimg a; board := board a; pagesize := pagesize a; base := v; kernel_offset := kernel_offset a; ramdisk_offset := ramdisk_offset a; second_offset := second_offset a; tags_offset := tags_offset a; get_id := get_id a |}.
Definition set_kernel_offset v a := {| kernel_fn := kernel_fn a; ramdisk_fn := ramdisk_fn a; second_fn := second_fn a; cmdline := cmdline a; bootimg := bootimg a; board := board a; pagesize := pagesize a; base := base a; kernel_offset := v; ramdisk_offset := ramdisk_offset a; second_offset := second_offset a; tags_offset := tags_offset a; get_id := get_id a |}.
Definition set_ramdisk_offset v a := {| kernel_fn := kernel_fn a; ramdisk_fn := ramdisk_fn a; second_fn := second_fn a; cmdline := cmdline a; bootimg := bootimg a; board := board a; pagesize := pagesize a; base := base a; kernel_offset := kernel_offset a; ramdisk_offset := v; second_offset := second_offset a; tags_offset := tags_offset a; get_id := get_id a |}.
Definition set_second_offset v a := {| kernel_fn := kernel_fn a; ramdisk_fn := ramdisk_fn a; second_fn := second_fn a; cmdline := cmdline a; bootimg := bootimg a; board := board a; pagesize := pagesize a; base := base a; kernel_offset := kernel_offset a; ramdisk_offset := ramdisk_offset a; second_offset := v; tags_offset := tags_offset a; get_id := get_id a |}.
Definition set_tags_offset v a := {| kernel_fn := kernel_fn a; ramdisk_fn := ramdisk_fn a; second_fn := second_fn a; cmdline := cmdline a; bootimg := bootimg a; board := board a; pagesize := pagesize a; base := base a; kernel_offset := kernel_offset a; ramdisk_offset := ramdisk_offset a; second_offset := second_offset a; tags_offset := v; get_id := get_id a |}.
Definition set_get_id a := {| kernel_fn := kernel_fn a; ramdisk_fn := ramdisk_fn a; second_fn := second_fn a; cmdline := cmdline a; bootimg := bootimg a; board := board a; pagesize := pagesize a; base := base a; kernel_offset := kernel_offset a; ramdisk_offset := ramdisk_offset a; second_offset := second_offset a; tags_offset := tags_offset a; get_id := true |}.

(** How the argument loop ends. *)
Inductive parsed :=
  | Parsed (a : mk_args)
  | Usage
  | Bad_pagesize (p : Z).

Definition strtoul32 (val : string) (b : Z) : Z := u32 (strtoul (bytes_of val) b).

(** The [while(argc > 0)] loop, on the arguments after the program name. *)
Fixpoint parse (a : mk_args) (argv : list string) : parsed :=
  match argv with
  | [] => Parsed a
  | arg :: rest =>
      if String.eqb arg "--id" then parse (set_get_id a) rest
      else match rest with
      | [] => Usage
      | val :: rest =>
          if String.eqb arg "--output" || String.eqb arg "-o" then parse (set_bootimg val a) rest
          else if String.eqb arg "--kernel" then parse (set_kernel val a) rest
          else if String.eqb arg "--ramdisk" then parse (set_ramdisk val a) rest
          else if String.eqb arg "--second" then parse (set_second val a) rest
          else if String.eqb arg "--cmdline" then parse (set_cmdline val a) rest
          else if String.eqb arg "--base" then parse (set_base (strtoul32 val 16) a) rest
          else if String.eqb arg "--kernel_offset" then parse (set_kernel_offset (strtoul32 val 16) a) rest
          else if String.eqb arg "--ramdisk_offset" then parse (set_ramdisk_offset (strtoul32 val 16) a) rest
          else if String.eqb arg "--second_offset" then parse (set_second_offset (strtoul32 val 16) a) rest
          else if String.eqb arg "--tags_offset" then parse (set_tags_offset (strtoul32 val 16) a) rest
          else if String.eqb arg "--board" then parse (set_board val a) rest
          else if String.eqb arg "--pagesize" then
            let p := strtoul32 val 10 in
            if negb (p =? 2048) && negb (p =? 4096) && negb (p =? 8192) && negb (p =? 16384)
            then Bad_pagesize p
            else parse (set_pagesize p a) rest
          else Usage
      end
  end.

(** [usage()]: the text on standard error. *)
Definition usage_text : string :=
"usage: mkbootimg
       --kernel <filename>
       --ramdisk <filename>
       [ --second <2ndbootloader-filename> ]
       [ --cmdline <kernel-commandline> ]
       [ --board <boardname> ]
       [ --base <address> ]
       [ --pagesize <pagesize> ]
       [ --id ]
       -o|--output <filename>".

(** [static unsigned char padding[16384] = { 0, };] *)
Definition padding : list Z := replicate (Z.to_nat 16384) 0.

(** An output stream of stdio: what reached the device, what is still in the
    buffer, how many more bytes the device takes, and the buffering policy of
    the implementation: how many bytes stay in the buffer after an [fwrite],
    from the numbers of bytes that were in it and that were added. *)
Record FILE := { written : list Z; pending : list Z; room : nat; keeps : nat -> nat -> nat }.

Definition fopen_wb (o : os) (fn : string) : FILE :=
  {| written := []; pending := []; room := os_quota o fn; keeps := os_keeps o fn |}.

(** [fwrite(data, 1, n, fd)] and the number of bytes it reports: the bytes
    that do not stay in the buffer go to the device, and a device that does
    not take them all makes the count short.  Writing nothing changes
    nothing. *)
Definition fwrite (data : list Z) (fd : FILE) : FILE * nat :=
  if (length data =? 0)%nat then (fd, 0%nat) else
  let held := pending fd ++ data in
  let keep := Nat.min (keeps fd (length (pending fd)) (length data)) (length held) in
  let n := (length held - keep)%nat in
  if (n <=? room fd)%nat
  then ({| written := written fd ++ take n held; pending := drop n held;
           room := room fd - n; keeps := keeps fd |}, length data)
  else ({| written := written fd ++ take (room fd) held; pending := []; room := 0; keeps := keeps fd |},
        (room fd - length (pending fd))%nat).

(** The file after [fclose(fd)], or after [exit] has closed the stream: of the
    bytes in the buffer the device takes as many as fit.  Neither program
    looks at what [fclose] returns. *)
Definition fclosed (fd : FILE) : list Z := written fd ++ take (room fd) (pending fd).

(** [if(fwrite(data, 1, n, fd) != n) goto fail;] *)
Definition fwrite_or_fail (data : list Z) (fd : FILE) : option FILE :=
  let '(fd, n) := fwrite data fd in
  if (n =? length data)%nat then Some fd else None.

Definition write_padding (fd : FILE) (pagesize itemsize : Z) : option FILE :=
  let pagemask := u32 (pagesize - 1) in
  if (itemsize .& pagemask) =? 0 then Some fd else
  let count := pagesize - (itemsize .& pagemask) in
  fwrite_or_fail (take (Z.to_nat count) padding) fd.

(** [print_id]. *)
Definition print_id (id : list Z) : list Z :=
  bytes_of "0x" ++ flat_map (fmt_x 2) id ++ [10].

(** [hdr.cmdline] and [hdr.extra_cmdline]: zeroed by the [memset], then the
    two [strncpy] and the explicit terminator. *)
Definition split_cmdline (cmd : list Z) : list Z * list Z :=
  let c := strncpy (replicate BOOT_ARGS_SIZE 0) cmd (BOOT_ARGS_SIZE - 1) in
  let c := <[(BOOT_ARGS_SIZE - 1)%nat := 0]> c in
  let e := replicate BOOT_EXTRA_ARGS_SIZE 0 in
  if (BOOT_ARGS_SIZE - 1 <=? length cmd)%nat
  then (c, strncpy e (drop (BOOT_ARGS_SIZE - 1) cmd) BOOT_EXTRA_ARGS_SIZE)
  else (c, e).

(** The identification hash over the three items and their sizes. *)
Definition image_id (kernel ramdisk second : list Z) (ksz rsz ssz : Z) : list Z :=
  let ctx := SHA_init zero_ctx in
  let ctx := SHA_update ctx kernel in
  let ctx := SHA_update ctx (le32 ksz) in
  let ctx := SHA_update ctx ramdisk in
  let ctx := SHA_update ctx (le32 rsz) in
  let ctx := SHA_update ctx second in
  let ctx := SHA_update ctx (le32 ssz) in
  take SHA_DIGEST_SIZE (buf (SHA_final ctx)).

(** The words [memcpy(hdr.id, sha, SHA_DIGEST_SIZE)] leaves in the zeroed [id]. *)
Definition id_words (sha : list Z) : list Z :=
  let mem := sha ++ replicate (32 - length sha) 0 in
  map (fun i => u32_at (4 * i) mem) (seq 0 8).

Definition build_hdr (a : mk_args) (kernel ramdisk second : list Z) (ksz rsz ssz : Z) : boot_img_hdr :=
  let '(cmd, extra) := split_cmdline (bytes_of (cmdline a)) in
  {| hdr_magic := bytes_of BOOT_MAGIC;
     hdr_kernel_size := ksz;
     hdr_kernel_addr := u32 (base a + kernel_offset a);
     hdr_ramdisk_size := rsz;
     hdr_ramdisk_addr := u32 (base a + ramdisk_offset a);
     hdr_second_size := ssz;
     hdr_second_addr := u32 (base a + second_offset a);
     hdr_tags_addr := u32 (base a + tags_offset a);
     hdr_page_size := pagesize a;
     hdr_unused := 0;
     hdr_os_version := 0;
     hdr_name := strncpy (replicate BOOT_NAME_SIZE 0) (bytes_of (board a)) (length (bytes_of (board a)) + 1);
     hdr_cmdline := cmd;
     hdr_id := id_words (image_id kernel ramdisk second ksz rsz ssz);
     hdr_extra_cmdline := extra |}.

(** The writes of [main], to the [fail] label. *)
Definition write_image (hdr : boot_img_hdr) (pagesize : Z) (kernel ramdisk : list Z)
    (second : option (list Z)) (fd : FILE) : option FILE :=
  fd ← fwrite_or_fail (hdr_bytes hdr) fd;
  fd ← write_padding fd pagesize (Z.of_nat sizeof_hdr);
  fd ← fwrite_or_fail kernel fd;
  fd ← write_padding fd pagesize (hdr_kernel_size hdr);
  fd ← fwrite_or_fail ramdisk fd;
  fd ← write_padding fd pagesize (hdr_ramdisk_size hdr);
  match second with
  | Some second =>
      fd ← fwrite_or_fail second fd;
      write_padding fd pagesize (hdr_second_size hdr)
  | None => Some fd
  end.

(** The items [main] loads: data and size of kernel, ramdisk and second stage. *)
Record items := {
  it_kernel : list Z; it_ksz : Z;
  it_ramdisk : list Z; it_rsz : Z;
  it_second : option (list Z); it_ssz : Z
}.

(** The loading part of [main]: the items, or the error message. *)
Definition load_items (o : os) (a : mk_args) (kfn rfn : string) : items + string :=
  match load_file o kfn with
  | None => inr ("error: could not load kernel '" +:+ kfn +:+ "'")
  | Some (kernel, ksz) =>
      match (if String.eqb rfn "NONE" then Some ([], 0) else load_file o rfn) with
      | None => inr ("error: could not load ramdisk '" +:+ rfn +:+ "'")
      | Some (ramdisk, rsz) =>
          match second_fn a with
          | None => inl {| it_kernel := kernel; it_ksz := ksz; it_ramdisk := ramdisk; it_rsz := rsz;
                           it_second := None; it_ssz := 0 |}
          | Some sfn =>
              match load_file o sfn with
              | None => inr ("error: could not load secondstage '" +:+ sfn +:+ "'")
              | Some (second, ssz) =>
                  inl {| it_kernel := kernel; it_ksz := ksz; it_ramdisk := ramdisk; it_rsz := rsz;
                         it_second := Some second; it_ssz := ssz |}
              end
          end
      end
  end.

Definition exit_with (o : os) (c : Z) (msgs : list string) : outcome :=
  {| code := c; files := os_fs o; out := []; err := msgs |}.

Definition main (o : os) (argv : list string) : outcome :=
  match parse mk_defaults argv with
  | Usage => exit_with o 1 [usage_text]
  | Bad_pagesize p =>
      exit_with o (-1) ["error: unsupported page size " +:+ string_of (fmt_d (s32 p))]
  | Parsed a =>
      match bootimg a, kernel_fn a, ramdisk_fn a with
      | None, _, _ => exit_with o 1 ["error: no output filename specified"; usage_text]
      | _, None, _ => exit_with o 1 ["error: no kernel image specified"; usage_text]
      | _, _, None => exit_with o 1 ["error: no ramdisk image specified"; usage_text]
      | Some img, Some kfn, Some rfn =>
          if (BOOT_NAME_SIZE <=? String.length (board a))%nat
          then exit_with o 1 ["error: board name too large"; usage_text] else
          if (BOOT_ARGS_SIZE + BOOT_EXTRA_ARGS_SIZE - 2 <? String.length (cmdline a))%nat
          then exit_with o 1 ["error: kernel commandline too large"] else
          match load_items o a kfn rfn with
          | inr msg => exit_with o 1 [msg]
          | inl it =>
              let hdr := build_hdr a (it_kernel it) (it_ramdisk it) (default [] (it_second it))
                           (it_ksz it) (it_rsz it) (it_ssz it) in
              if negb (os_can_create o img)
              then exit_with o 1 ["error: could not create '" +:+ img +:+ "'"] else
              match write_image hdr (pagesize a) (it_kernel it) (it_ramdisk it) (it_second it)
                      (fopen_wb o img) with
              | Some fd =>                                       (* return 0, with fd open *)
                  {| code := 0; files := <[img := fclosed fd]> (os_fs o);
                     out := if get_id a then print_id (le32s (hdr_id hdr)) else []; err := [] |}
              | None =>
                  {| code := 1; files := delete img (os_fs o); out := [];
                     err := ["error: failed writing '" +:+ img +:+ "': " +:+ os_strerror o] |}
              end
          end
      end
  end.

(** * Specification of the image *)

(** The page sizes the argument loop lets through. *)
Definition valid_pagesize (p : Z) : Prop := p = 2048 \/ p = 4096 \/ p = 8192 \/ p = 16384.

(** The file: header, kernel, ramdisk and second stage, each padded to pages. *)
Definition image_bytes (hdr : boot_img_hdr) (ps : Z) (kernel ramdisk : list Z)
    (second : option (list Z)) : list Z :=
  section ps (hdr_bytes hdr) ++ section ps kernel ++ section ps ramdisk
  ++ match second with Some s => section ps s | None => [] end.

(** The writes that make the file, in their order. *)
Definition image_writes (hdr : boot_img_hdr) (ps : Z) (kernel ramdisk : list Z)
    (second : option (list Z)) : list (list Z) :=
  flat_map (fun data => [data; replicate (Z.to_nat (page_fill ps (Z.of_nat (length data)))) 0])
    ([hdr_bytes hdr; kernel; ramdisk] ++ match second with Some s => [s] | None => [] end).

(** How many bytes stay in the buffer after a write of [c] bytes to a stream
    that holds [p], and how many a sequence of writes of these sizes hands to
    the device before the stream is closed. *)
Definition stdio_kept (keeps : nat -> nat -> nat) (p c : nat) : nat :=
  if (c =? 0)%nat then p else Nat.min (keeps p c) (p + c).

Fixpoint stdio_flushed (keeps : nat -> nat -> nat) (p : nat) (sizes : list nat) : nat :=
  match sizes with
  | [] => 0
  | c :: sizes => (p + c - stdio_kept keeps p c) + stdio_flushed keeps (stdio_kept keeps p c) sizes
  end.

(** What [load_file] promises of an item and its size. *)
Definition item_ok (data : list Z) (sz : Z) : Prop := sz = Z.of_nat (length data) /\ sz < 2 ^ 31.

(** * Lemmas *)

(** Several writes in a row. *)
Fixpoint write_chunks (chunks : list (list Z)) (fd : FILE) : option FILE :=
  match chunks with
  | [] => Some fd
  | c :: chunks => fd ← fwrite_or_fail c fd; write_chunks chunks fd
  end.

Lemma write_chunks_app l1 l2 fd :
  write_chunks (l1 ++ l2) fd = (fd ← write_chunks l1 fd; write_chunks l2 fd).
Proof.
  revert fd. induction l1 as [|c l1 IH]; intros fd; [done|]. cbn [write_chunks app].
  destruct (fwrite_or_fail c fd); [apply IH | done].
Qed.

Lemma stdio_flushed_cons keeps p c sizes :
  stdio_flushed keeps p (c :: sizes)
  = (stdio_flushed keeps p [c] + stdio_flushed keeps (stdio_kept keeps p c) sizes)%nat.
Proof. cbn [stdio_flushed]. lia. Qed.

(** Never more than was written. *)
Lemma stdio_flushed_le keeps p sizes :
  (stdio_flushed keeps p sizes <= p + sum_list_with id sizes)%nat.
Proof.
  revert p. induction sizes as [|c sizes IH]; intros p; [cbn; lia|].
  cbn [stdio_flushed sum_list_with]. unfold id at 1.
  specialize (IH (stdio_kept keeps p c)).
  assert (stdio_kept keeps p c <= p + c)%nat by (unfold stdio_kept; destruct (Nat.eqb_spec c 0); lia). lia.
Qed.

Lemma fwrite_or_fail_nil fd : fwrite_or_fail [] fd = Some fd.
Proof. done. Qed.

(** One write: it succeeds exactly when the device takes what leaves the
    buffer, and loses no byte. *)
Lemma fwrite_or_fail_spec data fd :
  let n := stdio_flushed (keeps fd) (length (pending fd)) [length data] in
  match fwrite_or_fail data fd with
  | Some fd' =>
      (n <= room fd)%nat /\ written fd' ++ pending fd' = written fd ++ pending fd ++ data
      /\ (length (written fd') + room fd' = length (written fd) + room fd)%nat
      /\ (n + room fd' = room fd)%nat /\ keeps fd' = keeps fd
      /\ length (pending fd') = stdio_kept (keeps fd) (length (pending fd)) (length data)
  | None => (room fd < n)%nat
  end.
Proof.
  unfold fwrite_or_fail, fwrite. cbn zeta. cbn [stdio_flushed]. unfold stdio_kept.
  destruct (Nat.eqb_spec (length data) 0) as [E|E].
  - rewrite E. cbn [Nat.eqb]. apply nil_length_inv in E as ->. rewrite app_nil_r. split_and!; done || lia.
  - rewrite length_app.
    set (keep := Nat.min _ _). assert (keep <= length (pending fd) + length data)%nat by (subst keep; lia).
    destruct (Nat.leb_spec (length (pending fd) + length data - keep) (room fd)).
    + rewrite Nat.eqb_refl. cbn [written pending room keeps].
      rewrite <- app_assoc, take_drop, !length_app, length_take, length_drop, length_app.
      split_and!; done || lia.
    + rewrite (proj2 (Nat.eqb_neq _ _)) by lia. lia.
Qed.

Lemma write_chunks_spec chunks fd :
  let n := stdio_flushed (keeps fd) (length (pending fd)) (map length chunks) in
  match write_chunks chunks fd with
  | Some fd' =>
      (n <= room fd)%nat /\ written fd' ++ pending fd' = written fd ++ pending fd ++ concat chunks
      /\ (length (written fd') + room fd' = length (written fd) + room fd)%nat
  | None => (room fd < n)%nat
  end.
Proof.
  revert fd. induction chunks as [|c chunks IH]; intros fd; cbn [write_chunks map concat].
  - rewrite app_nil_r. cbn. split_and!; done || lia.
  - rewrite stdio_flushed_cons. pose proof (fwrite_or_fail_spec c fd) as H. cbn zeta in H.
    destruct (fwrite_or_fail c fd) as [fd1|]; cbn [mbind option_bind]; [|lia].
    destruct H as (H1 & H2 & H3 & H4 & H5 & H6). specialize (IH fd1). cbn zeta in IH.
    rewrite H5, H6 in IH. destruct (write_chunks chunks fd1) as [fd2|]; [|lia].
    destruct IH as (I1 & I2 & I3). rewrite I2, app_assoc, H2, <- !app_assoc. split_and!; done || lia.
Qed.

(** What is in the file in the end. *)
Lemma write_chunks_closed o fn chunks :
  match write_chunks chunks (fopen_wb o fn) with
  | Some fd => (stdio_flushed (os_keeps o fn) 0 (map length chunks) <= os_quota o fn)%nat
               /\ fclosed fd = take (os_quota o fn) (concat chunks)
  | None => (os_quota o fn < stdio_flushed (os_keeps o fn) 0 (map length chunks))%nat
  end.
Proof.
  pose proof (write_chunks_spec chunks (fopen_wb o fn)) as H. cbn zeta in H.
  destruct (write_chunks _ _) as [fd|]; [|done]. destruct H as (H1 & H2 & H3). split; [done|].
  cbn [fopen_wb written pending app length room] in *. unfold fclosed.
  rewrite <- H2. replace (os_quota o fn) with (length (written fd) + room fd)%nat by lia.
  by rewrite take_app_add.
Qed.

Lemma pow2_fill k ps x :
  0 <= k -> ps = 2 ^ k -> 0 <= x ->
  x .& (ps - 1) = x mod ps /\ page_fill ps x = if x mod ps =? 0 then 0 else ps - x mod ps.
Proof.
  intros Hk -> Hx. assert (0 < 2 ^ k) by (apply Z.pow_pos_nonneg; lia). split.
  - rewrite <- Z.land_ones by done. by rewrite Z.ones_equiv, Z.sub_1_r.
  - unfold page_fill. destruct (Z.eqb_spec (x mod 2 ^ k) 0) as [E|E].
    + by apply Z_mod_zero_opp_full.
    + by apply Z_mod_nz_opp_full.
Qed.

Lemma valid_pagesize_pow2 p : valid_pagesize p -> exists k, 0 <= k <= 14 /\ p = 2 ^ k /\ 2048 <= p.
Proof. intros [->|[->|[->| ->]]]; [exists 11|exists 12|exists 13|exists 14]; lia. Qed.

(** The padding written is the fill of the page, and never more than the
    static array holds. *)
Lemma write_padding_spec fd ps sz :
  valid_pagesize ps -> 0 <= sz ->
  write_padding fd ps sz = fwrite_or_fail (replicate (Z.to_nat (page_fill ps sz)) 0) fd.
Proof.
  intros Hp Hsz. destruct (valid_pagesize_pow2 ps Hp) as (k & Hk & -> & Hge).
  assert (2 ^ k <= 2 ^ 14) by (apply Z.pow_le_mono_r; lia).
  destruct (pow2_fill k (2 ^ k) sz) as [Em Ef]; [lia | done | done |].
  pose proof (Z.mod_pos_bound sz (2 ^ k) ltac:(lia)).
  unfold write_padding. rewrite u32_small by (unfold is_word; lia). rewrite Em, Ef.
  destruct (Z.eqb_spec (sz mod 2 ^ k) 0) as [E|E].
  - done.
  - f_equal. unfold padding. rewrite take_replicate. f_equal. lia.
Qed.

Lemma section_eq ps data : section ps data = data ++ replicate (Z.to_nat (page_fill ps (Z.of_nat (length data)))) 0.
Proof. done. Qed.

Lemma image_writes_concat hdr ps kernel ramdisk second :
  concat (image_writes hdr ps kernel ramdisk second) = image_bytes hdr ps kernel ramdisk second.
Proof.
  unfold image_writes, image_bytes. rewrite !section_eq.
  destruct second as [s|]; cbn [flat_map concat app]; rewrite ?section_eq, ?app_nil_r, <- ?app_assoc; done.
Qed.

Lemma write_image_spec hdr ps kernel ramdisk second fd :
  valid_pagesize ps -> length (hdr_bytes hdr) = sizeof_hdr ->
  hdr_kernel_size hdr = Z.of_nat (length kernel) ->
  hdr_ramdisk_size hdr = Z.of_nat (length ramdisk) ->
  match second with Some s => hdr_second_size hdr = Z.of_nat (length s) | None => True end ->
  write_image hdr ps kernel ramdisk second fd
  = write_chunks (image_writes hdr ps kernel ramdisk second) fd.
Proof.
  intros Hp Hh Hk Hr Hs. unfold write_image, image_writes.
  rewrite Hk, Hr. destruct second as [s|]; [rewrite Hs|];
    cbn [flat_map app write_chunks]; rewrite Hh;
    repeat (match goal with |- context [fwrite_or_fail ?d fd] =>
        destruct (fwrite_or_fail d fd) as [fd1|]; [|done] end;
      cbn [mbind option_bind]; clear fd; rename fd1 into fd;
      rewrite write_padding_spec by (done || lia);
      match goal with |- context [fwrite_or_fail ?d fd] =>
        destruct (fwrite_or_fail d fd) as [fd1|]; [|done] end;
      cbn [mbind option_bind]; clear fd; rename fd1 into fd); done.
Qed.

(** What a successful [load_file] went through. *)
Lemma load_file_inv o fn data sz :
  load_file o fn = Some (data, sz) ->
  exists c n, os_fs o !! fn = Some c /\ n = s32 (Z.of_nat (length c)) /\ 0 <= n
    /\ data = take (Z.to_nat n `min` os_readable o fn) c /\ Z.of_nat (length data) = n /\ sz = u32 n.
Proof.
  unfold load_file. destruct (os_fs o !! fn) as [c|]; [|done].
  destruct (os_seek_end_ok o fn); [|done]. cbn [negb].
  destruct (Z.ltb_spec (s32 (Z.of_nat (length c))) 0); [done|].
  destruct (os_seek_set_ok o fn); [|done]. cbn [negb].
  destruct (os_malloc_ok o _); [|done]. cbn [negb].
  match goal with |- context [?a =? ?b] => destruct (Z.eqb_spec a b) as [E|E]; [|done] end.
  intros [= <- <-]. eauto 10.
Qed.

Lemma load_file_ok o fn data sz : load_file o fn = Some (data, sz) -> item_ok data sz.
Proof.
  intros (c & n & _ & Hn & Hn0 & _ & Hl & ->)%load_file_inv.
  pose proof (s32_range (Z.of_nat (length c))). unfold item_ok.
  rewrite u32_small by (unfold is_word; lia). lia.
Qed.

Lemma load_file_contents o fn data sz c :
  load_file o fn = Some (data, sz) -> os_fs o !! fn = Some c -> Z.of_nat (length c) < 2 ^ 31 ->
  data = c.
Proof.
  intros (c' & n & Hc & Hn & Hn0 & Hd & Hl & _)%load_file_inv Hc' Hlt.
  rewrite Hc in Hc'. injection Hc' as ->. rewrite s32_small in Hn by lia.
  rewrite Hd. apply take_ge. rewrite Hd, length_take in Hl. lia.
Qed.

Lemma load_items_ok o a kfn rfn it :
  load_items o a kfn rfn = inl it ->
  item_ok (it_kernel it) (it_ksz it) /\ item_ok (it_ramdisk it) (it_rsz it)
  /\ item_ok (default [] (it_second it)) (it_ssz it).
Proof.
  unfold load_items. destruct (load_file o kfn) as [[k ksz]|] eqn:Ek; [|done].
  apply load_file_ok in Ek.
  assert (forall r rsz, (if String.eqb rfn "NONE" then Some ([], 0) else load_file o rfn) = Some (r, rsz)
            -> item_ok r rsz) as Hr.
  { intros r rsz. case_match; [by intros [= <- <-] | apply load_file_ok]. }
  destruct (if String.eqb rfn "NONE" then _ else _) as [[r rsz]|]; [|done].
  specialize (Hr _ _ eq_refl).
  destruct (second_fn a) as [sfn|]; [|by intros [= <-]].
  destruct (load_file o sfn) as [[s ssz]|] eqn:Es; [|done]. apply load_file_ok in Es.
  by intros [= <-].
Qed.

Lemma strncpy_length dst src n : (n <= length dst)%nat -> length (strncpy dst src n) = length dst.
Proof.
  intros Hn. unfold strncpy. rewrite length_app, length_take, length_drop, length_app, length_replicate. lia.
Qed.

Lemma strncpy_words dst src n : words 8 dst -> words 8 src -> words 8 (strncpy dst src n).
Proof.
  intros Hd Hs. apply words_app; [|by apply Forall_drop].
  apply Forall_take, words_app; [done|]. by apply Forall_replicate.
Qed.

Lemma split_cmdline_ok cmd :
  words 8 cmd ->
  words 8 (fst (split_cmdline cmd)) /\ length (fst (split_cmdline cmd)) = BOOT_ARGS_SIZE
  /\ words 8 (snd (split_cmdline cmd)) /\ length (snd (split_cmdline cmd)) = BOOT_EXTRA_ARGS_SIZE.
Proof.
  intros Hc. unfold split_cmdline.
  assert (forall n, words 8 (replicate n 0)) as Hz by (intros; by apply Forall_replicate).
  assert (words 8 (drop (BOOT_ARGS_SIZE - 1) cmd)) by by apply Forall_drop.
  case_match; cbn [fst snd];
    rewrite ?length_insert, ?strncpy_length, ?length_replicate
      by (rewrite ?length_replicate; unfold BOOT_ARGS_SIZE; lia);
    repeat split; try done; try (apply words_insert; [|done]); by apply strncpy_words.
Qed.

(** The two fields hold the halves of the command line, NUL terminated. *)
Lemma split_cmdline_strings cmd c e :
  Forall (fun b => b <> 0) cmd ->
  (length cmd <= BOOT_ARGS_SIZE + BOOT_EXTRA_ARGS_SIZE - 2)%nat ->
  split_cmdline cmd = (c, e) ->
  exists c' e', c = take (BOOT_ARGS_SIZE - 1) cmd ++ 0 :: c' /\ e = drop (BOOT_ARGS_SIZE - 1) cmd ++ 0 :: e'.
Proof.
  intros Hn Hl Hs.
  unfold split_cmdline in Hs. unfold BOOT_ARGS_SIZE, BOOT_EXTRA_ARGS_SIZE in *. cbn [Nat.sub] in *.
  assert (forall n k, (k < n)%nat -> exists m, replicate n 0 = replicate k 0 ++ 0 :: m) as Hrep.
  { intros n k Hk. exists (replicate (n - k - 1) 0).
    change (0 :: replicate (n - k - 1) 0) with (replicate (S (n - k - 1)) 0).
    rewrite <- replicate_add. f_equal. lia. }
  destruct (Nat.leb_spec 511 (length cmd)) as [Hle|Hle]; injection Hs as <- <-.
  - destruct (Hrep (1024 - length (drop 511 cmd)) 0)%nat as [m Hm]; [rewrite length_drop; lia|].
    exists [], m. unfold strncpy. split.
    + rewrite take_app_le, insert_app_r_alt, length_take, Nat.min_l by (rewrite ?length_take; lia).
      rewrite Nat.sub_diag. done.
    + rewrite take_app_ge by (rewrite length_drop; lia).
      rewrite take_replicate, length_drop in *. rewrite Nat.min_l by lia.
      rewrite Hm. cbn [replicate app]. rewrite <- app_assoc. cbn [app].
      change (drop 1024 (replicate 1024 0)) with (@nil Z). by rewrite app_nil_r.
  - destruct (Hrep (511 - length cmd) 0)%nat as [m Hm]; [lia|].
    exists (<[(511 - length cmd - 1)%nat:=0]> (m ++ drop 511 (replicate 512 0))), (replicate 1023 0).
    rewrite (take_ge cmd), (drop_ge cmd) by lia. split; [|done].
    unfold strncpy. rewrite take_app_ge, take_replicate, Nat.min_l by lia.
    rewrite Hm. cbn [replicate app]. rewrite <- app_assoc, insert_app_r_alt by lia.
    assert (511 - length cmd = S (511 - length cmd - 1))%nat as E by lia. rewrite E at 1. done.
Qed.

(** The command line survives the split: for a command line the tool
    accepts (at most 1534 characters), the two header fields are NUL
    terminated inside their arrays and read, one after the other, as the
    original string. *)
Theorem split_cmdline_reads_back cmd c e :
  Forall (fun b => b <> 0) cmd ->
  (length cmd <= BOOT_ARGS_SIZE + BOOT_EXTRA_ARGS_SIZE - 2)%nat ->
  split_cmdline cmd = (c, e) ->
  exists s t, c_string c = Some s /\ c_string e = Some t /\ s ++ t = cmd.
Proof.
  intros Hn Hl Hs. destruct (split_cmdline_strings cmd c e Hn Hl Hs) as (c' & e' & -> & ->).
  exists (take (BOOT_ARGS_SIZE - 1) cmd), (drop (BOOT_ARGS_SIZE - 1) cmd).
  rewrite take_drop, !c_string_app by (by apply Forall_take || by apply Forall_drop). done.
Qed.

(** Induction for a loop that takes one or two arguments at a time. *)
Lemma list_ind2 {A} (P : list A -> Prop) :
  P [] -> (forall x, P [x]) -> (forall x l, P l -> P (x :: l)) ->
  (forall x y l, P l -> P (x :: y :: l)) -> forall l, P l.
Proof. intros H0 _ H1 _ l. induction l; auto. Qed.

Lemma parse_pagesize argv a a' :
  valid_pagesize (pagesize a) -> parse a argv = Parsed a' -> valid_pagesize (pagesize a').
Proof.
  remember (length argv) as n eqn:Hn. assert (length argv <= n)%nat as Hle by lia. clear Hn.
  revert argv a Hle. induction n as [|n IH]; intros [|arg rest] a Hle Ha H;
    cbn [parse length] in *; try lia; try (by injection H as <-).
  destruct (String.eqb arg "--id"); [by apply (IH rest (set_get_id a)) in H; [|lia|]|].
  destruct rest as [|val rest]; [done|]. cbn [length] in Hle.
  repeat match type of H with
  | (if ?b then parse ?a2 rest else _) = _ =>
      let E := fresh in destruct b eqn:E; [by apply (IH rest a2) in H; [|lia|]|]
  end.
  destruct (String.eqb arg "--pagesize"); [|done].
  match type of H with (if ?b then _ else parse ?a2 rest) = _ =>
    destruct b eqn:E; [done | apply (IH rest a2) in H; [done | lia|]] end.
  cbn [pagesize set_pagesize]. unfold valid_pagesize.
  set (p := strtoul32 val 10) in *.
  destruct (Z.eqb_spec p 2048), (Z.eqb_spec p 4096), (Z.eqb_spec p 8192), (Z.eqb_spec p 16384);
    auto; discriminate E.
Qed.

Lemma u32_at_word off mem : words 8 mem -> is_word 32 (u32_at off mem).
Proof.
  intros Hm. unfold u32_at, bytes_at.
  pose proof (le_eval_bound 8 (take 4 (drop off mem)) ltac:(lia)) as [? H].
  { by apply Forall_take, Forall_drop. }
  split; [done|]. eapply Z.lt_le_trans; [exact H|]. rewrite length_take. apply Z.pow_le_mono_r; lia.
Qed.

Lemma hash_digest_bytes l : words 8 (flat_map be_bytes4 l).
Proof.
  induction l as [|x l IH]; [done|]. apply words_app; [|done].
  repeat apply Forall_cons_2; auto with words.
Qed.

Lemma image_id_spec kernel ramdisk second ksz rsz ssz :
  words 8 kernel -> words 8 ramdisk -> words 8 second ->
  image_id kernel ramdisk second ksz rsz ssz
  = Sha1Spec.SHA1 (kernel ++ le32 ksz ++ ramdisk ++ le32 rsz ++ second ++ le32 ssz).
Proof.
  intros Hk Hr Hs.
  pose proof (SHA_updates_hold [kernel; le32 ksz; ramdisk; le32 rsz; second; le32 ssz] _ []
    (SHA_init_holds zero_ctx zero_ctx_ok)) as H.
  cbn [fold_left concat app] in H. rewrite app_nil_r in H.
  refine (hash_final_holds Sha1Spec.H0 _ _ (H _)).
  repeat (apply Forall_cons; split; [solve [auto using le32_words]|]). done.
Qed.

Lemma build_hdr_ok a k r s ksz rsz ssz :
  valid_pagesize (pagesize a) -> (String.length (board a) < BOOT_NAME_SIZE)%nat ->
  words 8 k -> words 8 r -> words 8 s -> is_word 32 ksz -> is_word 32 rsz -> is_word 32 ssz ->
  hdr_ok (build_hdr a k r s ksz rsz ssz).
Proof.
  intros Hp Hb Hk Hr Hs Hks Hrs Hss. unfold build_hdr.
  destruct (split_cmdline_ok (bytes_of (cmdline a)) (bytes_of_words _)) as (H1 & H2 & H3 & H4).
  destruct (split_cmdline (bytes_of (cmdline a))) as [c e]. cbn [fst snd] in *.
  assert (is_word 32 (pagesize a)) as Hpw.
  { unfold is_word. destruct Hp as [->|[->|[->| ->]]]; lia. }
  split; cbn [hdr_magic hdr_kernel_size hdr_kernel_addr hdr_ramdisk_size hdr_ramdisk_addr
    hdr_second_size hdr_second_addr hdr_tags_addr hdr_page_size hdr_unused hdr_os_version hdr_name
    hdr_cmdline hdr_id hdr_extra_cmdline].
  - split; [|done]. apply bytes_of_words.
  - repeat (apply Forall_cons; split; [solve [auto with words | done]|]). done.
  - split; [apply strncpy_words; [by apply Forall_replicate | apply bytes_of_words]|].
    rewrite strncpy_length; [done|]. rewrite bytes_of_length, length_replicate. lia.
  - done.
  - split; [|done]. unfold id_words. apply Forall_map, Forall_forall. intros i _.
    apply u32_at_word. rewrite image_id_spec by done.
    apply words_app; [apply hash_digest_bytes | by apply Forall_replicate].
  - done.
Qed.

(** The files are byte strings. *)
Definition os_ok (o : os) : Prop := forall fn c, os_fs o !! fn = Some c -> words 8 c.

Lemma load_file_words o fn data sz : os_ok o -> load_file o fn = Some (data, sz) -> words 8 data.
Proof.
  intros Ho (c & n & Hc & _ & _ & -> & _)%load_file_inv. apply Forall_take. by apply (Ho fn).
Qed.

Lemma load_items_words o a kfn rfn it :
  os_ok o -> load_items o a kfn rfn = inl it ->
  words 8 (it_kernel it) /\ words 8 (it_ramdisk it) /\ words 8 (default [] (it_second it)).
Proof.
  intros Ho. unfold load_items. destruct (load_file o kfn) as [[k ksz]|] eqn:Ek; [|done].
  assert (forall r rsz, (if String.eqb rfn "NONE" then Some ([], 0) else load_file o rfn) = Some (r, rsz)
            -> words 8 r) as Hr.
  { intros r rsz. case_match; [by intros [= <- <-] | by apply load_file_words]. }
  destruct (if String.eqb rfn "NONE" then _ else _) as [[r rsz]|]; [|done].
  specialize (Hr _ _ eq_refl). apply load_file_words in Ek; [|done].
  destruct (second_fn a) as [sfn|]; [|by intros [= <-]].
  destruct (load_file o sfn) as [[s ssz]|] eqn:Es; [|done]. apply load_file_words in Es; [|done].
  by intros [= <-].
Qed.

(** The header [main] writes for the loaded items. *)
Definition items_hdr (a : mk_args) (it : items) : boot_img_hdr :=
  build_hdr a (it_kernel it) (it_ramdisk it) (default [] (it_second it)) (it_ksz it) (it_rsz it) (it_ssz it).

Definition items_image (a : mk_args) (it : items) : list Z :=
  image_bytes (items_hdr a it) (pagesize a) (it_kernel it) (it_ramdisk it) (it_second it).

(** What [main] checks before it opens the output file. *)
Record mk_ready (o : os) (argv : list string) (a : mk_args) (img kfn rfn : string) (it : items) : Prop := {
  ready_parse : parse mk_defaults argv = Parsed a;
  ready_img : bootimg a = Some img;
  ready_kernel : kernel_fn a = Some kfn;
  ready_ramdisk : ramdisk_fn a = Some rfn;
  ready_board : (String.length (board a) < BOOT_NAME_SIZE)%nat;
  ready_cmdline : (String.length (cmdline a) <= BOOT_ARGS_SIZE + BOOT_EXTRA_ARGS_SIZE - 2)%nat;
  ready_items : load_items o a kfn rfn = inl it;
  ready_create : os_can_create o img = true
}.

Lemma ready_hdr_ok o argv a img kfn rfn it :
  os_ok o -> mk_ready o argv a img kfn rfn it ->
  valid_pagesize (pagesize a) /\ hdr_ok (items_hdr a it).
Proof.
  intros Ho [Hp _ _ _ Hb _ Hi _].
  assert (valid_pagesize (pagesize a)) as Hps by (by eapply parse_pagesize; [|exact Hp]; left).
  destruct (load_items_ok _ _ _ _ _ Hi) as ([Hk1 Hk2] & [Hr1 Hr2] & [Hs1 Hs2]).
  destruct (load_items_words _ _ _ _ _ Ho Hi) as (? & ? & ?).
  split; [done|]. apply build_hdr_ok; try done; unfold is_word; lia.
Qed.

(** The bytes [main] has handed to the device when it returns, under the
    buffering of its output stream. *)
Definition image_handed (o : os) (a : mk_args) (it : items) (img : string) : nat :=
  stdio_flushed (os_keeps o img) 0
    (map length (image_writes (items_hdr a it) (pagesize a) (it_kernel it) (it_ramdisk it) (it_second it))).

Lemma image_handed_le o a it img : (image_handed o a it img <= length (items_image a it))%nat.
Proof.
  unfold image_handed, items_image. rewrite <- image_writes_concat.
  etrans; [apply stdio_flushed_le|]. cbn [Nat.add]. generalize (image_writes (items_hdr a it) (pagesize a)
    (it_kernel it) (it_ramdisk it) (it_second it)). intros l.
  induction l as [|c l IH]; [done|]. cbn [map sum_list_with concat]. rewrite length_app. unfold id at 1. lia.
Qed.

(** A run that gets to the writes. *)
Lemma main_ready o argv a img kfn rfn it :
  os_ok o -> mk_ready o argv a img kfn rfn it ->
  main o argv =
    if (os_quota o img <? image_handed o a it img)%nat
    then {| code := 1; files := delete img (os_fs o); out := [];
            err := ["error: failed writing '" +:+ img +:+ "': " +:+ os_strerror o] |}
    else {| code := 0; files := <[img := take (os_quota o img) (items_image a it)]> (os_fs o);
            out := if get_id a then print_id (le32s (hdr_id (items_hdr a it))) else []; err := [] |}.
Proof.
  intros Ho Hready. destruct (ready_hdr_ok _ _ _ _ _ _ _ Ho Hready) as [Hps Hh].
  destruct Hready as [Hp Hi Hk Hr Hb Hc Hit Hcr].
  unfold main. rewrite Hp, Hi, Hk, Hr.
  rewrite (proj2 (Nat.leb_gt _ _) Hb), (proj2 (Nat.ltb_ge _ _) Hc), Hit, Hcr. cbn [negb].
  fold (items_hdr a it).
  destruct (load_items_ok _ _ _ _ _ Hit) as ([Hk1 _] & [Hr1 _] & [Hs1 _]).
  assert (hdr_kernel_size (items_hdr a it) = it_ksz it /\ hdr_ramdisk_size (items_hdr a it) = it_rsz it
          /\ hdr_second_size (items_hdr a it) = it_ssz it) as (Ek & Er & Es).
  { unfold items_hdr, build_hdr. by destruct (split_cmdline _). }
  rewrite write_image_spec; try congruence.
  - pose proof (write_chunks_closed o img (image_writes (items_hdr a it) (pagesize a) (it_kernel it)
      (it_ramdisk it) (it_second it))) as H.
    unfold items_image. rewrite <- image_writes_concat. fold (image_handed o a it img) in H.
    destruct (write_chunks _ _) as [fd|].
    + destruct H as [H ->]. by rewrite (proj2 (Nat.ltb_ge _ _) H).
    + by rewrite (proj2 (Nat.ltb_lt _ _) H).
  - by apply hdr_bytes_length.
  - destruct (it_second it) eqn:E2; [|done]. cbn [default from_option] in Hs1. unfold id in Hs1. congruence.
Qed.

(** C3.  What mkbootimg writes, once the arguments and the items are accepted
    and the output file is created.  When the device has room for the image
    (header, kernel, ramdisk, optional second stage, each padded to pages),
    the output file is the image and the exit status 0.  When it has not, the
    status is 1 and the file removed exactly when more bytes than fit had
    left the buffer of the stream during the writes; otherwise the shortage
    shows only when the stream is closed at exit, which nobody checks: the
    status is 0 and the file is the part of the image that fits. *)
Theorem main_writes_image o argv a img kfn rfn it :
  os_ok o -> mk_ready o argv a img kfn rfn it ->
  let image := items_image a it in
  let success data := {|
    code := 0; files := <[img := data]> (os_fs o);
    out := if get_id a then print_id (le32s (hdr_id (items_hdr a it))) else []; err := [] |} in
  ((length image <= os_quota o img)%nat -> main o argv = success image)
  /\ ((os_quota o img < length image)%nat ->
      main o argv =
        if (os_quota o img <? image_handed o a it img)%nat
        then {| code := 1; files := delete img (os_fs o); out := [];
                err := ["error: failed writing '" +:+ img +:+ "': " +:+ os_strerror o] |}
        else success (take (os_quota o img) image)).
Proof.
  intros Ho Hready image success. pose proof (image_handed_le o a it img) as Hle.
  assert (main o argv = if (os_quota o img <? image_handed o a it img)%nat
    then {| code := 1; files := delete img (os_fs o); out := [];
            err := ["error: failed writing '" +:+ img +:+ "': " +:+ os_strerror o] |}
    else success (take (os_quota o img) image)) as ->.
  { subst image success. by eapply main_ready. }
  split; [|done]. intros Hq. rewrite (proj2 (Nat.ltb_ge _ _)) by (subst image; lia).
  by rewrite take_ge by done.
Qed.

Lemma section_length ps data :
  0 < ps -> Z.of_nat (length (section ps data)) = pages ps (Z.of_nat (length data)) * ps.
Proof.
  intros Hp. unfold section, pages, page_fill. rewrite length_app, length_replicate, Nat2Z.inj_add.
  set (n := Z.of_nat (length data)). pose proof (Z.mod_pos_bound (- n) ps Hp).
  rewrite Z2Nat.id by lia. pose proof (Z.div_mod (- n) ps ltac:(lia)) as E.
  replace ((n + ps - 1) / ps) with (- (- n / ps)); [lia|].
  apply Z.div_unique with (r := ps - 1 - (- n) mod ps); lia.
Qed.

(** C38.  A failing run leaves no partial image: with a nonzero exit status the
    files are as before, except that the output file may be gone. *)
Theorem main_failure_no_output o argv :
  code (main o argv) <> 0 ->
  files (main o argv) = os_fs o
  \/ exists a img, parse mk_defaults argv = Parsed a /\ bootimg a = Some img
       /\ files (main o argv) = delete img (os_fs o).
Proof.
  unfold main. destruct (parse mk_defaults argv) as [a| |p]; [|by left|by left].
  destruct (bootimg a) as [img|] eqn:Eb; [|by left].
  destruct (kernel_fn a); [|by left]. destruct (ramdisk_fn a); [|by left].
  repeat (case_match; try by left). cbn [code files]. intros _. right. by exists a, img.
Qed.

(** * Concrete runs *)

(** A stream with a buffer of 4096 bytes that is flushed in whole buffers. *)
Definition block_keeps (p c : nat) : nat := ((p + c) mod Z.to_nat 4096)%nat.

Definition example_os (quota : nat) : os := {|
  os_fs := {[ "zImage" := [1; 2; 3]; "initrd" := [4; 5] ]};
  os_seek_end_ok _ := true; os_seek_set_ok _ := true; os_malloc_ok _ := true;
  os_readable _ := Z.to_nat 10000; os_can_create _ := true; os_quota _ := quota; os_keeps _ := block_keeps;
  os_strerror := "No space left on device" |}.

Definition example_argv : list string :=
  ["--kernel"; "zImage"; "--ramdisk"; "initrd"; "--base"; "0x80000000"; "--pagesize"; "2048";
   "--cmdline"; "console=ttyS0"; "-o"; "boot.img"].

Definition example_args : mk_args :=
  set_bootimg "boot.img" (set_cmdline "console=ttyS0" (set_pagesize 2048 (set_base 0x80000000
    (set_ramdisk "initrd" (set_kernel "zImage" mk_defaults))))).

Definition example_items : items := {|
  it_kernel := [1; 2; 3]; it_ksz := 3; it_ramdisk := [4; 5]; it_rsz := 2; it_second := None; it_ssz := 0 |}.

Lemma example_os_ok quota : os_ok (example_os quota).
Proof.
  intros fn c Hc. cbn in Hc.
  apply lookup_insert_Some in Hc as [[_ <-]|[_ Hc]];
    [|apply lookup_singleton_Some in Hc as [_ <-]];
    repeat (apply Forall_cons_2; [unfold is_word; lia|]); done.
Qed.

Lemma example_ready quota :
  mk_ready (example_os quota) example_argv example_args "boot.img" "zImage" "initrd" example_items.
Proof. split; try done; cbn; unfold BOOT_NAME_SIZE, BOOT_ARGS_SIZE, BOOT_EXTRA_ARGS_SIZE; lia. Qed.

(** On a device with room for 10000 bytes the image is written; with room for
    5000, all but the last 2048 bytes have left the buffer, the run succeeds
    and the file is cut; with room for 100 the run fails. *)
Lemma main_writes_image_witness :
  let image := items_image example_args example_items in
  length image = Z.to_nat 6144
  /\ files (main (example_os (Z.to_nat 10000)) example_argv)
    = <[ "boot.img" := image ]> (os_fs (example_os (Z.to_nat 10000)))
  /\ code (main (example_os (Z.to_nat 5000)) example_argv) = 0
  /\ files (main (example_os (Z.to_nat 5000)) example_argv) !! "boot.img" = Some (take (Z.to_nat 5000) image)
  /\ code (main (example_os 100) example_argv) = 1.
Proof.
  assert (length (items_image example_args example_items) = Z.to_nat 6144) as Hl by (vm_compute; reflexivity).
  assert (forall q, image_handed (example_os q) example_args example_items "boot.img" = Z.to_nat 4096) as Hh
    by (intros; vm_compute; reflexivity).
  pose proof (fun q => main_writes_image _ _ _ _ _ _ _ (example_os_ok q) (example_ready q)) as H.
  cbv zeta in *. split_and!; [exact Hl | | | |].
  - rewrite (proj1 (H _)) by (rewrite Hl; apply Nat.leb_le; vm_compute; reflexivity). reflexivity.
  - rewrite (proj2 (H _)) by (rewrite Hl; apply Nat.ltb_lt; vm_compute; reflexivity).
    rewrite Hh. reflexivity.
  - rewrite (proj2 (H _)) by (rewrite Hl; apply Nat.ltb_lt; vm_compute; reflexivity).
    rewrite Hh. apply lookup_insert_eq.
  - rewrite (proj2 (H _)) by (rewrite Hl; apply Nat.ltb_lt; vm_compute; reflexivity).
    rewrite Hh. reflexivity.
Defined.

Lemma split_cmdline_reads_back_witness :
  exists s t, c_string (fst (split_cmdline (bytes_of "console=ttyS0"))) = Some s
    /\ c_string (snd (split_cmdline (bytes_of "console=ttyS0"))) = Some t
    /\ s ++ t = bytes_of "console=ttyS0".
Proof.
  apply (split_cmdline_reads_back (bytes_of "console=ttyS0")).
  - by apply (bool_decide_unpack _).
  - cbn. unfold BOOT_ARGS_SIZE, BOOT_EXTRA_ARGS_SIZE. lia.
  - reflexivity.
Defined.

Lemma main_failure_no_output_witness :
  files (main (example_os 100) example_argv) = os_fs (example_os 100)
  \/ exists a img, parse mk_defaults example_argv = Parsed a /\ bootimg a = Some img
       /\ files (main (example_os 100) example_argv) = delete img (os_fs (example_os 100)).
Proof.
  apply (main_failure_no_output (example_os 100) example_argv).
  vm_compute. discriminate.
Defined.
