(* ===== verification/UnMkBootImg.v ===== *)
(** * unmkbootimg: mkbootimg/unmkbootimg.c

    The argument loop, [save_file], and [main]: the checks on the image, the
    offsets at which the items are looked for, the files written and the
    mkbootimg command printed.  A read outside the loaded file and a division
    by zero are undefined behaviour, which ends a run as [UB]. *)
From S2P Require Import Prelude Libc Hash Sha BootImg MkBootImg.

Record unmk_args := {
  u_kernel_fn : string;
  u_ramdisk_fn : string;
  u_second_fn : string;
  u_bootimg : option string
}.

Definition unmk_defaults : unmk_args := {|
  u_kernel_fn := "kernel"; u_ramdisk_fn := "ramdisk.cpio.gz";
  u_second_fn := "second_bootloader"; u_bootimg := None |}.

(** The [while(argc > 0)] loop; [None] is [return usage()]. *)
Fixpoint unmk_parse (a : unmk_args) (argv : list string) : option unmk_args :=
  match argv with
  | [] => Some a
  | [_] => None
  | arg :: val :: rest =>
      let '{| u_kernel_fn := k; u_ramdisk_fn := r; u_second_fn := s; u_bootimg := b |} := a in
      if String.eqb arg "--input" || String.eqb arg "-i" then
        unmk_parse {| u_kernel_fn := k; u_ramdisk_fn := r; u_second_fn := s; u_bootimg := Some val |} rest
      else if String.eqb arg "--kernel" then
        unmk_parse {| u_kernel_fn := val; u_ramdisk_fn := r; u_second_fn := s; u_bootimg := b |} rest
      else if String.eqb arg "--ramdisk" then
        unmk_parse {| u_kernel_fn := k; u_ramdisk_fn := val; u_second_fn := s; u_bootimg := b |} rest
      else if String.eqb arg "--second" then
        unmk_parse {| u_kernel_fn := k; u_ramdisk_fn := r; u_second_fn := val; u_bootimg := b |} rest
      else None
  end.

Definition unmk_usage_text : string :=
"usage: unmkbootimg
       [ --kernel <filename> ]
       [ --ramdisk <filename> ]
       [ --second <2ndbootloader-filename> ]
       -i|--input <filename>".

Inductive result :=
  | Exit (r : outcome)
  | UB.

(** [save_file(fn, &file_data[offset], sz)]: the count it returns, which
    includes bytes that were only buffered, and the files after [fclose];
    [None] when [fwrite] would read outside [file_data]. *)
Definition save_file (o : os) (fs : gmap string (list Z)) (fn : string) (mem : list Z) (offset sz : Z)
    : option (Z * gmap string (list Z)) :=
  if negb (os_can_create o fn) then Some (0, fs) else
  if Z.of_nat (length mem) <? offset + sz then None else
  let data := bytes_at (Z.to_nat offset) (Z.to_nat sz) mem in
  let '(fd, n) := fwrite data (fopen_wb o fn) in
  Some (Z.of_nat n, <[fn := fclosed fd]> fs).

(** The offsets [main] computes, in 32-bit unsigned arithmetic. *)
Definition kernel_off (h : boot_img_hdr) : Z := hdr_page_size h.
Definition ramdisk_off (h : boot_img_hdr) : Z :=
  u32 (u32 (hdr_kernel_size h + u32 (2 * hdr_page_size h) - 1) / hdr_page_size h * hdr_page_size h).
Definition second_off (h : boot_img_hdr) : Z :=
  u32 (u32 (u32 (hdr_kernel_size h + hdr_ramdisk_size h) + u32 (2 * hdr_page_size h) - 1)
         / hdr_page_size h * hdr_page_size h).

(** One of the three extractions: what remains to be done continues with the
    files and the output so far. *)
Definition extract (o : os) (mem : list Z) (fn : string) (what : string) (sz : Z) (divides : bool)
    (page offset : Z) (fs : gmap string (list Z)) (stdout : list Z)
    (k : gmap string (list Z) -> list Z -> result) : result :=
  if sz =? 0 then k fs stdout else
  if divides && (page =? 0) then UB else
  match save_file o fs fn mem offset sz with
  | None => UB
  | Some (n, fs) =>
      if negb (n =? sz)
      then Exit {| code := 1; files := fs; out := stdout;
                   err := ["error: could not save " +:+ what +:+ " '" +:+ fn +:+ "'"] |}
      else k fs (stdout ++ bytes_of what ++ bytes_of " written to '" ++ bytes_of fn ++ bytes_of "' ("
                 ++ fmt_d (s32 sz) ++ bytes_of " bytes)" ++ [10])
  end.

(** The options of the printed command with their values, or [None] when a
    [%s] runs past the end of the file looking for a NUL. *)
Definition rebuild_options (h : boot_img_hdr) (mem : list Z) (a : unmk_args) (img : string)
    : option (list (string * list Z)) :=
  name ← (if hdr_name h !!! 0%nat =? 0 then Some []
          else (fun s => [("--board", s)]) <$> c_string (drop 48 mem));
  cmd ← (if hdr_cmdline h !!! 0%nat =? 0 then Some []
         else s ← c_string (drop 64 mem); t ← c_string (drop 608 mem);
              Some [("--cmdline", s ++ t)]);
  let hex v := bytes_of "0x" ++ fmt_x 8 v in
  Some ([("--base", bytes_of "0"); ("--pagesize", fmt_d (s32 (hdr_page_size h)))]
    ++ name
    ++ [("--kernel_offset", hex (hdr_kernel_addr h)); ("--ramdisk_offset", hex (hdr_ramdisk_addr h));
        ("--second_offset", hex (hdr_second_addr h)); ("--tags_offset", hex (hdr_tags_addr h))]
    ++ cmd
    ++ (if hdr_kernel_size h =? 0 then [] else [("--kernel", bytes_of (u_kernel_fn a))])
    ++ (if hdr_ramdisk_size h =? 0 then [] else [("--ramdisk", bytes_of (u_ramdisk_fn a))])
    ++ (if hdr_second_size h =? 0 then [] else [("--second", bytes_of (u_second_fn a))])
    ++ [("-o", bytes_of img)]).

(** The text of one option as [printf] writes it. *)
Definition render_option (p : string * list Z) : list Z :=
  let '(flag, v) := p in
  bytes_of flag ++ [32]
  ++ (if String.eqb flag "--cmdline" then [39] ++ v ++ [39] else v)
  ++ (if String.eqb flag "-o" then [10] else [32]).

Definition print_command (h : boot_img_hdr) (mem : list Z) (a : unmk_args) (img : string)
    : option (list Z) :=
  opts ← rebuild_options h mem a img;
  Some ([10] ++ bytes_of "To rebuild this boot image, you can use the command:" ++ [10]
        ++ bytes_of "  mkbootimg " ++ flat_map render_option opts).

Definition unmk_main (o : os) (argv : list string) : result :=
  let fail msgs := Exit (exit_with o 1 msgs) in
  match unmk_parse unmk_defaults argv with
  | None => fail [unmk_usage_text]
  | Some a =>
      match u_bootimg a with
      | None => fail ["error: no input filename specified"; unmk_usage_text]
      | Some img =>
          match load_file o img with
          | None => fail ["error: could not load image '" +:+ img +:+ "'"]
          | Some (mem, file_size) =>
              if file_size <? Z.of_nat sizeof_hdr
              then fail ["error: file too small for a boot image"] else
              let h := hdr_of_bytes mem in
              if negb (bool_decide (hdr_magic h = bytes_of BOOT_MAGIC))
              then fail ["error: not an Android boot image"] else
              extract o mem (u_kernel_fn a) "kernel" (hdr_kernel_size h) false
                (hdr_page_size h) (kernel_off h) (os_fs o) [] (fun fs stdout =>
              extract o mem (u_ramdisk_fn a) "ramdisk" (hdr_ramdisk_size h) true
                (hdr_page_size h) (ramdisk_off h) fs stdout (fun fs stdout =>
              extract o mem (u_second_fn a) "second bootloader" (hdr_second_size h) true
                (hdr_page_size h) (second_off h) fs stdout (fun fs stdout =>
              match print_command h mem a img with
              | None => UB
              | Some text => Exit {| code := 0; files := fs; out := stdout ++ text; err := [] |}
              end)))
          end
      end
  end.

(** The files after an item was saved; an empty item is not saved. *)
Definition saved (fn : string) (data : list Z) (fs : gmap string (list Z)) : gmap string (list Z) :=
  if bool_decide (data = []) then fs else <[fn := data]> fs.

(** [fn] can be created and takes [data]. *)
Definition can_save (o : os) (fn : string) (data : list Z) : Prop :=
  os_can_create o fn = true /\ (length data <= os_quota o fn)%nat.

(** * Lemmas *)

Lemma bytes_at_section ps pre x rest :
  bytes_at (length pre) (length x) (pre ++ section ps x ++ rest) = x.
Proof. unfold section. rewrite <- app_assoc. apply bytes_at_here. Qed.

(** A write that the device has room for. *)
Lemma fwrite_fits o fn data :
  (length data <= os_quota o fn)%nat ->
  exists fd, fwrite data (fopen_wb o fn) = (fd, length data) /\ fclosed fd = data.
Proof.
  intros Hq. unfold fwrite. destruct (Nat.eqb_spec (length data) 0) as [E|E].
  - rewrite E. apply nil_length_inv in E as ->. eexists. split; [done|]. apply take_nil.
  - cbn [fopen_wb pending written room keeps app].
    rewrite (proj2 (Nat.leb_le _ _)) by lia. eexists. split; [done|].
    unfold fclosed. cbn [written pending room app].
    rewrite (take_ge (drop _ _)) by (rewrite length_drop; lia). apply take_drop.
Qed.

Lemma extract_saves o mem fn what data divides page off fs stdout k :
  can_save o fn data -> page <> 0 -> Z.of_nat (length data) < 2 ^ 32 ->
  0 <= off -> bytes_at (Z.to_nat off) (length data) mem = data ->
  exists stdout',
    extract o mem fn what (Z.of_nat (length data)) divides page off fs stdout k
    = k (saved fn data fs) stdout'.
Proof.
  intros [Hc Hq] Hp Hl Hoff Hd. unfold extract, saved.
  destruct (Z.eqb_spec (Z.of_nat (length data)) 0) as [E|E].
  - destruct data; [|cbn in E; lia]. by exists stdout.
  - rewrite bool_decide_false by by intros ->.
    rewrite (proj2 (Z.eqb_neq _ _) Hp), andb_false_r. unfold save_file. rewrite Hc. cbn [negb].
    assert (Z.to_nat off + length data <= length mem)%nat as Hfit.
    { rewrite <- Hd in E |- * at 1. unfold bytes_at in *. rewrite length_take, length_drop in *.
      rewrite <- Hd, length_take, length_drop in E. lia. }
    rewrite (proj2 (Z.ltb_ge _ _)) by lia. rewrite Nat2Z.id, Hd.
    destruct (fwrite_fits o fn data Hq) as (fd & -> & ->).
    rewrite Z.eqb_refl. cbn [negb app]. eauto.
Qed.

(** ** The offsets *)

Lemma pages_nonneg ps x : 0 < ps -> 0 <= x -> 0 <= pages ps x.
Proof. intros. apply Z.div_pos; lia. Qed.

Lemma pages_upper ps x : 0 < ps -> pages ps x * ps <= x + ps - 1.
Proof. intros. unfold pages. pose proof (Z.mul_div_le (x + ps - 1) ps). lia. Qed.

(** The rounding both offsets use: one page for the header, then whole pages. *)
Lemma offset_pages x ps :
  0 < ps <= 16384 -> 0 <= x < 2 ^ 31 + 2 ^ 30 ->
  u32 (u32 (x + u32 (2 * ps) - 1) / ps * ps) = (1 + pages ps x) * ps.
Proof.
  intros Hp Hx. rewrite (u32_small (2 * ps)) by (unfold is_word; lia).
  rewrite (u32_small (x + 2 * ps - 1)) by (unfold is_word; lia).
  assert ((x + 2 * ps - 1) / ps = 1 + pages ps x) as ->.
  { unfold pages. replace (x + 2 * ps - 1) with (x + ps - 1 + 1 * ps) by lia. rewrite Z.div_add by lia. lia. }
  apply u32_small. pose proof (pages_upper ps x). pose proof (pages_nonneg ps x).
  unfold is_word. nia.
Qed.

(** The header fits the first page. *)
Lemma hdr_section_length a it :
  valid_pagesize (pagesize a) -> hdr_ok (items_hdr a it) ->
  Z.of_nat (length (section (pagesize a) (hdr_bytes (items_hdr a it)))) = pagesize a.
Proof.
  intros Hp Hh. rewrite section_length, (hdr_bytes_length _ Hh) by (destruct Hp as [->|[->|[->| ->]]]; lia).
  by destruct Hp as [->|[->|[->| ->]]].
Qed.

Lemma items_hdr_fields a it :
  hdr_kernel_size (items_hdr a it) = it_ksz it /\ hdr_ramdisk_size (items_hdr a it) = it_rsz it
  /\ hdr_second_size (items_hdr a it) = it_ssz it /\ hdr_page_size (items_hdr a it) = pagesize a
  /\ hdr_magic (items_hdr a it) = bytes_of BOOT_MAGIC.
Proof. unfold items_hdr, build_hdr. by destruct (split_cmdline _). Qed.

(** ** The strings of the header *)

Lemma c_string_first l m : c_string l = Some m -> l !!! 0%nat = 0 -> m = [].
Proof. destruct l as [|b l]; [done|]. cbn. intros H ->. by injection H. Qed.

Lemma board_field b :
  (String.length b < BOOT_NAME_SIZE)%nat ->
  exists n', strncpy (replicate BOOT_NAME_SIZE 0) (bytes_of b) (length (bytes_of b) + 1)
             = bytes_of b ++ 0 :: n'.
Proof.
  intros Hb. rewrite <- bytes_of_length in Hb. unfold strncpy.
  rewrite take_app_add. exists (drop (length (bytes_of b) + 1) (replicate BOOT_NAME_SIZE 0)).
  rewrite take_replicate, Nat.min_l by lia. by rewrite <- app_assoc.
Qed.

(** The memory of an image where its strings start. *)
Lemma hdr_strings h rest :
  hdr_ok h ->
  exists r1 r2 r3, drop 48 (hdr_bytes h ++ rest) = hdr_name h ++ r1
    /\ drop 64 (hdr_bytes h ++ rest) = hdr_cmdline h ++ r2
    /\ drop 608 (hdr_bytes h ++ rest) = hdr_extra_cmdline h ++ r3.
Proof.
  intros [[_ Hm] _ [_ Hn] [_ Hc] [_ Hi] [_ He]].
  exists (hdr_cmdline h ++ le32s (hdr_id h) ++ hdr_extra_cmdline h ++ rest),
    (le32s (hdr_id h) ++ hdr_extra_cmdline h ++ rest), rest.
  unfold hdr_bytes. rewrite <- !app_assoc.
  unfold BOOT_MAGIC_SIZE, BOOT_NAME_SIZE, BOOT_ARGS_SIZE, BOOT_EXTRA_ARGS_SIZE in *.
  pose proof (le32s_length (hdr_id h)) as Hi'. rewrite Hi in Hi'.
  assert (forall k n x l, length x = n -> (n <= k)%nat -> drop k (x ++ l) = drop (k - n) l :> list Z) as D.
  { intros k n x l <- ?. by apply drop_app_ge. }
  split_and!; repeat (first [rewrite (D _ 4%nat) by (apply le32_length || lia) | erewrite D by (eassumption || lia)]);
    cbn [Nat.sub]; by rewrite ?drop_0.
Qed.

(** ** Reading the printed command as a shell does *)

(** A byte that means itself outside quotes. *)
Definition plain_char (b : Z) : bool :=
  (48 <=? b) && (b <=? 57) || (65 <=? b) && (b <=? 90) || (97 <=? b) && (b <=? 122)
  || existsb (Z.eqb b) (bytes_of "-_./:,@%+=").

Definition end_word (cur : option (list Z)) : list (list Z) :=
  match cur with Some w => [w] | None => [] end.

(** The words of the simple command on the first line: blanks separate,
    single quotes hold everything up to the next one.  [cur] is the word being
    read.  [None] is any other use of the shell's syntax: expansions, operators,
    an open quote at the end. *)
Fixpoint sh_words (quoted : bool) (cur : option (list Z)) (l : list Z) : option (list (list Z)) :=
  match l with
  | [] => if quoted then None else Some (end_word cur)
  | b :: l =>
      if quoted then
        if b =? 39 then sh_words false cur l else sh_words true (Some (default [] cur ++ [b])) l
      else if b =? 39 then sh_words true (Some (default [] cur)) l
      else if b =? 10 then Some (end_word cur)
      else if b =? 32 then app (end_word cur) <$> sh_words false None l
      else if plain_char b then sh_words false (Some (default [] cur ++ [b])) l
      else None
  end.

(** A word that can be written without quotes. *)
Definition sh_plain (w : list Z) : Prop := w <> [] /\ Forall (fun b => plain_char b = true) w.

Lemma plain_char_blank b : plain_char b = true -> (b =? 39) = false /\ (b =? 10) = false /\ (b =? 32) = false.
Proof. intros Hb. split_and!; apply Z.eqb_neq; by intros ->. Qed.

Lemma sh_words_plain_go w cur l :
  Forall (fun b => plain_char b = true) w -> w <> [] ->
  sh_words false cur (w ++ l) = sh_words false (Some (default [] cur ++ w)) l.
Proof.
  intros Hw. revert cur. induction Hw as [|b w Hb Hw IH]; intros cur Hn; [done|].
  cbn [app sh_words]. destruct (plain_char_blank b Hb) as (-> & -> & ->). rewrite Hb.
  destruct w as [|c w]; [done|]. rewrite IH by done. cbn [default from_option]. unfold id.
  by rewrite <- app_assoc.
Qed.

Lemma sh_words_quoted_go w cur l :
  Forall (fun b => b <> 39) w ->
  sh_words true (Some cur) (w ++ 39 :: l) = sh_words false (Some (cur ++ w)) l.
Proof.
  intros Hw. revert cur. induction Hw as [|b w Hb Hw IH]; intros cur; cbn [app sh_words].
  - by rewrite app_nil_r.
  - rewrite (proj2 (Z.eqb_neq _ _) Hb). cbn [default from_option]. unfold id. by rewrite IH, <- app_assoc.
Qed.

(** A word and the blank or the end of line after it. *)
Lemma sh_words_plain w l :
  sh_plain w -> sh_words false None (w ++ 32 :: l) = cons w <$> sh_words false None l.
Proof. intros [Hn Hw]. rewrite sh_words_plain_go by done. cbn. by destruct (sh_words false None l). Qed.

Lemma sh_words_last w : sh_plain w -> sh_words false None (w ++ [10]) = Some [w].
Proof. intros [Hn Hw]. by rewrite sh_words_plain_go by done. Qed.

Lemma sh_words_quoted w l :
  Forall (fun b => b <> 39) w ->
  sh_words false None (39 :: (w ++ 39 :: 32 :: l)) = cons w <$> sh_words false None l.
Proof.
  intros Hw. cbn [sh_words]. rewrite Z.eqb_refl. cbn [default from_option].
  rewrite sh_words_quoted_go by done. cbn. by destruct (sh_words false None l).
Qed.

(** ** The command that rebuilds the image *)

(** The words of the printed command after [mkbootimg]. *)
Definition argv_of (opts : list (string * list Z)) : list string :=
  flat_map (fun '(flag, v) => [flag; string_of v]) opts.

(** The arguments that command stands for, for an image built from [a]. *)
Definition rebuilt_args (a : mk_args) (it : items) (ua : unmk_args) (img : string) : mk_args := {|
  kernel_fn := if it_ksz it =? 0 then None else Some (u_kernel_fn ua);
  ramdisk_fn := if it_rsz it =? 0 then None else Some (u_ramdisk_fn ua);
  second_fn := if it_ssz it =? 0 then None else Some (u_second_fn ua);
  cmdline := cmdline a; bootimg := Some img; board := board a; pagesize := pagesize a; base := 0;
  kernel_offset := u32 (base a + kernel_offset a); ramdisk_offset := u32 (base a + ramdisk_offset a);
  second_offset := u32 (base a + second_offset a); tags_offset := u32 (base a + tags_offset a);
  get_id := false |}.

Definition hex8 (v : Z) : list Z := bytes_of "0x" ++ fmt_x 8 v.

Definition image_options (a : mk_args) (it : items) (ua : unmk_args) (img : string) : list (string * list Z) :=
  [("--base", bytes_of "0"); ("--pagesize", fmt_d (s32 (pagesize a)))]
  ++ (if String.eqb (board a) "" then [] else [("--board", bytes_of (board a))])
  ++ [("--kernel_offset", hex8 (u32 (base a + kernel_offset a)));
      ("--ramdisk_offset", hex8 (u32 (base a + ramdisk_offset a)));
      ("--second_offset", hex8 (u32 (base a + second_offset a)));
      ("--tags_offset", hex8 (u32 (base a + tags_offset a)))]
  ++ (if String.eqb (cmdline a) "" then [] else [("--cmdline", bytes_of (cmdline a))])
  ++ (if it_ksz it =? 0 then [] else [("--kernel", bytes_of (u_kernel_fn ua))])
  ++ (if it_rsz it =? 0 then [] else [("--ramdisk", bytes_of (u_ramdisk_fn ua))])
  ++ (if it_ssz it =? 0 then [] else [("--second", bytes_of (u_second_fn ua))])
  ++ [("-o", bytes_of img)].

Lemma rebuild_options_image a it rest ua img :
  no_nul (board a) -> no_nul (cmdline a) ->
  (String.length (board a) < BOOT_NAME_SIZE)%nat ->
  (String.length (cmdline a) <= BOOT_ARGS_SIZE + BOOT_EXTRA_ARGS_SIZE - 2)%nat ->
  hdr_ok (items_hdr a it) ->
  rebuild_options (items_hdr a it) (hdr_bytes (items_hdr a it) ++ rest) ua img
  = Some (image_options a it ua img).
Proof.
  intros Hb Hc Hbl Hcl Hh.
  destruct (hdr_strings _ rest Hh) as (r1 & r2 & r3 & E1 & E2 & E3).
  destruct (board_field _ Hbl) as [n' En]. rewrite <- bytes_of_length in Hcl.
  unfold rebuild_options. rewrite E1, E2, E3. clear E1 E2 E3 Hh.
  unfold items_hdr, build_hdr.
  destruct (split_cmdline (bytes_of (cmdline a))) as [c e] eqn:Ec.
  destruct (split_cmdline_strings _ _ _ Hc Hcl Ec) as (c' & e' & -> & ->).
  cbn [hdr_name hdr_cmdline hdr_extra_cmdline hdr_kernel_size hdr_ramdisk_size hdr_second_size
       hdr_page_size hdr_kernel_addr hdr_ramdisk_addr hdr_second_addr hdr_tags_addr].
  rewrite En, <- !app_assoc. cbn [app].
  rewrite !c_string_app by (done || by apply Forall_take || by apply Forall_drop).
  cbn [fmap option_fmap option_map mbind option_bind]. rewrite take_drop.
  unfold image_options.
  assert (forall s l, no_nul s -> ((bytes_of s ++ 0 :: l) !!! 0%nat =? 0) = String.eqb s "") as Hz.
  { intros s l Hs. destruct s as [|b s]; [done|]. apply Z.eqb_neq. by apply Forall_inv in Hs. }
  rewrite (Hz (board a)) by done.
  assert (((take (BOOT_ARGS_SIZE - 1) (bytes_of (cmdline a)) ++ 0 :: c') !!! 0%nat =? 0)
          = String.eqb (cmdline a) "") as ->.
  { rewrite <- (Hz _ c' Hc). by destruct (bytes_of (cmdline a)). }
  by destruct (String.eqb (board a) ""), (String.eqb (cmdline a) "").
Qed.

Lemma hex8_words v : words 8 (hex8 v).
Proof.
  apply words_app; [apply bytes_of_words|].
  eapply Forall_impl; [apply fmt_x_digits|]. cbn. unfold is_base_digit, digit_val, isdigit, is_word.
  intros b H. repeat case_match; try discriminate;
    repeat match goal with E : (_ && _) = true |- _ => apply andb_prop in E as [?%Z.leb_le ?%Z.leb_le] end; lia.
Qed.

Lemma strtoul32_hex8 v : is_word 32 v -> strtoul32 (string_of (hex8 v)) 16 = v.
Proof.
  intros Hv. unfold strtoul32. rewrite bytes_of_string_of.
  - unfold hex8. change (bytes_of "0x" ++ fmt_x 8 v) with (48 :: 120 :: fmt_x 8 v).
    by rewrite strtoul_hex, u32_small.
  - apply hex8_words.
Qed.

(** Steps of mkbootimg's argument loop on options of the command. *)
Lemma parse_step_pagesize a p rest :
  valid_pagesize p ->
  parse a ("--pagesize" :: string_of (fmt_d (s32 p)) :: rest) = parse (set_pagesize p a) rest.
Proof. by intros [->|[->|[->| ->]]]. Qed.

Lemma parse_step_hex (flag : string) (set : Z -> mk_args -> mk_args) v a rest :
  (forall s, parse a (flag :: s :: rest) = parse (set (strtoul32 s 16) a) rest) ->
  is_word 32 v ->
  parse a (flag :: string_of (hex8 v) :: rest) = parse (set v a) rest.
Proof. intros H Hv. by rewrite H, strtoul32_hex8. Qed.

(** An option that is only printed when it carries something. *)
Lemma parse_optional (b : bool) flag v (set : string -> mk_args -> mk_args) a rest :
  (forall v a r, parse a (flag :: v :: r) = parse (set v a) r) ->
  parse a (argv_of (if b then [] else [(flag, bytes_of v)]) ++ rest)
  = parse (if b then a else set v a) rest.
Proof. intros H. destruct b; [done|]. cbn [argv_of flat_map app]. by rewrite H, string_of_bytes_of. Qed.

Lemma argv_of_app l1 l2 : argv_of (l1 ++ l2) = argv_of l1 ++ argv_of l2.
Proof. apply flat_map_app. Qed.

Lemma parse_image_options a it ua img :
  valid_pagesize (pagesize a) ->
  parse mk_defaults (argv_of (image_options a it ua img)) = Parsed (rebuilt_args a it ua img).
Proof.
  intros Hp. unfold image_options. rewrite !argv_of_app.
  cbn [argv_of flat_map app].
  match goal with |- parse _ (_ :: _ :: ?r) = ?p => change (parse (set_base 0 mk_defaults) r = p) end.
  rewrite parse_step_pagesize by done.
  rewrite (parse_optional _ "--board" _ set_board) by reflexivity.
  rewrite (parse_step_hex "--kernel_offset" set_kernel_offset) by (reflexivity || apply u32_range).
  rewrite (parse_step_hex "--ramdisk_offset" set_ramdisk_offset) by (reflexivity || apply u32_range).
  rewrite (parse_step_hex "--second_offset" set_second_offset) by (reflexivity || apply u32_range).
  rewrite (parse_step_hex "--tags_offset" set_tags_offset) by (reflexivity || apply u32_range).
  rewrite (parse_optional _ "--cmdline" _ set_cmdline) by reflexivity.
  rewrite (parse_optional _ "--kernel" _ set_kernel) by reflexivity.
  rewrite (parse_optional _ "--ramdisk" _ set_ramdisk) by reflexivity.
  rewrite (parse_optional _ "--second" _ set_second) by reflexivity.
  match goal with |- parse ?b ["-o"; ?v] = _ => change (Parsed (set_bootimg v b) = Parsed (rebuilt_args a it ua img)) end.
  cbn [parse]. rewrite string_of_bytes_of. f_equal. unfold rebuilt_args.
  destruct (String.eqb_spec (board a) "") as [->|_], (String.eqb_spec (cmdline a) "") as [->|_],
    (it_ksz it =? 0), (it_rsz it =? 0), (it_ssz it =? 0); reflexivity.
Qed.

(** ** Extraction *)

(** The text [main] ends its output with. *)
Definition rebuild_text (a : mk_args) (it : items) (ua : unmk_args) (img : string) : list Z :=
  [10] ++ bytes_of "To rebuild this boot image, you can use the command:" ++ [10]
  ++ bytes_of "  mkbootimg " ++ flat_map render_option (image_options a it ua img).

(** Rounding a sum up gives the sum of the parts rounded up, or one less. *)
Lemma pages_sum ps x y :
  0 < ps -> pages ps (x + y) = pages ps x + pages ps y
            \/ pages ps (x + y) = pages ps x + pages ps y - 1.
Proof.
  intros Hp. unfold pages.
  pose proof (Z.div_mod (x + ps - 1) ps ltac:(lia)). pose proof (Z.mod_pos_bound (x + ps - 1) ps Hp).
  pose proof (Z.div_mod (y + ps - 1) ps ltac:(lia)). pose proof (Z.mod_pos_bound (y + ps - 1) ps Hp).
  pose proof (Z.div_mod (x + y + ps - 1) ps ltac:(lia)).
  pose proof (Z.mod_pos_bound (x + y + ps - 1) ps Hp). nia.
Qed.

(** Where unmkbootimg looks for the second stage: at the page where
    mkbootimg put it exactly when rounding kernel and ramdisk together costs
    no page, and one page before it otherwise. *)
Lemma second_stage_at a it :
  valid_pagesize (pagesize a) -> 0 <= it_ksz it -> 0 <= it_rsz it -> it_ksz it + it_rsz it < 2 ^ 31 ->
  let pos := (1 + pages (pagesize a) (it_ksz it) + pages (pagesize a) (it_rsz it)) * pagesize a in
  let joint := pages (pagesize a) (it_ksz it + it_rsz it) in
  let apart := pages (pagesize a) (it_ksz it) + pages (pagesize a) (it_rsz it) in
  (joint = apart -> second_off (items_hdr a it) = pos)
  /\ (joint <> apart -> second_off (items_hdr a it) = pos - pagesize a).
Proof.
  intros Hps Hk Hr Hl pos joint apart. unfold second_off.
  destruct (items_hdr_fields a it) as (-> & -> & _ & -> & _).
  assert (0 < pagesize a <= 16384) by (destruct Hps as [->|[->|[->| ->]]]; lia).
  rewrite (u32_small (it_ksz it + it_rsz it)) by (unfold is_word; lia).
  rewrite offset_pages by lia. subst pos joint apart.
  destruct (pages_sum (pagesize a) (it_ksz it) (it_rsz it)) as [->| ->]; lia.
Qed.

(** Where mkbootimg puts the second stage. *)
Definition second_pos (a : mk_args) (it : items) : Z :=
  (1 + pages (pagesize a) (it_ksz it) + pages (pagesize a) (it_rsz it)) * pagesize a.

(** Rounding the two sizes together gives the pages they take apart. *)
Definition second_found (a : mk_args) (it : items) : bool :=
  pages (pagesize a) (it_ksz it + it_rsz it) =? pages (pagesize a) (it_ksz it) + pages (pagesize a) (it_rsz it).

(** What unmkbootimg takes for the second stage: the second stage when the
    roundings agree, and otherwise as many bytes from one page before it. *)
Definition second_read (a : mk_args) (it : items) : list Z :=
  if second_found a it then default [] (it_second it)
  else bytes_at (Z.to_nat (second_pos a it - pagesize a)) (length (default [] (it_second it)))
         (items_image a it).

(** Where the items lie in the image, and where [main] looks for them. *)
Lemma items_at a it :
  valid_pagesize (pagesize a) -> hdr_ok (items_hdr a it) ->
  item_ok (it_kernel it) (it_ksz it) -> item_ok (it_ramdisk it) (it_rsz it) ->
  item_ok (default [] (it_second it)) (it_ssz it) ->
  Z.of_nat (length (items_image a it)) < 2 ^ 31 ->
  let h := items_hdr a it in
  let at_ off x := 0 <= off /\ bytes_at (Z.to_nat off) (length x) (items_image a it) = x in
  at_ (kernel_off h) (it_kernel it) /\ at_ (ramdisk_off h) (it_ramdisk it)
  /\ (it_ssz it <> 0 -> at_ (second_off h) (second_read a it)
        /\ length (second_read a it) = length (default [] (it_second it))).
Proof.
  intros Hp Hh [Hk Hk'] [Hr Hr'] [Hs Hs'] Hl h at_. unfold at_.
  destruct (items_hdr_fields a it) as (Ek & Er & Es & Ep & _).
  unfold kernel_off, ramdisk_off. subst h. rewrite Ek, Ep.
  assert (0 < pagesize a <= 16384) as Hps by (destruct Hp as [->|[->|[->| ->]]]; lia).
  pose proof (hdr_section_length a it Hp Hh) as Lh.
  pose proof (section_length (pagesize a) (it_kernel it) ltac:(lia)) as Lk.
  pose proof (section_length (pagesize a) (it_ramdisk it) ltac:(lia)) as Lr.
  unfold items_image, image_bytes in *. rewrite <- Hk in Lk. rewrite <- Hr in Lr.
  set (ps := pagesize a) in *.
  set (H := section ps (hdr_bytes (items_hdr a it))) in *.
  pose proof (pages_nonneg ps (it_ksz it) ltac:(lia) ltac:(lia)).
  split_and!.
  - lia.
  - replace (Z.to_nat ps) with (length H) by lia. apply bytes_at_section.
  - rewrite offset_pages by lia. nia.
  - rewrite offset_pages by lia.
    replace (Z.to_nat _) with (length (H ++ section ps (it_kernel it))) by (rewrite length_app; nia).
    rewrite app_assoc. apply bytes_at_section.
  - intros Hz. destruct (it_second it) as [s|] eqn:E2; cbn in Hs; [|done].
    rewrite !length_app in Hl.
    pose proof (pages_nonneg ps (it_rsz it) ltac:(lia) ltac:(lia)).
    assert (it_ksz it <= pages ps (it_ksz it) * ps) by
      (rewrite <- Lk; unfold section; rewrite length_app; lia).
    assert (it_rsz it <= pages ps (it_rsz it) * ps) by
      (rewrite <- Lr; unfold section; rewrite length_app; lia).
    destruct (second_stage_at a it Hp ltac:(lia) ltac:(lia) ltac:(lia)) as [Hyes Hno].
    cbv zeta in Hyes, Hno. change (pagesize a) with ps in Hyes, Hno.
    unfold second_read, second_found, second_pos. rewrite E2. cbn [default from_option]. unfold id.
    change (pagesize a) with ps.
    assert (length s <= length (section ps s))%nat by (unfold section; rewrite length_app; lia).
    match goal with |- context [?j =? ?k] => destruct (Z.eqb_spec j k) as [Hj|Hj] end.
    + rewrite (Hyes Hj). split; [|done]. split; [nia|].
      replace (Z.to_nat _) with (length (H ++ section ps (it_kernel it) ++ section ps (it_ramdisk it)))
        by (rewrite !length_app; nia).
      pose proof (bytes_at_section ps (H ++ section ps (it_kernel it) ++ section ps (it_ramdisk it)) s []) as E.
      by rewrite app_nil_r, <- !app_assoc in E.
    + rewrite (Hno Hj). unfold items_image, image_bytes. rewrite E2. fold ps. fold H.
      match goal with |- context [bytes_at ?off (length s) ?img] =>
        assert (length (bytes_at off (length s) img) = length s) as -> end.
      { unfold bytes_at. rewrite length_take, length_drop, !length_app.
        apply Nat.min_l. nia. }
      split; [split; [nia|done] | done].
Qed.

(** One extraction on an image that holds the item. *)
Ltac extract_step :=
  match goal with
  | |- context [extract ?o ?m ?fn ?w (Z.of_nat (length ?d)) ?dv ?pg ?off ?fs ?so ?k] =>
      let E := fresh in
      destruct (extract_saves o m fn w d dv pg off fs so k) as [? E];
        [done | done | lia | done | done | rewrite E; clear E]
  end.

(** C4.  unmkbootimg undoes mkbootimg, but for the second stage.  On an image
    mkbootimg wrote it exits with 0, saves exactly the kernel and the ramdisk,
    and ends its output with the rebuild command.  The second stage is
    recovered when rounding the sizes of kernel and ramdisk together to pages
    gives the pages they take apart; otherwise the bytes saved as the second
    stage are those one page before it. *)
Theorem unmk_extracts o argv a img kfn rfn it o' uargv ua img' len :
  os_ok o -> mk_ready o argv a img kfn rfn it -> no_nul (board a) -> no_nul (cmdline a) ->
  unmk_parse unmk_defaults uargv = Some ua -> u_bootimg ua = Some img' ->
  load_file o' img' = Some (items_image a it, len) ->
  can_save o' (u_kernel_fn ua) (it_kernel it) -> can_save o' (u_ramdisk_fn ua) (it_ramdisk it) ->
  can_save o' (u_second_fn ua) (default [] (it_second it)) ->
  let second :=
    if pages (pagesize a) (it_ksz it + it_rsz it)
       =? pages (pagesize a) (it_ksz it) + pages (pagesize a) (it_rsz it)
    then default [] (it_second it)
    else bytes_at (Z.to_nat (second_pos a it - pagesize a)) (length (default [] (it_second it)))
           (items_image a it) in
  exists stdout, unmk_main o' uargv = Exit {|
    code := 0; out := stdout ++ rebuild_text a it ua img'; err := [];
    files := saved (u_second_fn ua) second
               (saved (u_ramdisk_fn ua) (it_ramdisk it)
                  (saved (u_kernel_fn ua) (it_kernel it) (os_fs o'))) |}.
Proof.
  intros Ho Hready Hnb Hnc Hup Hui Hload Ck Cr Cs second.
  change second with (second_read a it). clear second.
  destruct (ready_hdr_ok _ _ _ _ _ _ _ Ho Hready) as [Hps Hh].
  destruct Hready as [_ _ _ _ Hb Hc Hit _].
  destruct (load_items_ok _ _ _ _ _ Hit) as (Ik & Ir & Is).
  destruct (load_file_ok _ _ _ _ Hload) as [Hlen Hlen'].
  destruct (items_at a it Hps Hh Ik Ir Is ltac:(lia)) as ((Pk & Ak) & (Pr & Ar) & As).
  destruct (items_hdr_fields a it) as (Ek & Er & Es & Ep & Em).
  destruct Ik as [Ik Ik'], Ir as [Ir Ir'], Is as [Is Is'].
  assert (pagesize a <> 0) by (destruct Hps as [->|[->|[->| ->]]]; lia).
  assert (exists rest, items_image a it = hdr_bytes (items_hdr a it) ++ rest) as [rest Himg].
  { unfold items_image, image_bytes, section at 1. rewrite <- app_assoc. eauto. }
  assert (Z.of_nat sizeof_hdr <= len).
  { rewrite Hlen, Himg, length_app, (hdr_bytes_length _ Hh). lia. }
  unfold unmk_main. rewrite Hup, Hui, Hload, (proj2 (Z.ltb_ge _ _)) by done.
  assert (hdr_of_bytes (items_image a it) = items_hdr a it) as -> by (rewrite Himg; by apply hdr_read_back).
  rewrite Em, bool_decide_true by done. cbn [negb]. rewrite Ek, Er, Es, Ep, Ik, Ir, Is.
  extract_step.
  extract_step.
  assert (print_command (items_hdr a it) (items_image a it) ua img' = Some (rebuild_text a it ua img')) as Hpc.
  { unfold print_command. by rewrite Himg, rebuild_options_image. }
  destruct (Z.eq_dec (it_ssz it) 0) as [E|E].
  - rewrite Is in E. unfold extract at 1. rewrite E. cbn [Z.eqb]. rewrite Hpc.
    assert (second_read a it = []) as ->.
    { unfold second_read. destruct (default [] (it_second it)); [|cbn in E; lia]. by case_match. }
    eexists. reflexivity.
  - destruct (As E) as [[Ps As'] Ls]. rewrite Is in Is'. unfold can_save in Cs. rewrite <- Ls in Cs, Is'. rewrite <- Ls.
    change (can_save o' (u_second_fn ua) (second_read a it)) in Cs.
    extract_step.
    rewrite Hpc. eexists. reflexivity.
Qed.

(** ** The text of the command *)

(** An option whose text a shell reads as the flag and the value. *)
Definition readable_option (p : string * list Z) : Prop :=
  sh_plain (bytes_of (fst p))
  /\ if String.eqb (fst p) "--cmdline" then Forall (fun b => b <> 39) (snd p) else sh_plain (snd p).

Lemma sh_words_option flag v l :
  readable_option (flag, v) -> flag <> "-o" ->
  sh_words false None (render_option (flag, v) ++ l)
  = app [bytes_of flag; v] <$> sh_words false None l.
Proof.
  intros [Hf Hv] Ho. unfold render_option. cbn [fst snd] in *.
  rewrite (proj2 (String.eqb_neq flag "-o")) by done.
  rewrite <- !app_assoc. cbn [app]. rewrite sh_words_plain by done.
  destruct (String.eqb flag "--cmdline"); cbn [app]; rewrite <- ?app_assoc; cbn [app];
    [rewrite sh_words_quoted by done | rewrite sh_words_plain by done];
    by destruct (sh_words false None l).
Qed.

Lemma sh_words_options opts img :
  Forall (fun p => readable_option p /\ fst p <> "-o") opts -> sh_plain img ->
  sh_words false None (flat_map render_option (opts ++ [("-o", img)]))
  = Some (flat_map (fun '(flag, v) => [bytes_of flag; v]) (opts ++ [("-o", img)])).
Proof.
  intros Ho Hi. induction Ho as [|[flag v] opts [Hr Hne] Ho IH]; cbn [app flat_map].
  - unfold render_option. cbn [String.eqb Ascii.eqb Bool.eqb]. rewrite app_nil_r.
    change ([32] ++ img ++ [10]) with (32 :: img ++ [10]).
    rewrite sh_words_plain, sh_words_last by (done || (split; [done | by apply (bool_decide_unpack _)])).
    done.
  - rewrite sh_words_option by done. by rewrite IH.
Qed.

Lemma hex_plain v : sh_plain (hex8 v).
Proof.
  split; [done|]. unfold hex8. apply Forall_app. split; [by apply (bool_decide_unpack _)|].
  eapply Forall_impl; [apply fmt_x_digits|]. cbn beta. intros b.
  unfold is_base_digit, digit_val, isdigit, plain_char.
  destruct ((48 <=? b) && (b <=? 57)); [done|].
  destruct ((97 <=? b) && (b <=? 122)); [by rewrite ?orb_true_r|].
  destruct ((65 <=? b) && (b <=? 90)); by rewrite ?orb_true_r.
Qed.

(** What the command needs to be read back: names a shell takes as they are,
    and no single quote in the command line. *)
Record readable (a : mk_args) (ua : unmk_args) (img : string) : Prop := {
  readable_board : board a = "" \/ sh_plain (bytes_of (board a));
  readable_cmdline : Forall (fun b => b <> 39) (bytes_of (cmdline a));
  readable_kernel : sh_plain (bytes_of (u_kernel_fn ua));
  readable_ramdisk : sh_plain (bytes_of (u_ramdisk_fn ua));
  readable_second : sh_plain (bytes_of (u_second_fn ua));
  readable_img : sh_plain (bytes_of img)
}.

(** A property of all options in a list, one by one. *)
Ltac each_option :=
  repeat match goal with
  | |- @Forall (string * list Z) _ (_ :: _) => apply Forall_cons_2
  | |- @Forall (string * list Z) _ [] => apply Forall_nil_2
  end.

Lemma image_options_words a it ua img :
  valid_pagesize (pagesize a) -> Forall (fun p => words 8 (snd p)) (image_options a it ua img).
Proof.
  intros Hp. unfold image_options.
  assert (words 8 (fmt_d (s32 (pagesize a)))).
  { destruct Hp as [->|[->|[->| ->]]]; by apply (bool_decide_unpack _). }
  rewrite !Forall_app. split_and!; try case_match; each_option;
    cbn [snd]; auto using bytes_of_words, hex8_words.
Qed.

Lemma image_options_read a it ua img :
  valid_pagesize (pagesize a) -> readable a ua img ->
  sh_words false None (flat_map render_option (image_options a it ua img))
  = Some (map bytes_of (argv_of (image_options a it ua img))).
Proof.
  intros Hp [Hb Hc Hk Hr Hs Hi].
  assert (forall (fl : string) v, sh_plain (bytes_of fl) -> String.eqb fl "--cmdline" = false -> sh_plain v
            -> fl <> "-o" -> readable_option (fl, v) /\ fl <> "-o") as Hopt.
  { intros fl v Hf E Hv Hn. split; [|done]. split; [done|]. cbn [fst snd]. by rewrite E. }
  assert (forall b : bool, forall l : list (string * list Z),
    (b = false -> Forall (fun p => readable_option p /\ fst p <> "-o") l) ->
    Forall (fun p => readable_option p /\ fst p <> "-o") (if b then [] else l)) as Hif
    by (intros [] ? H; [constructor | by apply H]).
  assert (sh_plain (fmt_d (s32 (pagesize a)))) as Hps.
  { destruct Hp as [->|[->|[->| ->]]]; (split; [done | by apply (bool_decide_unpack _)]). }
  assert (exists opts, image_options a it ua img = opts ++ [("-o", bytes_of img)]
    /\ Forall (fun p => readable_option p /\ fst p <> "-o") opts) as (opts & E & Hopts).
  { eexists. split; [unfold image_options; rewrite !app_assoc; reflexivity|].
    rewrite !Forall_app. split_and!; try apply Hif; intros; each_option;
      try (apply Hopt; [split; [done | by apply (bool_decide_unpack _)] | done | | done]);
      try done; try apply hex_plain.
    - split; [done | by apply (bool_decide_unpack _)].
    - destruct Hb as [Hb|Hb]; [|done]. by rewrite Hb in *.
    - split; [|done]. split; [split; [done | by apply (bool_decide_unpack _)] | done]. }
  rewrite E, sh_words_options by done. f_equal. unfold argv_of. rewrite <- E.
  assert (Forall (fun p => words 8 (snd p)) (image_options a it ua img)) as Hw by by apply image_options_words.
  clear E Hopts.   induction Hw as [|[fl v] l Hv Hw IH]; [done|]. cbn [flat_map map app]. rewrite IH.
  cbn [snd] in Hv. by rewrite bytes_of_string_of.
Qed.

(** C11.  The printed command rebuilds the header.  When the names are such
    that a shell reads them as they stand, and no single quote is in the
    command line, a shell that reads the line unmkbootimg printed runs
    mkbootimg with arguments that it parses to values which give, for the same
    items, the header and the image the command was printed for. *)
Theorem rebuild_command_roundtrip o argv a img kfn rfn it ua img' :
  os_ok o -> mk_ready o argv a img kfn rfn it -> no_nul (board a) -> no_nul (cmdline a) ->
  readable a ua img' ->
  exists line argv' a',
    print_command (items_hdr a it) (items_image a it) ua img'
    = Some ([10] ++ bytes_of "To rebuild this boot image, you can use the command:" ++ [10] ++ line)
    /\ sh_words false None line = Some (map bytes_of ("mkbootimg" :: argv'))
    /\ parse mk_defaults argv' = Parsed a'
    /\ items_hdr a' it = items_hdr a it /\ items_image a' it = items_image a it
    /\ bootimg a' = Some img'
    /\ (it_ksz it <> 0 -> kernel_fn a' = Some (u_kernel_fn ua))
    /\ (it_rsz it <> 0 -> ramdisk_fn a' = Some (u_ramdisk_fn ua))
    /\ (it_ssz it <> 0 -> second_fn a' = Some (u_second_fn ua)).
Proof.
  intros Ho Hready Hnb Hnc Hread.
  destruct (ready_hdr_ok _ _ _ _ _ _ _ Ho Hready) as [Hps Hh].
  destruct Hready as [_ _ _ _ Hb Hc _ _].
  assert (items_hdr (rebuilt_args a it ua img') it = items_hdr a it) as Eh.
  { unfold items_hdr, build_hdr, rebuilt_args.
    cbn [cmdline board pagesize base kernel_offset ramdisk_offset second_offset tags_offset].
    by rewrite !Z.add_0_l, !u32_idemp. }
  eexists _, (argv_of (image_options a it ua img')), (rebuilt_args a it ua img'). split_and!.
  - unfold print_command, items_image, image_bytes, section at 1. rewrite <- app_assoc.
    rewrite rebuild_options_image by done. reflexivity.
  - change (bytes_of "  mkbootimg ") with ([32; 32] ++ (bytes_of "mkbootimg" ++ [32])).
    rewrite <- !app_assoc. cbn [app sh_words Z.eqb Pos.eqb end_word].
    rewrite sh_words_plain by (split; [done | by apply (bool_decide_unpack _)]).
    by rewrite image_options_read.
  - by apply parse_image_options.
  - exact Eh.
  - unfold items_image. by rewrite Eh.
  - done.
  - intros E. cbn [rebuilt_args kernel_fn]. by rewrite (proj2 (Z.eqb_neq _ _) E).
  - intros E. cbn [rebuilt_args ramdisk_fn]. by rewrite (proj2 (Z.eqb_neq _ _) E).
  - intros E. cbn [rebuilt_args second_fn]. by rewrite (proj2 (Z.eqb_neq _ _) E).
Qed.

(** * Concrete runs *)

(** The second stage of [example_items] is one byte. *)
Definition second_items : items := {|
  it_kernel := [1; 2; 3]; it_ksz := 3; it_ramdisk := [4; 5]; it_rsz := 2;
  it_second := Some [9]; it_ssz := 1 |}.

Definition second_args : mk_args := set_second "boot2" example_args.

Definition second_os : os := {|
  os_fs := {[ "zImage" := [1; 2; 3]; "initrd" := [4; 5]; "boot2" := [9] ]};
  os_seek_end_ok _ := true; os_seek_set_ok _ := true; os_malloc_ok _ := true;
  os_readable _ := Z.to_nat 10000; os_can_create _ := true; os_quota _ := Z.to_nat 10000;
  os_keeps _ := block_keeps; os_strerror := "" |}.

(** The machine after a run of mkbootimg. *)
Definition os_after (o : os) (r : outcome) : os := {|
  os_fs := files r; os_seek_end_ok := os_seek_end_ok o; os_seek_set_ok := os_seek_set_ok o;
  os_malloc_ok := os_malloc_ok o; os_readable := os_readable o; os_can_create := os_can_create o;
  os_quota := os_quota o; os_keeps := os_keeps o; os_strerror := os_strerror o |}.

(** The second stage of a small image is not recovered: mkbootimg stores
    the byte 9, and unmkbootimg, run on that image, reports success and writes
    the first byte of the ramdisk. *)
Theorem second_stage_lost :
  os_fs second_os !! "boot2" = Some [9]
  /\ let r := main second_os (example_argv ++ ["--second"; "boot2"]) in
     code r = 0
     /\ match unmk_main (os_after second_os r) ["-i"; "boot.img"] with
        | Exit u => code u = 0 /\ files u !! "second_bootloader" = Some [4]
        | UB => False
        end.
Proof. vm_compute. repeat split. Qed.

(** Items whose sizes round the same together and apart. *)
Definition found_items : items := {|
  it_kernel := replicate (Z.to_nat 1500) 7; it_ksz := 1500;
  it_ramdisk := replicate (Z.to_nat 1000) 8; it_rsz := 1000;
  it_second := Some [9]; it_ssz := 1 |}.

Definition found_os : os := {|
  os_fs := {[ "zImage" := it_kernel found_items; "initrd" := it_ramdisk found_items; "boot2" := [9] ]};
  os_seek_end_ok _ := true; os_seek_set_ok _ := true; os_malloc_ok _ := true;
  os_readable _ := Z.to_nat 10000; os_can_create _ := true; os_quota _ := Z.to_nat 10000;
  os_keeps _ := block_keeps; os_strerror := "" |}.

Definition second_argv : list string := example_argv ++ ["--second"; "boot2"].

Definition unmk_example_args : unmk_args := {|
  u_kernel_fn := "k"; u_ramdisk_fn := "r"; u_second_fn := "second_bootloader"; u_bootimg := Some "boot.img" |}.

Definition unmk_example_argv : list string := ["-i"; "boot.img"; "--kernel"; "k"; "--ramdisk"; "r"].

Lemma three_files_ok (o : os) k r s :
  os_fs o = {[ "zImage" := k; "initrd" := r; "boot2" := s ]} ->
  words 8 k -> words 8 r -> words 8 s -> os_ok o.
Proof.
  intros E Hk Hr Hs fn c Hc. rewrite E in Hc.
  apply lookup_insert_Some in Hc as [[_ <-]|[_ Hc]]; [done|].
  apply lookup_insert_Some in Hc as [[_ <-]|[_ Hc]]; [done|].
  by apply lookup_singleton_Some in Hc as [_ <-].
Qed.

Lemma found_os_ok : os_ok found_os.
Proof. eapply three_files_ok; [reflexivity|..]; by apply (bool_decide_unpack _). Qed.

Lemma second_os_ok : os_ok second_os.
Proof. eapply three_files_ok; [reflexivity|..]; by apply (bool_decide_unpack _). Qed.

Lemma found_ready : mk_ready found_os second_argv second_args "boot.img" "zImage" "initrd" found_items.
Proof.
  split; try done; try (cbn; unfold BOOT_NAME_SIZE, BOOT_ARGS_SIZE, BOOT_EXTRA_ARGS_SIZE; lia).
Qed.

Lemma second_ready : mk_ready second_os second_argv second_args "boot.img" "zImage" "initrd" second_items.
Proof.
  split; try done; try (cbn; unfold BOOT_NAME_SIZE, BOOT_ARGS_SIZE, BOOT_EXTRA_ARGS_SIZE; lia).
Qed.

(** The hypotheses of [unmk_extracts] at a concrete image. *)
Ltac unmk_witness :=
  match goal with
  | |- no_nul _ => by apply (bool_decide_unpack _)
  | |- can_save _ _ _ => split; [reflexivity | apply Nat.leb_le; vm_compute; reflexivity]
  | |- load_file _ _ = _ => vm_compute; reflexivity
  | |- _ => reflexivity
  end.

(** An image whose second stage is recovered, and one where the first byte
    of the ramdisk is taken for it. *)
Lemma unmk_extracts_witness :
  (exists stdout, unmk_main (os_after found_os (main found_os second_argv)) unmk_example_argv = Exit {|
    code := 0; err := [];
    out := stdout ++ rebuild_text second_args found_items unmk_example_args "boot.img";
    files := <["second_bootloader" := [9]]> (<["r" := replicate (Z.to_nat 1000) 8]>
      (<["k" := replicate (Z.to_nat 1500) 7]> (files (main found_os second_argv)))) |})
  /\ (exists stdout, unmk_main (os_after second_os (main second_os second_argv)) unmk_example_argv = Exit {|
    code := 0; err := [];
    out := stdout ++ rebuild_text second_args second_items unmk_example_args "boot.img";
    files := <["second_bootloader" := [4]]> (<["r" := [4; 5]]>
      (<["k" := [1; 2; 3]]> (files (main second_os second_argv)))) |}).
Proof.
  split.
  - destruct (unmk_extracts found_os second_argv second_args "boot.img" "zImage" "initrd" found_items
      (os_after found_os (main found_os second_argv)) unmk_example_argv unmk_example_args "boot.img"
      8192 found_os_ok found_ready) as [so H]; [solve [unmk_witness]..|].
    exists so. rewrite H. reflexivity.
  - destruct (unmk_extracts second_os second_argv second_args "boot.img" "zImage" "initrd" second_items
      (os_after second_os (main second_os second_argv)) unmk_example_argv unmk_example_args "boot.img"
      8192 second_os_ok second_ready) as [so H]; [solve [unmk_witness]..|].
    exists so. rewrite H. reflexivity.
Defined.

(** Values of the command line that a shell would expand outside quotes. *)
Definition quoted_args : mk_args := set_cmdline "console=ttyS0 init=$x;y" example_args.

Lemma quoted_ready : mk_ready (example_os 0)
  (example_argv ++ ["--cmdline"; "console=ttyS0 init=$x;y"]) quoted_args "boot.img" "zImage" "initrd" example_items.
Proof. split; try done; cbn; unfold BOOT_NAME_SIZE, BOOT_ARGS_SIZE, BOOT_EXTRA_ARGS_SIZE; lia. Qed.

Lemma rebuild_command_roundtrip_witness :
  exists line argv' a',
    print_command (items_hdr quoted_args example_items) (items_image quoted_args example_items)
      unmk_defaults "boot.img"
    = Some ([10] ++ bytes_of "To rebuild this boot image, you can use the command:" ++ [10] ++ line)
    /\ sh_words false None line = Some (map bytes_of ("mkbootimg" :: argv'))
    /\ parse mk_defaults argv' = Parsed a'
    /\ items_image a' example_items = items_image quoted_args example_items.
Proof.
  destruct (rebuild_command_roundtrip (example_os 0) (example_argv ++ ["--cmdline"; "console=ttyS0 init=$x;y"])
    quoted_args "boot.img" "zImage" "initrd" example_items unmk_defaults "boot.img")
    as (line & argv' & a' & H1 & H2 & H3 & _ & H4 & _).
  - apply example_os_ok.
  - apply quoted_ready.
  - by apply (bool_decide_unpack _).
  - by apply (bool_decide_unpack _).
  - split; try (by left); try (split; [done|]); by apply (bool_decide_unpack _).
  - by exists line, argv', a'.
Defined.

(** The quoting of the command does not hold a single quote: for this command
    line the printed line is not a command a shell would accept. *)
Theorem rebuild_command_quote_lost :
  let a := set_cmdline "mtdparts='x" example_args in
  exists line,
    print_command (items_hdr a example_items) (items_image a example_items) unmk_defaults "boot.img"
    = Some ([10] ++ bytes_of "To rebuild this boot image, you can use the command:" ++ [10] ++ line)
    /\ sh_words false None line = None.
Proof. eexists. split; vm_compute; reflexivity. Qed.
