(* ===== verification/Modular.v ===== *)
(** * Congruence of integers

    [x =[m] y]: [m] divides the difference.  Rewriting with it goes through
    sums, differences, products and powers. *)
From S2P Require Import Prelude.
From Stdlib Require Import Znumtheory Zpow_facts Setoid Morphisms.

Definition eqm (m x y : Z) : Prop := (m | x - y).
Notation "x =[ m ] y" := (eqm m x y) (at level 70, no associativity, format "x  =[ m ]  y") : Z_scope.

#[export] Instance eqm_equiv m : Equivalence (eqm m).
Proof.
  split; unfold eqm.
  - intros x. exists 0. lia.
  - intros x y [k E]. exists (- k). lia.
  - intros x y z [k E] [l E']. exists (k + l). lia.
Qed.

#[export] Instance eqm_add m : Proper (eqm m ==> eqm m ==> eqm m) Z.add.
Proof. intros x x' [k E] y y' [l E']. exists (k + l). lia. Qed.

#[export] Instance eqm_sub m : Proper (eqm m ==> eqm m ==> eqm m) Z.sub.
Proof. intros x x' [k E] y y' [l E']. exists (k - l). lia. Qed.

#[export] Instance eqm_opp m : Proper (eqm m ==> eqm m) Z.opp.
Proof. intros x x' [k E]. exists (- k). lia. Qed.

#[export] Instance eqm_mul m : Proper (eqm m ==> eqm m ==> eqm m) Z.mul.
Proof.
  intros x x' [k E] y y' [l E']. exists (k * y + x' * l). unfold eqm.
  replace (x * y - x' * y') with ((x - x') * y + x' * (y - y')) by ring. rewrite E, E'. ring.
Qed.

#[export] Instance eqm_pow m : Proper (eqm m ==> eq ==> eqm m) Z.pow.
Proof.
  intros x x' Hx e e' <-. destruct (Z.neg_nonneg_cases e) as [He|He].
  { rewrite !Z.pow_neg_r by done. reflexivity. }
  revert e He. apply natlike_ind; [reflexivity|]. intros e He IH.
  rewrite !Z.pow_succ_r by done. by rewrite IH, Hx.
Qed.

Lemma eqm_mod m x : x mod m =[m] x.
Proof.
  destruct (Z.eq_dec m 0) as [->|Hm]; [rewrite Zmod_0_r; reflexivity|].
  exists (- (x / m)). pose proof (Z.div_mod x m Hm). lia.
Qed.

Lemma eqm_eq m x y : m <> 0 -> x =[m] y <-> x mod m = y mod m.
Proof.
  intros Hm. split.
  - intros [k E]. replace x with (y + k * m) by lia. by rewrite Z.mod_add.
  - intros E. transitivity (x mod m); [symmetry; apply eqm_mod|]. rewrite E. apply eqm_mod.
Qed.

(** A residue in range is the remainder. *)
Lemma eqm_small m x y : x =[m] y -> 0 <= x < m -> x = y mod m.
Proof. intros H Hx. apply eqm_eq in H; [|lia]. rewrite <- H. symmetry. by apply Z.mod_small. Qed.

(** Equal integers are congruent. *)
Lemma eqm_eq_refl m x y : x = y -> x =[m] y.
Proof. intros ->. reflexivity. Qed.

Lemma eqm_multiple m k : k * m =[m] 0.
Proof. exists k. lia. Qed.

Lemma eqm_self m : m =[m] 0.
Proof. exists 1. lia. Qed.

Lemma eqm_add_multiple m x y k : x = y + k * m -> x =[m] y.
Proof. intros ->. exists k. lia. Qed.

Lemma eqm_cancel m k x y : rel_prime m k -> k * x =[m] k * y -> x =[m] y.
Proof.
  intros Hc H. apply Gauss with (b := k); [|done]. by rewrite Z.mul_sub_distr_l.
Qed.

Lemma odd_rel_prime_2 m : Z.odd m = true -> rel_prime m 2.
Proof.
  intros Ho. apply Z.odd_spec in Ho as [k ->].
  constructor; [apply Z.divide_1_l..|]. intros d Hm H2.
  replace 1 with ((2 * k + 1) - k * 2) by lia. apply Z.divide_sub_r; [done|]. by apply Z.divide_mul_r.
Qed.

Lemma odd_rel_prime_pow2 m e : Z.odd m = true -> 0 <= e -> rel_prime m (2 ^ e).
Proof. intros Ho He. apply rel_prime_Zpower_r; [done|]. by apply odd_rel_prime_2. Qed.

(** A power of two cancels modulo an odd number. *)
Lemma eqm_cancel_pow2 m e x y : Z.odd m = true -> 0 <= e -> 2 ^ e * x =[m] 2 ^ e * y -> x =[m] y.
Proof. intros Ho He. apply eqm_cancel. by apply odd_rel_prime_pow2. Qed.
