(* ===== verification/Digits.v ===== *)
(** * Loops over 32-bit digit arrays

    The multi-precision code of p256.c and rsa.c is made of loops of one form:
    digit by digit, a 64-bit accumulator takes the carry and the operands, its
    low half is stored and its high half is the next carry.  This file has
    that loop, the value it computes, and windows into an array. *)
From S2P Require Import Prelude.

(** Conversion to [int64_t]. *)
Definition s64 (x : Z) : Z := let y := u64 x in if y <? 2 ^ 63 then y else y - 2 ^ 64.

Abbreviation eval := (le_eval 32).

(** [for each i: acc = step(carry, x[i], y[i]); r[i] = (uint32_t) acc; carry = acc >> 32] *)
Fixpoint digit_loop (step : Z -> Z -> Z -> Z) (carry : Z) (xs ys : list Z) : list Z * Z :=
  match xs, ys with
  | x :: xs, y :: ys =>
      let acc := step carry x y in
      let '(r, k) := digit_loop step (acc >> 32) xs ys in (u32 acc :: r, k)
  | _, _ => ([], carry)
  end.

(** The [n] digits at [tmp + i], and the array with these digits replaced. *)
Definition window (i n : nat) (l : list Z) : list Z := take n (drop i l).
Definition set_window (i : nat) (w l : list Z) : list Z := take i l ++ w ++ drop (i + length w) l.

(** * Lemmas *)

Lemma s64_small x : - 2 ^ 63 <= x < 2 ^ 63 -> s64 x = x.
Proof.
  intros Hx. unfold s64. rewrite u64_mod.
  destruct (Z.lt_ge_cases x 0).
  - rewrite <- (Z.mod_unique x (2 ^ 64) (-1) (x + 2 ^ 64)) by lia.
    rewrite (proj2 (Z.ltb_ge _ _)); lia.
  - rewrite Z.mod_small by lia. rewrite (proj2 (Z.ltb_lt _ _)); lia.
Qed.

(** A step that adds a linear combination of its digits to the carry, and
    keeps the carry in bounds, makes a loop that computes the combination. *)
Lemma digit_loop_spec step p q lo hi :
  (forall k x y, lo <= k <= hi -> is_word 32 x -> is_word 32 y ->
     step k x y = k + p * x + q * y /\ lo <= (k + p * x + q * y) / 2 ^ 32 <= hi) ->
  forall xs ys k0 r k,
  words 32 xs -> words 32 ys -> length xs = length ys -> lo <= k0 <= hi ->
  digit_loop step k0 xs ys = (r, k) ->
  words 32 r /\ length r = length xs /\ lo <= k <= hi
  /\ eval r + 2 ^ (32 * Z.of_nat (length xs)) * k = k0 + p * eval xs + q * eval ys.
Proof.
  intros Hstep. induction xs as [|x xs IH]; intros [|y ys] k0 r k Hx Hy Hl Hk0 E; try discriminate Hl.
  - injection E as <- <-. cbn [le_eval length]. rewrite Z.mul_0_r. repeat split; [done|lia|lia|lia].
  - inv_words. cbn [digit_loop] in E. cbv zeta in E. destruct (Hstep k0 x y) as [Es Hk1]; try done. rewrite Es in E.
    rewrite Z.shiftr_div_pow2 in E by lia.
    destruct (digit_loop step _ xs ys) as [r' k'] eqn:E'. injection E as <- <-.
    apply IH in E' as (Hr & Hlen & Hk & Ev); [|done|done|by injection Hl|done].
    split_and!; [constructor; auto with words | cbn; lia | lia | lia |].
    cbn [le_eval length]. rewrite Nat2Z.inj_succ, Z.mul_succ_r, Z.add_comm, Z.pow_add_r, u32_mod by lia.
    pose proof (Z.div_mod (k0 + p * x + q * y) (2 ^ 32) ltac:(lia)). nia.
Qed.

Lemma window_length i n l : (i + n <= length l)%nat -> length (window i n l) = n.
Proof. intros. unfold window. rewrite length_take, length_drop. lia. Qed.

Lemma window_words w i n l : words w l -> words w (window i n l).
Proof. intros. by apply Forall_take, Forall_drop. Qed.

Lemma set_window_length i w l : (i + length w <= length l)%nat -> length (set_window i w l) = length l.
Proof. intros. unfold set_window. rewrite !length_app, length_take, length_drop. lia. Qed.

Lemma set_window_words b i w l : words b w -> words b l -> words b (set_window i w l).
Proof. intros. apply words_app; [by apply Forall_take|]. apply words_app; [done|]. by apply Forall_drop. Qed.
#[export] Hint Resolve window_words set_window_words : words.

(** The value of the digits below [i + n], by the window on top of them. *)
Lemma eval_window i n l :
  (i + n <= length l)%nat ->
  eval (take (i + n) l) = eval (take i l) + 2 ^ (32 * Z.of_nat i) * eval (window i n l).
Proof.
  intros H. unfold window. rewrite <- (take_take_drop l i n), le_eval_app by lia.
  rewrite length_take, Nat.min_l by lia. done.
Qed.

Lemma eval_set_window i w l :
  (i + length w <= length l)%nat ->
  eval (take (i + length w) (set_window i w l)) = eval (take i l) + 2 ^ (32 * Z.of_nat i) * eval w.
Proof.
  intros H. unfold set_window. rewrite app_assoc, take_app_length', le_eval_app by
    (rewrite ?length_app, ?length_take; lia).
  rewrite length_take, Nat.min_l by lia. done.
Qed.

Lemma eval_bound l : words 32 l -> 0 <= eval l < 2 ^ (32 * Z.of_nat (length l)).
Proof. apply le_eval_bound. lia. Qed.

Lemma eval_inj l1 l2 : words 32 l1 -> words 32 l2 -> length l1 = length l2 -> eval l1 = eval l2 -> l1 = l2.
Proof. apply le_eval_inj. lia. Qed.

Lemma eval_snoc l x : eval (l ++ [x]) = eval l + 2 ^ (32 * Z.of_nat (length l)) * x.
Proof. rewrite le_eval_app by lia. cbn [le_eval]. f_equal. f_equal. ring. Qed.

Lemma eval_zeros n : eval (replicate n 0) = 0.
Proof. induction n as [|n IH]; cbn [replicate le_eval]; [done|]. by rewrite IH. Qed.
