(* ===== verification/P256.v ===== *)
(** * 256-bit integers: libmincrypt/p256.c, include/mincrypt/p256.h

    A [p256_int] is the list of its eight 32-bit digits, least significant
    first.  A failing [assert] ends a computation with [None]. *)
From S2P Require Import Prelude Modular Digits.
From Stdlib Require Import Znumtheory.

Definition P256_BITSPERDIGIT : Z := 32.
Definition P256_NDIGITS : nat := 8.
Definition P256_NBYTES : nat := 32.

Definition SECP256r1_n : list Z :=
  [0xfc632551; 0xf3b9cac2; 0xa7179e84; 0xbce6faad; u32 (-1); u32 (-1); 0; u32 (-1)].
Definition SECP256r1_p : list Z := [u32 (-1); u32 (-1); u32 (-1); 0; 0; 0; 1; u32 (-1)].
Definition SECP256r1_b : list Z :=
  [0x27d2604b; 0x3bce3c3e; 0xcc53b0f6; 0x651d06b0; 0x769886bc; 0xb3ebbd55; 0xaa3a93e7; 0x5ac635d8].

Definition P256_ZERO : list Z := [0; 0; 0; 0; 0; 0; 0; 0].
Definition P256_ONE : list Z := [1; 0; 0; 0; 0; 0; 0; 0].

(** [memset(a, 0, sizeof *a)]. *)
Definition p256_init (a : list Z) : list Z := replicate (length a) 0.
Definition p256_clear (a : list Z) : list Z := p256_init a.

Definition p256_get_bit (scalar : list Z) (bit : Z) : Z :=
  (scalar !!! Z.to_nat (bit / P256_BITSPERDIGIT) >> (bit .& (P256_BITSPERDIGIT - 1))) .& 1.

Definition p256_is_zero (a : list Z) : bool :=
  for_ 0 P256_NDIGITS (fun i result => result .| a !!! i) 0 =? 0.

(** [top, c[] += a[] * b]; the new digits and the new top. *)
Definition mulAdd (a : list Z) (b top : Z) (c : list Z) : list Z * Z :=
  let '(c, carry) := digit_loop (fun carry x y => u64 (u64 (carry + y) + u64 (x * b))) 0 a c in
  (c, u32 (top + u32 carry)).

(** [top, c[] -= top_a, a[]], with the assertion that nothing is borrowed. *)
Definition subTop (top_a : Z) (a : list Z) (top_c : Z) (c : list Z) : option (list Z * Z) :=
  let '(c, borrow) := digit_loop (fun borrow x y => s64 (s64 (borrow + y) - x)) 0 a c in
  let borrow := s64 (borrow + top_c) in
  let borrow := s64 (borrow - top_a) in
  if borrow >> P256_BITSPERDIGIT =? 0 then Some (c, u32 borrow) else None.

(** [top, c[] -= MOD[] & mask]. *)
Definition subM (MOD : list Z) (top : Z) (c : list Z) (mask : Z) : list Z * Z :=
  let '(c, borrow) := digit_loop (fun borrow x y => s64 (s64 (borrow + y) - (x .& mask))) 0 MOD c in
  (c, u32 (top + u32 borrow)).

(** [top, c[] += MOD[] & mask]. *)
Definition addM (MOD : list Z) (top : Z) (c : list Z) (mask : Z) : list Z * Z :=
  let '(c, carry) := digit_loop (fun carry x y => u64 (u64 (carry + y) + (x .& mask))) 0 MOD c in
  (c, u32 (top + u32 carry)).

(** One row of the schoolbook product into [tmp]. *)
Definition mul_row (a : list Z) (i : nat) (b : Z) (st : list Z * Z) : list Z * Z :=
  let '(tmp, top) := st in
  let tmp := if (i =? 0)%nat then tmp else <[(i + P256_NDIGITS - 1)%nat := top]> tmp in
  let '(w, top) := mulAdd a b 0 (window i P256_NDIGITS tmp) in
  (set_window i w tmp, top).

(** One iteration of the reduction loop. *)
Definition reduce_row (MOD : list Z) (i : nat) (st : list Z * Z) : option (list Z * Z) :=
  let '(tmp, top) := st in
  let '(reducer, top_reducer) := mulAdd MOD top 0 (replicate P256_NDIGITS 0) in
  '(w, top) ← subTop top_reducer reducer top (window i P256_NDIGITS tmp);
  if negb (top <=? 1) then None else
  let '(w, top) := subM MOD top w (u32 (Z.lnot (u32 (top - 1)))) in
  if negb (top =? 0) then None else
  let tmp := set_window i w tmp in
  Some (tmp, tmp !!! (i + P256_NDIGITS - 1)%nat).

(** [for (; i >= 0; --i)], from [i = n - 1]. *)
Fixpoint reduce_loop (MOD : list Z) (n : nat) (st : list Z * Z) : option (list Z * Z) :=
  match n with
  | O => Some st
  | S i => st ← reduce_row MOD i st; reduce_loop MOD i st
  end.

Definition p256_modmul (MOD a : list Z) (top_b : Z) (b : list Z) : option (list Z) :=
  let tmp := replicate (P256_NDIGITS * 2 + 1) 0 in
  let st := for_ 0 P256_NDIGITS (fun i st => mul_row a i (b !!! i) st) (tmp, 0) in
  let st := mul_row a P256_NDIGITS top_b st in
  '(tmp, _) ← reduce_loop MOD (P256_NDIGITS + 1) st;
  let '(w, top) := subM MOD 0 (window 0 P256_NDIGITS tmp) (u32 (-1)) in
  let '(w, _) := addM MOD 0 w top in
  Some w.

Definition p256_is_odd (a : list Z) : bool := negb ((a !!! 0%nat .& 1) =? 0).
Definition p256_is_even (a : list Z) : bool := (a !!! 0%nat .& 1) =? 0.

(** Shifts.  A shift of a digit by 32 or by a negative count is undefined:
    [None]; [n %= 32] keeps the sign of [n]. *)
Definition p256_shl (a : list Z) (n : Z) : option (Z * list Z) :=
  let n := Z.rem n P256_BITSPERDIGIT in
  if n <=? 0 then None else
  let top := a !!! (P256_NDIGITS - 1)%nat in
  let digit i := u32 (a !!! i << n) .| (a !!! (i - 1)%nat >> (P256_BITSPERDIGIT - n)) in
  Some (u32 (u64 (top << n) >> P256_BITSPERDIGIT),
        u32 (a !!! 0%nat << n) :: map digit (seq 1 (P256_NDIGITS - 1))).

Definition p256_shr (a : list Z) (n : Z) : option (list Z) :=
  let n := Z.rem n P256_BITSPERDIGIT in
  if n <=? 0 then None else
  let digit i := (a !!! i >> n) .| u32 (a !!! (i + 1)%nat << (P256_BITSPERDIGIT - n)) in
  Some (map digit (seq 0 (P256_NDIGITS - 1)) ++ [a !!! (P256_NDIGITS - 1)%nat >> n]).

Definition p256_shr1 (a : list Z) (highbit : Z) : list Z :=
  let digit i := (a !!! i >> 1) .| u32 (a !!! (i + 1)%nat << (P256_BITSPERDIGIT - 1)) in
  map digit (seq 0 (P256_NDIGITS - 1))
  ++ [(a !!! (P256_NDIGITS - 1)%nat >> 1) .| u32 (highbit << (P256_BITSPERDIGIT - 1))].

(** One iteration of [p256_cmp], on [(borrow, notzero)]. *)
Definition cmp_digit (a b : list Z) (i : nat) (st : Z * Z) : Z * Z :=
  let '(borrow, notzero) := st in
  let borrow := s64 (borrow + s64 (a !!! i - b !!! i)) in
  let notzero := notzero .| (if u32 borrow =? 0 then 0 else 1) in
  (borrow >> P256_BITSPERDIGIT, notzero).

Definition p256_cmp (a b : list Z) : Z :=
  let '(borrow, notzero) := for_ 0 P256_NDIGITS (cmp_digit a b) (0, 0) in
  s32 (u32 (s32 borrow) .| notzero).

(** [c = a - b] and the borrow, 0 or -1. *)
Definition p256_sub (a b : list Z) : list Z * Z :=
  let '(c, borrow) := digit_loop (fun borrow x y => s64 (borrow + s64 (x - y))) 0 a b in
  (c, s32 borrow).

(** [c = a + b] and the carry. *)
Definition p256_add (a b : list Z) : list Z * Z :=
  let '(c, carry) := digit_loop (fun carry x y => u64 (carry + u64 (x + y))) 0 a b in
  (c, s32 carry).

(** [b = a + d] and the carry. *)
Definition p256_add_d (a : list Z) (d : Z) : list Z * Z :=
  let '(c, carry) := digit_loop (fun carry x _ => u64 (carry + x)) d a a in
  (c, s32 carry).

(** Conditional subtraction of MOD. *)
Definition p256_mod (MOD inp : list Z) : list Z :=
  let '(w, top) := subM MOD 0 inp (u32 (-1)) in
  fst (addM MOD 0 w top).

(** The variables of [p256_modinv_vartime]. *)
Record inv_state := { inv_R : list Z; inv_S : list Z; inv_U : list Z; inv_V : list Z }.

(** [x = x/2] or [(x + MOD)/2]. *)
Definition halve_mod (MOD x : list Z) : list Z :=
  if p256_is_even x then p256_shr1 x 0
  else let '(x, carry) := p256_add x MOD in p256_shr1 x carry.

(** [if (p256_sub(&x, y, &x)) p256_add(&x, MOD, &x);] *)
Definition sub_mod (MOD x y : list Z) : list Z :=
  let '(x, borrow) := p256_sub x y in
  if negb (borrow =? 0) then fst (p256_add x MOD) else x.

(** One iteration of the [for (;;)]: the new state, and whether it breaks. *)
Definition inv_step (MOD : list Z) (st : inv_state) : inv_state * bool :=
  let R := inv_R st in let S := inv_S st in let U := inv_U st in let V := inv_V st in
  if p256_is_even U then
    ({| inv_R := halve_mod MOD R; inv_S := S; inv_U := p256_shr1 U 0; inv_V := V |}, false)
  else if p256_is_even V then
    ({| inv_R := R; inv_S := halve_mod MOD S; inv_U := U; inv_V := p256_shr1 V 0 |}, false)
  else if snd (p256_sub V U) =? 0 then
    let V := fst (p256_sub V U) in
    let S := sub_mod MOD S R in
    ({| inv_R := R; inv_S := S; inv_U := U; inv_V := V |}, p256_is_zero V)
  else
    let U := fst (p256_sub U V) in
    ({| inv_R := sub_mod MOD R S; inv_S := S; inv_U := U; inv_V := V |}, false).

(** The loop, cut after [fuel] iterations: [None] when it has not ended. *)
Fixpoint inv_loop (MOD : list Z) (fuel : nat) (st : inv_state) : option inv_state :=
  match fuel with
  | O => None
  | Datatypes.S k =>
      let '(st, stop) := inv_step MOD st in
      if stop then Some st else inv_loop MOD k st
  end.

Definition p256_modinv_vartime (fuel : nat) (MOD a : list Z) : option (list Z) :=
  st ← inv_loop MOD fuel {| inv_R := P256_ZERO; inv_S := P256_ONE; inv_U := MOD; inv_V := a |};
  Some (p256_mod MOD (inv_R st)).

Definition p256_is_valid_point (x y : list Z) : option bool :=
  if (p256_cmp SECP256r1_p x <=? 0) || (p256_cmp SECP256r1_p y <=? 0)
     || p256_is_zero x || p256_is_zero y then Some false else
  y2 ← p256_modmul SECP256r1_p y 0 y;
  x3 ← p256_modmul SECP256r1_p x 0 x;
  x3 ← p256_modmul SECP256r1_p x 0 x3;
  let x3 := sub_mod SECP256r1_p x3 x in
  let x3 := sub_mod SECP256r1_p x3 x in
  let x3 := sub_mod SECP256r1_p x3 x in
  let '(x3, carry) := p256_add x3 SECP256r1_b in
  let x3 := if negb (carry =? 0) then fst (p256_sub x3 SECP256r1_p) else x3 in
  Some (p256_cmp y2 x3 =? 0).

(** [P256_DIGIT(dst, i)] from four bytes at [src + 4 * (7 - i)]. *)
Definition p256_from_bin (src : list Z) : list Z :=
  map (fun i =>
    let p := (4 * (P256_NDIGITS - 1 - i))%nat in
    be_word (src !!! p) (src !!! (p + 1)%nat) (src !!! (p + 2)%nat) (src !!! (p + 3)%nat))
    (seq 0 P256_NDIGITS).

(** * The values digit arrays stand for *)

Definition p256_ok (a : list Z) : Prop := words 32 a /\ length a = P256_NDIGITS.

(** The moduli [p256_modmul] is for: the most significant digit is all ones. *)
Definition modulus_ok (MOD : list Z) : Prop := p256_ok MOD /\ MOD !!! 7%nat = u32 (-1).

Definition n_value : Z := eval SECP256r1_n.
Definition p_value : Z := eval SECP256r1_p.
Definition b_value : Z := eval SECP256r1_b.

(** * Lemmas *)

Lemma p256_ok_bound a : p256_ok a -> 0 <= eval a < 2 ^ 256.
Proof. intros [Hw Hl]. pose proof (eval_bound a Hw) as H. by rewrite Hl in H. Qed.

Lemma p256_ok_inj a b : p256_ok a -> p256_ok b -> eval a = eval b -> a = b.
Proof. intros [? Ha] [? Hb] E. apply eval_inj; congruence. Qed.

Lemma zeros_ok : p256_ok (replicate P256_NDIGITS 0).
Proof. split; [by apply Forall_replicate | done]. Qed.

Lemma window_ok i l : words 32 l -> (i + 8 <= length l)%nat -> p256_ok (window i P256_NDIGITS l).
Proof. intros. split; [auto with words | by apply window_length]. Qed.

(** Carry bounds of the loops. *)
Lemma carry_u32 x : 0 <= x < 2 ^ 64 -> 0 <= x / 2 ^ 32 <= 2 ^ 32 - 1.
Proof. intros. split; [apply Z.div_pos; lia | apply Z.lt_succ_r, Z.div_lt_upper_bound; lia]. Qed.
Lemma carry_bit x : 0 <= x < 2 ^ 33 -> 0 <= x / 2 ^ 32 <= 1.
Proof. intros. split; [apply Z.div_pos; lia | apply Z.lt_succ_r, Z.div_lt_upper_bound; lia]. Qed.
Lemma borrow_bit x : - 2 ^ 32 <= x < 2 ^ 32 -> -1 <= x / 2 ^ 32 <= 0.
Proof. intros. split; [apply Z.div_le_lower_bound; lia | apply Z.lt_succ_r, Z.div_lt_upper_bound; lia]. Qed.

Lemma mulAdd_spec a b c r t :
  p256_ok a -> p256_ok c -> is_word 32 b -> mulAdd a b 0 c = (r, t) ->
  p256_ok r /\ is_word 32 t /\ eval r + 2 ^ 256 * t = eval c + b * eval a.
Proof.
  intros [Ha Hla] [Hc Hlc] Hb. unfold mulAdd.
  destruct (digit_loop _ 0 a c) as [r' k] eqn:E. intros [= <- <-].
  eapply (digit_loop_spec _ b 1 0 (2 ^ 32 - 1)) in E as (Hr & Hl & Hk & Ev); [|..]; try done; try congruence; [|].
  - rewrite Hla in *. rewrite Z.add_0_l, u32_idemp, u32_small by (unfold is_word; lia).
    split_and!; [done|unfold is_word; lia|]. change (32 * Z.of_nat P256_NDIGITS) with 256 in Ev. lia.
  - unfold is_word in *. intros k' x y Hk Hx Hy.
    assert (0 <= x * b <= (2 ^ 32 - 1) * (2 ^ 32 - 1)) by nia.
    rewrite !u64_small by (unfold is_word; rewrite ?u64_small; unfold is_word; lia).
    split; [ring|]. apply carry_u32. lia.
Qed.

(** The borrow a wrapping [top + (uint32_t) borrow] keeps. *)
Lemma top_borrow t k : -1 <= k <= 0 -> 0 <= t < 2 ^ 32 -> u32 (t + u32 k) = (t + k) mod 2 ^ 32.
Proof. intros. by rewrite u32_add_r, u32_mod. Qed.

Lemma subTop_spec ta a tc c :
  p256_ok a -> p256_ok c -> is_word 32 ta -> is_word 32 tc ->
  0 <= (eval c + 2 ^ 256 * tc) - (eval a + 2 ^ 256 * ta) ->
  exists r t, subTop ta a tc c = Some (r, t) /\ p256_ok r /\ is_word 32 t
    /\ eval r + 2 ^ 256 * t = (eval c + 2 ^ 256 * tc) - (eval a + 2 ^ 256 * ta).
Proof.
  intros [Ha Hla] [Hc Hlc] Hta Htc Hge. unfold subTop.
  destruct (digit_loop _ 0 a c) as [r k] eqn:E.
  eapply (digit_loop_spec _ (-1) 1 (-1) 0) in E as (Hr & Hl & Hk & Ev); [|..]; try done; try congruence; [|].
  - rewrite Hla in *. change (32 * Z.of_nat P256_NDIGITS) with 256 in Ev.
    assert (p256_ok r) as Hok by done. pose proof (p256_ok_bound r Hok).
    unfold is_word in *. rewrite !s64_small by (rewrite ?s64_small; lia).
    assert (0 <= k + tc - ta < 2 ^ 32) by lia.
    rewrite Z.shiftr_div_pow2, Z.div_small by (done || lia).
    exists r, (u32 (k + tc - ta)). rewrite u32_small by done. split_and!; try done; lia.
  - unfold is_word. intros k' x y Hk Hx Hy. rewrite !s64_small by (rewrite ?s64_small; lia).
    split; [ring|]. apply borrow_bit. lia.
Qed.

(** The mask of [subM] and [addM], all ones or all zeros. *)
Definition mask_of (b : bool) : Z := if b then 2 ^ 32 - 1 else 0.

Lemma mask_digit b x : is_word 32 x -> (x .& mask_of b) = Z.b2z b * x.
Proof.
  intros Hx. destruct b; cbn [mask_of Z.b2z]; [|by rewrite Z.land_0_r].
  change (u32 x = 1 * x). rewrite u32_small by done. lia.
Qed.

Lemma subM_spec MOD t c b :
  p256_ok MOD -> p256_ok c -> is_word 32 t ->
  exists r k, subM MOD t c (mask_of b) = (r, (t + k) mod 2 ^ 32) /\ p256_ok r /\ -1 <= k <= 0
    /\ eval r + 2 ^ 256 * k = eval c - Z.b2z b * eval MOD.
Proof.
  intros [Ha Hla] [Hc Hlc] Ht. unfold subM.
  destruct (digit_loop _ 0 MOD c) as [r k] eqn:E.
  eapply (digit_loop_spec _ (- Z.b2z b) 1 (-1) 0) in E as (Hr & Hl & Hk & Ev); [|..]; try done; try congruence; [|].
  - rewrite Hla in *. change (32 * Z.of_nat P256_NDIGITS) with 256 in Ev.
    exists r, k. rewrite top_borrow by done. split_and!; try done; lia.
  - intros k' x y Hk Hx Hy. rewrite mask_digit by done. unfold is_word in *.
    assert (0 <= Z.b2z b * x < 2 ^ 32) by (destruct b; cbn [Z.b2z]; lia).
    rewrite !s64_small by (rewrite ?s64_small; lia). split; [ring|]. apply borrow_bit. lia.
Qed.

Lemma addM_spec MOD t c b :
  p256_ok MOD -> p256_ok c -> is_word 32 t ->
  exists r k, addM MOD t c (mask_of b) = (r, (t + k) mod 2 ^ 32) /\ p256_ok r /\ 0 <= k <= 1
    /\ eval r + 2 ^ 256 * k = eval c + Z.b2z b * eval MOD.
Proof.
  intros [Ha Hla] [Hc Hlc] Ht. unfold addM.
  destruct (digit_loop _ 0 MOD c) as [r k] eqn:E.
  eapply (digit_loop_spec _ (Z.b2z b) 1 0 1) in E as (Hr & Hl & Hk & Ev); [|..]; try done; try congruence; [|].
  - rewrite Hla in *. change (32 * Z.of_nat P256_NDIGITS) with 256 in Ev.
    exists r, k. rewrite u32_add_r, u32_mod. split_and!; try done; lia.
  - intros k' x y Hk Hx Hy. rewrite mask_digit by done. unfold is_word in *.
    assert (0 <= Z.b2z b * x < 2 ^ 32) by (destruct b; cbn [Z.b2z]; lia).
    rewrite !u64_small by (unfold is_word; rewrite ?u64_small; unfold is_word; lia).
    split; [ring|]. apply carry_bit. lia.
Qed.

Lemma modulus_value MOD :
  modulus_ok MOD -> (2 ^ 32 - 1) * 2 ^ 224 <= eval MOD < 2 ^ 256.
Proof.
  intros [Hok Ht]. pose proof (p256_ok_bound _ Hok). split; [|lia]. destruct Hok as [Hw Hl].
  destruct MOD as [|d0 [|d1 [|d2 [|d3 [|d4 [|d5 [|d6 [|d7 [|]]]]]]]]]; try discriminate Hl.
  cbn in Ht. subst d7. inv_words. change (u32 (-1)) with (2 ^ 32 - 1).
  unfold is_word in *. cbn [le_eval]. lia.
Qed.

(** [p256_mod], and the last line of [p256_modmul]: the value modulo MOD, for
    a value of less than twice MOD. *)
Lemma final_reduce MOD c :
  p256_ok MOD -> p256_ok c -> eval c < 2 * eval MOD ->
  exists w top r t, subM MOD 0 c (u32 (-1)) = (w, top) /\ addM MOD 0 w top = (r, t)
    /\ p256_ok r /\ eval r = eval c mod eval MOD.
Proof.
  intros Hm Hc Hlt. change (u32 (-1)) with (mask_of true).
  pose proof (p256_ok_bound _ Hm) as Bm. pose proof (p256_ok_bound _ Hc) as Bc.
  destruct (subM_spec MOD 0 c true Hm Hc) as (w & k & E & Hw & Hk & Ev); [by unfold is_word|].
  pose proof (p256_ok_bound _ Hw) as Bw.
  assert ((0 + k) mod 2 ^ 32 = mask_of (eval c <? eval MOD)) as Et.
  { cbn [Z.b2z] in Ev. destruct (Z.ltb_spec (eval c) (eval MOD));
      assert (k = -1 \/ k = 0) as [->| ->] by lia; try lia; done. }
  rewrite Et in E.
  destruct (addM_spec MOD 0 w (eval c <? eval MOD) Hm Hw) as (r & k' & E' & Hr & Hk' & Ev'); [by unfold is_word|].
  exists w, (mask_of (eval c <? eval MOD)), r, ((0 + k') mod 2 ^ 32). split_and!; try done.
  pose proof (p256_ok_bound _ Hr) as Br. cbn [Z.b2z] in Ev.
  destruct (Z.ltb_spec (eval c) (eval MOD)); cbn [Z.b2z] in Ev'.
  - rewrite Z.mod_small by lia. nia.
  - assert (eval c = eval MOD * 1 + eval r) by nia. apply Z.mod_unique with 1; nia.
Qed.

(** ** The product *)

Lemma take_insert_snoc {A} (l : list A) i x :
  (i < length l)%nat -> take (S i) (<[i:=x]> l) = take i l ++ [x].
Proof.
  intros H. rewrite (take_S_r _ _ x) by by apply list_lookup_insert_eq.
  by rewrite take_insert_ge by lia.
Qed.

(** The scratch array of [p256_modmul]: 17 digits and the top digit. *)
Definition tmp_ok (st : list Z * Z) : Prop :=
  words 32 (fst st) /\ length (fst st) = 17%nat /\ is_word 32 (snd st).

(** The value of the digits below [n] with the top digit above them. *)
Definition tmp_value (n : nat) (st : list Z * Z) : Z :=
  eval (take n (fst st)) + 2 ^ (32 * Z.of_nat n) * snd st.

Lemma mul_row_spec a i d st v :
  p256_ok a -> is_word 32 d -> tmp_ok st -> (i <= 8)%nat ->
  (if (i =? 0)%nat then eval (take 8 (fst st)) else tmp_value (i + 7) st) = v ->
  tmp_ok (mul_row a i d st) /\ tmp_value (i + 8) (mul_row a i d st) = v + 2 ^ (32 * Z.of_nat i) * (d * eval a).
Proof.
  intros Ha Hd (Hw & Hl & Ht) Hi Hv. destruct st as [tmp top]. unfold tmp_value in *. cbn [fst snd] in *.
  unfold mul_row. set (tmp' := if (i =? 0)%nat then tmp else _).
  assert (words 32 tmp' /\ length tmp' = 17%nat /\ eval (take (i + 8) tmp') = v) as (Hw' & Hl' & Hv').
  { subst tmp'. destruct (Nat.eqb_spec i 0) as [->|Hi0]; [done|]. split_and!; [auto with words| by rewrite length_insert|].
    unfold P256_NDIGITS. replace (i + 8 - 1)%nat with (i + 7)%nat by lia.
    replace (i + 8)%nat with (S (i + 7)) by lia. rewrite take_insert_snoc, eval_snoc by lia.
    by rewrite length_take, Nat.min_l by lia. }
  clearbody tmp'. clear Hv. destruct (mulAdd a d 0 _) as [w t] eqn:E.
  apply mulAdd_spec in E as ([Hww Hlw] & Htw & Ev); [|done| |done].
  2: { apply window_ok; [done|lia]. }
  unfold P256_NDIGITS in *. unfold tmp_ok. cbn [fst snd]. split.
  - split_and!; [auto with words | rewrite set_window_length; unfold P256_NDIGITS in *; lia | done].
  - replace (i + 8)%nat with (i + length w)%nat at 1 by (by rewrite Hlw).
    rewrite eval_set_window by lia. rewrite (eval_window i 8) in Hv' by lia.
    rewrite Nat2Z.inj_add, Z.mul_add_distr_l, Z.pow_add_r by lia. change (32 * Z.of_nat 8) with 256. nia.
Qed.

Lemma mul_rows_spec a b :
  p256_ok a -> p256_ok b ->
  let st := for_ 0 P256_NDIGITS (fun i st => mul_row a i (b !!! i) st) (replicate 17 0, 0) in
  tmp_ok st /\ tmp_value 15 st = eval a * eval b.
Proof.
  intros Ha [Hb Hlb].
  set (P i st := tmp_ok st /\ (if (i =? 0)%nat then eval (take 8 (fst st)) else tmp_value (i + 7) st)
                              = eval a * eval (take i b)).
  assert (P 8%nat (for_ 0 P256_NDIGITS (fun i st => mul_row a i (b !!! i) st) (replicate 17 0, 0))) as [H1 H2].
  { apply (for_inv P _ 8 0).
    - split; [split_and!; [by apply Forall_replicate|done|done]|]. change (0 = eval a * 0). lia.
    - intros i st Hi [Hst Hv].
      destruct (mul_row_spec a i (b !!! i) st _ Ha ltac:(by apply words_lookup_total) Hst ltac:(lia) Hv) as [Hst' Hv'].
      split; [done|]. replace (S i =? 0)%nat with false by done. replace (S i + 7)%nat with (i + 8)%nat by lia.
      rewrite Hv', (take_S_r b i (b !!! i)) by (apply list_lookup_lookup_total_lt; unfold P256_NDIGITS in *; lia).
      rewrite eval_snoc, length_take, Nat.min_l by (unfold P256_NDIGITS in *; lia). ring. }
  split; [done|]. change (8 =? 0)%nat with false in H2. change (8 + 7)%nat with 15%nat in H2. rewrite H2. by rewrite take_ge by (by rewrite Hlb).
Qed.

(** ** The reduction *)

Lemma reduce_row_spec MOD i st :
  modulus_ok MOD -> tmp_ok st -> (i <= 8)%nat ->
  exists st', reduce_row MOD i st = Some st' /\ tmp_ok st'
    /\ tmp_value (i + 7) st' = eval (take (i + 8) (fst st'))
    /\ (eval (take (i + 8) (fst st'))) mod eval MOD = tmp_value (i + 8) st mod eval MOD.
Proof.
  intros HM (Hw & Hl & Ht) Hi. pose proof (modulus_value MOD HM) as BM. destruct HM as [HM _].
  destruct st as [tmp top]. unfold tmp_value, reduce_row in *. cbn [fst snd] in *.
  destruct (mulAdd MOD top 0 _) as [rd tr] eqn:E.
  apply mulAdd_spec in E as (Hrd & Htr & Erd); [|done|apply zeros_ok|done]. rewrite eval_zeros in Erd.
  assert (p256_ok (window i P256_NDIGITS tmp)) as Hwin by (apply window_ok; [done|lia]).
  pose proof (p256_ok_bound _ Hwin) as Bwin.
  destruct (subTop_spec tr rd top (window i P256_NDIGITS tmp)) as (w & t & -> & Hwo & Htw & Ew); try done.
  { rewrite Erd. unfold is_word in Ht. nia. }
  cbn [mbind option_bind]. pose proof (p256_ok_bound _ Hwo) as Bw.
  assert (0 <= t <= 1) as Ht1 by (unfold is_word in Ht; nia).
  rewrite (proj2 (Z.leb_le _ _)) by lia. cbn [negb].
  assert (u32 (Z.lnot (u32 (t - 1))) = mask_of (t =? 1)) as ->.
  { assert (t = 0 \/ t = 1) as [->| ->] by lia; done. }
  destruct (subM_spec MOD t w (t =? 1) HM Hwo Htw) as (w2 & k & -> & [Hw2 Hl2] & Hk & Ew2).
  pose proof (p256_ok_bound w2 ltac:(done)) as Bw2.
  assert (t + k = 0) as Htk.
  { assert (t = 0 \/ t = 1) as [->| ->] by lia; cbn [Z.eqb Z.b2z Pos.eqb] in Ew2; unfold is_word in Ht; nia. }
  rewrite Htk. change (0 mod 2 ^ 32 =? 0) with true. cbn [negb]. eexists. split; [reflexivity|].
  unfold P256_NDIGITS in *. set (tmp' := set_window i w2 tmp).
  assert (words 32 tmp') as Hw' by (subst tmp'; auto with words).
  assert (length tmp' = 17%nat) as Hl' by (subst tmp'; rewrite set_window_length; unfold P256_NDIGITS in *; lia).
  unfold tmp_ok. cbn [fst snd]. split_and!; [done..|by apply words_lookup_total| |].
  - replace (i + 8 - 1)%nat with (i + 7)%nat by lia.
    replace (i + 8)%nat with (S (i + 7)) by lia.
    rewrite (take_S_r tmp' (i + 7) (tmp' !!! (i + 7)%nat)) by (apply list_lookup_lookup_total_lt; lia).
    by rewrite eval_snoc, length_take, Nat.min_l by lia.
  - subst tmp'. replace (i + 8)%nat with (i + length w2)%nat at 1 by (by rewrite Hl2).
    rewrite eval_set_window by lia. rewrite (eval_window i 8) by lia.
    rewrite Nat2Z.inj_add, Z.mul_add_distr_l, Z.pow_add_r by lia. change (32 * Z.of_nat 8) with 256.
    set (B := 2 ^ (32 * Z.of_nat i)).
    assert (eval (window i 8 tmp) + 2 ^ 256 * top = eval w2 + (top + Z.b2z (t =? 1)) * eval MOD) as Ev by lia.
    replace (eval (take i tmp) + B * eval (window i 8 tmp) + B * 2 ^ 256 * top)
      with (eval (take i tmp) + B * eval w2 + B * (top + Z.b2z (t =? 1)) * eval MOD) by nia.
    by rewrite Z.mod_add by lia.
Qed.

Lemma reduce_loop_spec MOD n st :
  modulus_ok MOD -> tmp_ok st -> (n <= 9)%nat ->
  exists st', reduce_loop MOD n st = Some st' /\ tmp_ok st'
    /\ (match n with O => True | S _ =>
          eval (take 8 (fst st')) mod eval MOD = tmp_value (n + 7) st mod eval MOD end).
Proof.
  intros HM. revert st. induction n as [|i IH]; intros st Hst Hn; [by exists st|].
  cbn [reduce_loop].
  destruct (reduce_row_spec MOD i st HM Hst ltac:(lia)) as (st1 & -> & Hst1 & Hv & Hm).
  cbn [mbind option_bind]. destruct (IH st1 Hst1 ltac:(lia)) as (st2 & E & Hst2 & Hv2).
  exists st2. split_and!; [done..|]. replace (S i + 7)%nat with (i + 8)%nat by lia. rewrite <- Hm.
  destruct i as [|i].
  - cbn [reduce_loop] in E. by injection E as <-.
  - rewrite Hv2. replace (S i + 7)%nat with (i + 8)%nat in * by lia.
    replace (S i + 8)%nat with (i + 9)%nat in * by lia. by rewrite Hv.
Qed.

(** [p256_modmul] returns, that is no assertion fails, and the result is the
    product modulo MOD. *)
Lemma modmul_spec MOD a top_b b :
  modulus_ok MOD -> p256_ok a -> p256_ok b -> is_word 32 top_b ->
  exists c, p256_modmul MOD a top_b b = Some c /\ p256_ok c
    /\ eval c = (eval a * (eval b + 2 ^ 256 * top_b)) mod eval MOD.
Proof.
  intros HM Ha Hb Htb. unfold p256_modmul. pose proof (modulus_value MOD HM) as BM.
  destruct (mul_rows_spec a b Ha Hb) as [Hst Hv].
  change (P256_NDIGITS * 2 + 1)%nat with 17%nat.
  set (st := for_ 0 P256_NDIGITS _ _) in *. clearbody st.
  destruct (mul_row_spec a 8 top_b st _ Ha Htb Hst ltac:(lia) Hv) as [Hst1 Hv1].
  change P256_NDIGITS with 8%nat in *.
  destruct (reduce_loop_spec MOD (8 + 1) _ HM Hst1 ltac:(lia)) as ([tmp t] & -> & (Hw & Hl & _) & Hv2).
  cbn [mbind option_bind Nat.add fst snd] in *.
  destruct HM as [HM _].
  assert (p256_ok (window 0 8 tmp)) as Hok by (apply window_ok; [done|lia]).
  pose proof (p256_ok_bound _ Hok) as Bw.
  destruct (final_reduce MOD (window 0 8 tmp) HM Hok ltac:(lia)) as (w & top & r & t' & -> & -> & Hr & Ev).
  exists r. split_and!; [done..|]. rewrite Ev. unfold window. rewrite drop_0, Hv2.
  change (8 + 8)%nat with 16%nat in Hv1. rewrite Hv1. f_equal. change (32 * Z.of_nat 8) with 256. ring.
Qed.

(** Modular multiplication: for a modulus whose most significant digit
    is all ones, [p256_modmul] never fails an assertion and returns the
    product of [a] and the nine-digit [(top_b | b)], reduced. *)
Theorem p256_modmul_correct MOD a top_b b :
  modulus_ok MOD -> p256_ok a -> p256_ok b -> is_word 32 top_b ->
  exists c, p256_modmul MOD a top_b b = Some c /\ p256_ok c /\ 0 <= eval c < eval MOD
    /\ eval c = (eval a * (eval b + 2 ^ 256 * top_b)) mod eval MOD.
Proof.
  intros HM Ha Hb Ht. destruct (modmul_spec MOD a top_b b HM Ha Hb Ht) as (c & E & Hc & Ev).
  exists c. split_and!; [done..| | |done]; rewrite Ev; pose proof (modulus_value MOD HM); apply Z.mod_pos_bound; lia.
Qed.

(** ** Comparison, addition, subtraction *)

Lemma s32_bit k : -1 <= k <= 1 -> s32 k = k.
Proof. intros. assert (k = -1 \/ k = 0 \/ k = 1) as [->|[->| ->]] by lia; done. Qed.

Lemma sub_spec a b :
  p256_ok a -> p256_ok b ->
  exists c, p256_sub a b = (c, if eval a <? eval b then -1 else 0) /\ p256_ok c
    /\ eval c = (eval a - eval b) mod 2 ^ 256.
Proof.
  intros Ha Hb. pose proof (p256_ok_bound _ Ha). pose proof (p256_ok_bound _ Hb).
  destruct Ha as [Ha Hla], Hb as [Hb Hlb]. unfold p256_sub.
  destruct (digit_loop _ 0 a b) as [c k] eqn:E.
  eapply (digit_loop_spec _ 1 (-1) (-1) 0) in E as (Hc & Hl & Hk & Ev); [|..]; try done; try congruence; [|].
  - rewrite Hla in *. change (32 * Z.of_nat P256_NDIGITS) with 256 in Ev.
    exists c. assert (p256_ok c) as Hok by done. pose proof (p256_ok_bound c Hok).
    rewrite s32_bit by lia.
    split_and!; [|done..|].
    + f_equal. destruct (Z.ltb_spec (eval a) (eval b)); lia.
    + apply Z.mod_unique with k; lia.
  - unfold is_word. intros k' x y Hk Hx Hy. rewrite !s64_small by (rewrite ?s64_small; lia).
    split; [ring|]. apply borrow_bit. lia.
Qed.

Lemma add_spec a b :
  p256_ok a -> p256_ok b ->
  exists c, p256_add a b = (c, if 2 ^ 256 <=? eval a + eval b then 1 else 0) /\ p256_ok c
    /\ eval c = (eval a + eval b) mod 2 ^ 256.
Proof.
  intros Ha Hb. pose proof (p256_ok_bound _ Ha). pose proof (p256_ok_bound _ Hb).
  destruct Ha as [Ha Hla], Hb as [Hb Hlb]. unfold p256_add.
  destruct (digit_loop _ 0 a b) as [c k] eqn:E.
  eapply (digit_loop_spec _ 1 1 0 1) in E as (Hc & Hl & Hk & Ev); [|..]; try done; try congruence; [|].
  - rewrite Hla in *. change (32 * Z.of_nat P256_NDIGITS) with 256 in Ev.
    exists c. assert (p256_ok c) as Hok by done. pose proof (p256_ok_bound c Hok).
    rewrite s32_bit by lia.
    split_and!; [|done..|].
    + f_equal. destruct (Z.leb_spec (2 ^ 256) (eval a + eval b)); lia.
    + apply Z.mod_unique with k; lia.
  - unfold is_word. intros k' x y Hk Hx Hy.
    rewrite !u64_small by (unfold is_word; rewrite ?u64_small; unfold is_word; lia).
    split; [ring|]. apply carry_bit. lia.
Qed.

Lemma add_d_spec a d :
  p256_ok a -> is_word 32 d ->
  exists c, p256_add_d a d = (c, if 2 ^ 256 <=? eval a + d then 1 else 0) /\ p256_ok c
    /\ eval c = (eval a + d) mod 2 ^ 256.
Proof.
  intros Ha Hd. pose proof (p256_ok_bound _ Ha). destruct Ha as [Ha Hla]. unfold p256_add_d.
  destruct (digit_loop _ d a a) as [c k] eqn:E. unfold is_word in Hd.
  eapply (digit_loop_spec _ 1 0 0 (2 ^ 32 - 1)) in E as (Hc & Hl & Hk & Ev); [|..]; try done; [| |lia].
  - rewrite Hla in *. change (32 * Z.of_nat P256_NDIGITS) with 256 in Ev.
    exists c. assert (p256_ok c) as Hok by done. pose proof (p256_ok_bound c Hok).
    assert (0 <= k <= 1) by lia. rewrite s32_bit by lia.
    split_and!; [|done..|].
    + f_equal. destruct (Z.leb_spec (2 ^ 256) (eval a + d)); lia.
    + apply Z.mod_unique with k; lia.
  - unfold is_word. intros k' x y Hk Hx Hy. rewrite u64_small by (unfold is_word; lia).
    split; [ring|]. apply carry_u32. lia.
Qed.

Lemma eval_take_S a i :
  (i < length a)%nat -> eval (take (S i) a) = eval (take i a) + 2 ^ (32 * Z.of_nat i) * a !!! i.
Proof.
  intros H. rewrite (take_S_r a i (a !!! i)) by by apply list_lookup_lookup_total_lt.
  by rewrite eval_snoc, length_take, Nat.min_l by lia.
Qed.

Lemma eval_take_bound a i : words 32 a -> (i <= length a)%nat -> 0 <= eval (take i a) < 2 ^ (32 * Z.of_nat i).
Proof.
  intros Ha Hi. pose proof (eval_bound (take i a)) as H. rewrite length_take, Nat.min_l in H by done.
  apply H. by apply Forall_take.
Qed.

Lemma cmp_spec a b :
  p256_ok a -> p256_ok b -> p256_cmp a b = Z.sgn (eval a - eval b).
Proof.
  intros Ha Hb. pose proof (p256_ok_bound _ Ha) as Ba. pose proof (p256_ok_bound _ Hb) as Bb.
  destruct Ha as [Ha Hla], Hb as [Hb Hlb]. unfold p256_cmp, P256_NDIGITS in *.
  set (P i (st : Z * Z) := -1 <= fst st <= 0 /\ exists low, 0 <= low < 2 ^ (32 * Z.of_nat i)
    /\ low + 2 ^ (32 * Z.of_nat i) * fst st = eval (take i a) - eval (take i b)
    /\ snd st = if low =? 0 then 0 else 1).
  assert (P 8%nat (for_ 0 8 (cmp_digit a b) (0, 0))) as HP.
  { apply (for_inv P _ 8 0); [split; [cbn; lia|]; by exists 0|].
    intros i [k nz] Hi (Hk & low & Hlow & Ev & Enz). unfold P, cmp_digit in *. cbn [fst snd] in *.
    pose proof (words_lookup_total 32 a i ltac:(done) Ha) as Hx.
    pose proof (words_lookup_total 32 b i ltac:(done) Hb) as Hy. unfold is_word in Hx, Hy.
    rewrite !eval_take_S by lia. set (x := a !!! i) in *. set (y := b !!! i) in *.
    rewrite !s64_small by (rewrite ?s64_small; lia). unfold P256_BITSPERDIGIT. rewrite Z.shiftr_div_pow2 by lia.
    split; [apply borrow_bit; lia|].
    rewrite Nat2Z.inj_succ, Z.mul_succ_r, Z.pow_add_r by lia. set (B := 2 ^ (32 * Z.of_nat i)) in *.
    pose proof (Z.div_mod (k + (x - y)) (2 ^ 32) ltac:(lia)) as Ed.
    pose proof (Z.mod_pos_bound (k + (x - y)) (2 ^ 32) ltac:(lia)) as Bm.
    exists (low + B * ((k + (x - y)) mod 2 ^ 32)). split_and!; [nia | nia | nia |].
    rewrite u32_mod, Enz. set (d := (k + (x - y)) mod 2 ^ 32) in *.
    destruct (Z.eqb_spec low 0), (Z.eqb_spec d 0), (Z.eqb_spec (low + B * d) 0); try done; nia. }
  destruct (for_ 0 8 (cmp_digit a b) (0, 0)) as [k nz]. destruct HP as (Hk & low & Hlow & Ev & Enz).
  cbn [fst snd] in *. rewrite !take_ge in Ev by lia. change (32 * Z.of_nat 8) with 256 in *.
  rewrite Enz. assert (k = -1 \/ k = 0) as [->| ->] by lia.
  - rewrite Z.sgn_neg by lia. by destruct (low =? 0).
  - destruct (Z.eqb_spec low 0).
    + by replace (eval a - eval b) with 0 by lia.
    + by rewrite Z.sgn_pos by lia.
Qed.

Lemma is_zero_spec a : p256_ok a -> p256_is_zero a = (eval a =? 0).
Proof.
  intros [Ha Hl]. unfold p256_is_zero, P256_NDIGITS in *.
  set (P i r := 0 <= r /\ (r = 0 <-> eval (take i a) = 0)).
  assert (P 8%nat (for_ 0 8 (fun i result => result .| a !!! i) 0)) as [_ HP].
  { apply (for_inv P _ 8 0); [by split|]. intros i r Hi [Hr Hz]. unfold P.
    pose proof (words_lookup_total 32 a i ltac:(done) Ha) as Hx. unfold is_word in Hx.
    pose proof (eval_take_bound a i Ha ltac:(lia)) as Bt.
    rewrite Z.lor_nonneg, Z.lor_eq_0_iff, eval_take_S by lia.
    split; [lia|]. assert (0 < 2 ^ (32 * Z.of_nat i)) by (apply Z.pow_pos_nonneg; lia). nia. }
  rewrite take_ge in HP by lia.
  destruct (Z.eqb_spec (for_ 0 8 (fun i result => result .| a !!! i) 0) 0), (Z.eqb_spec (eval a) 0); tauto.
Qed.

Lemma low_bit a : p256_ok a -> (a !!! 0%nat .& 1) = eval a mod 2.
Proof.
  intros [Ha Hl]. destruct a as [|x a]; [done|]. cbn [lookup_total list_lookup_total le_eval].
  change (x .& 1) with (x .& Z.ones 1). rewrite Z.land_ones by lia. change (2 ^ 1) with 2.
  replace (x + 2 ^ 32 * eval a) with (x + (2 ^ 31 * eval a) * 2) by lia. by rewrite Z.mod_add.
Qed.

Lemma is_even_spec a : p256_ok a -> p256_is_even a = Z.even (eval a).
Proof. intros Ha. unfold p256_is_even. rewrite low_bit, Zmod_even by done. by destruct (Z.even _). Qed.

Lemma is_odd_spec a : p256_ok a -> p256_is_odd a = Z.odd (eval a).
Proof. intros Ha. unfold p256_is_odd. rewrite low_bit, Zmod_odd by done. by destruct (Z.odd _). Qed.

(** ** Bits and shifts *)

(** A digit of the value. *)
Lemma digit_of_value a i :
  words 32 a -> (i < length a)%nat -> a !!! i = (eval a / 2 ^ (32 * Z.of_nat i)) mod 2 ^ 32.
Proof.
  intros Ha Hi. rewrite <- (take_drop_middle a i (a !!! i)) at 2 by by apply list_lookup_lookup_total_lt.
  rewrite le_eval_app, length_take, Nat.min_l by lia. cbn [le_eval].
  pose proof (eval_take_bound a i Ha ltac:(lia)).
  rewrite (Z.mul_comm (2 ^ (32 * _))), Z.div_add, Z.div_small, Z.add_0_l by lia.
  pose proof (words_lookup_total 32 a i ltac:(done) Ha).
  rewrite (Z.mul_comm (2 ^ 32)), Z.mod_add by lia. by rewrite Z.mod_small.
Qed.

Lemma get_bit_spec a bit :
  p256_ok a -> 0 <= bit < 256 -> p256_get_bit a bit = Z.b2z (Z.testbit (eval a) bit).
Proof.
  intros [Ha Hl] Hb. unfold p256_get_bit, P256_BITSPERDIGIT.
  assert (0 <= bit / 32 < 8) by (split; [apply Z.div_pos; lia | apply Z.div_lt_upper_bound; lia]).
  assert ((bit .& (32 - 1)) = bit mod 32) as -> by exact (Z.land_ones bit 5 ltac:(lia)).
  rewrite digit_of_value, Z2Nat.id by (done || lia || (rewrite Hl; unfold P256_NDIGITS; lia)).
  pose proof (Z.div_mod bit 32 ltac:(lia)) as Ed. pose proof (Z.mod_pos_bound bit 32 ltac:(lia)).
  change 1 with (Z.ones 1). rewrite Z.land_ones by lia. change (2 ^ 1) with 2.
  rewrite <- Z.bit0_mod, Z.shiftr_spec, Z.add_0_l by lia.
  rewrite Z.mod_pow2_bits_low by lia. rewrite <- Z.shiftr_div_pow2, Z.shiftr_spec by lia.
  f_equal. f_equal. lia.
Qed.

(** The digits two neighbours give when the array is shifted by [n]. *)
Lemma shift_digit_right n x y :
  0 < n < 32 -> is_word 32 x -> is_word 32 y ->
  (x >> n) .| u32 (y << (32 - n)) = x / 2 ^ n + 2 ^ (32 - n) * (y mod 2 ^ n).
Proof.
  intros Hn Hx Hy. rewrite u32_mod, Z.shiftl_mul_pow2, Z.shiftr_div_pow2 by lia.
  replace (2 ^ 32) with (2 ^ n * 2 ^ (32 - n)) by (rewrite <- Z.pow_add_r by lia; f_equal; lia).
  assert (0 < 2 ^ n) by (apply Z.pow_pos_nonneg; lia).
  assert (0 < 2 ^ (32 - n)) by (apply Z.pow_pos_nonneg; lia).
  rewrite Z.mul_mod_distr_r, <- Z.shiftl_mul_pow2 by lia. apply lor_add; [lia|].
  unfold is_word in *. split; [apply Z.div_pos; lia|]. apply Z.div_lt_upper_bound; [done|].
  rewrite <- Z.pow_add_r by lia. replace (n + (32 - n)) with 32 by lia. lia.
Qed.

(** Write [d] as [Q * q + r]. *)
Ltac split_digit d Q := let q := fresh "q" in let r := fresh "r" in
  pose proof (Z.div_mod d Q ltac:(lia)); pose proof (Z.mod_pos_bound d Q ltac:(lia));
  set (q := d / Q) in *; set (r := d mod Q) in *; clearbody q r; subst d.

(** The value of eight such digits. *)
Lemma shift_right_value a n h :
  p256_ok a -> 0 < n < 32 -> 0 <= h ->
  let digit i := a !!! i / 2 ^ n + 2 ^ (32 - n) * (a !!! (i + 1)%nat mod 2 ^ n) in
  eval (map digit (seq 0 7) ++ [a !!! 7%nat / 2 ^ n + 2 ^ (32 - n) * h])
  = eval a / 2 ^ n + 2 ^ (256 - n) * h.
Proof.
  intros [Ha Hl] Hn Hh digit. subst digit.
  destruct a as [|d0 [|d1 [|d2 [|d3 [|d4 [|d5 [|d6 [|d7 [|]]]]]]]]]; try discriminate Hl.
  cbn [map seq app lookup_total list_lookup_total Nat.add le_eval].
  assert (0 < 2 ^ n) as HQ by (apply Z.pow_pos_nonneg; lia).
  assert (2 ^ 32 = 2 ^ n * 2 ^ (32 - n)) as HB by (rewrite <- Z.pow_add_r by lia; f_equal; lia).
  assert (2 ^ (256 - n) = 2 ^ (32 - n) * (2 ^ 32) ^ 7) as ->.
  { rewrite <- Z.pow_mul_r, <- Z.pow_add_r by lia. f_equal. lia. }
  set (Q := 2 ^ n) in *. set (P := 2 ^ (32 - n)) in *. rewrite HB. clearbody Q P. clear HB.
  split_digit d0 Q. split_digit d1 Q. split_digit d2 Q. split_digit d3 Q.
  split_digit d4 Q. split_digit d5 Q. split_digit d6 Q. split_digit d7 Q.
  match goal with |- ?l = ?x / Q + ?y =>
    rewrite <- (Z.div_unique x Q (l - y) r) by (first [left; lia | ring]) end. ring.
Qed.

Lemma shr_spec a n :
  p256_ok a -> 0 < n < 32 -> exists b, p256_shr a n = Some b /\ eval b = eval a / 2 ^ n.
Proof.
  intros Ha Hn. unfold p256_shr, P256_BITSPERDIGIT, P256_NDIGITS in *. rewrite Z.rem_small by lia.
  rewrite (proj2 (Z.leb_gt _ _)) by lia. eexists. split; [reflexivity|].
  pose proof (shift_right_value a n 0 Ha Hn ltac:(lia)) as E. rewrite !Z.mul_0_r, !Z.add_0_r in E.
  rewrite <- E. f_equal. destruct Ha as [Ha _]. cbn [Nat.sub]. f_equal; [|by rewrite Z.shiftr_div_pow2 by lia].
  apply map_ext_in. intros i _. apply shift_digit_right; [done|by apply words_lookup_total..].
Qed.

Lemma shr_ok a n b : p256_ok a -> p256_shr a n = Some b -> p256_ok b.
Proof.
  intros [Ha Hl]. assert (forall i, is_word 32 (a !!! i)) as Hi by (intros; by apply words_lookup_total).
  unfold p256_shr. cbv zeta. case_match eqn:E; [done|]. apply Z.leb_gt in E. intros [= <-].
  split; [|done]. repeat apply Forall_cons_2; try done;
    try apply is_word_lor; try apply u32_range; try done; by apply is_word_shiftr; [lia|].
Qed.

Lemma shr1_spec a h :
  p256_ok a -> 0 <= h <= 1 ->
  p256_ok (p256_shr1 a h) /\ eval (p256_shr1 a h) = eval a / 2 + 2 ^ 255 * h.
Proof.
  intros Ha Hh. pose proof (shift_right_value a 1 h Ha ltac:(lia) ltac:(lia)) as E.
  change (2 ^ (256 - 1)) with (2 ^ 255) in E. change (2 ^ 1) with 2 in *. destruct Ha as [Ha Hl].
  assert (forall i, is_word 32 (a !!! i)) as Hi by (intros; by apply words_lookup_total).
  split.
  - split; [|done]. apply words_app.
    + apply Forall_map, Forall_forall. intros i _. apply is_word_lor; [lia|by apply is_word_shiftr|apply u32_range].
    + constructor; [|done]. apply is_word_lor; [lia|by apply is_word_shiftr|apply u32_range].
  - rewrite <- E. unfold p256_shr1, P256_BITSPERDIGIT, P256_NDIGITS. cbn [Nat.sub]. f_equal. f_equal.
    + apply map_ext_in. intros i _. by apply (shift_digit_right 1).
    + f_equal. rewrite (shift_digit_right 1) by (done || unfold is_word; lia).
      change (2 ^ 1) with 2. rewrite (Z.mod_small h) by lia. done.
Qed.

Lemma shift_digit_left n x y :
  0 < n < 32 -> is_word 32 x -> is_word 32 y ->
  u32 (x << n) .| (y >> (32 - n)) = 2 ^ n * (x mod 2 ^ (32 - n)) + y / 2 ^ (32 - n).
Proof.
  intros Hn Hx Hy. rewrite Z.lor_comm. pose proof (shift_digit_right (32 - n) y x ltac:(lia) Hy Hx) as E.
  replace (32 - (32 - n)) with n in E by lia. rewrite E. lia.
Qed.

Lemma shl_spec a n :
  p256_ok a -> 0 < n < 32 ->
  exists top b, p256_shl a n = Some (top, b) /\ eval b + 2 ^ 256 * top = 2 ^ n * eval a.
Proof.
  intros [Ha Hl] Hn. unfold p256_shl, P256_BITSPERDIGIT, P256_NDIGITS in *. rewrite Z.rem_small by lia.
  rewrite (proj2 (Z.leb_gt _ _)) by lia. do 2 eexists. split; [reflexivity|].
  destruct a as [|d0 [|d1 [|d2 [|d3 [|d4 [|d5 [|d6 [|d7 [|]]]]]]]]]; try discriminate Hl.
  inv_words. cbn [map seq Nat.sub lookup_total list_lookup_total].
  rewrite !shift_digit_left by done.
  assert (u32 (d0 << n) = 2 ^ n * (d0 mod 2 ^ (32 - n))) as ->.
  { pose proof (shift_digit_left n d0 0 Hn) as E. rewrite Z.shiftr_0_l, Z.lor_0_r, Z.div_0_l, Z.add_0_r in E
      by (apply Z.pow_nonzero; lia). by apply E. }
  assert (0 < 2 ^ n <= 2 ^ 31) by (split; [apply Z.pow_pos_nonneg; lia | apply Z.pow_le_mono_r; lia]).
  assert (u32 (u64 (d7 << n) >> 32) = d7 / 2 ^ (32 - n)) as ->.
  { unfold is_word in *. rewrite Z.shiftl_mul_pow2, (u64_small (d7 * _)) by (unfold is_word; nia).
    rewrite Z.shiftr_div_pow2 by lia. replace (2 ^ 32) with (2 ^ (32 - n) * 2 ^ n)
      by (rewrite <- Z.pow_add_r by lia; f_equal; lia).
    rewrite Z.div_mul_cancel_r by lia. apply u32_small.
    split; [apply Z.div_pos; lia|]. apply Z.div_lt_upper_bound; [lia|]. nia. }
  cbn [le_eval]. assert (0 < 2 ^ (32 - n)) as HP by (apply Z.pow_pos_nonneg; lia).
  assert (2 ^ 32 = 2 ^ n * 2 ^ (32 - n)) as HB by (rewrite <- Z.pow_add_r by lia; f_equal; lia).
  change (2 ^ 256) with ((2 ^ 32) ^ 8). set (Q := 2 ^ n) in *. set (P := 2 ^ (32 - n)) in *.
  rewrite HB. clearbody Q P. clear HB.
  split_digit d0 P. split_digit d1 P. split_digit d2 P. split_digit d3 P.
  split_digit d4 P. split_digit d5 P. split_digit d6 P. split_digit d7 P. ring.
Qed.

(** ** Bytes *)

Lemma shl_ok a n top b : p256_ok a -> p256_shl a n = Some (top, b) -> is_word 32 top /\ p256_ok b.
Proof.
  intros [Ha Hl]. assert (forall i, is_word 32 (a !!! i)) as Hi by (intros; by apply words_lookup_total).
  unfold p256_shl. cbv zeta. pose proof (Z.rem_bound_pos_pos n P256_BITSPERDIGIT) as B. unfold P256_BITSPERDIGIT in *.
  case_match eqn:E; [done|]. apply Z.leb_gt in E. intros [= <- <-]. split; [apply u32_range|].
  assert (Z.rem n 32 < 32). { destruct (Z.le_gt_cases 0 n); [|pose proof (Z.rem_nonpos n 32)]; lia. }
  split; [|done]. repeat apply Forall_cons_2; try done;
    try apply is_word_lor; try apply u32_range; try done; by apply is_word_shiftr; [lia|].
Qed.

Lemma from_bin_spec src :
  words 8 src -> length src = P256_NBYTES ->
  p256_ok (p256_from_bin src) /\ eval (p256_from_bin src) = be_eval 8 src.
Proof.
  intros Hw Hl. split.
  - split; [|done]. apply Forall_map, Forall_forall. intros i _. apply u32_range.
  - do 32 (destruct src as [|? src]; [discriminate Hl|]). destruct src; [|discriminate Hl].
    inv_words. unfold p256_from_bin, be_eval.
    cbn [P256_NDIGITS map seq Nat.sub Nat.mul Nat.add lookup_total list_lookup_total rev app].
    rewrite !be_word_eval by (repeat apply Forall_cons_2; done). cbn [le_eval]. ring.
Qed.

(** ** Arithmetic modulo an odd modulus *)

Lemma mod_spec MOD c :
  p256_ok MOD -> p256_ok c -> eval c < 2 * eval MOD ->
  p256_ok (p256_mod MOD c) /\ eval (p256_mod MOD c) = eval c mod eval MOD.
Proof.
  intros Hm Hc Hlt. destruct (final_reduce MOD c Hm Hc Hlt) as (w & top & r & t & Es & Ea & Hr & Ev).
  unfold p256_mod. by rewrite Es, Ea.
Qed.

Lemma sub_mod_spec MOD x y :
  p256_ok MOD -> p256_ok x -> p256_ok y -> eval x < eval MOD -> eval y < eval MOD ->
  p256_ok (sub_mod MOD x y) /\ eval (sub_mod MOD x y) = (eval x - eval y) mod eval MOD.
Proof.
  intros Hm Hx Hy Lx Ly. pose proof (p256_ok_bound _ Hm). pose proof (p256_ok_bound _ Hx). pose proof (p256_ok_bound _ Hy).
  unfold sub_mod. destruct (sub_spec x y Hx Hy) as (c & -> & Hc & Ev).
  destruct (Z.ltb_spec (eval x) (eval y)); cbn [negb Z.eqb].
  - destruct (add_spec c MOD Hc Hm) as (d & -> & Hd & Ed). cbn [fst]. split; [done|]. rewrite Ed, Ev.
    rewrite Zplus_mod_idemp_l, Z.mod_small by lia. apply Z.mod_unique with (-1); lia.
  - split; [done|]. rewrite Ev, !Z.mod_small by lia. done.
Qed.

(** [halve_mod] divides by two modulo MOD. *)
Lemma halve_mod_spec MOD x :
  p256_ok MOD -> p256_ok x -> Z.odd (eval MOD) = true -> eval x < eval MOD ->
  p256_ok (halve_mod MOD x) /\ 0 <= eval (halve_mod MOD x) < eval MOD
  /\ (eval MOD | 2 * eval (halve_mod MOD x) - eval x).
Proof.
  intros Hm Hx Ho Lx. pose proof (p256_ok_bound _ Hm). pose proof (p256_ok_bound _ Hx).
  unfold halve_mod. rewrite is_even_spec by done. destruct (Z.even (eval x)) eqn:Ee.
  - destruct (shr1_spec x 0 Hx) as [Hs Es]; [lia|]. apply Z.even_spec in Ee as [k Ek].
    split; [done|]. rewrite Es, Ek, Z.mul_comm, Z.div_mul by lia. split; [lia|]. exists 0. lia.
  - destruct (add_spec x MOD Hx Hm) as (c & -> & Hc & Ec).
    destruct (shr1_spec c (if 2 ^ 256 <=? eval x + eval MOD then 1 else 0) Hc) as [Hs Es]; [case_match; lia|].
    rewrite <- Z.negb_odd in Ee. apply negb_false_iff, Z.odd_spec in Ee as [k Ek].
    apply Z.odd_spec in Ho as [m Em].
    assert (eval (p256_shr1 c (if 2 ^ 256 <=? eval x + eval MOD then 1 else 0)) = k + m + 1) as ->.
    { rewrite Es, Ec. destruct (Z.leb_spec (2 ^ 256) (eval x + eval MOD)).
      - rewrite <- (Z.mod_unique _ _ 1 (eval x + eval MOD - 2 ^ 256)) by lia.
        replace (eval x + eval MOD - 2 ^ 256) with ((k + m + 1 - 2 ^ 255) * 2) by lia.
        rewrite Z.div_mul by lia. lia.
      - rewrite Z.mod_small by lia. replace (eval x + eval MOD) with ((k + m + 1) * 2) by lia.
        rewrite Z.div_mul by lia. lia. }
    split; [done|]. split; [lia|]. exists 1. lia.
Qed.

(** ** The inverse *)

(** The invariant of the loop of [p256_modinv_vartime]. *)
Record inv_ok (MOD : list Z) (A : Z) (st : inv_state) : Prop := {
  inv_ok_digits : p256_ok (inv_R st) /\ p256_ok (inv_S st) /\ p256_ok (inv_U st) /\ p256_ok (inv_V st);
  inv_ok_range : eval (inv_R st) < eval MOD /\ eval (inv_S st) < eval MOD;
  inv_ok_pos : 0 < eval (inv_U st) /\ 0 < eval (inv_V st);
  inv_ok_odd : Z.even (eval (inv_U st)) = true -> Z.even (eval (inv_V st)) = false;
  inv_ok_R : (eval MOD | eval (inv_R st) * A - eval (inv_U st));
  inv_ok_S : (eval MOD | eval (inv_S st) * A - eval (inv_V st));
  inv_ok_gcd : Z.gcd (eval (inv_U st)) (eval (inv_V st)) = Z.gcd (eval MOD) A
}.

(** What decreases: twice the bit lengths, and one more when both are odd. *)
Definition inv_measure (st : inv_state) : Z :=
  2 * (Z.log2 (eval (inv_U st)) + Z.log2 (eval (inv_V st)))
  + (if Z.even (eval (inv_U st)) || Z.even (eval (inv_V st)) then 0 else 1).

Lemma odd_cancel m x : Z.odd m = true -> (m | 2 * x) -> (m | x).
Proof. intros Ho Hd. apply Gauss with (b := 2); [done|]. by apply odd_rel_prime_2. Qed.

Lemma halve_relation m x h u v A :
  Z.odd m = true -> (m | 2 * h - x) -> u = 2 * v -> (m | x * A - u) -> (m | h * A - v).
Proof.
  intros Ho Hh -> Hx. apply odd_cancel; [done|].
  replace (2 * (h * A - v)) with ((2 * h - x) * A + (x * A - 2 * v)) by ring.
  apply Z.divide_add_r; [by apply Z.divide_mul_l|done].
Qed.

Lemma gcd_halve u v : Z.even v = false -> Z.gcd (2 * u) v = Z.gcd u v.
Proof.
  intros Hv. rewrite <- Z.negb_odd in Hv. apply negb_false_iff in Hv.
  apply Z.gcd_unique; [apply Z.gcd_nonneg| | |].
  - apply Z.divide_mul_r, Z.gcd_divide_l.
  - apply Z.gcd_divide_r.
  - intros q H1 H2. apply Z.gcd_greatest; [|done]. apply odd_cancel; [|done].
    destruct H2 as [k E]. rewrite E, Z.odd_mul in Hv. by apply andb_prop in Hv as [_ ?].
Qed.

Lemma sub_relation m r s u v A x :
  (m | r * A - u) -> (m | s * A - v) -> x = (s - r) mod m -> (m | x * A - (v - u)).
Proof.
  intros Hr Hs ->. destruct (Z.eq_dec m 0) as [->|Hm].
  { rewrite Zmod_0_r. replace ((s - r) * A - (v - u)) with ((s * A - v) - (r * A - u)) by ring.
    by apply Z.divide_sub_r. }
  pose proof (Z.div_mod (s - r) m Hm) as E.
  replace (((s - r) mod m) * A - (v - u))
    with ((s * A - v) - (r * A - u) - m * ((s - r) / m) * A) by nia.
  apply Z.divide_sub_r; [by apply Z.divide_sub_r|]. rewrite <- Z.mul_assoc. by exists ((s - r) / m * A); ring.
Qed.

Lemma log2_half u : 0 < u -> Z.log2 (2 * u) = Z.log2 u + 1.
Proof. intros. rewrite Z.log2_double by done. lia. Qed.

(** A number that halves: what the loop needs of [p256_shr1(&U, 0, &U)]. *)
Lemma shr1_even x :
  p256_ok x -> Z.even (eval x) = true -> 0 < eval x ->
  p256_ok (p256_shr1 x 0) /\ eval x = 2 * eval (p256_shr1 x 0) /\ 0 < eval (p256_shr1 x 0).
Proof.
  intros Hx He Hp. destruct (shr1_spec x 0 Hx) as [Hs Es]; [lia|]. apply Z.even_spec in He as [k Ek].
  rewrite Es, Ek, Z.mul_comm, Z.div_mul by lia. split; [done|lia].
Qed.

(** A difference that is taken without a borrow. *)
Lemma sub_no_borrow x y :
  p256_ok x -> p256_ok y -> eval y <= eval x ->
  p256_ok (fst (p256_sub x y)) /\ eval (fst (p256_sub x y)) = eval x - eval y.
Proof.
  intros Hx Hy Hle. pose proof (p256_ok_bound _ Hx). pose proof (p256_ok_bound _ Hy).
  destruct (sub_spec x y Hx Hy) as (c & -> & Hc & Ec). split; [done|].
  cbn [fst]. rewrite Ec. apply Z.mod_small. lia.
Qed.

Lemma even_odd_sub x y : Z.even x = false -> Z.even y = false -> Z.even (x - y) = true.
Proof. intros Hx Hy. by rewrite Z.even_sub, Hx, Hy. Qed.

Section modinv.
Context (MOD : list Z) (A : Z).
Context (HM : p256_ok MOD) (Hodd : Z.odd (eval MOD) = true).

Lemma inv_step_halve_U st :
  inv_ok MOD A st -> Z.even (eval (inv_U st)) = true ->
  exists st', inv_step MOD st = (st', false) /\ inv_ok MOD A st' /\ inv_measure st' < inv_measure st.
Proof.
  intros [(HR & HS & HU & HV) [LR LS] [PU PV] Ho ER ES Eg] He. unfold inv_step.
  rewrite is_even_spec, He by done. eexists. split; [reflexivity|].
  destruct (shr1_even _ HU He PU) as (HU' & EU & PU').
  destruct (halve_mod_spec MOD _ HM HR Hodd LR) as (HR' & LR' & DR).
  specialize (Ho He). split.
  - split; cbn [inv_R inv_S inv_U inv_V]; try done; [lia| |].
    + by apply (halve_relation _ _ _ _ _ _ Hodd DR EU).
    + by rewrite <- Eg, EU, gcd_halve.
  - unfold inv_measure. cbn [inv_U inv_V]. pose proof (log2_half _ PU') as EL. rewrite <- EU in EL. rewrite He, Ho.
    destruct (Z.even (eval (p256_shr1 (inv_U st) 0))); cbn [orb]; lia.
Qed.

Lemma inv_step_halve_V st :
  inv_ok MOD A st -> Z.even (eval (inv_U st)) = false -> Z.even (eval (inv_V st)) = true ->
  exists st', inv_step MOD st = (st', false) /\ inv_ok MOD A st' /\ inv_measure st' < inv_measure st.
Proof.
  intros [(HR & HS & HU & HV) [LR LS] [PU PV] Ho ER ES Eg] He He'. unfold inv_step.
  rewrite (is_even_spec (inv_U st)), He, is_even_spec, He' by done. eexists. split; [reflexivity|].
  destruct (shr1_even _ HV He' PV) as (HV' & EV & PV').
  destruct (halve_mod_spec MOD _ HM HS Hodd LS) as (HS' & LS' & DS). split.
  - split; cbn [inv_R inv_S inv_U inv_V]; try done; [lia|congruence| |].
    + by apply (halve_relation _ _ _ _ _ _ Hodd DS EV).
    + by rewrite <- Eg, EV, Z.gcd_comm, (Z.gcd_comm _ (2 * _)), gcd_halve.
  - unfold inv_measure. cbn [inv_U inv_V]. pose proof (log2_half _ PV') as EL. rewrite <- EV in EL. rewrite He, He'.
    destruct (Z.even (eval (p256_shr1 (inv_V st) 0))); cbn [orb]; lia.
Qed.

(** Both odd: a subtraction, and the loop ends when it gives zero. *)
Lemma inv_step_sub st :
  inv_ok MOD A st -> Z.even (eval (inv_U st)) = false -> Z.even (eval (inv_V st)) = false ->
  exists st' stop, inv_step MOD st = (st', stop)
    /\ if stop then p256_ok (inv_R st') /\ eval (inv_R st') < eval MOD
                    /\ (eval MOD | eval (inv_R st') * A - Z.gcd (eval MOD) A)
       else inv_ok MOD A st' /\ inv_measure st' < inv_measure st.
Proof.
  intros [(HR & HS & HU & HV) [LR LS] [PU PV] Ho ER ES Eg] He He'. unfold inv_step.
  rewrite (is_even_spec (inv_U st)), He, is_even_spec, He' by done.
  assert (snd (p256_sub (inv_V st) (inv_U st)) = if eval (inv_V st) <? eval (inv_U st) then -1 else 0) as ->
    by (by destruct (sub_spec _ _ HV HU) as (c & -> & _)).
  destruct (Z.ltb_spec (eval (inv_V st)) (eval (inv_U st))) as [Hlt|Hge]; cbn [Z.eqb].
  - destruct (sub_no_borrow _ _ HU HV ltac:(lia)) as [HU' EU'].
    destruct (sub_mod_spec MOD _ _ HM HR HS LR LS) as [HR' ER']. eexists _, _. split; [reflexivity|].
    pose proof (even_odd_sub _ _ He He') as Hev. split.
    + split; cbn [inv_R inv_S inv_U inv_V]; rewrite ?EU'; try done; [|lia| |].
      * pose proof (p256_ok_bound _ HR). rewrite ER'. pose proof (Z.mod_pos_bound (eval (inv_R st) - eval (inv_S st)) (eval MOD)). lia.
      * by apply (sub_relation _ _ _ _ _ _ _ ES ER).
      * by rewrite <- Eg, Z.gcd_comm, Z.gcd_sub_diag_r, Z.gcd_comm.
    + unfold inv_measure. cbn [inv_U inv_V]. rewrite EU', Hev, He, He'. cbn [orb].
      pose proof (Z.log2_le_mono (eval (inv_U st) - eval (inv_V st)) (eval (inv_U st)) ltac:(lia)). lia.
  - destruct (sub_no_borrow _ _ HV HU Hge) as [HV' EV'].
    destruct (sub_mod_spec MOD _ _ HM HS HR LS LR) as [HS' ES']. eexists _, _. split; [reflexivity|].
    pose proof (even_odd_sub _ _ He' He) as Hev. pose proof (p256_ok_bound _ HV') as BV'.
    rewrite is_zero_spec by done. destruct (Z.eqb_spec (eval (fst (p256_sub (inv_V st) (inv_U st)))) 0) as [E0|E0].
    + cbn [inv_R]. assert (eval (inv_V st) = eval (inv_U st)) as E by lia.
      rewrite E, Z.gcd_diag, Z.abs_eq in Eg by lia. by rewrite <- Eg.
    + split.
      * split; cbn [inv_R inv_S inv_U inv_V]; rewrite ?EV'; try done; [|lia|by rewrite He| |].
        -- pose proof (p256_ok_bound _ HS). rewrite ES'. pose proof (Z.mod_pos_bound (eval (inv_S st) - eval (inv_R st)) (eval MOD)). lia.
        -- by apply (sub_relation _ _ _ _ _ _ _ ER ES).
        -- by rewrite <- Eg, Z.gcd_sub_diag_r.
      * unfold inv_measure. cbn [inv_U inv_V]. rewrite EV', Hev, He, He'. cbn [orb].
        pose proof (Z.log2_le_mono (eval (inv_V st) - eval (inv_U st)) (eval (inv_V st)) ltac:(lia)). lia.
Qed.

Lemma inv_loop_spec fuel st :
  inv_ok MOD A st -> inv_measure st < Z.of_nat fuel ->
  exists st', inv_loop MOD fuel st = Some st' /\ p256_ok (inv_R st') /\ eval (inv_R st') < eval MOD
    /\ (eval MOD | eval (inv_R st') * A - Z.gcd (eval MOD) A).
Proof.
  revert st. induction fuel as [|k IH]; intros st Hst Hm.
  - exfalso. unfold inv_measure in Hm. pose proof (Z.log2_nonneg (eval (inv_U st))).
    pose proof (Z.log2_nonneg (eval (inv_V st))). case_match; lia.
  - cbn [inv_loop]. destruct (Z.even (eval (inv_U st))) eqn:EU; [|destruct (Z.even (eval (inv_V st))) eqn:EV].
    + destruct (inv_step_halve_U st Hst EU) as (st' & -> & Hst' & Hm'). apply IH; [done|lia].
    + destruct (inv_step_halve_V st Hst EU EV) as (st' & -> & Hst' & Hm'). apply IH; [done|lia].
    + destruct (inv_step_sub st Hst EU EV) as (st' & [|] & -> & H); [by exists st'|].
      destruct H as [Hst' Hm']. apply IH; [done|lia].
Qed.
End modinv.

Lemma modinv_spec MOD a fuel :
  p256_ok MOD -> p256_ok a -> Z.odd (eval MOD) = true -> 1 < eval MOD -> 0 < eval a ->
  (1024 <= fuel)%nat ->
  exists b, p256_modinv_vartime fuel MOD a = Some b /\ p256_ok b /\ 0 <= eval b < eval MOD
    /\ (eval b * eval a) mod eval MOD = Z.gcd (eval MOD) (eval a) mod eval MOD.
Proof.
  intros HM Ha Ho H1 Hp Hf. unfold p256_modinv_vartime.
  pose proof (p256_ok_bound _ HM) as BM. pose proof (p256_ok_bound _ Ha) as Ba.
  destruct (inv_loop_spec MOD (eval a) HM Ho fuel {| inv_R := P256_ZERO; inv_S := P256_ONE; inv_U := MOD; inv_V := a |})
    as (st & -> & HR & LR & DR).
  - assert (p256_ok P256_ZERO /\ p256_ok P256_ONE) as [Hz H1'].
    { split; (split; [|done]); apply (bool_decide_unpack _); vm_compute; exact I. }
    split; cbn [inv_R inv_S inv_U inv_V].
    + done.
    + change (eval P256_ZERO) with 0. change (eval P256_ONE) with 1. lia.
    + lia.
    + intros He. rewrite <- Z.negb_odd, Ho in He. discriminate.
    + change (eval P256_ZERO) with 0. exists (-1). lia.
    + change (eval P256_ONE) with 1. exists 0. lia.
    + done.
  - unfold inv_measure. cbn [inv_U inv_V].
    assert (Z.log2 (eval MOD) < 256) by (apply Z.log2_lt_pow2; lia).
    assert (Z.log2 (eval a) < 256) by (apply Z.log2_lt_pow2; lia). case_match; lia.
  - cbn [mbind option_bind]. destruct (mod_spec MOD (inv_R st) HM HR) as [Hm Em]; [lia|].
    pose proof (p256_ok_bound _ HR). rewrite Z.mod_small in Em by lia.
    eexists. split; [reflexivity|]. split; [done|]. rewrite Em. split; [lia|].
    destruct DR as [k Ek]. replace (eval (inv_R st) * eval a) with (Z.gcd (eval MOD) (eval a) + k * eval MOD) by lia.
    by rewrite Z.mod_add by lia.
Qed.

(** C39.  The binary Euclid: for an odd modulus and a nonzero number it
    returns within 1024 iterations, with a result below the modulus whose
    product with [a] is [gcd MOD a], so the inverse when they are coprime. *)
Theorem p256_modinv_vartime_correct MOD a fuel :
  p256_ok MOD -> p256_ok a -> Z.odd (eval MOD) = true -> 1 < eval MOD -> 0 < eval a ->
  (1024 <= fuel)%nat ->
  exists b, p256_modinv_vartime fuel MOD a = Some b /\ p256_ok b /\ 0 <= eval b < eval MOD
    /\ (eval b * eval a) mod eval MOD = Z.gcd (eval MOD) (eval a) mod eval MOD.
Proof. exact (modinv_spec MOD a fuel). Qed.

(** C40.  The inverse of zero does not exist and the loop does not notice:
    on [a = 0] it runs for ever. *)
Theorem p256_modinv_vartime_zero MOD fuel :
  p256_ok MOD -> Z.odd (eval MOD) = true -> p256_modinv_vartime fuel MOD P256_ZERO = None.
Proof.
  intros HM Ho. unfold p256_modinv_vartime.
  enough (forall R S, inv_loop MOD fuel {| inv_R := R; inv_S := S; inv_U := MOD; inv_V := P256_ZERO |} = None) as ->
    by done.
  induction fuel as [|k IH]; intros R S; [done|]. cbn [inv_loop].
  unfold inv_step. cbn [inv_R inv_S inv_U inv_V].
  rewrite (is_even_spec MOD), <- Z.negb_odd, Ho by done. cbn [negb].
  change (p256_is_even P256_ZERO) with true. change (p256_shr1 P256_ZERO 0) with P256_ZERO. apply IH.
Qed.

(** Comparison, subtraction, addition, parity, zero test and bits are
    those of the 256-bit numbers; subtraction and addition wrap modulo 2^256
    and report the borrow and the carry. *)
Theorem p256_arithmetic_correct a b d :
  p256_ok a -> p256_ok b -> is_word 32 d ->
  p256_cmp a b = Z.sgn (eval a - eval b)
  /\ (exists c, p256_sub a b = (c, if eval a <? eval b then -1 else 0)
        /\ p256_ok c /\ eval c = (eval a - eval b) mod 2 ^ 256)
  /\ (exists c, p256_add a b = (c, if 2 ^ 256 <=? eval a + eval b then 1 else 0)
        /\ p256_ok c /\ eval c = (eval a + eval b) mod 2 ^ 256)
  /\ (exists c, p256_add_d a d = (c, if 2 ^ 256 <=? eval a + d then 1 else 0)
        /\ p256_ok c /\ eval c = (eval a + d) mod 2 ^ 256)
  /\ p256_is_zero a = (eval a =? 0) /\ p256_is_even a = Z.even (eval a)
  /\ p256_is_odd a = Z.odd (eval a)
  /\ (forall bit, 0 <= bit < 256 -> p256_get_bit a bit = Z.b2z (Z.testbit (eval a) bit)).
Proof.
  intros Ha Hb Hd. split_and!; eauto using cmp_spec, sub_spec, add_spec, add_d_spec, is_zero_spec,
    is_even_spec, is_odd_spec, get_bit_spec.
Qed.

(** Shifts by [n mod 32] bits, for every [n] whose remainder is not
    zero, multiply and divide by the power of two; the bits [p256_shl]
    returns are those shifted out.  A multiple of 32 is undefined. *)
Theorem p256_shift_correct a n :
  p256_ok a -> 0 <= n ->
  let k := n mod 32 in
  if k =? 0 then p256_shl a n = None /\ p256_shr a n = None
  else (exists top b, p256_shl a n = Some (top, b) /\ eval b + 2 ^ 256 * top = 2 ^ k * eval a)
       /\ (exists b, p256_shr a n = Some b /\ eval b = eval a / 2 ^ k).
Proof.
  intros Ha Hn k. pose proof (Z.mod_pos_bound n 32 ltac:(lia)) as Hk. fold k in Hk.
  assert (p256_shl a n = p256_shl a k /\ p256_shr a n = p256_shr a k) as [-> ->].
  { unfold p256_shl, p256_shr, P256_BITSPERDIGIT.
    rewrite (Z.rem_mod_nonneg n 32), (Z.rem_small k 32) by lia. done. }
  destruct (Z.eqb_spec k 0) as [->|E]; [done|].
  split; [apply shl_spec | apply shr_spec]; (done || lia).
Qed.

(** ** Points *)

(** A closed digit array is well formed by evaluation. *)
Ltac prove_ok := split; [apply (bool_decide_unpack _); vm_compute; exact I | reflexivity].

Lemma SECP256r1_p_ok : modulus_ok SECP256r1_p.
Proof. split; [prove_ok | reflexivity]. Qed.
Lemma SECP256r1_n_ok : modulus_ok SECP256r1_n.
Proof. split; [prove_ok | reflexivity]. Qed.
Lemma SECP256r1_b_ok : p256_ok SECP256r1_b.
Proof. prove_ok. Qed.

Lemma p_value_eq : p_value = 2 ^ 256 - 2 ^ 224 + 2 ^ 192 + 2 ^ 96 - 1.
Proof. reflexivity. Qed.

(** The right-hand side of the curve equation, as [p256_is_valid_point] computes it. *)
Lemma curve_side x :
  p256_ok x -> eval x < p_value ->
  exists x2 x3, p256_modmul SECP256r1_p x 0 x = Some x2 /\ p256_modmul SECP256r1_p x 0 x2 = Some x3
    /\ let t := sub_mod SECP256r1_p (sub_mod SECP256r1_p (sub_mod SECP256r1_p x3 x) x) x in
       p256_ok t /\ eval t = (eval x ^ 3 - 3 * eval x) mod p_value.
Proof.
  intros Hx Lx. pose proof SECP256r1_p_ok as HM. assert (0 < p_value) by reflexivity.
  destruct (modmul_spec SECP256r1_p x 0 x HM Hx Hx) as (x2 & E2 & H2 & V2); [done|].
  destruct (modmul_spec SECP256r1_p x 0 x2 HM Hx H2) as (x3 & E3 & H3 & V3); [done|].
  exists x2, x3. split; [done|]. split; [done|]. intros t. destruct HM as [HM _].
  fold p_value in V2, V3. rewrite Z.mul_0_r, Z.add_0_r in V2, V3.
  rewrite V2, Zmult_mod_idemp_r in V3.
  assert (forall y, p256_ok y -> eval y < p_value -> p256_ok (sub_mod SECP256r1_p y x)
            /\ eval (sub_mod SECP256r1_p y x) = (eval y - eval x) mod p_value
            /\ eval (sub_mod SECP256r1_p y x) < p_value) as Hs.
  { intros y Hy Ly. destruct (sub_mod_spec SECP256r1_p y x HM Hy Hx Ly Lx) as [? E].
    split_and!; [done|done|]. rewrite E. by apply Z.mod_pos_bound. }
  destruct (Hs x3 H3) as (H4 & V4 & L4); [rewrite V3; by apply Z.mod_pos_bound|].
  destruct (Hs _ H4 L4) as (H5 & V5 & L5). destruct (Hs _ H5 L5) as (H6 & V6 & L6).
  rewrite V3, Zminus_mod_idemp_l in V4. rewrite V4, Zminus_mod_idemp_l in V5. rewrite V5, Zminus_mod_idemp_l in V6.
  split; [done|]. subst t. rewrite V6. f_equal. ring.
Qed.

Lemma is_valid_point_spec x y :
  p256_ok x -> p256_ok y ->
  p256_is_valid_point x y = Some (bool_decide (
    0 < eval x < p_value /\ 0 < eval y < p_value
    /\ (eval y ^ 2) mod p_value = (eval x ^ 3 - 3 * eval x + b_value) mod p_value
    /\ 2 ^ 256 - p_value <= (eval y ^ 2) mod p_value)).
Proof.
  intros Hx Hy. pose proof SECP256r1_p_ok as HM. pose proof HM as [HMo _].
  pose proof (p256_ok_bound _ Hx) as Bx. pose proof (p256_ok_bound _ Hy) as By.
  unfold p256_is_valid_point. rewrite !cmp_spec, !is_zero_spec by done. fold p_value.
  destruct (Z.leb_spec (Z.sgn (p_value - eval x)) 0) as [H|Lx].
  { rewrite bool_decide_false; [done|]. intros ((?&?)&_). rewrite Z.sgn_pos in H; lia. }
  destruct (Z.leb_spec (Z.sgn (p_value - eval y)) 0) as [H|Ly].
  { rewrite bool_decide_false; [done|]. intros (_&(?&?)&_). rewrite Z.sgn_pos in H; lia. }
  cbn [orb]. apply Z.sgn_pos_iff in Lx, Ly.
  destruct (Z.eqb_spec (eval x) 0) as [H|Nx]; [cbn [orb]; rewrite bool_decide_false; [done|]; lia|].
  destruct (Z.eqb_spec (eval y) 0) as [H|Ny]; [cbn [orb]; rewrite bool_decide_false; [done|]; lia|].
  cbn [orb].
  destruct (modmul_spec SECP256r1_p y 0 y HM Hy Hy) as (y2 & -> & Hy2 & Vy2); [done|].
  destruct (curve_side x Hx ltac:(lia)) as (x2 & x3 & -> & E3 & Ht & Vt).
  cbn [mbind option_bind]. rewrite E3. cbn [mbind option_bind].
  set (t := sub_mod _ _ _) in *. clearbody t. clear E3.
  destruct (add_spec t SECP256r1_b Ht SECP256r1_b_ok) as (s & -> & Hs & Vs).
  fold b_value p_value in *. rewrite Z.mul_0_r, Z.add_0_r, <- Z.pow_2_r in Vy2.
  assert (0 < p_value) as Hp by reflexivity.
  pose proof (Z.mod_pos_bound (eval x ^ 3 - 3 * eval x) p_value Hp) as Bt. rewrite <- Vt in Bt.
  pose proof (Z.mod_pos_bound (eval y ^ 2) p_value Hp) as Bv.
  rewrite <- (Zplus_mod_idemp_l (eval x ^ 3 - 3 * eval x)), <- Vt.
  assert (2 ^ 256 - p_value <= b_value < p_value) as Bb by done.
  assert (p_value < 2 ^ 256 < 2 * p_value) as Bp by done.
  set (w := if negb _ then _ else s).
  assert (p256_ok w /\ eval w = if 2 ^ 256 <=? eval t + b_value then eval t + b_value - p_value else eval t + b_value)
    as [Hw Vw].
  { subst w. destruct (Z.leb_spec (2 ^ 256) (eval t + b_value)); cbn [negb Z.eqb].
    - destruct (sub_spec s SECP256r1_p Hs HMo) as (c & -> & Hc & Vc). cbn [fst]. split; [done|].
      rewrite Vc, Vs. fold p_value. rewrite Zminus_mod_idemp_l. apply Z.mod_small. lia.
    - split; [done|]. rewrite Vs. apply Z.mod_small. lia. }
  rewrite cmp_spec, Vy2, Vw by done. f_equal. apply eq_bool_prop_intro.
  rewrite bool_decide_spec, Is_true_true, Z.eqb_eq, Z.sgn_null_iff.
  destruct (Z.leb_spec (2 ^ 256) (eval t + b_value)).
  - rewrite <- (Z.mod_unique (eval t + b_value) p_value 1 (eval t + b_value - p_value)) by lia. lia.
  - destruct (Z.lt_ge_cases (eval t + b_value) p_value).
    + rewrite (Z.mod_small (eval t + b_value)) by lia. lia.
    + rewrite <- (Z.mod_unique (eval t + b_value) p_value 1 (eval t + b_value - p_value)) by lia. lia.
Qed.

(** The point check never fails an assertion, and accepts exactly the
    affine points with nonzero coordinates below p on the curve for which
    [y^2 mod p] is at least [2^256 - p]: the sum with b is reduced when it
    carries out of 256 bits, not when it reaches p. *)
Theorem p256_is_valid_point_correct x y :
  p256_ok x -> p256_ok y ->
  p256_is_valid_point x y = Some (bool_decide (
    0 < eval x < p_value /\ 0 < eval y < p_value
    /\ (eval y ^ 2) mod p_value = (eval x ^ 3 - 3 * eval x + b_value) mod p_value
    /\ 2 ^ 256 - p_value <= (eval y ^ 2) mod p_value)).
Proof. exact (is_valid_point_spec x y). Qed.

(** The curve point whose y coordinate is 1 and one of its x coordinates. *)
Definition small_y_x : list Z :=
  [0x5a8a73cc; 0x57f879ce; 0x067d6010; 0x5fcc40a3; 0x611b282e; 0x9e2e2ecd; 0x5e568b6b; 0x6916fac4].

(** A point of the curve that the check rejects. *)
Theorem valid_point_rejected :
  0 < eval small_y_x < p_value /\ 0 < eval P256_ONE < p_value
  /\ (eval P256_ONE ^ 2) mod p_value = (eval small_y_x ^ 3 - 3 * eval small_y_x + b_value) mod p_value
  /\ p256_is_valid_point small_y_x P256_ONE = Some false.
Proof. vm_compute. repeat split. Qed.

(** Parsing: the big-endian value of the 32 bytes. *)
Theorem p256_from_bin_correct src :
  words 8 src -> length src = P256_NBYTES ->
  p256_ok (p256_from_bin src) /\ eval (p256_from_bin src) = be_eval 8 src.
Proof. apply from_bin_spec. Qed.

(** * Concrete runs *)

(** The base point of the curve. *)
Definition base_x : list Z :=
  [0xd898c296; 0xf4a13945; 0x2deb33a0; 0x77037d81; 0x63a440f2; 0xf8bce6e5; 0xe12c4247; 0x6b17d1f2].
Definition base_y : list Z :=
  [0x37bf51f5; 0xcbb64068; 0x6b315ece; 0x2bce3357; 0x7c0f9e16; 0x8ee7eb4a; 0xfe1a7f9b; 0x4fe342e2].

Lemma base_x_ok : p256_ok base_x.
Proof. prove_ok. Qed.
Lemma base_y_ok : p256_ok base_y.
Proof. prove_ok. Qed.

Lemma p256_modmul_correct_witness :
  exists c, p256_modmul SECP256r1_n base_x 5 base_y = Some c
    /\ eval c = (eval base_x * (eval base_y + 2 ^ 256 * 5)) mod n_value.
Proof.
  destruct (p256_modmul_correct SECP256r1_n base_x 5 base_y) as (c & E & _ & _ & V).
  - apply SECP256r1_n_ok.
  - apply base_x_ok.
  - apply base_y_ok.
  - unfold is_word. lia.
  - exists c. split; [exact E | exact V].
Defined.

Lemma p256_modinv_vartime_correct_witness :
  exists b, p256_modinv_vartime (Z.to_nat 1024) SECP256r1_n base_x = Some b
    /\ (eval b * eval base_x) mod n_value = 1.
Proof.
  destruct (p256_modinv_vartime_correct SECP256r1_n base_x (Z.to_nat 1024)) as (b & E & _ & _ & V).
  - apply SECP256r1_n_ok.
  - apply base_x_ok.
  - reflexivity.
  - reflexivity.
  - reflexivity.
  - lia.
  - exists b. split; [exact E|]. transitivity (Z.gcd (eval SECP256r1_n) (eval base_x) mod eval SECP256r1_n); [exact V | vm_compute; reflexivity].
Defined.

Lemma p256_modinv_vartime_zero_witness : p256_modinv_vartime 3 SECP256r1_n P256_ZERO = None.
Proof. apply (p256_modinv_vartime_zero SECP256r1_n 3); [apply SECP256r1_n_ok | reflexivity]. Defined.

Lemma p256_arithmetic_correct_witness :
  p256_cmp base_x base_y = 1 /\ p256_get_bit base_x 1 = 1.
Proof.
  destruct (p256_arithmetic_correct base_x base_y 7) as (H & _ & _ & _ & _ & _ & _ & Hb).
  - apply base_x_ok.
  - apply base_y_ok.
  - unfold is_word. lia.
  - split; [rewrite H; reflexivity | rewrite Hb by lia; reflexivity].
Defined.

Lemma p256_shift_correct_witness : exists b, p256_shr base_x 37 = Some b /\ eval b = eval base_x / 2 ^ 5.
Proof. apply (p256_shift_correct base_x 37); [apply base_x_ok | lia]. Defined.

Lemma p256_is_valid_point_correct_witness : p256_is_valid_point base_x base_y = Some true.
Proof.
  rewrite (p256_is_valid_point_correct base_x base_y base_x_ok base_y_ok). f_equal.
Defined.

Lemma p256_from_bin_correct_witness : eval (p256_from_bin (map Z.of_nat (seq 1 32))) = be_eval 8 (map Z.of_nat (seq 1 32)).
Proof.
  apply (p256_from_bin_correct (map Z.of_nat (seq 1 32))); [|reflexivity].
  apply (bool_decide_unpack _). vm_compute. exact I.
Defined.
