(* ===== verification/Primes.v ===== *)
(** * The modulus and the group order of P-256 are prime

    Pocklington's criterion, and the chain of primes that it needs to reach
    [p_value] and [n_value], with the powers computed on Bignums' integers.
    Inverses modulo a prime come from the Standard Library's version of
    Fermat's theorem. *)
From S2P Require Import Prelude Modular P256.
From Stdlib Require Import Znumtheory Zpow_facts.
From Stdlib Require ZmodInv.
From Bignums Require Import BigZ.BigZ.

Lemma fermat p a : prime p -> ~ a =[p] 0 -> a ^ (p - 1) =[p] 1.
Proof.
  intros Hp Ha. pose proof (prime_ge_2 p Hp). apply eqm_eq; [lia|]. rewrite (Z.mod_small 1) by lia.
  apply ZmodInv.Z.fermat_nz; [by apply prime_alt|].
  intros E. apply Ha, eqm_eq; [lia|]. by rewrite E, Z.mod_0_l by lia.
Qed.

(** A number whose [m]-th and [n]-th powers are 1, for coprime [m] and [n], is 1. *)
Lemma pow_coprime_one q a m n :
  0 <= m -> 0 <= n -> rel_prime m n -> a ^ m =[q] 1 -> a ^ n =[q] 1 -> a =[q] 1.
Proof.
  intros Hm Hn Hc Em En.
  destruct (Z.eq_dec n 0) as [->|Hn0].
  { apply Zgcd_1_rel_prime in Hc. rewrite Z.gcd_0_r, Z.abs_eq in Hc by done. subst m. by rewrite Z.pow_1_r in Em. }
  destruct (rel_prime_bezout m n Hc) as [u v Huv].
  (* both coefficients made non-negative: u' m = 1 + v' n *)
  set (u' := u mod n). assert (exists v', u' * m = 1 + v' * n) as [v' E].
  { exists (- (v + u / n * m)). pose proof (Z.div_mod u n Hn0). unfold u'. nia. }
  pose proof (Z.mod_pos_bound u n ltac:(lia)) as Hu. fold u' in Hu.
  destruct (Z.eq_dec n 1) as [->|Hn1]; [by rewrite Z.pow_1_r in En|].
  assert (0 <= v') by nia.
  assert (a ^ (u' * m) =[q] 1) as E1 by (rewrite Z.mul_comm, Z.pow_mul_r, Em, Z.pow_1_l by lia; reflexivity).
  assert (a ^ (v' * n) =[q] 1) as E2 by (rewrite Z.mul_comm, Z.pow_mul_r, En, Z.pow_1_l by lia; reflexivity).
  rewrite E, Z.pow_add_r, E2, Z.pow_1_r, Z.mul_1_r in E1 by nia. done.
Qed.

(** One prime factor [r] of [N - 1] also divides [q - 1] for any prime factor [q] of [N]. *)
Lemma pocklington_factor N a r q :
  1 < N -> prime r -> (r | N - 1) -> a ^ (N - 1) =[N] 1 ->
  Z.gcd (a ^ ((N - 1) / r) mod N - 1) N = 1 ->
  prime q -> (q | N) -> (r | q - 1).
Proof.
  intros HN Hr [m Em] Ea Hg Hq HqN. pose proof (prime_ge_2 r Hr). pose proof (prime_ge_2 q Hq).
  destruct (Zdivide_dec r (q - 1)) as [?|Hnd]; [done|exfalso].
  rewrite Em, Z.div_mul in Hg by lia. assert (0 <= m) by nia.
  assert (HNq : forall x y, x =[N] y -> x =[q] y) by (intros x y Hxy; by apply Z.divide_trans with N).
  assert (Ha0 : ~ a =[q] 0).
  { intros E. apply HNq in Ea. rewrite E, Z.pow_0_l in Ea by lia. destruct Ea as [k Ek]. destruct (Z.lt_ge_cases k 0); nia. }
  assert (Eb : (a ^ m) =[q] 1).
  { apply pow_coprime_one with r (q - 1); [lia|lia| | |].
    - by apply prime_rel_prime.
    - rewrite <- Z.pow_mul_r, <- Em by lia. by apply HNq.
    - rewrite <- Z.pow_mul_r, Z.mul_comm, Z.pow_mul_r, (fermat q a Hq Ha0), Z.pow_1_l by lia. reflexivity. }
  assert (q | 1) as Hq1.
  { rewrite <- Hg. apply Z.gcd_greatest; [|done]. 
    assert (a ^ m mod N =[q] 1) as E by (rewrite (HNq _ _ (eqm_mod N (a ^ m))); exact Eb). exact E. }
  apply Z.divide_1_r_nonneg in Hq1; lia.
Qed.

Lemma prime_factor n : 1 < n -> exists q, prime q /\ (q | n).
Proof.
  induction n as [n IH] using (well_founded_induction (Z.lt_wf 0)). intros Hn. destruct (prime_dec n) as [Hp|Hp]; [by exists n|].
  destruct (not_prime_divide n Hn Hp) as (m & Hm & Hd).
  destruct (IH m ltac:(lia) ltac:(lia)) as (q & Hq & Hqm). exists q. split; [done|]. by apply Z.divide_trans with m.
Qed.

(** A number all of whose prime factors are above its square root is prime. *)
Lemma prime_by_factors N F :
  1 < N -> N <= F * F -> 0 <= F -> (forall q, prime q -> (q | N) -> F < q) -> prime N.
Proof.
  intros HN HF HF0 H. destruct (prime_dec N) as [Hp|Hp]; [done|exfalso].
  destruct (not_prime_divide N HN Hp) as (n & Hn & m & Hm).
  assert (1 < m) by nia.
  destruct (prime_factor n ltac:(lia)) as (q1 & Hq1 & Hd1).
  destruct (prime_factor m ltac:(lia)) as (q2 & Hq2 & Hd2).
  pose proof (H q1 Hq1 ltac:(rewrite Hm; by apply Z.divide_mul_r)).
  pose proof (H q2 Hq2 ltac:(rewrite Hm; by apply Z.divide_mul_l)).
  apply Z.divide_pos_le in Hd1, Hd2; nia.
Qed.

Definition trial_check (N : Z) (k : nat) : bool :=
  (1 <? N) && (N <=? Z.of_nat k * Z.of_nat k)
  && forallb (fun d => negb (N mod Z.of_nat d =? 0)) (seq 2 (k - 1)).

Lemma trial_prime N k : trial_check N k = true -> prime N.
Proof.
  unfold trial_check. rewrite !andb_true_iff, Z.ltb_lt, Z.leb_le, forallb_forall. intros [[HN Hk] H].
  apply prime_by_factors with (Z.of_nat k); [done|done|lia|]. intros q Hq Hd. pose proof (prime_ge_2 q Hq).
  destruct (Z.lt_ge_cases (Z.of_nat k) q) as [?|Hle]; [done|exfalso].
  specialize (H (Z.to_nat q) ltac:(apply in_seq; lia)). rewrite Z2Nat.id in H by lia.
  apply Znumtheory.Zdivide_mod in Hd. by rewrite Hd in H.
Qed.

Lemma distinct_primes_divide rs m :
  Forall prime rs -> NoDup rs -> Forall (fun r => (r | m)) rs -> (foldr Z.mul 1 rs | m).
Proof.
  intros Hp Hnd Hd. revert Hp Hd. induction Hnd as [|r rs Hr _ IH]; intros Hp Hd; cbn [foldr]; [apply Z.divide_1_l|].
  apply Forall_cons in Hp as [Hp Hps], Hd as [Hd Hds]. destruct (IH Hps Hds) as [k Ek]. 
  rewrite Ek, Z.mul_comm in Hd. rewrite Ek. apply Gauss in Hd as [j Ej].
  - exists j. rewrite Ej. ring.
  - apply prime_rel_prime; [done|]. clear -Hr Hp Hps. intros H. apply Hr. clear Hr.
    induction Hps as [|s rs Hs Hps IH]; cbn [foldr] in H.
    + apply Z.divide_1_r_nonneg in H; [|pose proof (prime_ge_2 r Hp); lia]. by destruct (not_prime_1); rewrite <- H.
    + destruct (prime_mult r Hp _ _ H) as [H'|H'].
      * rewrite (prime_div_prime r s Hp Hs H'). apply list_elem_of_here.
      * by apply list_elem_of_further, IH.
Qed.

(** ** The criterion, as a computation *)

(** [a ^ e] modulo [N]. *)
Fixpoint pow_mod (N a : bigZ) (e : positive) : bigZ :=
  match e with
  | xH => a
  | xO e => let b := pow_mod N a e in BigZ.modulo (BigZ.mul b b) N
  | xI e => let b := pow_mod N a e in BigZ.modulo (BigZ.mul a (BigZ.modulo (BigZ.mul b b) N)) N
  end.

Lemma pow_mod_eqm N a e : BigZ.to_Z (pow_mod N a e) =[BigZ.to_Z N] BigZ.to_Z a ^ Zpos e.
Proof.
  induction e as [e IH|e IH|]; cbn [pow_mod];
    rewrite ?BigZ.spec_modulo, ?BigZ.spec_mul, ?eqm_mod, ?BigZ.spec_modulo, ?BigZ.spec_mul, ?eqm_mod, ?IH.
  - apply eqm_eq_refl. replace (Zpos e~1) with (Zpos e + Zpos e + 1) by lia. rewrite !Z.pow_add_r by lia. ring.
  - apply eqm_eq_refl. replace (Zpos e~0) with (Zpos e + Zpos e) by lia. by rewrite Z.pow_add_r by lia.
  - rewrite Z.pow_1_r. reflexivity.
Qed.

(** Pocklington's conditions for the prime factors [rs] of [N - 1], to the base 2. *)
Definition pocklington_check (N : Z) (rs : list Z) : bool :=
  (1 <? N) && (N <=? foldr Z.mul 1 rs * foldr Z.mul 1 rs) && bool_decide (NoDup rs)
  && (let bN := BigZ.of_Z N in
      forallb (fun r =>
        let m := BigZ.div (BigZ.of_Z (N - 1)) (BigZ.of_Z r) in
        BigZ.eqb (BigZ.mul m (BigZ.of_Z r)) (BigZ.of_Z (N - 1)) && BigZ.ltb BigZ.zero m
        && (let c := pow_mod bN BigZ.two (Z.to_pos (BigZ.to_Z m)) in
            BigZ.eqb (BigZ.modulo (pow_mod bN c (Z.to_pos r)) bN) BigZ.one
            && BigZ.eqb (BigZ.gcd (BigZ.sub (BigZ.modulo c bN) BigZ.one) bN) BigZ.one)) rs).

Lemma pocklington N rs : Forall prime rs -> pocklington_check N rs = true -> prime N.
Proof.
  unfold pocklington_check. intros Hp. rewrite !andb_true_iff, Z.ltb_lt, Z.leb_le, bool_decide_eq_true.
  cbv zeta. rewrite forallb_forall. intros [[[HN HF] Hnd] H].
  assert (0 <= foldr Z.mul 1 rs) as HF0.
  { clear -Hp. induction Hp as [|r rs Hr _ IH]; cbn [foldr]; [lia|]. pose proof (prime_ge_2 r Hr). nia. }
  apply prime_by_factors with (foldr Z.mul 1 rs); [done..|]. intros q Hq Hd. pose proof (prime_ge_2 q Hq).
  assert ((foldr Z.mul 1 rs | q - 1)) as Hdiv; [|apply Z.divide_pos_le in Hdiv; lia].
  apply distinct_primes_divide; [done..|]. apply Forall_forall. intros r Hr. rewrite Forall_forall in Hp.
  specialize (H r ltac:(by apply list_elem_of_In)). specialize (Hp r Hr). pose proof (prime_ge_2 r Hp).
  rewrite !andb_true_iff, !BigZ.spec_eqb, !Z.eqb_eq, BigZ.spec_ltb, Z.ltb_lt in H. destruct H as ((Hm & Hpos) & Hc & Hg).
  rewrite BigZ.spec_mul, BigZ.spec_div, !BigZ.spec_of_Z in *.
  rewrite BigZ.spec_modulo, BigZ.spec_of_Z in Hc. rewrite BigZ.spec_gcd, BigZ.spec_sub, BigZ.spec_modulo, !BigZ.spec_of_Z in Hg.
  change (BigZ.to_Z BigZ.one) with 1 in *. change (BigZ.to_Z BigZ.zero) with 0 in *.
  set (m := (N - 1) / r) in *.
  pose proof (pow_mod_eqm (BigZ.of_Z N) BigZ.two (Z.to_pos m)) as Ec.
  set (c := pow_mod (BigZ.of_Z N) BigZ.two (Z.to_pos m)) in *.
  pose proof (pow_mod_eqm (BigZ.of_Z N) c (Z.to_pos r)) as Ed.
  rewrite !BigZ.spec_of_Z, Z2Pos.id in Ec, Ed by lia. change (BigZ.to_Z BigZ.two) with 2 in Ec.
  apply pocklington_factor with N 2; try done.
  - exists m. lia.
  - replace (N - 1) with (m * r) by lia. rewrite Z.pow_mul_r, <- Ec, <- Ed by lia.
    etransitivity; [symmetry; apply eqm_mod|]. rewrite Hc. reflexivity.
  - apply eqm_eq in Ec; [|lia]. fold m. by rewrite <- Ec.
Qed.

(** * The primes below the modulus and below the group order *)

Definition q0 : Z := 835945042244614951780389953367877943453916927241.
Definition q1 : Z := 774023187263532362759620327192479577272145303.

(** The prime factors named are primes of the context; the rest is computed. *)
Ltac pock N rs :=
  apply (pocklington N rs); [repeat apply Forall_cons_2; first [apply Forall_nil_2 | done]|vm_compute; reflexivity].
Ltac trial k := apply trial_prime with k; vm_compute; reflexivity.

Lemma prime_q1 : prime q1.
Proof.
  assert (prime 197) by trial 15%nat. assert (prime 3677) by trial 61%nat.
  assert (prime 78283) by trial 280%nat. assert (prime 704251) by trial 840%nat.
  assert (prime 66417393611) by pock 66417393611 [3677; 197].
  assert (prime 11290956913871) by pock 11290956913871 [66417393611].
  assert (prime 46076956964474543) by pock 46076956964474543 [704251; 78283].
  pock q1 [46076956964474543; 11290956913871].
Qed.

Lemma prime_q0 : prime q0.
Proof. pose proof prime_q1. pock q0 [q1]. Qed.

Lemma prime_p : prime p_value.
Proof. pose proof prime_q0. pock p_value [q0]. Qed.

Definition r0 : Z := 2624747550333869278416773953.

Lemma prime_r0 : prime r0.
Proof.
  assert (prime 3) by trial 2%nat. assert (prime 11) by trial 4%nat. assert (prime 43) by trial 7%nat.
  assert (prime 127) by trial 12%nat. assert (prime 3023) by trial 55%nat.
  assert (prime 208150935158385979) by pock 208150935158385979 [3; 11; 43; 127; 3023].
  pock r0 [208150935158385979].
Qed.

Lemma prime_n : prime n_value.
Proof.
  pose proof prime_r0. assert (prime 104471) by trial 324%nat.
  assert (prime 3969899) by pock 3969899 [104471].
  assert (prime 1002328039319) by pock 1002328039319 [3969899].
  pock n_value [r0; 1002328039319].
Qed.
