(* ===== verification/Felem.v ===== *)
(** * Field elements of P-256: the first half of libmincrypt/p256_ec.c

    An [felem] is a list of nine 32-bit limbs of alternately 29 and 28 bits.
    The file has the functions of the "Field element operations" section, the
    bounds their comments state, and their values modulo the prime. *)
From S2P Require Import Prelude Modular Digits P256 Primes.
From Stdlib Require Import Znumtheory.

Definition NLIMBS : nat := 9.
Definition kBottom28Bits : Z := 0xfffffff.
Definition kBottom29Bits : Z := 0x1fffffff.

Definition kOne : list Z :=
  [2; 0; 0; 0xffff800; 0x1fffffff; 0xfffffff; 0x1fbfffff; 0x1ffffff; 0].
Definition kZero : list Z := [0; 0; 0; 0; 0; 0; 0; 0; 0].
Definition kP : list Z :=
  [0x1fffffff; 0xfffffff; 0x1fffffff; 0x3ff; 0; 0; 0x200000; 0xf000000; 0xfffffff].
Definition k2P : list Z :=
  [0x1ffffffe; 0xfffffff; 0x1fffffff; 0x7ff; 0; 0; 0x400000; 0xe000000; 0x1fffffff].

(** [(((u32)(x) - 1) >> 31) - 1] *)
Definition NON_ZERO_TO_ALL_ONES (x : Z) : Z := u32 ((u32 (u32 x - 1) >> 31) - 1).

(** [l[k] += e] and [l[k] -= e] on an array of [limb]s. *)
Definition addw (k : nat) (e : Z) (l : list Z) : list Z := <[k := u32 (l !!! k + e)]> l.
Definition subw (k : nat) (e : Z) (l : list Z) : list Z := <[k := u32 (l !!! k - e)]> l.
Notation "l |> f" := (f l) (at level 61, left associativity, only parsing).

Definition felem_reduce_carry (inout : list Z) (carry : Z) : list Z :=
  let carry_mask := NON_ZERO_TO_ALL_ONES carry in
  inout
  |> addw 0 (u32 (carry << 1))
  |> addw 3 (0x10000000 .& carry_mask)
  |> subw 3 (u32 (carry << 11))
  |> addw 4 ((0x20000000 - 1) .& carry_mask)
  |> addw 5 ((0x10000000 - 1) .& carry_mask)
  |> addw 6 ((0x20000000 - 1) .& carry_mask)
  |> subw 6 (u32 (carry << 22))
  |> subw 7 (1 .& carry_mask)
  |> addw 7 (u32 (carry << 25)).

(** Width and mask of a limb: 29 bits at even positions, 28 at odd ones. *)
Definition width (even : bool) : Z := if even then 29 else 28.
Definition kBottom (even : bool) : Z := if even then kBottom29Bits else kBottom28Bits.

(** The loop [for (i = 0;; i++) { 29-bit half; i++; if (i == NLIMBS) break; 28-bit half }]
    whose halves are [out[i] += carry; carry = out[i] >> w; out[i] &= kBottom]. *)
Fixpoint carry_chain (even : bool) (carry : Z) (xs : list Z) : list Z * Z :=
  match xs with
  | [] => ([], carry)
  | x :: xs =>
      let x := u32 (x + carry) in
      let '(r, c) := carry_chain (negb even) (x >> width even) xs in
      ((x .& kBottom even) :: r, c)
  end.

Definition felem_sum (a b : list Z) : list Z :=
  let '(out, carry) := carry_chain true 0 (zip_with (fun x y => u32 (x + y)) a b) in
  felem_reduce_carry out carry.

Definition two31m3 : Z := (1 << 31) - (1 << 3).
Definition two30m2 : Z := (1 << 30) - (1 << 2).
Definition two30p13m2 : Z := (1 << 30) + (1 << 13) - (1 << 2).
Definition two31m2 : Z := (1 << 31) - (1 << 2).
Definition two31p24m2 : Z := (1 << 31) + (1 << 24) - (1 << 2).
Definition two30m27m2 : Z := (1 << 30) - (1 << 27) - (1 << 2).

Definition zero31 : list Z :=
  [two31m3; two30m2; two31m2; two30p13m2; two31m2; two30m2; two31p24m2; two30m27m2; two31m2].

Definition felem_diff (a b : list Z) : list Z :=
  let '(out, carry) :=
    carry_chain true 0 (zip_with (fun d z => u32 (d + z)) (zip_with (fun x y => u32 (x - y)) a b) zero31) in
  felem_reduce_carry out carry.

(** A word of [tmp2] from the three words of [tmp] that overlap it. *)
Definition split_word (even : bool) (t2 t1 t : Z) : Z :=
  let hi := u32 (t1 >> 32) in
  let w := u32 (t2 >> 32) >> 25 in
  let w := u32 (w + (u32 t1 >> width (negb even))) in
  let w := u32 (w + (u32 (hi << (if even then 4 else 3)) .& kBottom even)) in
  u32 (w + (u32 t .& kBottom even)).

(** The first loop of felem_reduce_degree: 17 overlapping 64-bit words to 18 limbs. *)
Definition split_words (tmp : list Z) : list Z :=
  let t i := tmp !!! i in
  let w0 := u32 (t 0%nat .& kBottom29Bits) in
  let w1 := (u32 (t 0%nat) >> 29) .| (u32 (u32 (t 0%nat >> 32) << 3) .& kBottom28Bits) in
  let w1 := u32 (w1 + (u32 (t 1%nat) .& kBottom28Bits)) in
  let carry := w1 >> 28 in
  let w1 := w1 .& kBottom28Bits in
  let '(ws, carry) := carry_chain true carry
    (map (fun i => split_word (Nat.even i) (t (i - 2)%nat) (t (i - 1)%nat) (t i)) (seq 2 15)) in
  let w17 := u32 (t 15%nat >> 32) >> 25 in
  let w17 := u32 (w17 + (u32 (t 16%nat) >> 29)) in
  let w17 := u32 (w17 + u32 (u32 (t 16%nat >> 32) << 3)) in
  let w17 := u32 (w17 + carry) in
  w0 :: w1 :: ws ++ [w17].

(** The first half of an iteration of the elimination loop. *)
Definition elim_even (i : nat) (tmp2 : list Z) : list Z :=
  let tmp2 := addw (i + 1) (tmp2 !!! i >> 29) tmp2 in
  let x := tmp2 !!! i .& kBottom29Bits in
  let xMask := NON_ZERO_TO_ALL_ONES x in
  <[i := 0]> tmp2
  |> addw (i + 3) (u32 (x << 10) .& kBottom28Bits)
  |> addw (i + 4) (x >> 18)
  |> addw (i + 6) (u32 (x << 21) .& kBottom29Bits)
  |> addw (i + 7) (x >> 8)
  |> addw (i + 7) (0x10000000 .& xMask)
  |> addw (i + 8) (u32 (x - 1) .& xMask)
  |> subw (i + 7) (u32 (x << 24) .& kBottom28Bits)
  |> subw (i + 8) (x >> 4)
  |> addw (i + 8) (0x20000000 .& xMask)
  |> subw (i + 8) x
  |> addw (i + 8) (u32 (x << 28) .& kBottom29Bits)
  |> addw (i + 9) (u32 ((x >> 1) - 1) .& xMask).

(** The second half, after the test [i+1 == NLIMBS]. *)
Definition elim_odd (i : nat) (tmp2 : list Z) : list Z :=
  let tmp2 := addw (i + 2) (tmp2 !!! (i + 1)%nat >> 28) tmp2 in
  let x := tmp2 !!! (i + 1)%nat .& kBottom28Bits in
  let xMask := NON_ZERO_TO_ALL_ONES x in
  <[(i + 1)%nat := 0]> tmp2
  |> addw (i + 4) (u32 (x << 11) .& kBottom29Bits)
  |> addw (i + 5) (x >> 18)
  |> addw (i + 7) (u32 (x << 21) .& kBottom28Bits)
  |> addw (i + 8) (x >> 7)
  |> addw (i + 8) (0x20000000 .& xMask)
  |> addw (i + 9) (u32 (x - 1) .& xMask)
  |> subw (i + 8) (u32 (x << 25) .& kBottom29Bits)
  |> subw (i + 9) (x >> 4)
  |> addw (i + 9) (0x10000000 .& xMask)
  |> subw (i + 9) x
  |> addw (i + 10) (u32 (x - 1) .& xMask).

Definition eliminate (tmp2 : list Z) : list Z :=
  elim_even 8 (for_ 0 4 (fun k w => elim_odd (2 * k) (elim_even (2 * k) w)) tmp2).

(** The words copied down, before the carry of the loop is added. *)
Definition shifted_words (tmp2 : list Z) : list Z :=
  map (fun i => if Nat.even i
                then u32 (tmp2 !!! (i + 9)%nat + (u32 (tmp2 !!! (i + 10)%nat << 28) .& kBottom29Bits))
                else tmp2 !!! (i + 9)%nat >> 1) (seq 0 8)
  ++ [tmp2 !!! 17%nat].

Definition felem_reduce_degree (tmp : list Z) : list Z :=
  let tmp2 := eliminate (split_words tmp) in
  let '(out, carry) := carry_chain true 0 (shifted_words tmp2) in
  felem_reduce_carry out carry.

(** An [felem] has nine limbs; other lists do not occur.
    [((u64) x) * y], [y << s] on limbs, and the sum of products, in [u64]. *)
Definition mul64 (x y : Z) : Z := u64 (x * y).
Definition shl32 (y s : Z) : Z := u32 (y << s).
Definition sum64 (l : list Z) : Z :=
  match l with [] => 0 | t :: l => fold_left (fun acc t => u64 (acc + t)) l t end.
#[local] Infix "*!" := mul64 (at level 40, left associativity).
#[local] Infix "<<!" := shl32 (at level 38, left associativity).

Definition square_words (inp : list Z) : list Z :=
  match inp with
  | [x0; x1; x2; x3; x4; x5; x6; x7; x8] =>
  [sum64 [x0 *! x0];
   sum64 [x0 *! (x1 <<! 1)];
   sum64 [x0 *! (x2 <<! 1); x1 *! (x1 <<! 1)];
   sum64 [x0 *! (x3 <<! 1); x1 *! (x2 <<! 1)];
   sum64 [x0 *! (x4 <<! 1); x1 *! (x3 <<! 2); x2 *! x2];
   sum64 [x0 *! (x5 <<! 1); x1 *! (x4 <<! 1); x2 *! (x3 <<! 1)];
   sum64 [x0 *! (x6 <<! 1); x1 *! (x5 <<! 2); x2 *! (x4 <<! 1); x3 *! (x3 <<! 1)];
   sum64 [x0 *! (x7 <<! 1); x1 *! (x6 <<! 1); x2 *! (x5 <<! 1); x3 *! (x4 <<! 1)];
   sum64 [x0 *! (x8 <<! 1); x1 *! (x7 <<! 2); x2 *! (x6 <<! 1); x3 *! (x5 <<! 2); x4 *! x4];
   sum64 [x1 *! (x8 <<! 1); x2 *! (x7 <<! 1); x3 *! (x6 <<! 1); x4 *! (x5 <<! 1)];
   sum64 [x2 *! (x8 <<! 1); x3 *! (x7 <<! 2); x4 *! (x6 <<! 1); x5 *! (x5 <<! 1)];
   sum64 [x3 *! (x8 <<! 1); x4 *! (x7 <<! 1); x5 *! (x6 <<! 1)];
   sum64 [x4 *! (x8 <<! 1); x5 *! (x7 <<! 2); x6 *! x6];
   sum64 [x5 *! (x8 <<! 1); x6 *! (x7 <<! 1)];
   sum64 [x6 *! (x8 <<! 1); x7 *! (x7 <<! 1)];
   sum64 [x7 *! (x8 <<! 1)];
   sum64 [x8 *! x8]]
  | _ => []
  end.

Definition felem_square (inp : list Z) : list Z := felem_reduce_degree (square_words inp).

Definition mul_words (inp in2 : list Z) : list Z :=
  match inp, in2 with
  | [x0; x1; x2; x3; x4; x5; x6; x7; x8], [y0; y1; y2; y3; y4; y5; y6; y7; y8] =>
  [sum64 [x0 *! y0];
   sum64 [x0 *! (y1 <<! 0); x1 *! (y0 <<! 0)];
   sum64 [x0 *! (y2 <<! 0); x1 *! (y1 <<! 1); x2 *! (y0 <<! 0)];
   sum64 [x0 *! (y3 <<! 0); x1 *! (y2 <<! 0); x2 *! (y1 <<! 0); x3 *! (y0 <<! 0)];
   sum64 [x0 *! (y4 <<! 0); x1 *! (y3 <<! 1); x2 *! (y2 <<! 0); x3 *! (y1 <<! 1);
          x4 *! (y0 <<! 0)];
   sum64 [x0 *! (y5 <<! 0); x1 *! (y4 <<! 0); x2 *! (y3 <<! 0); x3 *! (y2 <<! 0);
          x4 *! (y1 <<! 0); x5 *! (y0 <<! 0)];
   sum64 [x0 *! (y6 <<! 0); x1 *! (y5 <<! 1); x2 *! (y4 <<! 0); x3 *! (y3 <<! 1);
          x4 *! (y2 <<! 0); x5 *! (y1 <<! 1); x6 *! (y0 <<! 0)];
   sum64 [x0 *! (y7 <<! 0); x1 *! (y6 <<! 0); x2 *! (y5 <<! 0); x3 *! (y4 <<! 0);
          x4 *! (y3 <<! 0); x5 *! (y2 <<! 0); x6 *! (y1 <<! 0); x7 *! (y0 <<! 0)];
   sum64 [x0 *! (y8 <<! 0); x1 *! (y7 <<! 1); x2 *! (y6 <<! 0); x3 *! (y5 <<! 1);
          x4 *! (y4 <<! 0); x5 *! (y3 <<! 1); x6 *! (y2 <<! 0); x7 *! (y1 <<! 1);
          x8 *! (y0 <<! 0)];
   sum64 [x1 *! (y8 <<! 0); x2 *! (y7 <<! 0); x3 *! (y6 <<! 0); x4 *! (y5 <<! 0);
          x5 *! (y4 <<! 0); x6 *! (y3 <<! 0); x7 *! (y2 <<! 0); x8 *! (y1 <<! 0)];
   sum64 [x2 *! (y8 <<! 0); x3 *! (y7 <<! 1); x4 *! (y6 <<! 0); x5 *! (y5 <<! 1);
          x6 *! (y4 <<! 0); x7 *! (y3 <<! 1); x8 *! (y2 <<! 0)];
   sum64 [x3 *! (y8 <<! 0); x4 *! (y7 <<! 0); x5 *! (y6 <<! 0); x6 *! (y5 <<! 0);
          x7 *! (y4 <<! 0); x8 *! (y3 <<! 0)];
   sum64 [x4 *! (y8 <<! 0); x5 *! (y7 <<! 1); x6 *! (y6 <<! 0); x7 *! (y5 <<! 1);
          x8 *! (y4 <<! 0)];
   sum64 [x5 *! (y8 <<! 0); x6 *! (y7 <<! 0); x7 *! (y6 <<! 0); x8 *! (y5 <<! 0)];
   sum64 [x6 *! (y8 <<! 0); x7 *! (y7 <<! 1); x8 *! (y6 <<! 0)];
   sum64 [x7 *! (y8 <<! 0); x8 *! (y7 <<! 0)];
   sum64 [x8 *! (y8 <<! 0)]]
  | _, _ => []
  end.

Definition felem_mul (inp in2 : list Z) : list Z := felem_reduce_degree (mul_words inp in2).

Definition felem_assign (inp : list Z) : list Z := inp.

(** [for (i = 0; i < n; i++) felem_square(ftmp, ftmp);] *)
Definition square_n (n : nat) (ftmp : list Z) : list Z := for_ 0 n (fun _ => felem_square) ftmp.

Definition felem_inv (inp : list Z) : list Z :=
  let ftmp := felem_square inp in
  let ftmp := felem_mul inp ftmp in
  let e2 := felem_assign ftmp in
  let ftmp := felem_square ftmp in
  let ftmp := felem_square ftmp in
  let ftmp := felem_mul ftmp e2 in
  let e4 := felem_assign ftmp in
  let ftmp := felem_square ftmp in
  let ftmp := felem_square ftmp in
  let ftmp := felem_square ftmp in
  let ftmp := felem_square ftmp in
  let ftmp := felem_mul ftmp e4 in
  let e8 := felem_assign ftmp in
  let ftmp := square_n 8 ftmp in
  let ftmp := felem_mul ftmp e8 in
  let e16 := felem_assign ftmp in
  let ftmp := square_n 16 ftmp in
  let ftmp := felem_mul ftmp e16 in
  let e32 := felem_assign ftmp in
  let ftmp := square_n 32 ftmp in
  let e64 := felem_assign ftmp in
  let ftmp := felem_mul ftmp inp in
  let ftmp := square_n 192 ftmp in
  let ftmp2 := felem_mul e64 e32 in
  let ftmp2 := square_n 16 ftmp2 in
  let ftmp2 := felem_mul ftmp2 e16 in
  let ftmp2 := square_n 8 ftmp2 in
  let ftmp2 := felem_mul ftmp2 e8 in
  let ftmp2 := square_n 4 ftmp2 in
  let ftmp2 := felem_mul ftmp2 e4 in
  let ftmp2 := felem_square ftmp2 in
  let ftmp2 := felem_square ftmp2 in
  let ftmp2 := felem_mul ftmp2 e2 in
  let ftmp2 := felem_square ftmp2 in
  let ftmp2 := felem_square ftmp2 in
  let ftmp2 := felem_mul ftmp2 inp in
  felem_mul ftmp2 ftmp.

Definition felem_scalar_3 (out : list Z) : list Z :=
  let '(out, carry) := carry_chain true 0 (map (fun x => u32 (x * 3)) out) in
  felem_reduce_carry out carry.

(** The loop shared by felem_scalar_4 ([s = 2]) and felem_scalar_8 ([s = 3]). *)
Fixpoint scalar_chain (s : Z) (even : bool) (carry : Z) (xs : list Z) : list Z * Z :=
  match xs with
  | [] => ([], carry)
  | x :: xs =>
      let next_carry := x >> (width even - s) in
      let x := u32 (x << s) .& kBottom even in
      let x := u32 (x + carry) in
      let carry := u32 (next_carry + (x >> width even)) in
      let '(r, c) := scalar_chain s (negb even) carry xs in
      ((x .& kBottom even) :: r, c)
  end.

Definition felem_scalar_4 (out : list Z) : list Z :=
  let '(out, carry) := scalar_chain 2 true 0 out in felem_reduce_carry out carry.

Definition felem_scalar_8 (out : list Z) : list Z :=
  let '(out, carry) := scalar_chain 3 true 0 out in felem_reduce_carry out carry.

(** The [do ... while (carry)] loop, cut after [fuel] iterations; [None] when
    it has not ended by then. *)
Fixpoint minimal_form (fuel : nat) (tmp : list Z) : option (list Z) :=
  match fuel with
  | O => None
  | S k =>
      let '(tmp, carry) := carry_chain true 0 tmp in
      let tmp := felem_reduce_carry tmp carry in
      if carry =? 0 then Some tmp else minimal_form k tmp
  end.

(** Three iterations are enough (theorem [felem_is_zero_correct]). *)
Definition felem_is_zero_vartime (inp : list Z) : bool :=
  match minimal_form 3 (felem_assign inp) with
  | Some tmp => bool_decide (tmp = kZero) || bool_decide (tmp = kP) || bool_decide (tmp = k2P)
  | None => false
  end.

(** * Values and bounds *)

(** The value of limbs, the first of them at an even or an odd position. *)
Fixpoint feval (even : bool) (l : list Z) : Z :=
  match l with
  | [] => 0
  | x :: l => x + 2 ^ width even * feval (negb even) l
  end.

(** Limbs of at most [d] bits more than their width. *)
Fixpoint limbs (d : Z) (even : bool) (l : list Z) : Prop :=
  match l with
  | [] => True
  | x :: l => 0 <= x < 2 ^ (width even + d) /\ limbs d (negb even) l
  end.

(** The bits [n] limbs span. *)
Fixpoint span (even : bool) (n : nat) : Z :=
  match n with
  | O => 0
  | S n => width even + span (negb even) n
  end.

(** The bounds the comments promise on entry and on exit of the operations,
    and a tighter one on the top limb, which felem_scalar_8 needs
    ([scalar_8_needs_top_limb]) and every operation establishes. *)
Definition fe_ok (l : list Z) : Prop :=
  length l = NLIMBS /\ l !!! 8%nat < 2 ^ 29 /\ limbs 1 true l.

Abbreviation fval := (feval true).

(** The Montgomery radix, [R = 2**257]. *)
Definition fR : Z := 2 ^ 257.

(** * Lemmas *)

Lemma width_pos even : 0 < width even.
Proof. by destruct even. Qed.

Lemma kBottom_mod even x : (x .& kBottom even) = x mod 2 ^ width even.
Proof. destruct even; [exact (Z.land_ones x 29 ltac:(lia)) | exact (Z.land_ones x 28 ltac:(lia))]. Qed.

Lemma width_pow even : 2 ^ 28 <= 2 ^ width even <= 2 ^ 29.
Proof. destruct even; cbn [width]; lia. Qed.

(** The sums of a carry chain stay in 32 bits. *)
Fixpoint chain_ok (even : bool) (c : Z) (xs : list Z) : Prop :=
  match xs with
  | [] => True
  | x :: xs => 0 <= x + c < 2 ^ 32 /\ chain_ok (negb even) ((x + c) / 2 ^ width even) xs
  end.

Lemma span_nonneg even n : 0 <= span even n.
Proof.
  revert even. induction n as [|n IH]; intros even; cbn [span]; [done|].
  pose proof (width_pos even). specialize (IH (negb even)). lia.
Qed.

Lemma carry_chain_spec even c xs r k :
  chain_ok even c xs -> 0 <= c -> carry_chain even c (map u32 xs) = (r, k) ->
  limbs 0 even r /\ length r = length xs /\ 0 <= k
  /\ feval even r + 2 ^ span even (length xs) * k = c + feval even xs
  /\ match xs with [] => True | _ :: xs' =>
       k * 2 ^ width (xorb even (Nat.odd (length xs'))) < 2 ^ 32 end.
Proof.
  revert even c r k. induction xs as [|x xs IH]; intros even c r k Hok Hc E; cbn [map carry_chain] in E.
  - injection E as <- <-. cbn. split_and!; (done || lia).
  - destruct Hok as [Hx Hok]. cbv zeta in E. rewrite u32_add_l, u32_small in E by (unfold is_word; lia).
    rewrite Z.shiftr_div_pow2, kBottom_mod in E by (pose proof (width_pos even); lia).
    destruct (carry_chain (negb even) _ _) as [r' k'] eqn:E'. injection E as <- <-.
    pose proof (width_pow even) as Hw. pose proof (Z.div_mod (x + c) (2 ^ width even) ltac:(lia)) as Ed.
    pose proof (Z.mod_pos_bound (x + c) (2 ^ width even) ltac:(lia)) as Em.
    pose proof E' as E2.
    apply IH in E' as (Hr & Hl & Hk & Ev & Hb); [|done|apply Z.div_pos; lia].
    cbn [limbs length feval span]. rewrite Z.add_0_r. split_and!; [lia..|done|lia|lia| |].
    + rewrite Z.pow_add_r by (pose proof (width_pos even); pose proof (span_nonneg (negb even) (length xs)); lia). nia.
    + destruct xs as [|y xs].
      * cbn [map carry_chain] in E2. injection E2 as _ <-. cbn. rewrite xorb_false_r. lia.
      * cbn [length]. rewrite Nat.odd_succ, <- Nat.negb_odd.
        by destruct even, (Nat.odd (length xs)).
Qed.

(** Limbs with room above them carry without wrapping. *)
Lemma chain_ok_small even c xs :
  Forall (fun x => 0 <= x < 2 ^ 32 - 16) xs -> 0 <= c < 16 -> chain_ok even c xs.
Proof.
  intros H. revert even c. induction H as [|x xs Hx _ IH]; intros even c Hc; cbn [chain_ok]; [done|].
  split; [lia|]. apply IH. pose proof (width_pow even).
  split; [apply Z.div_pos; lia|]. apply Z.div_lt_upper_bound; [lia|]. nia.
Qed.

(** One bound per limb. *)
Ltac split_limbs Hb :=
  cbn [limbs negb width] in Hb;
  repeat match type of Hb with _ /\ _ => let H1 := fresh "B" in destruct Hb as [H1 Hb] end; clear Hb.

(** Name the nine limbs of an element. *)
Ltac name_limbs l Hl :=
  destruct l as [|?x [|?x [|?x [|?x [|?x [|?x [|?x [|?x [|?x [|]]]]]]]]]]; try discriminate Hl; clear Hl.

Lemma NON_ZERO_spec x : 0 <= x < 2 ^ 31 -> NON_ZERO_TO_ALL_ONES x = mask_of (negb (x =? 0)).
Proof.
  intros Hx. unfold NON_ZERO_TO_ALL_ONES. rewrite (u32_small x) by (unfold is_word; lia).
  destruct (Z.eqb_spec x 0) as [->|H]; [done|]. rewrite (u32_small (x - 1)) by (unfold is_word; lia).
  rewrite Z.shiftr_div_pow2, Z.div_small by lia. done.
Qed.

(** A term that is there when [x] is not zero. *)
Lemma masked_term e x :
  is_word 32 e -> 0 <= x < 2 ^ 31 -> (e .& NON_ZERO_TO_ALL_ONES x) = Z.b2z (negb (x =? 0)) * e.
Proof. intros He Hx. rewrite NON_ZERO_spec by done. by apply mask_digit. Qed.

(** Equality of lists of limbs, one side of it sums modulo 2**32. *)
Ltac limbs_eq :=
  repeat (refine (f_equal2 cons _ _);
          [first [reflexivity
                 | autorewrite with pull_words; rewrite u32_small by (unfold is_word; lia); lia]|]);
  reflexivity.

Lemma felem_reduce_carry_limbs x0 x1 x2 x3 x4 x5 x6 x7 x8 c :
  limbs 0 true [x0; x1; x2; x3; x4; x5; x6; x7; x8] -> 0 <= c <= 8 ->
  let b := Z.b2z (negb (c =? 0)) in
  felem_reduce_carry [x0; x1; x2; x3; x4; x5; x6; x7; x8] c =
    [x0 + 2 * c; x1; x2; x3 + 2 ^ 28 * b - 2 ^ 11 * c; x4 + (2 ^ 29 - 1) * b; x5 + (2 ^ 28 - 1) * b;
     x6 + (2 ^ 29 - 1) * b - 2 ^ 22 * c; x7 - b + 2 ^ 25 * c; x8].
Proof.
  intros Hb Hc b. split_limbs Hb.
  unfold felem_reduce_carry, addw, subw.
  rewrite !masked_term by (unfold is_word; lia). fold b. rewrite !Z.shiftl_mul_pow2 by lia.
  assert (0 <= b <= 1 /\ (c = 0 -> b = 0) /\ (c <> 0 -> b = 1)) as (Hb1 & Hb2 & Hb3).
  { subst b. destruct (Z.eqb_spec c 0); cbn; lia. }
  cbn [insert list_insert lookup_total list_lookup_total].
  limbs_eq.
Qed.

(** A carry out of nine limbs, brought back below 2**257. *)
Lemma felem_reduce_carry_spec l c :
  length l = NLIMBS -> limbs 0 true l -> 0 <= c <= 8 ->
  fe_ok (felem_reduce_carry l c) /\ fval (felem_reduce_carry l c) = fval l + fR * c - 2 * p_value * c
  /\ (c = 0 -> felem_reduce_carry l c = l).
Proof.
  intros Hl Hb Hc. name_limbs l Hl. rewrite felem_reduce_carry_limbs by done. split_limbs Hb.
  set (b := Z.b2z (negb (c =? 0))).
  assert (0 <= b <= 1 /\ (c = 0 -> b = 0) /\ (c <> 0 -> b = 1)) as (Hb1 & Hb2 & Hb3).
  { subst b. destruct (Z.eqb_spec c 0); cbn; lia. }
  clearbody b. split; [|split].
  - split; [done|]. split; [cbn [lookup_total list_lookup_total]; lia|].
    cbn [limbs negb width]. split_and!; (done || lia).
  - cbn [feval negb width]. unfold fR, p_value. cbn [le_eval SECP256r1_p].
    change (u32 (-1)) with (2 ^ 32 - 1). lia.
  - intros ->. rewrite (Hb2 eq_refl). repeat (refine (f_equal2 cons _ _); [lia|]). done.
Qed.

Lemma reduce_carry_eqm l c k : fval l + fR * c - 2 * p_value * c = k -> k =[p_value] fval l + fR * c.
Proof. intros <-. apply eqm_add_multiple with (-2 * c). ring. Qed.

(** Elements whose value fits [2 ** 257], or whose low limb is tight. *)
Definition top_safe (l : list Z) : Prop := l !!! 0%nat < 2 ^ 29 \/ fval l < fR.

(** A carry chain over nine sums, then the reduction of its carry. *)
Lemma chain_reduce_spec xs :
  length xs = NLIMBS -> chain_ok true 0 xs ->
  let r := let '(out, carry) := carry_chain true 0 (map u32 xs) in felem_reduce_carry out carry in
  fe_ok r /\ fval r =[p_value] fval xs /\ (fval xs < fR + 2 * p_value -> top_safe r).
Proof.
  intros Hl Hok. destruct (carry_chain true 0 (map u32 xs)) as [r k] eqn:E. cbv zeta.
  apply carry_chain_spec in E as (Hr & Hlr & Hk & Ev & Hb); [|done|lia]. rewrite Hl in *.
  destruct xs as [|x xs]; [done|]. injection Hl as Hl. rewrite Hl in Hb. cbn in Hb.
  destruct (felem_reduce_carry_spec r k) as (H1 & H2 & H3); [done..|lia|]. split; [done|].
  change (2 ^ span true NLIMBS) with fR in Ev. split.
  - rewrite (reduce_carry_eqm r k _ (eq_sym H2)). apply eqm_eq_refl. lia.
  - intros Hx. destruct (Z.eq_dec k 0) as [->|Hk0].
    + left. rewrite H3 by done. name_limbs r Hlr. split_limbs Hr. cbn [lookup_total list_lookup_total]. lia.
    + right. rewrite H2.
      assert (0 <= fval r) by (name_limbs r Hlr; split_limbs Hr; cbn [feval negb width]; lia).
      assert (p_value = 2 ^ 256 - 2 ^ 224 + 2 ^ 192 + 2 ^ 96 - 1) by reflexivity. unfold fR in *. nia.
Qed.

(** Name the limbs of an element and their bounds. *)
Ltac open_fe H :=
  let Hl := fresh in let Ht := fresh in let Hb := fresh in
  destruct H as (Hl & Ht & Hb); match type of Hl with length ?l = _ => name_limbs l Hl end;
  cbn [lookup_total list_lookup_total] in Ht; split_limbs Hb.

(** Apply [chain_reduce_spec] to the chain of the goal, over the sums [xs]. *)
Ltac chain_reduce xs :=
  match goal with |- context [carry_chain true 0 ?l] =>
    change l with (map u32 xs);
    let H1 := fresh in let H2 := fresh in
    destruct (chain_reduce_spec xs) as (H1 & H2 & _);
      [reflexivity
      |apply chain_ok_small; [repeat constructor; lia|lia]
      |split; [exact H1|etransitivity; [exact H2|]]]
  end.

Lemma felem_sum_spec a b :
  fe_ok a -> fe_ok b -> fe_ok (felem_sum a b) /\ fval (felem_sum a b) =[p_value] fval a + fval b.
Proof.
  intros Ha Hb. unfold felem_sum. open_fe Ha. open_fe Hb. cbn [zip_with].
  chain_reduce [x + x8; x0 + x9; x1 + x10; x2 + x11; x3 + x12; x4 + x13; x5 + x14; x6 + x15; x7 + x16].
  apply eqm_eq_refl. cbn [feval]. ring.
Qed.

Lemma zero31_zero : fval zero31 =[p_value] 0.
Proof. apply eqm_eq; [done|reflexivity]. Qed.

Lemma zero31_limbs : zero31 = [0x7ffffff8; 0x3ffffffc; 0x7ffffffc; 0x40001ffc; 0x7ffffffc; 0x3ffffffc; 0x80fffffc; 0x37fffffc; 0x7ffffffc].
Proof. reflexivity. Qed.

Lemma felem_diff_spec a b :
  fe_ok a -> fe_ok b -> fe_ok (felem_diff a b) /\ fval (felem_diff a b) =[p_value] fval a - fval b.
Proof.
  intros Ha Hb. assert (fval a - fval b =[p_value] fval a - fval b + fval zero31) as ->.
  { rewrite zero31_zero. by rewrite Z.add_0_r. }
  unfold felem_diff. rewrite zero31_limbs. open_fe Ha. open_fe Hb. cbn [zip_with]. rewrite !u32_add_l.
  chain_reduce [x - x8 + 0x7ffffff8; x0 - x9 + 0x3ffffffc; x1 - x10 + 0x7ffffffc; x2 - x11 + 0x40001ffc; x3 - x12 + 0x7ffffffc; x4 - x13 + 0x3ffffffc; x5 - x14 + 0x80fffffc; x6 - x15 + 0x37fffffc; x7 - x16 + 0x7ffffffc].
  apply eqm_eq_refl. cbn [feval]. ring.
Qed.

Lemma felem_scalar_3_spec a :
  fe_ok a -> fe_ok (felem_scalar_3 a) /\ fval (felem_scalar_3 a) =[p_value] 3 * fval a.
Proof.
  intros Ha. unfold felem_scalar_3. open_fe Ha. cbn [map].
  chain_reduce [x * 3; x0 * 3; x1 * 3; x2 * 3; x3 * 3; x4 * 3; x5 * 3; x6 * 3; x7 * 3].
  apply eqm_eq_refl. cbn [feval]. ring.
Qed.

(** One limb of the scalar loops. *)
Lemma scalar_limb s w x c :
  0 < s < 4 -> w = 28 \/ w = 29 -> 0 <= x < 2 ^ (w + 1) -> 0 <= c <= 2 ^ (s + 1) ->
  let x' := u32 (u32 (x * 2 ^ s) mod 2 ^ w + c) in
  let next := u32 (x / 2 ^ (w - s) + x' / 2 ^ w) in
  0 <= next <= 2 ^ (s + 1) /\ 2 ^ s * x + c = x' mod 2 ^ w + 2 ^ w * next.
Proof.
  intros Hs Hw Hx Hc x' next.
  assert (E : u32 (x * 2 ^ s) mod 2 ^ w = 2 ^ s * (x mod 2 ^ (w - s))).
  { rewrite u32_mod, <- Znumtheory.Zmod_div_mod;
      [|lia|lia|exists (2 ^ (32 - w)); rewrite <- Z.pow_add_r by lia; f_equal; lia].
    replace (2 ^ w) with (2 ^ s * 2 ^ (w - s)) by (rewrite <- Z.pow_add_r by lia; f_equal; lia).
    by rewrite Z.mul_comm, Z.mul_mod_distr_l by lia. }
  subst next x'. rewrite E. clear E.
  replace (2 ^ (w + 1)) with (2 ^ (w - s) * 2 ^ (s + 1)) in Hx by (rewrite <- Z.pow_add_r by lia; f_equal; lia).
  pose proof (Z.div_mod x (2 ^ (w - s)) ltac:(lia)) as Ex.
  pose proof (Z.mod_pos_bound x (2 ^ (w - s)) ltac:(lia)) as Hm.
  pose proof (Z.div_lt_upper_bound x (2 ^ (w - s)) (2 ^ (s + 1)) ltac:(lia) ltac:(lia)) as Hd.
  pose proof (Z.div_pos x (2 ^ (w - s)) ltac:(lia) ltac:(lia)) as Hd0.
  set (d := x / 2 ^ (w - s)) in *. set (e := x mod 2 ^ (w - s)) in *. clearbody d e.
  assert (Hp : 2 ^ w = 2 ^ s * 2 ^ (w - s)) by (rewrite <- Z.pow_add_r by lia; f_equal; lia).
  assert (Hw2 : 2 ^ 28 <= 2 ^ w <= 2 ^ 29) by (destruct Hw as [-> | ->]; lia).
  assert (Hs2 : 2 ^ (s + 1) = 2 * 2 ^ s) by (rewrite Z.pow_add_r by lia; lia).
  assert (Hs3 : 2 <= 2 ^ s <= 8) by (assert (s = 1 \/ s = 2 \/ s = 3) as [-> | [-> | ->]] by lia; lia).
  rewrite (u32_small (2 ^ s * e + c)) by (unfold is_word; nia).
  pose proof (Z.div_mod (2 ^ s * e + c) (2 ^ w) ltac:(lia)) as Ef.
  assert (Hf : 0 <= (2 ^ s * e + c) / 2 ^ w < 2).
  { split; [apply Z.div_pos; nia|]. apply Z.div_lt_upper_bound; [lia|]. nia. }
  rewrite u32_small by (unfold is_word; lia). split; [lia|].
  rewrite Ex at 1. nia.
Qed.

(** The loop of felem_scalar_4 and felem_scalar_8. *)
Lemma scalar_chain_spec s even c xs r k :
  0 < s < 4 -> limbs 1 even xs -> 0 <= c <= 2 ^ (s + 1) -> scalar_chain s even c xs = (r, k) ->
  limbs 0 even r /\ length r = length xs /\ 0 <= k
  /\ feval even r + 2 ^ span even (length xs) * k = c + 2 ^ s * feval even xs.
Proof.
  intros Hs. revert even c r k. induction xs as [|x xs IH]; intros even c r k Hb Hc E; cbn [scalar_chain] in E.
  - injection E as <- <-. cbn. split_and!; (done || lia).
  - destruct Hb as [Hx Hb]. assert (width even = 28 \/ width even = 29) as Hw by (destruct even; cbn; lia).
    cbn [span length feval limbs]. set (w := width even) in *. cbv zeta in E.
    rewrite !kBottom_mod, Z.shiftl_mul_pow2, !Z.shiftr_div_pow2 in E by lia. fold w in E.
    destruct (scalar_limb s w x c) as [Hn Ev]; [done..|]. cbv zeta in Hn, Ev.
    destruct (scalar_chain s _ _ xs) as [r' k'] eqn:E'. injection E as <- <-.
    apply IH in E' as (Hr & Hlr & Hk & E'); [|done..]. cbn [length].
    match goal with |- context [?e mod 2 ^ w] => pose proof (Z.mod_pos_bound e (2 ^ w) ltac:(lia)) end.
    cbn [limbs feval]. fold w. replace (w + 0) with w by lia. split_and!; [lia..|done|lia|lia|].
    rewrite Z.pow_add_r by (pose proof (span_nonneg (negb even) (length xs)); lia). nia.
Qed.

Lemma scalar_reduce_spec s a :
  0 < s < 4 -> fe_ok a ->
  let r := let '(out, carry) := scalar_chain s true 0 a in felem_reduce_carry out carry in
  fe_ok r /\ fval r =[p_value] 2 ^ s * fval a.
Proof.
  intros Hs Ha. destruct (scalar_chain s true 0 a) as [r k] eqn:E. cbv zeta.
  assert (0 <= fval a < fR + 2 ^ 230) as Hv by (open_fe Ha; cbn [feval negb width]; unfold fR; lia).
  apply scalar_chain_spec in E as (Hr & Hlr & Hk & Ev); [|done|apply Ha|lia].
  destruct Ha as [Hl _]. rewrite Hl in *. change (2 ^ span true NLIMBS) with fR in Ev.
  assert (0 <= fval r) by (name_limbs r Hlr; split_limbs Hr; cbn [feval negb width]; lia).
  assert (2 <= 2 ^ s <= 8) by (assert (s = 1 \/ s = 2 \/ s = 3) as [-> | [-> | ->]] by lia; lia).
  destruct (felem_reduce_carry_spec r k) as (H1 & H2 & _); [done..|unfold fR in *; nia|]. split; [done|].
  rewrite (reduce_carry_eqm r k _ (eq_sym H2)). apply eqm_eq_refl. lia.
Qed.

Lemma felem_scalar_4_spec a :
  fe_ok a -> fe_ok (felem_scalar_4 a) /\ fval (felem_scalar_4 a) =[p_value] 4 * fval a.
Proof. by apply (scalar_reduce_spec 2). Qed.

Lemma felem_scalar_8_spec a :
  fe_ok a -> fe_ok (felem_scalar_8 a) /\ fval (felem_scalar_8 a) =[p_value] 8 * fval a.
Proof. by apply (scalar_reduce_spec 3). Qed.

(** ** The 64-bit words of a product *)

(** [t] is the value [v] of a term, below [2 ^ e]. *)
Definition term_ok (e t v : Z) : Prop := t = v /\ 0 <= v < 2 ^ e.

Lemma sum64_spec e l vs :
  Forall2 (term_ok e) l vs -> Z.of_nat (length l) * 2 ^ e < 2 ^ 64 ->
  sum64 l = foldr Z.add 0 vs /\ 0 <= foldr Z.add 0 vs < 2 ^ 64.
Proof.
  intros H Hl. destruct H as [|t v l vs [-> Hv] H]; cbn [sum64 foldr]; [lia|].
  assert (Hn : v + Z.of_nat (length l) * 2 ^ e < 2 ^ 64) by (cbn [length] in Hl; lia).
  apply proj1 in Hv. clear Hl. revert v Hn Hv. induction H as [|t w l vs [-> Hw] H IH]; intros v Hn Hv;
    cbn [fold_left foldr length] in *; [lia|].
  rewrite u64_small by (unfold is_word; nia).
  destruct (IH (v + w)) as [E Hb]; [lia..|]. rewrite E. lia.
Qed.

Lemma shl32_spec y s b : 0 <= s -> 0 <= y < b -> b * 2 ^ s <= 2 ^ 32 ->
  (y <<! s) = y * 2 ^ s /\ 0 <= y * 2 ^ s < b * 2 ^ s.
Proof.
  intros Hs Hy Hb. unfold shl32. rewrite Z.shiftl_mul_pow2 by done.
  rewrite u32_small by (unfold is_word; nia). nia.
Qed.

Lemma mul_term e x y bx b :
  0 <= x < bx -> 0 <= y < b -> bx * b <= 2 ^ e -> e <= 64 -> term_ok e (x *! y) (x * y).
Proof.
  intros Hx Hy Hb He. assert (0 <= x * y < 2 ^ e) by nia.
  split; [|done]. unfold mul64. by rewrite u64_small by (by apply is_word_le with e).
Qed.

Lemma mul_shl_term e s x y bx b :
  0 <= x < bx -> 0 <= y < b -> 0 <= s -> b * 2 ^ s <= 2 ^ 32 -> bx * (b * 2 ^ s) <= 2 ^ e -> e <= 64 ->
  term_ok e (x *! (y <<! s)) (x * (y * 2 ^ s)).
Proof.
  intros Hx Hy Hs Hb1 Hb2 He. destruct (shl32_spec y s b) as [E Hb]; [done..|]. rewrite E.
  by apply mul_term with bx (b * 2 ^ s).
Qed.

Ltac term_tac :=
  first [eapply mul_shl_term | eapply mul_term];
  lazymatch goal with
  | |- 0 <= ?x < _ => eassumption
  | |- _ => cbv; discriminate
  end.

(** The sum of the terms of one word, and its bound. *)
Ltac word_tac e :=
  match goal with |- context [sum64 ?l] =>
    let H := fresh in
    eassert (H : Forall2 (term_ok e) l _) by (repeat first [apply Forall2_nil_2 | apply Forall2_cons_2; [term_tac|]]);
    apply sum64_spec in H; [|cbn [length]; lia]; destruct H as [-> H]; cbn [foldr] in H |- *
  end.

(** What felem_reduce_degree needs of its argument: the entry condition of
    its comment, and a smaller top word ([reduce_degree_needs_top_word]). *)
Definition wide_ok (ts : list Z) : Prop :=
  length ts = 17%nat /\ ts !!! 16%nat < 2 ^ 60 /\ words 64 ts.

Ltac words_tac e :=
  change (29 + 1) with 30 in *; change (28 + 1) with 29 in *; repeat word_tac e;
  split; [split; [reflexivity|]; split;
    [cbn [lookup_total list_lookup_total]; nia
    |repeat (apply Forall_cons_2; [unfold is_word; lia|]); apply Forall_nil_2]
  |cbn [feval negb width]; ring].

Lemma mul_words_spec a b :
  fe_ok a -> fe_ok b -> wide_ok (mul_words a b) /\ fval (mul_words a b) = fval a * fval b.
Proof. intros Ha Hb. open_fe Ha. open_fe Hb. unfold mul_words. words_tac 60. Qed.

Lemma square_words_spec a :
  fe_ok a -> wide_ok (square_words a) /\ fval (square_words a) = fval a * fval a.
Proof. intros Ha. open_fe Ha. unfold square_words. words_tac 61. Qed.

(** ** From overlapping 64-bit words to limbs *)

(** The three parts of a 64-bit word that lie in consecutive limbs. *)
Definition lo_ (even : bool) (t : Z) : Z := t mod 2 ^ width even.
Definition mid_ (even : bool) (t : Z) : Z := t / 2 ^ width even mod 2 ^ width (negb even).
Definition hi_ (t : Z) : Z := t / 2 ^ 57.

Lemma parts_spec even t :
  is_word 64 t ->
  t = lo_ even t + 2 ^ width even * (mid_ even t + 2 ^ width (negb even) * hi_ t)
  /\ 0 <= lo_ even t < 2 ^ width even /\ 0 <= mid_ even t < 2 ^ width (negb even) /\ 0 <= hi_ t < 2 ^ 7.
Proof.
  intros [Ht Ht']. unfold lo_, mid_, hi_.
  pose proof (width_pow even). pose proof (width_pow (negb even)).
  replace (2 ^ 57) with (2 ^ width even * 2 ^ width (negb even)) by (by destruct even).
  rewrite <- Z.div_div by lia.
  pose proof (Z.div_mod t (2 ^ width even) ltac:(lia)) as E1.
  pose proof (Z.div_mod (t / 2 ^ width even) (2 ^ width (negb even)) ltac:(lia)) as E2.
  split; [lia|]. split; [apply Z.mod_pos_bound; lia|]. split; [apply Z.mod_pos_bound; lia|].
  rewrite Z.div_div by lia. split; [apply Z.div_pos; nia|]. apply Z.div_lt_upper_bound; [nia|].
  replace (2 ^ width even * 2 ^ width (negb even)) with (2 ^ 57) by (by destruct even). lia.
Qed.

(** The middle part, from the two halves of the word. *)
Lemma mid_parts even t :
  is_word 64 t ->
  let s := 32 - width even in
  let a := u32 t / 2 ^ width even in
  let b := (u32 (t >> 32) << s) .& kBottom (negb even) in
  mid_ even t = a + b /\ is_word s a /\ (u32 (u32 (t >> 32) << s) .& kBottom (negb even)) = b
  /\ exists y, b = y << s.
Proof.
  intros [Ht Ht'] s a b. subst a b. rewrite !kBottom_mod, !Z.shiftl_mul_pow2, !u32_mod, Z.shiftr_div_pow2 by (subst s; destruct even; cbn; lia).
  assert (Hd : t / 2 ^ 32 mod 2 ^ 32 = t / 2 ^ 32).
  { apply Z.mod_small. split; [apply Z.div_pos; lia|apply Z.div_lt_upper_bound; lia]. }
  rewrite Hd. clear Hd. set (h := t / 2 ^ 32).
  assert (Es : 2 ^ 32 = 2 ^ width even * 2 ^ s) by (by subst s; destruct even).
  assert (Ew : 2 ^ width (negb even) = 2 ^ s * 2 ^ 25) by (by subst s; destruct even).
  assert (E1 : (h * 2 ^ s) mod 2 ^ width (negb even) = (h mod 2 ^ 25) * 2 ^ s).
  { rewrite Ew, (Z.mul_comm (2 ^ s)). apply Z.mul_mod_distr_r; subst s; destruct even; cbn; lia. }
  rewrite E1. pose proof (Z.mod_pos_bound t (2 ^ 32) ltac:(lia)) as Hm.
  pose proof (Z.div_mod t (2 ^ 32) ltac:(lia)) as Em. fold h in Em.
  pose proof (Z.mod_pos_bound h (2 ^ 25) ltac:(lia)) as Hh.
  pose proof (width_pow even) as Hw.
  assert (Hs : 2 ^ 3 <= 2 ^ s <= 2 ^ 4) by (subst s; destruct even; cbn; lia).
  set (l := t mod 2 ^ 32) in *.
  assert (Hl : 0 <= l / 2 ^ width even < 2 ^ s).
  { split; [apply Z.div_pos; lia|]. apply Z.div_lt_upper_bound; lia. }
  split_and!.
  - unfold mid_. rewrite Em, Es. 
    replace (2 ^ width even * 2 ^ s * h + l) with (l + h * 2 ^ s * 2 ^ width even) by ring.
    rewrite Z.div_add by lia. rewrite <- Zplus_mod_idemp_r, E1, Z.mod_small; [done|]. nia.
  - apply Hl.
  - rewrite <- Znumtheory.Zmod_div_mod; [done|rewrite Ew; lia|lia|].
    exists (2 ^ width even * 2 ^ s / 2 ^ width (negb even)). by subst s; destruct even.
  - exists (h mod 2 ^ 25). rewrite Z.shiftl_mul_pow2; [done|]. subst s; destruct even; cbn; lia.
Qed.

Lemma lo_limb even t : (u32 t .& kBottom even) = lo_ even t.
Proof.
  rewrite kBottom_mod, u32_mod. unfold lo_. pose proof (width_pow even).
  rewrite <- Znumtheory.Zmod_div_mod; [done|lia|lia|].
  exists (2 ^ 32 / 2 ^ width even). by destruct even.
Qed.

Lemma hi_limb t : is_word 64 t -> u32 (t >> 32) >> 25 = hi_ t.
Proof.
  intros [Ht Ht']. rewrite !Z.shiftr_div_pow2, u32_small by
    (lia || (split; [apply Z.div_pos; lia|apply Z.div_lt_upper_bound; lia])).
  unfold hi_. rewrite Z.div_div by lia. done.
Qed.

Lemma split_word_spec even t2 t1 t :
  is_word 64 t2 -> is_word 64 t1 ->
  split_word even t2 t1 t = u32 (hi_ t2 + mid_ (negb even) t1 + lo_ even t).
Proof.
  intros H2 H1. unfold split_word. rewrite hi_limb, (lo_limb even t) by done.
  pose proof (mid_parts (negb even) t1 H1) as M. cbv zeta in M. rewrite negb_involutive in M.
  destruct M as (E & _ & Eb & _).
  replace (if even then 4 else 3) with (32 - width (negb even)) by (by destruct even).
  rewrite Eb, Z.shiftr_div_pow2 by (by destruct even).
  autorewrite with pull_words.
  rewrite <- (Z.add_assoc (u32 _)), u32_add_l. f_equal. lia.
Qed.

(** The sums a limb starts from: the high part of the word two before it, the
    middle part of the word before it and the low part of its own. *)
Definition limb_sum (even : bool) (t2 t1 t : Z) : Z := hi_ t2 + mid_ (negb even) t1 + lo_ even t.

Lemma limb_sum_bound even t2 t1 t :
  is_word 64 t2 -> is_word 64 t1 -> is_word 64 t ->
  0 <= limb_sum even t2 t1 t < 2 ^ 31.
Proof.
  intros H2 H1 H. unfold limb_sum.
  destruct (parts_spec even t2 H2) as (_ & _ & _ & B2).
  destruct (parts_spec (negb even) t1 H1) as (_ & _ & B1 & _). rewrite negb_involutive in B1.
  destruct (parts_spec even t H) as (_ & B & _). pose proof (width_pow even). lia.
Qed.

(** Word 1 is computed with an [|=]. *)
Lemma split_word_1 t0 t1 :
  is_word 64 t0 ->
  u32 (((u32 t0 >> 29) .| (u32 (u32 (t0 >> 32) << 3) .& kBottom28Bits)) + (u32 t1 .& kBottom28Bits))
  = limb_sum false 0 t0 t1.
Proof.
  intros H0. destruct (mid_parts true t0 H0) as (E & Ha & Eb & y & Ey). cbn [width negb] in *.
  change (32 - 29) with 3 in *. change kBottom28Bits with (kBottom false). rewrite Eb, Ey, (lo_limb false).
  rewrite Z.shiftr_div_pow2, lor_add by (done || lia).
  rewrite Ey, Z.shiftl_mul_pow2 in E by lia.
  unfold limb_sum. cbn [negb]. change (hi_ 0) with 0.
  rewrite u32_small; [lia|]. unfold is_word.
  destruct (parts_spec true t0 H0) as (_ & _ & B1 & _). 
  pose proof (Z.mod_pos_bound t1 (2 ^ width false) ltac:(cbn; lia)) as B. unfold lo_. cbn [width negb] in *. lia.
Qed.

(** The sums all limbs start from. *)
Definition limb_sums (ts : list Z) : list Z :=
  limb_sum true 0 0 (ts !!! 0%nat) :: limb_sum false 0 (ts !!! 0%nat) (ts !!! 1%nat) ::
  map (fun i => limb_sum (Nat.even i) (ts !!! (i - 2)%nat) (ts !!! (i - 1)%nat) (ts !!! i)) (seq 2 15).
Definition top_sum (ts : list Z) : Z := hi_ (ts !!! 15%nat) + ts !!! 16%nat / 2 ^ 29.

(** Replace the word [t], of a position of that parity, by its parts. *)
Ltac take_parts even t :=
  match goal with H : is_word 64 t |- _ =>
    apply (parts_spec even) in H; apply proj1 in H; revert H;
    generalize (lo_ even t) (mid_ even t) (hi_ t); intros ??? H; subst t
  end.

Lemma limb_sums_value ts :
  wide_ok ts -> feval true (limb_sums ts) + 2 ^ span true 17 * top_sum ts = feval true ts.
Proof.
  intros (Hl & _ & Hw). do 17 (destruct ts as [|? ts]; [discriminate Hl|]). destruct ts; [|discriminate Hl].
  clear Hl. cbn [limb_sums map seq lookup_total list_lookup_total Nat.sub Nat.even].
  unfold limb_sums, top_sum, limb_sum. cbn [map seq lookup_total list_lookup_total Nat.sub Nat.even negb].
  inv_words.
  assert (T : forall t, t / 2 ^ 29 = (t - lo_ true t) / 2 ^ 29).
  { intros t. unfold lo_. change (width true) with 29. rewrite (Z.div_mod t (2 ^ 29)) at 2 by done.
    replace (2 ^ 29 * (t / 2 ^ 29) + t mod 2 ^ 29 - t mod 2 ^ 29) with (t / 2 ^ 29 * 2 ^ 29) by lia.
    by rewrite Z.div_mul. }
  rewrite T. clear T.
  change (hi_ 0) with 0. change (mid_ false 0) with 0.
  take_parts true z. take_parts false z0. take_parts true z1. take_parts false z2. take_parts true z3.
  take_parts false z4. take_parts true z5. take_parts false z6. take_parts true z7. take_parts false z8.
  take_parts true z9. take_parts false z10. take_parts true z11. take_parts false z12. take_parts true z13.
  take_parts false z14. take_parts true z15.
  cbn [width negb feval].
  match goal with |- context [(?l + ?w * ?e - ?l) / ?w] =>
    replace ((l + w * e - l) / w) with e by (replace (l + w * e - l) with (e * w) by ring; by rewrite Z.div_mul) end.
  change (span true 17) with 485. ring.
Qed.

Lemma top_sum_spec ts c :
  wide_ok ts ->
  u32 (u32 (u32 ((u32 (ts !!! 15%nat >> 32) >> 25) + (u32 (ts !!! 16%nat) >> 29))
            + u32 (u32 (ts !!! 16%nat >> 32) << 3)) + c) = u32 (top_sum ts + c).
Proof.
  intros (Hl & Ht & Hw). unfold top_sum.
  assert (is_word 64 (ts !!! 16%nat)) as [Hp _] by (by apply words_lookup_total).
  rewrite hi_limb by (by apply words_lookup_total). autorewrite with pull_words.
  set (t := ts !!! 16%nat) in *. clearbody t.
  rewrite <- (Z.add_assoc (u32 _)), u32_add_l. f_equal.
  pose proof (Z.div_mod t (2 ^ 32) ltac:(lia)) as E. pose proof (Z.mod_pos_bound t (2 ^ 32) ltac:(lia)) as B.
  assert (0 <= t / 2 ^ 32 < 2 ^ 28) by (split; [apply Z.div_pos; lia|apply Z.div_lt_upper_bound; lia]).
  rewrite !Z.shiftr_div_pow2, Z.shiftl_mul_pow2 by lia.
  rewrite (u32_small (t / 2 ^ 32)) by (unfold is_word; lia).
  rewrite u32_mod. set (h := t / 2 ^ 32) in *. set (l := t mod 2 ^ 32) in *. clearbody h l. subst t.
  replace (2 ^ 32 * h + l) with (l + (h * 2 ^ 3) * 2 ^ 29) by ring. rewrite Z.div_add by lia. lia.
Qed.

Lemma split_words_chain ts :
  wide_ok ts ->
  split_words ts = let '(ws, c) := carry_chain true 0 (map u32 (limb_sums ts)) in ws ++ [u32 (top_sum ts + c)].
Proof.
  intros Hts. pose proof Hts as (Hl & Ht & Hw).
  assert (P : forall i, is_word 64 (ts !!! i)) by (intros; by apply words_lookup_total).
  unfold split_words. rewrite split_word_1 by done. unfold limb_sums.
  rewrite (map_ext _ (fun i => u32 (limb_sum (Nat.even i) (ts !!! (i - 2)%nat) (ts !!! (i - 1)%nat) (ts !!! i))))
    by (intros; by apply split_word_spec).
  rewrite <- (map_map _ u32). generalize (map (fun i => limb_sum (Nat.even i) (ts !!! (i - 2)%nat) (ts !!! (i - 1)%nat) (ts !!! i)) (seq 2 15)).
  intros xs. cbn [map carry_chain negb].
  destruct (limb_sum_bound false 0 (ts !!! 0%nat) (ts !!! 1%nat)) as [B1 B2]; [done..|].
  rewrite (u32_small (limb_sum false _ _ _)) by (unfold is_word; lia).
  assert (E0 : limb_sum true 0 0 (ts !!! 0%nat) = lo_ true (ts !!! 0%nat)) by done. rewrite E0.
  destruct (parts_spec true (ts !!! 0%nat) (P 0%nat)) as (_ & B & _). change (width true) with 29 in B.
  rewrite (u32_small (lo_ _ _)), Z.add_0_r, (u32_small (lo_ _ _)) by (unfold is_word; lia).
  rewrite (Z.shiftr_div_pow2 (lo_ _ _)) by done. change (width true) with 29. rewrite Z.div_small, Z.add_0_r by lia.
  rewrite (u32_small (limb_sum _ _ _ _)) by (unfold is_word; lia). change (width false) with 28.
  destruct (carry_chain true _ (map u32 xs)) as [ws c] eqn:E. rewrite top_sum_spec by done.
  cbn [app]. f_equal. change kBottom29Bits with (kBottom true). rewrite !kBottom_mod.
  change (width true) with 29. rewrite (Z.mod_small (lo_ _ _)) by lia. apply u32_small. unfold is_word, lo_ in *. lia.
Qed.

Lemma feval_app even l1 l2 :
  feval even (l1 ++ l2)
  = feval even l1 + 2 ^ span even (length l1) * feval (xorb even (Nat.odd (length l1))) l2.
Proof.
  revert even. induction l1 as [|x l1 IH]; intros even; cbn [app feval length span].
  - rewrite xorb_false_r. lia.
  - rewrite IH, Z.pow_add_r by (pose proof (width_pos even); pose proof (span_nonneg (negb even) (length l1)); lia).
    rewrite Nat.odd_succ, <- Nat.negb_odd.
    replace (xorb (negb even) (Nat.odd (length l1))) with (xorb even (negb (Nat.odd (length l1)))) by
      (by destruct even, (Nat.odd (length l1))). ring.
Qed.

(** What elimination starts from: tight limbs but for the top one. *)
Lemma split_words_spec ts :
  wide_ok ts -> exists ws w17,
    split_words ts = ws ++ [w17] /\ length ws = 17%nat /\ limbs 0 true ws
    /\ 0 <= w17 < 2 ^ 31 + 2 ^ 8 /\ fval (split_words ts) = fval ts.
Proof.
  intros Hts. rewrite split_words_chain, <- (limb_sums_value ts) by done.
  pose proof Hts as (Hl & Ht & Hw).
  assert (P : forall i, is_word 64 (ts !!! i)) by (intros; by apply words_lookup_total).
  destruct (carry_chain true 0 (map u32 (limb_sums ts))) as [ws c] eqn:E.
  assert (Hlen : length (limb_sums ts) = 17%nat) by (unfold limb_sums; by rewrite !length_cons, length_map, length_seq).
  apply carry_chain_spec in E as (Hws & Hlw & Hc & Ev & Hb); [|apply chain_ok_small; [|lia]|lia].
  2: { assert (forall x, 0 <= x < 2 ^ 31 -> 0 <= x < 2 ^ 32 - 16) as Hlim by lia.
       unfold limb_sums. repeat apply Forall_cons_2; [apply Hlim, limb_sum_bound; done..|].
       apply Forall_nil_2. }
  rewrite Hlen in *.
  assert (c * 2 ^ 29 < 2 ^ 32) as Hc8 by (unfold limb_sums in Hb; by rewrite length_cons, length_map, length_seq in Hb).
  assert (0 <= top_sum ts < 2 ^ 31 + 2 ^ 7).
  { unfold top_sum. destruct (parts_spec true (ts !!! 15%nat) (P _)) as (_ & _ & _ & H15).
    assert (0 <= ts !!! 16%nat / 2 ^ 29 < 2 ^ 31).
    { destruct (P 16%nat). split; [apply Z.div_pos; lia|apply Z.div_lt_upper_bound; lia]. } lia. }
  rewrite u32_small by (unfold is_word; lia).
  exists ws, (top_sum ts + c). split_and!; [done|done|done|lia|lia|].
  rewrite feval_app, Hlw. cbn [feval]. lia.
Qed.

(** ** Montgomery elimination *)

Lemma lookup_app A l k : (A ++ l) !!! (length A + k)%nat = (l !!! k : Z).
Proof. rewrite lookup_total_app_r by lia. f_equal. lia. Qed.

Lemma addw_app A k e l : addw (length A + k) e (A ++ l) = A ++ addw k e l.
Proof. unfold addw. by rewrite insert_app_r, lookup_app. Qed.

Lemma subw_app A k e l : subw (length A + k) e (A ++ l) = A ++ subw k e l.
Proof. unfold subw. by rewrite insert_app_r, lookup_app. Qed.

Lemma lookup_app_0 A l : (A ++ l) !!! length A = (l !!! 0%nat : Z).
Proof. pose proof (lookup_app A l 0) as E. by rewrite Nat.add_0_r in E. Qed.

Lemma insert_app_0 A l (e : Z) : <[length A := e]> (A ++ l) = A ++ <[0%nat := e]> l.
Proof. pose proof (insert_app_r A l 0 e) as E. by rewrite Nat.add_0_r in E. Qed.

(** Elimination works in a window of ten words. *)
Lemma elim_even_app A l : elim_even (length A) (A ++ l) = A ++ elim_even 0 l.
Proof.
  unfold elim_even. cbv zeta.
  by repeat first [rewrite lookup_app_0 | rewrite insert_app_0 | rewrite lookup_app | rewrite addw_app | rewrite subw_app].
Qed.

Lemma elim_odd_app A l : elim_odd (length A) (A ++ l) = A ++ elim_odd 0 l.
Proof.
  unfold elim_odd. cbv zeta.
  by repeat first [rewrite lookup_app | rewrite insert_app_r | rewrite addw_app | rewrite subw_app].
Qed.

(** A shifted limb, cut at the width of the limb it starts in, and the rest. *)
Lemma shl_mask even s x : 0 <= s -> (u32 (x << s) .& kBottom even) = (x * 2 ^ s) mod 2 ^ width even.
Proof.
  intros Hs. rewrite kBottom_mod, u32_mod, Z.shiftl_mul_pow2 by done. pose proof (width_pow even).
  rewrite <- Znumtheory.Zmod_div_mod; [done|lia|lia|]. exists (2 ^ 32 / 2 ^ width even). by destruct even.
Qed.

Lemma shl_parts w s r x :
  w = s + r -> 0 <= s -> 0 <= r -> 0 <= x < 2 ^ 29 ->
  x * 2 ^ s = (x * 2 ^ s) mod 2 ^ w + 2 ^ w * (x / 2 ^ r)
  /\ 0 <= (x * 2 ^ s) mod 2 ^ w < 2 ^ w /\ 0 <= x / 2 ^ r <= x.
Proof.
  intros -> Hs Hr Hx. assert (0 < 2 ^ s * 2 ^ r) by lia.
  rewrite Z.pow_add_r by done. split; [|split].
  - rewrite (Z.mul_comm (2 ^ s)), Z.mul_mod_distr_r by lia. pose proof (Z.div_mod x (2 ^ r) ltac:(lia)). nia.
  - apply Z.mod_pos_bound. lia.
  - split; [apply Z.div_pos; lia|]. apply Z.div_le_upper_bound; nia.
Qed.

(** Sums in [u32] of terms that are there when [x] is not zero. *)
Lemma u32_masked v e x b :
  0 <= x < 2 ^ 31 -> b = Z.b2z (negb (x =? 0)) ->
  u32 (v + (u32 e .& NON_ZERO_TO_ALL_ONES x)) = u32 (v + b * e).
Proof.
  intros Hx ->. rewrite masked_term by (done || apply u32_range).
  destruct (negb _); cbn [Z.b2z]; [|f_equal; lia]. by rewrite !Z.mul_1_l, u32_add_r.
Qed.

Lemma u32_eqm x : u32 x =[2 ^ 32] x.
Proof. rewrite u32_mod. apply eqm_mod. Qed.

Lemma u32_congr x y : x =[2 ^ 32] y -> u32 x = u32 y.
Proof. intros H. rewrite !u32_mod. by apply eqm_eq. Qed.

(** Words that are sums, an [u32] around each of their parts. *)
Ltac words_eq :=
  repeat (refine (f_equal2 cons _ _);
          [first [reflexivity
                 | apply u32_congr; rewrite !u32_eqm; apply eqm_eq_refl; ring]|]);
  reflexivity.

(** Give names to the quotients and remainders of the context. *)
Ltac name_parts :=
  repeat match goal with
  | H : context [?a mod ?b] |- _ => generalize dependent (a mod b)
  | H : context [?a / ?b] |- _ => generalize dependent (a / b)
  end; intros.

Lemma p_value_pow2 : p_value = 2 ^ 256 - 2 ^ 224 + 2 ^ 192 + 2 ^ 96 - 1.
Proof. reflexivity. Qed.

(** The word [v0] eliminated: [c] is carried out of it and the other terms add
    a multiple of [p]; the bounds are those of the tables in the source. *)
Lemma elim_even_0 v0 v1 v2 v3 v4 v5 v6 v7 v8 v9 l :
  is_word 32 v0 ->
  exists c d3 d4 d6 d7 d8 d9 m,
    let r := v1 + c :: v2 :: v3 + d3 :: v4 + d4 :: v5 :: v6 + d6 :: v7 + d7 :: v8 + d8 :: v9 + d9 :: l in
    elim_even 0 (map u32 (v0 :: v1 :: v2 :: v3 :: v4 :: v5 :: v6 :: v7 :: v8 :: v9 :: l)) = 0 :: map u32 r
    /\ 2 ^ 29 * feval false r = feval true (v0 :: v1 :: v2 :: v3 :: v4 :: v5 :: v6 :: v7 :: v8 :: v9 :: l) + p_value * m
    /\ 0 <= m < 2 ^ 29
    /\ (2 ^ 29 * c <= v0 < 2 ^ 29 * c + 2 ^ 29)
    /\ (0 <= d3 < 2 ^ 28 /\ 0 <= d4 < 2 ^ 11 /\ 0 <= d6 < 2 ^ 29 /\ 0 <= d7 < 2 ^ 28 + 2 ^ 21)
    /\ (0 <= d8 < 2 ^ 30 /\ -1 <= d9 < 2 ^ 28 /\ 0 <= d8 + 2 ^ 29 * d9).
Proof.
  intros H. unfold elim_even, addw, subw. cbn [map Nat.add lookup_total list_lookup_total insert list_insert].
  rewrite (u32_small v0) by done.
  change kBottom29Bits with (kBottom true). change kBottom28Bits with (kBottom false).
  change 0x10000000 with (u32 0x10000000). change 0x20000000 with (u32 0x20000000).
  pose proof (kBottom_mod true v0) as Ex. change (width true) with 29 in Ex.
  set (x := v0 .& kBottom true) in *. rewrite !shl_mask by lia. cbn [width].
  assert (0 <= x < 2 ^ 29) as Hx by (rewrite Ex; apply Z.mod_pos_bound; done).
  pose proof (Z.div_mod v0 (2 ^ 29) ltac:(done)) as Ev. rewrite <- Ex in Ev.
  remember (Z.b2z (negb (x =? 0))) as b eqn:Eb.
  rewrite !(u32_masked _ _ x b) by (done || lia). rewrite !Z.shiftr_div_pow2 by lia.
  destruct (shl_parts 28 10 18 x) as (E10 & B10 & C10); [lia..|].
  destruct (shl_parts 29 21 8 x) as (E21 & B21 & C21); [lia..|].
  destruct (shl_parts 28 24 4 x) as (E24 & B24 & C24); [lia..|].
  destruct (shl_parts 29 28 1 x) as (E28 & B28 & C28); [lia..|].
  assert (0 <= b <= 1 /\ (x = 0 -> b = 0) /\ (x <> 0 -> b = 1)) as (Hb1 & Hb2 & Hb3).
  { subst b. destruct (Z.eqb_spec x 0); cbn; lia. }
  exists (v0 / 2 ^ 29), ((x * 2 ^ 10) mod 2 ^ 28), (x / 2 ^ 18), ((x * 2 ^ 21) mod 2 ^ 29),
    (x / 2 ^ 8 + b * 2 ^ 28 - (x * 2 ^ 24) mod 2 ^ 28),
    (b * (x - 1) - x / 2 ^ 4 + b * 2 ^ 29 - x + (x * 2 ^ 28) mod 2 ^ 29),
    (b * (x / 2 ^ 1 - 1)), x.
  cbv zeta. split; [cbn [map]; words_eq|].
  clearbody x. clear Ex Eb. name_parts.
  assert (x = 0 /\ b = 0 \/ 0 < x /\ b = 1) as [[-> ->]|[Hx0 ->]] by lia.
  - split; [cbn [feval negb width]; lia|]. lia.
  - split; [|lia]. rewrite p_value_pow2. cbn [feval negb width]. lia.
Qed.

Lemma elim_odd_0 e v0 v1 v2 v3 v4 v5 v6 v7 v8 v9 l :
  is_word 32 v0 ->
  exists c d3 d4 d6 d7 d8 d9 m,
    let r := v1 + c :: v2 :: v3 + d3 :: v4 + d4 :: v5 :: v6 + d6 :: v7 + d7 :: v8 + d8 :: v9 + d9 :: l in
    elim_odd 0 (e :: map u32 (v0 :: v1 :: v2 :: v3 :: v4 :: v5 :: v6 :: v7 :: v8 :: v9 :: l))
    = e :: 0 :: map u32 r
    /\ 2 ^ 28 * feval true r = feval false (v0 :: v1 :: v2 :: v3 :: v4 :: v5 :: v6 :: v7 :: v8 :: v9 :: l) + p_value * m
    /\ 0 <= m < 2 ^ 28
    /\ (2 ^ 28 * c <= v0 < 2 ^ 28 * c + 2 ^ 28)
    /\ (0 <= d3 < 2 ^ 29 /\ 0 <= d4 < 2 ^ 10 /\ 0 <= d6 < 2 ^ 28 /\ 0 <= d7 < 2 ^ 29 + 2 ^ 21)
    /\ (0 <= d8 < 2 ^ 28 /\ 0 <= d9 < 2 ^ 28).
Proof.
  intros H. unfold elim_odd, addw, subw. cbn [map Nat.add lookup_total list_lookup_total insert list_insert].
  rewrite (u32_small v0) by done.
  change kBottom29Bits with (kBottom true). change kBottom28Bits with (kBottom false).
  change 0x10000000 with (u32 0x10000000). change 0x20000000 with (u32 0x20000000).
  pose proof (kBottom_mod false v0) as Ex. change (width false) with 28 in Ex.
  set (x := v0 .& kBottom false) in *. rewrite !shl_mask by lia. cbn [width].
  assert (0 <= x < 2 ^ 28) as Hx by (rewrite Ex; apply Z.mod_pos_bound; done).
  pose proof (Z.div_mod v0 (2 ^ 28) ltac:(done)) as Ev. rewrite <- Ex in Ev.
  remember (Z.b2z (negb (x =? 0))) as b eqn:Eb.
  rewrite !(u32_masked _ _ x b) by (done || lia). rewrite !Z.shiftr_div_pow2 by lia.
  destruct (shl_parts 29 11 18 x) as (E11 & B11 & C11); [lia..|].
  destruct (shl_parts 28 21 7 x) as (E21 & B21 & C21); [lia..|].
  destruct (shl_parts 29 25 4 x) as (E25 & B25 & C25); [lia..|].
  assert (0 <= b <= 1 /\ (x = 0 -> b = 0) /\ (x <> 0 -> b = 1)) as (Hb1 & Hb2 & Hb3).
  { subst b. destruct (Z.eqb_spec x 0); cbn; lia. }
  exists (v0 / 2 ^ 28), ((x * 2 ^ 11) mod 2 ^ 29), (x / 2 ^ 18), ((x * 2 ^ 21) mod 2 ^ 28),
    (x / 2 ^ 7 + b * 2 ^ 29 - (x * 2 ^ 25) mod 2 ^ 29),
    (b * (x - 1) - x / 2 ^ 4 + b * 2 ^ 28 - x), (b * (x - 1)), x.
  cbv zeta. split; [cbn [map]; words_eq|].
  clearbody x. clear Ex Eb. name_parts.
  assert (x = 0 /\ b = 0 \/ 0 < x /\ b = 1) as [[-> ->]|[Hx0 ->]] by lia.
  - split; [cbn [feval negb width]; lia|]. lia.
  - split; [|lia]. rewrite p_value_pow2. cbn [feval negb width]. lia.
Qed.

(** Run one half [f] of an iteration on [zeros ++ pre (map u32 ...)]. *)
Ltac elim_step f lem app zeros pre :=
  match goal with |- context [f _ ?w] =>
    lazymatch w with context [map u32 (?v0 :: ?v1 :: ?v2 :: ?v3 :: ?v4 :: ?v5 :: ?v6 :: ?v7 :: ?v8 :: ?v9 :: ?l)] =>
      let E := fresh "E" in let V := fresh "V" in let M := fresh "M" in let C := fresh "C" in
      let B := fresh "B" in let B' := fresh "B" in
      destruct (lem v0 v1 v2 v3 v4 v5 v6 v7 v8 v9 l) as (? & ? & ? & ? & ? & ? & ? & ? & E & V & M & C & B & B');
      [unfold is_word; lia
      |let L := eval cbv in (length zeros) in
       let w' := eval cbv beta in (pre (map u32 (v0 :: v1 :: v2 :: v3 :: v4 :: v5 :: v6 :: v7 :: v8 :: v9 :: l))) in
       change w with (zeros ++ w'); change (f L) with (f (length zeros));
       rewrite app, E; cbn [Datatypes.app]; clear E]
    end
  end.
Ltac even_step zeros := elim_step elim_even elim_even_0 elim_even_app zeros (fun l : list Z => l).
Ltac odd_step zeros := elim_step elim_odd (elim_odd_0 0) elim_odd_app zeros (cons 0).

(** The widths of the nine words eliminated. *)
Lemma fR_steps y :
  fR * y = 2 ^ 29 * (2 ^ 28 * (2 ^ 29 * (2 ^ 28 * (2 ^ 29 * (2 ^ 28 * (2 ^ 29 * (2 ^ 28 * (2 ^ 29 * y)))))))).
Proof. unfold fR. ring. Qed.

Lemma eliminate_spec ws w17 :
  length ws = 17%nat -> limbs 0 true ws -> 0 <= w17 < 2 ^ 31 + 2 ^ 8 ->
  exists u9 u10 u11 u12 u13 u14 u15 u16 u17 m,
    eliminate (map u32 (ws ++ [w17]))
      = replicate 9 0 ++ map u32 [u9; u10; u11; u12; u13; u14; u15; u16; u17]
    /\ (fR * feval false [u9; u10; u11; u12; u13; u14; u15; u16; u17] = feval true (ws ++ [w17]) + p_value * m
        /\ 0 <= m < fR)
    /\ (0 <= u9 < 2 ^ 32 - 2 ^ 29 /\ -1 <= u17 < 2 ^ 32 - 2 ^ 29)
    /\ (-1 <= u11 < 2 ^ 32 - 2 ^ 29 /\ -1 <= u13 < 2 ^ 32 - 2 ^ 29 /\ -1 <= u15 < 2 ^ 32 - 2 ^ 29)
    /\ (0 <= u10 < 2 ^ 32 /\ 0 <= u12 < 2 ^ 32 /\ 0 <= u14 < 2 ^ 32 /\ 0 <= u16 < 2 ^ 32)
    /\ (0 <= u10 + 2 ^ 29 * u11 /\ 0 <= u12 + 2 ^ 29 * u13 /\ 0 <= u14 + 2 ^ 29 * u15 /\ 0 <= u16 + 2 ^ 29 * u17).
Proof.
  intros Hl Hb H17. do 17 (destruct ws as [|? ws]; [discriminate Hl|]). destruct ws; [|discriminate Hl]. clear Hl.
  split_limbs Hb. cbn [app]. unfold eliminate. cbn [for_ Nat.mul Nat.add].
  even_step (@nil Z).
  odd_step (@nil Z).
  even_step [0; 0].
  odd_step [0; 0].
  even_step [0; 0; 0; 0].
  odd_step [0; 0; 0; 0].
  even_step [0; 0; 0; 0; 0; 0].
  odd_step [0; 0; 0; 0; 0; 0].
  even_step [0; 0; 0; 0; 0; 0; 0; 0].
  match type of V7 with _ = _ + p_value * ?m8 => match type of V6 with _ = _ + p_value * ?m7 =>
  match type of V5 with _ = _ + p_value * ?m6 => match type of V4 with _ = _ + p_value * ?m5 =>
  match type of V3 with _ = _ + p_value * ?m4 => match type of V2 with _ = _ + p_value * ?m3 =>
  match type of V1 with _ = _ + p_value * ?m2 => match type of V0 with _ = _ + p_value * ?m1 =>
  match type of V with _ = _ + p_value * ?m0 =>
    do 9 eexists; exists (m0 + 2 ^ 29 * (m1 + 2 ^ 28 * (m2 + 2 ^ 29 * (m3 + 2 ^ 28 * (m4 + 2 ^ 29 *
      (m5 + 2 ^ 28 * (m6 + 2 ^ 29 * (m7 + 2 ^ 28 * m8))))))))
  end end end end end end end end end.
  split; [reflexivity|]. split.
  - split; [|unfold fR; lia]. rewrite fR_steps, V7, !Z.mul_add_distr_l, V6, !Z.mul_add_distr_l, V5,
      !Z.mul_add_distr_l, V4, !Z.mul_add_distr_l, V3, !Z.mul_add_distr_l, V2, !Z.mul_add_distr_l, V1,
      !Z.mul_add_distr_l, V0, !Z.mul_add_distr_l, V. ring.
  - clear V V0 V1 V2 V3 V4 V5 V6 V7. lia.
Qed.

(** ** The copy down and its carry chain *)

(** The limbs of the words above [2 ** 257], whose widths are 28, 29, ... bits. *)
Fixpoint realign (u : Z) (us : list Z) : list Z :=
  match us with
  | u' :: u'' :: us => u + (u' * 2 ^ 28) mod 2 ^ 29 :: u' / 2 :: realign u'' us
  | _ => [u]
  end.

Lemma shifted_words_spec u9 u10 u11 u12 u13 u14 u15 u16 u17 :
  is_word 32 u10 -> is_word 32 u12 -> is_word 32 u14 -> is_word 32 u16 ->
  shifted_words (replicate 9 0 ++ map u32 [u9; u10; u11; u12; u13; u14; u15; u16; u17])
  = map u32 (realign u9 [u10; u11; u12; u13; u14; u15; u16; u17]).
Proof.
  intros H10 H12 H14 H16.
  unfold shifted_words. cbn [seq map Nat.even Nat.add replicate Datatypes.app lookup_total list_lookup_total realign].
  change kBottom29Bits with (kBottom true). 
  rewrite (u32_small u10), (u32_small u12), (u32_small u14), (u32_small u16) by done.
  rewrite !shl_mask by lia. cbn [width]. autorewrite with pull_words. rewrite !Z.shiftr_div_pow2 by lia.
  change (2 ^ 1) with 2.
  repeat (refine (f_equal2 cons _ _); [first [reflexivity|symmetry; apply u32_small]|]); [..|reflexivity];
    unfold is_word in *; (split; [apply Z.div_pos; lia|apply Z.div_lt_upper_bound; lia]).
Qed.

Lemma realign_value u9 u10 u11 u12 u13 u14 u15 u16 u17 :
  feval true (realign u9 [u10; u11; u12; u13; u14; u15; u16; u17])
  = feval false [u9; u10; u11; u12; u13; u14; u15; u16; u17].
Proof.
  assert (E : forall u, (u * 2 ^ 28) mod 2 ^ 29 = 2 ^ 28 * (u mod 2)).
  { intros u. change (2 ^ 29) with (2 * 2 ^ 28). rewrite Z.mul_mod_distr_r by lia. ring. }
  cbn [realign feval negb width]. rewrite !E.
  pose proof (Z.div_mod u10 2 ltac:(lia)). pose proof (Z.div_mod u12 2 ltac:(lia)).
  pose proof (Z.div_mod u14 2 ltac:(lia)). pose proof (Z.div_mod u16 2 ltac:(lia)).
  lia.
Qed.

(** One limb of a chain: the sum is a word, name its carry. *)
Ltac chain_step :=
  cbn [chain_ok negb width]; split; [lia|];
  match goal with |- context [(?x + ?c) / ?b] =>
    let E := fresh in let B := fresh in
    pose proof (Z.div_mod (x + c) b ltac:(lia)) as E;
    pose proof (Z.mod_pos_bound (x + c) b ltac:(lia)) as B;
    generalize dependent ((x + c) mod b); generalize dependent ((x + c) / b); intros
  end.

Lemma realign_chain_ok u9 u10 u11 u12 u13 u14 u15 u16 u17 :
  (0 <= u9 < 2 ^ 32 - 2 ^ 29 /\ -1 <= u17 < 2 ^ 32 - 2 ^ 29) ->
  (-1 <= u11 < 2 ^ 32 - 2 ^ 29 /\ -1 <= u13 < 2 ^ 32 - 2 ^ 29 /\ -1 <= u15 < 2 ^ 32 - 2 ^ 29) ->
  (0 <= u10 < 2 ^ 32 /\ 0 <= u12 < 2 ^ 32 /\ 0 <= u14 < 2 ^ 32 /\ 0 <= u16 < 2 ^ 32) ->
  (0 <= u10 + 2 ^ 29 * u11 /\ 0 <= u12 + 2 ^ 29 * u13 /\ 0 <= u14 + 2 ^ 29 * u15 /\ 0 <= u16 + 2 ^ 29 * u17) ->
  chain_ok true 0 (realign u9 [u10; u11; u12; u13; u14; u15; u16; u17]).
Proof.
  intros B1 B2 B3 B4. cbn [realign].
  assert (H : forall u, 0 <= (u * 2 ^ 28) mod 2 ^ 29 <= 2 ^ 28).
  { intros u. change (2 ^ 29) with (2 * 2 ^ 28). rewrite Z.mul_mod_distr_r by lia.
    pose proof (Z.mod_pos_bound u 2 ltac:(lia)). lia. }
  pose proof (H u10). pose proof (H u12). pose proof (H u14). pose proof (H u16). clear H.
  pose proof (Z.div_mod u10 2 ltac:(lia)). pose proof (Z.mod_pos_bound u10 2 ltac:(lia)).
  pose proof (Z.div_mod u12 2 ltac:(lia)). pose proof (Z.mod_pos_bound u12 2 ltac:(lia)).
  pose proof (Z.div_mod u14 2 ltac:(lia)). pose proof (Z.mod_pos_bound u14 2 ltac:(lia)).
  pose proof (Z.div_mod u16 2 ltac:(lia)). pose proof (Z.mod_pos_bound u16 2 ltac:(lia)).
  name_parts. do 8 chain_step. split; [lia|done].
Qed.

Lemma map_u32_id l : words 32 l -> map u32 l = l.
Proof. induction 1 as [|x l Hx _ IH]; cbn [map]; [done|]. by rewrite u32_small, IH. Qed.

Lemma limbs_words d even l : 0 <= d <= 3 -> limbs d even l -> words 32 l.
Proof.
  intros Hd. revert even. induction l as [|x l IH]; intros even H; [constructor|]. destruct H as [Hx H].
  constructor; [|by apply (IH (negb even))]. unfold is_word.
  assert (2 ^ (width even + d) <= 2 ^ 32) by (apply Z.pow_le_mono_r; destruct even; cbn; lia). lia.
Qed.

Lemma felem_reduce_degree_spec ts :
  wide_ok ts ->
  fe_ok (felem_reduce_degree ts) /\ fR * fval (felem_reduce_degree ts) =[p_value] fval ts
  /\ (fval ts < fR * fR + fR * p_value -> top_safe (felem_reduce_degree ts)).
Proof.
  intros Hts. unfold felem_reduce_degree.
  destruct (split_words_spec ts Hts) as (ws & w17 & E & Hl & Hb & H17 & Ev).
  destruct (eliminate_spec ws w17) as
    (u9 & u10 & u11 & u12 & u13 & u14 & u15 & u16 & u17 & m & E' & [V Hm] & B1 & B2 & B3 & B4); [done..|].
  rewrite map_u32_id, <- E in E'.
  2: { apply words_app; [by apply limbs_words with 0 true|]. repeat constructor; unfold is_word; lia. }
  rewrite E', shifted_words_spec by (unfold is_word; lia).
  rewrite <- E, Ev, <- realign_value in V.
  match goal with |- context [map u32 ?xs] => destruct (chain_reduce_spec xs) as (H1 & H2 & H3) end; [done| |].
  - by apply realign_chain_ok.
  - split; [exact H1|]. split.
    + rewrite H2, V. apply eqm_add_multiple with m. ring.
    + intros Ht. apply H3. assert (0 < p_value) by reflexivity. unfold fR in *. nia.
Qed.

(** ** Zero test *)

Lemma feval_inj even l1 l2 :
  limbs 0 even l1 -> limbs 0 even l2 -> length l1 = length l2 -> feval even l1 = feval even l2 -> l1 = l2.
Proof.
  revert even l2. induction l1 as [|x l1 IH]; intros even [|y l2] H1 H2 Hl E; try done.
  destruct H1 as [Hx H1], H2 as [Hy H2]. cbn [feval] in E. rewrite Z.add_0_r in *.
  assert (feval (negb even) l1 = feval (negb even) l2 /\ x = y) as [E' ->] by (destruct even; cbn [width negb] in *; lia).
  f_equal. apply (IH (negb even)); [done|done|by injection Hl|done].
Qed.

Lemma feval_bound even l : limbs 0 even l -> 0 <= feval even l < 2 ^ span even (length l).
Proof.
  revert even. induction l as [|x l IH]; intros even H; cbn [feval length span]; [lia|].
  destruct H as [Hx H]. specialize (IH _ H). rewrite Z.add_0_r in Hx.
  rewrite Z.pow_add_r by (pose proof (width_pos even); pose proof (span_nonneg (negb even) (length l)); lia). nia.
Qed.

Lemma fe_ok_chain l :
  fe_ok l -> exists r k, carry_chain true 0 l = (r, k) /\ limbs 0 true r /\ length r = NLIMBS
    /\ 0 <= k < 8 /\ fval r + fR * k = fval l.
Proof.
  intros (Hl & Ht & Hb). destruct (carry_chain true 0 l) as [r k] eqn:E. exists r, k. split; [done|].
  rewrite <- (map_u32_id l) in E by (by apply limbs_words with 1 true).
  apply carry_chain_spec in E as (Hr & Hlr & Hk & Ev & Hb'); [|apply chain_ok_small; [|lia]|lia].
  2: { name_limbs l Hl. split_limbs Hb. repeat constructor; lia. }
  rewrite Hl in *. change (2 ^ span true NLIMBS) with fR in Ev. 
  name_limbs l Hl. cbn in Hb'. split_and!; [done|done|lia|lia|lia].
Qed.

Lemma felem_reduce_carry_0 l : length l = NLIMBS -> limbs 0 true l -> felem_reduce_carry l 0 = l.
Proof. intros Hl Hb. by apply felem_reduce_carry_spec. Qed.

(** The loop ends after its second iteration at the latest. *)
Lemma minimal_form_spec inp fuel :
  fe_ok inp -> (2 <= fuel)%nat ->
  exists tmp, minimal_form fuel inp = Some tmp /\ length tmp = NLIMBS /\ limbs 0 true tmp
    /\ fval tmp =[p_value] fval inp.
Proof.
  intros H Hf. destruct fuel as [|[|fuel]]; [lia|lia|]. clear Hf.
  destruct (fe_ok_chain inp H) as (r & k & E & Hr & Hlr & Hk & Ev).
  change (minimal_form (S (S fuel)) inp) with
    (let '(tmp, carry) := carry_chain true 0 inp in
     let tmp := felem_reduce_carry tmp carry in
     if carry =? 0 then Some tmp else minimal_form (S fuel) tmp).
  rewrite E. destruct (Z.eqb_spec k 0) as [->|Hk0].
  { exists r. rewrite felem_reduce_carry_0 by done. split_and!; [done|done|done|]. apply eqm_eq_refl. lia. }
  destruct (felem_reduce_carry_spec r k) as (H1 & H2 & _); [done|done|lia|]. cbn [minimal_form].
  destruct (fe_ok_chain _ H1) as (r' & k' & E' & Hr' & Hlr' & Hk' & Ev'). rewrite E'.
  assert (k' = 0) as ->.
  { assert (fval (felem_reduce_carry r k) < fR); [|pose proof (feval_bound true r' Hr'); unfold fR in *; lia].
    assert (fval inp < fR + 2 ^ 230) as Hv by (open_fe H; cbn [feval negb width]; unfold fR; lia).
    assert (k = 1) as -> by (pose proof (feval_bound true r Hr); unfold fR in *; lia).
    name_limbs r Hlr. rewrite felem_reduce_carry_limbs by (done || lia).
    change (Z.b2z (negb (1 =? 0))) with 1. unfold fR in *. cbn [feval negb width] in *. lia. }
  exists r'. rewrite felem_reduce_carry_0 by done. split_and!; [done|done|done|].
  transitivity (fval (felem_reduce_carry r k)); [apply eqm_eq_refl; lia|].
  rewrite (reduce_carry_eqm r k _ (eq_sym H2)). apply eqm_eq_refl. lia.
Qed.

Lemma felem_is_zero_spec inp :
  fe_ok inp -> felem_is_zero_vartime inp = true <-> fval inp =[p_value] 0.
Proof.
  intros H. unfold felem_is_zero_vartime, felem_assign.
  destruct (minimal_form_spec inp 3 H ltac:(lia)) as (tmp & -> & Hl & Hb & E).
  rewrite !orb_true_iff, !bool_decide_eq_true. rewrite <- E. clear E H.
  split.
  - intros [[-> | ->] | ->]; apply eqm_eq; (done || reflexivity).
  - intros [q Hq]. rewrite Z.sub_0_r in Hq. pose proof (feval_bound true tmp Hb) as B. rewrite Hl in B.
    change (2 ^ span true NLIMBS) with (2 ^ 257) in B.
    assert (0 <= q <= 2) by (rewrite p_value_pow2 in Hq; lia).
    assert (K : limbs 0 true kZero /\ limbs 0 true kP /\ limbs 0 true k2P) by (cbn; lia).
    assert (q = 0 \/ q = 1 \/ q = 2) as [-> | [-> | ->]] by lia; [left; left|left; right|right];
      (apply (feval_inj true); [done|apply K|done|rewrite Hq; reflexivity]).
Qed.

(** * Montgomery form: an element stands for [v] when it stores [v * R] *)

Definition repr (l : list Z) (v : Z) : Prop := fe_ok l /\ fval l =[p_value] v * fR.

#[export] Instance repr_proper l : Proper (eqm p_value ==> iff) (repr l).
Proof. intros x y E. unfold repr. by rewrite E. Qed.

Lemma fR_cancel x y : fR * x =[p_value] fR * y -> x =[p_value] y.
Proof. by apply eqm_cancel_pow2. Qed.

Lemma repr_eqm l x y : repr l x -> repr l y -> x =[p_value] y.
Proof.
  intros [_ Hx] [_ Hy]. apply fR_cancel. rewrite !(Z.mul_comm fR). by rewrite <- Hx.
Qed.

Lemma one_repr : repr kOne 1.
Proof. split; [|apply eqm_eq; [done|reflexivity]]. split; [done|]. split; [done|]. cbn; lia. Qed.

Lemma zero_repr : repr kZero 0.
Proof. split; [|apply eqm_eq_refl; done]. split; [done|]. split; [done|]. cbn; lia. Qed.

Lemma sum_repr a b x y : repr a x -> repr b y -> repr (felem_sum a b) (x + y).
Proof.
  intros [Ha Ea] [Hb Eb]. destruct (felem_sum_spec a b Ha Hb) as [H E]. split; [done|].
  rewrite E, Ea, Eb. apply eqm_eq_refl. ring.
Qed.

Lemma diff_repr a b x y : repr a x -> repr b y -> repr (felem_diff a b) (x - y).
Proof.
  intros [Ha Ea] [Hb Eb]. destruct (felem_diff_spec a b Ha Hb) as [H E]. split; [done|].
  rewrite E, Ea, Eb. apply eqm_eq_refl. ring.
Qed.

Lemma scalar_3_repr a x : repr a x -> repr (felem_scalar_3 a) (3 * x).
Proof.
  intros [Ha Ea]. destruct (felem_scalar_3_spec a Ha) as [H E]. split; [done|].
  rewrite E, Ea. apply eqm_eq_refl. ring.
Qed.

Lemma scalar_4_repr a x : repr a x -> repr (felem_scalar_4 a) (4 * x).
Proof.
  intros [Ha Ea]. destruct (felem_scalar_4_spec a Ha) as [H E]. split; [done|].
  rewrite E, Ea. apply eqm_eq_refl. ring.
Qed.

Lemma scalar_8_repr a x : repr a x -> repr (felem_scalar_8 a) (8 * x).
Proof.
  intros [Ha Ea]. destruct (felem_scalar_8_spec a Ha) as [H E]. split; [done|].
  rewrite E, Ea. apply eqm_eq_refl. ring.
Qed.

Lemma reduce_degree_repr ts v :
  wide_ok ts -> fval ts =[p_value] v * fR * fR -> repr (felem_reduce_degree ts) v.
Proof.
  intros Hts Ev. destruct (felem_reduce_degree_spec ts Hts) as (H & E & _). split; [done|].
  apply fR_cancel. rewrite E, Ev. apply eqm_eq_refl. ring.
Qed.

Lemma mul_repr a b x y : repr a x -> repr b y -> repr (felem_mul a b) (x * y).
Proof.
  intros [Ha Ea] [Hb Eb]. destruct (mul_words_spec a b Ha Hb) as [H E].
  apply reduce_degree_repr; [done|]. rewrite E, Ea, Eb. apply eqm_eq_refl. ring.
Qed.

Lemma square_repr a x : repr a x -> repr (felem_square a) (x * x).
Proof.
  intros [Ha Ea]. destruct (square_words_spec a Ha) as [H E].
  apply reduce_degree_repr; [done|]. rewrite E, Ea. apply eqm_eq_refl. ring.
Qed.

Lemma is_zero_repr a x : repr a x -> felem_is_zero_vartime a = true <-> x =[p_value] 0.
Proof.
  intros [Ha Ea]. rewrite felem_is_zero_spec, Ea by done. split.
  - intros E. apply fR_cancel. rewrite Z.mul_0_r, Z.mul_comm. exact E.
  - intros ->. reflexivity.
Qed.
#[export] Hint Resolve one_repr zero_repr sum_repr diff_repr scalar_3_repr scalar_4_repr scalar_8_repr
  mul_repr square_repr : felem.

Lemma fe_ok_bound l : fe_ok l -> 0 <= fval l < fR + 2 ^ 230.
Proof.
  intros (Hl & Ht & Hb). name_limbs l Hl. split_limbs Hb. cbn in Ht. unfold fR. cbn. lia.
Qed.

(** Products come with the bound [from_montgomery] needs. *)
Lemma mul_top_safe a b : fe_ok a -> fe_ok b -> top_safe (felem_mul a b).
Proof.
  intros Ha Hb. destruct (mul_words_spec a b Ha Hb) as [H E]. apply felem_reduce_degree_spec; [done|].
  rewrite E. apply fe_ok_bound in Ha, Hb. rewrite p_value_pow2. unfold fR in *. nia.
Qed.

(** ** Inversion by Fermat *)

(** [a] stands for the [m]-th power of [x]. *)
Definition repr_pow (x : Z) (a : list Z) (m : Z) : Prop := 0 <= m /\ repr a (x ^ m).

Lemma mul_pow x a b m n : repr_pow x a m -> repr_pow x b n -> repr_pow x (felem_mul a b) (m + n).
Proof. intros [Hm Ha] [Hn Hb]. split; [lia|]. rewrite Z.pow_add_r by done. by apply mul_repr. Qed.

Lemma square_pow x a m : repr_pow x a m -> repr_pow x (felem_square a) (2 * m).
Proof.
  intros [Hm Ha]. split; [lia|]. replace (2 * m) with (m + m) by lia.
  rewrite Z.pow_add_r by done. by apply square_repr.
Qed.

Lemma square_n_pow x n a m : repr_pow x a m -> repr_pow x (square_n n a) (2 ^ Z.of_nat n * m).
Proof.
  intros Ha. apply (for_inv (fun i b => repr_pow x b (2 ^ Z.of_nat i * m))).
  - by rewrite Z.mul_1_l.
  - intros i b _ Hb. rewrite Nat2Z.inj_succ, Z.pow_succ_r, <- Z.mul_assoc by lia. by apply square_pow.
Qed.

Lemma inv_pow a x : repr a x -> repr_pow x (felem_inv a) (p_value - 2).
Proof.
  intros Ha. assert (H1 : repr_pow x a 1) by (split; [lia|]; by rewrite Z.pow_1_r).
  unfold felem_inv, felem_assign. cbv zeta.
  eassert (E : p_value - 2 = _); [|rewrite E].
  2: repeat lazymatch goal with
     | |- repr_pow _ (felem_mul _ _) _ => refine (mul_pow _ _ _ _ _ _ _)
     | |- repr_pow _ (felem_square _) _ => refine (square_pow _ _ _ _)
     | |- repr_pow _ (square_n _ _) _ => refine (square_n_pow _ _ _ _ _)
     | |- repr_pow _ a _ => exact H1
     end.
  vm_compute. reflexivity.
Qed.

(** The inverse felem_inv computes; of 0 it is 0. *)
Definition finv (x : Z) : Z := x ^ (p_value - 2).

Lemma finv_spec x : ~ x =[p_value] 0 -> x * finv x =[p_value] 1.
Proof.
  intros Hx. unfold finv. rewrite <- Z.pow_succ_r by done.
  replace (Z.succ (p_value - 2)) with (p_value - 1) by lia. exact (fermat p_value x prime_p Hx).
Qed.

#[export] Instance finv_proper : Proper (eqm p_value ==> eqm p_value) finv.
Proof. intros x y E. unfold finv. by rewrite E. Qed.

Lemma inv_repr a x : repr a x -> repr (felem_inv a) (finv x).
Proof. intros Ha. exact (proj2 (inv_pow a x Ha)). Qed.
#[export] Hint Resolve inv_repr : felem.

(** * Theorems *)

(** C28. felem_reduce_degree, on seventeen 64-bit words of which the top one is
    below 2^60, gives an element within the stated bounds whose value times
    R = 2^257 is the value of the words modulo p: the Montgomery reduction of
    the comment, with no carry or borrow lost. *)
Theorem felem_reduce_degree_correct ts :
  length ts = 17%nat -> words 64 ts -> ts !!! 16%nat < 2 ^ 60 ->
  fe_ok (felem_reduce_degree ts)
  /\ (2 ^ 257 * fval (felem_reduce_degree ts)) mod p_value = fval ts mod p_value.
Proof.
  intros Hl Hw Ht. destruct (felem_reduce_degree_spec ts) as (H & E & _); [by split_and!|].
  split; [done|]. by apply eqm_eq.
Qed.

Lemma felem_reduce_degree_correct_witness :
  fe_ok (felem_reduce_degree (replicate 17 (2 ^ 60 - 1)))
  /\ (2 ^ 257 * fval (felem_reduce_degree (replicate 17 (2 ^ 60 - 1)))) mod p_value
     = fval (replicate 17 (2 ^ 60 - 1)) mod p_value.
Proof.
  apply felem_reduce_degree_correct; [reflexivity| |reflexivity].
  apply Forall_replicate. split; [lia|reflexivity].
Defined.

(** The arithmetic of field elements: on elements that stand for x and y in
    Montgomery form (value x*R modulo p, limbs below 2^30 and 2^29), felem_sum,
    felem_diff, felem_mul, felem_square and felem_scalar_3, _4 and _8 give
    elements within the same bounds that stand for x+y, x-y, x*y, x*x, 3x, 4x
    and 8x. *)
Theorem felem_arithmetic_correct a b x y :
  repr a x -> repr b y ->
  repr (felem_sum a b) (x + y) /\ repr (felem_diff a b) (x - y)
  /\ repr (felem_mul a b) (x * y) /\ repr (felem_square a) (x * x)
  /\ repr (felem_scalar_3 a) (3 * x) /\ repr (felem_scalar_4 a) (4 * x) /\ repr (felem_scalar_8 a) (8 * x).
Proof. intros Ha Hb. split_and!; auto with felem. Qed.

Lemma felem_arithmetic_correct_witness :
  repr (felem_sum kOne kOne) (1 + 1) /\ repr (felem_diff kOne kOne) (1 - 1)
  /\ repr (felem_mul kOne kOne) (1 * 1) /\ repr (felem_square kOne) (1 * 1)
  /\ repr (felem_scalar_3 kOne) (3 * 1) /\ repr (felem_scalar_4 kOne) (4 * 1) /\ repr (felem_scalar_8 kOne) (8 * 1).
Proof. apply (felem_arithmetic_correct kOne kOne 1 1 one_repr one_repr). Defined.

(** felem_inv inverts: of an element that stands for x, not 0 modulo p, it
    gives one that stands for the inverse of x modulo p (p is shown to be
    prime); of an element that stands for 0 it gives one that stands for 0. *)
Theorem felem_inv_correct a x :
  repr a x ->
  exists y, repr (felem_inv a) y
    /\ (x mod p_value <> 0 -> (x * y) mod p_value = 1) /\ (x mod p_value = 0 -> y mod p_value = 0).
Proof.
  intros Ha. exists (finv x). split; [by apply inv_repr|]. split; intros Hx.
  - apply (eqm_eq p_value _ 1); [done|]. apply finv_spec. intros E. apply Hx. apply eqm_eq in E; done.
  - apply (eqm_eq p_value _ 0); [done|]. assert (x =[p_value] 0) as -> by (by apply eqm_eq).
    unfold finv. rewrite Z.pow_0_l; [reflexivity|done].
Qed.

Lemma felem_inv_correct_witness :
  exists y, repr (felem_inv (felem_sum kOne kOne)) y
    /\ (2 mod p_value <> 0 -> (2 * y) mod p_value = 1) /\ (2 mod p_value = 0 -> y mod p_value = 0).
Proof. apply felem_inv_correct. apply (sum_repr kOne kOne 1 1 one_repr one_repr). Defined.

(** felem_is_zero_vartime answers whether an element stands for 0: its
    loop ends, its bound being three iterations, and the three representatives
    it compares with are the only ones that are 0 modulo p. *)
Theorem felem_is_zero_correct a x :
  repr a x ->
  minimal_form 3 a <> None /\ felem_is_zero_vartime a = bool_decide (x mod p_value = 0).
Proof.
  intros Ha. split.
  - destruct (minimal_form_spec a 3 (proj1 Ha) ltac:(lia)) as (tmp & -> & _). done.
  - apply eq_true_iff_eq. by rewrite bool_decide_eq_true, (is_zero_repr a x Ha), eqm_eq.
Qed.

Lemma felem_is_zero_correct_witness :
  minimal_form 3 k2P <> None /\ felem_is_zero_vartime k2P = bool_decide (0 mod p_value = 0).
Proof.
  apply (felem_is_zero_correct k2P 0). split; [|apply eqm_eq; [done|reflexivity]].
  split; [done|]. split; [done|]. cbn; lia.
Defined.

(** * What the comments leave out *)

(** The entry bounds stated for felem_scalar_8 admit a carry of 15, and the
    result is then out of the exit bounds: the top limb must be below 2^29. *)
Example scalar_8_needs_top_limb :
  let l := [0; 0; 0; 0; 0; 0; 0; 2 ^ 25 - 1; 2 ^ 30 - 1] in
  limbs 1 true l /\ ~ limbs 1 true (felem_scalar_8 l).
Proof. split; [cbn; lia|]. vm_compute. intuition congruence. Qed.

(** [tmp[i] < 2**64], the entry condition stated for felem_reduce_degree, is
    not enough: the bits of [tmp[16]] above the 61st are lost. *)
Example reduce_degree_needs_top_word :
  let ts := replicate 16 0 ++ [2 ^ 63] in
  words 64 ts /\ (fR * fval (felem_reduce_degree ts)) mod p_value <> fval ts mod p_value.
Proof.
  split; [|vm_compute; discriminate]. 
  apply words_app; [apply Forall_replicate; done|repeat constructor; done].
Qed.
