(* ===== verification/Curve.v ===== *)
(** * The curve y^2 = x^3 - 3x + b modulo p

    Affine points are pairs of residues.  The sum of two points is defined by
    the chord and the tangent; Jacobian coordinates and the formulas of
    libmincrypt/p256_ec.c are related to it. *)
From S2P Require Import Prelude Modular Digits P256 Primes Felem.
From Stdlib Require Import Znumtheory.

#[local] Abbreviation p := p_value.

Lemma p_prime_mul x y : x * y =[p] 0 -> x =[p] 0 \/ y =[p] 0.
Proof.
  unfold eqm. rewrite !Z.sub_0_r. intros H.
  by destruct (prime_mult p prime_p x y H); [left|right].
Qed.

Lemma eqm_mul_0_l m x y : x =[m] 0 -> x * y =[m] 0.
Proof. intros ->. reflexivity. Qed.

Lemma eqm_mul_0_r m x y : y =[m] 0 -> x * y =[m] 0.
Proof. intros ->. by rewrite Z.mul_0_r. Qed.

Lemma p_cancel k x y : ~ k =[p] 0 -> k * x =[p] k * y -> x =[p] y.
Proof.
  intros Hk H. apply eqm_cancel with k; [|done].
  apply prime_rel_prime; [exact prime_p|]. intros Hd. apply Hk. unfold eqm. by rewrite Z.sub_0_r.
Qed.

(** A quotient exists for every divisor but 0. *)
Lemma p_div x y : ~ y =[p] 0 -> exists l, l * y =[p] x.
Proof.
  intros Hy. exists (x * finv y). rewrite <- Z.mul_assoc, (Z.mul_comm (finv y)), finv_spec by done.
  by rewrite Z.mul_1_r.
Qed.

(** ** Affine points *)

Definition point : Type := Z * Z.
Definition point_eq (P Q : point) : Prop := P.1 =[p] Q.1 /\ P.2 =[p] Q.2.

#[export] Instance point_eq_equiv : Equivalence point_eq.
Proof.
  split.
  - intros P. split; reflexivity.
  - intros P Q [H1 H2]. split; by symmetry.
  - intros P Q R [H1 H2] [H3 H4]. split; [by rewrite H1|by rewrite H2].
Qed.

(** The third point of a line of slope [l] through [P] and [Q], reflected. *)
Definition on_line (l : Z) (P Q R : point) : Prop :=
  R.1 =[p] l * l - P.1 - Q.1 /\ R.2 =[p] l * (P.1 - R.1) - P.2.

(** [R] is the sum of the distinct points [P] and [Q]: the chord. *)
Definition chord (P Q R : point) : Prop :=
  ~ P.1 =[p] Q.1 /\ exists l, l * (Q.1 - P.1) =[p] Q.2 - P.2 /\ on_line l P Q R.

(** [R] is twice [P]: the tangent. *)
Definition tangent (P R : point) : Prop :=
  ~ P.2 =[p] 0 /\ exists l, l * (2 * P.2) =[p] 3 * (P.1 * P.1 - 1) /\ on_line l P P R.

(** The sum of two points with a sum other than the point at infinity. *)
Definition psum (P Q R : point) : Prop := chord P Q R \/ point_eq P Q /\ tangent P R.

(** [comb G Q m n R]: chords and tangents lead from [G] and [Q] to [R], and
    what they add up to is [m] times [G] and [n] times [Q]. *)
Inductive comb (G Q : point) : Z -> Z -> point -> Prop :=
| comb_left R : point_eq R G -> comb G Q 1 0 R
| comb_right R : point_eq R Q -> comb G Q 0 1 R
| comb_add m n m' n' S T R :
    comb G Q m n S -> comb G Q m' n' T -> psum S T R -> comb G Q (m + m') (n + n') R.

Lemma comb_eq G Q m n m' n' R : comb G Q m n R -> m = m' -> n = n' -> comb G Q m' n' R.
Proof. by intros H <- <-. Qed.

Lemma comb_double G Q m n S R : comb G Q m n S -> tangent S R -> comb G Q (2 * m) (2 * n) R.
Proof.
  intros HS HR. apply comb_eq with (m + m) (n + n); [|lia..]. apply comb_add with S S; [done..|].
  right. split; [reflexivity|done].
Qed.

#[export] Instance on_line_proper l :
  Proper (point_eq ==> point_eq ==> point_eq ==> iff) (on_line l).
Proof.
  intros P P' [EP1 EP2] Q Q' [EQ1 EQ2] R R' [ER1 ER2]. unfold on_line.
  by rewrite EP1, EP2, EQ1, ER1, ER2.
Qed.

Lemma psum_result P Q R R' : point_eq R R' -> psum P Q R -> psum P Q R'.
Proof.
  intros E [[Hx (l & El & HR)]|[EP [Hy (l & El & HR)]]]; [left|right; split; [done|]];
    (split; [done|]; exists l; split; [done|]; by rewrite <- E).
Qed.

#[export] Instance comb_proper G Q m n : Proper (point_eq ==> iff) (comb G Q m n).
Proof.
  assert (forall R R', point_eq R R' -> comb G Q m n R -> comb G Q m n R') as H.
  { intros R R' E H. destruct H as [R H|R H|m n m' n' S T R HS HT HR].
    - apply comb_left. by rewrite <- E.
    - apply comb_right. by rewrite <- E.
    - apply comb_add with S T; [done..|]. by apply psum_result with R. }
  intros R R' E. split; apply H; [done|by symmetry].
Qed.

(** ** Jacobian coordinates *)

Record jac : Type := Jac { jX : Z; jY : Z; jZ : Z }.

(** [P] has the affine coordinates [q]. *)
Definition affine (P : jac) (q : point) : Prop :=
  ~ jZ P =[p] 0 /\ jX P =[p] q.1 * (jZ P * jZ P) /\ jY P =[p] q.2 * (jZ P * (jZ P * jZ P)).

(** Two sets of coordinates of the same representative. *)
Definition jac_eq (P P' : jac) : Prop := jX P =[p] jX P' /\ jY P =[p] jY P' /\ jZ P =[p] jZ P'.

Definition jdouble (P : jac) : jac :=
  let '(Jac X Y Z) := P in
  let delta := Z * Z in
  let gamma := Y * Y in
  let beta := X * gamma in
  let alpha := 3 * ((X + delta) * (X - delta)) in
  let X3 := alpha * alpha - 4 * beta - 4 * beta in
  Jac X3 (alpha * (4 * beta - X3) - 8 * (gamma * gamma)) ((Y + Z) * (Y + Z) - gamma - delta).

Definition jadd (P1 P2 : jac) : jac :=
  let '(Jac X1 Y1 Z1) := P1 in
  let '(Jac X2 Y2 Z2) := P2 in
  let U1 := X1 * (Z2 * Z2) in
  let S1 := Y1 * (Z2 * (Z2 * Z2)) in
  let H := X2 * (Z1 * Z1) - U1 in
  let I := (H + H) * (H + H) in
  let J := H * I in
  let S := Y2 * (Z1 * (Z1 * Z1)) - S1 in
  let r := S + S in
  let V := U1 * I in
  let X3 := r * r - J - V - V in
  Jac X3 ((V - X3) * r - S1 * J - S1 * J) (((Z1 + Z2) * (Z1 + Z2) - Z1 * Z1 - Z2 * Z2) * H).

(** The difference of the two abscissas, on a common denominator. *)
Definition jH (P1 P2 : jac) : Z := jX P2 * (jZ P1 * jZ P1) - jX P1 * (jZ P2 * jZ P2).
Definition jS (P1 P2 : jac) : Z :=
  jY P2 * (jZ P1 * (jZ P1 * jZ P1)) - jY P1 * (jZ P2 * (jZ P2 * jZ P2)).

Lemma jdouble_Z P : jZ (jdouble P) = 2 * jY P * jZ P.
Proof. destruct P. cbn. ring. Qed.

Lemma jadd_Z P1 P2 : jZ (jadd P1 P2) = 2 * jZ P1 * jZ P2 * jH P1 P2.
Proof. destruct P1, P2. unfold jH. cbn. ring. Qed.

Lemma double_affine P q :
  affine P q -> ~ jZ (jdouble P) =[p] 0 -> exists r, affine (jdouble P) r /\ tangent q r.
Proof.
  destruct P as [X Y Z], q as [x y]. intros (HZ & HX & HY) HZ3. cbn [jX jY jZ fst snd] in *.
  assert (Hy : ~ y =[p] 0).
  { intros E. apply HZ3. rewrite jdouble_Z. cbn [jY jZ]. rewrite HY, E. apply eqm_eq_refl. ring. }
  assert (Hy2 : ~ 2 * y =[p] 0).
  { intros E. apply p_prime_mul in E as [E|E]; [|done]. by apply (eqm_eq p) in E; [|done]. }
  destruct (p_div (3 * (x * x - 1)) (2 * y) Hy2) as [l El].
  exists (l * l - x - x, l * (x - (l * l - x - x)) - y). split.
  2: { split; [done|]. exists l. split; [done|]. by split. }
  split; [done|]. rewrite jdouble_Z in *. cbn [jX jY jZ jdouble fst snd] in *.
  (* the slope, scaled by the new Z *)
  assert (Ea : 3 * ((X + Z * Z) * (X - Z * Z)) =[p] l * (2 * Y * Z)).
  { rewrite HX, HY. transitivity (3 * (x * x - 1) * (Z * Z * (Z * Z))); [apply eqm_eq_refl; ring|].
    rewrite <- El. apply eqm_eq_refl. ring. }
  rewrite Ea. clear Ea HZ3 El Hy Hy2 HZ. rewrite HX, HY. split; apply eqm_eq_refl; ring.
Qed.

Lemma add_affine P1 P2 q1 q2 :
  affine P1 q1 -> affine P2 q2 -> ~ jZ (jadd P1 P2) =[p] 0 ->
  exists r, affine (jadd P1 P2) r /\ chord q1 q2 r.
Proof.
  destruct P1 as [X1 Y1 Z1], P2 as [X2 Y2 Z2], q1 as [x1 y1], q2 as [x2 y2].
  intros (HZ1 & HX1 & HY1) (HZ2 & HX2 & HY2) HZ3. cbn [jX jY jZ fst snd] in *.
  assert (EH : jH (Jac X1 Y1 Z1) (Jac X2 Y2 Z2) =[p] (x2 - x1) * (Z1 * Z1) * (Z2 * Z2)).
  { unfold jH. cbn [jX jY jZ]. rewrite HX1, HX2. apply eqm_eq_refl. ring. }
  assert (Hx : ~ x2 - x1 =[p] 0).
  { intros E. apply HZ3. rewrite jadd_Z. rewrite EH, E. apply eqm_eq_refl. ring. }
  destruct (p_div (y2 - y1) (x2 - x1) Hx) as [l El].
  exists (l * l - x1 - x2, l * (x1 - (l * l - x1 - x2)) - y1). split.
  2: { split; [|exists l; split; [done|]; by split]. cbn. intros E. apply Hx. rewrite E. apply eqm_eq_refl. ring. }
  split; [done|]. rewrite jadd_Z in *. unfold jH in *. cbn [jX jY jZ jadd fst snd] in *.
  set (H := X2 * (Z1 * Z1) - X1 * (Z2 * Z2)) in *.
  assert (Er : Y2 * (Z1 * (Z1 * Z1)) - Y1 * (Z2 * (Z2 * Z2)) =[p] l * Z1 * Z2 * H).
  { rewrite HY1, HY2, EH. transitivity ((y2 - y1) * (Z1 * Z1 * Z1) * (Z2 * Z2 * Z2)); [apply eqm_eq_refl; ring|].
    rewrite <- El. apply eqm_eq_refl. ring. }
  rewrite Er. clear Er HZ3 El Hx HZ1 HZ2. clearbody H. rewrite HX1, HY1.
  match goal with |- ?X3 =[p] _ /\ _ =>
    assert (EX : X3 =[p] (l * l - x1 - x2) * (2 * Z1 * Z2 * H * (2 * Z1 * Z2 * H))) end.
  { rewrite EH at 5. apply eqm_eq_refl. ring. }
  split; [exact EX|]. rewrite EX. apply eqm_eq_refl. ring.
Qed.

Lemma p_odd y : 2 * y =[p] 0 -> y =[p] 0.
Proof. intros E. apply p_prime_mul in E as [E|E]; [|done]. by apply (eqm_eq p) in E; [|done]. Qed.

Lemma jdouble_infinity P q : affine P q -> jZ (jdouble P) =[p] 0 <-> q.2 =[p] 0.
Proof.
  intros (HZ & _ & EY). rewrite jdouble_Z. split.
  - intros E. apply p_prime_mul in E as [E|E]; [|done]. apply p_odd in E. rewrite EY in E.
    repeat (apply p_prime_mul in E as [E|E]; try done).
  - intros E. rewrite EY, E. apply eqm_eq_refl. ring.
Qed.

Lemma jadd_infinity P1 P2 q1 q2 :
  affine P1 q1 -> affine P2 q2 -> jZ (jadd P1 P2) =[p] 0 <-> q1.1 =[p] q2.1.
Proof.
  intros (HZ1 & EX1 & _) (HZ2 & EX2 & _). rewrite jadd_Z.
  assert (EH : jH P1 P2 =[p] (q2.1 - q1.1) * (jZ P1 * jZ P1) * (jZ P2 * jZ P2)).
  { unfold jH. rewrite EX1, EX2. apply eqm_eq_refl. ring. }
  rewrite EH. split.
  - intros E. rewrite <- !Z.mul_assoc in E. apply p_odd in E.
    repeat (apply p_prime_mul in E as [E|E]; try done).
    transitivity (q1.1 + 0); [apply eqm_eq_refl; ring|]. rewrite <- E. apply eqm_eq_refl. ring.
  - intros E. rewrite E. apply eqm_eq_refl. ring.
Qed.

(** Equal abscissas and equal ordinates: the same point. *)
Lemma same_affine P1 P2 q1 q2 :
  affine P1 q1 -> affine P2 q2 -> jH P1 P2 =[p] 0 -> jS P1 P2 =[p] 0 -> point_eq q1 q2.
Proof.
  destruct P1 as [X1 Y1 Z1], P2 as [X2 Y2 Z2], q1 as [x1 y1], q2 as [x2 y2]. unfold jH, jS.
  intros (HZ1 & HX1 & HY1) (HZ2 & HX2 & HY2) EH ES. cbn [jX jY jZ fst snd] in *.
  assert (HZ : ~ Z1 * Z2 =[p] 0) by (intros E; by apply p_prime_mul in E as [E|E]).
  split; cbn [fst snd]; symmetry.
  - apply (p_cancel (Z1 * Z2)), (p_cancel (Z1 * Z2)); [done..|].
    rewrite HX1, HX2 in EH. transitivity (Z1 * Z2 * (Z1 * Z2 * x1) + 0); [|apply eqm_eq_refl; ring].
    rewrite <- EH. apply eqm_eq_refl. ring.
  - apply (p_cancel (Z1 * Z2)), (p_cancel (Z1 * Z2)), (p_cancel (Z1 * Z2)); [done..|].
    rewrite HY1, HY2 in ES. transitivity (Z1 * Z2 * (Z1 * Z2 * (Z1 * Z2 * y1)) + 0); [|apply eqm_eq_refl; ring].
    rewrite <- ES. apply eqm_eq_refl. ring.
Qed.

Lemma affine_same P1 P2 q1 q2 :
  affine P1 q1 -> affine P2 q2 -> point_eq q1 q2 -> jH P1 P2 =[p] 0 /\ jS P1 P2 =[p] 0.
Proof.
  destruct P1 as [X1 Y1 Z1], P2 as [X2 Y2 Z2], q1 as [x1 y1], q2 as [x2 y2]. unfold jH, jS.
  intros (_ & HX1 & HY1) (_ & HX2 & HY2) [Ex Ey]. cbn [jX jY jZ fst snd] in *.
  rewrite HX1, HX2, HY1, HY2, Ex, Ey. split; apply eqm_eq_refl; ring.
Qed.

#[export] Instance jdouble_proper : Proper (jac_eq ==> jac_eq) jdouble.
Proof.
  intros [X Y Z] [X' Y' Z'] (E1 & E2 & E3). cbn [jX jY jZ] in *. unfold jac_eq, jdouble. cbn [jX jY jZ].
  split_and!; by rewrite ?E1, ?E2, ?E3.
Qed.

Lemma affine_eq P P' q : jac_eq P P' -> affine P q -> affine P' q.
Proof. intros (E1 & E2 & E3) (H1 & H2 & H3). unfold affine. by rewrite <- E1, <- E2, <- E3. Qed.

(** ** Multiples in Jacobian coordinates

    [jcomb G Q m n P]: [P] is [m] times [G] plus [n] times [Q], or its last
    coordinate vanishes.  The second case is where the formulas fail on the
    way, and once it has come up it stays. *)
Definition jcomb (G Q : point) (m n : Z) (P : jac) : Prop :=
  ~ jZ P =[p] 0 -> exists q, affine P q /\ comb G Q m n q.

Lemma jcomb_double G Q m n P : jcomb G Q m n P -> jcomb G Q (2 * m) (2 * n) (jdouble P).
Proof.
  intros H HZ. destruct H as (q & Hq & Hc).
  { intros E. apply HZ. rewrite jdouble_Z. by apply eqm_mul_0_r. }
  destruct (double_affine P q Hq HZ) as (r & Hr & Ht). exists r. split; [done|]. by apply comb_double with q.
Qed.

Lemma jcomb_add G Q m n m' n' P P' :
  jcomb G Q m n P -> jcomb G Q m' n' P' -> jcomb G Q (m + m') (n + n') (jadd P P').
Proof.
  intros H H' HZ. rewrite jadd_Z in HZ.
  destruct H as (q & Hq & Hc).
  { intros E. apply HZ. apply eqm_mul_0_l, eqm_mul_0_l. by apply eqm_mul_0_r. }
  destruct H' as (q' & Hq' & Hc').
  { intros E. apply HZ. apply eqm_mul_0_l. by apply eqm_mul_0_r. }
  rewrite <- jadd_Z in HZ. destruct (add_affine P P' q q' Hq Hq' HZ) as (r & Hr & Ht).
  exists r. split; [done|]. apply comb_add with q q'; [done..|by left].
Qed.

Lemma jcomb_eq G Q m n P P' : jac_eq P P' -> jcomb G Q m n P -> jcomb G Q m n P'.
Proof.
  intros E H HZ. destruct H as (q & Hq & Hc); [by destruct E as (_ & _ & ->)|].
  exists q. split; [|done]. by apply affine_eq with P.
Qed.
