(* ===== verification/Chord.v ===== *)
(** * Three points on a line

    The algebra of the group law of [y^2 = x^3 + a x + b], over an integral
    domain: what three points of the curve on a line satisfy, and the identity
    behind the associativity of the addition.  Group gives it the integers
    modulo p. *)
From Stdlib Require Import NsatzTactic Ncring Cring Integral_domain Algebra_syntax.

Section Lines.
Context {R : Type} `{Integral_domain R}.
Variables (a b : R).
Hypothesis two : ~ (1 + 1 : R) == 0.
Hypothesis decide_eq : forall x y : R, x == y \/ ~ x == y.

(** [(x1, y1)], [(x2, y2)] and [(x3, - y3)] are the points of the curve on the
    line [y = l x + c], each as often as it is met. *)
Definition line (l c x1 y1 x2 y2 x3 y3 : R) : Prop :=
  y1 == l * x1 + c /\ y2 == l * x2 + c /\ - y3 == l * x3 + c
  /\ x1 + x2 + x3 == l * l /\ x1 * x2 + x1 * x3 + x2 * x3 == a - (l * c + l * c) /\ x1 * x2 * x3 == c * c - b.

(** The equations of the lines and curves in the hypotheses. *)
Ltac on_lines :=
  unfold line in *;
  repeat match goal with
  | |- _ -> _ => intro
  | H : _ /\ _ |- _ => destruct H
  | |- _ /\ _ => split
  end;
  try assumption.

Lemma nonzero_mul x y : x * y == 0 -> ~ x == 0 -> y == 0.
Proof. intros E Hx. destruct (integral_domain_product x y E) as [E'|E']; [contradiction|exact E']. Qed.

Lemma difference x y : ~ x == y -> ~ x - y == 0.
Proof. intros Hn E. apply Hn. clear Hn. nsatz. Qed.

Lemma domain_line_swap l c x1 y1 x2 y2 x3 y3 :
  line l c x1 y1 x2 y2 x3 y3 -> line l c x2 y2 x1 y1 x3 y3.
Proof. on_lines; nsatz. Qed.

Lemma domain_line_turn l c x1 y1 x2 y2 x3 y3 :
  line l c x1 y1 x2 y2 x3 y3 -> line l c x1 y1 x3 (- y3) x2 (- y2).
Proof. on_lines; nsatz. Qed.

Lemma domain_line_opp l c x1 y1 x2 y2 x3 y3 :
  line l c x1 y1 x2 y2 x3 y3 -> line (- l) (- c) x1 (- y1) x2 (- y2) x3 (- y3).
Proof. on_lines; nsatz. Qed.

Definition curve (x y : R) : Prop := y * y == x * x * x + a * x + b.

Lemma domain_line_curve l c x1 y1 x2 y2 x3 y3 :
  line l c x1 y1 x2 y2 x3 y3 -> curve x1 y1 /\ curve x2 y2 /\ curve x3 y3.
Proof. unfold curve. on_lines; nsatz. Qed.

(** Chords and tangents are such lines. *)
Lemma chord_line l x1 y1 x2 y2 :
  curve x1 y1 -> curve x2 y2 -> ~ x1 == x2 -> l * (x2 - x1) == y2 - y1 ->
  let x3 := l * l - x1 - x2 in line l (y1 - l * x1) x1 y1 x2 y2 x3 (l * (x1 - x3) - y1).
Proof.
  unfold curve, line. intros C1 C2 Hx Hl. cbv zeta. set (x3 := l * l - x1 - x2). set (c := y1 - l * x1).
  assert (E : x1 * x2 + x1 * x3 + x2 * x3 - (a - (l * c + l * c)) == 0).
  { apply (nonzero_mul (x1 - x2)); [|now apply difference]. clear Hx. subst x3 c. nsatz. }
  subst x3 c. clear Hx. repeat split; nsatz.
Qed.

Lemma tangent_line l x1 y1 :
  curve x1 y1 -> l * (y1 + y1) == x1 * x1 + x1 * x1 + x1 * x1 + a ->
  let x3 := l * l - x1 - x1 in line l (y1 - l * x1) x1 y1 x1 y1 x3 (l * (x1 - x3) - y1).
Proof. unfold curve, line. intros C1 Hl. cbv zeta. repeat split; nsatz. Qed.

Lemma domain_line_tangent l c x1 y1 x2 y2 x3 y3 :
  line l c x1 y1 x2 y2 x3 y3 -> x1 == x2 ->
  y1 == y2 /\ l * (y1 + y1) == x1 * x1 + x1 * x1 + x1 * x1 + a.
Proof. on_lines; nsatz. Qed.

Lemma domain_line_chord l c x1 y1 x2 y2 x3 y3 :
  line l c x1 y1 x2 y2 x3 y3 -> l * (x2 - x1) == y2 - y1.
Proof. on_lines; nsatz. Qed.

Lemma domain_line_third l c x1 y1 x2 y2 x3 y3 :
  line l c x1 y1 x2 y2 x3 y3 -> x3 == l * l - x1 - x2 /\ y3 == l * (x1 - x3) - y1.
Proof. on_lines; nsatz. Qed.

(** ** The conic [x^2 + p1 x + p0 = s y] through the points of two lines that
    share a point up to its sign *)

Lemma conic l c1 n c3 xA yA xB yB xC yC xD yD xF yF :
  line l c1 xA yA xB yB xD yD -> line n c3 xD yD xC yC xF yF ->
  (l + n) * l - xA - xB - (l + n) * n == - (xC + xF) /\ (l + n) * c1 + xA * xB - (l + n) * c3 == xC * xF.
Proof.
  intros (_ & _ & Y1 & E1 & E2 & _) (Y2 & _ & _ & E3 & E4 & _).
  assert (Hs : (l + n) * xD == - (c1 + c3)) by nsatz. clear Y1 Y2. split; nsatz.
Qed.

Lemma on_conic s p1 p0 k c x1 y1 x2 : y1 == k * x1 + c -> p1 - s * k == - (x1 + x2) -> p0 - s * c == x1 * x2 ->
  x1 * x1 + p1 * x1 + p0 - s * y1 == 0.
Proof. intros. nsatz. Qed.

Lemma conic_secant s p1 p0 l c1 xA yA xB yB :
  yA == l * xA + c1 -> yB == l * xB + c1 ->
  xA * xA + p1 * xA + p0 - s * yA == 0 -> xB * xB + p1 * xB + p0 - s * yB == 0 ->
  (xA - xB) * (p1 - s * l + (xA + xB)) == 0.
Proof. intros. nsatz. Qed.

Lemma conic_tangent l c1 m c2 k c4 xA yA xB yB xC yC xE yE xF yF xD yD :
  line l c1 xA yA xB yB xD yD -> line m c2 xB yB xC yC xE yE -> line k c4 xA yA xE yE xF yF -> xA == xB ->
  (xA - xE) * ((m + k) * m - xB - xC - (m + k) * l + (xA + xB)) == 0.
Proof.
  intros L1 (A2 & C2 & E2 & F2 & G2 & _) (A4 & E4 & F4 & E3 & G4 & _) Ex. destruct (domain_line_tangent _ _ _ _ _ _ _ _ L1 Ex) as [Ey Q]. clear L1.
  assert (S : (m + k) * (xA - xE) == yA + yA) by (clear Q F4 F2 E3 G2 G4; nsatz).
  assert (M : m * yA + m * yA == a + xA * xA + xA * xA + xA * xC + xA * xE - xC * xE)
    by (clear Q S A4 E4 F4 E2 E3 G4; nsatz).
  clear - H two Ex Q S M. rewrite <- Ex. clear Ex. nsatz.
Qed.

(** The conic of the second and the fourth line meets the first one in its
    first two points. *)
Lemma conic_line l c1 m c2 k c4 xA yA xB yB xC yC xE yE xF yF xD yD :
  line l c1 xA yA xB yB xD yD -> line m c2 xB yB xC yC xE yE -> line k c4 xA yA xE yE xF yF ->
  (xA == xB -> ~ xA == xE) ->
  (m + k) * m - xB - xC - (m + k) * l == - (xA + xB) /\ (m + k) * c2 + xB * xC - (m + k) * c1 == xA * xB.
Proof.
  intros L1 L2 L4 Hne.
  destruct (conic _ _ _ _ _ _ _ _ _ _ _ _ _ _ L2 (domain_line_swap _ _ _ _ _ _ _ _ L4)) as [P1 P0].
  set (p1 := (m + k) * m - xB - xC) in *. set (p0 := (m + k) * c2 + xB * xC) in *.
  assert (HA : xA * xA + p1 * xA + p0 - (m + k) * yA == 0) by (eapply on_conic; [apply L4|exact P1|exact P0]).
  assert (HB : xB * xB + p1 * xB + p0 - (m + k) * yB == 0).
  { eapply (on_conic _ _ _ m c2 _ _ xC); [apply L2|subst p1; cring|subst p0; cring]. }
  assert (E : p1 - (m + k) * l + (xA + xB) == 0).
  { destruct (decide_eq xA xB) as [Ex|Ex].
    - apply (nonzero_mul (xA - xE)); [|now apply difference, Hne]. exact (conic_tangent _ _ _ _ _ _ _ _ _ _ _ _ _ _ _ _ _ _ L1 L2 L4 Ex).
    - apply (nonzero_mul (xA - xB)); [|now apply difference]. exact (conic_secant _ _ _ _ _ _ _ _ _ (proj1 L1) (proj1 (proj2 L1)) HA HB). }
  clearbody p1 p0. destruct L1 as (Y & _). clear - H E HA Y. split; nsatz.
Qed.

Lemma two_lines l c1 m c2 w q1 q0 : q1 == w * l -> q0 == w * c1 -> q1 == w * m -> q0 == w * c2 -> w * (l - m) == 0 /\ w * (c1 - c2) == 0.
Proof. intros. split; nsatz. Qed.

(** [A, B, D], [B, C, E], [D, C, F] and [A, E, G]: the third points of the last
    two lines agree. *)
Lemma associative l c1 m c2 n c3 k c4 xA yA xB yB xC yC xD yD xE yE xF yF xG yG :
  line l c1 xA yA xB yB xD yD -> line m c2 xB yB xC yC xE yE -> line n c3 xD yD xC yC xF yF -> line k c4 xA yA xE yE xG yG ->
  ~ xA == xC -> (xA == xB -> ~ xA == xE) -> (xC == xB -> ~ xC == xD) -> (xC == xD -> ~ yC == - yD) ->
  xF == xG /\ yF == yG.
Proof.
  intros L1 L2 L3 L4 HAC HAE HCD HF.
  destruct (conic_line _ _ _ _ _ _ _ _ _ _ _ _ _ _ _ _ _ _ L1 L2 L4 HAE) as [S1 S0].
  destruct (conic_line _ _ _ _ _ _ _ _ _ _ _ _ _ _ _ _ _ _ (domain_line_swap _ _ _ _ _ _ _ _ L2) (domain_line_swap _ _ _ _ _ _ _ _ L1)
    (domain_line_swap _ _ _ _ _ _ _ _ L3) HCD) as [T1 T0].
  destruct (conic _ _ _ _ _ _ _ _ _ _ _ _ _ _ L1 L3) as [U1 U0].
  destruct (conic _ _ _ _ _ _ _ _ _ _ _ _ _ _ L2 (domain_line_swap _ _ _ _ _ _ _ _ L4)) as [V1 V0].
  assert (W : l + n == m + k).
  { destruct (two_lines l c1 m c2 ((l + n) - (m + k)) ((l + n) * l - xA - xB - ((m + k) * m - xB - xC))
      ((l + n) * c1 + xA * xB - ((m + k) * c2 + xB * xC))) as [W1 W0]; [clear - H S1; nsatz|clear - H S0; nsatz|clear - H T1; nsatz|clear - H T0; nsatz|].
    destruct (decide_eq ((l + n) - (m + k)) 0) as [E|E]; [clear - H E; nsatz|exfalso].
    apply nonzero_mul in W1, W0; try exact E.
    assert (xC == xD) as EC.
    { assert (xC - xD == 0) as E'; [|clear - H E'; nsatz]. apply (nonzero_mul (xC - xA)); [|apply difference; intros E'; apply HAC; symmetry; exact E'].
      destruct L1 as (_ & _ & _ & A1 & A2 & _), L2 as (_ & _ & _ & B1 & B2 & _). clear - H A1 A2 B1 B2 W1 W0. nsatz. }
    apply (HF EC). destruct L1 as (_ & _ & A1 & _), L2 as (_ & B1 & _). clear - H A1 B1 W1 W0 EC. nsatz. }
  assert (W1 : (l + n) * l - xA - xB == (m + k) * m - xB - xC) by (clear - H W S1; nsatz).
  assert (W0 : (l + n) * c1 + xA * xB == (m + k) * c2 + xB * xC) by (clear - H W S0; nsatz).
  assert (EF : xF == xG) by (clear - H U1 V1 W W1; nsatz).
  split; [exact EF|].
  assert (yF - yG == 0) as E; [|clear - H E; nsatz].
  apply (nonzero_mul (l + n)).
  - destruct L3 as (_ & _ & Y3 & _), L4 as (_ & _ & Y4 & _).
    clear - H U1 U0 V1 V0 W W1 W0 EF Y3 Y4. nsatz.
  - intros E. apply HAC. clear - H E W W1. nsatz.
Qed.
End Lines.
