(* ===== verification/Abelian.v ===== *)
(** * Abelian groups: multiples and orders

    An interface with the laws of an abelian group, integer multiples by
    doubling, and elements of prime order. *)
From S2P Require Import Prelude.
From Stdlib Require Import Znumtheory.

Class AbelianGroup (A : Type) (op : A -> A -> A) (e : A) (inv : A -> A) : Prop := {
  op_assoc x y z : op (op x y) z = op x (op y z);
  op_comm x y : op x y = op y x;
  op_e_l x : op e x = x;
  op_inv_l x : op (inv x) x = e
}.

Section Definitions.
Context {A : Type} (op : A -> A -> A) (e : A) (inv : A -> A).

#[local] Infix "⊕" := op (at level 50, left associativity).

Fixpoint pmul (k : positive) (x : A) : A :=
  match k with
  | xH => x
  | xO k => let y := pmul k x in y ⊕ y
  | xI k => let y := pmul k x in x ⊕ (y ⊕ y)
  end.

Definition gmul (k : Z) (x : A) : A :=
  match k with Z0 => e | Zpos k => pmul k x | Zneg k => inv (pmul k x) end.

End Definitions.

Section Multiples.
Context {A : Type} {op : A -> A -> A} {e : A} {inv : A -> A} `{!AbelianGroup A op e inv}.

#[local] Infix "⊕" := op (at level 50, left associativity).
#[local] Abbreviation pmul := (pmul op).
#[local] Abbreviation gmul := (gmul op e inv).

(** The laws, for this group. *)
Lemma assoc_op x y z : (x ⊕ y) ⊕ z = x ⊕ (y ⊕ z).
Proof. apply op_assoc. Qed.
Lemma comm_op x y : x ⊕ y = y ⊕ x.
Proof. apply op_comm. Qed.
Lemma e_op x : e ⊕ x = x.
Proof. apply op_e_l. Qed.
Lemma inv_l x : inv x ⊕ x = e.
Proof. apply op_inv_l. Qed.

Lemma op_e_r x : x ⊕ e = x.
Proof. by rewrite comm_op, e_op. Qed.

Lemma op_inv_r x : x ⊕ inv x = e.
Proof. by rewrite comm_op, inv_l. Qed.

Lemma op_cancel x y z : x ⊕ y = x ⊕ z -> y = z.
Proof.
  intros E. assert (inv x ⊕ (x ⊕ y) = inv x ⊕ (x ⊕ z)) as H by by rewrite E. by rewrite <- !assoc_op, !inv_l, !e_op in H.
Qed.

Lemma op_middle x y z w : (x ⊕ y) ⊕ (z ⊕ w) = (x ⊕ z) ⊕ (y ⊕ w).
Proof. rewrite !assoc_op. f_equal. by rewrite <- !assoc_op, (comm_op y z). Qed.

Lemma inv_unique x y : x ⊕ y = e -> y = inv x.
Proof. intros E. apply (op_cancel x). by rewrite E, op_inv_r. Qed.

Lemma inv_inv x : inv (inv x) = x.
Proof. symmetry. apply inv_unique, inv_l. Qed.

Lemma inv_op x y : inv (x ⊕ y) = inv x ⊕ inv y.
Proof. symmetry. apply inv_unique. by rewrite op_middle, !op_inv_r, e_op. Qed.

Lemma inv_e : inv e = e.
Proof. symmetry. apply inv_unique, e_op. Qed.

Lemma op_difference x y z w : x ⊕ y = z ⊕ w -> x ⊕ inv z = w ⊕ inv y.
Proof.
  intros E. apply (op_cancel (y ⊕ z)). rewrite op_middle, op_inv_r, op_e_r, (comm_op w), op_middle, op_inv_r, e_op.
  by rewrite comm_op.
Qed.

Lemma pmul_succ k x : pmul (Pos.succ k) x = x ⊕ pmul k x.
Proof.
  induction k as [k IH|k IH|]; cbn [Pos.succ pmul]; [|done..].
  change (pmul (Pos.succ k) x ⊕ pmul (Pos.succ k) x = x ⊕ (x ⊕ (pmul k x ⊕ pmul k x))).
  rewrite IH. by rewrite op_middle, assoc_op.
Qed.

Lemma gmul_succ k x : gmul (Z.succ k) x = x ⊕ gmul k x.
Proof.
  destruct k as [|k|k]; cbn [gmul].
  - by rewrite op_e_r.
  - rewrite <- Pos2Z.inj_succ. apply pmul_succ.
  - destruct (Pos.succ_pred_or k) as [->|E]; [cbn; by rewrite op_inv_r|].
    rewrite <- E. rewrite pmul_succ, inv_op, <- assoc_op, op_inv_r, e_op.
    by replace (Z.succ (Z.neg (Pos.succ (Pos.pred k)))) with (Z.neg (Pos.pred k)) by lia.
Qed.

Lemma gmul_0 x : gmul 0 x = e.
Proof. done. Qed.

Lemma gmul_1 x : gmul 1 x = x.
Proof. done. Qed.

Lemma gmul_pred k x : gmul (Z.pred k) x = inv x ⊕ gmul k x.
Proof. rewrite <- (Z.succ_pred k) at 2. by rewrite gmul_succ, <- assoc_op, inv_l, e_op. Qed.

Lemma gmul_add j k x : gmul (j + k) x = gmul j x ⊕ gmul k x.
Proof.
  induction j as [|j IH|j IH] using Z.peano_ind.
  - by rewrite Z.add_0_l, gmul_0, e_op.
  - by rewrite Z.add_succ_l, !gmul_succ, IH, assoc_op.
  - by rewrite Z.add_pred_l, !gmul_pred, IH, assoc_op.
Qed.

Lemma gmul_opp k x : gmul (- k) x = inv (gmul k x).
Proof. apply inv_unique. rewrite <- gmul_add. by rewrite Z.add_opp_diag_r. Qed.

Lemma gmul_sub j k x : gmul (j - k) x = gmul j x ⊕ inv (gmul k x).
Proof. by rewrite <- gmul_opp, <- gmul_add. Qed.

Lemma gmul_op k x y : gmul k (x ⊕ y) = gmul k x ⊕ gmul k y.
Proof.
  induction k as [|k IH|k IH] using Z.peano_ind.
  - by rewrite !gmul_0, e_op.
  - by rewrite !gmul_succ, IH, op_middle.
  - by rewrite !gmul_pred, IH, inv_op, op_middle.
Qed.

Lemma gmul_e k : gmul k e = e.
Proof.
  induction k as [|k IH|k IH] using Z.peano_ind; [done|by rewrite gmul_succ, IH, e_op|].
  by rewrite gmul_pred, IH, inv_e, e_op.
Qed.

Lemma gmul_mul j k x : gmul (j * k) x = gmul j (gmul k x).
Proof.
  induction j as [|j IH|j IH] using Z.peano_ind; [done|..].
  - by rewrite Z.mul_succ_l, Z.add_comm, gmul_add, gmul_succ, IH.
  - rewrite Z.mul_pred_l, gmul_sub, IH, gmul_pred. apply comm_op.
Qed.

(** ** Elements of prime order *)

Section Order.
Context (n : Z) (prime_n : prime n).

Lemma gmul_zero_iff x k : gmul n x = e -> x <> e -> gmul k x = e <-> (n | k).
Proof.
  intros Hn Hx. split.
  - intros Hk. destruct (Zdivide_dec n k) as [|Hd]; [done|destruct Hx].
    apply prime_rel_prime in Hd; [|done]. apply rel_prime_bezout in Hd as [u v E].
    by rewrite <- (gmul_1 x), <- E, gmul_add, !gmul_mul, Hn, Hk, !gmul_e, e_op.
  - intros [q ->]. by rewrite gmul_mul, Hn, gmul_e.
Qed.

Lemma gmul_eq_iff x j k : gmul n x = e -> x <> e -> gmul j x = gmul k x <-> (n | j - k).
Proof.
  intros Hn Hx. rewrite <- (gmul_zero_iff x) by done. rewrite gmul_sub. split.
  - intros ->. apply op_inv_r.
  - intros E. rewrite <- (inv_inv (gmul k x)). apply inv_unique. by rewrite comm_op.
Qed.

Lemma gmul_mod x k : gmul n x = e -> gmul (k mod n) x = gmul k x.
Proof.
  intros Hn. assert (n <> 0) by (intros ->; by apply not_prime_0).
  rewrite (Z.div_mod k n) at 2 by done. by rewrite Z.mul_comm, gmul_add, gmul_mul, Hn, gmul_e, e_op.
Qed.

End Order.
End Multiples.
