(* ===== verification/Group.v ===== *)
(** * The group of the curve P-256

    The points of [y^2 = x^3 - 3 x + b] modulo p with their addition, a function
    on canonical coordinates, and the laws of an abelian group.  It is the
    specification the scalar multiplications and the signature check of
    libmincrypt are measured by. *)
From S2P Require Import Prelude Modular Digits P256 Primes Felem Curve Chord Abelian.
From Stdlib Require Import Znumtheory Zpow_facts.
From Stdlib Require Ncring Cring Integral_domain.

#[local] Abbreviation p := p_value.

(** ** The integers modulo p as an integral domain *)

Lemma two_p : ~ 1 + 1 =[p] 0.
Proof. intros E. by apply (eqm_eq p) in E. Qed.

Lemma p_pos : 0 < p.
Proof. reflexivity. Qed.

#[local] Instance p_ops : @Ncring.Ring_ops Z 0 1 Z.add Z.mul Z.sub Z.opp (eqm p) := {}.
#[local] Instance p_ring : Ncring.Ring (Ro := p_ops).
Proof.
  split; try exact _; intros; apply eqm_eq_refl;
    cbv beta delta [Algebra_syntax.addition Algebra_syntax.multiplication Algebra_syntax.subtraction Algebra_syntax.opposite
      Algebra_syntax.zero Algebra_syntax.one Ncring.add_notation Ncring.mul_notation Ncring.sub_notation Ncring.opp_notation
      Ncring.zero_notation Ncring.one_notation]; ring.
Qed.
#[local] Instance p_cring : Cring.Cring (Rr := p_ring).
Proof. intros x y. apply eqm_eq_refl. apply Z.mul_comm. Qed.
#[local] Instance p_domain : Integral_domain.Integral_domain (Rcr := p_cring).
Proof.
  split; [exact p_prime_mul|]. intros E. by apply (eqm_eq p) in E.
Qed.

Lemma eqm_dec (x y : Z) : x =[p] y \/ ~ x =[p] y.
Proof. rewrite eqm_eq by done. destruct (Z.eq_dec (x mod p) (y mod p)); [by left|by right]. Qed.

(** ** Lines, from Chord *)

Definition line (l c : Z) (A B R : point) : Prop := Chord.line (-3) b_value l c A.1 A.2 B.1 B.2 R.1 R.2.
Definition on_curve (A : point) : Prop := A.2 * A.2 =[p] A.1 * A.1 * A.1 + (-3) * A.1 + b_value.

Lemma line_swap l c A B R : line l c A B R -> line l c B A R.
Proof. apply Chord.domain_line_swap. Qed.

Definition opp (A : point) : point := (A.1, - A.2).

Lemma line_turn l c A B R : line l c A B R -> line l c A (opp R) (opp B).
Proof. apply Chord.domain_line_turn. Qed.

Lemma line_opp l c A B R : line l c A B R -> line (- l) (- c) (opp A) (opp B) (opp R).
Proof. apply Chord.domain_line_opp. Qed.

Lemma line_curve l c A B R : line l c A B R -> on_curve A /\ on_curve B /\ on_curve R.
Proof. exact (Chord.domain_line_curve (-3) b_value two_p l c A.1 A.2 B.1 B.2 R.1 R.2). Qed.

Lemma line_chord l c A B R : line l c A B R -> l * (B.1 - A.1) =[p] B.2 - A.2.
Proof. exact (Chord.domain_line_chord (-3) b_value l c A.1 A.2 B.1 B.2 R.1 R.2). Qed.

Lemma line_tangent l c A B R : line l c A B R -> A.1 =[p] B.1 -> A.2 =[p] B.2 /\ l * (A.2 + A.2) =[p] 3 * (A.1 * A.1 - 1).
Proof.
  intros L E. destruct (Chord.domain_line_tangent _ _ _ _ _ _ _ _ _ _ L E) as [H1 H2]. split; [exact H1|].
  transitivity (A.1 * A.1 + A.1 * A.1 + A.1 * A.1 + -3); [exact H2|]. apply eqm_eq_refl. ring.
Qed.

Lemma line_third l c A B R : line l c A B R -> on_line l A B R.
Proof. exact (Chord.domain_line_third (-3) b_value l c A.1 A.2 B.1 B.2 R.1 R.2). Qed.

#[export] Instance line_proper l c : Proper (point_eq ==> point_eq ==> point_eq ==> iff) (line l c).
Proof.
  assert (forall A A' B B' R R', point_eq A A' -> point_eq B B' -> point_eq R R' -> line l c A B R -> line l c A' B' R') as H.
  { intros A A' B B' R R' [E1 E2] [E3 E4] [E5 E6] (H1 & H2 & H3 & H4 & H5 & H6). unfold line, Chord.line.
    split_and!; [by rewrite <- E2, <- E1|by rewrite <- E4, <- E3|by rewrite <- E6, <- E5|by rewrite <- E1, <- E3, <- E5..]. }
  intros A A' EA B B' EB R R' ER. split; apply H; (done || by symmetry).
Qed.

(** The points where the curve meets its axis are simple: no line is tangent
    there. *)
Lemma smooth x : x * x * x + (-3) * x + b_value =[p] 0 -> 3 * (x * x - 1) =[p] 0 -> False.
Proof.
  intros E D. apply p_prime_mul in D as [D|D]; [by apply (eqm_eq p) in D|].
  assert (x * x =[p] 1) as X. { transitivity (x * x - 1 + 1); [apply eqm_eq_refl; ring|]. by rewrite D. }
  assert (b_value =[p] 2 * x) as B.
  { transitivity (x * x * x + (-3) * x + b_value - x * x * x + 3 * x); [apply eqm_eq_refl; ring|]. rewrite E, X. apply eqm_eq_refl. ring. }
  assert (b_value * b_value =[p] 4) as B2. { rewrite B. transitivity (4 * (x * x)); [apply eqm_eq_refl; ring|]. rewrite X. done. }
  apply (eqm_eq p) in B2; [|done]. revert B2. vm_compute. discriminate.
Qed.

(** Opposite points: the vertical lines. *)
Definition opposite (A B : point) : Prop := A.1 =[p] B.1 /\ A.2 =[p] - B.2.

Lemma line_not_opposite l c A B R : line l c A B R -> ~ opposite A B.
Proof.
  intros L [Ex Ey]. destruct (line_tangent _ _ _ _ _ L Ex) as [Ey' T]. pose proof (line_curve _ _ _ _ _ L) as (C & _).
  assert (A.2 =[p] 0) as Y.
  { apply p_odd. transitivity (A.2 + A.2); [apply eqm_eq_refl; ring|]. rewrite Ey at 1. rewrite Ey'. apply eqm_eq_refl. ring. }
  unfold on_curve in C. rewrite Y in C, T. apply (smooth A.1); symmetry.
  - transitivity (0 * 0); [done|]. exact C.
  - transitivity (l * (0 + 0)); [apply eqm_eq_refl; ring|]. exact T.
Qed.

Lemma line_unique l c l' c' A B R R' : line l c A B R -> line l' c' A B R' -> point_eq R R'.
Proof.
  intros L L'. assert (l =[p] l') as El.
  { destruct (eqm_dec A.1 B.1) as [Ex|Ex].
    - destruct (line_tangent _ _ _ _ _ L Ex) as [Ey T], (line_tangent _ _ _ _ _ L' Ex) as [_ T'].
      apply (p_cancel (A.2 + A.2)).
      + intros Y. apply (line_not_opposite _ _ _ _ _ L). split; [exact Ex|]. rewrite <- Ey.
        transitivity (A.2 + A.2 - A.2); [apply eqm_eq_refl; ring|]. rewrite Y. apply eqm_eq_refl. ring.
      + rewrite (Z.mul_comm _ l), (Z.mul_comm _ l'). by rewrite T, T'.
    - pose proof (line_chord _ _ _ _ _ L) as S. pose proof (line_chord _ _ _ _ _ L') as S'. apply (p_cancel (B.1 - A.1)).
      + intros E. apply Ex. symmetry. transitivity (B.1 - A.1 + A.1); [apply eqm_eq_refl; ring|]. rewrite E. apply eqm_eq_refl. ring.
      + rewrite (Z.mul_comm _ l), (Z.mul_comm _ l'). by rewrite S, S'. }
  destruct (line_third _ _ _ _ _ L) as [X Y], (line_third _ _ _ _ _ L') as [X' Y'].
  assert (R.1 =[p] R'.1) as E by by rewrite X, X', El. split; [exact E|]. by rewrite Y, Y', El, E.
Qed.

Lemma line_of_psum A B R : on_curve A -> on_curve B -> psum A B R -> exists l c, line l c A B R.
Proof.
  intros CA CB [[Hx (l & El & HR)]|[EAB [Hy (l & El & HR)]]]; exists l, (A.2 - l * A.1).
  - pose proof (Chord.chord_line (-3) b_value l A.1 A.2 B.1 B.2 CA CB Hx El) as L.
    refine (proj1 (line_proper _ _ _ _ (reflexivity A) _ _ (reflexivity B) (l * l - A.1 - B.1, l * (A.1 - (l * l - A.1 - B.1)) - A.2) R _) L).
    destruct HR as [X Y]. split; cbn [fst snd]; [by rewrite X|by rewrite Y, X].
  - rewrite <- EAB. clear EAB CB B.
    assert (l * (A.2 + A.2) =[p] A.1 * A.1 + A.1 * A.1 + A.1 * A.1 + -3) as T.
    { transitivity (l * (2 * A.2)); [apply eqm_eq_refl; ring|]. rewrite El. apply eqm_eq_refl. ring. }
    pose proof (Chord.tangent_line (-3) b_value l A.1 A.2 CA T) as L.
    refine (proj1 (line_proper _ _ _ _ (reflexivity A) _ _ (reflexivity A) (l * l - A.1 - A.1, l * (A.1 - (l * l - A.1 - A.1)) - A.2) R _) L).
    destruct HR as [X Y]. split; cbn [fst snd]; [by rewrite X|by rewrite Y, X].
Qed.

Lemma psum_of_line l c A B R : line l c A B R -> psum A B R.
Proof.
  intros L. destruct (eqm_dec A.1 B.1) as [Ex|Ex].
  - destruct (line_tangent _ _ _ _ _ L Ex) as [Ey T]. right. split; [by split|]. split.
    + intros Y. apply (line_not_opposite _ _ _ _ _ L). split; [exact Ex|]. rewrite <- Ey, Y. done.
    + exists l. split; [|by rewrite (conj Ex Ey : point_eq A B) at 2; apply line_third with c].
      transitivity (l * (A.2 + A.2)); [apply eqm_eq_refl; ring|exact T].
  - left. split; [exact Ex|]. exists l. split; [exact (line_chord _ _ _ _ _ L)|exact (line_third _ _ _ _ _ L)].
Qed.

(** ** The addition, on canonical coordinates *)

(** [None] is the point at infinity. *)
Definition elt : Type := option point.

Definition inv_p (x : Z) : Z := Zpow_mod x (p - 2) p.

(** The third point of a line of slope [l], reflected. *)
Definition third (l : Z) (A B : point) : point :=
  let x := (l * l - A.1 - B.1) mod p in (x, (l * (A.1 - x) - A.2) mod p).

Definition add (P Q : elt) : elt :=
  match P, Q with
  | None, _ => Q
  | _, None => P
  | Some A, Some B =>
      if A.1 =? B.1 then
        if (A.2 + B.2) mod p =? 0 then None else Some (third (3 * (A.1 * A.1 - 1) * inv_p (2 * A.2)) A A)
      else Some (third ((B.2 - A.2) * inv_p (B.1 - A.1)) A B)
  end.

Definition neg (P : elt) : elt := match P with None => None | Some A => Some (A.1, (- A.2) mod p) end.

Definition canonical (A : point) : Prop := 0 <= A.1 < p /\ 0 <= A.2 < p.
Definition valid (P : elt) : Prop := match P with None => True | Some A => canonical A /\ on_curve A end.

Lemma canonical_eq A B : canonical A -> canonical B -> point_eq A B -> A = B.
Proof.
  destruct A, B. intros [H1 H2] [H3 H4] [E1 E2]. cbn [fst snd] in *.
  apply eqm_small in E1; [|exact H1]. apply eqm_small in E2; [|exact H2].
  rewrite (Z.mod_small _ _ H3) in E1. rewrite (Z.mod_small _ _ H4) in E2. by subst.
Qed.

Lemma Zpow_mod_eqm x e m : m <> 0 -> Zpow_mod x e m =[m] x ^ e.
Proof. intros Hm. rewrite Zpow_mod_correct by exact Hm. apply eqm_mod. Qed.

Lemma p_nonzero : p <> 0.
Proof. intros E. pose proof p_pos. lia. Qed.

Lemma inv_p_finv x : inv_p x =[p] finv x.
Proof. exact (Zpow_mod_eqm x (p - 2) p p_nonzero). Qed.

Lemma inv_p_spec x : ~ x =[p] 0 -> x * inv_p x =[p] 1.
Proof. intros H. rewrite inv_p_finv. exact (finv_spec x H). Qed.

Lemma third_canonical l A B : canonical (third l A B).
Proof. unfold third, canonical. cbn [fst snd]. split; by apply Z.mod_pos_bound. Qed.

Lemma third_on_line l A B : on_line l A B (third l A B).
Proof. unfold third, on_line. cbn [fst snd]. split; by rewrite eqm_mod. Qed.

Lemma canonical_same x y : 0 <= x < p -> 0 <= y < p -> x =[p] y <-> x = y.
Proof.
  intros Hx Hy. split; [|intros ->; reflexivity]. intros E. apply eqm_small in E; [|exact Hx]. rewrite E. apply Z.mod_small, Hy.
Qed.

(** The sum of two points, by cases. *)
Lemma add_cases A B :
  canonical A -> canonical B -> on_curve A -> on_curve B ->
  opposite A B /\ add (Some A) (Some B) = None
  \/ ~ opposite A B /\ exists R, add (Some A) (Some B) = Some R /\ canonical R /\ psum A B R.
Proof.
  intros HA HB CA CB. unfold add. destruct (Z.eqb_spec A.1 B.1) as [Ex|Ex].
  - destruct (Z.eqb_spec ((A.2 + B.2) mod p) 0) as [Ey|Ey].
    + left. split; [|done]. split; [by rewrite Ex|]. assert (A.2 + B.2 =[p] 0) as E by by apply eqm_eq.
      transitivity (A.2 + B.2 - B.2); [apply eqm_eq_refl; ring|]. rewrite E. done.
    + right. assert (~ A.2 + B.2 =[p] 0) as Hs by (intros E; apply Ey; by apply (eqm_eq p) in E).
      split; [intros [_ E]; apply Hs; rewrite E; apply eqm_eq_refl; ring|]. eexists. split; [done|]. split; [apply third_canonical|].
      assert (A.2 =[p] B.2) as Ey2.
      { assert ((A.2 - B.2) * (A.2 + B.2) =[p] 0) as M.
        { transitivity (A.2 * A.2 - B.2 * B.2); [apply eqm_eq_refl; ring|]. unfold on_curve in *. rewrite CA, CB, Ex. apply eqm_eq_refl. ring. }
        apply p_prime_mul in M as [M|M]; [|done]. transitivity (A.2 - B.2 + B.2); [apply eqm_eq_refl; ring|]. by rewrite M. }
      right. split; [by split; [rewrite Ex|]|].
      assert (~ A.2 =[p] 0) as Hy. { intros Y. apply Hs. by rewrite <- Ey2, Y. }
      split; [exact Hy|]. eexists. split; [|apply third_on_line].
      rewrite <- Z.mul_assoc, (Z.mul_comm (inv_p _)), inv_p_spec; [by rewrite Z.mul_1_r|]. intros E. by apply Hy, p_odd.
  - right. assert (~ A.1 =[p] B.1) as Hx by (rewrite canonical_same; [done|apply HA|apply HB]).
    split; [by intros [E _]|]. eexists. split; [done|]. split; [apply third_canonical|]. left. split; [exact Hx|].
    eexists. split; [|apply third_on_line]. rewrite <- Z.mul_assoc, (Z.mul_comm (inv_p _)), inv_p_spec; [by rewrite Z.mul_1_r|].
    intros E. apply Hx. transitivity (B.1 - (B.1 - A.1)); [apply eqm_eq_refl; ring|]. rewrite E. apply eqm_eq_refl. ring.
Qed.

(** Collinear points have a sum, and it is the third. *)
Lemma add_line l c A B R :
  canonical A -> canonical B -> canonical R -> line l c A B R -> add (Some A) (Some B) = Some R.
Proof.
  intros HA HB HR L. destruct (line_curve _ _ _ _ _ L) as (CA & CB & _).
  destruct (add_cases A B HA HB CA CB) as [[Ho _]|[_ (R' & -> & HR' & S)]]; [by apply line_not_opposite in L|].
  destruct (line_of_psum A B R' CA CB S) as (l' & c' & L'). f_equal. apply canonical_eq; [done..|]. by apply (line_unique l' c' l c A B).
Qed.

Lemma line_add A B R :
  canonical A -> canonical B -> on_curve A -> on_curve B -> add (Some A) (Some B) = Some R ->
  canonical R /\ on_curve R /\ exists l c, line l c A B R.
Proof.
  intros HA HB CA CB E. destruct (add_cases A B HA HB CA CB) as [[_ E']|[_ (R' & E' & HR & S)]]; rewrite E in E'; [done|].
  injection E' as <-. destruct (line_of_psum A B R CA CB S) as (l & c & L). split; [exact HR|]. split; [apply (line_curve _ _ _ _ _ L)|by exists l, c].
Qed.

Lemma add_valid P Q : valid P -> valid Q -> valid (add P Q).
Proof.
  destruct P as [A|], Q as [B|]; try done. intros [HA CA] [HB CB].
  destruct (add (Some A) (Some B)) as [R|] eqn:E; [|done]. by destruct (line_add A B R HA HB CA CB E) as (H1 & H2 & _).
Qed.

Lemma neg_canonical A : canonical A -> canonical (A.1, (- A.2) mod p).
Proof. intros [H _]. split; [exact H|]. by apply Z.mod_pos_bound. Qed.

Lemma neg_opp A : point_eq (A.1, (- A.2) mod p) (opp A).
Proof. split; cbn [opp fst snd]; [done|]. apply eqm_mod. Qed.

Lemma neg_valid P : valid P -> valid (neg P).
Proof.
  destruct P as [A|]; [|done]. intros [H C]. split; [by apply neg_canonical|]. unfold on_curve in *. cbn [fst snd].
  rewrite eqm_mod. rewrite <- C. apply eqm_eq_refl. ring.
Qed.

Lemma neg_neg P : valid P -> neg (neg P) = P.
Proof.
  destruct P as [A|]; [|done]. intros [H _]. cbn [neg fst snd]. f_equal.
  apply canonical_eq; [split; [apply H|apply Z.mod_pos_bound, p_pos]|done|].
  split; cbn [fst snd]; [done|]. rewrite !eqm_mod. apply eqm_eq_refl. ring.
Qed.

(** ** The laws *)

Lemma add_0_l P : add None P = P.
Proof. done. Qed.

Lemma add_0_r P : add P None = P.
Proof. by destruct P. Qed.

Lemma add_comm P Q : valid P -> valid Q -> add P Q = add Q P.
Proof.
  destruct P as [A|], Q as [B|]; try done. intros [HA CA] [HB CB].
  destruct (add_cases A B HA HB CA CB) as [[[E1 E2] ->]|[Ho (R & E & HR & S)]].
  - destruct (add_cases B A HB HA CB CA) as [[_ ->]|[Ho _]]; [done|]. destruct Ho. split; [by symmetry|]. rewrite E2. apply eqm_eq_refl. ring.
  - rewrite E. destruct (line_of_psum A B R CA CB S) as (l & c & L). symmetry. apply (add_line l c); [done..|]. by apply line_swap.
Qed.

Lemma add_neg P : valid P -> add P (neg P) = None.
Proof.
  destruct P as [A|]; [|done]. intros HP. pose proof (neg_valid _ HP) as [HN CN]. destruct HP as [HA CA].
  destruct (add_cases A _ HA HN CA CN) as [[_ E]|[Ho _]]; [exact E|]. destruct Ho. split; [done|]. cbn [fst snd].
  rewrite eqm_mod. apply eqm_eq_refl. ring.
Qed.

Lemma opposite_neg A B : canonical A -> canonical B -> opposite A B -> Some B = neg (Some A).
Proof.
  intros HA HB [E1 E2]. cbn [neg]. f_equal. apply canonical_eq; [done|by apply neg_canonical|].
  split; cbn [fst snd]; [by symmetry|]. rewrite eqm_mod, E2. apply eqm_eq_refl. ring.
Qed.

(** [- A + (A + B) = B] *)
Lemma add_cancel P Q : valid P -> valid Q -> add (neg P) (add P Q) = Q.
Proof.
  intros HP HQ. pose proof (neg_valid P HP) as HN. pose proof (neg_neg P HP) as NN. pose proof (add_neg P HP) as AN.
  destruct P as [A|]; [|done]. destruct Q as [B|]; [|rewrite add_0_r; by rewrite add_comm].
  destruct HP as [HA CA], HQ as [HB CB].
  destruct (add_cases A B HA HB CA CB) as [[Ho E]|[_ (R & E & HR & S)]]; rewrite E.
  - rewrite add_0_r. symmetry. by apply opposite_neg.
  - destruct (line_of_psum A B R CA CB S) as (l & c & L). apply line_turn, line_opp in L.
    destruct HN as [HN _]. apply (add_line (- l) (- c)); [done..|].
    refine (proj1 (line_proper _ _ _ _ _ _ _ _ _ _ _) L); [by rewrite neg_opp|split; cbn; [done|apply eqm_eq_refl; ring]..].
Qed.

Lemma add_none P Q : valid P -> valid Q -> add P Q = None -> Q = neg P.
Proof. intros HP HQ E. rewrite <- (add_cancel P Q HP HQ), E. apply add_0_r. Qed.

Lemma neg_add P Q : valid P -> valid Q -> neg (add P Q) = add (neg P) (neg Q).
Proof.
  intros HP HQ. destruct (add P Q) as [R|] eqn:E.
  2: { apply add_none in E as ->; [|done..]. symmetry. apply add_neg. by apply neg_valid. }
  destruct P as [A|], Q as [B|]; try (cbn in E; by injection E as <-); [|done]. destruct HP as [HA CA], HQ as [HB CB].
  destruct (line_add A B R HA HB CA CB E) as (HR & CR & l & c & L). symmetry.
  apply line_opp in L. apply (add_line (- l) (- c)); [by apply neg_canonical..|]. by rewrite !neg_opp.
Qed.

(** [A + (B - (A + B)) = O] and the like, by cancellation. *)
Lemma add_cancel_r P Q : valid P -> valid Q -> add (add P Q) (neg Q) = P.
Proof.
  intros HP HQ. rewrite add_comm, (add_comm P Q); [|done..|by apply add_valid|by apply neg_valid]. by apply add_cancel.
Qed.

(** Two points of an abscissa. *)
Lemma same_abscissa A B : on_curve A -> on_curve B -> A.1 =[p] B.1 -> A.2 =[p] B.2 \/ A.2 =[p] - B.2.
Proof.
  intros CA CB Ex. assert ((A.2 - B.2) * (A.2 + B.2) =[p] 0) as M.
  { transitivity (A.2 * A.2 - B.2 * B.2); [apply eqm_eq_refl; ring|]. unfold on_curve in *. rewrite CA, CB, Ex. apply eqm_eq_refl. ring. }
  apply p_prime_mul in M as [M|M]; [left|right].
  - transitivity (A.2 - B.2 + B.2); [apply eqm_eq_refl; ring|]. by rewrite M.
  - transitivity (A.2 + B.2 - B.2); [apply eqm_eq_refl; ring|]. by rewrite M.
Qed.

(** [B + C] and [A = B] have different abscissas. *)
Lemma sum_moves A B C E l c R :
  valid (Some A) -> valid (Some B) -> valid (Some C) -> valid (Some E) ->
  add (Some B) (Some C) = Some E -> line l c A E R -> point_eq A B -> ~ A.1 =[p] E.1.
Proof.
  intros HA HB HC HE E1 L EAB Ex. destruct (same_abscissa A E) as [Ey|Ey]; [apply HA|apply HE|exact Ex| |].
  - assert (A = B) as <- by (apply canonical_eq; [apply HA|apply HB|exact EAB]).
    assert (A = E) as <- by (apply canonical_eq; [apply HA|apply HE|by split]).
    pose proof (add_cancel _ _ HA HC) as K. rewrite E1, add_comm, add_neg in K; [discriminate|exact HA|by apply neg_valid|exact HA].
  - apply (line_not_opposite _ _ _ _ _ L). by split.
Qed.

(** Associativity where all sums are finite and the outer abscissas differ. *)
Lemma add_assoc_lines A B C D E F G :
  valid (Some A) -> valid (Some B) -> valid (Some C) ->
  add (Some A) (Some B) = Some D -> add (Some B) (Some C) = Some E ->
  add (Some D) (Some C) = Some F -> add (Some A) (Some E) = Some G -> ~ A.1 =[p] C.1 -> F = G.
Proof.
  intros VA VB VC E1 E2 E3 E4 Hx. pose proof VA as [HA CA]. pose proof VB as [HB CB]. pose proof VC as [HC CC].
  destruct (line_add A B D HA HB CA CB E1) as (HD & CD & l & c1 & L1), (line_add B C E HB HC CB CC E2) as (HE & CE & m & c2 & L2).
  destruct (line_add D C F HD HC CD CC E3) as (HF & CF & n & c3 & L3), (line_add A E G HA HE CA CE E4) as (HG & CG & k & c4 & L4).
  apply canonical_eq; [done..|].
  apply (Chord.associative (-3) b_value eqm_dec l c1 m c2 n c3 k c4 A.1 A.2 B.1 B.2 C.1 C.2 D.1 D.2 E.1 E.2 F.1 F.2 G.1 G.2 L1 L2 L3 L4 Hx).
  - intros X. apply (sum_moves A B C E k c4 G); [done..|exact E2|exact L4|]. split; [exact X|]. by apply (line_tangent _ _ _ _ _ L1).
  - intros X. apply (sum_moves C B A D n c3 F); [done..|by rewrite add_comm|by apply line_swap|]. split; [exact X|].
    symmetry. by apply (line_tangent _ _ _ _ _ L2).
  - intros X Y. apply (line_not_opposite _ _ _ _ _ (line_swap _ _ _ _ _ L3)). split; [exact X|exact Y].
Qed.

Lemma sum_zero P Q R : valid P -> valid Q -> R = neg (add P Q) -> add P (add Q R) = None.
Proof.
  intros HP HQ ->. pose proof (neg_valid Q HQ). assert (add Q (neg (add P Q)) = neg P) as ->; [|by apply add_neg].
  rewrite (add_comm P Q) by done. rewrite <- (neg_neg Q) at 1 by done. rewrite <- neg_add; [|done|by apply add_valid].
  by rewrite add_cancel.
Qed.

Lemma add_assoc P Q R : valid P -> valid Q -> valid R -> add (add P Q) R = add P (add Q R).
Proof.
  intros HP HQ HR. pose proof (add_valid P Q HP HQ) as HD. pose proof (add_valid Q R HQ HR) as HE.
  pose proof (neg_valid P HP) as HNP. pose proof (neg_valid Q HQ) as HNQ. pose proof (neg_valid R HR) as HNR.
  destruct P as [A|]; [|done]. destruct Q as [B|]; [|done]. destruct R as [C|]; [|by rewrite !add_0_r].
  destruct (add (Some A) (Some B)) as [D|] eqn:E1.
  2: { apply add_none in E1 as E1'; [|done..]. rewrite add_0_l. rewrite E1'. rewrite <- (neg_neg (Some A)) at 1 by done.
       symmetry. by apply add_cancel. }
  destruct (add (Some B) (Some C)) as [E|] eqn:E2.
  2: { apply add_none in E2 as E2'; [|done..]. rewrite add_0_r, E2', <- E1. by apply add_cancel_r. }
  destruct (eqm_dec A.1 C.1) as [Ex|Ex].
  { destruct (same_abscissa A C) as [Ey|Ey]; [apply HP|apply HR|exact Ex| |].
    - assert (A = C) as <- by (apply canonical_eq; [apply HP|apply HR|by split]).
      rewrite (add_comm (Some A) (Some E)), <- E1, <- E2 by done. f_equal. by apply add_comm.
    - assert (Some C = neg (Some A)) as EC by (apply opposite_neg; [apply HP|apply HR|by split]).
      rewrite <- E1, <- E2, EC. rewrite (add_comm (Some B)) by done. rewrite add_comm, add_cancel by (done || by rewrite E1).
      rewrite <- (neg_neg (Some A)) at 1 by done. by rewrite add_cancel. }
  destruct (add (Some D) (Some C)) as [F|] eqn:E3.
  2: { apply add_none in E3; [|done..]. rewrite <- E2. symmetry. apply sum_zero; [done..|]. by rewrite E1. }
  destruct (add (Some A) (Some E)) as [G|] eqn:E4.
  2: { apply add_none in E4; [|done..]. rewrite <- E3, <- E1, add_comm, (add_comm (Some A)) by (done || by rewrite E1).
       apply sum_zero; [done..|]. rewrite (add_comm (Some C)), E2, E4 by done. by rewrite neg_neg. }
  f_equal. by apply (add_assoc_lines A B C D E F G).
Qed.

(** ** The group *)

Definition validb (P : elt) : bool :=
  match P with
  | None => true
  | Some A => (0 <=? A.1) && (A.1 <? p) && (0 <=? A.2) && (A.2 <? p)
              && ((A.2 * A.2) mod p =? (A.1 * A.1 * A.1 + (-3) * A.1 + b_value) mod p)
  end.

Lemma validb_spec P : validb P = true <-> valid P.
Proof.
  destruct P as [[x y]|]; [|done]. cbn [validb valid fst snd]. unfold canonical, on_curve. cbn [fst snd].
  rewrite !andb_true_iff, !Z.leb_le, !Z.ltb_lt, Z.eqb_eq, eqm_eq by exact p_nonzero. tauto.
Qed.

(** The points of the curve. *)
Record gpoint : Type := GPoint { coords : elt; coords_valid : validb coords = true }.

Lemma gpoint_eq P Q : coords P = coords Q -> P = Q.
Proof.
  destruct P as [P HP], Q as [Q HQ]. cbn [coords]. intros ->. f_equal. apply (Eqdep_dec.UIP_dec Bool.bool_dec).
Qed.

#[export] Instance gpoint_eq_dec : EqDecision gpoint.
Proof.
  intros P Q. destruct (decide (coords P = coords Q)) as [E|E]; [left; by apply gpoint_eq|right; by intros ->].
Defined.

Lemma gpoint_valid P : valid (coords P).
Proof. apply validb_spec, coords_valid. Qed.

Definition gzero : gpoint := GPoint None eq_refl.
Program Definition gadd (P Q : gpoint) : gpoint := GPoint (add (coords P) (coords Q)) _.
Next Obligation. intros P Q. apply validb_spec, add_valid; apply gpoint_valid. Qed.
Program Definition gneg (P : gpoint) : gpoint := GPoint (neg (coords P)) _.
Next Obligation. intros P. apply validb_spec, neg_valid, gpoint_valid. Qed.

#[export] Instance gpoint_group : AbelianGroup gpoint gadd gzero gneg.
Proof.
  split; intros; apply gpoint_eq; cbn [coords gadd gneg gzero].
  - apply add_assoc; apply gpoint_valid.
  - apply add_comm; apply gpoint_valid.
  - apply add_0_l.
  - rewrite add_comm by (apply neg_valid, gpoint_valid || apply gpoint_valid). apply add_neg, gpoint_valid.
Qed.

(** [k P] *)
Abbreviation mul := (gmul gadd gzero gneg).
