(* ===== verification/P256Point.v ===== *)
(** * Group operations of libmincrypt/p256_ec.c

    Points are triples of field elements in Jacobian coordinates.  The
    functions up to select_jacobian_point, and what they compute. *)
From S2P Require Import Prelude Modular Digits P256 Primes Felem Curve.

(** [{x, y, z}]; a C function that sets three arrays returns a triple. *)
Abbreviation jpoint := (list Z * list Z * list Z)%type.

Definition point_double (x y z : list Z) : jpoint :=
  let delta := felem_square z in
  let gamma := felem_square y in
  let beta := felem_mul x gamma in
  let tmp := felem_sum x delta in
  let tmp2 := felem_diff x delta in
  let alpha := felem_mul tmp tmp2 in
  let alpha := felem_scalar_3 alpha in
  let tmp := felem_sum y z in
  let tmp := felem_square tmp in
  let tmp := felem_diff tmp gamma in
  let z_out := felem_diff tmp delta in
  let beta := felem_scalar_4 beta in
  let x_out := felem_square alpha in
  let x_out := felem_diff x_out beta in
  let x_out := felem_diff x_out beta in
  let tmp := felem_diff beta x_out in
  let tmp := felem_mul alpha tmp in
  let tmp2 := felem_square gamma in
  let tmp2 := felem_scalar_8 tmp2 in
  let y_out := felem_diff tmp tmp2 in
  (x_out, y_out, z_out).

Definition point_add_mixed (x1 y1 z1 x2 y2 : list Z) : jpoint :=
  let z1z1 := felem_square z1 in
  let tmp := felem_sum z1 z1 in
  let u2 := felem_mul x2 z1z1 in
  let z1z1z1 := felem_mul z1 z1z1 in
  let s2 := felem_mul y2 z1z1z1 in
  let h := felem_diff u2 x1 in
  let i := felem_sum h h in
  let i := felem_square i in
  let j := felem_mul h i in
  let r := felem_diff s2 y1 in
  let r := felem_sum r r in
  let v := felem_mul x1 i in
  let z_out := felem_mul tmp h in
  let rr := felem_square r in
  let x_out := felem_diff rr j in
  let x_out := felem_diff x_out v in
  let x_out := felem_diff x_out v in
  let tmp := felem_diff v x_out in
  let y_out := felem_mul tmp r in
  let tmp := felem_mul y1 j in
  let y_out := felem_diff y_out tmp in
  let y_out := felem_diff y_out tmp in
  (x_out, y_out, z_out).

Definition point_add (x1 y1 z1 x2 y2 z2 : list Z) : jpoint :=
  let z1z1 := felem_square z1 in
  let z2z2 := felem_square z2 in
  let u1 := felem_mul x1 z2z2 in
  let tmp := felem_sum z1 z2 in
  let tmp := felem_square tmp in
  let tmp := felem_diff tmp z1z1 in
  let tmp := felem_diff tmp z2z2 in
  let z2z2z2 := felem_mul z2 z2z2 in
  let s1 := felem_mul y1 z2z2z2 in
  let u2 := felem_mul x2 z1z1 in
  let z1z1z1 := felem_mul z1 z1z1 in
  let s2 := felem_mul y2 z1z1z1 in
  let h := felem_diff u2 u1 in
  let i := felem_sum h h in
  let i := felem_square i in
  let j := felem_mul h i in
  let r := felem_diff s2 s1 in
  let r := felem_sum r r in
  let v := felem_mul u1 i in
  let z_out := felem_mul tmp h in
  let rr := felem_square r in
  let x_out := felem_diff rr j in
  let x_out := felem_diff x_out v in
  let x_out := felem_diff x_out v in
  let tmp := felem_diff v x_out in
  let y_out := felem_mul tmp r in
  let tmp := felem_mul s1 j in
  let y_out := felem_diff y_out tmp in
  let y_out := felem_diff y_out tmp in
  (x_out, y_out, z_out).

Definition point_add_or_double_vartime (x1 y1 z1 x2 y2 z2 : list Z) : jpoint :=
  let z1z1 := felem_square z1 in
  let z2z2 := felem_square z2 in
  let u1 := felem_mul x1 z2z2 in
  let tmp := felem_sum z1 z2 in
  let tmp := felem_square tmp in
  let tmp := felem_diff tmp z1z1 in
  let tmp := felem_diff tmp z2z2 in
  let z2z2z2 := felem_mul z2 z2z2 in
  let s1 := felem_mul y1 z2z2z2 in
  let u2 := felem_mul x2 z1z1 in
  let z1z1z1 := felem_mul z1 z1z1 in
  let s2 := felem_mul y2 z1z1z1 in
  let h := felem_diff u2 u1 in
  let x_equal := felem_is_zero_vartime h in
  let i := felem_sum h h in
  let i := felem_square i in
  let j := felem_mul h i in
  let r := felem_diff s2 s1 in
  let y_equal := felem_is_zero_vartime r in
  if x_equal && y_equal then point_double x1 y1 z1 else
  let r := felem_sum r r in
  let v := felem_mul u1 i in
  let z_out := felem_mul tmp h in
  let rr := felem_square r in
  let x_out := felem_diff rr j in
  let x_out := felem_diff x_out v in
  let x_out := felem_diff x_out v in
  let tmp := felem_diff v x_out in
  let y_out := felem_mul tmp r in
  let tmp := felem_mul s1 j in
  let y_out := felem_diff y_out tmp in
  let y_out := felem_diff y_out tmp in
  (x_out, y_out, z_out).

(** [tmp = mask & (in[i] ^ out[i]); out[i] ^= tmp;] for every limb. *)
Definition copy_conditional (out inp : list Z) (mask : Z) : list Z :=
  zip_with (fun o x => o .^ (mask .& (x .^ o))) out inp.

(** The mask of the [i]-th entry: all ones when [i] is [index], both below 16. *)
Definition select_mask (i index : Z) : Z :=
  let mask := i .^ index in
  let mask := mask .| (mask >> 2) in
  let mask := mask .| (mask >> 1) in
  let mask := mask .& 1 in
  u32 (mask - 1).

(** [for (j = 0; j < NLIMBS; j++, table++) out[j] |= *table & mask;] *)
Definition or_masked (out table : list Z) (mask : Z) : list Z :=
  zip_with (fun o t => o .| (t .& mask)) out (take NLIMBS table).

Definition select_affine_point (table : list Z) (index : Z) : list Z * list Z :=
  let out_x := replicate NLIMBS 0 in
  let out_y := replicate NLIMBS 0 in
  let '(out_x, out_y, _) :=
    for_ 1 15 (fun i st =>
      let '(out_x, out_y, table) := st in
      let mask := select_mask (Z.of_nat i) index in
      let out_x := or_masked out_x table mask in
      let table := drop NLIMBS table in
      let out_y := or_masked out_y table mask in
      let table := drop NLIMBS table in
      (out_x, out_y, table)) (out_x, out_y, table) in
  (out_x, out_y).

Definition select_jacobian_point (table : list Z) (index : Z) : jpoint :=
  let out_x := replicate NLIMBS 0 in
  let out_y := replicate NLIMBS 0 in
  let out_z := replicate NLIMBS 0 in
  let table := drop (3 * NLIMBS) table in
  let '(out_x, out_y, out_z, _) :=
    for_ 1 15 (fun i st =>
      let '(out_x, out_y, out_z, table) := st in
      let mask := select_mask (Z.of_nat i) index in
      let out_x := or_masked out_x table mask in
      let table := drop NLIMBS table in
      let out_y := or_masked out_y table mask in
      let table := drop NLIMBS table in
      let out_z := or_masked out_z table mask in
      let table := drop NLIMBS table in
      (out_x, out_y, out_z, table)) (out_x, out_y, out_z, table) in
  (out_x, out_y, out_z).

(** * What the operations compute *)

Definition reprs (P : jpoint) (J : jac) : Prop :=
  let '(x, y, z) := P in repr x (jX J) /\ repr y (jY J) /\ repr z (jZ J).

(** [P] stands for [m] times [G] plus [n] times [Q]; see [jcomb]. *)
Definition pcomb (G Q : point) (m n : Z) (P : jpoint) : Prop := exists J, reprs P J /\ jcomb G Q m n J.

(** Elements within their bounds. *)
Definition pt_ok (P : jpoint) : Prop := let '(x, y, z) := P in fe_ok x /\ fe_ok y /\ fe_ok z.

(** [1 / R] modulo [p]. *)
Definition fRinv : Z := Eval vm_compute in
  eval [0x80000000; 1; 0xffffffff; 0; 0x80000001; 0xfffffffe; 1; 0x7fffffff].

Lemma fRinv_spec : fRinv * fR =[p_value] 1.
Proof. apply eqm_eq; [done|]. vm_compute. reflexivity. Qed.

Lemma repr_of_value x : fe_ok x -> repr x (fval x * fRinv).
Proof.
  intros H. split; [done|]. rewrite <- Z.mul_assoc, fRinv_spec. apply eqm_eq_refl. ring.
Qed.

(** [P] has the affine coordinates [q]. *)
Definition pt_affine (P : jpoint) (q : point) : Prop := exists J, reprs P J /\ affine J q.

(** A result [P] specified by [S]: the point at infinity when no affine point
    will do. *)
Definition outcome (P : jpoint) (S : point -> Prop) : Prop :=
  pt_ok P /\ if felem_is_zero_vartime (snd P) then ~ exists r, S r else exists r, S r /\ pt_affine P r.

(** The value of an expression in field operations. *)
Ltac felem_value :=
  repeat lazymatch goal with
  | |- repr (felem_sum _ _) _ => apply sum_repr
  | |- repr (felem_diff _ _) _ => apply diff_repr
  | |- repr (felem_mul _ _) _ => apply mul_repr
  | |- repr (felem_square _) _ => apply square_repr
  | |- repr (felem_scalar_3 _) _ => apply scalar_3_repr
  | |- repr (felem_scalar_4 _) _ => apply scalar_4_repr
  | |- repr (felem_scalar_8 _) _ => apply scalar_8_repr
  end; try assumption.

Lemma point_double_reprs x y z J : reprs (x, y, z) J -> reprs (point_double x y z) (jdouble J).
Proof.
  destruct J as [X Y Z]. intros (Hx & Hy & Hz). cbn [jX jY jZ] in *.
  unfold point_double, jdouble, reprs. cbn [jX jY jZ]. cbv zeta. split_and!; felem_value.
Qed.

Lemma point_add_reprs x1 y1 z1 x2 y2 z2 J1 J2 :
  reprs (x1, y1, z1) J1 -> reprs (x2, y2, z2) J2 -> reprs (point_add x1 y1 z1 x2 y2 z2) (jadd J1 J2).
Proof.
  destruct J1 as [X1 Y1 Z1], J2 as [X2 Y2 Z2]. intros (Hx1 & Hy1 & Hz1) (Hx2 & Hy2 & Hz2). cbn [jX jY jZ] in *.
  unfold point_add, jadd, reprs. cbn [jX jY jZ]. cbv zeta. split_and!; felem_value.
Qed.

(** The second point affine: the formulas of [jadd] for [Z2 = 1]. *)
Definition jadd_mixed (P1 : jac) (X2 Y2 : Z) : jac :=
  let '(Jac X1 Y1 Z1) := P1 in
  let H := X2 * (Z1 * Z1) - X1 in
  let I := (H + H) * (H + H) in
  let J := H * I in
  let S := Y2 * (Z1 * (Z1 * Z1)) - Y1 in
  let r := S + S in
  let V := X1 * I in
  let X3 := r * r - J - V - V in
  Jac X3 ((V - X3) * r - Y1 * J - Y1 * J) ((Z1 + Z1) * H).

Lemma jadd_mixed_eq P1 X2 Y2 : jadd_mixed P1 X2 Y2 = jadd P1 (Jac X2 Y2 1).
Proof. destruct P1. unfold jadd_mixed, jadd. f_equal; ring. Qed.

Lemma point_add_mixed_reprs x1 y1 z1 x2 y2 J1 X2 Y2 :
  reprs (x1, y1, z1) J1 -> repr x2 X2 -> repr y2 Y2 ->
  reprs (point_add_mixed x1 y1 z1 x2 y2) (jadd J1 (Jac X2 Y2 1)).
Proof.
  rewrite <- jadd_mixed_eq. destruct J1 as [X1 Y1 Z1]. intros (Hx1 & Hy1 & Hz1) Hx2 Hy2. cbn [jX jY jZ] in *.
  unfold point_add_mixed, jadd_mixed, reprs. cbn [jX jY jZ]. cbv zeta. split_and!; felem_value.
Qed.

(** [point_add_or_double_vartime] doubles exactly when both differences vanish. *)
Lemma point_add_or_double_reprs x1 y1 z1 x2 y2 z2 J1 J2 :
  reprs (x1, y1, z1) J1 -> reprs (x2, y2, z2) J2 ->
  (jH J1 J2 =[p_value] 0 /\ jS J1 J2 =[p_value] 0
     /\ reprs (point_add_or_double_vartime x1 y1 z1 x2 y2 z2) (jdouble J1))
  \/ (~ (jH J1 J2 =[p_value] 0 /\ jS J1 J2 =[p_value] 0)
     /\ reprs (point_add_or_double_vartime x1 y1 z1 x2 y2 z2) (jadd J1 J2)).
Proof.
  intros H1 H2. pose proof (point_add_reprs x1 y1 z1 x2 y2 z2 J1 J2 H1 H2) as Ha.
  pose proof (point_double_reprs x1 y1 z1 J1 H1) as Hd.
  unfold point_add_or_double_vartime. unfold point_add in Ha. cbv zeta in Ha |- *.
  match goal with |- context [felem_is_zero_vartime ?h && felem_is_zero_vartime ?r] =>
    assert (repr h (jH J1 J2)) as Hh; [|assert (repr r (jS J1 J2)) as Hr]
  end.
  - destruct J1 as [X1 Y1 Z1], J2 as [X2 Y2 Z2], H1 as (? & ? & ?), H2 as (? & ? & ?). unfold jH. cbn [jX jY jZ] in *. felem_value.
  - destruct J1 as [X1 Y1 Z1], J2 as [X2 Y2 Z2], H1 as (? & ? & ?), H2 as (? & ? & ?). unfold jS. cbn [jX jY jZ] in *. felem_value.
  - rewrite <- (is_zero_repr _ _ Hh), <- (is_zero_repr _ _ Hr).
    match goal with |- context [if ?h && ?r then _ else _] => destruct h eqn:E1, r eqn:E2 end; cbn [andb];
      [left; split; [reflexivity|split; [reflexivity|exact Hd]]
      |right; split; [by intros [? ?]|exact Ha]..].
Qed.

Section Combinations.
Context (G Q : point).

Lemma reprs_eq P J J' : reprs P J -> reprs P J' -> jac_eq J J'.
Proof.
  destruct P as [[x y] z]. intros (H1 & H2 & H3) (H1' & H2' & H3').
  split_and!; eapply repr_eqm; eassumption.
Qed.

Lemma pcomb_reprs m n P J : pcomb G Q m n P -> reprs P J -> jcomb G Q m n J.
Proof. intros (J' & HJ & Hc) H. apply jcomb_eq with J'; [|done]. by apply reprs_eq with P. Qed.

Lemma pcomb_eq m n m' n' P : pcomb G Q m n P -> m = m' -> n = n' -> pcomb G Q m' n' P.
Proof. by intros H <- <-. Qed.

Lemma point_double_comb m n x y z :
  pcomb G Q m n (x, y, z) -> pcomb G Q (2 * m) (2 * n) (point_double x y z).
Proof.
  intros (J & HJ & Hc). exists (jdouble J). split; [by apply point_double_reprs|by apply jcomb_double].
Qed.

Lemma point_add_comb m n m' n' x1 y1 z1 x2 y2 z2 :
  pcomb G Q m n (x1, y1, z1) -> pcomb G Q m' n' (x2, y2, z2) ->
  pcomb G Q (m + m') (n + n') (point_add x1 y1 z1 x2 y2 z2).
Proof.
  intros (J & HJ & Hc) (J' & HJ' & Hc'). exists (jadd J J').
  split; [by apply point_add_reprs|by apply jcomb_add].
Qed.

Lemma point_add_mixed_comb m n m' n' x1 y1 z1 x2 y2 :
  pcomb G Q m n (x1, y1, z1) -> pcomb G Q m' n' (x2, y2, kOne) ->
  pcomb G Q (m + m') (n + n') (point_add_mixed x1 y1 z1 x2 y2).
Proof.
  intros (J & HJ & Hc) (J' & HJ' & Hc'). pose proof HJ' as (Hx & Hy & Hz).
  exists (jadd J (Jac (jX J') (jY J') 1)). split; [by apply point_add_mixed_reprs|].
  apply jcomb_add; [done|]. apply jcomb_eq with J'; [|done].
  split_and!; [reflexivity..|]. exact (repr_eqm _ _ _ Hz one_repr).
Qed.

(** Neither operand at infinity: the sum, by the chord or by the tangent. *)
Lemma point_add_or_double_comb m n m' n' x1 y1 z1 x2 y2 z2 :
  pcomb G Q m n (x1, y1, z1) -> pcomb G Q m' n' (x2, y2, z2) ->
  felem_is_zero_vartime z1 = false -> felem_is_zero_vartime z2 = false ->
  pcomb G Q (m + m') (n + n') (point_add_or_double_vartime x1 y1 z1 x2 y2 z2).
Proof.
  intros (J & HJ & Hc) (J' & HJ' & Hc') Hz1 Hz2.
  assert (~ jZ J =[p_value] 0) as HZ1.
  { destruct HJ as (_ & _ & Hz). intros E. apply (is_zero_repr _ _ Hz) in E. by rewrite E in Hz1. }
  assert (~ jZ J' =[p_value] 0) as HZ2.
  { destruct HJ' as (_ & _ & Hz). intros E. apply (is_zero_repr _ _ Hz) in E. by rewrite E in Hz2. }
  destruct (Hc HZ1) as (q1 & Hq1 & C1), (Hc' HZ2) as (q2 & Hq2 & C2).
  destruct (point_add_or_double_reprs _ _ _ _ _ _ _ _ HJ HJ') as [(EH & ES & HR)|(_ & HR)].
  - exists (jdouble J). split; [exact HR|]. intros HZ. destruct (double_affine J q1 Hq1 HZ) as (r & Hr & Ht).
    exists r. split; [done|]. apply comb_add with q1 q2; [done..|]. right. split; [|done]. by apply same_affine with J J'.
  - exists (jadd J J'). split; [exact HR|]. intros HZ. destruct (add_affine J J' q1 q2 Hq1 Hq2 HZ) as (r & Hr & Ht).
    exists r. split; [done|]. apply comb_add with q1 q2; [done..|by left].
Qed.

End Combinations.

(** ** Multiples of one point

    What the loops over the bits of a scalar need of the additions: [C m P] says
    that [P] stands for [m] times some point.  They never add a multiple to
    itself, which the formulas of point_add cannot. *)
Class Multiples (C : Z -> jpoint -> Prop) : Prop := {
  mult_ok m P : C m P -> pt_ok P;
  mult_double m x y z : 0 < m -> C m (x, y, z) -> C (2 * m) (point_double x y z);
  mult_add m m' x1 y1 z1 x2 y2 z2 :
    0 < m -> 0 < m' -> m <> m' -> C m (x1, y1, z1) -> C m' (x2, y2, z2) -> C (m + m') (point_add x1 y1 z1 x2 y2 z2);
  mult_add_mixed m m' x1 y1 z1 x2 y2 :
    0 < m -> 0 < m' -> m <> m' -> C m (x1, y1, z1) -> C m' (x2, y2, kOne) -> C (m + m') (point_add_mixed x1 y1 z1 x2 y2)
}.

Lemma pcomb_ok G Q m n P : pcomb G Q m n P -> pt_ok P.
Proof. destruct P as [[x y] z]. intros (J & (Hx & Hy & Hz) & _). split_and!; [apply Hx|apply Hy|apply Hz]. Qed.

#[export] Instance multiples_left G Q : Multiples (fun m P => pcomb G Q m 0 P).
Proof.
  split; [intros m P; apply pcomb_ok|..].
  - intros m x y z _. exact (point_double_comb G Q m 0 x y z).
  - intros m m' x1 y1 z1 x2 y2 z2 _ _ _. exact (point_add_comb G Q m 0 m' 0 x1 y1 z1 x2 y2 z2).
  - intros m m' x1 y1 z1 x2 y2 _ _ _. exact (point_add_mixed_comb G Q m 0 m' 0 x1 y1 z1 x2 y2).
Qed.

#[export] Instance multiples_right G Q : Multiples (fun m P => pcomb G Q 0 m P).
Proof.
  split; [intros m P; apply pcomb_ok|..].
  - intros m x y z _. exact (point_double_comb G Q 0 m x y z).
  - intros m m' x1 y1 z1 x2 y2 z2 _ _ _. exact (point_add_comb G Q 0 m 0 m' x1 y1 z1 x2 y2 z2).
  - intros m m' x1 y1 z1 x2 y2 _ _ _. exact (point_add_mixed_comb G Q 0 m 0 m' x1 y1 z1 x2 y2).
Qed.

(** ** Copies and selections *)

Lemma copy_conditional_spec out inp b :
  words 32 out -> words 32 inp -> length out = length inp ->
  copy_conditional out inp (mask_of b) = if b then inp else out.
Proof.
  intros Ho. revert inp. induction Ho as [|o out Hw Ho IH]; intros [|x inp] Hi Hl; try done.
  { by destruct b. }
  apply Forall_cons in Hi as [Hx Hi]. unfold copy_conditional in *. cbn [zip_with].
  rewrite IH by (done || by injection Hl). destruct b; unfold mask_of; f_equal.
  - change (2 ^ 32 - 1) with (Z.ones 32). rewrite Z.land_comm, Z.land_ones by done.
    rewrite Z.mod_small by (by apply is_word_lxor). rewrite Z.lxor_comm, Z.lxor_assoc, Z.lxor_nilpotent. apply Z.lxor_0_r.
  - rewrite Z.land_0_l. apply Z.lxor_0_r.
Qed.

Lemma fe_ok_words l : fe_ok l -> words 32 l /\ length l = NLIMBS.
Proof. intros (Hl & _ & Hb). split; [by apply limbs_words with 1 true|done]. Qed.

Lemma copy_felem out inp b :
  fe_ok out -> fe_ok inp -> copy_conditional out inp (mask_of b) = if b then inp else out.
Proof.
  intros Ho Hi. apply fe_ok_words in Ho as [? Ho], Hi as [? Hi]. apply copy_conditional_spec; [done..|by rewrite Ho].
Qed.

Lemma select_mask_spec i index :
  0 <= i < 16 -> 0 <= index < 16 -> select_mask i index = mask_of (i =? index).
Proof.
  intros Hi Hx.
  assert (forallb (fun i => forallb (fun j => select_mask (Z.of_nat i) (Z.of_nat j)
     =? mask_of (Z.of_nat i =? Z.of_nat j)) (seq 0 16)) (seq 0 16) = true) as H by reflexivity.
  rewrite forallb_forall in H. specialize (H (Z.to_nat i) ltac:(apply in_seq; lia)).
  rewrite forallb_forall in H. specialize (H (Z.to_nat index) ltac:(apply in_seq; lia)).
  rewrite !Z2Nat.id in H by lia. by apply Z.eqb_eq in H.
Qed.

Lemma or_masked_spec out table b :
  words 32 table -> length out = NLIMBS -> (NLIMBS <= length table)%nat ->
  or_masked out table (mask_of b) = if b then zip_with Z.lor out (take NLIMBS table) else out.
Proof.
  intros Hw Hl Ht. unfold or_masked.
  assert (length out = length (take NLIMBS table)) as El by (rewrite length_take; lia).
  assert (words 32 (take NLIMBS table)) as Hw' by (by apply Forall_take).
  clear Hl Ht Hw. revert out El. induction Hw' as [|t l Ht Hw IH]; intros [|o out] El; try done.
  { by destruct b. }
  cbn [zip_with]. rewrite IH by (by injection El). destruct b; unfold mask_of; f_equal.
  - change (2 ^ 32 - 1) with (Z.ones 32). rewrite Z.land_ones, Z.mod_small by done. done.
  - by rewrite Z.land_0_r, Z.lor_0_r.
Qed.

(** The [k]-th field element of a table. *)
Definition entry (table : list Z) (k : nat) : list Z := take NLIMBS (drop (k * NLIMBS) table).

Lemma lor_zeros l : length l = NLIMBS -> zip_with Z.lor (replicate NLIMBS 0) l = l.
Proof.
  intros <-. induction l as [|x l IH]; cbn [length replicate zip_with]; [done|]. by rewrite IH, Z.lor_0_l.
Qed.

(** One [or_masked] of a selection loop: entry [k] for index [i], looking for [index]. *)
Lemma select_step table k out (i index : Z) :
  words 32 table -> ((k + 1) * NLIMBS <= length table)%nat -> 0 <= i < 16 -> 0 <= index < 16 ->
  length out = NLIMBS -> (i = index -> out = replicate NLIMBS 0) ->
  or_masked out (drop (k * NLIMBS) table) (select_mask i index)
  = if i =? index then entry table k else out.
Proof.
  intros Hw Hl Hi Hx Ho Hz. rewrite select_mask_spec by done.
  rewrite or_masked_spec; [|by apply Forall_drop|done|rewrite length_drop; unfold NLIMBS in *; lia].
  destruct (Z.eqb_spec i index) as [E|E]; [|done]. rewrite Hz by done. apply lor_zeros.
  unfold entry. rewrite length_take, length_drop. unfold NLIMBS in *. lia.
Qed.

(** What a selection loop has found before its iteration [i]. *)
Definition found (table : list Z) (index : Z) (i k : nat) : list Z :=
  if (1 <=? index) && (index <? Z.of_nat i) then entry table k else replicate NLIMBS 0.

Lemma entry_length table k n :
  (n * NLIMBS <= length table)%nat -> (k < n)%nat -> length (entry table k) = NLIMBS.
Proof. intros Hl Hk. unfold entry. rewrite length_take, length_drop. unfold NLIMBS in *. lia. Qed.

(** An iteration of a selection loop on one of the coordinates. *)
Lemma found_step table index i k k' n :
  words 32 table -> (n * NLIMBS <= length table)%nat -> (k' < n)%nat -> (k < n)%nat ->
  (1 <= i < 16)%nat -> 0 <= index < 16 -> (Z.of_nat i = index -> k' = k) ->
  or_masked (found table index i k) (drop (k' * NLIMBS) table) (select_mask (Z.of_nat i) index)
  = found table index (S i) k.
Proof.
  intros Hw Hl Hk' Hk Hi Hx Ek. rewrite select_step; [|done|unfold NLIMBS in *; lia|lia|done| |].
  - unfold found. destruct (Z.eqb_spec (Z.of_nat i) index) as [E|E].
    + rewrite Ek by done. by destruct (Z.leb_spec 1 index), (Z.ltb_spec index (Z.of_nat (S i))); cbn [andb]; try lia.
    + by destruct (Z.ltb_spec index (Z.of_nat i)), (Z.ltb_spec index (Z.of_nat (S i))); try lia.
  - unfold found. destruct (_ && _); [by apply entry_length with n|done].
  - intros E. unfold found. destruct (Z.ltb_spec index (Z.of_nat i)); [lia|]. by rewrite andb_false_r.
Qed.

Lemma found_all table index k :
  0 <= index < 16 -> found table index 16 k = if index =? 0 then replicate NLIMBS 0 else entry table k.
Proof.
  intros Hx. unfold found.
  by destruct (Z.eqb_spec index 0), (Z.leb_spec 1 index), (Z.ltb_spec index (Z.of_nat 16)); cbn [andb]; try lia.
Qed.

Lemma found_none table index k : found table index 1 k = replicate NLIMBS 0.
Proof.
  unfold found. by destruct (Z.leb_spec 1 index), (Z.ltb_spec index (Z.of_nat 1)); cbn [andb]; try lia.
Qed.

Lemma drop_entry (table : list Z) i j :
  (j = i + 1)%nat -> drop NLIMBS (drop (i * NLIMBS) table) = drop (j * NLIMBS) table.
Proof. intros ->. rewrite drop_drop. f_equal. unfold NLIMBS. lia. Qed.

(** The table of scalar_base_mult has no entry for 0. *)
Lemma select_affine_point_spec table index :
  words 32 table -> (30 * NLIMBS <= length table)%nat -> 0 <= index < 16 ->
  let k := Z.to_nat index in
  select_affine_point table index
  = if index =? 0 then (replicate NLIMBS 0, replicate NLIMBS 0)
    else (entry table (2 * k - 2), entry table (2 * k - 1)).
Proof.
  intros Hw Hl Hx k. unfold select_affine_point.
  match goal with |- context [for_ 1 15 ?body ?s] =>
    assert (for_ 1 15 body s = (found table index 16 (2 * k - 2), found table index 16 (2 * k - 1),
                                drop (30 * NLIMBS) table)) as ->
  end.
  - apply (for_inv (fun i st => st =
      (found table index i (2 * k - 2), found table index i (2 * k - 1), drop (2 * (i - 1) * NLIMBS) table))).
    { by rewrite !found_none. }
    intros i st Hi ->. cbv zeta.
    rewrite (drop_entry table (2 * (i - 1)) (2 * (i - 1) + 1)) by done.
    rewrite (drop_entry table (2 * (i - 1) + 1) (2 * (S i - 1))) by lia.
    rewrite !(found_step _ _ _ _ _ 30) by (done || lia). done.
  - rewrite !found_all by done. by destruct (index =? 0).
Qed.

(** The table of scalar_mult starts with an entry for 0, which is not read. *)
Lemma select_jacobian_point_spec table index :
  words 32 table -> (48 * NLIMBS <= length table)%nat -> 0 <= index < 16 ->
  let k := Z.to_nat index in
  select_jacobian_point table index
  = if index =? 0 then (replicate NLIMBS 0, replicate NLIMBS 0, replicate NLIMBS 0)
    else (entry table (3 * k), entry table (3 * k + 1), entry table (3 * k + 2)).
Proof.
  intros Hw Hl Hx k. unfold select_jacobian_point.
  match goal with |- context [for_ 1 15 ?body ?s] =>
    assert (for_ 1 15 body s = (found table index 16 (3 * k), found table index 16 (3 * k + 1),
                                found table index 16 (3 * k + 2), drop (48 * NLIMBS) table)) as ->
  end.
  - apply (for_inv (fun i st => st =
      (found table index i (3 * k), found table index i (3 * k + 1), found table index i (3 * k + 2),
       drop (3 * i * NLIMBS) table))).
    { by rewrite !found_none. }
    intros i st Hi ->. cbv zeta.
    rewrite (drop_entry table (3 * i) (3 * i + 1)) by done.
    rewrite (drop_entry table (3 * i + 1) (3 * i + 2)) by lia.
    rewrite (drop_entry table (3 * i + 2) (3 * S i)) by lia.
    rewrite !(found_step _ _ _ _ _ 48) by (done || lia). done.
  - rewrite !found_all by done. by destruct (index =? 0).
Qed.

(** * Theorems *)

Lemma jdouble_outcome P J q :
  reprs P (jdouble J) -> affine J q -> outcome P (tangent q).
Proof.
  intros H Hq. destruct P as [[x' y'] z']. pose proof H as (Hx & Hy & Hz).
  split; [split_and!; [apply Hx|apply Hy|apply Hz]|]. cbn [snd]. pose proof (is_zero_repr z' _ Hz) as Hzero.
  destruct (felem_is_zero_vartime z').
  - intros (r & Hne & _). apply Hne. apply (jdouble_infinity J q Hq). by apply Hzero.
  - destruct (double_affine J q Hq) as (r & Hr & Ht); [intros E; by apply Hzero in E|].
    exists r. split; [exact Ht|]. by exists (jdouble J).
Qed.

Lemma jadd_outcome P J1 J2 q1 q2 :
  reprs P (jadd J1 J2) -> affine J1 q1 -> affine J2 q2 -> outcome P (chord q1 q2).
Proof.
  intros H Hq1 Hq2. destruct P as [[x' y'] z']. pose proof H as (Hx & Hy & Hz).
  split; [split_and!; [apply Hx|apply Hy|apply Hz]|]. cbn [snd]. pose proof (is_zero_repr z' _ Hz) as Hzero.
  destruct (felem_is_zero_vartime z').
  - intros (r & Hne & _). apply Hne. apply (jadd_infinity J1 J2 q1 q2 Hq1 Hq2). by apply Hzero.
  - destruct (add_affine J1 J2 q1 q2 Hq1 Hq2) as (r & Hr & Ht); [intros E; by apply Hzero in E|].
    exists r. split; [exact Ht|]. by exists (jadd J1 J2).
Qed.

Lemma outcome_iff P S S' : (forall r, S r <-> S' r) -> outcome P S -> outcome P S'.
Proof.
  intros E [Hok H]. split; [exact Hok|]. destruct (felem_is_zero_vartime (snd P)).
  - intros (r & Hr). apply H. exists r. by apply E.
  - destruct H as (r & Hr & Ha). exists r. split; [by apply E|done].
Qed.

(** The group operations compute the group law: point_double the tangent
    construction, point_add and point_add_mixed the chord construction,
    point_add_or_double_vartime the sum of any two affine points.  The result is
    the point at infinity exactly when the construction has no affine result. *)
Theorem point_operations_correct x1 y1 z1 x2 y2 z2 q1 q2 :
  pt_affine (x1, y1, z1) q1 -> pt_affine (x2, y2, z2) q2 ->
  outcome (point_double x1 y1 z1) (tangent q1)
  /\ outcome (point_add x1 y1 z1 x2 y2 z2) (chord q1 q2)
  /\ (z2 = kOne -> outcome (point_add_mixed x1 y1 z1 x2 y2) (chord q1 q2))
  /\ outcome (point_add_or_double_vartime x1 y1 z1 x2 y2 z2) (psum q1 q2).
Proof.
  intros (J1 & HJ1 & Hq1) (J2 & HJ2 & Hq2). split; [|split; [|split]].
  - apply jdouble_outcome with J1; [by apply point_double_reprs|exact Hq1].
  - apply jadd_outcome with J1 J2; [by apply point_add_reprs|exact Hq1|exact Hq2].
  - intros ->. pose proof HJ2 as (Hx & Hy & Hz).
    assert (jac_eq J2 (Jac (jX J2) (jY J2) 1)) as E by (split_and!; [reflexivity..|exact (repr_eqm _ _ _ Hz one_repr)]).
    apply jadd_outcome with J1 (Jac (jX J2) (jY J2) 1);
      [exact (point_add_mixed_reprs _ _ _ _ _ _ _ _ HJ1 Hx Hy)|exact Hq1|exact (affine_eq _ _ _ E Hq2)].
  - destruct (point_add_or_double_reprs _ _ _ _ _ _ _ _ HJ1 HJ2) as [(EH & ES & HR)|(Hne & HR)].
    + pose proof (same_affine J1 J2 q1 q2 Hq1 Hq2 EH ES) as Eq.
      apply outcome_iff with (tangent q1); [|by apply jdouble_outcome with J1].
      intros r. split; [intros Ht; right; split; assumption|].
      intros [[Hx _]|[_ Ht]]; [destruct Hx; apply Eq|exact Ht].
    + apply outcome_iff with (chord q1 q2); [|by apply jadd_outcome with J1 J2].
      intros r. split; [intros Hc; left; exact Hc|]. intros [Hc|[Eq _]]; [exact Hc|].
      destruct Hne. exact (affine_same J1 J2 q1 q2 Hq1 Hq2 Eq).
Qed.

(** An entry in affine coordinates. *)
Lemma pt_affine_one x y vx vy : repr x vx -> repr y vy -> pt_affine (x, y, kOne) (vx, vy).
Proof.
  intros Hx Hy. exists (Jac vx vy 1). split; [split_and!; [exact Hx|exact Hy|exact one_repr]|].
  split; [by intros H; apply (eqm_eq p_value) in H|]. cbn [jX jY jZ fst snd]. split; apply eqm_eq_refl; ring.
Qed.

Lemma point_operations_correct_witness :
  outcome (point_add_or_double_vartime kOne kOne kOne kZero kOne kOne) (psum (1, 1) (0, 1)).
Proof.
  apply (point_operations_correct kOne kOne kOne kZero kOne kOne (1, 1) (0, 1)).
  - exact (pt_affine_one _ _ _ _ one_repr one_repr).
  - exact (pt_affine_one _ _ _ _ zero_repr one_repr).
Defined.

(** The selections and copies without branches do what a lookup and a
    branch would: entry 0 is the point (0, 0) or (0, 0, 0), entry [index]
    the one stored there; a copy happens when the mask comes from a nonzero
    value. *)
Theorem selections_correct table index out inp v :
  words 32 table -> (48 * NLIMBS <= length table)%nat -> 0 <= index < 16 ->
  fe_ok out -> fe_ok inp -> 0 <= v < 2 ^ 31 ->
  let zero := replicate NLIMBS 0 in
  let k := Z.to_nat index in
  select_affine_point table index
    = (if index =? 0 then (zero, zero) else (entry table (2 * k - 2), entry table (2 * k - 1)))
  /\ select_jacobian_point table index
    = (if index =? 0 then (zero, zero, zero) else (entry table (3 * k), entry table (3 * k + 1), entry table (3 * k + 2)))
  /\ copy_conditional out inp (NON_ZERO_TO_ALL_ONES v) = if v =? 0 then out else inp.
Proof.
  intros Hw Hl Hx Ho Hi Hv zero k. split; [|split].
  - apply select_affine_point_spec; [exact Hw| |exact Hx]. unfold NLIMBS in *. lia.
  - by apply select_jacobian_point_spec.
  - rewrite NON_ZERO_spec, copy_felem by done. by destruct (v =? 0).
Qed.

Lemma selections_correct_witness :
  select_affine_point (map Z.of_nat (seq 0 432)) 3
  = (map Z.of_nat (seq 36 9), map Z.of_nat (seq 45 9)).
Proof.
  apply (selections_correct (map Z.of_nat (seq 0 432)) 3 kOne kZero 5).
  - apply Forall_map, Forall_forall. intros i Hi%list_elem_of_In%in_seq. unfold is_word. cbn. lia.
  - rewrite length_map, length_seq. unfold NLIMBS. lia.
  - lia.
  - exact (proj1 one_repr).
  - exact (proj1 zero_repr).
  - lia.
Defined.
