(* ===== verification/P256Table.v ===== *)
(** * The table kPrecomputed of libmincrypt/p256_ec.c

    Its thirty entries, and the proof that they are the multiples of the base
    point its comment lists: the multiples are computed here by doublings and
    additions in Jacobian coordinates, on Bignums' integers. *)
From S2P Require Import Prelude Modular Digits P256 Primes Felem Curve P256Point.
From Bignums Require Import BigZ.BigZ.

Definition kPrecomputed : list Z :=
  [0x11522878; 0xe730d41; 0xdb60179; 0x4afe2ff; 0x12883add; 0xcaddd88; 0x119e7edc; 0xd4a6eab; 0x3120bee;
   0x1d2aac15; 0xf25357c; 0x19e45cdd; 0x5c721d0; 0x1992c5a5; 0xa237487; 0x154ba21; 0x14b10bb; 0xae3fe3;
   0xd41a576; 0x922fc51; 0x234994f; 0x60b60d3; 0x164586ae; 0xce95f18; 0x1fe49073; 0x3fa36cc; 0x5ebcd2c;
   0xb402f2f; 0x15c70bf; 0x1561925c; 0x5a26704; 0xda91e90; 0xcdc1c7f; 0x1ea12446; 0xe1ade1e; 0xec91f22;
   0x26f7778; 0x566847e; 0xa0bec9e; 0x234f453; 0x1a31f21a; 0xd85e75c; 0x56c7109; 0xa267a00; 0xb57c050;
   0x98fb57; 0xaa837cc; 0x60c0792; 0xcfa5e19; 0x61bab9e; 0x589e39b; 0xa324c5; 0x7d6dee7; 0x2976e4b;
   0x1fc4124a; 0xa8c244b; 0x1ce86762; 0xcd61c7e; 0x1831c8e0; 0x75774e1; 0x1d96a5a9; 0x843a649; 0xc3ab0fa;
   0x6e2e7d5; 0x7673a2a; 0x178b65e8; 0x4003e9b; 0x1a1f11c2; 0x7816ea; 0xf643e11; 0x58c43df; 0xf423fc2;
   0x19633ffa; 0x891f2b2; 0x123c231c; 0x46add8c; 0x54700dd; 0x59e2b17; 0x172db40f; 0x83e277d; 0xb0dd609;
   0xfd1da12; 0x35c6e52; 0x19ede20c; 0xd19e0c0; 0x97d0f40; 0xb015b19; 0x449e3f5; 0xe10c9e; 0x33ab581;
   0x56a67ab; 0x577734d; 0x1dddc062; 0xc57b10d; 0x149b39d; 0x26a9e7b; 0xc35df9f; 0x48764cd; 0x76dbcca;
   0xca4b366; 0xe9303ab; 0x1a7480e7; 0x57e9e81; 0x1e13eb50; 0xf466cf3; 0x6f16b20; 0x4ba3173; 0xc168c33;
   0x15cb5439; 0x6a38e11; 0x73658bd; 0xb29564f; 0x3f6dc5b; 0x53b97e; 0x1322c4c0; 0x65dd7ff; 0x3a1e4f6;
   0x14e614aa; 0x9246317; 0x1bc83aca; 0xad97eed; 0xd38ce4a; 0xf82b006; 0x341f077; 0xa6add89; 0x4894acd;
   0x9f162d5; 0xf8410ef; 0x1b266a56; 0xd7f223; 0x3e0cb92; 0xe39b672; 0x6a2901a; 0x69a8556; 0x7e7c0;
   0x9b7d8d3; 0x309a80; 0x1ad05f7f; 0xc2fb5dd; 0xcbfd41d; 0x9ceb638; 0x1051825c; 0xda0cf5b; 0x812e881;
   0x6f35669; 0x6a56f2c; 0x1df8d184; 0x345820; 0x1477d477; 0x1645db1; 0xbe80c51; 0xc22be3e; 0xe35e65a;
   0x1aeb7aa0; 0xc375315; 0xf67bc99; 0x7fdd7b9; 0x191fc1be; 0x61235d; 0x2c184e9; 0x1c5a839; 0x47a1e26;
   0xb7cb456; 0x93e225d; 0x14f3c6ed; 0xccc1ac9; 0x17fe37f3; 0x4988989; 0x1a90c502; 0x2f32042; 0xa17769b;
   0xafd8c7c; 0x8191c6e; 0x1dcdb237; 0x16200c0; 0x107b32a1; 0x66c08db; 0x10d06a02; 0x3fc93; 0x5620023;
   0x16722b27; 0x68b5c59; 0x270fcfc; 0xfad0ecc; 0xe5de1c2; 0xeab466b; 0x2fc513c; 0x407f75c; 0xbaab133;
   0x9705fe9; 0xb88b8e7; 0x734c993; 0x1e1ff8f; 0x19156970; 0xabd0f00; 0x10469ea7; 0x3293ac0; 0xcdc98aa;
   0x1d843fd; 0xe14bfe8; 0x15be825f; 0x8b5212; 0xeb3fb67; 0x81cbd29; 0xbc62f16; 0x2b6fcc7; 0xf5a4e29;
   0x13560b66; 0xc0b6ac2; 0x51ae690; 0xd41e271; 0xf3e9bd4; 0x1d70aab; 0x1029f72; 0x73e1c35; 0xee70fbc;
   0xad81baf; 0x9ecc49a; 0x86c741e; 0xfe6be30; 0x176752e7; 0x23d416; 0x1f83de85; 0x27de188; 0x66f70b8;
   0x181cd51f; 0x96b6e4c; 0x188f2335; 0xa5df759; 0x17a77eb6; 0xfeb0e73; 0x154ae914; 0x2f3ec51; 0x3826b59;
   0xb91f17d; 0x1c72949; 0x1362bf0a; 0xe23fddf; 0xa5614b0; 0xf7d8f; 0x79061; 0x823d9d2; 0x8213f39;
   0x1128ae0b; 0xd095d05; 0xb85c0c2; 0x1ecb2ef; 0x24ddc84; 0xe35e901; 0x18411a4a; 0xf5ddc3d; 0x3786689;
   0x52260e8; 0x5ae3564; 0x542b10d; 0x8d93a45; 0x19952aa4; 0x996cc41; 0x1051a729; 0x4be3499; 0x52b23aa;
   0x109f307e; 0x6f5b6bb; 0x1f84e1e7; 0x77a0cfa; 0x10c4df3f; 0x25a02ea; 0xb048035; 0xe31de66; 0xc6ecaa3;
   0x28ea335; 0x2886024; 0x1372f020; 0xf55d35; 0x15e4684c; 0xf2a9e17; 0x1a4a7529; 0xcb7beb1; 0xb2a78a1;
   0x1ab21f1f; 0x6361ccf; 0x6c9179d; 0xb135627; 0x1267b974; 0x4408bad; 0x1cbff658; 0xe3d6511; 0xc7d76f;
   0x1cc7a69; 0xe7ee31b; 0x54fab4f; 0x2b914f; 0x1ad27a30; 0xcd3579e; 0xc50124c; 0x50daa90; 0xb13f72;
   0xb06aa75; 0x70f5cc6; 0x1649e5aa; 0x84a5312; 0x329043c; 0x41c4011; 0x13d32411; 0xb04a838; 0xd760d2d;
   0x1713b532; 0xbaa0c03; 0x84022ab; 0x6bcf5c1; 0x2f45379; 0x18ae070; 0x18c9e11e; 0x20bca9a; 0x66f496b;
   0x3eef294; 0x67500d2; 0xd7f613c; 0x2dbbeb; 0xb741038; 0xe04133f; 0x1582968d; 0xbe985f7; 0x1acbc1a;
   0x1a6a939f; 0x33e50f6; 0xd665ed4; 0xb4b7bd6; 0x1e5a3799; 0x6b33847; 0x17fa56ff; 0x65ef930; 0x21dc4a;
   0x2b37659; 0x450fe17; 0xb357b65; 0xdf5efac; 0x15397bef; 0x9d35a7f; 0x112ac15f; 0x624e62e; 0xa90ae2f;
   0x107eecd2; 0x1f69bbe; 0x77d6bce; 0x5741394; 0x13c684fc; 0x950c910; 0x725522b; 0xdc78583; 0x40eeabb;
   0x1fde328a; 0xbd61d96; 0xd28c387; 0x9e77d89; 0x12550c40; 0x759cb7d; 0x367ef34; 0xae2a960; 0x91b8bdc;
   0x93462a9; 0xf469ef; 0xb2e9aef; 0xd2ca771; 0x54e1f42; 0x7aaa49; 0x6316abb; 0x2413c8e; 0x5425bf9;
   0x1bed3e3a; 0xf272274; 0x1f5e7326; 0x6416517; 0xea27072; 0x9cedea7; 0x6e7633; 0x7c91952; 0xd806dce;
   0x8e2a7e1; 0xe421e1a; 0x418c9e1; 0x1dbc890; 0x1b395c36; 0xa1dc175; 0x1dc4ef73; 0x8956f34; 0xe4b5cf2;
   0x1b0d3a18; 0x3194a36; 0x6c2641f; 0xe44124c; 0xa2f4eaa; 0xa8c25ba; 0xf927ed7; 0x627b614; 0x7371cca;
   0xba16694; 0x417bc03; 0x7c0a7e3; 0x9c35c19; 0x1168a205; 0x8b6b00d; 0x10e3edc9; 0x9c19bf2; 0x5882229;
   0x1b2b4162; 0xa5cef1a; 0x1543622b; 0x9bd433e; 0x364e04d; 0x7480792; 0x5c9b5b3; 0xe85ff25; 0x408ef57;
   0x1814cfa4; 0x121b41b; 0xd248a0f; 0x3b05222; 0x39bb16a; 0xc75966d; 0xa038113; 0xa4a1769; 0x11fbc6c;
   0x917e50e; 0xeec3da8; 0x169d6eac; 0x10c1699; 0xa416153; 0xf724912; 0x15cd60b7; 0x4acbad9; 0x5efc5fa;
   0xf150ed7; 0x122b51; 0x1104b40a; 0xcb7f442; 0xfbb28ff; 0x6ac53ca; 0x196142cc; 0x7bf0fa9; 0x957651;
   0x4e0f215; 0xed439f8; 0x3f46bd5; 0x5ace82f; 0x110916b6; 0x6db078; 0xffd7d57; 0xf2ecaac; 0xca86dec;
   0x15d6b2da; 0x965ecc9; 0x1c92b4c2; 0x1f3811; 0x1cb080f5; 0x2d8b804; 0x19d1c12d; 0xf20bd46; 0x1951fa7;
   0xa3656c3; 0x523a425; 0xfcd0692; 0xd44ddc8; 0x131f0f5b; 0xaf80e4a; 0xcd9fc74; 0x99bb618; 0x2db944c;
   0xa673090; 0x1c210e1; 0x178c8d23; 0x1474383; 0x10b8743d; 0x985a55b; 0x2e74779; 0x576138; 0x9587927;
   0x133130fa; 0xbe05516; 0x9f4d619; 0xbb62570; 0x99ec591; 0xd9468fe; 0x1d07782d; 0xfc72e0b; 0x701b298;
   0x1863863b; 0x85954b8; 0x121a0c36; 0x9e7fedf; 0xf64b429; 0x9b9d71e; 0x14e2f5d8; 0xf858d3a; 0x942eea8;
   0xda5b765; 0x6edafff; 0xa9d18cc; 0xc65e4ba; 0x1c747e86; 0xe4ea915; 0x1981d7a1; 0x8395659; 0x52ed4e2;
   0x87d43b7; 0x37ab11b; 0x19d292ce; 0xf8d4692; 0x18c3053f; 0x8863e13; 0x4c146c0; 0x6bdf55a; 0x4e4457d;
   0x16152289; 0xac78ec2; 0x1a59c5a2; 0x2028b97; 0x71c2d01; 0x295851f; 0x404747b; 0x878558d; 0x7d29aa4;
   0x13d8341f; 0x8daefd7; 0x139c972d; 0x6b7ea75; 0xd4a9dde; 0xff163d8; 0x81d55d7; 0xa5bef68; 0xb7b30d8;
   0xbe73d6f; 0xaa88141; 0xd976c81; 0x7e7a9cc; 0x18beb771; 0xd773cbd; 0x13f51951; 0x9d0c177; 0x1c49a78].

(** * Jacobian arithmetic on big integers *)

Record bjac : Type := BJac { bX : bigZ; bY : bigZ; bZ : bigZ }.

Definition bp : bigZ := Eval vm_compute in BigZ.of_Z p_value.
Definition mulm (x y : bigZ) : bigZ := BigZ.modulo (BigZ.mul x y) bp.
#[local] Infix "*!" := mulm (at level 40, left associativity).
#[local] Infix "+!" := BigZ.add (at level 50, left associativity).
#[local] Infix "-!" := BigZ.sub (at level 50, left associativity).

Definition bdouble (P : bjac) : bjac :=
  let '(BJac X Y Z) := P in
  let delta := Z *! Z in
  let gamma := Y *! Y in
  let beta := 4%bigZ *! (X *! gamma) in
  let alpha := 3%bigZ *! ((X +! delta) *! (X -! delta)) in
  let X3 := alpha *! alpha -! beta -! beta in
  BJac X3 (alpha *! (beta -! X3) -! 8%bigZ *! (gamma *! gamma)) ((Y +! Z) *! (Y +! Z) -! gamma -! delta).

Definition badd (P1 P2 : bjac) : bjac :=
  let '(BJac X1 Y1 Z1) := P1 in
  let '(BJac X2 Y2 Z2) := P2 in
  let U1 := X1 *! (Z2 *! Z2) in
  let S1 := Y1 *! (Z2 *! (Z2 *! Z2)) in
  let H := X2 *! (Z1 *! Z1) -! U1 in
  let I := (H +! H) *! (H +! H) in
  let J := H *! I in
  let S := Y2 *! (Z1 *! (Z1 *! Z1)) -! S1 in
  let r := S +! S in
  let V := U1 *! I in
  let X3 := r *! r -! J -! V -! V in
  BJac X3 ((V -! X3) *! r -! S1 *! J -! S1 *! J) (((Z1 +! Z2) *! (Z1 +! Z2) -! Z1 *! Z1 -! Z2 *! Z2) *! H).

Definition bval (P : bjac) : jac := Jac (BigZ.to_Z (bX P)) (BigZ.to_Z (bY P)) (BigZ.to_Z (bZ P)).

(** [x] has the residue [v]. *)
Definition bres (x : bigZ) (v : Z) : Prop := BigZ.to_Z x =[p_value] v.

Lemma mulm_res x y v w : bres x v -> bres y w -> bres (x *! y) (v * w).
Proof.
  unfold bres, mulm. intros Hx Hy. rewrite BigZ.spec_modulo, BigZ.spec_mul.
  change (BigZ.to_Z bp) with p_value. by rewrite eqm_mod, Hx, Hy.
Qed.

Lemma mulm_eq a b c d v w u r :
  BigZ.to_Z (a *! b) = BigZ.to_Z (c *! d) -> bres a v -> bres b w -> bres c u -> bres d r -> v * w =[p_value] u * r.
Proof.
  intros E Ha Hb Hc Hd. pose proof (mulm_res a b v w Ha Hb) as E1. pose proof (mulm_res c d u r Hc Hd) as E2.
  unfold bres in E1, E2. by rewrite <- E1, E, E2.
Qed.

Lemma add_res x y v w : bres x v -> bres y w -> bres (x +! y) (v + w).
Proof. unfold bres. intros Hx Hy. by rewrite BigZ.spec_add, Hx, Hy. Qed.

Lemma sub_res x y v w : bres x v -> bres y w -> bres (x -! y) (v - w).
Proof. unfold bres. intros Hx Hy. by rewrite BigZ.spec_sub, Hx, Hy. Qed.

Ltac res_value :=
  repeat lazymatch goal with
  | |- bres (mulm _ _) _ => apply mulm_res
  | |- bres (BigZ.add _ _) _ => apply add_res
  | |- bres (BigZ.sub _ _) _ => apply sub_res
  end; first [assumption | apply eqm_eq_refl; reflexivity].

(** [P] has the coordinates [J]. *)
Definition bjac_of (P : bjac) (J : jac) : Prop :=
  bres (bX P) (jX J) /\ bres (bY P) (jY J) /\ bres (bZ P) (jZ J).

Lemma bdouble_of P J : bjac_of P J -> bjac_of (bdouble P) (jdouble J).
Proof.
  destruct P as [X Y Z], J as [x y z]. intros (Hx & Hy & Hz). unfold bdouble, jdouble, bjac_of. cbn [bX bY bZ jX jY jZ] in *.
  cbv zeta.
  assert (E : bres (4%bigZ *! (X *! (Y *! Y))) (4 * (x * (y * y)))) by res_value.
  split_and!; res_value.
Qed.

Lemma badd_of P1 P2 J1 J2 : bjac_of P1 J1 -> bjac_of P2 J2 -> bjac_of (badd P1 P2) (jadd J1 J2).
Proof.
  destruct P1 as [X1 Y1 Z1], P2 as [X2 Y2 Z2], J1 as [x1 y1 z1], J2 as [x2 y2 z2].
  intros (Hx1 & Hy1 & Hz1) (Hx2 & Hy2 & Hz2). unfold badd, jadd, bjac_of. cbn [bX bY bZ jX jY jZ] in *.
  cbv zeta. split_and!; res_value.
Qed.

(** * The multiples of the base point *)

Definition G : point := (eval base_x, eval base_y).
Definition bG : bjac := Eval vm_compute in BJac (BigZ.of_Z (eval base_x)) (BigZ.of_Z (eval base_y)) BigZ.one.

Fixpoint bdoubles (n : nat) (P : bjac) : bjac :=
  match n with O => P | S n => bdoubles n (bdouble P) end.

(** The sum of the points selected by the bits of an index. *)
Fixpoint bselect (bits : list bool) (Ps : list bjac) : option bjac :=
  match bits, Ps with
  | b :: bits, P :: Ps =>
      match bselect bits Ps, b with
      | R, false => R
      | None, true => Some P
      | Some R, true => Some (badd R P)
      end
  | _, _ => None
  end.

Fixpoint kselect (bits : list bool) (ks : list Z) : Z :=
  match bits, ks with
  | b :: bits, k :: ks => kselect bits ks + Z.b2z b * k
  | _, _ => 0
  end.

Definition bits4 (i : nat) : list bool := map (fun b => Z.testbit (Z.of_nat i) (Z.of_nat b)) (seq 0 4).

(** [G], [2^64 G], [2^128 G] and [2^192 G], each times [2^(32 t)]. *)
Definition ks (t : nat) : list Z := map (fun b => 2 ^ (64 * Z.of_nat b + 32 * Z.of_nat t)) (seq 0 4).
Definition bases (t : nat) : list bjac :=
  let P0 := bdoubles (32 * t) bG in
  let P1 := bdoubles 64 P0 in
  let P2 := bdoubles 64 P1 in
  let P3 := bdoubles 64 P2 in
  [P0; P1; P2; P3].

(** [P] in Jacobian coordinates. *)
Definition is_multiple (Q : point) (k : Z) (P : bjac) : Prop := exists J, bjac_of P J /\ jcomb G Q k 0 J.

Lemma bdoubles_multiple Q n k P : is_multiple Q k P -> is_multiple Q (2 ^ Z.of_nat n * k) (bdoubles n P).
Proof.
  revert k P. induction n as [|n IH]; intros k P H; cbn [bdoubles].
  - by rewrite Z.mul_1_l.
  - rewrite Nat2Z.inj_succ, Z.pow_succ_r, (Z.mul_comm 2), <- Z.mul_assoc by lia. apply IH.
    destruct H as (J & HJ & Hc). exists (jdouble J). split; [by apply bdouble_of|].
    exact (jcomb_double G Q k 0 J Hc).
Qed.

Lemma bG_multiple Q : is_multiple Q 1 bG.
Proof.
  exists (Jac (eval base_x) (eval base_y) 1). split.
  - split_and!; apply eqm_eq_refl; reflexivity.
  - intros _. exists G. split; [|by apply comb_left].
    split; [by intros H; apply (eqm_eq p_value) in H|]. cbn [jX jY jZ].
    split; apply eqm_eq_refl; cbn; ring.
Qed.

Lemma bselect_multiple Q ks Ps bits :
  Forall2 (is_multiple Q) ks Ps ->
  match bselect bits Ps with
  | Some R => is_multiple Q (kselect bits ks) R
  | None => kselect bits ks = 0
  end.
Proof.
  intros H. revert bits. induction H as [|k P ks Ps HP H IH]; intros [|b bits]; try done.
  cbn [bselect kselect]. specialize (IH bits). destruct (bselect bits Ps) as [R|], b; cbn [Z.b2z].
  - rewrite Z.mul_1_l. destruct IH as (J & HJ & Hc), HP as (J' & HJ' & Hc').
    exists (jadd J J'). split; [by apply badd_of|]. exact (jcomb_add G Q _ 0 _ 0 J J' Hc Hc').
  - by rewrite Z.mul_0_l, Z.add_0_r.
  - by rewrite IH, Z.mul_1_l.
  - by rewrite IH.
Qed.

Lemma is_multiple_eq Q k k' P : is_multiple Q k P -> k = k' -> is_multiple Q k' P.
Proof. by intros H <-. Qed.

Lemma bases_multiple Q t : Forall2 (is_multiple Q) (ks t) (bases t).
Proof.
  assert (H0 : is_multiple Q (2 ^ Z.of_nat (32 * t) * 1) (bdoubles (32 * t) bG))
    by apply bdoubles_multiple, bG_multiple.
  assert (H1 := bdoubles_multiple Q 64 _ _ H0).
  assert (H2 := bdoubles_multiple Q 64 _ _ H1).
  assert (H3 := bdoubles_multiple Q 64 _ _ H2).
  unfold ks, bases. cbn [map seq]. cbv zeta.
  assert (E : forall b, 2 ^ (64 * Z.of_nat b + 32 * Z.of_nat t)
    = (2 ^ Z.of_nat 64) ^ Z.of_nat b * (2 ^ Z.of_nat (32 * t) * 1)).
  { intros b. rewrite <- Z.pow_mul_r, Z.mul_1_r, <- Z.pow_add_r by lia. f_equal. lia. }
  rewrite !E. clear E. revert H0 H1 H2 H3. generalize (2 ^ Z.of_nat 64). intros w H0 H1 H2 H3.
  change (Z.of_nat 0) with 0. change (Z.of_nat 1) with 1. change (Z.of_nat 2) with 2. change (Z.of_nat 3) with 3.
  repeat apply Forall2_cons_2; [..|apply Forall2_nil_2];
    [refine (is_multiple_eq _ _ _ _ H0 _)|refine (is_multiple_eq _ _ _ _ H1 _)
    |refine (is_multiple_eq _ _ _ _ H2 _)|refine (is_multiple_eq _ _ _ _ H3 _)]; ring.
Qed.

(** * Comparison with the table *)

Fixpoint limbsb (even : bool) (l : list Z) : bool :=
  match l with
  | [] => true
  | x :: l => (0 <=? x) && (x <? 2 ^ width even) && limbsb (negb even) l
  end.
Definition feb (l : list Z) : bool := (length l =? NLIMBS)%nat && limbsb true l.

Lemma limbsb_ok even l : limbsb even l = true -> limbs 0 even l.
Proof.
  revert even. induction l as [|x l IH]; intros even H; cbn [limbsb limbs] in *; [done|].
  rewrite !andb_true_iff, Z.leb_le, Z.ltb_lt in H. rewrite Z.add_0_r. destruct H as [H1 H2]. split; [done|]. by apply IH.
Qed.

Lemma feb_ok l : feb l = true -> fe_ok l.
Proof.
  unfold feb. rewrite andb_true_iff, Nat.eqb_eq. intros [Hl H]. apply limbsb_ok in H.
  name_limbs l Hl. split_limbs H. split; [done|]. split; cbn [limbs negb width lookup_total list_lookup_total]; lia.
Qed.

Definition bR : bigZ := Eval vm_compute in BigZ.of_Z (fR mod p_value).

(** [x] and [y], in Montgomery form, are the affine coordinates of [P]. *)
Definition same_point (x y : list Z) (P : bjac) : bool :=
  let ZZ := bZ P *! bZ P in
  feb x && feb y
  && BigZ.eqb (BigZ.of_Z (fval x) *! ZZ) (bX P *! bR)
  && BigZ.eqb (BigZ.of_Z (fval y) *! (bZ P *! ZZ)) (bY P *! bR)
  && negb (BigZ.eqb (BigZ.modulo (bZ P) bp) BigZ.zero).

Definition table_of (t : nat) : list Z := drop (t * 30 * NLIMBS) kPrecomputed.

Definition check_table (t : nat) : bool :=
  let Ps := bases t in
  forallb (fun i =>
    match bselect (bits4 i) Ps with
    | Some P => same_point (entry (table_of t) (2 * i - 2)) (entry (table_of t) (2 * i - 1)) P
    | None => false
    end) (seq 1 15).

Lemma tables_checked : check_table 0 && check_table 1 = true.
Proof. vm_compute. reflexivity. Qed.

Lemma kPrecomputed_words : words 32 kPrecomputed /\ length kPrecomputed = 540%nat.
Proof.
  split; [|reflexivity].
  assert (forallb (fun x => (0 <=? x) && (x <? 2 ^ 32)) kPrecomputed = true) as H by (vm_compute; reflexivity).
  apply Forall_forall. intros x Hx. rewrite forallb_forall in H. specialize (H x ltac:(by apply list_elem_of_In)).
  unfold is_word. rewrite andb_true_iff, Z.leb_le, Z.ltb_lt in H. done.
Qed.

Lemma bR_value : BigZ.to_Z bR =[p_value] fR.
Proof. apply eqm_eq; [done|]. vm_compute. reflexivity. Qed.

Lemma same_point_comb Q k x y P :
  same_point x y P = true -> is_multiple Q k P -> pcomb G Q k 0 (x, y, kOne).
Proof.
  unfold same_point. cbv zeta. rewrite !andb_true_iff, !BigZ.spec_eqb, !Z.eqb_eq, negb_true_iff, Z.eqb_neq, BigZ.spec_modulo.
  intros ((((Hx & Hy) & EX) & EY) & HZ) ([X Y Z] & (HX & HY & HZ') & Hc). unfold bres in *. cbn [jX jY jZ] in *.
  apply feb_ok in Hx, Hy.
  assert (HZ0 : ~ Z =[p_value] 0).
  { intros E. apply HZ. change (BigZ.to_Z BigZ.zero) with (0 mod p_value). change (BigZ.to_Z bp) with p_value.
    apply eqm_eq; [done|]. by rewrite HZ', E. }
  assert (MX : fval x * (Z * Z) =[p_value] X * fR).
  { eapply mulm_eq; [exact EX|apply eqm_eq_refl, BigZ.spec_of_Z|by apply mulm_res|exact HX|apply bR_value]. }
  assert (MY : fval y * (Z * (Z * Z)) =[p_value] Y * fR).
  { eapply mulm_eq; [exact EY|apply eqm_eq_refl, BigZ.spec_of_Z|apply mulm_res; [done|by apply mulm_res]|exact HY|apply bR_value]. }
  destruct (Hc HZ0) as (q & (_ & HqX & HqY) & Hq). cbn [jX jY jZ] in *.
  exists (Jac (fval x * fRinv) (fval y * fRinv) 1). split.
  { split_and!; cbn [jX jY jZ]; [by apply repr_of_value|by apply repr_of_value|exact one_repr]. }
  intros _. exists (fval x * fRinv, fval y * fRinv). split.
  { split; [by intros H; apply (eqm_eq p_value) in H|]. cbn [jX jY jZ fst snd]. split; apply eqm_eq_refl; ring. }
  assert (point_eq (fval x * fRinv, fval y * fRinv) q) as ->; [|done]. split; cbn [fst snd].
  - apply (p_cancel Z), (p_cancel Z); [done..|]. transitivity (fval x * (Z * Z) * fRinv); [apply eqm_eq_refl; ring|].
    rewrite MX, HqX. transitivity (q.1 * (Z * Z) * (fRinv * fR)); [apply eqm_eq_refl; ring|].
    rewrite fRinv_spec. apply eqm_eq_refl. ring.
  - apply (p_cancel Z), (p_cancel Z), (p_cancel Z); [done..|].
    transitivity (fval y * (Z * (Z * Z)) * fRinv); [apply eqm_eq_refl; ring|].
    rewrite MY, HqY. transitivity (q.2 * (Z * (Z * Z)) * (fRinv * fR)); [apply eqm_eq_refl; ring|].
    rewrite fRinv_spec. apply eqm_eq_refl. ring.
Qed.

(** An entry of the table. *)
Lemma kPrecomputed_comb Q t i :
  (t < 2)%nat -> (1 <= i < 16)%nat ->
  pcomb G Q (kselect (bits4 i) (ks t)) 0
    (entry (table_of t) (2 * i - 2), entry (table_of t) (2 * i - 1), kOne).
Proof.
  intros Ht Hi. destruct (andb_prop _ _ tables_checked) as [H0 H1].
  assert (check_table t = true) as Hc by (destruct t as [|[|]]; [exact H0|exact H1|lia]).
  clear H0 H1.
  unfold check_table in Hc. cbv zeta in Hc. rewrite forallb_forall in Hc.
  specialize (Hc i ltac:(apply in_seq; lia)). pose proof (bselect_multiple Q _ _ (bits4 i) (bases_multiple Q t)) as Hm.
  destruct (bselect (bits4 i) (bases t)) as [P|]; [|done]. by apply same_point_comb with P.
Qed.

Lemma pcomb_affine Q m n P :
  pcomb G Q m n P -> felem_is_zero_vartime (snd P) = false -> exists q, pt_affine P q /\ comb G Q m n q.
Proof.
  destruct P as [[x y] z]. intros (J & HJ & Hc) Hz. destruct Hc as (q & Hq & Hcq).
  - intros E. apply (is_zero_repr z _ (proj2 (proj2 HJ))) in E. cbn [snd] in Hz. congruence.
  - exists q. split; [by exists J|done].
Qed.

(** The thirty points of kPrecomputed are the multiples the comment above
    the table lists: entry [i] of table [t] is the sum of [2^(64 b + 32 t) G]
    over the bits [b] of [i]. *)
Theorem kPrecomputed_correct Q t i :
  (t < 2)%nat -> (1 <= i < 16)%nat ->
  exists q, pt_affine (entry (table_of t) (2 * i - 2), entry (table_of t) (2 * i - 1), kOne) q
    /\ comb G Q (kselect (bits4 i) (ks t)) 0 q.
Proof.
  intros Ht Hi. apply pcomb_affine; [by apply kPrecomputed_comb|]. reflexivity.
Qed.

Lemma kPrecomputed_correct_witness :
  exists q, pt_affine (entry (table_of 1) 2, entry (table_of 1) 3, kOne) q /\ comb G G (2 ^ 96) 0 q.
Proof. apply (kPrecomputed_correct G 1 2); lia. Defined.
