(* ===== verification/P256Group.v ===== *)
(** * The points of P-256: the order of the base point, and of every point

    The chords and tangents of Curve as the addition of Group; the base point
    has order n, no point has order 2, and every point is a multiple of the
    base point. *)
From S2P Require Import Prelude Modular Digits P256 Primes Felem Curve P256Point P256Table Abelian Group.
From Stdlib Require Import Znumtheory.
From Bignums Require Import BigZ.BigZ.

#[local] Abbreviation p := p_value.
#[local] Abbreviation n := n_value.

(** ** Sums *)

(** [A] are coordinates of [P], up to multiples of p. *)
Definition is_coords (P : gpoint) (A : point) : Prop := exists B, coords P = Some B /\ point_eq A B.

Lemma is_coords_valid P A : is_coords P A -> on_curve A.
Proof.
  intros (B & E & [E1 E2]). pose proof (gpoint_valid P) as H. rewrite E in H. destruct H as [_ H].
  unfold on_curve in *. by rewrite E1, E2.
Qed.

Lemma is_coords_eq P A A' : is_coords P A -> point_eq A A' -> is_coords P A'.
Proof. intros (B & E & H) HA. exists B. split; [exact E|]. by rewrite <- HA. Qed.

Lemma is_coords_inj P Q A : is_coords P A -> is_coords Q A -> P = Q.
Proof.
  intros (B & E & H) (B' & E' & H'). apply gpoint_eq. rewrite E, E'. f_equal.
  pose proof (gpoint_valid P) as V. pose proof (gpoint_valid Q) as V'. rewrite E in V. rewrite E' in V'.
  apply canonical_eq; [apply V|apply V'|]. by rewrite <- H.
Qed.

Lemma psum_proper A A' B B' R : point_eq A A' -> point_eq B B' -> psum A B R -> psum A' B' R.
Proof.
  intros EA EB [[Hx (l & El & HR)]|[E [Hy (l & El & HR)]]].
  - left. destruct EA as [X Y], EB as [X' Y']. split; [by rewrite <- X, <- X'|]. exists l. split; [by rewrite <- X, <- X', <- Y, <- Y'|].
    unfold on_line in *. by rewrite <- X, <- X', <- Y.
  - right. split; [by rewrite <- EA, <- EB|]. destruct EA as [X Y]. split; [by rewrite <- Y|]. exists l.
    split; [by rewrite <- X, <- Y|]. unfold on_line in *. by rewrite <- X, <- Y.
Qed.

Lemma psum_gadd P Q A B R : is_coords P A -> is_coords Q B -> psum A B R -> is_coords (gadd P Q) R.
Proof.
  intros (A' & EA & HA) (B' & EB & HB) S. apply (psum_proper _ _ _ _ _ HA HB) in S.
  pose proof (gpoint_valid P) as V. pose proof (gpoint_valid Q) as V'. rewrite EA in V. rewrite EB in V'.
  destruct (line_of_psum A' B' R (proj2 V) (proj2 V') S) as (l & c & L).
  destruct (add_cases A' B') as [[Ho _]|[_ (R' & E & HR & S')]]; [apply V|apply V'|apply V|apply V'|by apply line_not_opposite in L|].
  destruct (line_of_psum A' B' R' (proj2 V) (proj2 V') S') as (l' & c' & L').
  exists R'. split; [cbn; by rewrite EA, EB|]. by apply (line_unique l c l' c' A' B').
Qed.

(** What [comb] adds up is a sum of multiples. *)
Lemma comb_group g q G Q m k R :
  is_coords g G -> is_coords q Q -> comb G Q m k R -> is_coords (gadd (mul m g) (mul k q)) R.
Proof.
  intros Hg Hq H. induction H as [R E|R E|m k m' k' S T R _ IHS _ IHT HR].
  - rewrite gmul_1, gmul_0, op_e_r. apply is_coords_eq with G; [exact Hg|by symmetry].
  - rewrite gmul_1, gmul_0, op_e_l. apply is_coords_eq with Q; [exact Hq|by symmetry].
  - rewrite !gmul_add, op_middle. by apply psum_gadd with S T.
Qed.

(** ** The order of the base point *)

Definition g : gpoint := GPoint (Some G) eq_refl.

Fixpoint bmul (k : positive) (P : bjac) : bjac :=
  match k with xH => P | xO k => bdouble (bmul k P) | xI k => badd P (bdouble (bmul k P)) end.

Lemma bmul_multiple Q k : is_multiple Q (Zpos k) (bmul k bG).
Proof.
  induction k as [k IH|k IH|]; cbn [bmul]; [| |apply bG_multiple].
  - destruct (bG_multiple Q) as (J & HJ & Hc), IH as (J' & HJ' & Hc'). exists (jadd J (jdouble J')).
    split; [by apply badd_of, bdouble_of|]. rewrite Pos2Z.inj_xI, Z.add_comm. apply (jcomb_add G Q 1 0 (2 * Z.pos k) 0); [done|].
    exact (jcomb_double G Q _ 0 J' Hc').
  - destruct IH as (J & HJ & Hc). exists (jdouble J). split; [by apply bdouble_of|]. rewrite Pos2Z.inj_xO. exact (jcomb_double G Q _ 0 J Hc).
Qed.

(** The coordinates of [P] are [x] and [y]. *)
Definition has_coords (x y : Z) (P : bjac) : bool :=
  let ZZ := mulm (bZ P) (bZ P) in
  BigZ.eqb (mulm (BigZ.of_Z x) ZZ) (mulm (bX P) 1)
  && BigZ.eqb (mulm (BigZ.of_Z y) (mulm (bZ P) ZZ)) (mulm (bY P) 1)
  && negb (BigZ.eqb (BigZ.modulo (bZ P) bp) BigZ.zero).

Lemma has_coords_affine x y P J q : has_coords x y P = true -> bjac_of P J -> affine J q -> point_eq q (x, y).
Proof.
  unfold has_coords. cbv zeta. rewrite !andb_true_iff, !BigZ.spec_eqb, !Z.eqb_eq. intros ((EX & EY) & _).
  destruct J as [X Y Z]. intros (HX & HY & HZ) (Hz & HqX & HqY). cbn [jX jY jZ] in *.
  assert (MX : x * (Z * Z) =[p] X * 1).
  { eapply mulm_eq; [exact EX|apply eqm_eq_refl, BigZ.spec_of_Z|by apply mulm_res|exact HX|apply eqm_eq_refl; reflexivity]. }
  assert (MY : y * (Z * (Z * Z)) =[p] Y * 1).
  { eapply mulm_eq; [exact EY|apply eqm_eq_refl, BigZ.spec_of_Z|apply mulm_res; [done|by apply mulm_res]|exact HY|apply eqm_eq_refl; reflexivity]. }
  rewrite Z.mul_1_r in MX, MY. split; cbn [fst snd].
  - apply (p_cancel Z), (p_cancel Z); [done..|]. transitivity (q.1 * (Z * Z)); [apply eqm_eq_refl; ring|].
    rewrite <- HqX, <- MX. apply eqm_eq_refl. ring.
  - apply (p_cancel Z), (p_cancel Z), (p_cancel Z); [done..|]. transitivity (q.2 * (Z * (Z * Z))); [apply eqm_eq_refl; ring|].
    rewrite <- HqY, <- MY. apply eqm_eq_refl. ring.
Qed.

Lemma has_coords_finite x y P J : has_coords x y P = true -> bjac_of P J -> ~ jZ J =[p] 0.
Proof.
  unfold has_coords. cbv zeta. intros [_ H%negb_true_iff]%andb_true_iff (_ & _ & HZ) E.
  rewrite BigZ.spec_eqb, Z.eqb_neq, BigZ.spec_modulo in H. apply H. change (BigZ.to_Z BigZ.zero) with (0 mod p). change (BigZ.to_Z bp) with p.
  apply eqm_eq; [exact p_nonzero|]. unfold bres in HZ. by rewrite HZ.
Qed.

Lemma g_coords : is_coords g G.
Proof. exists G. by split. Qed.

(** A multiple of the base point, by computation. *)
Lemma multiple_coords k x y : has_coords x y (bmul k bG) = true -> is_coords (mul (Zpos k) g) (x, y).
Proof.
  intros H. destruct (bmul_multiple G k) as (J & HJ & Hc).
  destruct (Hc (has_coords_finite x y _ J H HJ)) as (q & Hq & C).
  apply (comb_group g g G G) in C; [|exact g_coords..]. rewrite gmul_0, op_e_r in C.
  apply is_coords_eq with q; [exact C|]. exact (has_coords_affine x y _ J q H HJ Hq).
Qed.

Lemma multiple_reduced_coords k x y :
  0 <= x < p -> 0 <= y < p -> has_coords x y (bmul k bG) = true -> coords (mul (Zpos k) g) = Some (x, y).
Proof.
  intros Hx Hy H. destruct (multiple_coords k x y H) as (B & E & HB). rewrite E. f_equal.
  pose proof (gpoint_valid (mul (Zpos k) g)) as V. rewrite E in V. symmetry.
  apply canonical_eq; [by split|apply V|exact HB].
Qed.

Definition n_pred : positive := Eval vm_compute in Z.to_pos (n - 1).

Lemma n_pred_value : Zpos n_pred = n - 1.
Proof. vm_compute. reflexivity. Qed.

Lemma neg_G_checked : has_coords (eval base_x) (p - eval base_y) (bmul n_pred bG) = true.
Proof. vm_compute. reflexivity. Qed.

(** The base point has order n. *)
Lemma g_order : mul n g = gzero.
Proof.
  assert (mul (n - 1) g = gneg g) as H.
  { rewrite <- n_pred_value. apply (is_coords_inj _ _ _ (multiple_coords _ _ _ neg_G_checked)).
    exists (G.1, (- G.2) mod p). split; [reflexivity|]. split; cbn [fst snd]; [done|].
    transitivity (- G.2); [apply eqm_add_multiple with 1; cbn [G snd]; ring|symmetry; apply eqm_mod]. }
  replace n with (Z.succ (n - 1)) by lia. rewrite gmul_succ, H. apply op_inv_r.
Qed.

Lemma g_nonzero : g <> gzero.
Proof. intros E. apply (f_equal coords) in E. discriminate E. Qed.
