(* ===== verification/Cofactor.v ===== *)
(** * The base point generates the curve

    No point of the curve has order 2, since its cubic has no root modulo p; and
    a curve has at most [2 p + 1] points, so that there is no room for two
    cosets besides the multiples of the base point.  So every point is a
    multiple of the base point and its order divides n: the cofactor is 1. *)
From S2P Require Import Prelude Modular Digits P256 Primes Felem Curve P256Point P256Table Abelian Group P256Group.
From Stdlib Require Import Znumtheory.
From Bignums Require Import BigZ.BigZ.

#[local] Abbreviation p := p_value.
#[local] Abbreviation n := n_value.

(** ** The cubic has no root

    Polynomials of degree 2 modulo [x^3 - 3 x + b]: at a root they multiply like
    their values.  [x^p - x] is invertible there. *)

Definition tri : Type := bigZ * bigZ * bigZ.
Definition bb : bigZ := Eval vm_compute in BigZ.of_Z b_value.

Definition tmul (s t : tri) : tri :=
  let '(a0, a1, a2) := s in
  let '(c0, c1, c2) := t in
  let d0 := mulm a0 c0 in
  let d1 := BigZ.add (mulm a0 c1) (mulm a1 c0) in
  let d2 := BigZ.add (BigZ.add (mulm a0 c2) (mulm a1 c1)) (mulm a2 c0) in
  let d3 := BigZ.add (mulm a1 c2) (mulm a2 c1) in
  let d4 := mulm a2 c2 in
  (BigZ.sub d0 (mulm bb d3), BigZ.sub (BigZ.add d1 (mulm 3%bigZ d3)) (mulm bb d4), BigZ.add d2 (mulm 3%bigZ d4)).

Fixpoint tpow (k : positive) (t : tri) : tri :=
  match k with xH => t | xO k => let s := tpow k t in tmul s s | xI k => let s := tpow k t in tmul t (tmul s s) end.

Definition tX : tri := (0%bigZ, 1%bigZ, 0%bigZ).
Definition tsub_X (t : tri) : tri := let '(a0, a1, a2) := t in (a0, BigZ.sub a1 1, a2).

(** The inverse of [x^p - x]. *)
Definition tV : tri := Eval vm_compute in
  (BigZ.of_Z 0xa969487079f1744798bf0de6fded091b66e9d328eb0645fe5d979d1339b7f47f,
   BigZ.of_Z 0xa4a08891884100c13323460107a8d28eede4387fa3e6e9bfebec9f6d72d0b5cc,
   BigZ.of_Z 0x4cde11cf86cb876cd59cf0115813c55af0ecd3cda667d98bb9a347a56aa74a6d).

Definition is_one (t : tri) : bool :=
  let '(a0, a1, a2) := t in
  BigZ.eqb (mulm a0 1) 1 && BigZ.eqb (mulm a1 1) 0 && BigZ.eqb (mulm a2 1) 0.

Definition p_exponent : positive := Eval vm_compute in Z.to_pos p.

Lemma no_root_checked : is_one (tmul tV (tsub_X (tpow p_exponent tX))) = true.
Proof. vm_compute. reflexivity. Qed.

Lemma p_exponent_value : Zpos p_exponent = p.
Proof. vm_compute. reflexivity. Qed.

Lemma fermat_pow q a : prime q -> ~ a =[q] 0 -> a ^ q =[q] a.
Proof.
  intros Hq Ha. pose proof (prime_ge_2 q Hq). rewrite <- (Z.succ_pred q) at 2. rewrite Z.pow_succ_r, <- Z.sub_1_r by lia.
  rewrite (fermat q a Hq Ha). apply eqm_eq_refl. ring.
Qed.

Section Root.
Context (r : Z) (root : r * r * r + (-3) * r + b_value =[p] 0).

Definition tval (t : tri) : Z :=
  let '(a0, a1, a2) := t in BigZ.to_Z a0 + BigZ.to_Z a1 * r + BigZ.to_Z a2 * (r * r).

Lemma mulm_eqm x y : BigZ.to_Z (mulm x y) =[p] BigZ.to_Z x * BigZ.to_Z y.
Proof. by apply mulm_res; apply eqm_eq_refl. Qed.

Lemma tval_mul s t : tval (tmul s t) =[p] tval s * tval t.
Proof.
  destruct s as [[a0 a1] a2], t as [[c0 c1] c2]. unfold tval, tmul. cbv zeta.
  rewrite !BigZ.spec_sub, !BigZ.spec_add, !mulm_eqm, !BigZ.spec_add, !mulm_eqm.
  change (BigZ.to_Z bb) with b_value. change (BigZ.to_Z 3%bigZ) with 3.
  generalize (BigZ.to_Z a0) (BigZ.to_Z a1) (BigZ.to_Z a2) (BigZ.to_Z c0) (BigZ.to_Z c1) (BigZ.to_Z c2).
  intros x0 x1 x2 y0 y1 y2.
  transitivity ((x0 + x1 * r + x2 * (r * r)) * (y0 + y1 * r + y2 * (r * r))
    - (r * r * r + (-3) * r + b_value) * (x1 * y2 + x2 * y1 + x2 * y2 * r)); [apply eqm_eq_refl; ring|].
  rewrite root. apply eqm_eq_refl. ring.
Qed.

Lemma tval_pow k t : tval (tpow k t) =[p] tval t ^ Zpos k.
Proof.
  induction k as [k IH|k IH|]; cbn [tpow].
  - rewrite !tval_mul, IH, Pos2Z.inj_xI, Z.pow_add_r, Z.pow_1_r, Z.pow_twice_r by lia. apply eqm_eq_refl. ring.
  - by rewrite tval_mul, IH, Pos2Z.inj_xO, Z.pow_twice_r.
  - by rewrite Z.pow_1_r.
Qed.

Lemma is_one_val t : is_one t = true -> tval t =[p] 1.
Proof.
  destruct t as [[a0 a1] a2]. unfold is_one, tval. rewrite !andb_true_iff, !BigZ.spec_eqb, !Z.eqb_eq. intros ((E0 & E1) & E2).
  pose proof (mulm_eqm a0 1) as M0. pose proof (mulm_eqm a1 1) as M1. pose proof (mulm_eqm a2 1) as M2.
  change (BigZ.to_Z 1) with 1 in *. change (BigZ.to_Z 0) with 0 in *. rewrite E0, E1, E2, !Z.mul_1_r in *.
  rewrite <- M0, <- M1, <- M2. apply eqm_eq_refl. ring.
Qed.

Lemma no_root : False.
Proof.
  assert (~ r =[p] 0) as Hr.
  { intros E. rewrite E in root. by apply (eqm_eq p) in root. }
  assert (tval tX =[p] r) as EX by (apply eqm_eq_refl; unfold tX, tval; change (BigZ.to_Z 0) with 0; change (BigZ.to_Z 1) with 1; ring).
  assert (tval (tpow p_exponent tX) =[p] r) as EP.
  { rewrite tval_pow, EX, p_exponent_value. exact (fermat_pow p r prime_p Hr). }
  pose proof (is_one_val _ no_root_checked) as E. rewrite tval_mul in E.
  assert (forall t, tval (tsub_X t) =[p] tval t - r) as ES.
  { intros [[a0 a1] a2]. unfold tsub_X, tval. rewrite BigZ.spec_sub. change (BigZ.to_Z 1) with 1. apply eqm_eq_refl. ring. }
  rewrite ES, EP, Z.sub_diag, Z.mul_0_r in E. by apply (eqm_eq p) in E.
Qed.
End Root.

(** ** No point of order 2 *)

Lemma no_order_two P : gadd P P = gzero -> P = gzero.
Proof.
  intros E. apply (f_equal coords) in E. cbn [coords gadd gzero] in E. apply gpoint_eq. cbn [coords gzero].
  destruct (coords P) as [A|] eqn:EA; [exfalso|done]. pose proof (gpoint_valid P) as V. rewrite EA in V. destruct V as [HA CA].
  destruct (add_cases A A HA HA CA CA) as [[[_ Ho] _]|[_ (R & E' & _)]]; [|congruence].
  assert (A.2 =[p] 0) as Y. { apply p_odd. transitivity (A.2 + A.2); [apply eqm_eq_refl; ring|]. rewrite Ho at 1. apply eqm_eq_refl. ring. }
  apply (no_root A.1). unfold on_curve in CA. rewrite Y in CA. rewrite <- CA. done.
Qed.

(** ** The number of points *)

(** Different points have different codes below [2 p + 1]. *)
Definition code (P : gpoint) : Z :=
  match coords P with None => 2 * p | Some A => 2 * A.1 + A.2 mod 2 end.

Lemma code_range P : 0 <= code P < 2 * p + 1.
Proof.
  unfold code. pose proof (gpoint_valid P) as V. destruct (coords P) as [A|]; [|pose proof p_pos; lia].
  destruct V as [[[H1 H2] _] _]. pose proof (Z.mod_pos_bound A.2 2 eq_refl). lia.
Qed.

Lemma p_is_odd : p mod 2 = 1.
Proof. reflexivity. Qed.

Lemma code_inj P Q : code P = code Q -> P = Q.
Proof.
  unfold code. intros E. apply gpoint_eq. pose proof (gpoint_valid P) as V. pose proof (gpoint_valid Q) as V'.
  destruct (coords P) as [A|], (coords Q) as [B|]; [| | |done].
  - destruct V as [HA CA], V' as [HB CB]. pose proof (Z.mod_pos_bound A.2 2 eq_refl). pose proof (Z.mod_pos_bound B.2 2 eq_refl).
    assert (A.1 = B.1 /\ A.2 mod 2 = B.2 mod 2) as [Ex Em] by lia. f_equal. apply canonical_eq; [done..|].
    assert (A.1 =[p] B.1) as Ex' by by rewrite Ex. split; [exact Ex'|].
    destruct (same_abscissa A B CA CB Ex') as [Ey|Ey]; [exact Ey|]. destruct HA as [_ HA], HB as [_ HB].
    destruct Ey as [k Ek]. pose proof p_is_odd as Hodd. rewrite (Z.mod_eq A.2), (Z.mod_eq B.2) in Em by done. rewrite Z.mod_eq in Hodd by done.
    generalize dependent p_value. intros q. intros. assert (k = 0 \/ k = 1) as [-> | ->] by nia; [|lia].
    assert (A.2 = B.2) as -> by lia. reflexivity.
  - destruct V as [[[H1 H2] _] _]. pose proof (Z.mod_pos_bound A.2 2 eq_refl). lia.
  - destruct V' as [[[H1 H2] _] _]. pose proof (Z.mod_pos_bound B.2 2 eq_refl). lia.
Qed.

Lemma points_bound (l : list gpoint) : NoDup l -> Z.of_nat (length l) <= 2 * p + 1.
Proof.
  intros Hl. assert (length (map code l) <= length (seqZ 0 (2 * p + 1)))%nat as H.
  { apply submseteq_length, NoDup_submseteq.
    - apply NoDup_fmap_2_strong; [|exact Hl]. intros P Q _ _. apply code_inj.
    - intros c (P & -> & _)%list_elem_of_fmap. apply elem_of_seqZ. apply code_range. }
  rewrite length_map, length_seqZ in H. pose proof p_pos. lia.
Qed.

(** ** Cosets of the multiples of the base point *)

Definition coset (N : nat) (K : gpoint) : list gpoint := map (fun i => gadd K (mul (Z.of_nat i) g)) (seq 0 N).

Section Cosets.
Context (N : nat) (HN : Z.of_nat N = n).

Lemma n_pos : 0 < n.
Proof. reflexivity. Qed.

Lemma elem_of_coset K P : P ∈ coset N K <-> exists j, P = gadd K (mul j g).
Proof.
  unfold coset. rewrite list_elem_of_fmap. split.
  - intros (i & -> & _). by eexists.
  - intros [j ->]. exists (Z.to_nat (j mod n)). pose proof (Z.mod_pos_bound j n n_pos) as Hj. split.
    + rewrite Z2Nat.id by apply Hj. by rewrite (gmul_mod n prime_n g j g_order).
    + apply elem_of_seq. lia.
Qed.

Lemma coset_NoDup K : NoDup (coset N K).
Proof.
  unfold coset. apply NoDup_fmap_2_strong; [|apply NoDup_seq].
  intros i j Hi%elem_of_seq Hj%elem_of_seq E. apply op_cancel in E.
  apply (gmul_eq_iff n prime_n g _ _ g_order g_nonzero) in E. destruct E as [k Ek].
  pose proof n_pos. assert (k = 0) as -> by nia. lia.
Qed.

Lemma cosets_disjoint K L : (forall j, gadd K (gneg L) <> mul j g) -> forall P, P ∈ coset N K -> P ∈ coset N L -> False.
Proof.
  intros H P [i ->]%elem_of_coset [j E]%elem_of_coset. apply (H (j - i)). rewrite gmul_sub. by apply op_difference.
Qed.

Lemma half j : exists h, 2 * h =[n] j.
Proof.
  exists (j * ((n + 1) / 2)). apply eqm_add_multiple with j. assert (2 * ((n + 1) / 2) = n + 1) as E by reflexivity.
  rewrite Z.mul_assoc, (Z.mul_comm 2), <- Z.mul_assoc, E. ring.
Qed.

(** Twice a point is a multiple of the base point only if the point is. *)
Lemma double_in_coset K j : gadd K K = mul j g -> exists h, K = mul h g.
Proof.
  intros E. destruct (half j) as [h Hh]. exists h.
  assert (gadd K (gneg (mul h g)) = gzero) as Z.
  { apply no_order_two. rewrite op_middle, E, <- inv_op, <- gmul_add, <- gmul_sub.
    apply (gmul_zero_iff n prime_n g _ g_order g_nonzero). replace (j - (h + h)) with (- (2 * h - j)) by ring. by apply Z.divide_opp_r. }
  rewrite <- (inv_inv (mul h g)). apply inv_unique. by rewrite op_comm.
Qed.

Lemma generated_N K : exists j, K = mul j g.
Proof.
  destruct (decide (K ∈ coset N gzero)) as [Hin|Hout].
  { apply elem_of_coset in Hin as [j ->]. exists j. by rewrite op_e_l. }
  assert (forall j, K <> mul j g) as H1. { intros j E. apply Hout, elem_of_coset. exists j. by rewrite op_e_l. }
  assert (forall j, gadd K K <> mul j g) as H2. { intros j E. destruct (double_in_coset K j E) as [h Hh]. by destruct (H1 h). }
  exfalso. assert (NoDup (coset N gzero ++ coset N K ++ coset N (gadd K K))) as Hd.
  { apply NoDup_app. split; [apply coset_NoDup|]. split.
    - intros P HP HQ. apply elem_of_app in HQ as [HQ|HQ].
      + apply (cosets_disjoint K gzero) with P; [|done..]. intros j. rewrite (inv_e (inv := gneg)), op_e_r. apply H1.
      + apply (cosets_disjoint (gadd K K) gzero) with P; [|done..]. intros j. rewrite (inv_e (inv := gneg)), op_e_r. apply H2.
    - apply NoDup_app. split; [apply coset_NoDup|]. split; [|apply coset_NoDup].
      intros P HP HQ. apply (cosets_disjoint (gadd K K) K) with P; [|done..]. intros j. rewrite op_assoc, op_inv_r, op_e_r. apply H1. }
  apply points_bound in Hd. unfold coset in Hd. rewrite !length_app, !length_map, !length_seq in Hd.
  assert (2 * p + 1 < 3 * n) by reflexivity. lia.
Qed.
End Cosets.

(** Every point is a multiple of the base point, and of order n or infinity. *)
Lemma generated K : exists j, K = mul j g.
Proof. apply (generated_N (Z.to_nat n)). apply Z2Nat.id. pose proof n_pos. lia. Qed.

Lemma order_n K : mul n K = gzero.
Proof. destruct (generated K) as [j ->]. by rewrite <- gmul_mul, Z.mul_comm, gmul_mul, g_order, gmul_e. Qed.
