(* ===== verification/P256Scalar.v ===== *)
(** * Scalar multiplication of libmincrypt/p256_ec.c

    scalar_base_mult, point_to_affine and scalar_mult: the loops over the bits
    of a scalar, and what they leave in the accumulator. *)
From S2P Require Import Prelude Modular Digits P256 Primes Felem Curve P256Point P256Table.

Definition felem_zero : list Z := replicate NLIMBS 0.

(** Three calls of copy_conditional. *)
Definition copy_point (out inp : jpoint) (mask : Z) : jpoint :=
  let '(x, y, z) := out in
  let '(x', y', z') := inp in
  (copy_conditional x x' mask, copy_conditional y y' mask, copy_conditional z z' mask).

(** From the copies on in the loop bodies of scalar_base_mult and scalar_mult:
    [n] is the accumulator, [p] the selected entry and [t] their sum. *)
Definition add_step (n p t : jpoint) (n_is_infinity_mask index : Z) : jpoint * Z :=
  let n := copy_point n p n_is_infinity_mask in
  let p_is_noninfinite_mask := NON_ZERO_TO_ALL_ONES index in
  let mask := p_is_noninfinite_mask .& u32 (Z.lnot n_is_infinity_mask) in
  let n := copy_point n t mask in
  (n, n_is_infinity_mask .& u32 (Z.lnot p_is_noninfinite_mask)).

Definition double_pt (n : jpoint) : jpoint := let '(nx, ny, nz) := n in point_double nx ny nz.

(** The index of iteration [(i, j)]. *)
Definition base_index (scalar : list Z) (i j : Z) : Z :=
  let bit0 := p256_get_bit scalar (31 - i + j) in
  let bit1 := p256_get_bit scalar (95 - i + j) in
  let bit2 := p256_get_bit scalar (159 - i + j) in
  let bit3 := p256_get_bit scalar (223 - i + j) in
  bit0 .| (bit1 << 1) .| (bit2 << 2) .| (bit3 << 3).

(** The inner loop: [j] is 0, then 32. *)
Definition base_row (scalar : list Z) (i : nat) (n : jpoint) (n_is_infinity_mask : Z) : jpoint * Z :=
  let '(n, n_is_infinity_mask, _) :=
    for_ 0 2 (fun j st =>
      let '(n, n_is_infinity_mask, table_offset) := st in
      let index := base_index scalar (Z.of_nat i) (32 * Z.of_nat j) in
      let '(px, py) := select_affine_point (drop table_offset kPrecomputed) index in
      let table_offset := (table_offset + 30 * NLIMBS)%nat in
      let '(nx, ny, nz) := n in
      let t := point_add_mixed nx ny nz px py in
      let '(n, n_is_infinity_mask) := add_step n (px, py, kOne) t n_is_infinity_mask index in
      (n, n_is_infinity_mask, table_offset)) (n, n_is_infinity_mask, 0%nat) in
  (n, n_is_infinity_mask).

Definition scalar_base_mult (scalar : list Z) : jpoint :=
  let n := (felem_zero, felem_zero, felem_zero) in
  fst (for_ 0 32 (fun i st =>
    let '(n, n_is_infinity_mask) := st in
    let n := if (0 <? i)%nat then double_pt n else n in
    base_row scalar i n n_is_infinity_mask) (n, u32 (-1))).

Definition point_to_affine (nx ny nz : list Z) : list Z * list Z :=
  let z_inv := felem_inv nz in
  let z_inv_sq := felem_square z_inv in
  let x_out := felem_mul nx z_inv_sq in
  let z_inv := felem_mul z_inv z_inv_sq in
  let y_out := felem_mul ny z_inv in
  (x_out, y_out).

(** The table [precomp] of scalar_mult: 0, 1, 2, ... times (x, y). *)
Definition precompute (x y : list Z) : list jpoint :=
  let precomp := replicate 16 (felem_zero, felem_zero, felem_zero) in
  let precomp := <[1%nat := (x, y, kOne)]> precomp in
  for_ 1 7 (fun h precomp =>
    let i := (2 * h)%nat in
    let precomp := <[i := double_pt (precomp !!! (i / 2)%nat)]> precomp in
    let '(qx, qy, qz) := precomp !!! i in
    <[(i + 1)%nat := point_add_mixed qx qy qz x y]> precomp) precomp.

(** The limbs of [felem precomp[16][3]] in memory. *)
Definition flatten (precomp : list jpoint) : list Z :=
  concat (map (fun '(x, y, z) => x ++ y ++ z) precomp).

Definition window_index (scalar : list Z) (i : Z) : Z :=
  (p256_get_bit scalar (255 - i - 0) << 3)
  .| (p256_get_bit scalar (255 - i - 1) << 2)
  .| (p256_get_bit scalar (255 - i - 2) << 1)
  .| p256_get_bit scalar (255 - i - 3).

Definition scalar_mult (x y scalar : list Z) : jpoint :=
  let precomp := flatten (precompute x y) in
  let n := (felem_zero, felem_zero, felem_zero) in
  fst (for_ 0 64 (fun w st =>
    let '(n, n_is_infinity_mask) := st in
    let i := 4 * Z.of_nat w in
    let n := if 0 <? i then double_pt (double_pt (double_pt (double_pt n))) else n in
    let index := window_index scalar i in
    let '(px, py, pz) := select_jacobian_point precomp index in
    let '(nx, ny, nz) := n in
    let t := point_add nx ny nz px py pz in
    add_step n (px, py, pz) t n_is_infinity_mask index) (n, u32 (-1))).

(** * Lemmas *)

Lemma reprs_ok P J : reprs P J -> pt_ok P.
Proof. destruct P as [[x y] z]. intros (Hx & Hy & Hz). split_and!; [apply Hx|apply Hy|apply Hz]. Qed.

Lemma pt_reprs x y z : pt_ok (x, y, z) -> exists J, reprs (x, y, z) J.
Proof.
  intros (Hx & Hy & Hz). exists (Jac (fval x * fRinv) (fval y * fRinv) (fval z * fRinv)).
  split_and!; by apply repr_of_value.
Qed.

Lemma felem_zero_ok : fe_ok felem_zero.
Proof. exact (proj1 zero_repr). Qed.

Lemma double_pt_ok n : pt_ok n -> pt_ok (double_pt n).
Proof.
  destruct n as [[x y] z]. intros H. apply pt_reprs in H as [J H].
  exact (reprs_ok _ _ (point_double_reprs _ _ _ _ H)).
Qed.

Lemma point_add_mixed_ok x1 y1 z1 x2 y2 :
  pt_ok (x1, y1, z1) -> fe_ok x2 -> fe_ok y2 -> pt_ok (point_add_mixed x1 y1 z1 x2 y2).
Proof.
  intros H Hx Hy. apply pt_reprs in H as [J H]. apply repr_of_value in Hx, Hy.
  exact (reprs_ok _ _ (point_add_mixed_reprs _ _ _ _ _ _ _ _ H Hx Hy)).
Qed.

Lemma point_add_ok x1 y1 z1 x2 y2 z2 :
  pt_ok (x1, y1, z1) -> pt_ok (x2, y2, z2) -> pt_ok (point_add x1 y1 z1 x2 y2 z2).
Proof.
  intros H1 H2. apply pt_reprs in H1 as [J1 H1], H2 as [J2 H2].
  exact (reprs_ok _ _ (point_add_reprs _ _ _ _ _ _ _ _ H1 H2)).
Qed.

Lemma copy_point_spec out inp b :
  pt_ok out -> pt_ok inp -> copy_point out inp (mask_of b) = if b then inp else out.
Proof.
  destruct out as [[x y] z], inp as [[x' y'] z']. intros (? & ? & ?) (? & ? & ?).
  unfold copy_point. rewrite !copy_felem by done. by destruct b.
Qed.

(** The three cases of a loop body. *)
Lemma add_step_spec n p t b index :
  pt_ok n -> pt_ok p -> pt_ok t -> 0 <= index < 16 ->
  add_step n p t (mask_of b) index
  = (if b then p else if index =? 0 then n else t, mask_of (b && (index =? 0))).
Proof.
  intros Hn Hp Ht Hi. unfold add_step. rewrite NON_ZERO_spec by lia. rewrite copy_point_spec by done.
  assert ((mask_of (negb (index =? 0)) .& u32 (Z.lnot (mask_of b))) = mask_of (negb (index =? 0) && negb b)) as ->
    by by destruct (index =? 0), b.
  assert ((mask_of b .& u32 (Z.lnot (mask_of (negb (index =? 0))))) = mask_of (b && (index =? 0))) as ->
    by by destruct (index =? 0), b.
  rewrite copy_point_spec by by destruct b. by destruct b, (index =? 0).
Qed.

Section Accumulator.
Context (C : Z -> jpoint -> Prop) `{!Multiples C}.

(** The accumulator and its mask: nothing yet, or a multiple. *)
Definition acc (n : jpoint) (b : bool) (m : Z) : Prop := pt_ok n /\ if b then m = 0 else 0 < m /\ C m n.

Lemma acc_start : acc (felem_zero, felem_zero, felem_zero) true 0.
Proof. split; [split_and!; apply felem_zero_ok|done]. Qed.

Lemma acc_eq n b m m' : acc n b m -> m = m' -> acc n b m'.
Proof. by intros H <-. Qed.

Lemma acc_double n b m : acc n b m -> acc (double_pt n) b (2 * m).
Proof.
  intros [Hn H]. split; [by apply double_pt_ok|]. destruct b; [lia|]. destruct H as [Hp H].
  split; [lia|]. destruct n as [[x y] z]. by apply mult_double.
Qed.

Lemma acc_add n b m p t m' index :
  acc n b m -> pt_ok p -> pt_ok t -> 0 <= index < 16 ->
  (index = 0 -> m' = 0) ->
  (index <> 0 -> 0 < m' /\ C m' p) ->
  (index <> 0 -> 0 < m -> C m n -> C (m + m') t) ->
  exists n' b', add_step n p t (mask_of b) index = (n', mask_of b')
    /\ acc n' b' (m + m') /\ (b' = true -> n' = p /\ index = 0).
Proof.
  intros [Hn H] Hp Ht Hi H0 H1 H2. rewrite add_step_spec by done. eexists _, _. split; [done|].
  destruct (Z.eqb_spec index 0) as [E|E], b; cbn [andb].
  - rewrite (H0 E). split; [|done]. split; [done|lia].
  - rewrite (H0 E), Z.add_0_r. split; [by split|done].
  - destruct (H1 E). rewrite H. split; [|done]. split; done.
  - split; [|done]. destruct H as [Hpos H], (H1 E). split; [done|]. split; [lia|]. by apply H2.
Qed.

(** The accumulator for a scalar that is not 0. *)
Lemma acc_nonzero n b m : acc n b m -> m <> 0 -> C m n.
Proof. intros [_ H] Hne. destruct b; [lia|]. by destruct H. Qed.

End Accumulator.

(** ** scalar_base_mult *)

Lemma get_bit_digit a s r :
  0 <= r < 32 ->
  p256_get_bit a (32 * Z.of_nat s + r) = Z.b2z (Z.testbit (a !!! s) r).
Proof.
  intros Hr. unfold p256_get_bit, P256_BITSPERDIGIT.
  rewrite (Z.mul_comm 32), Z.div_add_l, Z.div_small, Z.add_0_r, Nat2Z.id by lia.
  assert (((Z.of_nat s * 32 + r) .& (32 - 1)) = r) as ->.
  { change (32 - 1) with (Z.ones 5). rewrite Z.land_ones, Z.add_comm, Z.mod_add by lia. by apply Z.mod_small. }
  change 1 with (Z.ones 1). rewrite Z.land_ones by done. change (2 ^ 1) with 2.
  by rewrite <- Z.bit0_mod, Z.shiftr_spec, Z.add_0_l.
Qed.

Lemma index_bits b0 b1 b2 b3 :
  let index := Z.b2z b0 .| (Z.b2z b1 << 1) .| (Z.b2z b2 << 2) .| (Z.b2z b3 << 3) in
  0 <= index < 16 /\ bits4 (Z.to_nat index) = [b0; b1; b2; b3].
Proof. destruct b0, b1, b2, b3; (split; [split; [discriminate|reflexivity]|reflexivity]). Qed.

(** The digits shifted: what has been added up before iteration [i]. *)
Definition base_prefix (scalar : list Z) (i : nat) : Z :=
  le_eval 32 (map (fun d => d >> (32 - Z.of_nat i)) scalar).

Lemma shiftr_step d i :
  0 <= d -> (i < 32)%nat ->
  d >> (32 - Z.of_nat (S i)) = 2 * (d >> (32 - Z.of_nat i)) + Z.b2z (Z.testbit d (31 - Z.of_nat i)).
Proof.
  intros Hd Hi. replace (32 - Z.of_nat (S i)) with (31 - Z.of_nat i) by lia.
  replace (32 - Z.of_nat i) with (31 - Z.of_nat i + 1) by lia.
  set (k := 31 - Z.of_nat i). rewrite <- Z.shiftr_shiftr by lia.
  replace (Z.testbit d k) with (Z.testbit (d >> k) 0) by (by rewrite Z.shiftr_spec, Z.add_0_l by lia).
  rewrite <- Z.div2_spec, Z.bit0_odd. apply Z.div2_odd.
Qed.

Lemma kselect_bits4 index t :
  0 <= index < 16 ->
  (index = 0 -> kselect (bits4 (Z.to_nat index)) (ks t) = 0)
  /\ (index <> 0 -> 0 < kselect (bits4 (Z.to_nat index)) (ks t)).
Proof.
  intros Hi. unfold ks. cbn [map seq].
  assert (forall e, 0 <= e -> 0 < 2 ^ e) as Hp by (intros; by apply Z.pow_pos_nonneg).
  pose proof (Hp (64 * Z.of_nat 0 + 32 * Z.of_nat t) ltac:(lia)).
  pose proof (Hp (64 * Z.of_nat 1 + 32 * Z.of_nat t) ltac:(lia)).
  pose proof (Hp (64 * Z.of_nat 2 + 32 * Z.of_nat t) ltac:(lia)).
  pose proof (Hp (64 * Z.of_nat 3 + 32 * Z.of_nat t) ltac:(lia)). clear Hp.
  set (p0 := 2 ^ _) in *. set (p1 := 2 ^ _) in *. set (p2 := 2 ^ _) in *. set (p3 := 2 ^ _) in *.
  clearbody p0 p1 p2 p3.
  assert (exists k, index = Z.of_nat k /\ (k < 16)%nat) as (k & -> & Hk) by (exists (Z.to_nat index); lia).
  rewrite Nat2Z.id. do 16 (destruct k as [|k];
    [match goal with |- context [bits4 ?k] => let b := eval vm_compute in (bits4 k) in change (bits4 k) with b end;
     cbn [kselect Z.b2z]; lia|]). lia.
Qed.

(** The bits iteration [(i, j)] takes: those of every other digit. *)
Definition row_bits (scalar : list Z) (i j : nat) : list bool :=
  map (fun s => Z.testbit (scalar !!! (j + 2 * s)%nat) (31 - Z.of_nat i)) (seq 0 4).

Lemma base_index_bits scalar i j :
  (i < 32)%nat ->
  0 <= base_index scalar (Z.of_nat i) (32 * Z.of_nat j) < 16
  /\ bits4 (Z.to_nat (base_index scalar (Z.of_nat i) (32 * Z.of_nat j))) = row_bits scalar i j.
Proof.
  intros Hi. unfold base_index. set (I := Z.of_nat i). set (J := Z.of_nat j).
  assert (forall s, p256_get_bit scalar (31 + 64 * Z.of_nat s - I + 32 * J)
    = Z.b2z (Z.testbit (scalar !!! (j + 2 * s)%nat) (31 - I))) as Hb.
  { intros s. rewrite <- get_bit_digit by lia. f_equal. lia. }
  pose proof (Hb 0%nat) as H0. pose proof (Hb 1%nat) as H1. pose proof (Hb 2%nat) as H2. pose proof (Hb 3%nat) as H3.
  change (31 + 64 * Z.of_nat 0) with 31 in H0. change (31 + 64 * Z.of_nat 1) with 95 in H1.
  change (31 + 64 * Z.of_nat 2) with 159 in H2. change (31 + 64 * Z.of_nat 3) with 223 in H3.
  rewrite H0, H1, H2, H3. apply index_bits.
Qed.

(** The table entries iteration [i] selects. *)
Lemma base_prefix_step scalar i :
  p256_ok scalar -> (i < 32)%nat ->
  base_prefix scalar (S i)
  = 2 * base_prefix scalar i + kselect (row_bits scalar i 0) (ks 0) + kselect (row_bits scalar i 1) (ks 1).
Proof.
  intros [Hw Hl] Hi. unfold base_prefix, row_bits.
  do 8 (destruct scalar as [|? scalar]; [discriminate Hl|]). destruct scalar; [|discriminate Hl].
  inv_words. unfold ks. cbn [map le_eval seq Nat.add Nat.mul lookup_total list_lookup_total kselect].
  rewrite !shiftr_step by (done || match goal with H : is_word 32 ?z |- 0 <= ?z => apply H end).
  repeat match goal with |- context [Z.b2z ?b] => let v := fresh "v" in set (v := Z.b2z b); clearbody v end.
  repeat match goal with |- context [?x >> ?n] => let v := fresh "v" in set (v := x >> n); clearbody v end.
  repeat match goal with |- context [2 ^ ?n] => let v := eval vm_compute in (2 ^ n) in change (2 ^ n) with v end.
  ring.
Qed.

Lemma base_prefix_0 scalar : p256_ok scalar -> base_prefix scalar 0 = 0.
Proof.
  intros [Hw Hl]. unfold base_prefix. rewrite <- (eval_zeros (length scalar)). f_equal.
  clear Hl. induction Hw as [|d l Hd Hw IH]; cbn [map length replicate]; [done|]. rewrite IH. f_equal.
  rewrite Z.shiftr_div_pow2 by done. by apply Z.div_small.
Qed.

Lemma base_prefix_all scalar : base_prefix scalar 32 = eval scalar.
Proof.
  unfold base_prefix. f_equal. rewrite <- (map_id scalar) at 2. apply map_ext. intros d. by rewrite Z.shiftr_0_r.
Qed.

Lemma entry_ok_at_infinity : pt_ok (felem_zero, felem_zero, kOne).
Proof. split_and!; [apply felem_zero_ok..|exact (proj1 one_repr)]. Qed.

(** The bits of the next row are not what has been added up before: their sum
    has the digits 0 and 1, twice the prefix has even digits. *)
Lemma prefix_digits scalar i :
  p256_ok scalar -> (i < 32)%nat -> Forall (fun d => 0 <= d < 2 ^ 31) (map (fun d => d >> (32 - Z.of_nat i)) scalar).
Proof.
  intros [Hw _] Hi. apply Forall_map. apply (Forall_impl _ _ _ Hw). intros d Hd. cbn. rewrite Z.shiftr_div_pow2 by lia.
  split; [apply Z.div_pos; [apply Hd|by apply Z.pow_pos_nonneg; lia]|].
  apply Z.div_lt_upper_bound; [by apply Z.pow_pos_nonneg; lia|]. rewrite <- Z.pow_add_r by lia. destruct Hd as [_ Hd].
  eapply Z.lt_le_trans; [exact Hd|]. apply Z.pow_le_mono_r; lia.
Qed.

(** Digits of 32 bits are unique. *)
Lemma digits_differ l l' : words 32 l -> words 32 l' -> length l = length l' -> l <> l' -> eval l <> eval l'.
Proof. intros Hl Hl' Hn Hne E. apply Hne. by apply (le_eval_inj 32). Qed.

Lemma row_new scalar i :
  p256_ok scalar -> (i < 32)%nat ->
  (0 < 2 * base_prefix scalar i -> 2 * base_prefix scalar i <> kselect (row_bits scalar i 0) (ks 0))
  /\ (0 < 2 * base_prefix scalar i + kselect (row_bits scalar i 0) (ks 0) ->
      2 * base_prefix scalar i + kselect (row_bits scalar i 0) (ks 0) <> kselect (row_bits scalar i 1) (ks 1)).
Proof.
  intros Hs Hi. pose proof (prefix_digits scalar i Hs Hi) as Hd. unfold base_prefix, row_bits. destruct Hs as [_ Hl].
  do 8 (destruct scalar as [|? scalar]; [discriminate Hl|]). destruct scalar; [|discriminate Hl].
  unfold ks. cbn [map seq Nat.add Nat.mul lookup_total list_lookup_total] in *.
  repeat match goal with |- context [Z.testbit ?d ?k] => let v := fresh "b" in set (v := Z.testbit d k); clearbody v end.
  repeat match goal with |- context [?x >> ?n] => let v := fresh "v" in set (v := x >> n) in *; clearbody v end.
  repeat match goal with H : Forall _ (_ :: _) |- _ => apply Forall_cons in H as [? H] end.
  cbn [le_eval kselect] in *.
  repeat match goal with |- context [2 ^ ?n] => let v := eval vm_compute in (2 ^ n) in change (2 ^ n) with v end.
  assert (forall b, 0 <= Z.b2z b <= 1) as Hb by (intros []; cbn; lia).
  pose proof (Hb b) as B. pose proof (Hb b0) as B0. pose proof (Hb b1) as B1. pose proof (Hb b2) as B2.
  split; intros Hpos E.
  - apply (digits_differ [2 * v; 2 * v0; 2 * v1; 2 * v2; 2 * v3; 2 * v4; 2 * v5; 2 * v6]
      [Z.b2z b; 0; Z.b2z b0; 0; Z.b2z b1; 0; Z.b2z b2; 0]).
    + repeat (apply Forall_cons_2; [unfold is_word; lia|]). apply Forall_nil_2.
    + repeat (apply Forall_cons_2; [unfold is_word; lia|]). apply Forall_nil_2.
    + reflexivity.
    + intros [= ? ? ? ? ? ? ? ?]. lia.
    + cbn [le_eval]. lia.
  - pose proof (Hb b3) as B3. pose proof (Hb b4) as B4. pose proof (Hb b5) as B5. pose proof (Hb b6) as B6.
    apply (digits_differ [2 * v + Z.b2z b; 2 * v0; 2 * v1 + Z.b2z b0; 2 * v2; 2 * v3 + Z.b2z b1; 2 * v4; 2 * v5 + Z.b2z b2; 2 * v6]
      [0; Z.b2z b3; 0; Z.b2z b4; 0; Z.b2z b5; 0; Z.b2z b6]).
    + repeat (apply Forall_cons_2; [unfold is_word; lia|]). apply Forall_nil_2.
    + repeat (apply Forall_cons_2; [unfold is_word; lia|]). apply Forall_nil_2.
    + reflexivity.
    + intros [= ? ? ? ? ? ? ? ?]. lia.
    + cbn [le_eval]. lia.
Qed.

Section BaseLoop.
Context (C : Z -> jpoint -> Prop) `{!Multiples C}.
Hypothesis entries : forall t i, (t < 2)%nat -> (1 <= i < 16)%nat ->
  C (kselect (bits4 i) (ks t)) (entry (table_of t) (2 * i - 2), entry (table_of t) (2 * i - 1), kOne).

Lemma select_affine_entry j index px py :
  (j < 2)%nat -> 0 <= index < 16 ->
  select_affine_point (drop (j * (30 * NLIMBS)) kPrecomputed) index = (px, py) ->
  pt_ok (px, py, kOne)
  /\ (index = 0 -> px = felem_zero /\ py = felem_zero)
  /\ (index <> 0 -> C (kselect (bits4 (Z.to_nat index)) (ks j)) (px, py, kOne)).
Proof.
  intros Hj Hi. replace (j * (30 * NLIMBS))%nat with (j * 30 * NLIMBS)%nat by lia.
  destruct kPrecomputed_words as [Hw Hl].
  rewrite select_affine_point_spec; [|by apply Forall_drop|rewrite length_drop, Hl; unfold NLIMBS; lia|done].
  fold (table_of j). destruct (Z.eqb_spec index 0) as [E|E].
  - intros [= <- <-]. split; [exact entry_ok_at_infinity|]. by split.
  - intros [= <- <-]. pose proof (entries j (Z.to_nat index) Hj ltac:(lia)) as Hc.
    split; [by apply mult_ok in Hc|]. split; [done|]. intros _. exact Hc.
Qed.

(** An iteration of the inner loop. *)
Lemma base_step scalar i j n b m :
  (i < 32)%nat -> (j < 2)%nat -> acc C n b m -> (0 < m -> m <> kselect (row_bits scalar i j) (ks j)) ->
  let index := base_index scalar (Z.of_nat i) (32 * Z.of_nat j) in
  let '(px, py) := select_affine_point (drop (j * (30 * NLIMBS)) kPrecomputed) index in
  let '(nx, ny, nz) := n in
  exists n' b', add_step n (px, py, kOne) (point_add_mixed nx ny nz px py) (mask_of b) index = (n', mask_of b')
    /\ acc C n' b' (m + kselect (row_bits scalar i j) (ks j))
    /\ (b' = true -> n' = (felem_zero, felem_zero, kOne)).
Proof.
  intros Hi Hj Hn Hnew index. destruct (base_index_bits scalar i j Hi) as [Hx Eb]. fold index in Hx, Eb. rewrite <- Eb in *.
  destruct (select_affine_point _ _) as [px py] eqn:Es.
  destruct (select_affine_entry j index px py Hj Hx Es) as (Hp & H0 & H1).
  destruct n as [[nx ny] nz]. pose proof Hp as (Hpx & Hpy & _).
  destruct (kselect_bits4 index j Hx) as [Hk0 Hk1].
  destruct (acc_add C (nx, ny, nz) b m (px, py, kOne) (point_add_mixed nx ny nz px py)
    (kselect (bits4 (Z.to_nat index)) (ks j)) index) as (n' & b' & E & Ha & Hinf);
    [done|done|apply point_add_mixed_ok; [apply Hn|done..]|done|exact Hk0| | |].
  - intros Hne. split; [by apply Hk1|by apply H1].
  - intros Hne Hm Hc. apply mult_add_mixed; [done|by apply Hk1|by apply Hnew|done|by apply H1].
  - exists n', b'. split; [done|]. split; [done|]. intros Hb'. destruct (Hinf Hb') as [-> Hz].
    by destruct (H0 Hz) as [-> ->].
Qed.

Lemma base_row_spec scalar i n b m :
  p256_ok scalar -> (i < 32)%nat -> acc C n b m -> m = 2 * base_prefix scalar i ->
  exists n' b', base_row scalar i n (mask_of b) = (n', mask_of b')
    /\ acc C n' b' (m + kselect (row_bits scalar i 0) (ks 0) + kselect (row_bits scalar i 1) (ks 1))
    /\ (b' = true -> n' = (felem_zero, felem_zero, kOne)).
Proof.
  intros Hs Hi Hn Hm. destruct (row_new scalar i Hs Hi) as [New0 New1]. rewrite <- Hm in New0, New1. unfold base_row. cbn [for_].
  pose proof (base_step scalar i 0 n b m Hi ltac:(lia) Hn New0) as H. cbv zeta in H. change (0 * (30 * NLIMBS))%nat with 0%nat in H.
  destruct (select_affine_point (drop 0 kPrecomputed) _) as [px py]. destruct n as [[nx ny] nz].
  destruct H as (n' & b' & -> & Hn' & _).
  pose proof (base_step scalar i 1 n' b' _ Hi ltac:(lia) Hn' New1) as H. cbv zeta in H.
  change (1 * (30 * NLIMBS))%nat with (0 + 30 * NLIMBS)%nat in H.
  destruct (select_affine_point (drop (0 + 30 * NLIMBS) kPrecomputed) _) as [px' py']. destruct n' as [[nx' ny'] nz'].
  destruct H as (n'' & b'' & -> & Hn'' & Hinf). by exists n'', b''.
Qed.

(** The loop of scalar_base_mult. *)
Lemma scalar_base_mult_acc scalar :
  p256_ok scalar ->
  exists b, acc C (scalar_base_mult scalar) b (eval scalar)
    /\ (b = true -> scalar_base_mult scalar = (felem_zero, felem_zero, kOne)).
Proof.
  intros Hs. unfold scalar_base_mult.
  match goal with |- context [for_ 0 32 ?body ?s] =>
    assert (exists n b, for_ 0 32 body s = (n, mask_of b) /\ acc C n b (base_prefix scalar 32)
      /\ ((0 < 32)%nat -> b = true -> n = (felem_zero, felem_zero, kOne))) as (n & b & -> & Hn & Hi)
  end.
  - apply (for_inv (fun i st => exists n b, st = (n, mask_of b) /\ acc C n b (base_prefix scalar i)
      /\ ((0 < i)%nat -> b = true -> n = (felem_zero, felem_zero, kOne)))).
    + exists (felem_zero, felem_zero, felem_zero), true. split; [done|]. rewrite base_prefix_0 by done.
      split; [apply acc_start|lia].
    + intros i st Hi (n & b & -> & Hn & _).
      assert (acc C (if (0 <? i)%nat then double_pt n else n) b (2 * base_prefix scalar i)) as Hd.
      { destruct (Nat.ltb_spec 0 i); [by apply acc_double|].
        assert (i = 0)%nat as -> by lia. by rewrite base_prefix_0 in *. }
      destruct (base_row_spec scalar i _ b _ Hs ltac:(lia) Hd eq_refl) as (n' & b' & -> & Hn' & Hinf).
      exists n', b'. split; [done|]. rewrite base_prefix_step by (done || lia). by split.
  - exists b. cbn [fst]. rewrite base_prefix_all in Hn. split; [done|]. apply Hi. lia.
Qed.
End BaseLoop.

(** ** scalar_mult *)

Section WindowLoop.
Context (C : Z -> jpoint -> Prop) `{!Multiples C} (x y : list Z) (HQ : C 1 (x, y, kOne)).

(** The table, filled up to [n]. *)
Definition filled (precomp : list jpoint) (n : nat) : Prop :=
  length precomp = 16%nat /\ Forall pt_ok precomp
  /\ forall k, (1 <= k < n)%nat -> C (Z.of_nat k) (precomp !!! k).

Lemma filled_set precomp n P :
  filled precomp n -> (n < 16)%nat -> C (Z.of_nat n) P -> filled (<[n := P]> precomp) (S n).
Proof.
  intros (Hl & Hf & Hc) Hn HP. split; [by rewrite length_insert|]. split.
  - apply Forall_insert; [done|by apply mult_ok in HP].
  - intros k Hk. destruct (decide (k = n)) as [->|Hne].
    + by rewrite list_lookup_total_insert_eq by lia.
    + rewrite list_lookup_total_insert_ne by done. apply Hc. lia.
Qed.

Lemma filled_start : filled (<[1%nat := (x, y, kOne)]> (replicate 16 (felem_zero, felem_zero, felem_zero))) 2.
Proof.
  apply filled_set; [|lia|done]. split; [done|]. split; [|lia].
  apply Forall_replicate. split_and!; apply felem_zero_ok.
Qed.

Lemma precompute_filled : filled (precompute x y) 16.
Proof.
  unfold precompute. apply (for_inv (fun h precomp => filled precomp (2 * h)) _ 7 1); [exact filled_start|].
  intros h precomp Hh Hp. replace (2 * h / 2)%nat with h by (rewrite Nat.mul_comm, Nat.div_mul; lia).
  assert (filled (<[(2 * h)%nat := double_pt (precomp !!! h)]> precomp) (S (2 * h))) as H1.
  { apply filled_set; [done|lia|]. destruct Hp as (_ & _ & Hc). specialize (Hc h ltac:(lia)).
    destruct (precomp !!! h) as [[qx qy] qz]. cbn [double_pt].
    replace (Z.of_nat (2 * h)) with (2 * Z.of_nat h) by lia. apply mult_double; [lia|exact Hc]. }
  cbv zeta. set (t := <[_ := _]> precomp) in *. clearbody t.
  pose proof (proj2 (proj2 H1) (2 * h)%nat ltac:(lia)) as H2.
  destruct (t !!! (2 * h)%nat) as [[qx qy] qz]. replace (2 * S h)%nat with (S (2 * h + 1)) by lia.
  apply filled_set; [by replace (2 * h + 1)%nat with (S (2 * h)) by lia|lia|].
  replace (Z.of_nat (2 * h + 1)) with (Z.of_nat (2 * h) + 1) by lia. apply mult_add_mixed; [lia|lia|lia|exact H2|exact HQ].
Qed.
End WindowLoop.

Lemma flatten_words l : Forall pt_ok l -> words 32 (flatten l) /\ length (flatten l) = (length l * (3 * NLIMBS))%nat.
Proof.
  unfold flatten. induction 1 as [|[[x y] z] l (Hx & Hy & Hz) Hl [Hw Hn]]; [by split; [constructor|]|].
  apply fe_ok_words in Hx as [? Lx], Hy as [? Ly], Hz as [? Lz]. cbn [map concat length].
  rewrite !length_app, Lx, Ly, Lz, Hn. split; [repeat apply words_app; done|lia].
Qed.

Lemma flatten_entry l k x y z :
  Forall pt_ok l -> l !! k = Some (x, y, z) ->
  entry (flatten l) (3 * k) = x /\ entry (flatten l) (3 * k + 1) = y /\ entry (flatten l) (3 * k + 2) = z.
Proof.
  intros Hf Hk. pose proof (Forall_lookup_1 _ _ _ _ Hf Hk) as (Hx & Hy & Hz).
  apply fe_ok_words in Hx as [_ Lx], Hy as [_ Ly], Hz as [_ Lz].
  rewrite <- (take_drop_middle l k (x, y, z)) by done.
  assert (length (flatten (take k l)) = (3 * k * NLIMBS)%nat) as Lt.
  { rewrite (proj2 (flatten_words _ (Forall_take _ _ _ Hf))), length_take.
    apply lookup_lt_Some in Hk. lia. }
  unfold flatten in *. rewrite map_app, concat_app. cbn [map concat]. unfold entry.
  assert (forall n (A B C : list Z), length A = n -> length B = NLIMBS -> take NLIMBS (drop n (A ++ B ++ C)) = B) as H.
  { intros n A B C <- <-. rewrite drop_app_length. apply take_app_length. }
  set (F := concat (map _ (take k l))) in *. set (R := concat (map _ (drop (S k) l))).
  split_and!.
  - rewrite <- !app_assoc. by apply H.
  - replace (F ++ (x ++ y ++ z) ++ R) with ((F ++ x) ++ y ++ z ++ R) by by rewrite <- !app_assoc.
    apply H; [rewrite length_app; lia|done].
  - replace (F ++ (x ++ y ++ z) ++ R) with ((F ++ x ++ y) ++ z ++ R) by by rewrite <- !app_assoc.
    apply H; [rewrite !length_app; lia|done].
Qed.

(** The bits above the window at [i]. *)
Lemma window_step a i :
  p256_ok a -> 0 <= i <= 252 ->
  0 <= window_index a i < 16 /\ eval a >> (252 - i) = 16 * (eval a >> (256 - i)) + window_index a i.
Proof.
  intros Ha Hi. unfold window_index. rewrite !get_bit_spec by (done || lia).
  assert (forall k, 0 <= k -> eval a >> k = 2 * (eval a >> (k + 1)) + Z.b2z (Z.testbit (eval a) k)) as Hs.
  { intros k Hk. rewrite <- Z.shiftr_shiftr by lia.
    replace (Z.testbit (eval a) k) with (Z.testbit (eval a >> k) 0) by by rewrite Z.shiftr_spec, Z.add_0_l by lia.
    rewrite <- Z.div2_spec, Z.bit0_odd. apply Z.div2_odd. }
  replace (255 - i - 3) with (252 - i) by lia. replace (255 - i - 2) with (252 - i + 1) by lia.
  replace (255 - i - 1) with (252 - i + 1 + 1) by lia. replace (255 - i - 0) with (252 - i + 1 + 1 + 1) by lia.
  rewrite (Hs (252 - i)), (Hs (252 - i + 1)), (Hs (252 - i + 1 + 1)), (Hs (252 - i + 1 + 1 + 1)) by lia.
  replace (252 - i + 1 + 1 + 1 + 1) with (256 - i) by lia.
  destruct (Z.testbit _ (252 - i)), (Z.testbit _ (252 - i + 1)), (Z.testbit _ (252 - i + 1 + 1)),
    (Z.testbit _ (252 - i + 1 + 1 + 1)); cbn [Z.b2z];
    match goal with |- 0 <= ?e < _ /\ _ => let v := eval vm_compute in e in change e with v end; lia.
Qed.

Section ScalarMult.
Context (C : Z -> jpoint -> Prop) `{!Multiples C} (x y : list Z) (HQ : C 1 (x, y, kOne)).

Lemma select_jacobian_entry index px py pz :
  0 <= index < 16 ->
  select_jacobian_point (flatten (precompute x y)) index = (px, py, pz) ->
  pt_ok (px, py, pz)
  /\ (index = 0 -> (px, py, pz) = (felem_zero, felem_zero, felem_zero))
  /\ (index <> 0 -> C index (px, py, pz)).
Proof.
  intros Hi. destruct (precompute_filled C x y HQ) as (Hl & Hf & Hc).
  destruct (flatten_words _ Hf) as [Hw Hn]. rewrite Hl in Hn.
  rewrite select_jacobian_point_spec; [|done|rewrite Hn; unfold NLIMBS; lia|done].
  destruct (Z.eqb_spec index 0) as [E|E].
  - intros [= <- <- <-]. split; [split_and!; apply felem_zero_ok|]. split; [reflexivity|intros Hne; destruct (Hne E)].
  - specialize (Hc (Z.to_nat index) ltac:(lia)). rewrite Z2Nat.id in Hc by lia.
    destruct (precompute x y !! Z.to_nat index) as [[[qx qy] qz]|] eqn:Ek.
    2: { apply lookup_ge_None in Ek. lia. }
    rewrite (list_lookup_total_correct _ _ _ Ek) in Hc.
    destruct (flatten_entry _ _ _ _ _ Hf Ek) as (-> & -> & ->). intros [= <- <- <-].
    split; [by apply mult_ok in Hc|]. split; [intros Hz; destruct (E Hz)|intros _; exact Hc].
Qed.

(** The loop of scalar_mult. *)
Lemma scalar_mult_acc scalar :
  p256_ok scalar ->
  exists b, acc C (scalar_mult x y scalar) b (eval scalar)
    /\ (b = true -> scalar_mult x y scalar = (felem_zero, felem_zero, felem_zero)).
Proof.
  intros Hs. unfold scalar_mult. pose proof (p256_ok_bound _ Hs) as B.
  match goal with |- context [for_ 0 64 ?body ?s] =>
    assert (exists n b, for_ 0 64 body s = (n, mask_of b)
      /\ acc C n b (eval scalar >> (256 - 4 * Z.of_nat 64))
      /\ (b = true -> n = (felem_zero, felem_zero, felem_zero))) as (n & b & -> & Hn & Hi)
  end.
  - apply (for_inv (fun w st => exists n b, st = (n, mask_of b)
      /\ acc C n b (eval scalar >> (256 - 4 * Z.of_nat w)) /\ (b = true -> n = (felem_zero, felem_zero, felem_zero)))).
    + exists (felem_zero, felem_zero, felem_zero), true. split; [done|]. rewrite Z.mul_0_r, Z.sub_0_r, Z.shiftr_div_pow2, Z.div_small by lia.
      split; [apply acc_start|done].
    + intros w st Hw (n & b & -> & Hn & _). set (i := 4 * Z.of_nat w) in *. cbv zeta.
      assert (acc C (if 0 <? i then double_pt (double_pt (double_pt (double_pt n))) else n) b
        (16 * (eval scalar >> (256 - i)))) as Hd.
      { destruct (Z.ltb_spec 0 i).
        - do 4 (apply acc_double in Hn; [|done]). eapply acc_eq; [exact Hn|lia].
        - assert (i = 0) as E by lia. rewrite E in *. eapply acc_eq; [exact Hn|].
          by rewrite Z.sub_0_r, Z.shiftr_div_pow2, Z.div_small by lia. }
      set (nd := if 0 <? i then _ else n) in *. clearbody nd.
      destruct (window_step scalar i Hs ltac:(lia)) as [Hx Ev].
      destruct (select_jacobian_point _ _) as [[px py] pz] eqn:Es.
      destruct (select_jacobian_entry _ px py pz Hx Es) as (Hp & H0 & H1).
      destruct nd as [[nx ny] nz].
      destruct (acc_add C (nx, ny, nz) b _ (px, py, pz) (point_add nx ny nz px py pz) (window_index scalar i)
        (window_index scalar i) Hd Hp (point_add_ok _ _ _ _ _ _ (proj1 Hd) Hp) Hx) as (n' & b' & E & Ha & Hinf).
      * done.
      * intros Hne. split; [lia|]. by apply H1.
      * intros Hne Hm Hc. apply mult_add; [lia|lia|lia|exact Hc|by apply H1].
      * exists n', b'. split; [exact E|]. split.
        -- eapply acc_eq; [exact Ha|]. rewrite <- Ev. f_equal. lia.
        -- intros Hb'. destruct (Hinf Hb') as [-> Hz]. by apply H0.
  - exists b. cbn [fst]. split; [|done]. eapply acc_eq; [exact Hn|]. by rewrite Z.shiftr_0_r.
Qed.
End ScalarMult.

(** The input point, in affine coordinates. *)
Lemma input_comb px py ix iy :
  repr px ix -> repr py iy -> pcomb G (ix, iy) 0 1 (px, py, kOne).
Proof.
  intros Hx Hy. exists (Jac ix iy 1). split; [split_and!; [done|done|exact one_repr]|].
  intros _. exists (ix, iy). split; [|by apply comb_right]. split; [by intros H; apply (eqm_eq p_value) in H|].
  cbn [jX jY jZ fst snd]. split; apply eqm_eq_refl; ring.
Qed.

(** * Theorems *)

(** [P] is [m G + k Q], unless the formulas met a point they cannot add. *)
Definition multiple (Q : point) (m k : Z) (P : jpoint) : Prop :=
  pt_ok P /\ (felem_is_zero_vartime (snd P) = false -> exists q, pt_affine P q /\ comb G Q m k q).

Lemma pcomb_multiple Q m k P : pcomb G Q m k P -> multiple Q m k P.
Proof. intros H. split; [by apply pcomb_ok in H|]. by apply pcomb_affine. Qed.

(** The scalar 0. *)
Lemma scalar_mult_zero x y qx qy scalar :
  repr x qx -> repr y qy -> p256_ok scalar -> eval scalar = 0 ->
  scalar_base_mult scalar = (felem_zero, felem_zero, kOne) /\ scalar_mult x y scalar = (felem_zero, felem_zero, felem_zero).
Proof.
  intros Hx Hy Hs E. pose proof (input_comb x y qx qy Hx Hy) as HQ.
  destruct (scalar_base_mult_acc _ (kPrecomputed_comb (qx, qy)) scalar Hs) as (b1 & A1 & I1).
  destruct (scalar_mult_acc _ x y HQ scalar Hs) as (b2 & A2 & I2).
  rewrite E in A1, A2. split; [apply I1|apply I2].
  - destruct b1; [reflexivity|]. destruct A1 as [_ [H _]]. lia.
  - destruct b2; [reflexivity|]. destruct A2 as [_ [H _]]. lia.
Qed.

(** The loops over the bits of a scalar: scalar_base_mult computes the
    scalar times the base point, scalar_mult the scalar times the point given,
    within the bounds of field elements; what they leave for the scalar 0. *)
Theorem scalar_mult_correct x y scalar qx qy :
  repr x qx -> repr y qy -> p256_ok scalar ->
  if eval scalar =? 0
  then scalar_base_mult scalar = (felem_zero, felem_zero, kOne)
    /\ scalar_mult x y scalar = (felem_zero, felem_zero, felem_zero)
  else multiple (qx, qy) (eval scalar) 0 (scalar_base_mult scalar)
    /\ multiple (qx, qy) 0 (eval scalar) (scalar_mult x y scalar).
Proof.
  intros Hx Hy Hs. pose proof (input_comb x y qx qy Hx Hy) as HQ.
  destruct (scalar_base_mult_acc _ (kPrecomputed_comb (qx, qy)) scalar Hs) as (b1 & A1 & _).
  destruct (scalar_mult_acc _ x y HQ scalar Hs) as (b2 & A2 & _).
  destruct (Z.eqb_spec (eval scalar) 0) as [E|E].
  - by apply (scalar_mult_zero x y qx qy).
  - split; apply pcomb_multiple; [exact (acc_nonzero _ _ b1 _ A1 E)|exact (acc_nonzero _ _ b2 _ A2 E)].
Qed.

Lemma scalar_mult_correct_witness :
  multiple (1, 0) (eval base_x) 0 (scalar_base_mult base_x)
  /\ multiple (1, 0) 0 (eval base_x) (scalar_mult kOne kZero base_x).
Proof. exact (scalar_mult_correct kOne kZero base_x 1 0 one_repr zero_repr base_x_ok). Defined.
