(* ===== verification/P256Ec.v ===== *)
(** * Conversions and interface of libmincrypt/p256_ec.c

    to_montgomery, from_montgomery, p256_base_point_mul and
    p256_points_mul_vartime.  [None] stands for a failed assertion or an
    undefined shift in the functions of p256.c they call; the theorems exclude
    both. *)
From S2P Require Import Prelude Modular Digits P256 Primes Felem Curve P256Point P256Table P256Scalar.

(** 2^257 and 1 / 2^257 modulo p. *)
Definition kR : list Z := [2; 0; 0; 0xfffffffe; 0xffffffff; 0xffffffff; 0xfffffffd; 1].
Definition kRInv : list Z := [0x80000000; 1; 0xffffffff; 0; 0x80000001; 0xfffffffe; 1; 0x7fffffff].

(** The limbs at positions [NLIMBS - n] to [NLIMBS - 1]; [even]: the first of
    these positions is even. *)
Fixpoint to_limbs (even : bool) (n : nat) (in_shifted : list Z) : option (list Z) :=
  match n with
  | O => Some []
  | S n =>
      let limb := in_shifted !!! 0%nat .& kBottom even in
      in_shifted ← p256_shr in_shifted (width even);
      out ← to_limbs (negb even) n in_shifted;
      Some (limb :: out)
  end.

Definition to_montgomery (inp : list Z) : option (list Z) :=
  in_shifted ← p256_modmul SECP256r1_p inp 0 kR;
  to_limbs true NLIMBS in_shifted.

(** [for (; i >= 0; i--)], from [i = n - 1]. *)
Fixpoint from_limbs (inp : list Z) (n : nat) (result : list Z) (top : Z) : option (list Z * Z) :=
  match n with
  | O => Some (result, top)
  | S i =>
      '(top, tmp) ← p256_shl result (width (Nat.even i));
      let '(result, carry) := p256_add_d tmp (inp !!! i) in
      from_limbs inp i result (top .| carry)
  end.

Definition from_montgomery (inp : list Z) : option (list Z) :=
  let tmp := replicate P256_NDIGITS 0 in
  let '(result, _) := p256_add_d tmp (inp !!! (NLIMBS - 1)%nat) in
  '(result, top) ← from_limbs inp (NLIMBS - 1) result 0;
  p256_modmul SECP256r1_p kRInv (u32 top) result.

Definition p256_base_point_mul (n : list Z) : option (list Z * list Z) :=
  let '(x, y, z) := scalar_base_mult n in
  let '(x_affine, y_affine) := point_to_affine x y z in
  out_x ← from_montgomery x_affine;
  out_y ← from_montgomery y_affine;
  Some (out_x, out_y).

(** The point p256_points_mul_vartime converts in the end. *)
Definition points_sum (n1 n2 px py : list Z) : jpoint :=
  let '(x1, y1, z1) := scalar_base_mult n1 in
  let '(x2, y2, z2) := scalar_mult px py n2 in
  if p256_is_zero n2 then (x1, y1, z1)
  else if p256_is_zero n1 then (x2, y2, z2)
  else point_add_or_double_vartime x1 y1 z1 x2 y2 z2.

Definition p256_points_mul_vartime (n1 n2 in_x in_y : list Z) : option (list Z * list Z) :=
  if p256_is_zero n1 && p256_is_zero n2 then Some (P256_ZERO, P256_ZERO) else
  px ← to_montgomery in_x;
  py ← to_montgomery in_y;
  let '(x1, y1, z1) := points_sum n1 n2 px py in
  let '(px, py) := point_to_affine x1 y1 z1 in
  out_x ← from_montgomery px;
  out_y ← from_montgomery py;
  Some (out_x, out_y).

(** * Lemmas *)

Lemma kR_ok : p256_ok kR /\ eval kR =[p_value] fR.
Proof. split; [prove_ok|]. apply eqm_eq; [done|reflexivity]. Qed.

Lemma kRInv_ok : p256_ok kRInv /\ eval kRInv =[p_value] fRinv.
Proof. split; [prove_ok|]. apply eqm_eq; [done|reflexivity]. Qed.

Lemma low_limb s even : p256_ok s -> s !!! 0%nat .& kBottom even = eval s mod 2 ^ width even.
Proof.
  intros [Hw Hl]. rewrite kBottom_mod. destruct s as [|d s]; [done|]. cbn [lookup_total list_lookup_total le_eval].
  destruct even; cbn [width].
  - replace (d + 2 ^ 32 * eval s) with (d + (8 * eval s) * 2 ^ 29) by lia. by rewrite Z.mod_add.
  - replace (d + 2 ^ 32 * eval s) with (d + (16 * eval s) * 2 ^ 28) by lia. by rewrite Z.mod_add.
Qed.

(** The value, cut into limbs. *)
Lemma to_limbs_spec even n s :
  p256_ok s -> eval s < 2 ^ span even n ->
  exists l, to_limbs even n s = Some l /\ length l = n /\ limbs 0 even l /\ feval even l = eval s.
Proof.
  revert even s. induction n as [|n IH]; intros even s Hs Hv; cbn [to_limbs span] in *.
  - exists []. pose proof (p256_ok_bound s Hs). split_and!; [done..|cbn in *; lia].
  - destruct (shr_spec s (width even) Hs) as (s' & Es & Ev); [by destruct even|]. rewrite Es. cbn [mbind option_bind].
    pose proof (p256_ok_bound s Hs). pose proof (width_pos even). pose proof (span_nonneg (negb even) n).
    assert (0 < 2 ^ width even) by by apply Z.pow_pos_nonneg; lia.
    destruct (IH (negb even) s') as (l & -> & Hl & Hb & E).
    + by eapply shr_ok.
    + rewrite Ev. apply Z.div_lt_upper_bound; [done|]. rewrite <- Z.pow_add_r by lia. lia.
    + cbn [mbind option_bind]. eexists. split; [done|]. cbn [length limbs feval]. rewrite low_limb by done.
      rewrite E, Ev, Z.add_0_r. split_and!; [by rewrite Hl|by apply Z.mod_pos_bound..|done|].
      rewrite Z.add_comm. symmetry. apply Z.div_mod. lia.
Qed.

Lemma to_montgomery_spec inp :
  p256_ok inp -> exists l, to_montgomery inp = Some l /\ repr l (eval inp) /\ top_safe l.
Proof.
  intros Hi. unfold to_montgomery. destruct kR_ok as [HR ER].
  destruct (modmul_spec SECP256r1_p inp 0 kR SECP256r1_p_ok Hi HR) as (s & -> & Hs & Ev); [done|].
  cbn [mbind option_bind]. fold p_value in Ev. rewrite Z.mul_0_r, Z.add_0_r in Ev.
  destruct (to_limbs_spec true NLIMBS s Hs) as (l & -> & Hl & Hb & E).
  { pose proof (p256_ok_bound s Hs). change (span true NLIMBS) with 257. lia. }
  exists l. split; [done|]. split; [split|].
  - name_limbs l Hl. split_limbs Hb. split; [done|]. split; cbn [limbs negb width lookup_total list_lookup_total]; lia.
  - rewrite E, Ev, eqm_mod. by rewrite ER.
  - left. name_limbs l Hl. split_limbs Hb. cbn [lookup_total list_lookup_total]. lia.
Qed.

(** The limbs from position [i] on, as a number. *)
Lemma feval_drop l i :
  (i < length l)%nat ->
  feval (Nat.even i) (drop i l) = l !!! i + 2 ^ width (Nat.even i) * feval (Nat.even (S i)) (drop (S i) l).
Proof.
  intros Hi. rewrite (drop_S l (l !!! i)) by by apply list_lookup_lookup_total_lt.
  cbn [feval]. by rewrite Nat.even_succ, <- Nat.negb_even.
Qed.

Lemma tail_bound l i :
  fe_ok l -> (1 <= i <= 8)%nat -> 0 <= feval (Nat.even i) (drop i l) < 2 ^ 231.
Proof.
  intros (Hl & Ht & Hb) Hi. name_limbs l Hl. split_limbs Hb. cbn in Ht.
  do 9 (destruct i as [|i]; [cbn; lia|]). lia.
Qed.

Lemma fe_ok_limb l i : fe_ok l -> is_word 32 (l !!! i).
Proof. intros Hl. apply words_lookup_total; [done|]. by apply fe_ok_words. Qed.

(** Nothing is lost before the last limb, nor there when the number or the
    limb is small enough. *)
Lemma from_limbs_spec inp n result :
  fe_ok inp -> top_safe inp -> (1 <= n <= 8)%nat ->
  p256_ok result -> eval result = feval (Nat.even n) (drop n inp) ->
  exists result' top, from_limbs inp n result 0 = Some (result', top) /\ p256_ok result' /\ is_word 32 top
    /\ eval result' + 2 ^ 256 * top = fval inp.
Proof.
  intros Hf Ht. revert result. induction n as [|i IH]; intros result Hn Hr Ev; [lia|]. cbn [from_limbs].
  pose proof (tail_bound inp (S i) Hf Hn) as Bv. rewrite <- Ev in Bv.
  destruct (shl_spec result (width (Nat.even i)) Hr) as (top & tmp & Es & Et); [by destruct (Nat.even i)|].
  destruct (shl_ok _ _ _ _ Hr Es) as [Htop Htmp]. rewrite Es. cbn [mbind option_bind].
  destruct (add_d_spec tmp (inp !!! i) Htmp (fe_ok_limb inp i Hf)) as (r & -> & Hr' & Er).
  pose proof (p256_ok_bound _ Htmp). pose proof (fe_ok_limb inp i Hf) as Bi. unfold is_word in Bi, Htop.
  pose proof (feval_drop inp i) as Ed. destruct Hf as [Hl Hf']. rewrite Hl in Ed.
  specialize (Ed ltac:(unfold NLIMBS; lia)). rewrite <- Ev in Ed. pose proof (conj Hl Hf') as Hf.
  destruct (decide (i = 0)%nat) as [->|Hi].
  - change (drop 0 inp) with inp in Ed. cbn [Nat.even width] in *. cbn [from_limbs].
    eexists _, _. split; [done|]. split; [done|].
    assert (tmp_mul : eval tmp = 2 ^ 29 * (eval result - 2 ^ 227 * top)) by lia.
    destruct (Z.leb_spec (2 ^ 256) (eval tmp + inp !!! 0%nat)) as [Hc|Hc].
    + assert (top = 0) as -> by (destruct Ht as [Ht|Ht]; unfold fR in *; lia).
      change (0 .| 1) with 1. split; [done|]. rewrite Er, Ed. unfold fR in *.
      assert ((eval tmp + inp !!! 0%nat) mod 2 ^ 256 = eval tmp + inp !!! 0%nat - 2 ^ 256) as ->; [|lia].
      symmetry. apply Z.mod_unique with 1; lia.
    + rewrite Z.lor_0_r. split; [done|]. rewrite Er, Ed, Z.mod_small by lia. lia.
  - pose proof (tail_bound inp i Hf ltac:(lia)) as Bi'. rewrite Ed in Bi'.
    assert (top = 0) as -> by lia.
    assert (0 .| (if 2 ^ 256 <=? eval tmp + inp !!! i then 1 else 0) = 0) as ->.
    { destruct (Z.leb_spec (2 ^ 256) (eval tmp + inp !!! i)); [lia|done]. }
    apply IH; [lia|done|]. rewrite Er, Ed, Z.mod_small by lia. lia.
Qed.

Lemma from_montgomery_spec inp x :
  repr inp x -> top_safe inp ->
  exists out, from_montgomery inp = Some out /\ p256_ok out /\ eval out = x mod p_value.
Proof.
  intros [Hf Ex] Ht. unfold from_montgomery.
  destruct (add_d_spec (replicate P256_NDIGITS 0) (inp !!! (NLIMBS - 1)%nat) zeros_ok (fe_ok_limb _ _ Hf)) as (r & -> & Hr & Er).
  pose proof (fe_ok_limb inp 8 Hf) as B8. unfold is_word in B8. pose proof (feval_drop inp 8) as Ed.
  rewrite (proj1 Hf) in Ed. specialize (Ed ltac:(unfold NLIMBS; lia)).
  rewrite (drop_ge inp 9) in Ed by (rewrite (proj1 Hf); unfold NLIMBS; lia). cbn [feval] in Ed. rewrite Z.mul_0_r, Z.add_0_r in Ed.
  rewrite eval_zeros, Z.add_0_l, Z.mod_small in Er by (change (NLIMBS - 1)%nat with 8%nat; lia).
  destruct (from_limbs_spec inp 8 r Hf Ht ltac:(lia) Hr) as (r' & top & E & Hr' & Htop & Ev).
  { rewrite Er. symmetry. exact Ed. }
  change (NLIMBS - 1)%nat with 8%nat. rewrite E. cbn [mbind option_bind]. rewrite u32_small by done.
  destruct kRInv_ok as [HI EI].
  destruct (modmul_spec SECP256r1_p kRInv top r' SECP256r1_p_ok HI Hr' Htop) as (out & -> & Ho & Eo).
  exists out. split; [done|]. split; [done|]. rewrite Eo. fold p_value. apply eqm_eq; [done|].
  rewrite EI, Ev, Ex, Z.mul_comm, <- Z.mul_assoc, (Z.mul_comm fR), fRinv_spec. by rewrite Z.mul_1_r.
Qed.

(** ** Affine coordinates *)

Lemma point_to_affine_repr x y z J :
  reprs (x, y, z) J ->
  let '(xa, ya) := point_to_affine x y z in
  repr xa (jX J * (finv (jZ J) * finv (jZ J))) /\ top_safe xa
  /\ repr ya (jY J * (finv (jZ J) * (finv (jZ J) * finv (jZ J)))) /\ top_safe ya.
Proof.
  intros (Hx & Hy & Hz). unfold point_to_affine. cbv zeta. pose proof (inv_repr z _ Hz) as Hi.
  split; [|split; [|split]].
  - felem_value.
  - apply mul_top_safe; [apply Hx|]. exact (proj1 (square_repr _ _ Hi)).
  - felem_value.
  - apply mul_top_safe; [apply Hy|]. exact (proj1 (mul_repr _ _ _ _ Hi (square_repr _ _ Hi))).
Qed.

(** Both conversions at once. *)
Definition affine_output (P : jpoint) : option (list Z * list Z) :=
  let '(x, y, z) := P in
  let '(xa, ya) := point_to_affine x y z in
  out_x ← from_montgomery xa;
  out_y ← from_montgomery ya;
  Some (out_x, out_y).

Lemma affine_output_spec P J :
  reprs P J ->
  exists out_x out_y, affine_output P = Some (out_x, out_y) /\ p256_ok out_x /\ p256_ok out_y
    /\ eval out_x = (jX J * (finv (jZ J) * finv (jZ J))) mod p_value
    /\ eval out_y = (jY J * (finv (jZ J) * (finv (jZ J) * finv (jZ J)))) mod p_value.
Proof.
  destruct P as [[x y] z]. intros H. unfold affine_output. pose proof (point_to_affine_repr x y z J H) as Ha.
  destruct (point_to_affine x y z) as [xa ya]. destruct Ha as (Hx & Tx & Hy & Ty).
  destruct (from_montgomery_spec xa _ Hx Tx) as (ox & -> & Hox & Eox).
  destruct (from_montgomery_spec ya _ Hy Ty) as (oy & -> & Hoy & Eoy).
  exists ox, oy. split_and!; [reflexivity|assumption..].
Qed.

Lemma mod_p_zero v : v =[p_value] 0 -> v mod p_value = 0.
Proof. intros H. apply eqm_eq in H; [|done]. rewrite H. apply Z.mod_0_l. done. Qed.

Lemma finv_0 : finv 0 = 0.
Proof. unfold finv. apply Z.pow_0_l. reflexivity. Qed.

(** The affine coordinates point_to_affine computes from the inverse [i]. *)
Definition to_point (J : jac) (i : Z) : point := (jX J * (i * i), jY J * (i * (i * i))).

Lemma to_point_zero J i : i =[p_value] 0 -> point_eq (to_point J i) (0, 0).
Proof. intros E. split; cbn [to_point fst snd]; rewrite E; apply eqm_eq_refl; ring. Qed.

Lemma to_point_affine J q i : affine J q -> jZ J * i =[p_value] 1 -> point_eq (to_point J i) q.
Proof.
  destruct J as [X Y z]. intros (HZ & EX & EY) Ei. cbn [jX jY jZ] in *.
  split; cbn [to_point fst snd jX jY].
  - rewrite EX. transitivity (q.1 * (z * i) * (z * i)); [apply eqm_eq_refl; ring|].
    rewrite Ei. apply eqm_eq_refl. ring.
  - rewrite EY. transitivity (q.2 * (z * i) * (z * i) * (z * i)); [apply eqm_eq_refl; ring|].
    rewrite Ei. apply eqm_eq_refl. ring.
Qed.

(** The point at infinity becomes (0, 0), every other point its affine coordinates. *)
Lemma affine_output_comb G Q m k P :
  pcomb G Q m k P ->
  exists out_x out_y, affine_output P = Some (out_x, out_y) /\ p256_ok out_x /\ p256_ok out_y
    /\ eval out_x < p_value /\ eval out_y < p_value
    /\ if felem_is_zero_vartime (snd P) then eval out_x = 0 /\ eval out_y = 0
       else comb G Q m k (eval out_x, eval out_y).
Proof.
  intros (J & HJ & Hc). destruct (affine_output_spec P J HJ) as (ox & oy & E & Hox & Hoy & Ex & Ey).
  exists ox, oy. assert (0 < p_value) as Hp by reflexivity.
  assert (Bx : eval ox < p_value) by (rewrite Ex; by apply Z.mod_pos_bound).
  assert (By : eval oy < p_value) by (rewrite Ey; by apply Z.mod_pos_bound).
  split_and!; [assumption..|].
  assert (Hz : repr (snd P) (jZ J)) by (destruct P as [[x y] z]; apply HJ).
  destruct (felem_is_zero_vartime (snd P)) eqn:Ez.
  - apply (is_zero_repr _ _ Hz) in Ez. destruct (to_point_zero J (finv (jZ J))) as [H1 H2].
    { rewrite Ez, finv_0. reflexivity. }
    rewrite Ex, Ey. split; apply mod_p_zero; [exact H1|exact H2].
  - assert (HZ : ~ jZ J =[p_value] 0) by (intros E0; apply (is_zero_repr _ _ Hz) in E0; congruence).
    pose proof (finv_spec _ HZ) as HZ'.
    destruct (Hc HZ) as (q & Hq & Hcq). apply (to_point_affine J q _ Hq) in HZ'. rewrite <- HZ' in Hcq.
    refine (proj1 (comb_proper G Q m k _ _ _) Hcq).
    split; cbn [fst snd to_point]; [rewrite Ex|rewrite Ey]; rewrite eqm_mod; reflexivity.
Qed.

(** What the two loops leave, for [m G] and [k Q]. *)
Lemma base_mult_comb Q n : p256_ok n -> eval n <> 0 -> pcomb G Q (eval n) 0 (scalar_base_mult n).
Proof. intros Hn Hne. destruct (scalar_base_mult_acc _ (kPrecomputed_comb Q) n Hn) as (b & A & _). exact (acc_nonzero _ _ b _ A Hne). Qed.

Lemma mult_comb Q x y n :
  pcomb G Q 0 1 (x, y, kOne) -> p256_ok n -> eval n <> 0 -> pcomb G Q 0 (eval n) (scalar_mult x y n).
Proof. intros HQ Hn Hne. destruct (scalar_mult_acc _ x y HQ n Hn) as (b & A & _). exact (acc_nonzero _ _ b _ A Hne). Qed.

(** The two coordinates the vartime addition cannot handle: a scalar that is
    not 0 whose loop met equal abscissas and left [z = 0]. *)
Definition degenerate (n1 n2 px py : list Z) : bool :=
  negb (p256_is_zero n1) && negb (p256_is_zero n2)
  && (felem_is_zero_vartime (snd (scalar_base_mult n1)) || felem_is_zero_vartime (snd (scalar_mult px py n2))).

Lemma points_sum_comb Q n1 n2 px py :
  p256_ok n1 -> p256_ok n2 -> pcomb G Q 0 1 (px, py, kOne) ->
  p256_is_zero n1 && p256_is_zero n2 = false -> degenerate n1 n2 px py = false ->
  pcomb G Q (eval n1) (eval n2) (points_sum n1 n2 px py).
Proof.
  intros H1 H2 HQ Hz Hd. pose proof (p256_ok_bound _ H1). pose proof (p256_ok_bound _ H2).
  pose proof (base_mult_comb Q n1 H1) as A1. pose proof (mult_comb Q px py n2 HQ H2) as A2.
  unfold points_sum, degenerate in *. rewrite !is_zero_spec in * by done.
  destruct (scalar_base_mult n1) as [[x1 y1] z1], (scalar_mult px py n2) as [[x2 y2] z2].
  destruct (Z.eqb_spec (eval n2) 0) as [E2|E2], (Z.eqb_spec (eval n1) 0) as [E1|E1]; cbn [andb negb snd] in *.
  - discriminate Hz.
  - rewrite E2. by apply A1.
  - rewrite E1. by apply A2.
  - apply orb_false_iff in Hd as [Z1 Z2]. specialize (A1 E1). specialize (A2 E2).
    refine (pcomb_eq _ _ _ _ _ _ _ (point_add_or_double_comb G Q _ _ _ _ _ _ _ _ _ _ A1 A2 Z1 Z2) _ _); lia.
Qed.

Lemma points_sum_ok n1 n2 px py :
  p256_ok n1 -> p256_ok n2 -> fe_ok px -> fe_ok py -> pt_ok (points_sum n1 n2 px py).
Proof.
  intros H1 H2 Hx Hy.
  pose proof (input_comb px py _ _ (repr_of_value px Hx) (repr_of_value py Hy)) as HQ.
  destruct (scalar_base_mult_acc _ (kPrecomputed_comb (0, 0)) n1 H1) as (b1 & [A1 _] & _).
  destruct (scalar_mult_acc _ px py HQ n2 H2) as (b2 & [A2 _] & _). unfold points_sum.
  destruct (scalar_base_mult n1) as [[x1 y1] z1], (scalar_mult px py n2) as [[x2 y2] z2].
  destruct (p256_is_zero n2); [exact A1|]. destruct (p256_is_zero n1); [exact A2|].
  apply pt_reprs in A1 as [J1 A1], A2 as [J2 A2].
  destruct (point_add_or_double_reprs _ _ _ _ _ _ _ _ A1 A2) as [(_ & _ & H)|[_ H]]; by apply reprs_ok in H.
Qed.

(** What p256_points_mul_vartime returns for two scalars, one not 0. *)
Lemma points_mul_output n1 n2 x y :
  p256_is_zero n1 && p256_is_zero n2 = false ->
  p256_points_mul_vartime n1 n2 x y
  = px ← to_montgomery x; py ← to_montgomery y; affine_output (points_sum n1 n2 px py).
Proof.
  intros Hz. unfold p256_points_mul_vartime, affine_output. rewrite Hz.
  destruct (to_montgomery x) as [px|]; [|reflexivity]. cbn [mbind option_bind].
  destruct (to_montgomery y) as [py|]; [|reflexivity]. cbn [mbind option_bind].
  destruct (points_sum n1 n2 px py) as [[x1 y1] z1]. destruct (point_to_affine x1 y1 z1). reflexivity.
Qed.

(** The coordinates written for the point [P]: those of [m G + k Q], or zeros
    for the point at infinity. *)
Definition written (Q : point) (m k : Z) (P : jpoint) (out_x out_y : list Z) : Prop :=
  if felem_is_zero_vartime (snd P) then eval out_x = 0 /\ eval out_y = 0
  else comb G Q m k (eval out_x, eval out_y).

Definition reduced (a : list Z) : Prop := p256_ok a /\ eval a < p_value.

Lemma points_mul_spec n1 n2 x y :
  p256_ok n1 -> p256_ok n2 -> p256_ok x -> p256_ok y ->
  exists px py out_x out_y,
    to_montgomery x = Some px /\ to_montgomery y = Some py
    /\ p256_points_mul_vartime n1 n2 x y = Some (out_x, out_y) /\ reduced out_x /\ reduced out_y
    /\ (eval n1 = 0 /\ eval n2 = 0 -> out_x = P256_ZERO /\ out_y = P256_ZERO)
    /\ (~ (eval n1 = 0 /\ eval n2 = 0) -> degenerate n1 n2 px py = false ->
       written (eval x, eval y) (eval n1) (eval n2) (points_sum n1 n2 px py) out_x out_y).
Proof.
  intros H1 H2 Hx Hy.
  destruct (to_montgomery_spec x Hx) as (px & Epx & Hpx & _), (to_montgomery_spec y Hy) as (py & Epy & Hpy & _).
  exists px, py. assert (p256_is_zero n1 && p256_is_zero n2 = true <-> eval n1 = 0 /\ eval n2 = 0) as Hz.
  { rewrite !is_zero_spec, andb_true_iff, !Z.eqb_eq by assumption. reflexivity. }
  destruct (p256_is_zero n1 && p256_is_zero n2) eqn:Ez.
  - exists P256_ZERO, P256_ZERO. unfold p256_points_mul_vartime. rewrite Ez.
    assert (reduced P256_ZERO) as H0 by (split; [prove_ok|reflexivity]).
    split_and!; [assumption|assumption|reflexivity|exact H0|exact H0|split; reflexivity|].
    intros Hn. destruct Hn. by apply Hz.
  - rewrite points_mul_output, Epx, Epy by exact Ez. cbn [mbind option_bind].
    pose proof (input_comb px py _ _ Hpx Hpy) as HQ.
    destruct (degenerate n1 n2 px py) eqn:Ed.
    + pose proof (points_sum_ok n1 n2 px py H1 H2 (proj1 Hpx) (proj1 Hpy)) as Hok.
      destruct (points_sum n1 n2 px py) as [[x1 y1] z1]. apply pt_reprs in Hok as [J HJ].
      destruct (affine_output_spec _ J HJ) as (ox & oy & E & Hox & Hoy & Ex & Ey). exists ox, oy.
      assert (eval ox < p_value /\ eval oy < p_value) as [Bx By]
        by (rewrite Ex, Ey; split; by apply Z.mod_pos_bound).
      split_and!; [reflexivity|reflexivity|exact E|by split|by split|intros Hn; apply Hz in Hn; discriminate|discriminate].
    + pose proof (points_sum_comb _ n1 n2 px py H1 H2 HQ Ez Ed) as Hc.
      destruct (affine_output_comb G _ _ _ _ Hc) as (ox & oy & E & Hox & Hoy & Bx & By & Hw). exists ox, oy.
      split_and!; [reflexivity|reflexivity|exact E|by split|by split|intros Hn; apply Hz in Hn; discriminate|intros _ _; exact Hw].
Qed.

(** * Theorems *)

(** Conversion to Montgomery form and back: to_montgomery gives a field
    element that stands for its argument, and from_montgomery returns the
    argument reduced modulo p; neither fails an assertion. *)
Theorem montgomery_roundtrip a :
  p256_ok a ->
  exists l b, to_montgomery a = Some l /\ repr l (eval a)
    /\ from_montgomery l = Some b /\ p256_ok b /\ eval b = eval a mod p_value.
Proof.
  intros Ha. destruct (to_montgomery_spec a Ha) as (l & El & Hl & Ht).
  destruct (from_montgomery_spec l _ Hl Ht) as (b & Eb & Hb & Ev). exists l, b.
  split_and!; assumption.
Qed.

Lemma montgomery_roundtrip_witness :
  exists l b, to_montgomery base_x = Some l /\ repr l (eval base_x)
    /\ from_montgomery l = Some b /\ p256_ok b /\ eval b = eval base_x mod p_value.
Proof. exact (montgomery_roundtrip base_x base_x_ok). Defined.

(** [top |= p256_add_d(...)] loses a carry when the shift has produced one,
    too: limbs within the stated bounds that stand for 1, read as 1/2 modulo
    p.  [top_safe] excludes it, and holds of every product. *)
Definition carry_limbs : list Z :=
  2 ^ 29 :: map (fun i => if Nat.even i then 2 ^ 29 - 1 else 2 ^ 28 - 1) (seq 1 8).

Example from_montgomery_loses_carry :
  repr carry_limbs 1 /\ exists out, from_montgomery carry_limbs = Some out /\ eval out = (p_value + 1) / 2.
Proof.
  split.
  - split; [|apply eqm_eq; [discriminate|vm_compute; reflexivity]].
    split; [reflexivity|]. split; [reflexivity|]. cbn. lia.
  - eexists. split; [vm_compute; reflexivity|]. vm_compute. reflexivity.
Qed.

(** The combined multiplication of the signature check: for scalars and
    coordinates of 256 bits, p256_points_mul_vartime returns, without a failed
    assertion, two numbers below p: zeros for two scalars 0, and otherwise the
    affine coordinates of [n1 G + n2 (x, y)], or zeros for the point at
    infinity, unless the loop of one of the scalars has left [z = 0]. *)
Theorem p256_points_mul_vartime_correct n1 n2 x y :
  p256_ok n1 -> p256_ok n2 -> p256_ok x -> p256_ok y ->
  exists px py out_x out_y,
    to_montgomery x = Some px /\ to_montgomery y = Some py
    /\ p256_points_mul_vartime n1 n2 x y = Some (out_x, out_y) /\ reduced out_x /\ reduced out_y
    /\ (eval n1 = 0 /\ eval n2 = 0 -> out_x = P256_ZERO /\ out_y = P256_ZERO)
    /\ (~ (eval n1 = 0 /\ eval n2 = 0) -> degenerate n1 n2 px py = false ->
       written (eval x, eval y) (eval n1) (eval n2) (points_sum n1 n2 px py) out_x out_y).
Proof. exact (points_mul_spec n1 n2 x y). Qed.

Lemma p256_points_mul_vartime_correct_witness :
  exists px py out_x out_y,
    to_montgomery base_x = Some px /\ to_montgomery base_y = Some py
    /\ p256_points_mul_vartime P256_ONE P256_ZERO base_x base_y = Some (out_x, out_y)
    /\ written (eval base_x, eval base_y) 1 0 (points_sum P256_ONE P256_ZERO px py) out_x out_y.
Proof.
  assert (p256_ok P256_ONE) as H1 by prove_ok. assert (p256_ok P256_ZERO) as H0 by prove_ok.
  destruct (p256_points_mul_vartime_correct P256_ONE P256_ZERO base_x base_y H1 H0 base_x_ok base_y_ok)
    as (px & py & ox & oy & Epx & Epy & E & _ & _ & _ & Hw).
  exists px, py, ox, oy. split_and!; [exact Epx|exact Epy|exact E|]. apply Hw.
  - intros [H _]. discriminate H.
  - reflexivity.
Defined.

(** The public base point multiplication: for a scalar of 256 bits it
    returns two numbers below p, zeros for the scalar 0 and otherwise what
    scalar_base_mult has left, in affine coordinates. *)
Theorem p256_base_point_mul_correct Q n :
  p256_ok n ->
  exists out_x out_y, p256_base_point_mul n = Some (out_x, out_y) /\ reduced out_x /\ reduced out_y
    /\ if eval n =? 0 then out_x = P256_ZERO /\ out_y = P256_ZERO
       else written Q (eval n) 0 (scalar_base_mult n) out_x out_y.
Proof.
  intros Hn. assert (p256_base_point_mul n = affine_output (scalar_base_mult n)) as ->.
  { unfold p256_base_point_mul, affine_output. destruct (scalar_base_mult n) as [[x y] z].
    destruct (point_to_affine x y z). reflexivity. }
  destruct (scalar_base_mult_acc _ (kPrecomputed_comb Q) n Hn) as (b & A & I). destruct (Z.eqb_spec (eval n) 0) as [E|E].
  - assert (b = true) as Hb. { destruct b; [reflexivity|]. destruct A as [_ [H _]]. lia. }
    rewrite (I Hb). destruct (affine_output_spec (felem_zero, felem_zero, kOne) (Jac 0 0 1)
      (conj zero_repr (conj zero_repr one_repr))) as (ox & oy & Eo & Hox & Hoy & Ex & Ey).
    cbn [jX jY jZ] in Ex, Ey. rewrite Z.mul_0_l, Z.mod_0_l in Ex, Ey by discriminate.
    exists ox, oy. assert (p256_ok P256_ZERO) as H0 by prove_ok.
    split; [exact Eo|]. unfold reduced. rewrite Ex, Ey. split_and!; [assumption|reflexivity|assumption|reflexivity|..].
    + by apply p256_ok_inj.
    + by apply p256_ok_inj.
  - pose proof (base_mult_comb Q n Hn E) as Hc.
    destruct (affine_output_comb G Q _ _ _ Hc) as (ox & oy & Eo & Hox & Hoy & Bx & By & Hw). exists ox, oy.
    split_and!; [exact Eo|by split|by split|exact Hw].
Qed.

Lemma p256_base_point_mul_correct_witness :
  exists out_x out_y, p256_base_point_mul P256_ZERO = Some (out_x, out_y) /\ reduced out_x /\ reduced out_y
    /\ out_x = P256_ZERO /\ out_y = P256_ZERO.
Proof. exact (p256_base_point_mul_correct G P256_ZERO ltac:(prove_ok)). Defined.
