(* ===== verification/P256Mul.v ===== *)
(** * The scalar multiplications in the group of the curve

    For scalars below the order n no addition in the loops of
    libmincrypt/p256_ec.c meets a case its formulas do not cover: the results
    are the multiples of Group, for every point of the curve. *)
From S2P Require Import Prelude Modular Digits P256 Primes Felem Curve P256Point P256Table P256Scalar P256Ec Abelian Group P256Group Cofactor.
From Stdlib Require Import Znumtheory.

#[local] Abbreviation p := p_value.
#[local] Abbreviation n := n_value.

(** The affine coordinates of a point, zeros for infinity. *)
Definition affine_of (P : gpoint) : point := default (0, 0) (coords P).

(** [P] stands for [m B], if [m] is neither 0 nor too large. *)
Definition exactly (B : gpoint) (m : Z) (P : jpoint) : Prop :=
  pt_ok P /\ (0 < m < n -> exists A, is_coords (mul m B) A /\ pt_affine P A).

(** * Lemmas *)

Lemma is_coords_opposite P Q A B : is_coords P A -> is_coords Q B -> opposite A B -> gadd P Q = gzero.
Proof.
  intros (A' & EA & HA1 & HA2) (B' & EB & HB1 & HB2) [X Y]. apply gpoint_eq. cbn [coords gadd gzero]. rewrite EA, EB.
  pose proof (gpoint_valid P) as V. pose proof (gpoint_valid Q) as V'. rewrite EA in V. rewrite EB in V'.
  destruct (add_cases A' B') as [[_ E]|[Ho _]]; [apply V|apply V'|apply V|apply V'|exact E|].
  destruct Ho. split; [by rewrite <- HA1, <- HB1|by rewrite <- HA2, <- HB2].
Qed.

Lemma is_coords_same P Q A B : is_coords P A -> is_coords Q B -> A.1 =[p] B.1 -> P = Q \/ gadd P Q = gzero.
Proof.
  intros HA HB X. destruct (same_abscissa A B) as [Y|Y]; [by apply is_coords_valid in HA|by apply is_coords_valid in HB|exact X|left|right].
  - apply (is_coords_inj _ _ B); [|exact HB]. apply is_coords_eq with A; [exact HA|by split].
  - apply (is_coords_opposite P Q A B); [done..|by split].
Qed.

Lemma is_coords_nonzero P A : is_coords P A -> P <> gzero.
Proof. intros (B & E & _) ->. discriminate E. Qed.

Lemma multiple_nonzero B m : B <> gzero -> 0 < m < n -> mul m B <> gzero.
Proof. intros HB Hm E. apply (gmul_zero_iff n prime_n B m (order_n B) HB) in E as [k Ek]. pose proof n_pos. assert (k <= 0 \/ 1 <= k) as [|] by lia; nia. Qed.

Lemma multiples_differ B m m' : B <> gzero -> 0 < m < n -> 0 < m' < n -> m <> m' -> mul m B <> mul m' B.
Proof. intros HB Hm Hm' Hne E. apply (gmul_eq_iff n prime_n B m m' (order_n B) HB) in E as [k Ek]. assert (k = 0) as -> by nia. lia. Qed.

Lemma jdouble_exact P J A :
  is_coords P A -> affine J A -> gadd P P <> gzero -> exists R, is_coords (gadd P P) R /\ affine (jdouble J) R.
Proof.
  intros HA HJ Hne. assert (~ jZ (jdouble J) =[p] 0) as HZ.
  { intros E. apply (jdouble_infinity J A HJ) in E. apply Hne. apply (is_coords_opposite P P A A); [done..|].
    split; [done|]. rewrite E. done. }
  destruct (double_affine J A HJ HZ) as (R & HR & T). exists R. split; [|exact HR].
  apply (psum_gadd P P A A); [done..|]. right. by split.
Qed.

Lemma jadd_exact P Q J1 J2 A B :
  is_coords P A -> is_coords Q B -> affine J1 A -> affine J2 B -> P <> Q -> gadd P Q <> gzero ->
  exists R, is_coords (gadd P Q) R /\ affine (jadd J1 J2) R.
Proof.
  intros HA HB H1 H2 Hne Hn0. assert (~ jZ (jadd J1 J2) =[p] 0) as HZ.
  { intros E. apply (jadd_infinity J1 J2 A B H1 H2) in E. by destruct (is_coords_same P Q A B HA HB E). }
  destruct (add_affine J1 J2 A B H1 H2 HZ) as (R & HR & T). exists R. split; [|exact HR].
  apply (psum_gadd P Q A B); [done..|]. by left.
Qed.

#[export] Instance multiples_exactly (B : gpoint) (HB : B <> gzero) : Multiples (exactly B).
Proof.
  split.
  - by intros m P [H _].
  - intros m x y z Hm [Hok H]. split; [exact (double_pt_ok (x, y, z) Hok)|]. intros H2.
    destruct (H ltac:(lia)) as (A & HA & J & HJ & HJA).
    replace (2 * m) with (m + m) in * by lia. rewrite gmul_add.
    destruct (jdouble_exact _ J A HA HJA) as (R & HR & HR'); [rewrite <- gmul_add; by apply multiple_nonzero|].
    exists R. split; [exact HR|]. exists (jdouble J). split; [by apply point_double_reprs|exact HR'].
  - intros m m' x1 y1 z1 x2 y2 z2 Hm Hm' Hne [Hok H] [Hok' H']. split; [by apply point_add_ok|]. intros Hs.
    destruct (H ltac:(lia)) as (A & HA & J & HJ & HJA), (H' ltac:(lia)) as (A' & HA' & J' & HJ' & HJA'). rewrite gmul_add.
    destruct (jadd_exact _ _ J J' A A' HA HA' HJA HJA') as (R & HR & HR');
      [apply multiples_differ; (done || lia)|rewrite <- gmul_add; by apply multiple_nonzero|].
    exists R. split; [exact HR|]. exists (jadd J J'). split; [by apply point_add_reprs|exact HR'].
  - intros m m' x1 y1 z1 x2 y2 Hm Hm' Hne [Hok H] [Hok' H']. split; [apply point_add_mixed_ok; [done|apply Hok'..]|]. intros Hs.
    destruct (H ltac:(lia)) as (A & HA & J & HJ & HJA), (H' ltac:(lia)) as (A' & HA' & J' & HJ' & HJA'). rewrite gmul_add.
    pose proof HJ' as (Hx & Hy & Hz).
    assert (affine (Jac (jX J') (jY J') 1) A') as HJA1.
    { apply affine_eq with J'; [|exact HJA']. split_and!; [reflexivity..|]. exact (repr_eqm _ _ _ Hz one_repr). }
    destruct (jadd_exact _ _ J _ A A' HA HA' HJA HJA1) as (R & HR & HR');
      [apply multiples_differ; (done || lia)|rewrite <- gmul_add; by apply multiple_nonzero|].
    exists R. split; [exact HR|]. exists (jadd J (Jac (jX J') (jY J') 1)). split; [by apply point_add_mixed_reprs|exact HR'].
Qed.

(** The entries of the table, and the input. *)
Lemma entries_exactly t i :
  (t < 2)%nat -> (1 <= i < 16)%nat ->
  exactly g (kselect (bits4 i) (ks t)) (entry (table_of t) (2 * i - 2), entry (table_of t) (2 * i - 1), kOne).
Proof.
  intros Ht Hi. pose proof (kPrecomputed_comb G t i Ht Hi) as Hc. split; [by apply pcomb_ok in Hc|]. intros _.
  destruct (pcomb_affine G _ _ _ Hc) as (q & Hq & C); [reflexivity|]. exists q. split; [|exact Hq].
  apply (comb_group g g G G) in C; [|exact g_coords..]. by rewrite gmul_0, op_e_r in C.
Qed.

Lemma input_exactly K px py ix iy :
  repr px ix -> repr py iy -> is_coords K (ix, iy) -> exactly K 1 (px, py, kOne).
Proof.
  intros Hx Hy HK. split; [split_and!; [apply Hx|apply Hy|exact (proj1 one_repr)]|]. intros _. exists (ix, iy).
  split; [by rewrite gmul_1|by apply pt_affine_one].
Qed.

Lemma base_mult_exactly s : p256_ok s -> eval s <> 0 -> exactly g (eval s) (scalar_base_mult s).
Proof.
  intros Hs Hne. destruct (@scalar_base_mult_acc _ (multiples_exactly g g_nonzero) entries_exactly s Hs) as (b & A & _).
  exact (acc_nonzero _ _ b _ A Hne).
Qed.

Lemma mult_exactly K px py ix iy s :
  repr px ix -> repr py iy -> is_coords K (ix, iy) -> p256_ok s -> eval s <> 0 -> exactly K (eval s) (scalar_mult px py s).
Proof.
  intros Hx Hy HK Hs Hne. pose proof (input_exactly K px py ix iy Hx Hy HK) as HQ.
  destruct (@scalar_mult_acc _ (multiples_exactly K (is_coords_nonzero _ _ HK)) px py HQ s Hs) as (b & A & _).
  exact (acc_nonzero _ _ b _ A Hne).
Qed.

(** ** The sum *)

(** [P] are Jacobian coordinates of [X], with [z = 0] for infinity. *)
Definition stands (X : gpoint) (P : jpoint) : Prop :=
  pt_ok P /\ if decide (X = gzero) then felem_is_zero_vartime (snd P) = true else exists A, is_coords X A /\ pt_affine P A.

Lemma exactly_stands B m P : B <> gzero -> exactly B m P -> 0 < m < n -> stands (mul m B) P.
Proof.
  intros HB [Hok H] Hm. split; [exact Hok|]. rewrite decide_False by by apply multiple_nonzero. by apply H.
Qed.

Lemma sum_infinity X Y A B : is_coords X A -> is_coords Y B -> gadd X Y = gzero -> A.1 =[p] B.1.
Proof.
  intros (A' & EA & HA) (B' & EB & HB) E. apply (f_equal coords) in E. cbn [coords gadd gzero] in E. rewrite EA, EB in E.
  pose proof (gpoint_valid X) as V. pose proof (gpoint_valid Y) as V'. rewrite EA in V. rewrite EB in V'.
  destruct (add_cases A' B') as [[[H _] _]|[_ (R & E' & _)]]; [apply V|apply V'|apply V|apply V'| |congruence].
  destruct HA as [-> _], HB as [-> _]. exact H.
Qed.

Lemma repr_zero_iff x v : repr x v -> felem_is_zero_vartime x = true <-> v =[p] 0.
Proof. exact (is_zero_repr x v). Qed.

Lemma add_or_double_stands X Y x1 y1 z1 x2 y2 z2 A B :
  is_coords X A -> is_coords Y B -> pt_affine (x1, y1, z1) A -> pt_affine (x2, y2, z2) B ->
  stands (gadd X Y) (point_add_or_double_vartime x1 y1 z1 x2 y2 z2).
Proof.
  intros HA HB (J1 & R1 & A1) (J2 & R2 & A2).
  destruct (point_add_or_double_reprs _ _ _ _ _ _ _ _ R1 R2) as [(EH & ES & HR)|[Hne HR]];
    (split; [by apply reprs_ok in HR|]).
  - pose proof (same_affine J1 J2 A B A1 A2 EH ES) as EAB.
    assert (X = Y) as <- by (apply (is_coords_inj _ _ B); [by apply is_coords_eq with A|done]).
    assert (gadd X X <> gzero) as Hn0 by (intros E; exact (is_coords_nonzero _ _ HA (no_order_two _ E))).
    rewrite decide_False by done. destruct (jdouble_exact X J1 A HA A1 Hn0) as (R & H1 & H2). exists R. split; [exact H1|].
    exists (jdouble J1). split; assumption.
  - destruct (decide (gadd X Y = gzero)) as [E|E].
    + apply (sum_infinity X Y A B HA HB), (jadd_infinity J1 J2 A B A1 A2) in E.
      destruct (point_add_or_double_vartime _ _ _ _ _ _) as [[x y] z]. destruct HR as (_ & _ & Hz). apply (is_zero_repr _ _ Hz). exact E.
    + assert (X <> Y) as HXY.
      { intros <-. apply Hne. apply (affine_same J1 J2 A B A1 A2). destruct HA as (A' & EA & HA), HB as (B' & EB & HB).
        rewrite EA in EB. injection EB as <-. rewrite HA, HB. reflexivity. }
      destruct (jadd_exact X Y J1 J2 A B HA HB A1 A2 HXY E) as (R & H1 & H2). exists R. split; [exact H1|]. exists (jadd J1 J2). split; assumption.
Qed.

Lemma eqm_of_mod m x y : x = y mod m -> x =[m] y.
Proof. intros ->. apply eqm_mod. Qed.

(** The conversion to affine coordinates. *)
Lemma affine_output_stands X P :
  stands X P ->
  exists ox oy, affine_output P = Some (ox, oy) /\ reduced ox /\ reduced oy /\ (eval ox, eval oy) = affine_of X.
Proof.
  intros [Hok H]. destruct (decide (X = gzero)) as [->|Hne].
  - destruct P as [[x y] z]. destruct (pt_reprs x y z Hok) as [J HJ].
    destruct (affine_output_spec _ J HJ) as (ox & oy & E & Hox & Hoy & Ex & Ey). exists ox, oy. split; [exact E|].
    assert (jZ J =[p] 0) as Ez by (destruct HJ as (_ & _ & Hz); apply (is_zero_repr _ _ Hz); exact H).
    assert (finv (jZ J) =[p] 0) as Ei by (rewrite Ez, finv_0; reflexivity).
    destruct (to_point_zero J _ Ei) as [X0 Y0]. cbn [to_point fst snd] in X0, Y0.
    rewrite (mod_p_zero _ X0) in Ex. rewrite (mod_p_zero _ Y0) in Ey.
    unfold reduced. rewrite Ex, Ey. split; [split; [exact Hox|reflexivity]|]. split; [split; [exact Hoy|reflexivity]|reflexivity].
  - destruct H as (A & (B & EB & EAB) & J & HJ & HA).
    destruct (affine_output_spec _ J HJ) as (ox & oy & E & Hox & Hoy & Ex & Ey). exists ox, oy. split; [exact E|].
    pose proof HA as (HZ & _). apply finv_spec in HZ. apply (to_point_affine J A _ HA) in HZ. destruct HZ as [X1 Y1].
    cbn [to_point fst snd] in X1, Y1.
    pose proof (Z.mod_pos_bound (jX J * (finv (jZ J) * finv (jZ J))) p p_pos) as BX.
    pose proof (Z.mod_pos_bound (jY J * (finv (jZ J) * (finv (jZ J) * finv (jZ J)))) p p_pos) as BY.
    rewrite <- Ex in BX. rewrite <- Ey in BY. split; [by split; [|apply BX]|]. split; [by split; [|apply BY]|].
    unfold affine_of. rewrite EB. cbn [default from_option]. apply canonical_eq.
    + by split.
    + pose proof (gpoint_valid X) as V. rewrite EB in V. apply V.
    + rewrite <- EAB. split; cbn [fst snd]; [exact (transitivity (eqm_of_mod _ _ _ Ex) X1)|exact (transitivity (eqm_of_mod _ _ _ Ey) Y1)].
Qed.

(** The point p256_points_mul_vartime converts. *)
Lemma points_sum_stands K n1 n2 px py ix iy :
  repr px ix -> repr py iy -> is_coords K (ix, iy) -> p256_ok n1 -> p256_ok n2 -> eval n1 < n -> eval n2 < n ->
  p256_is_zero n1 && p256_is_zero n2 = false ->
  stands (gadd (mul (eval n1) g) (mul (eval n2) K)) (points_sum n1 n2 px py).
Proof.
  intros Hx Hy HK H1 H2 L1 L2 Hz. pose proof (p256_ok_bound n1 H1) as B1. pose proof (p256_ok_bound n2 H2) as B2.
  pose proof (base_mult_exactly n1 H1) as E1. pose proof (mult_exactly K px py ix iy n2 Hx Hy HK H2) as E2.
  unfold points_sum. rewrite !is_zero_spec in * by done. pose proof (is_coords_nonzero _ _ HK) as NK.
  destruct (scalar_base_mult n1) as [[x1 y1] z1], (scalar_mult px py n2) as [[x2 y2] z2].
  destruct (Z.eqb_spec (eval n2) 0) as [Z2|Z2], (Z.eqb_spec (eval n1) 0) as [Z1|Z1]; cbn [andb] in Hz.
  - discriminate Hz.
  - rewrite Z2, gmul_0, op_e_r. apply exactly_stands; [exact g_nonzero|by apply E1|lia].
  - rewrite Z1, gmul_0, op_e_l. apply exactly_stands; [exact NK|by apply E2|lia].
  - destruct (proj2 (E1 Z1)) as (A & HA & PA); [lia|]. destruct (proj2 (E2 Z2)) as (B & HB & PB); [lia|].
    by apply add_or_double_stands with A B.
Qed.

Lemma points_mul_exact K n1 n2 x y :
  p256_ok n1 -> p256_ok n2 -> p256_ok x -> p256_ok y -> is_coords K (eval x, eval y) -> eval n1 < n -> eval n2 < n ->
  exists ox oy, p256_points_mul_vartime n1 n2 x y = Some (ox, oy) /\ reduced ox /\ reduced oy
    /\ (eval ox, eval oy) = affine_of (gadd (mul (eval n1) g) (mul (eval n2) K)).
Proof.
  intros H1 H2 Hx Hy HK L1 L2.
  destruct (p256_is_zero n1 && p256_is_zero n2) eqn:Ez.
  - exists P256_ZERO, P256_ZERO. unfold p256_points_mul_vartime. rewrite Ez. split; [reflexivity|].
    assert (reduced P256_ZERO) as H0 by (split; [prove_ok|reflexivity]). split; [exact H0|]. split; [exact H0|].
    rewrite !is_zero_spec, andb_true_iff, !Z.eqb_eq in Ez by assumption. destruct Ez as [-> ->]. by rewrite !gmul_0, op_e_l.
  - rewrite points_mul_output by exact Ez.
    destruct (to_montgomery_spec x Hx) as (px & -> & Hpx & _), (to_montgomery_spec y Hy) as (py & -> & Hpy & _). cbn [mbind option_bind].
    apply affine_output_stands. by apply (points_sum_stands K n1 n2 px py (eval x) (eval y)).
Qed.

Lemma base_mul_exact s :
  p256_ok s -> eval s < n ->
  exists ox oy, p256_base_point_mul s = Some (ox, oy) /\ reduced ox /\ reduced oy /\ (eval ox, eval oy) = affine_of (mul (eval s) g).
Proof.
  intros Hs L. pose proof (p256_ok_bound s Hs) as B.
  assert (p256_base_point_mul s = affine_output (scalar_base_mult s)) as ->.
  { unfold p256_base_point_mul, affine_output. destruct (scalar_base_mult s) as [[x y] z].
    destruct (point_to_affine x y z). reflexivity. }
  destruct (Z.eq_dec (eval s) 0) as [E|E].
  - destruct (@scalar_base_mult_acc _ (multiples_exactly g g_nonzero) entries_exactly s Hs) as (b & A & I).
    assert (b = true) as Hb. { destruct b; [reflexivity|]. destruct A as [_ [H _]]. lia. }
    rewrite (I Hb). rewrite E, gmul_0.
    destruct (affine_output_spec (felem_zero, felem_zero, kOne) (Jac 0 0 1) (conj zero_repr (conj zero_repr one_repr)))
      as (ox & oy & Eo & Hox & Hoy & Ex & Ey).
    cbn [jX jY jZ] in Ex, Ey. rewrite Z.mul_0_l, Z.mod_0_l in Ex, Ey by exact p_nonzero.
    exists ox, oy. split; [exact Eo|]. unfold reduced. rewrite Ex, Ey. by split_and!.
  - apply affine_output_stands. apply exactly_stands; [exact g_nonzero|by apply base_mult_exactly|lia].
Qed.

(** ** Keys *)

(** The point check accepts points of the curve only. *)
Lemma valid_point_coords x y :
  p256_ok x -> p256_ok y -> p256_is_valid_point x y = Some true -> exists K, coords K = Some (eval x, eval y).
Proof.
  intros Hx Hy. rewrite (is_valid_point_spec x y Hx Hy). intros H. injection H as H. apply bool_decide_eq_true in H as (Bx & By & E & _).
  assert (validb (Some (eval x, eval y)) = true) as V.
  { apply validb_spec. split; [split; cbn [fst snd]; lia|]. unfold on_curve. cbn [fst snd]. apply eqm_eq; [exact p_nonzero|].
    rewrite <- Z.pow_2_r, E. f_equal. ring. }
  by exists (GPoint _ V).
Qed.

Lemma multiple_reduced K : exists d, 0 <= d < n /\ K = mul d g.
Proof.
  destruct (generated K) as [d ->]. exists (d mod n). split; [apply Z.mod_pos_bound, n_pos|].
  by rewrite (gmul_mod n prime_n g d g_order).
Qed.

(** * Theorems *)

(** C14.  The point check is enough: a key it accepts is a point of the curve, of
    order exactly n, and the public key of one private key [d]. *)
Theorem accepted_key x y :
  p256_ok x -> p256_ok y -> p256_is_valid_point x y = Some true ->
  exists K d, coords K = Some (eval x, eval y) /\ 0 < d < n /\ K = mul d g
    /\ forall k, mul k K = gzero <-> (n | k).
Proof.
  intros Hx Hy H. destruct (valid_point_coords x y Hx Hy H) as [K HK]. destruct (multiple_reduced K) as (d & Hd & E).
  assert (K <> gzero) as Hne by (intros ->; discriminate HK).
  exists K, d. split; [exact HK|]. split.
  - assert (d <> 0) by (intros ->; by rewrite gmul_0 in E). lia.
  - split; [exact E|]. intros k. exact (gmul_zero_iff n prime_n K k (order_n K) Hne).
Qed.

Lemma accepted_key_witness :
  p256_is_valid_point base_x base_y = Some true /\ exists K d, coords K = Some (eval base_x, eval base_y) /\ 0 < d < n /\ K = mul d g.
Proof.
  assert (p256_is_valid_point base_x base_y = Some true) as H by (vm_compute; reflexivity). split; [exact H|].
  destruct (accepted_key base_x base_y base_x_ok base_y_ok H) as (K & d & HK & Hd & E & _).
  exists K, d. split; [exact HK|]. split; [exact Hd|exact E].
Defined.

(** C13.  The combined multiplication of the signature check computes in the
    group of the curve: for scalars below n and a point [K] of the curve,
    p256_points_mul_vartime returns the affine coordinates of [n1 G + n2 K],
    zeros for the point at infinity, without a failed assertion. *)
Theorem p256_points_mul_vartime_multiples K n1 n2 x y :
  p256_ok n1 -> p256_ok n2 -> p256_ok x -> p256_ok y -> coords K = Some (eval x, eval y) -> eval n1 < n -> eval n2 < n ->
  exists ox oy, p256_points_mul_vartime n1 n2 x y = Some (ox, oy) /\ reduced ox /\ reduced oy
    /\ (eval ox, eval oy) = affine_of (gadd (mul (eval n1) g) (mul (eval n2) K)).
Proof. intros H1 H2 Hx Hy HK. apply (points_mul_exact K n1 n2 x y H1 H2 Hx Hy). exists (eval x, eval y). split; [exact HK|reflexivity]. Qed.

(** [G + G] by the two loops and the doubling at the end. *)
Lemma p256_points_mul_vartime_multiples_witness :
  exists ox oy, p256_points_mul_vartime P256_ONE P256_ONE base_x base_y = Some (ox, oy)
    /\ (eval ox, eval oy) = affine_of (mul 2 g).
Proof.
  assert (p256_ok P256_ONE) as H1 by prove_ok.
  destruct (p256_points_mul_vartime_multiples g P256_ONE P256_ONE base_x base_y H1 H1 base_x_ok base_y_ok) as (ox & oy & E & _ & _ & Ex);
    [reflexivity|reflexivity|reflexivity|].
  change (eval P256_ONE) with 1 in Ex. rewrite <- gmul_add in Ex. exists ox, oy. split; [exact E|exact Ex].
Defined.

(** The public base point multiplication: for a scalar below n the affine
    coordinates of that multiple of the base point. *)
Theorem p256_base_point_mul_multiple s :
  p256_ok s -> eval s < n ->
  exists ox oy, p256_base_point_mul s = Some (ox, oy) /\ reduced ox /\ reduced oy /\ (eval ox, eval oy) = affine_of (mul (eval s) g).
Proof. exact (base_mul_exact s). Qed.

Lemma p256_base_point_mul_multiple_witness :
  exists ox oy, p256_base_point_mul P256_ONE = Some (ox, oy) /\ (eval ox, eval oy) = G.
Proof.
  assert (p256_ok P256_ONE) as H1 by prove_ok.
  destruct (p256_base_point_mul_multiple P256_ONE H1) as (ox & oy & E & _ & _ & Ex); [reflexivity|].
  exists ox, oy. split; [exact E|exact Ex].
Defined.

(** The loops over the bits of a scalar: below the order n, as the comment
    of scalar_base_mult requires, they never give point_add two equal or
    opposite points, and leave Jacobian coordinates of that multiple of the base
    point and of the point given; what they leave for the scalar 0. *)
Theorem scalar_mult_multiples K x y qx qy s :
  repr x qx -> repr y qy -> is_coords K (qx, qy) -> p256_ok s -> eval s < n ->
  if eval s =? 0
  then scalar_base_mult s = (felem_zero, felem_zero, kOne) /\ scalar_mult x y s = (felem_zero, felem_zero, felem_zero)
  else stands (mul (eval s) g) (scalar_base_mult s) /\ stands (mul (eval s) K) (scalar_mult x y s).
Proof.
  intros Hx Hy HK Hs L. pose proof (p256_ok_bound s Hs) as B. destruct (Z.eqb_spec (eval s) 0) as [E|E].
  - by apply (scalar_mult_zero x y qx qy).
  - split; apply exactly_stands; [exact g_nonzero|by apply base_mult_exactly|lia|exact (is_coords_nonzero _ _ HK)| |lia].
    by apply mult_exactly with qx qy.
Qed.

Lemma scalar_mult_multiples_witness :
  exists x y, stands (mul (eval base_x) g) (scalar_base_mult base_x) /\ stands (mul (eval base_x) g) (scalar_mult x y base_x).
Proof.
  destruct (to_montgomery_spec base_x base_x_ok) as (x & _ & Hx & _), (to_montgomery_spec base_y base_y_ok) as (y & _ & Hy & _).
  exists x, y. exact (scalar_mult_multiples g x y _ _ base_x Hx Hy g_coords base_x_ok eq_refl).
Defined.
