(* ===== verification/Ecdsa.v ===== *)
(** * ECDSA signatures: libmincrypt/dsa_sig.c and libmincrypt/p256_ecdsa.c

    A buffer is the list of its bytes from the pointer on; a read past its end
    makes a function return [None].  Inside, [Some None] is the C result 0 and
    [Some (Some _)] the result 1 with what was stored. *)
From S2P Require Import Prelude Modular Digits P256 Primes Felem Curve P256Point P256Table P256Scalar P256Ec Abelian Group P256Group Cofactor P256Mul.
From Stdlib Require Import Znumtheory.

(** [while ( *src == '\0' && src_len > 0)]: the byte is read first. *)
Fixpoint skip_zeros (src : list Z) (src_len : Z) : option (list Z * Z) :=
  match src with
  | [] => None
  | b :: rest => if (b =? 0) && (0 <? src_len) then skip_zeros rest (src_len - 1) else Some (src, src_len)
  end.

Definition trim_to_p256_bytes (src : list Z) (src_len : Z) : option (option (list Z)) :=
  '(src, src_len) ← skip_zeros src src_len;
  if (Z.of_nat P256_NBYTES <? src_len) || (src_len <? 1) then Some None else
  let dst_offset := (P256_NBYTES - Z.to_nat src_len)%nat in
  if (length src <? Z.to_nat src_len)%nat then None else
  Some (Some (replicate dst_offset 0 ++ take (Z.to_nat src_len) src)).

Definition dsa_sig_unpack (sig : list Z) (sig_len : Z) : option (option (list Z * list Z)) :=
  if sig_len <? 8 then Some None else
  tag ← sig !! 0%nat;
  if negb (tag =? 0x30) then Some None else
  tag ← sig !! 2%nat;
  if negb (tag =? 0x02) then Some None else
  seq_len ← sig !! 1%nat;
  if (seq_len <=? 0) || negb (seq_len + 2 =? sig_len) then Some None else
  r_len ← sig !! 3%nat;
  if (r_len <? 1) || (seq_len - 5 <? r_len) then Some None else
  tag ← sig !! Z.to_nat (4 + r_len);
  if negb (tag =? 0x02) then Some None else
  s_len ← sig !! Z.to_nat (5 + r_len);
  if (s_len <? 1) || negb (s_len =? seq_len - 4 - r_len) then Some None else
  r_bytes ← trim_to_p256_bytes (drop 4 sig) r_len;
  match r_bytes with
  | None => Some None
  | Some r_bytes =>
      s_bytes ← trim_to_p256_bytes (drop (Z.to_nat (6 + r_len)) sig) s_len;
      match s_bytes with
      | None => Some None
      | Some s_bytes => Some (Some (p256_from_bin r_bytes, p256_from_bin s_bytes))
      end
  end.

(** [fuel] bounds the iterations of p256_modinv_vartime. *)
Definition p256_ecdsa_verify (fuel : nat) (key_x key_y message r s : list Z) : option bool :=
  valid ← p256_is_valid_point key_x key_y;
  if negb valid then Some false else
  let u := p256_mod SECP256r1_n r in
  let v := p256_mod SECP256r1_n s in
  if p256_is_zero u || p256_is_zero v then Some false else
  v ← p256_modinv_vartime fuel SECP256r1_n s;
  u ← p256_modmul SECP256r1_n message 0 v;
  v ← p256_modmul SECP256r1_n r 0 v;
  '(u, v) ← p256_points_mul_vartime u v key_x key_y;
  let u := p256_mod SECP256r1_n u in
  Some (p256_cmp r u =? 0).

(** * The signature encoding *)

(** SEQUENCE of two INTEGERs. *)
Definition der (rb sb : list Z) : list Z :=
  0x30 :: Z.of_nat (4 + length rb + length sb) :: 0x02 :: Z.of_nat (length rb) :: rb
  ++ 0x02 :: Z.of_nat (length sb) :: sb.

Definition der_ok (rb sb : list Z) : Prop :=
  rb <> [] /\ sb <> [] /\ (4 + length rb + length sb <= 255)%nat /\ words 8 rb /\ words 8 sb.

(** A positive number of 256 bits. *)
Definition positive256 (l : list Z) : Prop := 0 < be_eval 8 l < 2 ^ 256.

(** * Lemmas *)

(** Without the leading zeros: the number is the same, and its length tells
    whether it has 256 bits. *)
Lemma be_eval_cons b l : be_eval 8 (b :: l) = b * 2 ^ (8 * Z.of_nat (length l)) + be_eval 8 l.
Proof.
  unfold be_eval. cbn [rev]. rewrite le_eval_app, length_rev by done. cbn [le_eval]. ring.
Qed.

Lemma be_eval_bound l : words 8 l -> 0 <= be_eval 8 l < 2 ^ (8 * Z.of_nat (length l)).
Proof.
  intros H. unfold be_eval. rewrite <- length_rev. apply le_eval_bound; [done|]. by apply Forall_rev.
Qed.

Lemma be_eval_zeros n l : be_eval 8 (replicate n 0 ++ l) = be_eval 8 l.
Proof. induction n as [|n IH]; [done|]. cbn [replicate app]. rewrite be_eval_cons, IH. lia. Qed.

(** Either the bytes are all zero and the loop looks one byte further, or it
    stops at the first byte that is not. *)
Lemma skip_zeros_spec l m :
  (be_eval 8 l = 0 /\ words 8 l ->
     skip_zeros (l ++ m) (Z.of_nat (length l)) = match m with [] => None | _ => Some (m, 0) end)
  /\ (words 8 l -> 0 < be_eval 8 l -> exists n b l', l = replicate n 0 ++ b :: l' /\ b <> 0
     /\ skip_zeros (l ++ m) (Z.of_nat (length l)) = Some (b :: l' ++ m, Z.of_nat (length (b :: l')))).
Proof.
  induction l as [|b l [IH1 IH2]].
  - split; [|by cbn]. intros _. destruct m as [|x m]; [done|]. cbn [app length skip_zeros].
    by rewrite andb_false_r.
  - split.
    + intros [Hz Hw]. apply Forall_cons in Hw as [Hb Hw]. rewrite be_eval_cons in Hz. pose proof (be_eval_bound l Hw).
      unfold is_word in Hb. assert (0 < 2 ^ (8 * Z.of_nat (length l))) by (apply Z.pow_pos_nonneg; lia).
      assert (b = 0 /\ be_eval 8 l = 0) as [-> Hz'] by nia.
      cbn [app length skip_zeros]. rewrite Z.eqb_refl, (proj2 (Z.ltb_lt _ _)) by lia. cbn [andb].
      replace (Z.of_nat (S (length l)) - 1) with (Z.of_nat (length l)) by lia. by apply IH1.
    + intros Hw Hp. apply Forall_cons in Hw as [Hb Hw]. cbn [app length skip_zeros].
      destruct (Z.eqb_spec b 0) as [->|Hne]; cbn [andb].
      * rewrite (proj2 (Z.ltb_lt _ _)) by lia. rewrite be_eval_cons in Hp.
        destruct (IH2 Hw ltac:(lia)) as (n & b & l' & E & Hb' & Es). exists (S n), b, l'.
        replace (Z.of_nat (S (length l)) - 1) with (Z.of_nat (length l)) by lia. rewrite Es.
        split; [by rewrite E|done].
      * exists 0%nat, b, l. done.
Qed.

Lemma be_eval_first b l :
  words 8 (b :: l) -> b <> 0 ->
  0 < be_eval 8 (b :: l) /\ (be_eval 8 (b :: l) < 2 ^ 256 <-> (length (b :: l) <= 32)%nat).
Proof.
  intros Hw Hne. pose proof (be_eval_bound _ Hw) as B. apply Forall_cons in Hw as [Hb Hw].
  pose proof (be_eval_bound _ Hw). rewrite be_eval_cons in *. unfold is_word in Hb.
  assert (0 < 2 ^ (8 * Z.of_nat (length l))) by (apply Z.pow_pos_nonneg; lia). split; [nia|]. cbn [length] in *. split.
  - intros Hlt. destruct (le_gt_dec (S (length l)) 32) as [|Hgt]; [done|].
    assert (2 ^ 256 <= 2 ^ (8 * Z.of_nat (length l))) by (apply Z.pow_le_mono_r; lia). nia.
  - intros Hle. assert (2 ^ (8 * Z.of_nat (S (length l))) <= 2 ^ 256) by (apply Z.pow_le_mono_r; lia). lia.
Qed.

(** The number at the end of 32 bytes; nothing for 0 or a number of more than
    256 bits, and a read past the buffer for zeros that end it. *)
Lemma trim_spec l m :
  words 8 l ->
  (be_eval 8 l = 0 -> trim_to_p256_bytes (l ++ m) (Z.of_nat (length l)) = match m with [] => None | _ => Some None end)
  /\ (positive256 l -> exists d, trim_to_p256_bytes (l ++ m) (Z.of_nat (length l)) = Some (Some d)
      /\ words 8 d /\ length d = P256_NBYTES /\ be_eval 8 d = be_eval 8 l)
  /\ (2 ^ 256 <= be_eval 8 l -> trim_to_p256_bytes (l ++ m) (Z.of_nat (length l)) = Some None).
Proof.
  intros Hw. destruct (skip_zeros_spec l m) as [H0 H1]. unfold trim_to_p256_bytes. split; [|split].
  - intros Hz. rewrite H0 by done. by destruct m.
  - intros [Hp Hlt]. destruct (H1 Hw Hp) as (n & b & l' & E & Hb & ->). cbn [mbind option_bind].
    rewrite E, be_eval_zeros in *. apply Forall_app in Hw as [_ Hw].
    destruct (be_eval_first b l' Hw Hb) as [_ Hlen]. apply Hlen in Hlt as Hle. unfold P256_NBYTES in *.
    rewrite (proj2 (Z.ltb_ge _ _)) by lia. rewrite (proj2 (Z.ltb_ge _ _)) by (cbn [length]; lia).
    rewrite Nat2Z.id. change (b :: l' ++ m) with ((b :: l') ++ m).
    rewrite (proj2 (Nat.ltb_ge _ _)) by (rewrite length_app; lia). rewrite take_app_length.
    eexists. split; [done|]. split; [apply words_app; [by apply Forall_replicate|done]|].
    split; [rewrite length_app, length_replicate; lia|apply be_eval_zeros].
  - intros Hge. destruct (H1 Hw ltac:(lia)) as (n & b & l' & E & Hb & ->). cbn [mbind option_bind].
    rewrite E, be_eval_zeros in *. apply Forall_app in Hw as [_ Hw].
    destruct (be_eval_first b l' Hw Hb) as [_ Hlen]. unfold P256_NBYTES.
    rewrite (proj2 (Z.ltb_lt _ _)); [done|]. destruct (le_gt_dec (length (b :: l')) 32) as [Hle|]; [|lia].
    apply Hlen in Hle. lia.
Qed.

(** Lookups into an encoding. *)
Lemma der_lookups rb sb :
  der rb sb !! 0%nat = Some 0x30 /\ der rb sb !! 2%nat = Some 0x02
  /\ der rb sb !! 1%nat = Some (Z.of_nat (4 + length rb + length sb))
  /\ der rb sb !! 3%nat = Some (Z.of_nat (length rb))
  /\ der rb sb !! (4 + length rb)%nat = Some 0x02
  /\ der rb sb !! (5 + length rb)%nat = Some (Z.of_nat (length sb))
  /\ drop 4 (der rb sb) = rb ++ 0x02 :: Z.of_nat (length sb) :: sb
  /\ drop (6 + length rb) (der rb sb) = sb.
Proof.
  split_and!; try done; unfold der.
  - change ((rb ++ 0x02 :: Z.of_nat (length sb) :: sb) !! length rb = Some 0x02). by apply list_lookup_middle.
  - change ((rb ++ 0x02 :: Z.of_nat (length sb) :: sb) !! S (length rb) = Some (Z.of_nat (length sb))).
    replace (S (length rb)) with (length (rb ++ [0x02])) by (rewrite length_app; cbn [length]; lia).
    replace (rb ++ 0x02 :: Z.of_nat (length sb) :: sb) with ((rb ++ [0x02]) ++ Z.of_nat (length sb) :: sb) by by rewrite <- app_assoc.
    by apply list_lookup_middle.
  - change (6 + length rb)%nat with (S (S (S (S (S (S (length rb))))))). cbn [drop].
    replace (S (S (length rb))) with (length (rb ++ [0x02; Z.of_nat (length sb)])) by (rewrite length_app; cbn [length]; lia).
    replace (rb ++ 0x02 :: Z.of_nat (length sb) :: sb) with ((rb ++ [0x02; Z.of_nat (length sb)]) ++ sb) by by rewrite <- app_assoc.
    apply drop_app_length.
Qed.

Lemma der_length rb sb : length (der rb sb) = (6 + length rb + length sb)%nat.
Proof. unfold der. cbn [length]. rewrite length_app. cbn [length]. lia. Qed.

(** The two calls of trim_to_p256_bytes on an encoding. *)
Lemma unpack_der rb sb :
  der_ok rb sb ->
  dsa_sig_unpack (der rb sb) (Z.of_nat (length (der rb sb)))
  = r_bytes ← trim_to_p256_bytes (rb ++ 0x02 :: Z.of_nat (length sb) :: sb) (Z.of_nat (length rb));
    match r_bytes with
    | None => Some None
    | Some r_bytes =>
        s_bytes ← trim_to_p256_bytes (sb ++ []) (Z.of_nat (length sb));
        match s_bytes with
        | None => Some None
        | Some s_bytes => Some (Some (p256_from_bin r_bytes, p256_from_bin s_bytes))
        end
    end.
Proof.
  intros (Hr & Hs & Hl & _). destruct rb as [|r0 rb]; [done|]. destruct sb as [|s0 sb]; [done|].
  set (R := r0 :: rb) in *. set (S := s0 :: sb) in *.
  assert (1 <= length R)%nat by (cbn; lia). assert (1 <= length S)%nat by (cbn; lia). clearbody R S. clear Hr Hs.
  destruct (der_lookups R S) as (L0 & L2 & L1 & L3 & L4 & L5 & D4 & D6).
  unfold dsa_sig_unpack. rewrite L0, L1, L2, L3, D4, der_length. cbn [mbind option_bind].
  rewrite (proj2 (Z.ltb_ge _ _)) by lia. cbn [negb Z.eqb Pos.eqb].
  rewrite (proj2 (Z.leb_gt _ _)), (proj2 (Z.eqb_eq _ _)) by lia. cbn [orb negb].
  rewrite (proj2 (Z.ltb_ge _ 1)), (proj2 (Z.ltb_ge _ (Z.of_nat (length R)))) by lia. cbn [orb].
  replace (Z.to_nat (4 + Z.of_nat (length R))) with (4 + length R)%nat by lia.
  replace (Z.to_nat (5 + Z.of_nat (length R))) with (5 + length R)%nat by lia.
  replace (Z.to_nat (6 + Z.of_nat (length R))) with (6 + length R)%nat by lia.
  rewrite L4, L5, D6. cbn [mbind option_bind negb Z.eqb Pos.eqb].
  rewrite (proj2 (Z.ltb_ge _ 1)), (proj2 (Z.eqb_eq _ _)) by lia. cbn [orb negb].
  by rewrite app_nil_r.
Qed.

(** Only encodings get as far as the numbers. *)
Lemma unpack_shape sig :
  words 8 sig -> dsa_sig_unpack sig (Z.of_nat (length sig)) <> Some None ->
  exists rb sb, der_ok rb sb /\ sig = der rb sb.
Proof.
  intros Hw H. unfold dsa_sig_unpack in H.
  destruct (Z.ltb_spec (Z.of_nat (length sig)) 8) as [|H8]; [by destruct H|].
  destruct sig as [|s0 [|s1 [|s2 [|s3 rest]]]]; try (cbn [length] in H8; lia).
  cbn [lookup list_lookup mbind option_bind] in H.
  destruct (Z.eqb_spec s0 0x30) as [->|]; [|done]. destruct (Z.eqb_spec s2 0x02) as [->|]; [|done]. cbn [negb] in H.
  destruct (Z.leb_spec s1 0) as [|B1]; [by destruct H|].
  destruct (Z.eqb_spec (s1 + 2) (Z.of_nat (length (0x30 :: s1 :: 0x02 :: s3 :: rest)))) as [E1|]; [|done].
  cbn [orb negb length] in H, E1.
  destruct (Z.ltb_spec s3 1) as [|B3]; [by destruct H|]. destruct (Z.ltb_spec (s1 - 5) s3) as [|B5]; [by destruct H|]. cbn [orb] in H.
  apply Forall_cons in Hw as [_ Hw]. apply Forall_cons in Hw as [W1 Hw]. apply Forall_cons in Hw as [_ Hw].
  apply Forall_cons in Hw as [_ Hw]. unfold is_word in W1.
  replace (Z.to_nat (4 + s3)) with (4 + Z.to_nat s3)%nat in H by lia.
  replace (Z.to_nat (5 + s3)) with (4 + S (Z.to_nat s3))%nat in H by lia.
  change ((0x30 :: s1 :: 0x02 :: s3 :: rest) !! (4 + Z.to_nat s3)%nat) with (rest !! Z.to_nat s3) in H.
  change ((0x30 :: s1 :: 0x02 :: s3 :: rest) !! (4 + S (Z.to_nat s3))%nat) with (rest !! S (Z.to_nat s3)) in H.
  rewrite <- (take_drop (Z.to_nat s3) rest) in Hw, H.
  remember (take (Z.to_nat s3) rest) as rb eqn:Erb. remember (drop (Z.to_nat s3) rest) as tail eqn:Et.
  assert (length rb = Z.to_nat s3) as Lrb by (rewrite Erb, length_take; lia).
  assert (length rest = (length rb + length tail)%nat) as Lrest by (rewrite Lrb, Et, length_drop; lia).
  assert (rest = rb ++ tail) as -> by (rewrite Erb, Et; symmetry; apply take_drop).
  clear Erb Et. destruct tail as [|t0 [|t1 sb]]; try (cbn [length] in Lrest; lia).
  rewrite <- Lrb, (list_lookup_middle rb (t1 :: sb) t0 (length rb) eq_refl) in H. cbn [mbind option_bind] in H.
  replace ((rb ++ t0 :: t1 :: sb) !! S (length rb)) with (Some t1) in H.
  2: { rewrite lookup_app_r by lia. by replace (S (length rb) - length rb)%nat with 1%nat by lia. }
  destruct (Z.eqb_spec t0 0x02) as [->|]; [|by destruct H]. cbn [mbind option_bind negb] in H.
  destruct (Z.ltb_spec t1 1) as [|Bt]; [by destruct H|]. destruct (Z.eqb_spec t1 (s1 - 4 - s3)) as [Et1|]; [|by destruct H]. clear H.
  cbn [length] in Lrest. apply Forall_app in Hw as [Wr Ws].
  apply Forall_cons in Ws as [_ Ws]. apply Forall_cons in Ws as [_ Ws].
  exists rb, sb. split.
  - split_and!; [intros ->; cbn [length] in Lrb; lia|intros ->; cbn [length] in Lrest; lia|lia|done|done].
  - unfold der. f_equal. f_equal; [lia|]. f_equal. f_equal; [lia|]. do 2 f_equal. f_equal. lia.
Qed.

Lemma positive_cases l : words 8 l -> be_eval 8 l = 0 \/ positive256 l \/ 2 ^ 256 <= be_eval 8 l.
Proof. intros H. pose proof (be_eval_bound l H). unfold positive256. lia. Qed.

(** * Theorems *)

(** The signature parser, on a buffer of just the signature: it accepts
    exactly the encodings of two numbers [r], [s] with [0 < r, s < 2^256],
    padded with zeros or not, and stores these numbers; and it reads past the
    buffer exactly for an encoding of such an [r] with [s = 0]. *)
Theorem dsa_sig_unpack_correct sig :
  words 8 sig ->
  (forall r s, dsa_sig_unpack sig (Z.of_nat (length sig)) = Some (Some (r, s))
   <-> exists rb sb, sig = der rb sb /\ der_ok rb sb /\ positive256 rb /\ positive256 sb
       /\ p256_ok r /\ p256_ok s /\ eval r = be_eval 8 rb /\ eval s = be_eval 8 sb)
  /\ (dsa_sig_unpack sig (Z.of_nat (length sig)) = None
   <-> exists rb sb, sig = der rb sb /\ der_ok rb sb /\ positive256 rb /\ be_eval 8 sb = 0).
Proof.
  intros Hw.
  assert (forall rb sb, der_ok rb sb -> sig = der rb sb ->
    (be_eval 8 rb = 0 \/ 2 ^ 256 <= be_eval 8 rb \/ positive256 rb /\ 2 ^ 256 <= be_eval 8 sb)
      /\ dsa_sig_unpack sig (Z.of_nat (length sig)) = Some None
    \/ positive256 rb /\ be_eval 8 sb = 0 /\ dsa_sig_unpack sig (Z.of_nat (length sig)) = None
    \/ positive256 rb /\ positive256 sb /\ exists r s, dsa_sig_unpack sig (Z.of_nat (length sig)) = Some (Some (r, s))
      /\ p256_ok r /\ p256_ok s /\ eval r = be_eval 8 rb /\ eval s = be_eval 8 sb) as Hcases.
  { intros rb sb Hok ->. rewrite (unpack_der rb sb Hok). destruct Hok as (_ & _ & _ & Wr & Ws).
    destruct (trim_spec rb (0x02 :: Z.of_nat (length sb) :: sb) Wr) as (R0 & R1 & R2).
    destruct (trim_spec sb [] Ws) as (S0 & S1 & S2).
    destruct (positive_cases rb Wr) as [Er|[Er|Er]]; [rewrite (R0 Er); left; by auto| |rewrite (R2 Er); left; by auto].
    destruct (R1 Er) as (dr & -> & Wd & Ld & Ed). cbn [mbind option_bind].
    destruct (positive_cases sb Ws) as [Es|[Es|Es]]; [rewrite (S0 Es); right; left; by auto| |rewrite (S2 Es); left; by auto].
    destruct (S1 Es) as (ds & -> & Wd' & Ld' & Ed'). cbn [mbind option_bind]. right. right. split; [done|]. split; [done|].
    destruct (from_bin_spec dr Wd Ld) as [Or Vr], (from_bin_spec ds Wd' Ld') as [Os Vs].
    eexists _, _. split; [done|]. rewrite Vr, Vs. done. }
  split.
  - intros r s. split.
    + intros E. destruct (unpack_shape sig Hw ltac:(by rewrite E)) as (rb & sb & Hok & Es). exists rb, sb.
      destruct (Hcases rb sb Hok Es) as [[_ E']|[(_ & _ & E')|(Hr & Hs & r' & s' & E' & H)]];
        rewrite E in E'; [discriminate..|]. injection E' as <- <-. tauto.
    + intros (rb & sb & Es & Hok & Hr & Hs & Or & Os & Er & Es').
      destruct (Hcases rb sb Hok Es) as [[Hc _]|[(_ & E0 & _)|(_ & _ & r' & s' & E' & Or' & Os' & Er' & Es'')]];
        [unfold positive256 in *; lia..|].
      rewrite E'. do 2 f_equal. f_equal; apply p256_ok_inj; congruence.
  - split.
    + intros E. destruct (unpack_shape sig Hw ltac:(by rewrite E)) as (rb & sb & Hok & Es). exists rb, sb.
      destruct (Hcases rb sb Hok Es) as [[_ E']|[(? & ? & E')|(Hr & Hs & r' & s' & E' & H)]];
        [congruence|tauto|congruence].
    + intros (rb & sb & Es & Hok & Hr & E0).
      destruct (Hcases rb sb Hok Es) as [[Hc _]|[(_ & _ & E)|(_ & Hs & _)]]; [unfold positive256 in *; lia|done|unfold positive256 in *; lia].
Qed.

Lemma dsa_sig_unpack_correct_witness :
  dsa_sig_unpack (der [0; 200] [0; 0]) 10 = None
  /\ exists r s, dsa_sig_unpack (der [0; 200] [7]) 9 = Some (Some (r, s)) /\ eval r = 200 /\ eval s = 7.
Proof.
  assert (forall l, forallb (fun x => (0 <=? x) && (x <? 2 ^ 8)) l = true -> words 8 l) as W.
  { intros l H. apply Forall_forall. intros x Hx%list_elem_of_In. rewrite forallb_forall in H. specialize (H x Hx).
    rewrite andb_true_iff, Z.leb_le, Z.ltb_lt in H. exact H. }
  split.
  - apply (dsa_sig_unpack_correct (der [0; 200] [0; 0])); [by apply W|]. exists [0; 200], [0; 0].
    split; [done|]. split; [|by split]. split; [done|]. split; [done|]. split; [cbn; lia|]. split; by apply W.
  - exists [200; 0; 0; 0; 0; 0; 0; 0], [7; 0; 0; 0; 0; 0; 0; 0]. split; [|done].
    apply (dsa_sig_unpack_correct (der [0; 200] [7])); [by apply W|]. exists [0; 200], [7].
    split; [done|]. split; [split; [done|]; split; [done|]; split; [cbn; lia|]; split; by apply W|].
    split; [done|]. split; [done|]. split; [prove_ok|]. split; [prove_ok|]. done.
Defined.

(** ** Verification *)

Lemma n_bounds : 1 < n_value /\ n_value < 2 ^ 256 < 2 * n_value /\ p_value < 2 * n_value.
Proof. split; [reflexivity|]. split; [split; reflexivity|reflexivity]. Qed.

Lemma n_rel_prime s : s mod n_value <> 0 -> rel_prime n_value s.
Proof.
  intros Hs. apply prime_rel_prime; [exact prime_n|]. intros Hd. apply Hs. by apply Z.mod_divide.
Qed.

(** The inverse of [s], by p256_modinv_vartime. *)
Lemma modinv_n fuel s :
  p256_ok s -> eval s mod n_value <> 0 -> (1024 <= fuel)%nat ->
  exists w, p256_modinv_vartime fuel SECP256r1_n s = Some w /\ p256_ok w /\ eval w * eval s =[n_value] 1.
Proof.
  intros Hs Hn Hf. pose proof (p256_ok_bound s Hs) as B.
  assert (0 < eval s) as Hp. { destruct (Z.eq_dec (eval s) 0) as [E|]; [rewrite E in Hn; by destruct Hn|lia]. }
  destruct (modinv_spec SECP256r1_n s fuel (proj1 SECP256r1_n_ok) Hs eq_refl eq_refl Hp Hf) as (w & E & Hw & _ & Ev).
  exists w. split; [exact E|]. split; [exact Hw|]. apply eqm_eq; [discriminate|]. unfold n_value at 1. rewrite Ev. fold n_value.
  f_equal. apply Zgcd_1_rel_prime. by apply n_rel_prime.
Qed.

(** Division by [s] is unique below the order. *)
Lemma quotient_unique s w a u :
  s mod n_value <> 0 -> w * s =[n_value] 1 -> 0 <= u < n_value ->
  u * s =[n_value] a <-> u = (a * w) mod n_value.
Proof.
  intros Hs Hw Hu. split.
  - intros E. apply eqm_small; [|exact Hu]. rewrite <- E, <- Z.mul_assoc, (Z.mul_comm s), Hw. by rewrite Z.mul_1_r.
  - intros ->. rewrite eqm_mod, <- Z.mul_assoc, Hw. by rewrite Z.mul_1_r.
Qed.

(** ** What the verification computes *)

Definition abscissa (P : gpoint) : Z := (affine_of P).1.

(** The equation of the verification. *)
Definition accepts (K : gpoint) (m r s : Z) : Prop :=
  0 < r < n_value /\ s mod n_value <> 0
  /\ exists u v, u * s =[n_value] m /\ v * s =[n_value] r /\ r = abscissa (gadd (mul u g) (mul v K)) mod n_value.

(** The equation of the signature with private key [d] and nonce [k]. *)
Definition signs (d k m r s : Z) : Prop :=
  0 < r < n_value /\ s mod n_value <> 0 /\ s * k =[n_value] m + r * d /\ r = abscissa (mul k g) mod n_value.

Lemma mul_eqm P j k : j =[n_value] k -> mul j P = mul k P.
Proof.
  intros E. rewrite <- (gmul_mod n_value prime_n P j (order_n P)), <- (gmul_mod n_value prime_n P k (order_n P)).
  apply eqm_eq in E; [|discriminate]. by rewrite E.
Qed.

Lemma n_cancel s x y : s mod n_value <> 0 -> s * x =[n_value] s * y -> x =[n_value] y.
Proof. intros Hs. apply eqm_cancel. by apply n_rel_prime. Qed.

(** The verification equation holds for the signatures of the private key. *)
Lemma accepts_signs d m r s : accepts (mul d g) m r s <-> exists k, signs d k m r s.
Proof.
  split.
  - intros (Hr & Hs & u & v & Eu & Ev & E). exists (u + v * d). split; [exact Hr|]. split; [exact Hs|]. split.
    + transitivity (u * s + v * s * d); [apply eqm_eq_refl; ring|]. by rewrite Eu, Ev.
    + by rewrite gmul_add, gmul_mul.
  - intros (k & Hr & Hs & Ek & E). split; [exact Hr|]. split; [exact Hs|].
    destruct (rel_prime_bezout _ _ (n_rel_prime s Hs)) as [a w Ew].
    assert (w * s =[n_value] 1) as Hw by (apply eqm_add_multiple with (- a); lia).
    exists (m * w), (r * w). split; [rewrite <- Z.mul_assoc, Hw; apply eqm_eq_refl; ring|].
    split; [rewrite <- Z.mul_assoc, Hw; apply eqm_eq_refl; ring|]. rewrite <- gmul_mul, <- gmul_add. etransitivity; [exact E|].
    f_equal. f_equal. apply mul_eqm.
    apply (n_cancel s); [exact Hs|]. rewrite Ek. transitivity (w * s * m + w * s * r * d); [rewrite Hw|]; apply eqm_eq_refl; ring.
Qed.

Lemma verify_accepts fuel K kx ky m r s :
  p256_ok kx -> p256_ok ky -> p256_ok m -> p256_ok r -> p256_ok s -> (1024 <= fuel)%nat ->
  p256_is_valid_point kx ky = Some true -> coords K = Some (eval kx, eval ky) ->
  exists b, p256_ecdsa_verify fuel kx ky m r s = Some b /\ (b = true <-> accepts K (eval m) (eval r) (eval s)).
Proof.
  intros Hkx Hky Hm Hr Hs Hf Ev HK. pose proof SECP256r1_n_ok as HN. destruct n_bounds as (N1 & N2 & N3).
  unfold p256_ecdsa_verify. rewrite Ev. cbn [mbind option_bind negb].
  pose proof (p256_ok_bound r Hr) as Br. pose proof (p256_ok_bound s Hs) as Bs.
  destruct (mod_spec SECP256r1_n r (proj1 HN) Hr ltac:(fold n_value; lia)) as [Or Er].
  destruct (mod_spec SECP256r1_n s (proj1 HN) Hs ltac:(fold n_value; lia)) as [Os Es].
  fold n_value in Er, Es. rewrite !is_zero_spec, Er, Es by assumption. clear Or Os Er Es.
  destruct (Z.eqb_spec (eval r mod n_value) 0) as [Zr|Zr]; cbn [orb].
  { exists false. split; [reflexivity|]. split; [discriminate|]. intros (H & _). rewrite Z.mod_small in Zr; lia. }
  destruct (Z.eqb_spec (eval s mod n_value) 0) as [Zs|Zs].
  { exists false. split; [reflexivity|]. split; [discriminate|]. intros (_ & H & _). destruct (H Zs). }
  destruct (modinv_n fuel s Hs Zs Hf) as (w & -> & Hw & Ew). cbn [mbind option_bind].
  destruct (modmul_spec SECP256r1_n m 0 w HN Hm Hw) as (u & -> & Hu & Eu); [split; reflexivity || lia|].
  destruct (modmul_spec SECP256r1_n r 0 w HN Hr Hw) as (v & -> & Hv & Evv); [split; reflexivity || lia|].
  cbn [mbind option_bind]. fold n_value in Eu, Evv. rewrite Z.mul_0_r, Z.add_0_r in Eu, Evv.
  assert (0 <= eval u < n_value) as Bu by (rewrite Eu; apply Z.mod_pos_bound; lia).
  assert (0 <= eval v < n_value) as Bv by (rewrite Evv; apply Z.mod_pos_bound; lia).
  destruct (points_mul_exact K u v kx ky Hu Hv Hkx Hky) as (x & y & -> & [Hx Lx] & Hy & Exy);
    [exists (eval kx, eval ky); split; [exact HK|reflexivity]|lia|lia|]. cbn [mbind option_bind].
  destruct (mod_spec SECP256r1_n x (proj1 HN) Hx ltac:(fold n_value; lia)) as [Ox Ex]. fold n_value in Ex.
  rewrite cmp_spec, Ex by assumption. eexists. split; [reflexivity|]. rewrite Z.eqb_eq, Z.sgn_null_iff.
  assert (eval x = abscissa (gadd (mul (eval u) g) (mul (eval v) K))) as -> by (unfold abscissa; rewrite <- Exy; reflexivity).
  assert (eval u * eval s =[n_value] eval m) as Fu by (apply (quotient_unique _ (eval w)); [exact Zs|exact Ew|exact Bu|exact Eu]).
  assert (eval v * eval s =[n_value] eval r) as Fv by (apply (quotient_unique _ (eval w)); [exact Zs|exact Ew|exact Bv|exact Evv]).
  split.
  - intros E. pose proof (Z.mod_pos_bound (abscissa (gadd (mul (eval u) g) (mul (eval v) K))) n_value ltac:(lia)).
    rewrite Z.mod_small in Zr by lia. split; [lia|]. split; [exact Zs|]. exists (eval u), (eval v).
    split; [exact Fu|]. split; [exact Fv|lia].
  - intros (_ & _ & u' & v' & Eu' & Ev' & E). rewrite E.
    assert (forall z z' c, z * eval s =[n_value] c -> z' * eval s =[n_value] c -> z =[n_value] z') as U.
    { intros z z' c H H'. apply (n_cancel (eval s)); [exact Zs|]. rewrite (Z.mul_comm _ z), (Z.mul_comm _ z'), H, H'. reflexivity. }
    rewrite (mul_eqm g u' (eval u) (U _ _ _ Eu' Fu)), (mul_eqm K v' (eval v) (U _ _ _ Ev' Fv)). lia.
Qed.

(** C12.  The ECDSA verification, for a public key, message, [r] and [s] of 256
    bits: it returns without a failed assertion; it accepts exactly when the key
    passes the point check and [(r, s)] is a signature of the message that the
    private key [d] of the public key makes with some nonce [k]. *)
Theorem p256_ecdsa_verify_correct fuel kx ky m r s :
  p256_ok kx -> p256_ok ky -> p256_ok m -> p256_ok r -> p256_ok s -> (1024 <= fuel)%nat ->
  exists b, p256_ecdsa_verify fuel kx ky m r s = Some b
    /\ (b = true <-> p256_is_valid_point kx ky = Some true
          /\ exists d k, coords (mul d g) = Some (eval kx, eval ky) /\ signs d k (eval m) (eval r) (eval s)).
Proof.
  intros Hkx Hky Hm Hr Hs Hf. destruct (p256_is_valid_point kx ky) as [[|]|] eqn:Ev.
  - destruct (valid_point_coords kx ky Hkx Hky Ev) as [K HK]. destruct (generated K) as [d ->].
    destruct (verify_accepts fuel (mul d g) kx ky m r s Hkx Hky Hm Hr Hs Hf Ev HK) as (b & E & Hb). exists b. split; [exact E|].
    rewrite Hb. rewrite accepts_signs. split.
    + intros [k Hk]. split; [reflexivity|]. by exists d, k.
    + intros (_ & d' & k & Hd & Hk). apply accepts_signs. assert (mul d g = mul d' g) as -> by (apply gpoint_eq; congruence).
      apply accepts_signs. by exists k.
  - exists false. unfold p256_ecdsa_verify. rewrite Ev. split; [reflexivity|]. split; [discriminate|]. by intros [H _].
  - rewrite (is_valid_point_spec kx ky Hkx Hky) in Ev. discriminate Ev.
Qed.

(** The private key 1 and the nonce 1. *)
Lemma p256_ecdsa_verify_correct_witness :
  p256_ecdsa_verify 1024 base_x base_y
    [0x23ca62bc; 0xff18917d; 0x792c6ae3; 0x45e37d2c; 0x9c5bbf0d; 0x743191a; 0x1ed3bdb9; 0x94e82e0c]
    [0xd898c296; 0xf4a13945; 0x2deb33a0; 0x77037d81; 0x63a440f2; 0xf8bce6e5; 0xe12c4247; 0x6b17d1f2] P256_ONE
  = Some true.
Proof.
  set (m := [_; _; _; _; _; _; _; _]). set (r := [_; _; _; _; _; _; _; _]).
  assert (p256_ok m) as Hm by prove_ok. assert (p256_ok r) as Hr by prove_ok. assert (p256_ok P256_ONE) as H1 by prove_ok.
  destruct (p256_ecdsa_verify_correct 1024 base_x base_y m r P256_ONE base_x_ok base_y_ok Hm Hr H1 ltac:(lia)) as (b & E & Hb).
  rewrite E. f_equal. apply Hb. split; [vm_compute; reflexivity|]. exists 1, 1. split; [reflexivity|].
  split; [split; vm_compute; reflexivity|]. split; [vm_compute; discriminate|]. split; [|vm_compute; reflexivity].
  apply eqm_eq; [discriminate|]. vm_compute. reflexivity.
Defined.
