(* ===== verification/HexText.v ===== *)
(** * The texts of the test programs: parsehex

    libmincrypt/test/rsa_test.c and ecdsa_test.c hold messages and signatures as
    text, which the same function parsehex turns into bytes. *)
From S2P Require Import Prelude Libc.

(** The value of a hexadecimal digit: the three groups of cases of the switch. *)
Definition nibble (c : Z) : option Z :=
  if (48 <=? c) && (c <=? 57) then Some (c - 48)
  else if (97 <=? c) && (c <=? 102) then Some (c - 97 + 10)
  else if (65 <=? c) && (c <=? 70) then Some (c - 65 + 10)
  else None.

(** [while ( *str)], with [p] at the end of [result]; the list [str] ends where
    the C string has its NUL. *)
Fixpoint parsehex_loop (fuel : nat) (str result : list Z) : option (list Z) :=
  match fuel with
  | O => None
  | S fuel =>
      match str with
      | [] => Some result
      | _ =>
          match skip_spaces str with
          | [] => Some result
          | c :: str =>
              b ← nibble c;
              let b := b << 4 in
              match skip_spaces str with
              | [] => None
              | c :: str =>
                  v ← nibble c;
                  let b := b .| v in
                  parsehex_loop fuel str (result ++ [u8 b])
              end
          end
      end
  end.

(** The bytes stored and counted in [len]; [None] is the null pointer. *)
Definition parsehex (str : list Z) : option (list Z) := parsehex_loop (S (length str)) str [].

(** * Specification *)

Definition blank (c : Z) : Prop := isspace c = true.

(** Two digits a byte. *)
Fixpoint pairs (l : list Z) : option (list Z) :=
  match l with
  | [] => Some []
  | a :: l =>
      match l with
      | [] => None
      | b :: l => h ← nibble a; v ← nibble b; (16 * h + v ::.) <$> pairs l
      end
  end.

Definition digits_only (l : list Z) : list Z := filter (fun c => ~ blank c) l.

(** * Lemmas *)

Lemma skip_spaces_spec l :
  digits_only (skip_spaces l) = digits_only l /\ (length (skip_spaces l) <= length l)%nat
  /\ match skip_spaces l with [] => digits_only l = [] | c :: r => digits_only l = c :: digits_only r end.
Proof.
  induction l as [|c l (IH1 & IH2 & IH3)]; [done|]. cbn [skip_spaces]. destruct (isspace c) eqn:E.
  - assert (digits_only (c :: l) = digits_only l) as -> by (unfold digits_only, blank; rewrite filter_cons_False; [done|tauto]).
    split; [exact IH1|]. split; [cbn [length]; lia|exact IH3].
  - split; [done|]. split; [done|]. unfold digits_only, blank. rewrite filter_cons_True; [done|congruence].
Qed.

Lemma nibble_range c v : nibble c = Some v -> is_word 4 v.
Proof.
  unfold nibble, is_word. intros H.
  repeat (match type of H with context [?a <=? ?b] => destruct (Z.leb_spec a b) end; cbn [andb] in H);
    try discriminate H; injection H as <-; lia.
Qed.

Lemma pair_byte h v : is_word 4 h -> is_word 4 v -> u8 (h << 4 .| v) = 16 * h + v.
Proof.
  intros Hh Hv. rewrite Z.lor_comm, lor_add, u8_mod by (lia || done). unfold is_word in *. rewrite Z.mod_small; lia.
Qed.

Lemma parsehex_loop_spec fuel str result :
  (length str < fuel)%nat -> parsehex_loop fuel str result = (result ++.) <$> pairs (digits_only str).
Proof.
  revert str result. induction fuel as [|k IH]; intros str result Hk; [lia|]. cbn [parsehex_loop].
  destruct str as [|c0 str0]; [cbn; by rewrite app_nil_r|]. remember (c0 :: str0) as str eqn:Estr. clear Estr c0 str0.
  destruct (skip_spaces_spec str) as (_ & L1 & E1). destruct (skip_spaces str) as [|c str1].
  { rewrite E1. cbn. by rewrite app_nil_r. }
  rewrite E1. cbn [pairs]. destruct (skip_spaces_spec str1) as (_ & L2 & E2).
  destruct (nibble c) as [h|] eqn:Eh; cbn [mbind option_bind].
  2: { destruct (digits_only str1); reflexivity. }
  destruct (skip_spaces str1) as [|d str2]; rewrite E2; [reflexivity|].
  destruct (nibble d) as [v|] eqn:Ev; [|reflexivity]. cbn [mbind option_bind].
  rewrite pair_byte by (by eapply nibble_range). cbn [length] in *. rewrite IH by lia.
  destruct (pairs (digits_only str2)) as [bs|]; [|reflexivity]. cbn. by rewrite <- app_assoc.
Qed.

Lemma pairs_bytes l bs : pairs l = Some bs -> words 8 bs /\ (2 * length bs = length l)%nat.
Proof.
  revert l. induction bs as [|x bs IH]; intros [|a [|b l]] H; try discriminate H; try done.
  - exfalso. cbn [pairs] in H. destruct (nibble a), (nibble b); try discriminate H. by destruct (pairs l).
  - cbn [pairs] in H. destruct (nibble a) as [h|] eqn:Eh, (nibble b) as [v|] eqn:Ev; try discriminate H.
    destruct (pairs l) as [bs'|] eqn:El; [|discriminate H]. injection H as <- <-. destruct (IH l El) as [IH1 IH2].
    apply nibble_range in Eh. apply nibble_range in Ev. unfold is_word in *.
    split; [constructor; [unfold is_word; lia|done]|cbn [length]; lia].
Qed.

Lemma parsehex_pairs str : parsehex str = pairs (digits_only str).
Proof. unfold parsehex. rewrite parsehex_loop_spec by lia. by destruct (pairs _). Qed.

(** * Theorems *)

(** parsehex ends on every string: it skips blanks, reads two digits a
    byte, and returns a null pointer for anything else.  What it stores fits
    the buffer, which has the length of the string. *)
Theorem parsehex_correct str :
  parsehex str = pairs (digits_only str)
  /\ forall bs, parsehex str = Some bs -> words 8 bs /\ (2 * length bs <= length str)%nat.
Proof.
  split; [exact (parsehex_pairs str)|]. intros bs H. rewrite parsehex_pairs in H. apply pairs_bytes in H as [H1 H2].
  split; [exact H1|].
  rewrite H2. apply length_filter.
Qed.
