(* ===== verification/EcdsaTest.v ===== *)
(** * The test program of the signatures: libmincrypt/test/ecdsa_test.c

    Its keys, messages and signatures, its main function, and the proof that it
    passes on the functions verified in Ecdsa: the private key in its comment
    and the nonces of its signatures satisfy the equation of the signature.  A
    NULL result of parsehex handed on is [None]; [r] and [s] are uninitialised
    at the start, hence arguments. *)
From S2P Require Import Prelude Hash Sha Sha256 Libc Modular Digits P256 Primes P256Point P256Table Abelian Group P256Group Cofactor P256Mul Ecdsa HexText.
From Bignums Require Import BigZ.BigZ.

Definition key_x : list Z :=
  [0xd656fa24; 0x931416ca; 0x1c0278c6; 0x174ebe4c;
   0x6018236a; 0x45ba1656; 0xe8c05d84; 0x670ed500].

Definition key_y : list Z :=
  [0x0d179ade; 0x4c16827d; 0x9f8cb992; 0x8f69ff8a;
   0x481b1020; 0x798d91af; 0x184db8e9; 0xb5848dd9].

Definition message_1 : string := String.concat "" [
    "f4 5d 55 f3 55 51 e9 75 d6 a8 dc 7e a9 f4 88 59";
    "39 40 cc 75 69 4a 27 8f 27 e5 78 a1 63 d8 39 b3";
    "40 40 84 18 08 cf 9c 58 c9 b8 72 8b f5 f9 ce 8e";
    "e8 11 ea 91 71 4f 47 ba b9 2d 0f 6d 5a 26 fc fe";
    "ea 6c d9 3b 91 0c 0a 2c 96 3e 64 eb 18 23 f1 02";
    "75 3d 41 f0 33 59 10 ad 3a 97 71 04 f1 aa f6 c3";
    "74 27 16 a9 75 5d 11 b8 ee d6 90 47 7f 44 5c 5d";
    "27 20 8b 2e 28 43 30 fa 3d 30 14 23 fa 7f 2d 08";
    "6e 0a d0 b8 92 b9 db 54 4e 45 6d 3f 0d ab 85 d9";
    "53 c1 2d 34 0a a8 73 ed a7 27 c8 a6 49 db 7f a6";
    "37 40 e2 5e 9a f1 53 3b 30 7e 61 32 99 93 11 0e";
    "95 19 4e 03 93 99 c3 82 4d 24 c5 1f 22 b2 6b de";
    "10 24 cd 39 59 58 a2 df eb 48 16 a6 e8 ad ed b5";
    "0b 1f 6b 56 d0 b3 06 0f f0 f1 c4 cb 0d 0e 00 1d";
    "d5 9d 73 be 12"].

Definition signature_1 : string := String.concat "" [
    "30 44 02 20 43 18 fc eb 3b a8 3a a8 a3 cf 41 b7";
    "81 4a f9 01 e1 8b 6e 95 c1 3a 83 25 9e a5 2e 66";
    "7c 98 25 d9 02 20 54 f3 7f 5a e9 36 9c a2 f0 51";
    "e0 6e 78 48 60 a3 f9 8a d5 2c 37 5a 0a 29 c9 f7";
    "ea 57 7e 88 46 12"].

Definition message_2 : string := String.concat "" [
    "f4 5d 55 f3 55 51 e9 75 d6 a8 dc 7e a9 f4 88 59";
    "39 40 cc 75 69 4a 27 8f 27 e5 78 a1 63 d8 39 b3";
    "40 40 84 18 08 cf 9c 58 c9 b8 72 8b f5 f9 ce 8e";
    "e8 11 ea 91 71 4f 47 ba b9 2d 0f 6d 5a 26 fc fe";
    "ea 6c d9 3b 91 0c 0a 2c 96 3e 64 eb 18 23 f1 02";
    "75 3d 41 f0 33 59 10 ad 3a 97 71 04 f1 aa f6 c3";
    "74 27 16 a9 75 5d 11 b8 ee d6 90 47 7f 44 5c 5d";
    "27 20 8b 2e 28 43 30 fa 3d 30 14 23 fa 7f 2d 08";
    "6e 0a d0 b8 92 b9 db 54 4e 45 6d 3f 0d ab 85 d9";
    "53 c1 2d 34 0a a8 73 ed a7 27 c8 a6 49 db 7f a6";
    "37 40 e2 5e 9a f1 53 3b 30 7e 61 32 99 93 11 0e";
    "95 19 4e 03 93 99 c3 82 4d 24 c5 1f 22 b2 6b de";
    "10 24 cd 39 59 58 a2 df eb 48 16 a6 e8 ad ed b5";
    "0b 1f 6b 56 d0 b3 06 0f f0 f1 c4 cb 0d 0e 00 1d";
    "d5 9d 73 be 12"].

Definition signature_2 : string := String.concat "" [
    "30 46 02 21 00 43 18 fc eb 3b a8 3a a8 a3 cf 41 b7";
    "81 4a f9 01 e1 8b 6e 95 c1 3a 83 25 9e a5 2e 66";
    "7c 98 25 d9 02 21 00 54 f3 7f 5a e9 36 9c a2 f0 51";
    "e0 6e 78 48 60 a3 f9 8a d5 2c 37 5a 0a 29 c9 f7";
    "ea 57 7e 88 46 12"].

Definition message_3 : string := String.concat "" [
    "f4 5d 55 f3 55 51 e9 75 d6 a8 dc 7e a9 f4 88 59";
    "39 40 cc 75 69 4a 27 8f 27 e5 78 a1 63 d8 39 b3";
    "40 40 84 18 08 cf 9c 58 c9 b8 72 8b f5 f9 ce 8e";
    "e8 11 ea 91 71 4f 47 ba b9 2d 0f 6d 5a 26 fc fe";
    "ea 6c d9 3b 91 0c 0a 2c 96 3e 64 eb 18 23 f1 02";
    "75 3d 41 f0 33 59 10 ad 3a 97 71 04 f1 aa f6 c3";
    "74 27 16 a9 75 5d 11 b8 ee d6 90 47 7f 44 5c 5d";
    "27 20 8b 2e 28 43 30 fa 3d 30 14 23 fa 7f 2d 08";
    "6e 0a d0 b8 92 b9 db 54 4e 45 6d 3f 0d ab 85 d9";
    "53 c1 2d 34 0a a8 73 ed a7 27 c8 a6 49 db 7f a6";
    "37 40 e2 5e 9a f1 53 3b 30 7e 61 32 99 93 11 0e";
    "95 19 4e 03 93 99 c3 82 4d 24 c5 1f 22 b2 6b de";
    "10 24 cd 39 59 58 a2 df eb 48 16 a6 e8 ad ed b5";
    "0b 1f 6b 56 d0 b3 06 0f f0 f1 c4 cb 0d 0e 00 1d";
    "d5 9d 73 be 12"].

Definition signature_3 : string := String.concat "" [
    "30 4c 02 24 00 00 00 00 43 18 fc eb 3b a8 3a a8 a3 cf 41 b7";
    "81 4a f9 01 e1 8b 6e 95 c1 3a 83 25 9e a5 2e 66";
    "7c 98 25 d9 02 24 00 00 00 00 54 f3 7f 5a e9 36 9c a2 f0 51";
    "e0 6e 78 48 60 a3 f9 8a d5 2c 37 5a 0a 29 c9 f7";
    "ea 57 7e 88 46 12"].

Definition good_dsa_signature_1 : string := "30 0D 02 01 01 02 08 00 A5 55 5A 01 FF A5 01".

Definition good_dsa_signature_1_r : list Z :=
  [0x00000001; 0; 0; 0; 0; 0; 0; 0].

Definition good_dsa_signature_1_s : list Z :=
  [0x01FFA501; 0x00A5555A; 0; 0; 0; 0; 0; 0].

Definition bad_dsa_signature_1 : string := "a0 06 02 01 01 02 01 01".

Definition bad_dsa_signature_2 : string := "30 07 02 01 01 02 01 01".

Definition bad_dsa_signature_3 : string := "30 06 82 01 01 02 01 01".

Definition bad_dsa_signature_4 : string := "30 06 02 00 01 02 01 01".

Definition bad_dsa_signature_5 : string := "30 06 02 01 01 82 01 01".

Definition bad_dsa_signature_6 : string := "30 05 02 01 01 02 00".

Definition bad_dsa_signature_7 : string := "30 06 02 01 01 02 00 01".

(** ** main

    Its variables: the flag, what was printed, and [r] and [s]. *)
Record test_state := {
  success : bool;
  printed : list Z;
  sig_r : list Z;
  sig_s : list Z
}.

(** [printf("...%s\n", result ? yes : no)] and [success = success && ok]. *)
Definition report (text : string) (result : bool) (yes no : string) (ok : bool) (st : test_state) : test_state :=
  {| success := success st && ok;
     printed := printed st ++ bytes_of (text ++ (if result then yes else no)) ++ [10];
     sig_r := sig_r st; sig_s := sig_s st |}.

(** dsa_sig_unpack(_, _, &r, &s): the result, and [r] and [s] when it is 1. *)
Definition unpack (bytes : list Z) (st : test_state) : option (bool * test_state) :=
  unpacked ← dsa_sig_unpack bytes (Z.of_nat (length bytes));
  match unpacked with
  | Some (r, s) => Some (true, {| success := success st; printed := printed st; sig_r := r; sig_s := s |})
  | None => Some (false, st)
  end.

Definition CHECK_DSA_SIG (name sig : string) (good : bool) (st : test_state) : option test_state :=
  message ← parsehex (bytes_of sig);
  '(result, st) ← unpack message st;
  Some (report (name ++ ": ") result "good" "bad" (negb (xorb good result)) st).

Definition CHECK_GOOD_DSA_SIG (name sig : string) (r s : list Z) (st : test_state) : option test_state :=
  st ← CHECK_DSA_SIG name sig true st;
  let result := bool_decide (r = sig_r st) in
  let st := report "    R value " result "good" "bad" result st in
  let result := bool_decide (s = sig_s st) in
  Some (report "    S value " result "good" "bad" result st).

Definition CHECK_BAD_DSA_SIG (name sig : string) (st : test_state) : option test_state :=
  CHECK_DSA_SIG name sig false st.

Section Main.
(** The contents of the hash context before SHA256_init, and the bound on the
    iterations of the inverse. *)
Context (ctx : HASH_CTX) (fuel : nat).

Definition TEST_MESSAGE (name message signature : string) (st : test_state) : option test_state :=
  message ← parsehex (bytes_of message);
  let hash := p256_from_bin (SHA256_hash ctx message) in
  signature ← parsehex (bytes_of signature);
  '(result, st) ← unpack signature st;
  result ← (if (result : bool) then p256_ecdsa_verify fuel key_x key_y hash (sig_r st) (sig_s st) else Some result);
  Some (report ("message " ++ name ++ ": ") result "verified" "not verified" result st).

(** The text on the standard output and the exit status. *)
Definition ecdsa_test_main (r s : list Z) : option (list Z * Z) :=
  let st := {| success := true; printed := []; sig_r := r; sig_s := s |} in
  st ← CHECK_GOOD_DSA_SIG "good_dsa_signature_1" good_dsa_signature_1 good_dsa_signature_1_r good_dsa_signature_1_s st;
  st ← CHECK_BAD_DSA_SIG "bad_dsa_signature_1" bad_dsa_signature_1 st;
  st ← CHECK_BAD_DSA_SIG "bad_dsa_signature_2" bad_dsa_signature_2 st;
  st ← CHECK_BAD_DSA_SIG "bad_dsa_signature_3" bad_dsa_signature_3 st;
  st ← CHECK_BAD_DSA_SIG "bad_dsa_signature_4" bad_dsa_signature_4 st;
  st ← CHECK_BAD_DSA_SIG "bad_dsa_signature_5" bad_dsa_signature_5 st;
  st ← CHECK_BAD_DSA_SIG "bad_dsa_signature_6" bad_dsa_signature_6 st;
  st ← CHECK_BAD_DSA_SIG "bad_dsa_signature_7" bad_dsa_signature_7 st;
  st ← TEST_MESSAGE "1" message_1 signature_1 st;
  st ← TEST_MESSAGE "2" message_2 signature_2 st;
  st ← TEST_MESSAGE "3" message_3 signature_3 st;
  Some (printed st ++ [10] ++ bytes_of (if success st then "PASS" else "FAIL") ++ [10; 10],
        if success st then 0 else 1).
End Main.

(** * The signatures

    All messages are the same, and all signatures encode the same numbers. *)

Definition message_bytes : list Z := Eval vm_compute in default [] (parsehex (bytes_of message_1)).
Definition message_hash : list Z := Eval vm_compute in p256_from_bin (SHA256_hash zero_ctx message_bytes).
Definition message_r : list Z :=
  [0x7c9825d9; 0x9ea52e66; 0xc13a8325; 0xe18b6e95; 0x814af901; 0xa3cf41b7; 0x3ba83aa8; 0x4318fceb].
Definition message_s : list Z :=
  [0x7e884612; 0xc9f7ea57; 0x375a0a29; 0xf98ad52c; 0x784860a3; 0xf051e06e; 0xe9369ca2; 0x54f37f5a].

(** The private key of the comment, and the nonce of the signatures. *)
Definition private_key : positive := 0x3c3a522ce254c6e395f4a9380229036b5c2febf53a5ce764b9e969d3bc0468b5.
Definition nonce : positive := 0xdd97233bdd5cafafc45c125c7f360af6f319b0a0761c3f1963643ca8d8a9954a.
Definition nonce_y : Z := 0xb8482d33be20a79ede6e5d2e304e758b8ac2144dfef0c60e62c398f397163953.

Lemma key_is_public : coords (mul (Zpos private_key) g) = Some (eval key_x, eval key_y).
Proof. apply multiple_reduced_coords; vm_compute; (split; [discriminate|reflexivity]) || reflexivity. Qed.

Lemma nonce_point : coords (mul (Zpos nonce) g) = Some (eval message_r, nonce_y).
Proof. apply multiple_reduced_coords; vm_compute; (split; [discriminate|reflexivity]) || reflexivity. Qed.

Lemma message_signed : signs (Zpos private_key) (Zpos nonce) (eval message_hash) (eval message_r) (eval message_s).
Proof.
  split; [split; vm_compute; reflexivity|]. split; [vm_compute; discriminate|]. split.
  - apply eqm_eq; [discriminate|]. vm_compute. reflexivity.
  - unfold abscissa, affine_of. rewrite nonce_point. vm_compute. reflexivity.
Qed.

Lemma message_verified fuel :
  (1024 <= fuel)%nat -> p256_ecdsa_verify fuel key_x key_y message_hash message_r message_s = Some true.
Proof.
  intros Hf. assert (p256_is_valid_point key_x key_y = Some true) as Hv by (vm_compute; reflexivity).
  destruct (verify_accepts fuel (mul (Zpos private_key) g) key_x key_y message_hash message_r message_s
    ltac:(prove_ok) ltac:(prove_ok) ltac:(prove_ok) ltac:(prove_ok) ltac:(prove_ok) Hf Hv key_is_public) as (b & E & Hb).
  rewrite E. f_equal. apply Hb, accepts_signs. exists (Zpos nonce). exact message_signed.
Qed.

Lemma test_message ctx fuel name message signature bytes st :
  ctx_ok ctx -> (1024 <= fuel)%nat -> parsehex (bytes_of message) = Some message_bytes ->
  parsehex (bytes_of signature) = Some bytes ->
  dsa_sig_unpack bytes (Z.of_nat (length bytes)) = Some (Some (message_r, message_s)) ->
  TEST_MESSAGE ctx fuel name message signature st
  = Some (report ("message " ++ name ++ ": ") true "verified" "not verified" true
      {| success := success st; printed := printed st; sig_r := message_r; sig_s := message_s |}).
Proof.
  intros Hc Hf Em Es Eu. unfold TEST_MESSAGE, unpack. rewrite Em. cbn [mbind option_bind].
  rewrite Es. cbn [mbind option_bind]. rewrite Eu. cbn [mbind option_bind sig_r sig_s].
  assert (p256_from_bin (SHA256_hash ctx message_bytes) = message_hash) as ->.
  { assert (Forall (is_word 8) message_bytes) as Hw by (apply (bool_decide_unpack _); vm_compute; exact I).
    rewrite SHA256_hash_spec by assumption. rewrite <- (SHA256_hash_spec zero_ctx) by (apply zero_ctx_ok || assumption).
    vm_compute. reflexivity. }
  rewrite message_verified by exact Hf. reflexivity.
Qed.

Lemma bad_signature name sig bytes st :
  parsehex (bytes_of sig) = Some bytes -> dsa_sig_unpack bytes (Z.of_nat (length bytes)) = Some None ->
  CHECK_BAD_DSA_SIG name sig st = Some (report (name ++ ": ") false "good" "bad" true st).
Proof.
  intros Ep Eu. unfold CHECK_BAD_DSA_SIG, CHECK_DSA_SIG, unpack. rewrite Ep. cbn [mbind option_bind]. by rewrite Eu.
Qed.

Lemma good_signature r s :
  CHECK_GOOD_DSA_SIG "good_dsa_signature_1" good_dsa_signature_1 good_dsa_signature_1_r good_dsa_signature_1_s
    {| success := true; printed := []; sig_r := r; sig_s := s |}
  = Some (report "    S value " true "good" "bad" true
      (report "    R value " true "good" "bad" true
        (report "good_dsa_signature_1: " true "good" "bad" true
          {| success := true; printed := []; sig_r := good_dsa_signature_1_r; sig_s := good_dsa_signature_1_s |}))).
Proof. vm_compute. reflexivity. Qed.

(** * Theorems *)

Definition passed : list string := [
  "good_dsa_signature_1: good"; "    R value good"; "    S value good";
  "bad_dsa_signature_1: bad"; "bad_dsa_signature_2: bad"; "bad_dsa_signature_3: bad"; "bad_dsa_signature_4: bad";
  "bad_dsa_signature_5: bad"; "bad_dsa_signature_6: bad"; "bad_dsa_signature_7: bad";
  "message 1: verified"; "message 2: verified"; "message 3: verified"; ""; "PASS"; ""].

(** C27.  The test program passes: every malformed signature is refused, the
    well-formed one gives its numbers, and the three signatures are verified,
    whatever the uninitialised variables hold. *)
Theorem ecdsa_test_passes ctx fuel r s :
  ctx_ok ctx -> (1024 <= fuel)%nat ->
  ecdsa_test_main ctx fuel r s = Some (flat_map (fun line => bytes_of line ++ [10]) passed, 0).
Proof.
  intros Hc Hf. unfold ecdsa_test_main. cbv zeta. rewrite good_signature. cbn [mbind option_bind].
  do 7 (erewrite bad_signature; [|vm_compute; reflexivity|vm_compute; reflexivity]; cbn [mbind option_bind]).
  do 3 (erewrite test_message; [|exact Hc|exact Hf|vm_compute; reflexivity|vm_compute; reflexivity|vm_compute; reflexivity]; cbn [mbind option_bind]).
  vm_compute. reflexivity.
Qed.

Lemma ecdsa_test_passes_witness :
  ctx_ok zero_ctx /\ ecdsa_test_main zero_ctx 1024 [] [] = Some (flat_map (fun line => bytes_of line ++ [10]) passed, 0).
Proof. split; [exact zero_ctx_ok|]. apply (ecdsa_test_passes zero_ctx 1024 [] []); [exact zero_ctx_ok|lia]. Defined.
