(* ===== verification/Arc4.v ===== *)
(** * The stream cipher of cc/akb_cc.c: stte_0, key, arc4

    The same three functions are in the program text [RTC] that akb_cc writes
    into its output.  The state is the four static variables; bytes are
    integers from 0 to 255. *)
From S2P Require Import Prelude.

Record arc4_state : Type := Arc4State { stte : list Z; indx : Z; jndx : Z; kndx : Z }.

(** [tmp = stte[i]; stte[i] = stte[k]; stte[k] = tmp;] *)
Definition swap (i k : Z) (s : list Z) : list Z :=
  let tmp := s !!! Z.to_nat i in
  <[Z.to_nat k := tmp]> (<[Z.to_nat i := s !!! Z.to_nat k]> s).

(** [do { stte[indx] = indx; } while (++indx);] from [indx = 0] on: the index
    has wrapped when the loop ends. *)
Definition stte_0 (st : arc4_state) : arc4_state :=
  Arc4State (for_ 0 256 (fun i s => <[i := Z.of_nat i]> s) (stte st)) 0 0 0.

(** The body of the inner loop of [key]. *)
Definition key_step (str : list Z) (len : Z) (st : arc4_state) : arc4_state :=
  let tmp := stte st !!! Z.to_nat (indx st) in
  let k := u8 (kndx st + tmp) in
  let k := u8 (k + str !!! Z.to_nat (indx st mod len)) in
  Arc4State (swap (indx st) k (stte st)) (u8 (indx st + 1)) (jndx st) k.

(** [do ... while (++indx)]: up to the end of the table. *)
Definition key_row (str : list Z) (len : Z) (st : arc4_state) : arc4_state :=
  for_ 0 (Z.to_nat (256 - indx st)) (fun _ => key_step str len) st.

(** [while (len > 0)], cut after [fuel] rounds; [str] is what is left. *)
Fixpoint key_loop (fuel : nat) (str : list Z) (len : Z) (st : arc4_state) : arc4_state :=
  match fuel with
  | O => st
  | S fuel => if 0 <? len then key_loop fuel (drop 256 str) (len - 256) (key_row str len st) else st
  end.

Definition key (str : list Z) (st : arc4_state) : arc4_state :=
  key_loop (length str) str (Z.of_nat (length str)) st.

(** One round of [arc4]: the new state and the byte [*ptr] is combined with. *)
Definition arc4_step (st : arc4_state) : arc4_state * Z :=
  let i := u8 (indx st + 1) in
  let tmp := stte st !!! Z.to_nat i in
  let j := u8 (jndx st + tmp) in
  let s := swap i j (stte st) in
  let tmp := u8 (tmp + s !!! Z.to_nat i) in
  (Arc4State s i j (kndx st), s !!! Z.to_nat tmp).

Fixpoint arc4 (str : list Z) (st : arc4_state) : list Z * arc4_state :=
  match str with
  | [] => ([], st)
  | b :: str =>
      let '(st, k) := arc4_step st in
      let '(out, st) := arc4 str st in
      ((b .^ k) :: out, st)
  end.

(** * The invariant *)

(** The table is a permutation of the bytes, and the indices are bytes. *)
Definition bytes256 : list Z := map Z.of_nat (seq 0 256).
Record arc4_ok (st : arc4_state) : Prop := {
  ok_stte : stte st ≡ₚ bytes256;
  ok_indx : is_word 8 (indx st);
  ok_jndx : is_word 8 (jndx st);
  ok_kndx : is_word 8 (kndx st);
}.

(** ** Exchanges *)

Lemma swap_length i k s : length (swap i k s) = length s.
Proof. unfold swap. by rewrite !length_insert. Qed.

Definition transpose (i k n : nat) : nat :=
  if decide (n = k) then i else if decide (n = i) then k else n.

Lemma swap_lookup i k s n :
  (Z.to_nat i < length s)%nat -> (Z.to_nat k < length s)%nat ->
  swap i k s !! n = s !! transpose (Z.to_nat i) (Z.to_nat k) n.
Proof.
  intros Hi Hk. unfold swap, transpose. destruct (decide (n = Z.to_nat k)) as [->|Hn].
  - rewrite list_lookup_insert_eq by by rewrite length_insert. symmetry. by apply list_lookup_lookup_total_lt.
  - rewrite list_lookup_insert_ne by done. destruct (decide (n = Z.to_nat i)) as [->|Hn'].
    + rewrite list_lookup_insert_eq by done. symmetry. by apply list_lookup_lookup_total_lt.
    + by rewrite list_lookup_insert_ne.
Qed.

Lemma swap_perm i k s :
  (Z.to_nat i < length s)%nat -> (Z.to_nat k < length s)%nat -> swap i k s ≡ₚ s.
Proof.
  intros Hi Hk. apply Permutation_inj. split; [apply swap_length|].
  exists (transpose (Z.to_nat i) (Z.to_nat k)). split.
  - intros x y. unfold transpose. repeat case_decide; congruence.
  - intros n. by apply swap_lookup.
Qed.

Lemma perm_length s : s ≡ₚ bytes256 -> length s = 256%nat.
Proof. intros H. by rewrite H. Qed.

Lemma byte_index x s : is_word 8 x -> s ≡ₚ bytes256 -> (Z.to_nat x < length s)%nat.
Proof. intros Hx Hs. rewrite (perm_length s Hs). unfold is_word in Hx. lia. Qed.

Lemma perm_lookup s n : s ≡ₚ bytes256 -> (n < 256)%nat -> is_word 8 (s !!! n).
Proof.
  intros Hs Hn. assert (s !!! n ∈ s) as H.
  { apply list_elem_of_lookup_total_2. by rewrite (perm_length s Hs). }
  revert H. generalize (s !!! n). intros v H. rewrite Hs in H. unfold bytes256 in H. apply list_elem_of_In, in_map_iff in H as (x & <- & Hx%in_seq).
  unfold is_word. lia.
Qed.

(** ** The invariant is established and kept *)

Lemma stte_0_bytes s : length s = 256%nat -> for_ 0 256 (fun i s => <[i := Z.of_nat i]> s) s = bytes256.
Proof. intros Hs. do 256 (destruct s as [|? s]; [discriminate Hs|]). destruct s; [|discriminate Hs]. reflexivity. Qed.

Lemma stte_0_ok st : length (stte st) = 256%nat -> arc4_ok (stte_0 st).
Proof. intros H. split; unfold stte_0; cbn [stte indx jndx kndx]; [|done..]. by rewrite stte_0_bytes. Qed.

Lemma key_step_ok str len st : arc4_ok st -> arc4_ok (key_step str len st).
Proof.
  intros [Hs Hi Hj Hk]. split; unfold key_step; cbn [stte indx jndx kndx]; [|apply u8_range|done|apply u8_range].
  rewrite swap_perm; [done|by apply byte_index|apply byte_index; [apply u8_range|done]].
Qed.

Lemma key_row_ok str len st : arc4_ok st -> arc4_ok (key_row str len st).
Proof.
  intros H. unfold key_row. apply (for_inv (fun _ st => arc4_ok st)); [done|]. intros i s _ Hs. by apply key_step_ok.
Qed.

Lemma key_loop_ok fuel str len st : arc4_ok st -> arc4_ok (key_loop fuel str len st).
Proof.
  revert str len st. induction fuel as [|fuel IH]; intros str len st H; cbn [key_loop]; [done|].
  case_match; [|done]. by apply IH, key_row_ok.
Qed.

Lemma key_ok str st : arc4_ok st -> arc4_ok (key str st).
Proof. apply key_loop_ok. Qed.

Lemma arc4_step_ok st st' k : arc4_ok st -> arc4_step st = (st', k) -> arc4_ok st' /\ is_word 8 k.
Proof.
  intros [Hs Hi Hj Hk]. unfold arc4_step. cbv zeta. intros [= <- <-].
  assert (swap (u8 (indx st + 1)) (u8 (jndx st + stte st !!! Z.to_nat (u8 (indx st + 1)))) (stte st) ≡ₚ bytes256) as Hp.
  { rewrite swap_perm; [done|apply byte_index; [apply u8_range|done]..]. }
  split; [split; cbn [stte indx jndx kndx]; [done|apply u8_range|apply u8_range|done]|].
  apply perm_lookup; [done|]. pose proof (u8_range (stte st !!! Z.to_nat (u8 (indx st + 1))
    + swap (u8 (indx st + 1)) (u8 (jndx st + stte st !!! Z.to_nat (u8 (indx st + 1)))) (stte st)
      !!! Z.to_nat (u8 (indx st + 1)))) as H. unfold is_word in H. lia.
Qed.

Lemma arc4_ok_bytes str st out st' :
  arc4_ok st -> words 8 str -> arc4 str st = (out, st') -> arc4_ok st' /\ words 8 out /\ length out = length str.
Proof.
  revert st out st'. induction str as [|b str IH]; intros st out st' H Hw; cbn [arc4].
  - intros [= <- <-]. by split_and!.
  - destruct (arc4_step st) as [st1 k] eqn:E1. destruct (arc4 str st1) as [out1 st2] eqn:E2. intros [= <- <-].
    apply Forall_cons in Hw as [Hb Hw]. destruct (arc4_step_ok _ _ _ H E1) as [H1 Hk].
    destruct (IH _ _ _ H1 Hw E2) as (H2 & Ho & Hl).
    split_and!; [done| |cbn [length]; by rewrite Hl]. constructor; [by apply is_word_lxor|done].
Qed.

(** ** Encryption is an exclusive or with a key stream *)

Fixpoint key_stream (n : nat) (st : arc4_state) : list Z * arc4_state :=
  match n with
  | O => ([], st)
  | S n =>
      let '(st, k) := arc4_step st in
      let '(ks, st) := key_stream n st in
      (k :: ks, st)
  end.

Lemma arc4_key_stream str st :
  arc4 str st = (zip_with Z.lxor str (fst (key_stream (length str) st)), snd (key_stream (length str) st)).
Proof.
  revert st. induction str as [|b str IH]; intros st; cbn [arc4 key_stream length zip_with]; [done|].
  destruct (arc4_step st) as [st1 k]. rewrite IH. by destruct (key_stream (length str) st1) as [ks st2].
Qed.

Lemma key_stream_length n st : length (fst (key_stream n st)) = n.
Proof.
  revert st. induction n as [|n IH]; intros st; cbn [key_stream]; [done|]. destruct (arc4_step st) as [st1 k].
  specialize (IH st1). destruct (key_stream n st1) as [ks st2]. cbn [fst length] in *. by rewrite IH.
Qed.

(** The state afterwards depends on the number of bytes only. *)
Lemma arc4_state_length str str' st : length str = length str' -> snd (arc4 str st) = snd (arc4 str' st).
Proof. intros H. by rewrite !arc4_key_stream, H. Qed.

Lemma arc4_length str st : length (fst (arc4 str st)) = length str.
Proof. rewrite arc4_key_stream. cbn [fst]. rewrite length_zip_with, key_stream_length. lia. Qed.

(** Decryption is encryption. *)
Lemma arc4_involutive str st out st' : arc4 str st = (out, st') -> arc4 out st = (str, st').
Proof.
  intros H. assert (length out = length str) as Hl by by rewrite <- (arc4_length str st), H.
  rewrite arc4_key_stream in H. injection H as <- <-. rewrite arc4_key_stream, Hl. f_equal.
  pose proof (key_stream_length (length str) st) as Hk. revert Hk. generalize (fst (key_stream (length str) st)).
  clear. induction str as [|b str IH]; intros [|k ks] Hk; try done.
  cbn [zip_with]. rewrite IH by by injection Hk. by rewrite Z.lxor_assoc, Z.lxor_nilpotent, Z.lxor_0_r.
Qed.

(** ** RC4, on permutations as functions *)

Definition exchange (S : Z -> Z) (i j : Z) : Z -> Z := fun x => if x =? j then S i else if x =? i then S j else S x.

(** Key scheduling. *)
Definition rc4_schedule (k : list Z) : (Z -> Z) * Z :=
  for_ 0 256 (fun n st =>
    let '(perm, j) := st in
    let i := Z.of_nat n in
    let j := (j + perm i + k !!! (n mod length k)%nat) mod 256 in
    (exchange perm i j, j)) (fun x => x, 0).

(** Generation. *)
Fixpoint rc4_stream (n : nat) (S : Z -> Z) (i j : Z) : list Z :=
  match n with
  | O => []
  | Datatypes.S n =>
      let i := (i + 1) mod 256 in
      let j := (j + S i) mod 256 in
      let S := exchange S i j in
      S ((S i + S j) mod 256) :: rc4_stream n S i j
  end.

Definition rc4 (k msg : list Z) : list Z :=
  zip_with Z.lxor msg (rc4_stream (length msg) (fst (rc4_schedule k)) 0 0).

(** The table [s] holds the permutation [S]. *)
Definition table (s : list Z) (S : Z -> Z) : Prop :=
  length s = 256%nat /\ forall i, is_word 8 i -> s !!! Z.to_nat i = S i /\ is_word 8 (S i).

Lemma table_swap s S i j :
  table s S -> is_word 8 i -> is_word 8 j -> table (swap i j s) (exchange S i j).
Proof.
  intros [Hl Hs] Hi Hj. pose proof (Hs i Hi) as [Ei Bi]. pose proof (Hs j Hj) as [Ej Bj]. split; [by rewrite swap_length|].
  intros x Hx. pose proof (Hs x Hx) as [Ex Bx]. unfold is_word in Hi, Hj, Hx.
  assert (swap i j s !!! Z.to_nat x = s !!! transpose (Z.to_nat i) (Z.to_nat j) (Z.to_nat x)) as ->.
  { rewrite !list_lookup_total_alt, swap_lookup by lia. done. }
  unfold transpose, exchange.
  destruct (Z.eqb_spec x j) as [->|Hn]; [by rewrite decide_True|]. rewrite decide_False by lia.
  destruct (Z.eqb_spec x i) as [->|Hn']; [by rewrite decide_True|]. by rewrite decide_False by lia.
Qed.

Lemma mod_u8 x : x mod 256 = u8 x.
Proof. by rewrite u8_mod. Qed.

Lemma table_bytes : table bytes256 (fun x => x).
Proof.
  split; [reflexivity|]. intros i Hi. split; [|done]. unfold is_word in Hi. unfold bytes256.
  rewrite (list_lookup_total_fmap Z.of_nat (seq 0 256)) by (rewrite length_seq; lia).
  rewrite lookup_total_seq_lt by lia. lia.
Qed.

(** [key] after [stte_0], for a key of at most 256 bytes, is the key schedule. *)
Lemma key_schedule k st :
  length (stte st) = 256%nat -> (0 < length k <= 256)%nat -> words 8 k ->
  indx (key k (stte_0 st)) = 0 /\ jndx (key k (stte_0 st)) = 0
  /\ table (stte (key k (stte_0 st))) (fst (rc4_schedule k)).
Proof.
  intros Hst Hk Hw. unfold key. destruct (length k) as [|m] eqn:El; [lia|].
  cbn [key_loop]. rewrite (proj2 (Z.ltb_lt _ _)) by lia.
  assert (forall fuel st, key_loop fuel (drop 256 k) (Z.of_nat (S m) - 256) st = st) as Hend.
  { intros [|fuel] st'; cbn [key_loop]; [done|]. by rewrite (proj2 (Z.ltb_ge _ _)) by lia. }
  rewrite Hend. unfold key_row, rc4_schedule. change (Z.to_nat (256 - indx (stte_0 st))) with 256%nat. rewrite El.
  set (P (i : nat) (a : arc4_state) (b : (Z -> Z) * Z) := indx a = Z.of_nat i mod 256 /\ jndx a = 0
    /\ kndx a = snd b /\ is_word 8 (snd b) /\ table (stte a) (fst b)).
  match goal with |- indx (for_ 0 256 ?f ?a) = 0 /\ _ /\ table _ (fst (for_ 0 256 ?g ?b)) =>
    assert (forall n, (n <= 256)%nat -> P n (for_ 0 n f a) (for_ 0 n g b)) as HP end.
  2: { destruct (HP 256%nat ltac:(lia)) as (H1 & H2 & _ & _ & H3). done. }
  induction n as [|n IH]; intros Hn.
  - cbn [for_]. unfold P, stte_0. cbn [indx jndx kndx stte fst snd]. rewrite stte_0_bytes by done.
    split_and!; [done..|apply table_bytes].
  - rewrite !for_last, Nat.add_0_l. specialize (IH ltac:(lia)).
    destruct (for_ 0 n _ _) as [s i j kk]. destruct (for_ 0 n _ (_, 0)) as [S jj]. unfold P in *.
    cbn [indx jndx kndx stte fst snd] in IH. destruct IH as (Ei & Ej & -> & Bj & Ht).
    rewrite Z.mod_small in Ei by lia. subst i j. unfold key_step. cbn [indx jndx kndx stte fst snd].
    assert (is_word 8 (Z.of_nat n)) as Bn by (unfold is_word; lia).
    destruct (proj2 Ht _ Bn) as [-> _].
    replace (Z.to_nat (Z.of_nat n mod Z.of_nat (Datatypes.S m))) with (n mod Datatypes.S m)%nat
      by (rewrite <- Nat2Z.inj_mod; lia).
    assert (u8 (u8 (jj + S (Z.of_nat n)) + k !!! (n mod Datatypes.S m)%nat)
      = (jj + S (Z.of_nat n) + k !!! (n mod Datatypes.S m)%nat) mod 256) as ->.
    { rewrite !u8_mod. change (2 ^ 8) with 256. by rewrite Zplus_mod_idemp_l. }
    assert (is_word 8 ((jj + S (Z.of_nat n) + k !!! (n mod Datatypes.S m)%nat) mod 256)) as Bk
      by by apply Z.mod_pos_bound.
    split_and!; [|done|done|done|].
    + rewrite u8_mod. f_equal. lia.
    + by apply table_swap.
Qed.

Lemma stream_refines n st S :
  table (stte st) S -> is_word 8 (indx st) -> is_word 8 (jndx st) ->
  fst (key_stream n st) = rc4_stream n S (indx st) (jndx st).
Proof.
  revert st S. induction n as [|n IH]; intros st S Ht Hi Hj; cbn [key_stream rc4_stream]; [done|].
  destruct (arc4_step st) as [st1 k] eqn:E. unfold arc4_step in E. cbv zeta in E. injection E as <- <-.
  rewrite !mod_u8. pose proof (u8_range (indx st + 1)) as Bi. set (i := u8 (indx st + 1)) in *.
  destruct (proj2 Ht i Bi) as [-> _]. pose proof (u8_range (jndx st + S i)) as Bj. set (j := u8 (jndx st + S i)) in *.
  pose proof (table_swap _ _ _ _ Ht Bi Bj) as Ht'.
  specialize (IH (Arc4State (swap i j (stte st)) i j (kndx st)) (exchange S i j) Ht' Bi Bj).
  destruct (key_stream n _) as [ks st2]. cbn [fst indx jndx] in *. rewrite IH. f_equal.
  destruct (proj2 Ht' i Bi) as [Ei _].
  assert (exchange S i j j = S i) as Ex. { unfold exchange. by rewrite Z.eqb_refl. }
  rewrite Ei, Ex, (Z.add_comm (S i)).
  destruct (proj2 Ht' (u8 (exchange S i j i + S i)) (u8_range _)) as [E _]. exact E.
Qed.

(** * Theorems *)

(** C29.  [key] with a key of 1 to 256 bytes after [stte_0], and then [arc4],
    is RC4 with that key. *)
Theorem arc4_is_rc4 k msg st :
  length (stte st) = 256%nat -> (0 < length k <= 256)%nat -> words 8 k ->
  fst (arc4 msg (key k (stte_0 st))) = rc4 k msg.
Proof.
  intros Hst Hk Hw. destruct (key_schedule k st Hst Hk Hw) as (Hi & Hj & Ht).
  rewrite arc4_key_stream. cbn [fst]. unfold rc4. f_equal. rewrite <- Hi at 1. rewrite <- Hj.
  apply stream_refines; [done|by rewrite Hi|by rewrite Hj].
Qed.

(** The known answer for the key "Key" and the text "Plaintext". *)
Lemma arc4_is_rc4_witness :
  rc4 [75; 101; 121] [80; 108; 97; 105; 110; 116; 101; 120; 116] = [187; 243; 22; 232; 217; 64; 175; 10; 211].
Proof.
  rewrite <- (arc4_is_rc4 [75; 101; 121] [80; 108; 97; 105; 110; 116; 101; 120; 116] (Arc4State bytes256 0 0 0)).
  - vm_compute. reflexivity.
  - reflexivity.
  - cbn. lia.
  - repeat apply Forall_cons_2; try apply Forall_nil_2; split; (discriminate || reflexivity).
Defined.

(** C33.  The invariant of the cipher: [stte_0] establishes, whatever the state
    before, that the table is a permutation of the 256 bytes and the indices
    are bytes; [key] and [arc4] keep it; and [arc4] turns bytes into as many
    bytes, which [arc4] from the same state turns back. *)
Theorem arc4_invariant st str :
  (length (stte st) = 256%nat -> arc4_ok (stte_0 st))
  /\ (arc4_ok st -> arc4_ok (key str st))
  /\ (arc4_ok st -> words 8 str -> forall out st', arc4 str st = (out, st') ->
      arc4_ok st' /\ words 8 out /\ length out = length str /\ arc4 out st = (str, st')).
Proof.
  split; [apply stte_0_ok|]. split; [apply key_ok|]. intros H Hw out st' E.
  destruct (arc4_ok_bytes _ _ _ _ H Hw E) as (H1 & H2 & H3). split_and!; [done..|]. by apply arc4_involutive.
Qed.

Lemma arc4_invariant_witness :
  arc4_ok (stte_0 (Arc4State (replicate 256 7) 1 2 3))
  /\ exists out st', arc4 [1; 2] (Arc4State bytes256 0 0 0) = (out, st') /\ arc4 out (Arc4State bytes256 0 0 0) = ([1; 2], st').
Proof.
  split.
  - apply (proj1 (arc4_invariant (Arc4State (replicate 256 7) 1 2 3) [])). reflexivity.
  - destruct (arc4 [1; 2] (Arc4State bytes256 0 0 0)) as [out st'] eqn:E. exists out, st'. split; [reflexivity|].
    apply (proj2 (proj2 (arc4_invariant (Arc4State bytes256 0 0 0) [1; 2]))); [|repeat constructor; discriminate|exact E].
    split; [reflexivity|split; (discriminate || reflexivity)..].
Defined.
