(* ===== verification/AkbOpts.v ===== *)
(** * akb_cc: options, the script and its first line (cc/akb_cc.c)

    The static variables of the program as a record, the parser of the command
    line, read_script and eval_shell.  Strings are lists of bytes without the
    terminating NUL.  What goes to the standard error is modelled for the
    options that only print, not for warnings and [verbose] traces. *)
From S2P Require Import Prelude Libc.
From Stdlib Require Import Ascii.

Record globals : Type := Globals {
  file : option (list Z);
  file2 : option (list Z);
  date : list Z;
  mail : list Z;
  rlax : Z;
  shll : option (list Z);
  inlo : option (list Z);
  xecc : option (list Z);
  lsto : option (list Z);
  opts : option (list Z);
  verbose : Z;
  DEBUGEXEC_flag : Z;
  TRACEABLE_flag : Z;
  BUSYBOXON_flag : Z;
}.

Definition globals_init : globals :=
  Globals None None [] (bytes_of "Please contact your provider") 0 None None None None None 0 0 1 0.

Definition set_date d g := let '(Globals f f2 _ m r s i x l o v D T B) := g in Globals f f2 d m r s i x l o v D T B.
Definition set_mail m g := let '(Globals f f2 d _ r s i x l o v D T B) := g in Globals f f2 d m r s i x l o v D T B.
Definition set_file f g := let '(Globals _ f2 d m r s i x l o v D T B) := g in Globals (Some f) f2 d m r s i x l o v D T B.
Definition set_file2 f2 g := let '(Globals f _ d m r s i x l o v D T B) := g in Globals f (Some f2) d m r s i x l o v D T B.
Definition set_rlax r g := let '(Globals f f2 d m _ s i x l o v D T B) := g in Globals f f2 d m r s i x l o v D T B.
Definition set_shll s g := let '(Globals f f2 d m r _ i x l o v D T B) := g in Globals f f2 d m r (Some s) i x l o v D T B.
Definition set_inlo i g := let '(Globals f f2 d m r s _ x l o v D T B) := g in Globals f f2 d m r s (Some i) x l o v D T B.
Definition set_xecc x g := let '(Globals f f2 d m r s i _ l o v D T B) := g in Globals f f2 d m r s i (Some x) l o v D T B.
Definition set_lsto l g := let '(Globals f f2 d m r s i x _ o v D T B) := g in Globals f f2 d m r s i x (Some l) o v D T B.
Definition set_opts o g := let '(Globals f f2 d m r s i x l _ v D T B) := g in Globals f f2 d m r s i x l (Some o) v D T B.
Definition set_verbose v g := let '(Globals f f2 d m r s i x l o _ D T B) := g in Globals f f2 d m r s i x l o v D T B.
Definition set_DEBUGEXEC D g := let '(Globals f f2 d m r s i x l o v _ T B) := g in Globals f f2 d m r s i x l o v D T B.
Definition set_TRACEABLE T g := let '(Globals f f2 d m r s i x l o v D _ B) := g in Globals f f2 d m r s i x l o v D T B.
Definition set_BUSYBOXON B g := let '(Globals f f2 d m r s i x l o v D T _) := g in Globals f f2 d m r s i x l o v D T B.

(** ** Texts; a backquote in a string stands for a double quote *)

Definition text_of (s : string) : list Z := map (fun b => if b =? 96 then 34 else b) (bytes_of s).

Definition my_name := text_of "akb_cc".
Definition version := text_of "Version 1.2.0".
Definition subject := text_of "AKB Binary builder".
Definition cpright := text_of "Copyright (c) 2018".
Definition author_f := text_of "Dmitry".
Definition author_s := text_of "Fuldaros".
Definition author_e := text_of "<litefros@gmail.com>".

Definition copying : list (list Z) := map text_of [
"Copying:";
"";
"    This program is free software; you can redistribute it and/or modify";
"    it under the terms of the GNU General Public License as published by";
"    the Free Software Foundation; either version 2 of the License, or";
"    (at your option) any later version.";
"";
"    This program is distributed in the hope that it will be useful,";
"    but WITHOUT ANY WARRANTY; without even the implied warranty of";
"    MERCHANTABILITY or FITNESS FOR A PARTICULAR PURPOSE.  See the";
"    GNU General Public License for more details.";
"";
"    You should have received a copy of the GNU General Public License";
"    along with this program; if not, write to the Free Software";
"    Foundation, Inc., 675 Mass Ave, Cambridge, MA 02139, USA.";
"";
"    Report problems and questions to:";
""]%string.

Definition abstract : list (list Z) := map text_of [
"Abstract:";
"";
"    This tool generates AKB binary :3.";
""]%string.

Definition usage : list Z := text_of
"Usage: akb_cc [-e date] [-m addr] [-i iopt] [-x cmnd] [-l lopt] [-rvDTCAh] -f script".

Definition help : list (list Z) := map text_of [
"";
"    -e %s  Expiration date in dd/mm/yyyy format [none]";
"    -m %s  Message to display upon expiration [`Please contact your provider`]";
"    -f %s  File name of the script to compile";
"    -i %s  Inline option for the shell interpreter i.e: -e";
"    -x %s  eXec command, as a printf format i.e: exec('%s',@ARGV);";
"    -l %s  Last shell option i.e: --";
"    -r     Relax security. Make a redistributable binary";
"    -v     Verbose compilation";
"    -D     Switch ON debug exec calls [OFF]";
"    -T     Allow binary to be traceable [no]";
"    -C     Display license and exit";
"    -A     Display abstract and exit";
"    -h     Display help and exit";
"";
"    Environment variables used:";
"    Name    Default  Usage";
"    CC      cc       C compiler command";
"    CFLAGS  <none>   C compiler flags";
"";
"    Please consult the akb_cc(1) man page.";
""]%string.

(** ** getopt(3)

    The results of the calls in order: the character returned and [optarg].
    An unknown option and a missing argument are ['?'].  The scan stops at
    ["--"].  At an argument that is not an option it stops too (POSIX), or
    moves it behind the options ([reorder], the GNU C library). *)

Definition chr (c : ascii) : Z := Libc.byte_of_ascii c.

(** Whether an option character is listed, and takes an argument. *)
Fixpoint opt_kind (optstring : list Z) (c : Z) : option bool :=
  match optstring with
  | [] => None
  | o :: rest =>
      if (o =? c) && negb (c =? chr ":") then
        Some (match rest with a :: _ => a =? chr ":" | [] => false end)
      else opt_kind rest c
  end.

(** The options of one argument, and the arguments after it. *)
Fixpoint scan_cluster (optstring cluster : list Z) (argv : list (list Z)) : list (Z * list Z) * list (list Z) :=
  match cluster with
  | [] => ([], argv)
  | c :: cluster =>
      match opt_kind optstring c with
      | None => let '(rs, argv) := scan_cluster optstring cluster argv in ((chr "?", []) :: rs, argv)
      | Some false => let '(rs, argv) := scan_cluster optstring cluster argv in ((c, []) :: rs, argv)
      | Some true =>
          match cluster, argv with
          | _ :: _, _ => ([(c, cluster)], argv)
          | [], arg :: argv => ([(c, arg)], argv)
          | [], [] => ([(chr "?", [])], [])
          end
      end
  end.

(** The results, the arguments that are options and what belongs to them, and
    the other arguments. *)
Fixpoint getopt_loop (reorder : bool) (fuel : nat) (optstring : list Z) (argv : list (list Z))
    : list (Z * list Z) * list (list Z) * list (list Z) :=
  match fuel, argv with
  | S fuel, arg :: rest =>
      match arg with
      | 45 :: (c :: _) as cluster =>
          if bool_decide (cluster = [45]) then ([], [arg], rest)
          else
            let '(rs, rest') := scan_cluster optstring cluster rest in
            let '(rs', options, operands) := getopt_loop reorder fuel optstring rest' in
            (rs ++ rs', arg :: take (length rest - length rest') rest ++ options, operands)
      | _ =>
          if reorder then
            let '(rs, options, operands) := getopt_loop reorder fuel optstring rest in (rs, options, arg :: operands)
          else ([], [], argv)
      end
  | _, _ => ([], [], argv)
  end.

(** The results on [argv] without the program name, and how it leaves [argv]. *)
Definition getopt (reorder : bool) (optstring : list Z) (argv : list (list Z)) : list (Z * list Z) * list (list Z) :=
  let '(rs, options, operands) := getopt_loop reorder (length argv) optstring argv in (rs, options ++ operands).

(** ** sscanf(optarg, "%2d/%2d/%4d%c", ...) *)

(** [%<w>d]: blanks, a sign, digits; sign and digits are at most [w] characters. *)
Fixpoint take_digits (w : nat) (l : list Z) : list Z * list Z :=
  match w, l with
  | S w, b :: l' => if isdigit b then let '(ds, r) := take_digits w l' in (b :: ds, r) else ([], l)
  | _, _ => ([], l)
  end.

Definition scan_int (w : nat) (l : list Z) : option (Z * list Z) :=
  let l := skip_spaces l in
  let '(neg, l') := scan_sign l in
  let w := (w - (length l - length l'))%nat in
  match take_digits w l' with
  | ([], _) => None
  | (ds, r) => let v := scan_digits 10 0 ds in Some (if neg then - v else v, r)
  end.

Definition scan_char (c : Z) (l : list Z) : option (list Z) :=
  match l with b :: l' => if b =? c then Some l' else None | [] => None end.

(** Day, month and year when exactly the first three conversions succeed. *)
Definition scan_date (optarg : list Z) : option (Z * Z * Z) :=
  '(mday, l) ← scan_int 2 optarg;
  l ← scan_char (chr "/") l;
  '(mon, l) ← scan_int 2 l;
  l ← scan_char (chr "/") l;
  '(year, l) ← scan_int 4 l;
  match l with [] => Some (mday, mon, year) | _ => None end.

(** ** parse_an_arg, parse_args *)

(** How a call ends: it returns, or the program prints and exits with 0. *)
Inductive arg_result : Type :=
  | Ret (r : Z) (g : globals)
  | Exit0 (printed : list (list Z)).

Definition sp : list Z := [32].

(** The first two lines of -C, -A and -h. *)
Definition banner : list (list Z) :=
  [my_name ++ sp ++ version ++ [44; 32] ++ subject;
   my_name ++ sp ++ cpright ++ sp ++ author_f ++ sp ++ author_s ++ sp ++ author_e].

(** [my_name] and a blank before the first of [lines]. *)
Definition prefixed (lines : list (list Z)) : list (list Z) :=
  match lines with l :: ls => (my_name ++ sp ++ l) :: ls | [] => [] end.

Definition optstring : list Z := bytes_of "e:m:f:i:x:l:o:rvDUCABh".

Section Options.
(** [mktime] for a [struct tm] with tm_mday, tm_mon and tm_year set and all
    other members 0: it depends on the time zone.  [reorder] tells how getopt
    treats operands. *)
Context (mktime : Z -> Z -> Z -> Z) (reorder : bool).

(** One call, on the result of getopt; [None] is -1, the end of the options. *)
Definition parse_an_arg (r : option (Z * list Z)) (g : globals) : arg_result :=
  match r with
  | None =>
      match file g with
      | None => Ret (-1) (set_file [] g)
      | Some _ => Ret 0 g
      end
  | Some (c, optarg) =>
      if c =? chr "e" then
        match scan_date optarg with
        | Some (tm_mday, tm_mon, tm_year) =>
            let expdate := mktime tm_mday (tm_mon - 1) (tm_year - 1900) in
            if expdate <=? 0 then Ret (-1) g else Ret 1 (set_date (fmt_d expdate) g)
        | None => Ret (-1) g
        end
      else if c =? chr "m" then Ret 1 (set_mail optarg g)
      else if c =? chr "f" then
        match file g with
        | Some _ => Ret (-1) g
        | None => Ret 1 (set_file optarg g)
        end
      else if c =? chr "i" then Ret 1 (set_inlo optarg g)
      else if c =? chr "x" then Ret 1 (set_xecc optarg g)
      else if c =? chr "l" then Ret 1 (set_lsto optarg g)
      else if c =? chr "o" then Ret 1 (set_file2 optarg g)
      else if c =? chr "r" then Ret 1 (set_rlax (u8 (rlax g + 1)) g)
      else if c =? chr "v" then Ret 1 (set_verbose (verbose g + 1) g)
      else if c =? chr "D" then Ret 1 (set_DEBUGEXEC 1 g)
      else if c =? chr "U" then Ret 1 (set_TRACEABLE 0 g)
      else if c =? chr "C" then
        Exit0 (banner ++ prefixed copying ++ [replicate 4 32 ++ author_f ++ sp ++ author_s ++ sp ++ author_e; []])
      else if c =? chr "A" then Exit0 (banner ++ prefixed abstract)
      else if c =? chr "h" then Exit0 (banner ++ [my_name ++ sp ++ usage] ++ help)
      else if c =? chr "B" then Ret 1 (set_BUSYBOXON 1 g)
      else Ret (-1) g
  end.

(** How parse_args ends. *)
Inductive args_result : Type :=
  | Parsed (g : globals)
  | Printed (printed : list (list Z))
  | Exit1.

(** [do { ... } while (ret)]: the results of getopt, then -1 for ever; the loop
    is cut after [fuel] rounds. *)
Fixpoint parse_loop (fuel : nat) (rs : list (Z * list Z)) (err : Z) (g : globals) : option args_result :=
  match fuel with
  | O => None
  | S fuel =>
      match parse_an_arg (head rs) g with
      | Exit0 printed => Some (Printed printed)
      | Ret ret g =>
          let err := if ret =? -1 then err + 1 else err in
          if negb (ret =? 0) then parse_loop fuel (tail rs) err g
          else Some (if negb (err =? 0) then Exit1 else Parsed g)
      end
  end.

(** The way it ends, and [argv] afterwards. *)
Definition parse_args (argv : list (list Z)) (g : globals) : option (args_result * list (list Z)) :=
  let '(rs, argv) := getopt reorder optstring argv in
  (., argv) <$> parse_loop (length rs + 2) rs 0 g.
End Options.

(** ** read_script *)

Definition SIZE : nat := 4096.

(** The loop of [fread] calls on what is left of the file: the bytes read, or
    [None] when [fuel] rounds are not enough. *)
Fixpoint read_loop (fuel : nat) (content text : list Z) : option (list Z) :=
  match fuel with
  | O => None
  | S fuel =>
      match content with
      | [] => Some text
      | _ => read_loop fuel (drop SIZE content) (text ++ take SIZE content)
      end
  end.

(** The buffer with its terminating NUL, for a file that can be opened. *)
Definition read_script (content : list Z) : option (list Z) :=
  text ← read_loop (S (length content)) content [];
  Some (text ++ [0]).

(** ** eval_shell *)

Record shell : Type := Shell { sh_shll : list Z; sh_inlo : list Z; sh_lsto : list Z; sh_xecc : list Z }.

Definition shellsDB : list shell := map (fun '(s, i, l, x) => Shell (text_of s) (text_of i) (text_of l) (text_of x)) [
  ("perl", "-e", "--", "exec('%s',@ARGV);");
  ("rc",   "-c", "",   "builtin exec %s $*");
  ("sh",   "-c", "",   "exec '%s' `$@`");
  ("bash", "-c", "",   "exec '%s' `$@`");
  ("zsh",  "-c", "",   "exec '%s' `$@`");
  ("bsh",  "-c", "",   "exec '%s' `$@`");
  ("Rsh",  "-c", "",   "exec '%s' `$@`");
  ("ksh",  "-c", "",   "exec '%s' `$@`");
  ("tsh",  "-c", "--", "exec '%s' `$@`");
  ("ash",  "-c", "--", "exec '%s' `$@`");
  ("csh",  "-c", "-b", "exec '%s' $argv");
  ("tcsh", "-c", "-b", "exec '%s' $argv")]%string.

(** The text before the first newline. *)
Fixpoint first_line (text : list Z) : list Z :=
  match text with
  | [] => []
  | b :: text => if b =? 10 then [] else b :: first_line text
  end.

(** [%s]: the characters up to a blank, and the rest. *)
Fixpoint span_word (l : list Z) : list Z * list Z :=
  match l with
  | [] => ([], [])
  | b :: l' => if isspace b then ([], l) else let '(w, r) := span_word l' in (b :: w, r)
  end.
Definition scan_word (l : list Z) : option (list Z * list Z) :=
  match span_word (skip_spaces l) with
  | ([], _) => None
  | (w, r) => Some (w, r)
  end.

(** [sscanf(ptr, " #!%s%s %c", shll, opts, opts)]: its result, [shll] and
    [opts]; no first conversion, 0 or EOF, is 0.  [opts] is empty before. *)
Definition scan_shebang (ptr : list Z) : Z * list Z * list Z :=
  match skip_spaces ptr with
  | 35 :: 33 :: l =>
      match scan_word l with
      | None => (0, [], [])
      | Some (shll, l) =>
          match scan_word l with
          | None => (1, shll, [])
          | Some (opts, l) =>
              match skip_spaces l with
              | [] => (2, shll, opts)
              | c :: _ => (3, shll, c :: tail opts)
              end
          end
      end
  | _ => (0, [], [])
  end.

(** [strrchr(s, '/') + 1]; [None] when there is no slash. *)
Fixpoint after_slash (s : list Z) : option (list Z) :=
  match s with
  | [] => None
  | b :: s =>
      match after_slash s with
      | Some r => Some r
      | None => if b =? 47 then Some s else None
      end
  end.

Definition or_else (o : option (list Z)) (d : list Z) : option (list Z) :=
  match o with Some _ => o | None => Some d end.

(** One iteration of the loop over the known shells. *)
Definition use_shell (ptr : list Z) (g : globals) (s : shell) : globals :=
  if bool_decide (ptr = sh_shll s) then
    let '(Globals f f2 d m r sh i x l o v D T B) := g in
    Globals f f2 d m r sh (or_else i (sh_inlo s)) (or_else x (sh_xecc s)) (or_else l (sh_lsto s)) o v D T B
  else g.

(** The result and the new variables; [None] when the null pointer that
    [strrchr] returns is read. *)
Definition eval_shell (text : list Z) (g : globals) : option (Z * globals) :=
  let ptr := first_line text in
  let '(i, shll, opts) := scan_shebang ptr in
  let g := set_opts opts (set_shll shll g) in
  if (i <? 1) || (2 <? i) then Some (-1, g) else
  ptr ← after_slash shll;
  let g := fold_left (use_shell ptr) shellsDB g in
  match inlo g, xecc g, lsto g with
  | Some _, Some _, Some lsto =>
      let g :=
        if negb (bool_decide (opts = [])) && bool_decide (opts = lsto) then set_opts [] g
        else if bool_decide (opts = [45]) then set_opts [] g
        else g in
      Some (0, g)
  | _, _, _ => Some (-1, g)
  end.

(** * The first line of a script *)

(** [line] names the interpreter [path] and at most one option. *)
Definition shebang (line path opt : list Z) : Prop :=
  exists s0 s1 s2 s3,
    line = s0 ++ [35; 33] ++ s1 ++ path ++ s2 ++ opt ++ s3
    /\ Forall (fun b => isspace b = true) (s0 ++ s1 ++ s2 ++ s3)
    /\ Forall (fun b => isspace b = false) (path ++ opt)
    /\ path <> [] /\ (opt <> [] -> s2 <> []).

(** ** Lemmas *)

Lemma skip_spaces_app s l :
  Forall (fun b => isspace b = true) s -> skip_spaces (s ++ l) = skip_spaces l.
Proof. induction 1 as [|b s Hb Hs IH]; [done|]. cbn [app skip_spaces]. by rewrite Hb. Qed.

Lemma skip_spaces_split l :
  exists s, l = s ++ skip_spaces l /\ Forall (fun b => isspace b = true) s
    /\ match skip_spaces l with [] => True | b :: _ => isspace b = false end.
Proof.
  induction l as [|b l (s & E & Hs & Hh)]; [by exists []|]. cbn [skip_spaces]. destruct (isspace b) eqn:Eb.
  - exists (b :: s). cbn [app]. rewrite <- E. split; [done|]. split; [by constructor|done].
  - by exists [].
Qed.

Lemma span_word_app w l :
  Forall (fun b => isspace b = false) w -> match l with [] => True | b :: _ => isspace b = true end ->
  span_word (w ++ l) = (w, l).
Proof.
  intros Hw Hl. induction Hw as [|b w Hb Hw IH].
  - destruct l as [|b l]; [done|]. cbn. by rewrite Hl.
  - cbn [app span_word]. by rewrite Hb, IH.
Qed.

Lemma span_word_split l w r :
  span_word l = (w, r) ->
  l = w ++ r /\ Forall (fun b => isspace b = false) w /\ match r with [] => True | b :: _ => isspace b = true end.
Proof.
  revert w r. induction l as [|b l IH]; intros w r; cbn [span_word].
  - intros [= <- <-]. done.
  - destruct (isspace b) eqn:Eb; [intros [= <- <-]; done|]. destruct (span_word l) as [w' r'] eqn:E. intros [= <- <-].
    destruct (IH _ _ eq_refl) as (-> & Hw & Hr). split; [done|]. split; [by constructor|done].
Qed.

Lemma scan_word_spec l w r :
  scan_word l = Some (w, r) <->
  exists s, l = s ++ w ++ r /\ Forall (fun b => isspace b = true) s /\ Forall (fun b => isspace b = false) w /\ w <> []
    /\ match r with [] => True | b :: _ => isspace b = true end.
Proof.
  unfold scan_word. split.
  - destruct (skip_spaces_split l) as (s & E & Hs & _). destruct (span_word (skip_spaces l)) as [w' r'] eqn:Ew.
    apply span_word_split in Ew as (Ew & Hw & Hr). destruct w' as [|b w']; [done|]. intros [= <- <-].
    exists s. rewrite E, Ew. split; [done|]. by split_and!.
  - intros (s & -> & Hs & Hw & Hne & Hr). rewrite skip_spaces_app by done.
    assert (skip_spaces (w ++ r) = w ++ r) as ->.
    { destruct w as [|b w]; [done|]. cbn [app skip_spaces]. apply Forall_cons in Hw as [Hb _]. by rewrite Hb. }
    rewrite span_word_app by done. by destruct w.
Qed.

Lemma skip_spaces_all s : Forall (fun b => isspace b = true) s -> skip_spaces s = [].
Proof. intros H. rewrite <- (app_nil_r s), skip_spaces_app by done. done. Qed.

Lemma scan_word_end s : Forall (fun b => isspace b = true) s -> scan_word s = None.
Proof. intros H. unfold scan_word. by rewrite skip_spaces_all. Qed.

Lemma scan_word_none l : scan_word l = None -> Forall (fun b => isspace b = true) l.
Proof.
  unfold scan_word. destruct (skip_spaces_split l) as (s & E & Hs & Hh). destruct (skip_spaces l) as [|b l'].
  - intros _. by rewrite E, app_nil_r.
  - cbn [span_word]. rewrite Hh. by destruct (span_word l').
Qed.

Lemma scan_shebang_spec line path opt :
  shebang line path opt <-> exists i, scan_shebang line = (i, path, opt) /\ 1 <= i <= 2.
Proof.
  unfold scan_shebang. split.
  - intros (s0 & s1 & s2 & s3 & -> & Hs & Hw & Hne & Hsep).
    apply Forall_app in Hs as [H0 Hs]. apply Forall_app in Hs as [H1 Hs]. apply Forall_app in Hs as [H2 H3].
    apply Forall_app in Hw as [Hp Ho]. rewrite skip_spaces_app by done.
    change (skip_spaces ([35; 33] ++ s1 ++ path ++ s2 ++ opt ++ s3)) with (35 :: 33 :: s1 ++ path ++ s2 ++ opt ++ s3). cbv iota.
    assert (scan_word (s1 ++ path ++ s2 ++ opt ++ s3) = Some (path, s2 ++ opt ++ s3)) as ->.
    { apply scan_word_spec. exists s1. split_and!; [done..|]. destruct s2 as [|b s2]; [|by apply Forall_cons in H2 as [? _]].
      destruct opt as [|o opt]; [|by destruct (Hsep ltac:(done))]. destruct s3 as [|b s3]; [done|]. by apply Forall_cons in H3 as [? _]. }
    destruct opt as [|o opt].
    + cbn [app]. rewrite scan_word_end by by apply Forall_app. exists 1. split; [done|lia].
    + assert (scan_word (s2 ++ (o :: opt) ++ s3) = Some (o :: opt, s3)) as ->.
      { apply scan_word_spec. exists s2. split_and!; [done..|]. destruct s3 as [|b s3]; [done|]. by apply Forall_cons in H3 as [? _]. }
      rewrite skip_spaces_all by done. exists 2. split; [done|lia].
  - intros (i & E & Hi). destruct (skip_spaces_split line) as (s0 & E0 & H0 & _).
    destruct (skip_spaces line) as [|b l0] eqn:El0; [injection E as; lia|].
    destruct (decide (b = 35)) as [->|Hb].
    2: { repeat (case_match; try (injection E as; lia)); congruence. }
    destruct l0 as [|c l]; [injection E as; lia|]. destruct (decide (c = 33)) as [->|Hc].
    2: { repeat (case_match; try (injection E as; lia)); congruence. }
    destruct (scan_word l) as [[w r]|] eqn:E1; [|injection E as; lia].
    apply scan_word_spec in E1 as (s1 & -> & H1 & Hw & Hne & Hr).
    destruct (scan_word r) as [[o r']|] eqn:E2.
    + apply scan_word_spec in E2 as (s2 & -> & H2 & Ho & Hne' & Hr').
      destruct (skip_spaces_split r') as (s3 & E3 & H3 & _). destruct (skip_spaces r') as [|b l']; [|injection E as; lia].
      injection E as <- <- <-. rewrite app_nil_r in E3. subst r'. exists s0, s1, s2, s3. split; [done|].
      split; [by repeat (apply Forall_app_2; [done|])|]. split; [by apply Forall_app_2|]. split; [done|]. intros _ ->.
      destruct o as [|b o]; [done|]. apply Forall_cons in Ho as [Hb _]. cbn in Hr. congruence.
    + apply scan_word_none in E2. injection E as <- <- <-. exists s0, s1, r, []. rewrite !app_nil_r. split; [done|].
      split; [by repeat (apply Forall_app_2; [done|])|]. by split_and!.
Qed.

Lemma slash_in (dir r : list Z) : 47 ∈ dir ++ 47 :: r.
Proof. apply elem_of_app. right. by left. Qed.

Lemma after_slash_spec s r :
  after_slash s = Some r <-> exists dir, s = dir ++ 47 :: r /\ 47 ∉ r.
Proof.
  revert r. induction s as [|b s IH]; intros r; cbn [after_slash].
  - split; [done|]. intros (dir & E & _). by destruct dir.
  - destruct (after_slash s) as [r'|] eqn:Es.
    + split.
      * intros [= ->]. destruct (proj1 (IH r) eq_refl) as (dir & -> & Hn). by exists (b :: dir).
      * intros (dir & E & Hn). destruct dir as [|d dir].
        -- injection E as -> ->. destruct (proj1 (IH r') eq_refl) as (dir' & -> & _). destruct Hn. apply slash_in.
        -- injection E as -> ->. assert (Some r' = Some r) as [=->]; [|done]. apply IH. by exists dir.
    + assert (47 ∉ s) as Hs.
      { intros Hin. apply list_elem_of_In, in_split in Hin as (l1 & l2 & E).
        clear IH. revert Es. rewrite E. clear. induction l1 as [|x l1 IH]; cbn [app after_slash].
        - destruct (after_slash l2); done.
        - destruct (after_slash (l1 ++ 47 :: l2)); [done|]. by destruct IH. }
      destruct (Z.eqb_spec b 47) as [->|Hb].
      * split; [intros [= <-]; by exists []|]. intros (dir & E & Hn). destruct dir as [|d dir]; [by injection E as ->|].
        injection E as _ E. destruct Hs. rewrite E. apply slash_in.
      * split; [done|]. intros (dir & E & Hn). destruct dir as [|d dir]; [by injection E|]. injection E as -> ->. destruct Hs. apply slash_in.
Qed.

Lemma after_slash_none s : after_slash s = None <-> 47 ∉ s.
Proof.
  split.
  - intros E Hin. apply list_elem_of_In, in_split in Hin as (l1 & l2 & ->). revert E.
    induction l1 as [|x l1 IH]; cbn [app after_slash]; [by destruct (after_slash l2)|].
    destruct (after_slash (l1 ++ 47 :: l2)); [done|]. by destruct IH.
  - intros Hn. destruct (after_slash s) as [r|] eqn:E; [|done]. apply after_slash_spec in E as (dir & -> & _). destruct Hn. apply slash_in.
Qed.

(** The entry of a shell. *)
Definition known_shell (base : list Z) : option shell := find (fun s => bool_decide (base = sh_shll s)) shellsDB.

(** An option given on the command line goes first. *)
Definition effective (given : option (list Z)) (default : shell -> list Z) (base : list Z) : option (list Z) :=
  match given with Some _ => given | None => default <$> known_shell base end.

Lemma use_shell_others base db g :
  Forall (fun s => base <> sh_shll s) db -> fold_left (use_shell base) db g = g.
Proof.
  induction 1 as [|s db Hs Hdb IH]; [done|]. cbn [fold_left]. unfold use_shell at 2. by rewrite bool_decide_eq_false_2.
Qed.

(** The names of the table are distinct, so at most one iteration has an effect. *)
Lemma use_shells_spec base db g :
  NoDup (map sh_shll db) ->
  fold_left (use_shell base) db g
  = match find (fun s => bool_decide (base = sh_shll s)) db with
    | Some s => use_shell base g s
    | None => g
    end.
Proof.
  intros Hnd. induction db as [|s db IH]; [done|]. cbn [map fold_left find] in *. apply NoDup_cons in Hnd as [Hn Hnd].
  destruct (bool_decide_reflect (base = sh_shll s)) as [->|Hne].
  - apply use_shell_others. apply Forall_forall. intros s' Hs' E. destruct Hn. rewrite E.
    apply list_elem_of_In, in_map. by apply list_elem_of_In.
  - rewrite <- (IH Hnd). f_equal. unfold use_shell. by rewrite bool_decide_eq_false_2.
Qed.

Lemma shellsDB_distinct : NoDup (map sh_shll shellsDB).
Proof. apply (bool_decide_unpack _). vm_compute. exact I. Qed.

Lemma use_known base g :
  fold_left (use_shell base) shellsDB g
  = let '(Globals f f2 d m r sh i x l o v D T B) := g in
    Globals f f2 d m r sh (effective i sh_inlo base) (effective x sh_xecc base) (effective l sh_lsto base) o v D T B.
Proof.
  rewrite use_shells_spec by apply shellsDB_distinct. unfold effective, known_shell.
  destruct g as [f f2 d m r sh i x l o v D T B]. destruct (find _ shellsDB) as [s|] eqn:E.
  - apply find_some in E as [_ E]. unfold use_shell. rewrite E. by destruct i, x, l.
  - by destruct i, x, l.
Qed.

(** ** The option loop *)

Definition f_options (rs : list (Z * list Z)) : list (list Z) := map snd (filter (fun r => r.1 = chr "f") rs).

(** An option other than -f keeps the file name. *)
Lemma parse_other mktime c optarg g ret g' :
  c <> chr "f" -> parse_an_arg mktime (Some (c, optarg)) g = Ret ret g' -> file g' = file g /\ (ret = 1 \/ ret = -1).
Proof.
  intros Hc. unfold parse_an_arg. rewrite (proj2 (Z.eqb_neq c (chr "f"))) by done.
  destruct g as [f f2 d m r s i x l o v D T B].
  repeat case_match; try done; intros [= <- <-]; cbn; by auto.
Qed.

(** The loop ends, and successfully only when there was no error and one file
    was named. *)
Lemma parse_loop_spec mktime rs err g :
  0 <= err ->
  exists r, parse_loop mktime (length rs + 2) rs err g = Some r
    /\ match r with
       | Parsed g' => err = 0 /\ exists f, file g' = Some f
           /\ match file g with None => f_options rs = [f] | Some f0 => f = f0 /\ f_options rs = [] end
       | _ => True
       end.
Proof.
  revert err g. induction rs as [|[c optarg] rs IH]; intros err g He.
  - cbn [length Nat.add parse_loop head tail]. unfold parse_an_arg. destruct (file g) as [f|] eqn:Ef.
    + cbn [Z.eqb negb]. eexists. split; [done|]. destruct (Z.eqb_spec err 0) as [->|]; cbn [negb]; [|done].
      split; [done|]. by exists f.
    + cbn [Z.eqb negb Pos.eqb]. destruct g; cbn [set_file file] in *. eexists. split; [done|].
      change (0 =? -1) with false. cbv iota. by rewrite (proj2 (Z.eqb_neq (err + 1) 0)) by lia.
  - change (length ((c, optarg) :: rs) + 2)%nat with (S (length rs + 2)). cbn [parse_loop head tail].
    destruct (parse_an_arg mktime (Some (c, optarg)) g) as [ret g1|printed] eqn:E; [|by exists (Printed printed)].
    destruct (decide (c = chr "f")) as [->|Hc].
    + cbn [parse_an_arg Z.eqb] in E. change (chr "f" =? chr "e") with false in E. change (chr "f" =? chr "m") with false in E.
      change (chr "f" =? chr "f") with true in E. cbv iota in E. unfold f_options. rewrite filter_cons_True by done.
      destruct (file g) as [f|] eqn:Ef; injection E as <- <-; cbn [Z.eqb negb Pos.eqb].
      * destruct (IH (err + 1) g ltac:(lia)) as (r & Hr & H). exists r. split; [exact Hr|]. destruct r; [lia|done..].
      * destruct (IH err (set_file optarg g) He) as (r & Hr & H). exists r. split; [exact Hr|]. destruct r as [g'| |]; [|done..].
        destruct H as (-> & f & Hf & H). split; [done|]. exists f. split; [done|]. destruct g; cbn [set_file file] in H.
        destruct H as [-> H]. cbn [map snd]. fold (f_options rs). by rewrite H.
    + destruct (parse_other mktime c optarg g ret g1 Hc E) as [Ef Hret]. unfold f_options. rewrite filter_cons_False by done.
      fold (f_options rs). rewrite <- Ef. destruct Hret as [-> | ->]; cbn [Z.eqb negb Pos.eqb].
      * apply IH. done.
      * destruct (IH (err + 1) g1 ltac:(lia)) as (r & Hr & H). exists r. split; [exact Hr|]. destruct r; [lia|done..].
Qed.

(** ** Theorems *)

(** C32.  The first line of a script: when it names an interpreter with at most
    one option, the interpreter, the options and the three settings of the
    shell are set, those given on the command line before those of the table,
    and an option that is the last shell option or a single dash is dropped;
    an interpreter without a slash is a null pointer read; every other first
    line, or an unknown shell, is an error. *)
Theorem eval_shell_correct text g :
  (forall path opt, shebang (first_line text) path opt ->
     (47 ∉ path -> eval_shell text g = None)
     /\ forall dir base, path = dir ++ 47 :: base -> 47 ∉ base ->
        match effective (inlo g) sh_inlo base, effective (xecc g) sh_xecc base, effective (lsto g) sh_lsto base with
        | Some i, Some x, Some l =>
            eval_shell text g = Some (0,
              Globals (file g) (file2 g) (date g) (mail g) (rlax g) (Some path) (Some i) (Some x) (Some l)
                (Some (if bool_decide (opt = l \/ opt = [45]) then [] else opt))
                (verbose g) (DEBUGEXEC_flag g) (TRACEABLE_flag g) (BUSYBOXON_flag g))
        | _, _, _ => exists g', eval_shell text g = Some (-1, g')
        end)
  /\ ((forall path opt, ~ shebang (first_line text) path opt) -> exists g', eval_shell text g = Some (-1, g')).
Proof.
  unfold eval_shell. destruct (scan_shebang (first_line text)) as [[n sh] o] eqn:Esc. split.
  - intros path opt Hsb. apply scan_shebang_spec in Hsb as (i & E & Hi). rewrite Esc in E. injection E as -> -> ->.
    rewrite (proj2 (Z.ltb_ge i 1)), (proj2 (Z.ltb_ge 2 i)) by lia. cbn [orb]. split.
    + intros Hn. apply after_slash_none in Hn. by rewrite Hn.
    + intros dir base Hp Hb. rewrite (proj2 (after_slash_spec path base)) by by exists dir. cbn [mbind option_bind].
      rewrite use_known. destruct g as [f f2 d m r s i' x l o' v D T B]. cbn [set_opts set_shll inlo xecc lsto].
      destruct (effective i' sh_inlo base) as [i1|]; [|by eexists].
      destruct (effective x sh_xecc base) as [x1|]; [|by eexists].
      destruct (effective l sh_lsto base) as [l1|]; [|by eexists].
      cbn [file file2 date mail rlax shll verbose DEBUGEXEC_flag TRACEABLE_flag BUSYBOXON_flag set_opts].
      do 2 f_equal. clear.
      destruct (bool_decide_reflect (opt = [])) as [->|H0]; cbn [negb andb].
      * rewrite bool_decide_eq_false_2 by done. by case_match.
      * destruct (bool_decide_reflect (opt = l1)) as [->|H1]; [by rewrite bool_decide_eq_true_2 by by left|].
        destruct (bool_decide_reflect (opt = [45])) as [->|H2]; [by rewrite bool_decide_eq_true_2 by by right|].
        by rewrite bool_decide_eq_false_2 by by intros [?|?].
  - intros Hno. assert (~ 1 <= n <= 2) as Hn.
    { intros Hn. apply (Hno sh o). apply scan_shebang_spec. by exists n. }
    eexists. assert ((n <? 1) || (2 <? n) = true) as ->; [|done].
    destruct (Z.ltb_spec n 1), (Z.ltb_spec 2 n); cbn [orb]; (done || lia).
Qed.

Lemma eval_shell_correct_witness :
  eval_shell (text_of "#!sh") globals_init = None
  /\ exists g', eval_shell (text_of "#! /bin/ash -x ") globals_init = Some (0, g') /\ opts g' = Some (text_of "-x").
Proof.
  split.
  - apply (proj1 (eval_shell_correct (text_of "#!sh") globals_init) (text_of "sh") []).
    + exists [], [], [], []. split; [reflexivity|]. split; [constructor|]. split; [by repeat constructor|]. done.
    + intros H. apply (bool_decide_pack _) in H. vm_compute in H. exact H.
  - pose proof (proj1 (eval_shell_correct (text_of "#! /bin/ash -x ") globals_init) (text_of "/bin/ash") (text_of "-x")) as H.
    destruct H as [_ H].
    + exists [], [32], [32], [32]. split; [reflexivity|]. split; [by repeat constructor|]. split; [by repeat constructor|]. done.
    + specialize (H (text_of "/bin") (text_of "ash") eq_refl).
      eexists. split; [apply H; intros H'; apply (bool_decide_pack _) in H'; vm_compute in H'; exact H'|reflexivity].
Defined.

(** ** The arguments *)

Lemma scan_cluster_rest optstring cluster argv rs rest :
  scan_cluster optstring cluster argv = (rs, rest) -> argv = take (length argv - length rest) argv ++ rest.
Proof.
  assert (forall l : list (list Z), l = take (length l - length l) l ++ l) as Hall by (intros l; by rewrite Nat.sub_diag).
  revert rs rest. induction cluster as [|c cluster IH]; intros rs rest; cbn [scan_cluster].
  - intros [= <- <-]. apply Hall.
  - destruct (opt_kind optstring c) as [[|]|].
    + destruct cluster as [|d cl]; [destruct argv as [|arg argv]|]; intros [= <- <-]; [done| |apply Hall].
      cbn [length]. by replace (S (length argv) - length argv)%nat with 1%nat by lia.
    + destruct (scan_cluster optstring cluster argv) as [rs' rest'] eqn:E. intros [= <- <-]. by eapply IH.
    + destruct (scan_cluster optstring cluster argv) as [rs' rest'] eqn:E. intros [= <- <-]. by eapply IH.
Qed.

(** getopt loses no argument; without reordering it leaves them as they are. *)
Lemma getopt_argv reorder optstring argv rs argv' :
  getopt reorder optstring argv = (rs, argv') -> Permutation argv' argv /\ (reorder = false -> argv' = argv).
Proof.
  unfold getopt. generalize (length argv) as fuel. intros fuel.
  destruct (getopt_loop reorder fuel optstring argv) as [[rs0 options] operands] eqn:E. intros [= <- <-].
  revert argv rs0 options operands E. induction fuel as [|k IH]; intros argv rs options operands; cbn [getopt_loop].
  { by intros [= <- <- <-]. }
  destruct argv as [|arg rest]; [by intros [= <- <- <-]|].
  assert ((if reorder then let '(rs, options, operands) := getopt_loop reorder k optstring rest in (rs, options, arg :: operands)
           else ([], [], arg :: rest)) = (rs, options, operands) ->
          Permutation (options ++ operands) (arg :: rest) /\ (reorder = false -> options ++ operands = arg :: rest)) as Hoperand.
  { destruct reorder; [|by intros [= <- <- <-]]. destruct (getopt_loop true k optstring rest) as [[rs1 o1] n1] eqn:E1.
    intros [= <- <- <-]. split; [|done]. rewrite <- Permutation_middle. constructor. by eapply IH. }
  destruct arg as [|b [|c cl]]; [exact Hoperand|destruct (decide (b = 45)) as [->|]; [exact Hoperand|by repeat case_match]|].
  destruct (decide (b = 45)) as [->|Hb]; [|by repeat case_match]. clear Hoperand.
  destruct (bool_decide (c :: cl = [45])); [by intros [= <- <- <-]|].
  destruct (scan_cluster optstring (c :: cl) rest) as [rs1 rest1] eqn:E1. apply scan_cluster_rest in E1 as Er.
  destruct (getopt_loop reorder k optstring rest1) as [[rs2 o2] n2] eqn:E2. intros [= <- <- <-].
  destruct (IH _ _ _ _ E2) as [H1 H2]. clear E1. revert Er. generalize (take (length rest - length rest1) rest).
  intros used ->. cbn [app]. rewrite <- app_assoc. split.
  - constructor. by apply Permutation_app_head.
  - intros Hr. by rewrite (H2 Hr).
Qed.

(** The command line: the loop over the options ends for any arguments,
    and the program goes on only when -f was given exactly once, with the file
    it names. *)
Theorem parse_args_correct mktime reorder argv :
  exists r argv', parse_args mktime reorder argv globals_init = Some (r, argv') /\ Permutation argv' argv
    /\ match r with
       | Parsed g => exists f, file g = Some f /\ f_options (getopt reorder optstring argv).1 = [f]
       | _ => True
       end.
Proof.
  unfold parse_args. destruct (getopt reorder optstring argv) as [rs argv'] eqn:Eg.
  destruct (parse_loop_spec mktime rs 0 globals_init) as (r & E & H); [lia|].
  exists r, argv'. rewrite E. split; [done|]. split; [exact (proj1 (getopt_argv _ _ _ _ _ Eg))|].
  destruct r as [g| |]; [|exact I..]. destruct H as (_ & f & Hf & H). by exists f.
Qed.

(** An operand before the options: POSIX stops there, and no script is named. *)
Example operand_first :
  parse_args (fun _ _ _ => 0) false [bytes_of "y"; bytes_of "-f"; bytes_of "x.sh"] globals_init
    = Some (Exit1, [bytes_of "y"; bytes_of "-f"; bytes_of "x.sh"])
  /\ parse_args (fun _ _ _ => 0) true [bytes_of "y"; bytes_of "-f"; bytes_of "x.sh"] globals_init
    = Some (Parsed (set_file (bytes_of "x.sh") globals_init), [bytes_of "-f"; bytes_of "x.sh"; bytes_of "y"]).
Proof. split; vm_compute; reflexivity. Qed.

(** -T, which the help text and the makefile have, is an unknown option. *)
Example option_T_unknown :
  fst <$> parse_args (fun _ _ _ => 0) true [bytes_of "-v"; bytes_of "-T"; bytes_of "-f"; bytes_of "x.sh"] globals_init = Some Exit1.
Proof. vm_compute. reflexivity. Qed.
