(* ===== verification/AkbArgs.v ===== *)
(** * akb_cc: the memory of the arguments (cc/akb_cc.c)

    The options -i, -x and -l keep [optarg], a pointer into the arguments
    (lines 451-457), and write_C encrypts these strings in place (lines
    861-863) before it prints [argv] (lines 892-893).  This file has the
    arguments as strings in one memory: getopt with the places of what it
    returns, the writes of the encryption, and the strings that are read from
    [argv] after them. *)
From S2P Require Import Prelude Libc Digits AkbOpts.
From Stdlib Require Import Ascii.

(** ** getopt with the places of [optarg]

    An argument is its address and the string there; a place is an argument
    and an offset in it. *)

Fixpoint scan_cluster_at (optstring cluster : list Z) (a off : nat) (argv : list (nat * list Z)) :
    list (Z * option (nat * nat) * list Z) * list (nat * list Z) :=
  match cluster with
  | [] => ([], argv)
  | c :: cluster =>
      match opt_kind optstring c with
      | None => let '(rs, argv) := scan_cluster_at optstring cluster a (S off) argv in ((chr "?", None, []) :: rs, argv)
      | Some false => let '(rs, argv) := scan_cluster_at optstring cluster a (S off) argv in ((c, None, []) :: rs, argv)
      | Some true =>
          match cluster, argv with
          | _ :: _, _ => ([(c, Some (a, S off), cluster)], argv)
          | [], (b, arg) :: argv => ([(c, Some (b, 0%nat), arg)], argv)
          | [], [] => ([(chr "?", None, [])], [])
          end
      end
  end.

Fixpoint getopt_loop_at (reorder : bool) (fuel : nat) (optstring : list Z) (argv : list (nat * list Z)) :
    list (Z * option (nat * nat) * list Z) * list (nat * list Z) * list (nat * list Z) :=
  match fuel, argv with
  | S fuel, (a, arg) :: rest =>
      match arg with
      | 45 :: (c :: _) as cluster =>
          if bool_decide (cluster = [45]) then ([], [(a, arg)], rest)
          else
            let '(rs, rest') := scan_cluster_at optstring cluster a 1 rest in
            let '(rs', options, operands) := getopt_loop_at reorder fuel optstring rest' in
            (rs ++ rs', (a, arg) :: take (length rest - length rest') rest ++ options, operands)
      | _ =>
          if reorder then
            let '(rs, options, operands) := getopt_loop_at reorder fuel optstring rest in (rs, options, (a, arg) :: operands)
          else ([], [], argv)
      end
  | _, _ => ([], [], argv)
  end.

Definition getopt_at (reorder : bool) (optstring : list Z) (argv : list (nat * list Z)) :
    list (Z * option (nat * nat) * list Z) * list (nat * list Z) :=
  let '(rs, options, operands) := getopt_loop_at reorder (length argv) optstring argv in (rs, options ++ operands).

(** The last option [c]: the place of its argument, which [inlo = optarg] and
    the like keep, and the string there. *)
Fixpoint last_optarg (c : Z) (rs : list (Z * option (nat * nat) * list Z)) : option (option (nat * nat) * list Z) :=
  match rs with
  | [] => None
  | (d, place, s) :: rs =>
      match last_optarg c rs with
      | Some p => Some p
      | None => if d =? c then Some (place, s) else None
      end
  end.
Definition last_place (c : Z) (rs : list (Z * option (nat * nat) * list Z)) : option (nat * nat) :=
  last_optarg c rs ≫= fst.

(** ** The memory *)

(** The bytes, the addresses in [argv], and where the three strings point, when
    they come from the command line. *)
Record arg_memory : Type := ArgMemory {
  am_mem : list Z;
  am_argv : list nat;
  am_inlo : option (nat * nat);
  am_xecc : option (nat * nat);
  am_lsto : option (nat * nat);
}.

(** The string at an address; [None] is a read behind the memory. *)
Definition string_at (mem : list Z) (a : nat) : option (list Z) := c_string (drop a mem).

(** [arc4(ptr, ...)]: the encrypted bytes are written where the pointer points;
    a string of malloc or strdup is not in this memory. *)
Definition write_at (place : option (nat * nat)) (bytes mem : list Z) : list Z :=
  match place with Some (a, off) => set_window (a + off) bytes mem | None => mem end.

Definition encrypted_memory (args : arg_memory) (inlo xecc lsto : list Z) : list Z :=
  write_at (am_lsto args) lsto (write_at (am_xecc args) xecc (write_at (am_inlo args) inlo (am_mem args))).

(** Well-formed: the arguments are strings that do not overlap, and a NUL comes
    behind them. *)
Record args_in (mem : list Z) (argv : list (nat * list Z)) : Prop := {
  in_strings : forall a w, (a, w) ∈ argv -> window a (S (length w)) mem = w ++ [0] /\ Forall (fun b => b <> 0) w;
  in_apart : forall a w a' w', (a, w) ∈ argv -> (a', w') ∈ argv -> a <> a' ->
    (a + S (length w) <= a' \/ a' + S (length w') <= a)%nat;
  in_addresses : NoDup (map fst argv);
  in_end : exists mem0, mem = mem0 ++ [0] /\ forall a w, (a, w) ∈ argv -> (a + S (length w) <= length mem0)%nat
}.

(** A place whose string is the rest of an argument. *)
Definition place_of_string (argv : list (nat * list Z)) (place : option (nat * nat)) (s : list Z) : Prop :=
  match place with
  | Some (a, off) => exists w, (a, w) ∈ argv /\ (off <= length w)%nat /\ s = drop off w
  | None => True
  end.

(** The three strings of [args] are rests of different arguments. *)
Record places_ok (args : arg_memory) (argv : list (nat * list Z)) (inlo xecc lsto : list Z) : Prop := {
  ok_argv : am_argv args = map fst argv;
  ok_memory : args_in (am_mem args) argv;
  ok_inlo : place_of_string argv (am_inlo args) inlo;
  ok_xecc : place_of_string argv (am_xecc args) xecc;
  ok_lsto : place_of_string argv (am_lsto args) lsto;
  ok_apart : NoDup (map fst (omap id [am_inlo args; am_xecc args; am_lsto args]))
}.

(** Which of the three strings begins in the argument at [a], by the number of
    its array, and where. *)
Definition place_in (args : arg_memory) (a : nat) : option (nat * nat) :=
  let at_ (place : option (nat * nat)) (i : nat) :=
    match place with Some (b, off) => if (b =? a)%nat then Some (off, i) else None | None => None end in
  match at_ (am_inlo args) 4%nat with
  | Some r => Some r
  | None => match at_ (am_xecc args) 5%nat with Some r => Some r | None => at_ (am_lsto args) 6%nat end
  end.

(** What is printed for an argument after the encryption: the argument, or its
    beginning, then the encrypted bytes up to the first NUL - and what is
    behind the argument when there is none. *)
Definition shown_as (args : arg_memory) (array : nat -> list Z -> Prop) (arg : nat * list Z) (t : list Z) : Prop :=
  match place_in args (fst arg) with
  | None => t = snd arg
  | Some (off, i) =>
      exists e u behind, array i e /\ length e = S (length (snd arg) - off)
        /\ c_string (e ++ behind) = Some u /\ t = take off (snd arg) ++ u
  end.

(** * Lemmas *)

(** ** getopt *)

Definition forget (r : Z * option (nat * nat) * list Z) : Z * list Z := (fst (fst r), snd r).

Lemma scan_cluster_forget optstring cluster a off argv rs argv' :
  scan_cluster_at optstring cluster a off argv = (rs, argv') ->
  scan_cluster optstring cluster (map snd argv) = (map forget rs, map snd argv').
Proof.
  revert off rs argv'. induction cluster as [|c cluster IH]; intros off rs argv'; cbn [scan_cluster_at scan_cluster].
  { by intros [= <- <-]. }
  destruct (opt_kind optstring c) as [[|]|].
  - destruct cluster; [destruct argv as [|[b arg] argv]|]; intros [= <- <-]; done.
  - destruct (scan_cluster_at optstring cluster a (S off) argv) as [rs1 argv1] eqn:E. intros [= <- <-].
    by rewrite (IH _ _ _ E).
  - destruct (scan_cluster_at optstring cluster a (S off) argv) as [rs1 argv1] eqn:E. intros [= <- <-].
    by rewrite (IH _ _ _ E).
Qed.

(** An argument that is no option. *)
Lemma getopt_loop_operand reorder fuel optstring a arg rest :
  (forall c cl, arg <> 45 :: c :: cl) ->
  getopt_loop_at reorder (S fuel) optstring ((a, arg) :: rest)
  = (if reorder then
       let '(rs, options, operands) := getopt_loop_at reorder fuel optstring rest in (rs, options, (a, arg) :: operands)
     else ([], [], (a, arg) :: rest))
  /\ getopt_loop reorder (S fuel) optstring (arg :: map snd rest)
     = (if reorder then
          let '(rs, options, operands) := getopt_loop reorder fuel optstring (map snd rest) in (rs, options, arg :: operands)
        else ([], [], arg :: map snd rest)).
Proof.
  intros H. cbn [getopt_loop_at getopt_loop]. destruct arg as [|b [|c cl]]; [done| |].
  - by repeat case_match.
  - destruct (decide (b = 45)) as [->|Hb]; [by destruct (H c cl)|]. by repeat case_match.
Qed.

Lemma option_or_operand (arg : list Z) : (exists c cl, arg = 45 :: c :: cl) \/ forall c cl, arg <> 45 :: c :: cl.
Proof.
  destruct arg as [|b [|c cl]]; [by right|by right|].
  destruct (decide (b = 45)) as [->|Hb]; [left; by exists c, cl|right; by intros ? ? [= ? _]].
Qed.

Lemma getopt_loop_forget reorder fuel optstring argv rs options operands :
  getopt_loop_at reorder fuel optstring argv = (rs, options, operands) ->
  getopt_loop reorder fuel optstring (map snd argv) = (map forget rs, map snd options, map snd operands).
Proof.
  revert argv rs options operands. induction fuel as [|k IH]; intros argv rs options operands.
  { cbn. by intros [= <- <- <-]. }
  destruct argv as [|[a arg] rest]; [by intros [= <- <- <-]|].
  destruct (option_or_operand arg) as [(c & cl & ->)|Hno].
  - cbn [getopt_loop_at getopt_loop map snd].
    destruct (bool_decide (c :: cl = [45])); [by intros [= <- <- <-]|].
    destruct (scan_cluster_at optstring (c :: cl) a 1 rest) as [rs1 rest1] eqn:E1.
    rewrite (scan_cluster_forget _ _ _ _ _ _ _ E1).
    destruct (getopt_loop_at reorder k optstring rest1) as [[rs2 o2] n2] eqn:E2. rewrite (IH _ _ _ _ E2).
    intros [= <- <- <-]. cbn [map snd]. by rewrite !length_map, !map_app, firstn_map.
  - destruct (getopt_loop_operand reorder k optstring a arg rest Hno) as [-> E].
    cbn [map snd]. rewrite E. clear E.
    destruct reorder; [|by intros [= <- <- <-]].
    destruct (getopt_loop_at true k optstring rest) as [[rs2 o2] n2] eqn:E2. rewrite (IH _ _ _ _ E2).
    by intros [= <- <- <-].
Qed.

Lemma getopt_forget reorder optstring argv rs argv' :
  getopt_at reorder optstring argv = (rs, argv') ->
  getopt reorder optstring (map snd argv) = (map forget rs, map snd argv').
Proof.
  unfold getopt_at, getopt. rewrite length_map.
  destruct (getopt_loop_at reorder (length argv) optstring argv) as [[rs1 o1] n1] eqn:E. intros [= <- <-].
  by rewrite (getopt_loop_forget _ _ _ _ _ _ _ E), map_app.
Qed.

(** The arguments that options take, in order. *)
Definition owners (rs : list (Z * option (nat * nat) * list Z)) : list nat := omap (fun r => fst <$> snd (fst r)) rs.

Definition placed (argv : list (nat * list Z)) (r : Z * option (nat * nat) * list Z) : Prop :=
  place_of_string argv (snd (fst r)) (snd r).

Lemma placed_mono argv argv' r : argv ⊆ argv' -> placed argv r -> placed argv' r.
Proof. unfold placed, place_of_string. destruct (snd (fst r)) as [[a off]|]; naive_solver. Qed.

Lemma scan_cluster_places optstring cluster a off argv rs argv' w :
  scan_cluster_at optstring cluster a off argv = (rs, argv') ->
  (off <= length w)%nat -> drop off w = cluster ->
  (owners rs ++ map fst argv') `sublist_of` (a :: map fst argv)
  /\ Forall (placed ((a, w) :: argv)) rs /\ exists used, argv = used ++ argv'.
Proof.
  intros E Hoff Hw. revert off rs argv' E Hoff Hw.
  induction cluster as [|c cluster IH]; intros off rs argv'; cbn [scan_cluster_at].
  { intros [= <- <-] _ _. split; [by apply sublist_cons|]. split; [done|]. by exists []. }
  intros E Hoff Hw.
  assert (drop (S off) w = cluster /\ (S off <= length w)%nat) as [Hw' Hoff'].
  { assert (length (drop off w) = S (length cluster)) as Hl by by rewrite Hw.
    rewrite length_drop in Hl. split; [|lia].
    replace (S off) with (off + 1)%nat by lia. by rewrite <- drop_drop, Hw. }
  destruct (opt_kind optstring c) as [[|]|].
  - destruct cluster as [|d cluster]; [destruct argv as [|[b arg] argv]|]; injection E as <- <-.
    + split; [by apply sublist_cons|]. split; [by repeat constructor|]. by exists [].
    + split; [by apply sublist_cons|]. split; [|by exists [(b, arg)]].
      apply Forall_singleton. exists arg. split; [by right; left|]. split; [lia|]. by rewrite drop_0.
    + split; [done|]. split; [|by exists []].
      apply Forall_singleton. exists w. split; [by left|]. split; [exact Hoff'|by rewrite Hw'].
  - destruct (scan_cluster_at optstring cluster a (S off) argv) as [rs1 argv1] eqn:E1. injection E as <- <-.
    destruct (IH _ _ _ E1 Hoff' Hw') as (H1 & H2 & H3). split_and!; [exact H1|by constructor|exact H3].
  - destruct (scan_cluster_at optstring cluster a (S off) argv) as [rs1 argv1] eqn:E1. injection E as <- <-.
    destruct (IH _ _ _ E1 Hoff' Hw') as (H1 & H2 & H3). split_and!; [exact H1|by constructor|exact H3].
Qed.

Lemma owners_app rs1 rs2 : owners (rs1 ++ rs2) = owners rs1 ++ owners rs2.
Proof. unfold owners. by rewrite omap_app. Qed.

Lemma getopt_loop_places reorder fuel optstring argv rs options operands :
  getopt_loop_at reorder fuel optstring argv = (rs, options, operands) ->
  owners rs `sublist_of` map fst argv /\ Forall (placed argv) rs /\ Permutation (options ++ operands) argv.
Proof.
  revert argv rs options operands. induction fuel as [|k IH]; intros argv rs options operands.
  { cbn. intros [= <- <- <-]. split; [apply sublist_nil_l|]. done. }
  destruct argv as [|[a arg] rest]; [by intros [= <- <- <-]|].
  destruct (option_or_operand arg) as [(c & cl & ->)|Hno].
  - cbn [getopt_loop_at]. destruct (bool_decide (c :: cl = [45])).
    { intros [= <- <- <-]. split; [apply sublist_nil_l|]. done. }
    destruct (scan_cluster_at optstring (c :: cl) a 1 rest) as [rs1 rest1] eqn:E1.
    destruct (scan_cluster_places _ _ _ _ _ _ _ (45 :: c :: cl) E1 ltac:(cbn; lia) eq_refl) as (H1 & H2 & used & ->).
    destruct (getopt_loop_at reorder k optstring rest1) as [[rs2 o2] n2] eqn:E2. intros [= <- <- <-].
    destruct (IH _ _ _ _ E2) as (I1 & I2 & I3). split; [|split].
    + rewrite owners_app. etrans; [|exact H1]. by apply sublist_app.
    + apply Forall_app. split; [exact H2|]. apply (Forall_impl _ _ _ I2). intros r. apply placed_mono.
      intros x Hx. right. apply elem_of_app. by right.
    + rewrite length_app. replace (length used + length rest1 - length rest1)%nat with (length used) by lia.
      rewrite take_app_length. cbn [app]. constructor. rewrite <- app_assoc. by apply Permutation_app_head.
  - destruct (getopt_loop_operand reorder k optstring a arg rest Hno) as [-> _].
    destruct reorder; [|intros [= <- <- <-]; split; [apply sublist_nil_l|done]].
    destruct (getopt_loop_at true k optstring rest) as [[rs2 o2] n2] eqn:E2. intros [= <- <- <-].
    destruct (IH _ _ _ _ E2) as (I1 & I2 & I3). split; [by apply sublist_cons|]. split.
    + apply (Forall_impl _ _ _ I2). intros r. apply placed_mono. by right.
    + rewrite <- Permutation_middle. by constructor.
Qed.

Lemma getopt_at_places reorder optstring argv rs argv' :
  getopt_at reorder optstring argv = (rs, argv') ->
  owners rs `sublist_of` map fst argv /\ Forall (placed argv) rs /\ Permutation argv' argv.
Proof.
  unfold getopt_at. destruct (getopt_loop_at reorder (length argv) optstring argv) as [[rs1 o1] n1] eqn:E. intros [= <- <-].
  by eapply getopt_loop_places.
Qed.

(** ** The last options *)

Lemma last_optarg_in c rs p s : last_optarg c rs = Some (p, s) -> (c, p, s) ∈ rs.
Proof.
  induction rs as [|[[d q] t] rs IH]; [done|]. cbn [last_optarg]. destruct (last_optarg c rs) as [r|].
  - intros E. right. by apply IH.
  - destruct (Z.eqb_spec d c) as [->|]; [|done]. intros [= -> ->]. by left.
Qed.

(** The places of different options are in different arguments. *)
Lemma owners_apart rs c d a off a' off' :
  NoDup (owners rs) -> c <> d -> last_place c rs = Some (a, off) -> last_place d rs = Some (a', off') -> a <> a'.
Proof.
  unfold last_place. intros Hnd Hne Hc Hd ->.
  destruct (last_optarg c rs) as [[p s]|] eqn:Ec; [|done]. destruct (last_optarg d rs) as [[q t]|] eqn:Ed; [|done].
  cbn in Hc, Hd. subst p q. apply last_optarg_in in Ec, Ed. revert Hnd Ec Ed. induction rs as [|r rs IH]; [by rewrite elem_of_nil|].
  assert (forall e o u, (e, Some (a', o), u) ∈ rs -> a' ∈ owners rs) as Hin.
  { intros e o u H. unfold owners. apply list_elem_of_omap. by exists (e, Some (a', o), u). }
  intros Hnd [E|Hc]%elem_of_cons [E'|Hd]%elem_of_cons.
  - rewrite <- E in E'. by injection E' as ->.
  - subst r. cbn in Hnd. apply NoDup_cons in Hnd as [Hn _]. by destruct Hn; eapply Hin.
  - subst r. cbn in Hnd. apply NoDup_cons in Hnd as [Hn _]. by destruct Hn; eapply Hin.
  - apply IH; [|done..]. unfold owners in Hnd. cbn [omap list_omap] in Hnd.
    destruct (fst <$> (snd (fst r))); [by apply NoDup_cons in Hnd as [_ ?]|exact Hnd].
Qed.

Definition kept (c : Z) (rs : list (Z * option (nat * nat) * list Z)) (before : option (list Z)) : option (list Z) :=
  match last_optarg c rs with Some (_, s) => Some s | None => before end.

Lemma parse_an_arg_keeps mktime c optarg g ret g' :
  parse_an_arg mktime (Some (c, optarg)) g = Ret ret g' ->
  (ret =? 0) = false
  /\ inlo g' = (if c =? chr "i" then Some optarg else inlo g)
  /\ xecc g' = (if c =? chr "x" then Some optarg else xecc g)
  /\ lsto g' = (if c =? chr "l" then Some optarg else lsto g).
Proof.
  destruct g as [f f2 d m r s i x l o v D T B]. cbn [inlo xecc lsto]. unfold parse_an_arg.
  destruct (Z.eqb_spec c (chr "e")) as [->|He].
  { destruct (scan_date optarg) as [[[mday mon] year]|]; [destruct (_ <=? 0)|]; intros [= <- <-]; done. }
  destruct (Z.eqb_spec c (chr "m")) as [->|Hm]; [by intros [= <- <-]|].
  destruct (Z.eqb_spec c (chr "f")) as [->|Hf]; [destruct f; by intros [= <- <-]|].
  destruct (Z.eqb_spec c (chr "i")) as [->|Hi]; [by intros [= <- <-]|].
  destruct (Z.eqb_spec c (chr "x")) as [->|Hx]; [by intros [= <- <-]|].
  destruct (Z.eqb_spec c (chr "l")) as [->|Hl]; [by intros [= <- <-]|].
  repeat (destruct (c =? _); [first [discriminate | by intros [= <- <-]]|]). by intros [= <- <-].
Qed.

Lemma parse_loop_keeps mktime fuel rs err g g' :
  parse_loop mktime fuel (map forget rs) err g = Some (Parsed g') ->
  inlo g' = kept (chr "i") rs (inlo g) /\ xecc g' = kept (chr "x") rs (xecc g) /\ lsto g' = kept (chr "l") rs (lsto g).
Proof.
  revert rs err g. induction fuel as [|k IH]; intros rs err g; [done|]. cbn [parse_loop].
  destruct rs as [|[[c p] s] rs]; cbn [map head tail forget fst snd].
  - unfold parse_an_arg. destruct (file g); cbn [negb Z.eqb].
    + destruct (negb (err =? 0)); [done|]. by intros [= <-].
    + change (negb (-1 =? 0)) with true. cbv iota. intros H. specialize (IH [] _ _ H). by destruct g.
  - change (forget (c, p, s)) with (c, s). destruct (parse_an_arg mktime (Some (c, s)) g) as [ret g1|] eqn:E; [|discriminate].
    destruct (parse_an_arg_keeps _ _ _ _ _ _ E) as (-> & E1 & E2 & E3). cbn [negb]. intros H.
    destruct (IH _ _ _ H) as (H1 & H2 & H3). unfold kept in *. cbn [last_optarg].
    rewrite H1, H2, H3, E1, E2, E3. clear.
    split_and!; match goal with |- context [last_optarg ?d rs] => destruct (last_optarg d rs) as [[]|] end;
      try done; by destruct (c =? _).
Qed.

(** ** The memory after the encryption *)

Lemma window_set_same i w l : (i + length w <= length l)%nat -> window i (length w) (set_window i w l) = w.
Proof.
  intros H. unfold window, set_window.
  assert (length (take i l) = i) as Hl by (rewrite length_take; lia). rewrite <- Hl at 1.
  rewrite drop_app_length. apply take_app_length.
Qed.

Lemma window_set_disjoint i w l j n :
  (i + length w <= length l)%nat -> (j + n <= length l)%nat -> (i + length w <= j \/ j + n <= i)%nat ->
  window j n (set_window i w l) = window j n l.
Proof.
  intros Hi Hj Hd. unfold window, set_window. apply list_eq. intros k.
  destruct (decide (k < n)%nat) as [Hk|Hk].
  - rewrite !lookup_take_lt, !lookup_drop by done. destruct Hd as [Hd|Hd].
    + rewrite app_assoc, lookup_app_r by (rewrite length_app, length_take; lia).
      rewrite lookup_drop. f_equal. rewrite length_app, length_take. lia.
    + rewrite lookup_app_l by (rewrite length_take; lia). by rewrite lookup_take_lt by lia.
  - rewrite !lookup_ge_None_2; [done|rewrite length_take; lia..].
Qed.

Lemma c_string_app_some p l u : Forall (fun b => b <> 0) p -> c_string l = Some u -> c_string (p ++ l) = Some (p ++ u).
Proof.
  intros Hp H. induction Hp as [|b p Hb Hp IH]; [done|]. cbn [app c_string].
  by rewrite (proj2 (Z.eqb_neq b 0)), IH.
Qed.

Lemma c_string_some l : 0 ∈ l -> exists u, c_string l = Some u.
Proof.
  induction l as [|b l IH]; [by rewrite elem_of_nil|]. cbn [c_string]. intros H.
  destruct (Z.eqb_spec b 0) as [->|Hb]; [by eexists|]. apply elem_of_cons in H as [H|H]; [by destruct Hb|].
  destruct (IH H) as [u ->]. by eexists.
Qed.

(** A window is what the memory starts with at its place. *)
Lemma drop_window i n l : (i + n <= length l)%nat -> drop i l = window i n l ++ drop (i + n) l.
Proof. intros H. unfold window. rewrite <- drop_drop. symmetry. apply take_drop. Qed.

Lemma window_prefix i n k (l : list Z) : (k <= n)%nat -> window i k l = take k (window i n l).
Proof. intros H. unfold window. rewrite take_take. by rewrite Nat.min_l. Qed.

Section Writes.
Context (mem : list Z) (argv : list (nat * list Z)).
Hypothesis args : args_in mem argv.

(** One write into the argument at [fst place], to its end. *)
Definition fits (place : option (nat * nat)) (e : list Z) : Prop :=
  match place with
  | Some (a, off) => exists w, (a, w) ∈ argv /\ (off <= length w)%nat /\ length e = S (length w - off)
  | None => True
  end.

(** The memory between the writes: every argument is as it was, or its
    beginning and what was written. *)
Fixpoint write_in (a : nat) (ws : list (option (nat * nat) * list Z)) : option (nat * list Z) :=
  match ws with
  | [] => None
  | (Some (b, off), e) :: ws => if (b =? a)%nat then Some (off, e) else write_in a ws
  | (None, _) :: ws => write_in a ws
  end.

Lemma write_in_app a ws ws' :
  write_in a (ws ++ ws') = match write_in a ws with Some r => Some r | None => write_in a ws' end.
Proof.
  induction ws as [|[[[b off]|] e] ws IH]; cbn [write_in app]; [done| |exact IH]. by destruct (b =? a)%nat.
Qed.

Definition written_as (ws : list (option (nat * nat) * list Z)) (a : nat) (w : list Z) : list Z :=
  match write_in a ws with
  | Some (off, e) => take off w ++ e
  | None => w ++ [0]
  end.

Definition holds_as (ws : list (option (nat * nat) * list Z)) (m : list Z) : Prop :=
  length m = length mem /\ last m = Some 0
  /\ forall a w, (a, w) ∈ argv -> window a (S (length w)) m = written_as ws a w.

Lemma holds_start : holds_as [] mem.
Proof.
  destruct args as [Hs _ _ (mem0 & Hm & _)]. split; [done|]. split; [rewrite Hm; apply last_snoc|].
  intros a w H. exact (proj1 (Hs a w H)).
Qed.

Lemma range a w (m : list Z) : (a, w) ∈ argv -> length m = length mem -> (a + S (length w) < length m)%nat.
Proof.
  destruct args as [_ _ _ (mem0 & Hm & H0)]. intros H Hl. specialize (H0 a w H). rewrite Hl, Hm, length_app. cbn. lia.
Qed.

Lemma same_argument a w w' : (a, w) ∈ argv -> (a, w') ∈ argv -> w = w'.
Proof.
  destruct args as [_ _ Hnd _]. clear args. intros H H'. induction argv as [|[b v] l IH]; [by apply elem_of_nil in H|].
  cbn [map] in Hnd. apply NoDup_cons in Hnd as [Hn Hnd].
  assert (forall v', (b, v') ∉ l) as Hb.
  { intros v' Hv. apply Hn. apply list_elem_of_In, in_map_iff. exists (b, v'). split; [done|]. by apply list_elem_of_In. }
  apply elem_of_cons in H as [[= -> ->]|H]; apply elem_of_cons in H' as [E|H'].
  - by injection E.
  - by destruct (Hb w').
  - injection E as -> ->. by destruct (Hb w).
  - by apply IH.
Qed.

Lemma write_holds ws m place e :
  holds_as ws m -> fits place e ->
  (match place with Some (a, _) => write_in a ws = None | None => True end) ->
  holds_as (ws ++ [(place, e)]) (write_at place e m).
Proof.
  intros (Hl & Hz & Hw) Hf Hne. unfold holds_as, written_as. destruct place as [[a off]|]; cbn [write_at].
  - destruct Hf as (w & Ha & Hoff & He). pose proof (range a w m Ha Hl) as Hr.
    assert (a + off + length e = a + S (length w))%nat as Ee by lia.
    assert (length (set_window (a + off) e m) = length m) as Hs by (apply set_window_length; lia).
    split; [by rewrite Hs|]. split.
    + unfold set_window. rewrite app_assoc, last_app. rewrite Ee.
      rewrite <- (take_drop (a + S (length w)) m), last_app in Hz.
      destruct (last (drop (a + S (length w)) m)) eqn:El; [by rewrite Hz|].
      apply last_None in El. apply (f_equal length) in El. rewrite length_drop in El. cbn in El. lia.
    + intros b v Hb. rewrite write_in_app. specialize (Hw b v Hb). unfold written_as in Hw.
      destruct (Nat.eq_dec b a) as [->|Hba].
      * rewrite (same_argument a v w Hb Ha) in *. clear v Hb.
        rewrite Hne in *. cbn [write_in]. rewrite Nat.eqb_refl.
        unfold window, set_window. rewrite drop_app_le by (rewrite length_take; lia).
        rewrite take_app_ge by (rewrite length_drop, length_take; lia).
        rewrite length_drop, length_take, Nat.min_l by lia.
        replace (S (length w) - (a + off - a))%nat with (length e) by lia. rewrite take_app_length. f_equal.
        change (skipn a (firstn (a + off) m) = firstn off w).
        rewrite <- firstn_skipn_comm. change (window a off m = take off w). rewrite (window_prefix a (S (length w)) off) by lia.
        rewrite Hw, take_app_le by done. done.
      * cbn [write_in]. rewrite (proj2 (Nat.eqb_neq a b)) by lia.
        assert (forall o : option (nat * list Z), match o with Some r => Some r | None => None end = o) as -> by by intros [].
        rewrite <- Hw. pose proof (range b v m Hb Hl).
        apply window_set_disjoint; [lia|lia|]. rewrite Ee.
        destruct args as [_ Hap _ _]. destruct (Hap a w b v Ha Hb ltac:(lia)); lia.
  - split; [done|]. split; [done|]. intros a w Ha. rewrite (Hw a w Ha). unfold written_as. rewrite write_in_app.
    by destruct (write_in a ws).
Qed.
End Writes.

(** One argument, read after the writes. *)
Lemma string_written mem argv ws m a w :
  args_in mem argv -> holds_as mem argv ws m -> (a, w) ∈ argv ->
  exists t, string_at m a = Some t
    /\ match write_in a ws with
       | None => t = w
       | Some (off, e) => exists u behind, c_string (e ++ behind) = Some u /\ t = take off w ++ u
       end.
Proof.
  intros Hargs (Hl & Hz & Hw) Ha. pose proof (range mem argv Hargs a w m Ha Hl) as Hr.
  destruct Hargs as [Hs _ _ _]. destruct (Hs a w Ha) as [_ Hnz]. clear Hs. specialize (Hw a w Ha).
  unfold string_at. rewrite (drop_window a (S (length w)) m) by lia. rewrite Hw. unfold written_as.
  assert (0 ∈ drop (a + S (length w)) m) as H0.
  { rewrite <- (take_drop (a + S (length w)) m), last_app in Hz. destruct (last (drop _ m)) as [z|] eqn:El.
    - injection Hz as ->. apply last_Some in El as [l' ->]. apply elem_of_app. right. by left.
    - apply last_None in El. apply (f_equal length) in El. rewrite length_drop in El. cbn in El. lia. }
  destruct (write_in a ws) as [[off e]|].
  - destruct (c_string_some (e ++ drop (a + S (length w)) m)) as [u Hu]; [apply elem_of_app; by right|].
    exists (take off w ++ u). split; [|by eexists _, _].
    rewrite <- app_assoc. apply c_string_app_some; [by apply Forall_take|exact Hu].
  - exists w. split; [|done]. rewrite <- app_assoc. by apply c_string_app.
Qed.

(** The strings printed. *)
Lemma encrypted_shown args argv inlo xecc lsto ei ex el (array : nat -> list Z -> Prop) :
  places_ok args argv inlo xecc lsto ->
  length ei = S (length inlo) -> length ex = S (length xecc) -> length el = S (length lsto) ->
  array 4%nat ei -> array 5%nat ex -> array 6%nat el ->
  exists shown, mapM (string_at (encrypted_memory args ei ex el)) (am_argv args) = Some shown
    /\ Forall2 (shown_as args array) argv shown.
Proof.
  intros [Hargv Hmem Hi Hx Hl Hap] Li Lx Ll Ai Ax Al.
  destruct args as [mem argp pi px pl]. cbn [am_mem am_argv am_inlo am_xecc am_lsto] in *.
  assert (forall p s e, place_of_string argv p s -> length e = S (length s) -> fits argv p e) as Hfits.
  { intros [[a off]|] s e; cbn; [|done]. intros (w & Ha & Ho & ->) ->. exists w. rewrite length_drop. done. }
  pose proof (Hfits _ _ _ Hi Li) as Fi. pose proof (Hfits _ _ _ Hx Lx) as Fx. pose proof (Hfits _ _ _ Hl Ll) as Fl.
  set (ws := [(pi, ei); (px, ex); (pl, el)]).
  assert (holds_as mem argv ws (write_at pl el (write_at px ex (write_at pi ei mem)))) as Hm.
  { change ws with ((([] ++ [(pi, ei)]) ++ [(px, ex)]) ++ [(pl, el)]).
    pose proof (holds_start mem argv Hmem) as H0.
    apply (write_holds mem argv Hmem _ _ pi ei) in H0; [|exact Fi|by destruct pi as [[]|]].
    apply (write_holds mem argv Hmem _ _ px ex) in H0; [|exact Fx|].
    2: { destruct px as [[a off]|]; [|done]. destruct pi as [[b o]|]; [|done]. cbn in *.
         rewrite (proj2 (Nat.eqb_neq b a)); [done|]. intros ->. apply NoDup_cons in Hap as [Hn _]. apply Hn. by left. }
    apply (write_holds mem argv Hmem _ _ pl el) in H0; [exact H0|exact Fl|].
    destruct pl as [[a off]|]; [|done]. destruct pi as [[b o]|], px as [[b' o']|]; cbn in *;
      repeat (rewrite (proj2 (Nat.eqb_neq _ a));
        [|intros ->; repeat (apply NoDup_cons in Hap as [? Hap]); set_solver]); done. }
  assert (forall a w, (a, w) ∈ argv -> exists t, string_at (write_at pl el (write_at px ex (write_at pi ei mem))) a = Some t
    /\ shown_as (ArgMemory mem argp pi px pl) array (a, w) t) as Hone.
  { intros a w Ha. destruct (string_written _ _ _ _ a w Hmem Hm Ha) as (t & Ht & H). exists t. split; [exact Ht|].
    unfold shown_as, place_in. cbn [am_inlo am_xecc am_lsto fst snd]. unfold ws in H. clear Ht Hm.
    assert (forall off e, fits argv (Some (a, off)) e -> length e = S (length w - off)) as Hlen.
    { intros off e (w' & Ha' & _ & ->). by rewrite (same_argument mem argv Hmem a w w' Ha Ha'). }
    destruct pi as [[b off]|], px as [[b' off']|], pl as [[b'' off'']|]; cbn [write_in] in H;
      repeat (match type of H with context [(?x =? a)%nat] => destruct (Nat.eqb_spec x a) as [->|] end);
      try exact H; destruct H as (u & behind & Hu & ->); eexists _, u, behind; (split; [eassumption|]); by auto. }
  clear Hm Hap Hi Hx Hl Hfits Hmem Fi Fx Fl. unfold encrypted_memory. cbn [am_mem am_inlo am_xecc am_lsto].
  rewrite Hargv. clear Hargv. induction argv as [|[a w] argv IH].
  { by exists []. }
  destruct (Hone a w ltac:(by left)) as (t & Ht & Hs). destruct IH as (shown & E & HF).
  { intros b v Hb. apply Hone. by right. }
  exists (t :: shown). cbn [map fst mapM]. rewrite Ht. cbn [mbind option_bind]. rewrite E. split; [done|by constructor].
Qed.

(** ** Other orders *)

Lemma args_in_perm mem argv argv' : Permutation argv' argv -> args_in mem argv -> args_in mem argv'.
Proof.
  intros Hp [H1 H2 H3 (m & Hm & H4)]. split.
  - intros a w. rewrite Hp. apply H1.
  - intros a w a' w'. rewrite Hp. apply H2.
  - by rewrite Hp.
  - exists m. split; [done|]. intros a w. rewrite Hp. apply H4.
Qed.

Lemma args_in_tail mem x argv : args_in mem (x :: argv) -> args_in mem argv.
Proof.
  intros [H1 H2 H3 (m & Hm & H4)]. split.
  - intros a w H. apply H1. by right.
  - intros a w a' w' H H'. apply H2; by right.
  - cbn in H3. by apply NoDup_cons in H3 as [_ H3].
  - exists m. split; [done|]. intros a w H. apply H4. by right.
Qed.

Lemma args_in_strings mem argv a w : args_in mem argv -> (a, w) ∈ argv -> string_at mem a = Some w.
Proof.
  intros H Ha. destruct (string_written mem argv [] mem a w H (holds_start mem argv H) Ha) as (t & -> & E).
  cbn in E. by rewrite E.
Qed.

Lemma args_in_all mem argv : args_in mem argv -> mapM (string_at mem) (map fst argv) = Some (map snd argv).
Proof.
  intros H. assert (forall l, l ⊆ argv -> mapM (string_at mem) (map fst l) = Some (map snd l)) as Hl; [|by apply Hl].
  induction l as [|[a w] l IH]; intros Hs; [done|]. cbn [map fst snd mapM].
  rewrite (args_in_strings mem argv a w H) by (apply Hs; by left). cbn [mbind option_bind].
  rewrite IH; [done|]. intros x Hx. apply Hs. by right.
Qed.

(** What getopt and the options leave, from the program's first arguments. *)
Definition arg_memory_of (mem : list Z) (reorder : bool) (argv : list (nat * list Z)) : arg_memory :=
  let '(rs, rest) := getopt_at reorder optstring (tail argv) in
  ArgMemory mem (map fst (take 1 argv ++ rest)) (last_place (chr "i") rs) (last_place (chr "x") rs) (last_place (chr "l") rs).

(** The arguments afterwards: getopt may have moved them. *)
Definition args_after (reorder : bool) (argv : list (nat * list Z)) : list (nat * list Z) :=
  take 1 argv ++ (getopt_at reorder optstring (tail argv)).2.

Lemma arg_memory_ok mem reorder argv inlo xecc lsto :
  args_in mem argv ->
  let rs := (getopt_at reorder optstring (tail argv)).1 in
  (forall s, kept (chr "i") rs None = Some s -> inlo = s) ->
  (forall s, kept (chr "x") rs None = Some s -> xecc = s) ->
  (forall s, kept (chr "l") rs None = Some s -> lsto = s) ->
  places_ok (arg_memory_of mem reorder argv) (args_after reorder argv) inlo xecc lsto.
Proof.
  intros Hin. unfold arg_memory_of, args_after. cbv zeta.
  destruct (getopt_at reorder optstring (tail argv)) as [rs rest] eqn:E. cbn [fst snd].
  destruct (getopt_at_places _ _ _ _ _ E) as (Ho & Hp & Hperm). intros Hi Hx Hl.
  assert (Permutation (take 1 argv ++ rest) argv) as Hall.
  { rewrite Hperm. destruct argv as [|x argv]; done. }
  assert (NoDup (owners rs)) as Hnd.
  { eapply sublist_NoDup; [|exact Ho]. destruct Hin as [_ _ Hnd _]. destruct argv; [exact Hnd|].
    cbn in Hnd |- *. by apply NoDup_cons in Hnd as [_ ?]. }
  assert (forall c s, (forall t, kept c rs None = Some t -> s = t) -> place_of_string (take 1 argv ++ rest) (last_place c rs) s) as Hplace.
  { intros c s Hs. unfold kept, last_place in *. destruct (last_optarg c rs) as [[p t]|] eqn:Ec; [|done].
    rewrite (Hs t eq_refl). cbn [mbind option_bind fst]. apply last_optarg_in in Ec.
    rewrite Forall_forall in Hp. specialize (Hp _ Ec). unfold placed in Hp. cbn [fst snd] in Hp.
    destruct p as [[a off]|]; [|done]. destruct Hp as (w & Ha & H1 & H2). exists w. split; [|done].
    apply elem_of_app. right. by rewrite Hperm. }
  split; cbn [am_argv am_mem am_inlo am_xecc am_lsto]; [done| |by apply Hplace..|].
  - by eapply args_in_perm.
  - pose proof (fun c d a off a' off' => owners_apart rs c d a off a' off' Hnd) as Hap.
    pose proof (Hap (chr "i") (chr "x")) as H1. pose proof (Hap (chr "i") (chr "l")) as H2. pose proof (Hap (chr "x") (chr "l")) as H3.
    destruct (last_place (chr "i") rs) as [[]|], (last_place (chr "x") rs) as [[]|], (last_place (chr "l") rs) as [[]|];
      cbn; rewrite ?NoDup_cons; repeat split; try apply NoDup_nil_2; try (rewrite ?elem_of_cons, ?elem_of_nil; naive_solver).
Qed.
