(* ===== verification/AkbGen.v ===== *)
(** * akb_cc: the C program written (cc/akb_cc.c)

    rand_mod, rand_chr, noise, prnt_bytes, prnt_array and write_C.  The results
    of rand(3) are a stream, of which a position is the state; the text is a
    list of bytes.  [None] is a loop over [rand] cut after [fuel] rounds, or an
    argument that is read behind its memory. *)
From S2P Require Import Prelude Libc Arc4 AkbOpts AkbArgs AkbRtc.

Definition RAND_MAX : Z := 2 ^ 31 - 1.

(** Programs that draw from the stream. *)
Definition draws (A : Type) : Type := nat -> option (A * nat).
Definition dret {A} (x : A) : draws A := fun k => Some (x, k).
Definition dbind {A B} (m : draws A) (f : A -> draws B) : draws B :=
  fun k => '(x, k) ← m k; f x k.
Definition dfail {A} : draws A := fun _ => None.
Notation "x <-- m ; f" := (dbind m (fun x => f)) (at level 100, m at next level, right associativity).
Notation "' p <-- m ; f" := (dbind m (fun x => let 'p := x in f)) (at level 100, p pattern, m at next level, right associativity).

Section Gen.
Context (rand : nat -> Z) (fuel : nat).

(** [while (top <= (rnd = rand())) continue;] *)
Fixpoint rand_below (fuel : nat) (top : Z) : draws Z :=
  fun k =>
    match fuel with
    | O => None
    | S fuel =>
        let rnd := rand k in
        if top <=? rnd then rand_below fuel top (S k) else Some (rnd, S k)
    end.

(** The quotient of doubles [1.0*mod*rnd/(1.0+top)], converted to unsigned: for
    [mod] up to [2^22] the product is exact and the rounding of the quotient
    does not reach the next integer. *)
Definition rand_mod (mod_ : Z) : draws Z :=
  let top := RAND_MAX in
  let top := top - top mod mod_ in
  rnd <-- rand_below fuel top;
  dret (mod_ * rnd / (1 + top)).

(** [(char)rand_mod(1<<(sizeof(char)<<3))], as a byte. *)
Definition rand_chr : draws Z := rand_mod (1 << (1 << 3)).

(** [do *ptr = rand_chr(); while (str && !isalnum((int)*ptr));] *)
Fixpoint noise_chr (fuel : nat) (str : bool) : draws Z :=
  match fuel with
  | O => dfail
  | S fuel => b <-- rand_chr; if str && negb (isalnum b) then noise_chr fuel str else dret b
  end.

Fixpoint noise_bytes (n : nat) (str : bool) : draws (list Z) :=
  match n with
  | O => dret []
  | S n => b <-- noise_chr fuel str; bs <-- noise_bytes n str; dret (b :: bs)
  end.

(** The bytes written at [ptr], and the result. *)
Definition noise (min xtra : Z) (str : bool) : draws (list Z * Z) :=
  xtra <-- (if negb (xtra =? 0) then rand_mod xtra else dret xtra);
  let xtra := xtra + min in
  bs <-- noise_bytes (Z.to_nat xtra) str;
  dret (bs ++ (if str then [0] else []), xtra).

(** ** Printing of the data *)

(** The text of byte [i]. *)
Definition byte_text (i : Z) (b : Z) : list Z :=
  (if (i .& 0xf) =? 0 then [10; 9; 34] else []) ++ 92 :: fmt_o 3 b
  ++ (if (i .& 0xf) =? 0xf then [34] else []).

(** [for (i = 0; i < n; i++)], with [k = n - i] rounds left. *)
Fixpoint prnt_loop (ptr : list Z) (m l i : Z) (k : nat) : draws (list Z) :=
  match k with
  | O => dret []
  | S k =>
      b <-- (if (m <=? i) && (i <? l) then dret (ptr !!! Z.to_nat (i - m)) else rand_chr);
      out <-- prnt_loop ptr m l (i + 1) k;
      dret (byte_text i b ++ out)
  end.

(** The text, and the new [offset]. *)
Definition prnt_bytes (ptr : list Z) (m l n offset : Z) : draws (list Z * Z) :=
  let l := l + m in
  let n := n + l in
  out <-- prnt_loop ptr m l 0 (Z.to_nat n);
  dret (out ++ (if negb ((n .& 0xf) =? 0) then [34] else []), offset + n).

(** [cast] is the null pointer or a text. *)
Definition prnt_array (ptr name : list Z) (l : Z) (cast : option (list Z)) (offset : Z) : draws (list Z * Z) :=
  m <-- rand_mod (1 + l / 4);
  n <-- rand_mod (1 + l / 4);
  let a := (offset + m) mod l in
  let m := match cast with Some _ => if negb (a =? 0) then m + (l - a) else m | None => m end in
  let head := [10] ++ text_of "#define      " ++ name ++ text_of "_z	" ++ fmt_d l
    ++ [10] ++ text_of "#define      " ++ name ++ text_of "	("
    ++ match cast with Some c => c | None => [] end ++ text_of "(&data[" ++ fmt_d (offset + m) ++ text_of "]))" in
  '(out, offset) <-- prnt_bytes ptr m l n offset;
  dret (head ++ out, offset).

(** ** write_C *)

(** The names of the fifteen arrays, in the order of the switch. *)
Definition names : list (list Z) :=
  map text_of ["pswd"; "msg1"; "date"; "shll"; "inlo"; "xecc"; "lsto"; "tst1"; "chk1"; "msg2"; "rlax";
               "opts"; "text"; "tst2"; "chk2"]%string.

(** The fields [key_with_file] takes from [stat], and the [struct stat] that has
    these and is 0 elsewhere: its layout is the platform's. *)
Record stat_fields : Type := StatFields {
  st_ino : Z; st_dev : Z; st_rdev : Z; st_uid : Z; st_gid : Z; st_size : Z; st_mtime : Z; st_ctime : Z }.
Context (struct_stat : stat_fields -> list Z).

(** The new cipher state; [None] is the result -1. *)
Definition key_with_file (statf : option stat_fields) (st : arc4_state) : option arc4_state :=
  control ← statf;
  Some (key (struct_stat control) st).

(** A C string in an array. *)
Definition c_array (s : list Z) : list Z := s ++ [0].

Definition has_expired : list Z := text_of "has expired!" ++ [10].
Definition location_changed : list Z := text_of "location has changed!".
Definition abnormal_behavior : list Z := text_of "abnormal behavior!".
Definition shell_changed : list Z := text_of "shell has changed!".

(** The strings write_C starts from. *)
Record inputs : Type := Inputs {
  in_date : list Z; in_mail : list Z; in_rlax : Z; in_shll : list Z; in_inlo : list Z; in_xecc : list Z;
  in_lsto : list Z; in_opts : list Z; in_text : list Z }.

(** The part "Encrypt", with the noise [pswd] and the result of [stat] for the
    shell: the fifteen arrays, or the exit with an invalid file name. *)
Definition encrypt (pswd : list Z) (statf : option stat_fields) (inp : inputs) (st : arc4_state) : option (list (list Z)) :=
  let tst1 := c_array location_changed in
  let chk1 := tst1 in
  let tst2 := c_array shell_changed in
  let chk2 := tst2 in
  let st := stte_0 st in
  let st := key pswd st in
  let msg1 := c_array (has_expired ++ in_mail inp) in
  let '(msg1, st) := arc4 msg1 st in
  let '(date, st) := arc4 (c_array (in_date inp)) st in
  let '(shll, st) := arc4 (c_array (in_shll inp)) st in
  let '(inlo, st) := arc4 (c_array (in_inlo inp)) st in
  let '(xecc, st) := arc4 (c_array (in_xecc inp)) st in
  let '(lsto, st) := arc4 (c_array (in_lsto inp)) st in
  let '(tst1, st) := arc4 tst1 st in
  let st := key chk1 st in
  let '(chk1, st) := arc4 chk1 st in
  let '(msg2, st) := arc4 (c_array abnormal_behavior) st in
  let indx := in_rlax inp =? 0 in
  let '(rlax, st) := arc4 [in_rlax inp] st in
  st ← (if indx then key_with_file statf st else Some st);
  let '(opts, st) := arc4 (c_array (in_opts inp)) st in
  let '(text, st) := arc4 (c_array (in_text inp)) st in
  let '(tst2, st) := arc4 tst2 st in
  let st := key chk2 st in
  let '(chk2, st) := arc4 chk2 st in
  Some [pswd; msg1; date; shll; inlo; xecc; lsto; tst1; chk1; msg2; rlax; opts; text; tst2; chk2].

(** The first array from position [i] on that is not printed yet ([z >= 0]): the
    cases fall through. *)
Fixpoint first_pending (i : nat) (arrays : list (option (list Z))) : option (nat * list Z) :=
  match arrays with
  | [] => None
  | Some a :: rest => Some (i, a)
  | None :: rest => first_pending (S i) rest
  end.

(** [do { switch (indx) ... indx = 0; } while (!done)]: from [indx] on, then
    from 0; [None] would be the loop that never ends. *)
Definition pick (indx : nat) (arrays : list (option (list Z))) : option (nat * list Z) :=
  match first_pending indx (drop indx arrays) with
  | Some r => Some r
  | None => first_pending 0 arrays
  end.

(** [do ... while (numd+=done)], from [numd] on. *)
Fixpoint emit (numd : nat) (arrays : list (option (list Z))) (offset : Z) : draws (list Z) :=
  match numd with
  | O => dret []
  | S numd =>
      indx <-- rand_mod 15;
      match pick (Z.to_nat indx) arrays with
      | None => dfail
      | Some (i, a) =>
          '(out, offset) <-- prnt_array a (names !!! i) (Z.of_nat (length a)) None offset;
          rest <-- emit numd (<[i := None]> arrays) offset;
          dret (out ++ rest)
      end
  end.

Definition line (l : list Z) : list Z := l ++ [10].

(** [argv], each followed by a blank. *)
Definition print_argv (argv : list (list Z)) : list Z := concat (map (fun a => a ++ sp) argv).

(** The text before and after the data. *)
Definition file_head (argv : list (list Z)) : list Z :=
  line (text_of "#if 0")
  ++ [9] ++ line (my_name ++ sp ++ version ++ [44; 32] ++ subject)
  ++ [9] ++ line (cpright ++ sp ++ author_f ++ sp ++ author_s ++ sp ++ author_e) ++ [10; 9]
  ++ print_argv argv ++ [10] ++ line (line (text_of "#endif")) ++ text_of "static  char data [] = ".

Definition file_tail (g : globals) : list Z :=
  line (text_of "/* End of data[] */;")
  ++ line (text_of "#define      hide_z	" ++ fmt_d (1 << 12))
  ++ line (text_of "#define DEBUGEXEC	" ++ fmt_d (DEBUGEXEC_flag g) ++ text_of "	/* Define as 1 to debug execvp calls */")
  ++ line (text_of "#define TRACEABLE	" ++ fmt_d (TRACEABLE_flag g) ++ text_of "	/* Define as 1 to enable ptrace the executable */")
  ++ line (text_of "#define BUSYBOXON	" ++ fmt_d (BUSYBOXON_flag g) ++ text_of "	/* Define as 1 to enable work with busybox */")
  ++ concat (map line RTC).

(** The strings the options and the script have set; eval_shell has set all. *)
Definition inputs_of (g : globals) (text : list Z) : option inputs :=
  shll ← shll g; inlo ← inlo g; xecc ← xecc g; lsto ← lsto g; opts ← opts g;
  Some (Inputs (date g) (mail g) (rlax g) shll inlo xecc lsto opts text).

(** The name and the text of the file written; [Some None] is the exit with an
    invalid file name.  [inlo], [xecc] and [lsto], the arrays 4 to 6, are
    encrypted where they are, which may be in the arguments that are printed. *)
Definition write_C (fname : list Z) (args : arg_memory) (g : globals) (text : list Z)
    (statf : option stat_fields) (st : arc4_state) : draws (option (list Z * list Z)) :=
  fun k =>
    inp ← inputs_of g text;
    (('(pswd, _) <-- noise 256 0 false;
      match encrypt pswd statf inp st with
      | None => dret None
      | Some arrays =>
          let mem := encrypted_memory args (arrays !!! 4%nat) (arrays !!! 5%nat) (arrays !!! 6%nat) in
          match mapM (string_at mem) (am_argv args) with
          | None => dfail
          | Some argv =>
              body <-- emit 15 (map Some arrays) 0;
              dret (Some (fname ++ text_of ".x.c", file_head argv ++ body ++ file_tail g))
          end
      end) k).
End Gen.

(** * The layout of the data *)

(** An array with the noise around it; [c_index] is its case of the switch. *)
Record chunk : Type := Chunk { c_index : nat; c_pre : list Z; c_payload : list Z; c_post : list Z }.
Definition c_bytes (c : chunk) : list Z := c_pre c ++ c_payload c ++ c_post c.

Fixpoint bytes_text (i : Z) (bs : list Z) : list Z :=
  match bs with
  | [] => []
  | b :: bs => byte_text i b ++ bytes_text (i + 1) bs
  end.

(** String literals of sixteen bytes each. *)
Definition literal_text (bs : list Z) : list Z :=
  bytes_text 0 bs ++ (if negb ((Z.of_nat (length bs) .& 0xf) =? 0) then [34] else []).

(** The definitions of the size and the place of an array, and the literals. *)
Definition chunk_text (offset : Z) (c : chunk) : list Z :=
  ([10] ++ text_of "#define      " ++ (names !!! c_index c) ++ text_of "_z	" ++ fmt_d (Z.of_nat (length (c_payload c)))
   ++ [10] ++ text_of "#define      " ++ (names !!! c_index c) ++ text_of "	("
   ++ [] ++ text_of "(&data[" ++ fmt_d (offset + Z.of_nat (length (c_pre c))) ++ text_of "]))")
  ++ literal_text (c_bytes c).

Fixpoint layout_text (offset : Z) (cs : list chunk) : list Z :=
  match cs with
  | [] => []
  | c :: cs => chunk_text offset c ++ layout_text (offset + Z.of_nat (length (c_bytes c))) cs
  end.

(** How a C compiler reads adjacent string literals with octal escapes. *)
Definition octal (b : Z) : option Z := if (48 <=? b) && (b <? 56) then Some (b - 48) else None.
Fixpoint read_literals (inside : bool) (text : list Z) : option (list Z) :=
  match text with
  | [] => if inside then None else Some []
  | 34 :: text => read_literals (negb inside) text
  | b :: text =>
      if inside then
        match b, text with
        | 92, x :: y :: z :: text =>
            x ← octal x; y ← octal y; z ← octal z;
            (cons (64 * x + 8 * y + z)) <$> read_literals true text
        | _, _ => (cons b) <$> read_literals true text
        end
      else if isspace b then read_literals false text else None
  end.

(** ** Lemmas *)

Lemma fmt_o_byte b :
  is_word 8 b -> fmt_o 3 b = [48 + b / 64; 48 + b / 8 mod 8; 48 + b mod 8].
Proof.
  intros Hb.
  assert (forallb (fun n => bool_decide (fmt_o 3 (Z.of_nat n) = [48 + Z.of_nat n / 64; 48 + Z.of_nat n / 8 mod 8; 48 + Z.of_nat n mod 8]))
    (seq 0 256) = true) as H by (vm_compute; reflexivity).
  rewrite forallb_forall in H. unfold is_word in Hb. specialize (H (Z.to_nat b) ltac:(apply in_seq; lia)).
  apply bool_decide_eq_true in H. by rewrite Z2Nat.id in H by lia.
Qed.

Lemma octal_digit d : 0 <= d < 8 -> octal (48 + d) = Some d.
Proof.
  intros Hd. unfold octal. rewrite (proj2 (Z.leb_le _ _)), (proj2 (Z.ltb_lt _ _)) by lia. cbn [andb]. f_equal. lia.
Qed.

(** A byte inside a literal. *)
Lemma read_byte b rest :
  is_word 8 b -> read_literals true (92 :: fmt_o 3 b ++ rest) = (cons b) <$> read_literals true rest.
Proof.
  intros Hb. rewrite fmt_o_byte by done. unfold is_word in Hb.
  cbn [app read_literals]. rewrite !octal_digit.
  - cbn [mbind option_bind]. f_equal. f_equal. Z.to_euclidean_division_equations. lia.
  - split; [by apply Z.div_pos; lia|apply Z.div_lt_upper_bound; lia].
  - by apply Z.mod_pos_bound.
  - by apply Z.mod_pos_bound.
Qed.

Lemma low4 i : 0 <= i -> (i .& 0xf) = i mod 16.
Proof. intros Hi. exact (Z.land_ones i 4 ltac:(lia)). Qed.

Lemma low4_next i : 0 <= i -> (i + 1) mod 16 = if i mod 16 =? 15 then 0 else i mod 16 + 1.
Proof.
  intros Hi. pose proof (Z.mod_pos_bound i 16 ltac:(lia)). pose proof (Z.div_mod i 16 ltac:(lia)).
  destruct (Z.eqb_spec (i mod 16) 15).
  - symmetry. apply Z.mod_unique with (i / 16 + 1); lia.
  - symmetry. apply Z.mod_unique with (i / 16); lia.
Qed.

(** The literals are read back as the bytes. *)
Lemma read_bytes_text bs i :
  words 8 bs -> 0 <= i ->
  read_literals (negb (i mod 16 =? 0))
    (bytes_text i bs ++ (if negb (((i + Z.of_nat (length bs)) .& 0xf) =? 0) then [34] else [])) = Some bs.
Proof.
  intros Hw. revert i. induction Hw as [|b bs Hb Hw IH]; intros i Hi.
  - cbn [bytes_text length app]. rewrite Z.add_0_r, low4 by done. by destruct (i mod 16 =? 0).
  - cbn [bytes_text length]. unfold byte_text. rewrite low4 by done. specialize (IH (i + 1) ltac:(lia)).
    rewrite low4_next in IH by done. replace (i + 1 + Z.of_nat (length bs)) with (i + Z.of_nat (S (length bs))) in IH by lia.
    set (rest := bytes_text (i + 1) bs) in *. set (close := if negb (((i + Z.of_nat (S (length bs))) .& 0xf) =? 0) then [34] else []) in *.
    clearbody rest close. pose proof (Z.mod_pos_bound i 16 ltac:(lia)) as Bi.
    assert (forall tl, read_literals (negb (i mod 16 =? 0)) ((if i mod 16 =? 0 then [10; 9; 34] else []) ++ tl) = read_literals true tl) as Hopen
      by (intros tl; by destruct (i mod 16 =? 0)).
    rewrite <- !app_assoc, Hopen. cbn [app]. rewrite <- !app_assoc, read_byte by done.
    destruct (Z.eqb_spec (i mod 16) 15) as [E|E].
    + cbn [Z.eqb negb] in IH. change (read_literals true ([34] ++ rest ++ close)) with (read_literals false (rest ++ close)).
      by rewrite IH.
    + rewrite (proj2 (Z.eqb_neq (i mod 16 + 1) 0)) in IH by lia. cbn [negb app] in *. by rewrite IH.
Qed.

Lemma read_literal_text bs : words 8 bs -> read_literals false (literal_text bs) = Some bs.
Proof. intros Hw. exact (read_bytes_text bs 0 Hw ltac:(lia)). Qed.

(** ** Draws *)

Section Draws.
Context (rand : nat -> Z) (fuel : nat).

(** The values of rand(3), and that no run of [fuel] of them is too large. *)
Hypothesis rand_range : forall k, 0 <= rand k <= RAND_MAX.
Hypothesis rand_low : forall k, exists j, (j < fuel)%nat /\ rand (k + j) < 2 ^ 30.

Lemma rand_below_spec top f j k :
  2 ^ 30 <= top -> (j < f)%nat -> rand (k + j) < 2 ^ 30 ->
  exists v k', rand_below rand f top k = Some (v, k') /\ 0 <= v < top.
Proof.
  intros Ht. revert j k. induction f as [|f IH]; intros j k Hj Hr; [lia|]. cbn [rand_below].
  destruct (Z.leb_spec top (rand k)) as [H|H].
  - destruct j as [|j]; [rewrite Nat.add_0_r in Hr; lia|]. apply (IH j); [lia|].
    by replace (S k + j)%nat with (k + S j)%nat by lia.
  - eexists _, _. split; [reflexivity|]. pose proof (rand_range k). lia.
Qed.

Lemma rand_mod_spec mod_ k :
  1 <= mod_ <= 2 ^ 30 -> exists v k', rand_mod rand fuel mod_ k = Some (v, k') /\ 0 <= v < mod_.
Proof.
  intros Hm. unfold rand_mod, dbind, dret. destruct (rand_low k) as (j & Hj & Hr).
  pose proof (Z.mod_pos_bound RAND_MAX mod_ ltac:(lia)). unfold RAND_MAX in *.
  destruct (rand_below_spec (2 ^ 31 - 1 - (2 ^ 31 - 1) mod mod_) fuel j k ltac:(lia) Hj Hr) as (v & k' & -> & Hv).
  cbn [mbind option_bind]. eexists _, _. split; [reflexivity|]. split.
  - apply Z.div_pos; nia.
  - apply Z.div_lt_upper_bound; nia.
Qed.

Lemma rand_chr_spec k : exists b k', rand_chr rand fuel k = Some (b, k') /\ is_word 8 b.
Proof. exact (rand_mod_spec 256 k ltac:(lia)). Qed.

Lemma noise_chr_spec f k :
  (0 < f)%nat -> exists b k', noise_chr rand fuel f false k = Some (b, k') /\ is_word 8 b.
Proof.
  intros Hf. destruct f as [|f]; [lia|]. cbn [noise_chr andb]. unfold dbind, dret.
  destruct (rand_chr_spec k) as (b & k' & -> & Hb). by exists b, k'.
Qed.

Lemma fuel_pos : (0 < fuel)%nat.
Proof. destruct (rand_low 0) as (j & Hj & _). lia. Qed.

Lemma noise_bytes_spec n k :
  exists bs k', noise_bytes rand fuel n false k = Some (bs, k') /\ length bs = n /\ words 8 bs.
Proof.
  revert k. induction n as [|n IH]; intros k; cbn [noise_bytes].
  - exists [], k. done.
  - unfold dbind. destruct (noise_chr_spec fuel k fuel_pos) as (b & k1 & -> & Hb). cbn [mbind option_bind].
    destruct (IH k1) as (bs & k2 & -> & Hl & Hw). cbn [mbind option_bind]. exists (b :: bs), k2.
    split; [done|]. split; [cbn; by rewrite Hl|by constructor].
Qed.

(** The bytes printed: the payload between noise. *)
Lemma prnt_loop_spec ptr m n i k :
  words 8 ptr -> 0 <= i -> 0 <= m ->
  exists bs k', prnt_loop rand fuel ptr m (Z.of_nat (length ptr) + m) i n k = Some (bytes_text i bs, k')
    /\ length bs = n /\ words 8 bs
    /\ forall j, (j < n)%nat -> m <= i + Z.of_nat j < Z.of_nat (length ptr) + m ->
       bs !!! j = ptr !!! Z.to_nat (i + Z.of_nat j - m).
Proof.
  intros Hw. revert i k. induction n as [|n IH]; intros i k Hi Hm; cbn [prnt_loop].
  - exists [], k. split_and!; [done..|lia].
  - unfold dbind.
    assert (exists b k1, (if (m <=? i) && (i <? Z.of_nat (length ptr) + m) then dret (ptr !!! Z.to_nat (i - m)) else rand_chr rand fuel) k
      = Some (b, k1) /\ is_word 8 b /\ (m <= i < Z.of_nat (length ptr) + m -> b = ptr !!! Z.to_nat (i - m))) as (b & k1 & -> & Hb & Eb).
    { destruct (Z.leb_spec m i), (Z.ltb_spec i (Z.of_nat (length ptr) + m)); cbn [andb].
      - eexists _, _. split; [done|]. split; [by apply words_lookup_total|done].
      - destruct (rand_chr_spec k) as (b & k1 & E & Hb). exists b, k1. split_and!; [done|done|lia].
      - destruct (rand_chr_spec k) as (b & k1 & E & Hb). exists b, k1. split_and!; [done|done|lia].
      - destruct (rand_chr_spec k) as (b & k1 & E & Hb). exists b, k1. split_and!; [done|done|lia]. }
    cbn [mbind option_bind]. destruct (IH (i + 1) k1 ltac:(lia) Hm) as (bs & k2 & -> & Hl & Hbs & Hj).
    cbn [mbind option_bind]. exists (b :: bs), k2. split; [done|]. split; [cbn; by rewrite Hl|]. split; [by constructor|].
    intros [|j] Hj' Hr.
    + cbn. rewrite Eb by lia. f_equal. lia.
    + change ((b :: bs) !!! S j) with (bs !!! j). rewrite Hj by lia. f_equal. lia.
Qed.

(** A chunk is printed. *)
Lemma prnt_array_spec c payload offset k :
  words 8 payload -> (1 <= length payload)%nat -> Z.of_nat (length payload) <= 2 ^ 31 -> 0 <= offset ->
  exists pre post k',
    prnt_array rand fuel payload (names !!! c) (Z.of_nat (length payload)) None offset k
    = Some ((chunk_text offset (Chunk c pre payload post),
             offset + Z.of_nat (length (c_bytes (Chunk c pre payload post)))), k')
    /\ words 8 pre /\ words 8 post.
Proof.
  intros Hw H1 H31 Ho. unfold prnt_array, dbind, dret. set (L := Z.of_nat (length payload)) in *.
  assert (1 <= 1 + L / 4 <= 2 ^ 30) as HL.
  { pose proof (Z.div_pos L 4 ltac:(lia) ltac:(lia)). assert (L / 4 <= 2 ^ 29) by (apply Z.div_le_upper_bound; lia). lia. }
  destruct (rand_mod_spec (1 + L / 4) k HL) as (m & k1 & -> & Hm). cbn [mbind option_bind].
  destruct (rand_mod_spec (1 + L / 4) k1 HL) as (n & k2 & -> & Hn). cbn [mbind option_bind].
  unfold prnt_bytes, dbind, dret.
  destruct (prnt_loop_spec payload m (Z.to_nat (n + (L + m))) 0 k2 Hw ltac:(lia) ltac:(lia)) as (bs & k3 & E & Hl & Hb & Hj).
  fold L in E, Hj. rewrite E. cbn [mbind option_bind].
  set (l := length payload) in *. set (mn := Z.to_nat m).
  assert (take l (drop mn bs) = payload) as Ep.
  { apply list_eq_same_length with l; [done|rewrite length_take, length_drop; unfold mn; lia|].
    intros j x y Hjl Hx Hy. rewrite lookup_take_lt, lookup_drop in Hx by done.
    apply list_lookup_total_correct in Hx, Hy. subst x y. rewrite (Hj (mn + j)%nat) by (unfold mn; lia). f_equal. unfold mn. lia. }
  exists (take mn bs), (drop (mn + l) bs), k3.
  assert (bs = take mn bs ++ payload ++ drop (mn + l) bs) as Ebs.
  { rewrite <- Ep at 1. rewrite <- drop_drop, take_drop. symmetry. apply take_drop. }
  assert (length (take mn bs) = mn) as Lt by (rewrite length_take; unfold mn; lia).
  split.
  - f_equal. f_equal. f_equal.
    + unfold chunk_text, literal_text, c_bytes. cbn [c_index c_pre c_payload c_post].
      rewrite <- Ebs, Lt, Hl. fold l. fold L. unfold mn. rewrite !Z2Nat.id by lia. rewrite <- !app_assoc. done.
    + unfold c_bytes. cbn [c_pre c_payload c_post]. rewrite <- Ebs, Hl. lia.
  - split; [by apply Forall_take|by apply Forall_drop].
Qed.

(** ** The loop over the arrays *)

(** The arrays not printed yet. *)
Fixpoint pending (i : nat) (arrays : list (option (list Z))) : list nat :=
  match arrays with
  | [] => []
  | Some _ :: rest => i :: pending (S i) rest
  | None :: rest => pending (S i) rest
  end.

Lemma first_pending_spec i arrays :
  match first_pending i arrays with
  | Some (j, a) => (i <= j)%nat /\ arrays !! (j - i)%nat = Some (Some a)
      /\ pending i arrays ≡ₚ j :: pending i (<[(j - i)%nat := None]> arrays)
  | None => pending i arrays = []
  end.
Proof.
  revert i. induction arrays as [|[a|] arrays IH]; intros i; cbn [first_pending pending]; [done| |].
  - rewrite Nat.sub_diag. done.
  - specialize (IH (S i)). destruct (first_pending (S i) arrays) as [[j a]|]; [|done].
    destruct IH as (Hj & Ha & Hp). split; [lia|]. replace (j - i)%nat with (S (j - S i)) by lia. done.
Qed.

Lemma pending_app i l1 l2 : pending i (l1 ++ l2) = pending i l1 ++ pending (i + length l1) l2.
Proof.
  revert i. induction l1 as [|[a|] l1 IH]; intros i; cbn [app pending length].
  - by rewrite Nat.add_0_r.
  - rewrite IH. by replace (S i + length l1)%nat with (i + S (length l1))%nat by lia.
  - rewrite IH. by replace (S i + length l1)%nat with (i + S (length l1))%nat by lia.
Qed.

Lemma pick_spec indx arrays :
  pending 0 arrays <> [] ->
  exists j a, pick indx arrays = Some (j, a) /\ arrays !! j = Some (Some a)
    /\ pending 0 arrays ≡ₚ j :: pending 0 (<[j := None]> arrays).
Proof.
  intros Hne. unfold pick. pose proof (first_pending_spec indx (drop indx arrays)) as H1.
  destruct (first_pending indx (drop indx arrays)) as [[j a]|].
  - destruct H1 as (Hj & Ha & Hp). exists j, a. split; [done|]. rewrite lookup_drop in Ha.
    replace (indx + (j - indx))%nat with j in Ha by lia. split; [done|].
    apply lookup_lt_Some in Ha as Hlt. rewrite <- (take_drop indx arrays).
    assert (length (take indx arrays) = indx) as Lt by (rewrite length_take; lia).
    rewrite insert_app_r_alt by lia. rewrite !pending_app, Lt. cbn [Nat.add]. rewrite Hp. symmetry. apply Permutation_middle.
  - pose proof (first_pending_spec 0 arrays) as H2. destruct (first_pending 0 arrays) as [[j a]|]; [|done].
    destruct H2 as (_ & Ha & Hp). rewrite Nat.sub_0_r in *. by exists j, a.
Qed.

Definition printable (a : list Z) : Prop := words 8 a /\ (1 <= length a)%nat /\ Z.of_nat (length a) <= 2 ^ 31.

Lemma emit_spec numd arrays offset k :
  length (pending 0 arrays) = numd -> 0 <= offset ->
  (forall i a, arrays !! i = Some (Some a) -> printable a) ->
  exists cs k', emit rand fuel numd arrays offset k = Some (layout_text offset cs, k')
    /\ map c_index cs ≡ₚ pending 0 arrays
    /\ Forall (fun c => arrays !! c_index c = Some (Some (c_payload c)) /\ words 8 (c_bytes c)) cs.
Proof.
  revert arrays offset k. induction numd as [|numd IH]; intros arrays offset k Hn Ho Ha; cbn [emit].
  - exists [], k. apply length_zero_iff_nil in Hn. rewrite Hn. done.
  - unfold dbind at 1. destruct (rand_mod_spec 15 k ltac:(lia)) as (indx & k1 & -> & Hx). cbn [mbind option_bind].
    destruct (pick_spec (Z.to_nat indx) arrays) as (j & a & -> & Ej & Hp); [by intros E; rewrite E in Hn|].
    destruct (Ha j a Ej) as (Hw & H1 & H31).
    destruct (prnt_array_spec j a offset k1 Hw H1 H31 Ho) as (pre & post & k2 & E & Wpre & Wpost).
    unfold dbind at 1. rewrite E. cbn [mbind option_bind]. set (c := Chunk j pre a post) in *.
    destruct (IH (<[j := None]> arrays) (offset + Z.of_nat (length (c_bytes c))) k2) as (cs & k3 & E3 & Hcs & Hf).
    + rewrite Hp in Hn. cbn [length] in Hn. lia.
    + lia.
    + intros i b Hi. destruct (decide (i = j)) as [->|Hne].
      * rewrite list_lookup_insert_eq in Hi by by eapply lookup_lt_Some. done.
      * rewrite list_lookup_insert_ne in Hi by done. by apply (Ha i).
    + unfold dbind, dret. rewrite E3. cbn [mbind option_bind]. exists (c :: cs), k3. split; [done|]. split.
      * cbn [map]. rewrite Hcs, Hp. done.
      * constructor.
        -- split; [done|]. unfold c_bytes, c. cbn. by repeat apply words_app.
        -- apply Forall_forall. intros c' Hc'. rewrite Forall_forall in Hf. destruct (Hf c' Hc') as [H2 H3]. split; [|done].
           destruct (decide (c_index c' = j)) as [Ec|Hne].
           ++ rewrite Ec, list_lookup_insert_eq in H2 by by eapply lookup_lt_Some. done.
           ++ by rewrite list_lookup_insert_ne in H2.
Qed.
End Draws.
