(* ===== verification/AkbRun.v ===== *)
(** * The program akb_cc writes: the functions of [RTC] (cc/akb_cc.c)

    The array [data] and the places of the fifteen arrays in it are what the
    generated file defines.  The cipher functions are the same text as in
    akb_cc and are those of Arc4.  [xsh] ends with a message that [main] prints,
    with the null pointer, or in [execvp]; an undefined read, a buffer overrun
    or a format other than [%s] is [None]. *)
From S2P Require Import Prelude Libc Digits Arc4 AkbOpts AkbArgs AkbGen.

(** The arrays, by their position in [names]. *)
Definition pswd := 0%nat.
Definition msg1 := 1%nat.
Definition date_ := 2%nat.
Definition shll_ := 3%nat.
Definition inlo_ := 4%nat.
Definition xecc_ := 5%nat.
Definition lsto_ := 6%nat.
Definition tst1 := 7%nat.
Definition chk1 := 8%nat.
Definition msg2 := 9%nat.
Definition rlax_ := 10%nat.
Definition opts_ := 11%nat.
Definition text_ := 12%nat.
Definition tst2 := 13%nat.
Definition chk2 := 14%nat.

Definition hide_z : nat := 4096.

(** How [xsh] ends: with a message for [main], in execvp, or - without a name
    for itself - in exit(1). *)
Inductive xsh_result : Type :=
  | Message (s : list Z)
  | Nameless
  | Exec (file : list Z) (varg : list (option (list Z))).

(** [sprintf(scrpt, fmt, me)] for a format whose only conversion is one [%s]. *)
Fixpoint sprintf_s (fmt : list Z) (arg : option (list Z)) : option (list Z) :=
  match fmt with
  | [] => Some []
  | 37 :: 115 :: fmt => s ← arg; rest ← sprintf_s fmt None; Some (s ++ rest)
  | 37 :: 37 :: fmt => rest ← sprintf_s fmt arg; Some (37 :: rest)
  | 37 :: _ => None
  | b :: fmt => rest ← sprintf_s fmt arg; Some (b :: rest)
  end.

(** [rmarg(argv, arg)], with the position of [arg]: the entry is removed. *)
Definition rmarg (argv : list (list Z)) (arg : nat) : list (list Z) :=
  take arg argv ++ drop (S arg) argv.

Section Run.
Context (struct_stat : stat_fields -> list Z) (place : nat -> nat * nat) (BUSYBOXON : Z).

Definition slice (i : nat) (data : list Z) : list Z := window (fst (place i)) (snd (place i)) data.

(** [arc4(name, name_z)] and [key(name, name_z)]. *)
Definition arc4_at (i : nat) (s : list Z * arc4_state) : list Z * arc4_state :=
  let '(data, st) := s in
  let '(out, st) := arc4 (slice i data) st in
  (set_window (fst (place i)) out data, st).
Definition key_at (i : nat) (s : list Z * arc4_state) : list Z * arc4_state :=
  let '(data, st) := s in (data, key (slice i data) st).

(** The C string that starts at an array. *)
Definition str_at (i : nat) (data : list Z) : option (list Z) := c_string (drop (fst (place i)) data).

(** [(a_z != b_z) || memcmp(b, a, b_z)]. *)
Definition differ (a b : nat) (data : list Z) : bool :=
  negb (snd (place a) =? snd (place b))%nat || negb (bool_decide (slice a data = slice b data)).

(** The arguments of the shell, from [j = 0] on, without the null pointer at the
    end.  [argv[0]] is copied even when it is the null pointer itself. *)
Definition shell_argv (ret : Z) (opts inlo scrpt lsto : list Z) (argv : list (list Z)) : list (option (list Z)) :=
  (if negb (BUSYBOXON =? 0) then [Some (bytes_of "busybox"); Some (bytes_of "sh")] else [argv !! 0%nat])
  ++ (if negb (ret =? 0) && negb (bool_decide (opts = [])) then [Some opts] else [])
  ++ (if negb (bool_decide (inlo = [])) then [Some inlo] else [])
  ++ [Some scrpt]
  ++ (if negb (bool_decide (lsto = [])) then [Some lsto] else [])
  ++ map Some (drop (Z.to_nat (if 1 <? ret then ret else 0)) argv).

(** The branch [if (ret)]: the script from the data. *)
Definition run_script (stat : list Z -> option stat_fields) (s : list Z * arc4_state) :
    option (xsh_result + list Z * (list Z * arc4_state)) :=
  let s := arc4_at rlax_ s in
  shll ← str_at shll_ (fst s);
  let keyed := if slice rlax_ (fst s) !!! 0%nat =? 0 then key_with_file struct_stat (stat shll) (snd s) else Some (snd s) in
  match keyed with
  | None => Some (inl (Message shll))
  | Some st =>
      let s := (fst s, st) in
      let s := arc4_at opts_ s in
      let s := arc4_at text_ s in
      let s := arc4_at tst2 s in
      let s := key_at tst2 s in
      let s := arc4_at chk2 s in
      if differ chk2 tst2 (fst s) then (m ← str_at tst2 (fst s); Some (inl (Message m))) else
      text ← str_at text_ (fst s);
      Some (inr (replicate hide_z 32 ++ text, s))
  end.

(** [ret] is the result of [chkenv], [now] that of [time], [me] the program's
    name; [s] is the data and the cipher state chkenv leaves. *)
Definition xsh (ret now : Z) (stat : list Z -> option stat_fields) (me : list Z) (argv : list (list Z)) (s : list Z * arc4_state) :
    option xsh_result :=
  let s := (fst s, stte_0 (snd s)) in
  let s := key_at pswd s in
  let s := arc4_at msg1 s in
  let s := arc4_at date_ s in
  date ← str_at date_ (fst s);
  if negb (bool_decide (date = [])) && (strtol date 10 <? now) then (m ← str_at msg1 (fst s); Some (Message m)) else
  let s := arc4_at shll_ s in
  let s := arc4_at inlo_ s in
  let s := arc4_at xecc_ s in
  let s := arc4_at lsto_ s in
  let s := arc4_at tst1 s in
  let s := key_at tst1 s in
  let s := arc4_at chk1 s in
  if differ chk1 tst1 (fst s) then (m ← str_at tst1 (fst s); Some (Message m)) else
  let s := arc4_at msg2 s in
  if ret <? 0 then (m ← str_at msg2 (fst s); Some (Message m)) else
  xecc ← str_at xecc_ (fst s);
  r ← (if negb (ret =? 0) then run_script stat s
       else if negb (bool_decide (xecc = [])) then
         scrpt ← sprintf_s xecc (Some me);
         if (length scrpt <? 512)%nat then Some (inr (scrpt, s)) else None
       else Some (inr (me, s)));
  match r with
  | inl m => Some m
  | inr (scrpt, s) =>
      shll ← str_at shll_ (fst s);
      inlo ← str_at inlo_ (fst s);
      lsto ← str_at lsto_ (fst s);
      opts ← (if negb (ret =? 0) then str_at opts_ (fst s) else Some []);
      Some (Exec shll (shell_argv ret opts inlo scrpt lsto argv))
  end.
End Run.

(** * Lemmas *)

(** ** Places in the data *)

(** Where the arrays of the chunks are, from [offset] on: the macros. *)
Fixpoint place_of (offset : nat) (cs : list chunk) (i : nat) : nat * nat :=
  match cs with
  | [] => (0, 0)%nat
  | c :: cs =>
      if (c_index c =? i)%nat then ((offset + length (c_pre c))%nat, length (c_payload c))
      else place_of (offset + length (c_bytes c)) cs i
  end.

(** The array [data] of the compiled program. *)
Definition data_of (cs : list chunk) : list Z := concat (map c_bytes cs).

Lemma place_range offset cs i :
  i ∈ map c_index cs ->
  (offset <= fst (place_of offset cs i))%nat
  /\ (fst (place_of offset cs i) + snd (place_of offset cs i) <= offset + length (data_of cs))%nat.
Proof.
  unfold data_of. revert offset. induction cs as [|c cs IH]; intros offset Hi; [by apply elem_of_nil in Hi|].
  cbn [place_of map concat] in *. rewrite length_app. destruct (Nat.eqb_spec (c_index c) i) as [E|E].
  - cbn [fst snd]. unfold c_bytes. rewrite !length_app. lia.
  - apply elem_of_cons in Hi as [->|Hi]; [done|]. specialize (IH (offset + length (c_bytes c))%nat Hi). lia.
Qed.

Lemma place_window c cs A :
  NoDup (map c_index cs) -> c ∈ cs ->
  window (fst (place_of (length A) cs (c_index c))) (snd (place_of (length A) cs (c_index c))) (A ++ data_of cs) = c_payload c.
Proof.
  unfold data_of. revert A. induction cs as [|d cs IH]; intros A Hnd Hc; [by apply elem_of_nil in Hc|].
  cbn [place_of map concat] in *. apply NoDup_cons in Hnd as [Hn Hnd]. apply elem_of_cons in Hc as [->|Hc].
  - rewrite Nat.eqb_refl. cbn [fst snd]. unfold window, c_bytes. rewrite <- drop_drop, drop_app_length, <- !app_assoc, drop_app_length.
    apply take_app_length.
  - rewrite (proj2 (Nat.eqb_neq _ _)).
    + specialize (IH (A ++ c_bytes d) Hnd Hc). rewrite length_app in IH. by rewrite <- app_assoc in IH.
    + intros E. apply Hn. rewrite E. apply list_elem_of_In, in_map. by apply list_elem_of_In.
Qed.

Definition disjoint (p q : nat * nat) : Prop := (fst p + snd p <= fst q \/ fst q + snd q <= fst p)%nat.

Lemma place_disjoint offset cs i j :
  i ∈ map c_index cs -> j ∈ map c_index cs -> i <> j -> disjoint (place_of offset cs i) (place_of offset cs j).
Proof.
  revert offset. induction cs as [|c cs IH]; intros offset Hi Hj Hne; [by apply elem_of_nil in Hi|].
  cbn [place_of map] in *. apply elem_of_cons in Hi, Hj.
  destruct (Nat.eqb_spec (c_index c) i) as [Ei|Ei], (Nat.eqb_spec (c_index c) j) as [Ej|Ej].
  - congruence.
  - destruct Hj as [->|Hj]; [done|]. pose proof (place_range (offset + length (c_bytes c)) cs j Hj) as [H _].
    left. cbn [fst snd]. unfold c_bytes in H at 1. rewrite !length_app in H. lia.
  - destruct Hi as [->|Hi]; [done|]. pose proof (place_range (offset + length (c_bytes c)) cs i Hi) as [H _].
    right. cbn [fst snd]. unfold c_bytes in H at 1. rewrite !length_app in H. lia.
  - destruct Hi as [->|Hi]; [done|]. destruct Hj as [->|Hj]; [done|]. by apply IH.
Qed.

(** ** The arrays in the data *)

Section Layout.
Context (struct_stat : stat_fields -> list Z) (BUSYBOXON : Z) (cs : list chunk).
Hypothesis all_arrays : map c_index cs ≡ₚ seq 0 15.

#[local] Abbreviation place := (place_of 0 cs).

(** The contents of the fifteen arrays. *)
Definition view (data : list Z) (arrays : list (list Z)) : Prop :=
  length data = length (data_of cs) /\ length arrays = 15%nat
  /\ forall i, (i < 15)%nat -> slice place i data = arrays !!! i /\ length (arrays !!! i) = snd (place i).

Lemma index_in i : (i < 15)%nat -> i ∈ map c_index cs.
Proof. intros Hi. rewrite all_arrays. apply elem_of_seq. lia. Qed.

Lemma view_start arrays :
  length arrays = 15%nat -> Forall (fun c => arrays !! c_index c = Some (c_payload c)) cs -> view (data_of cs) arrays.
Proof.
  intros Hl Hf. split; [done|]. split; [done|]. intros i Hi.
  assert (NoDup (map c_index cs)) as Hnd by (rewrite all_arrays; apply NoDup_seq).
  pose proof (index_in i Hi) as Hin. apply list_elem_of_In, in_map_iff in Hin as (c & <- & Hc%list_elem_of_In).
  rewrite Forall_forall in Hf. specialize (Hf c Hc). apply list_lookup_total_correct in Hf. rewrite Hf.
  pose proof (place_window c cs [] Hnd Hc) as Hw. split; [exact Hw|]. cbn [app length] in Hw.
  rewrite <- Hw. apply window_length. pose proof (place_range 0 cs (c_index c) (index_in _ Hi)). lia.
Qed.

(** Encryption in place. *)
Lemma view_arc4 data arrays i st out st' :
  view data arrays -> (i < 15)%nat -> arc4 (arrays !!! i) st = (out, st') ->
  exists data', arc4_at place i (data, st) = (data', st') /\ view data' (<[i := out]> arrays).
Proof.
  intros (Hd & Hl & Hv) Hi E. unfold arc4_at. destruct (Hv i Hi) as [Es Ez]. rewrite Es, E. eexists. split; [done|].
  assert (length out = snd (place i)) as Lo by (rewrite <- Ez, <- (arc4_length (arrays !!! i) st), E; done).
  pose proof (place_range 0 cs i (index_in i Hi)) as Hr.
  split; [|split; [by rewrite length_insert|]].
  - rewrite set_window_length; [done|]. lia.
  - intros j Hj. destruct (decide (j = i)) as [->|Hne].
    + rewrite list_lookup_total_insert_eq by lia. split; [|done]. unfold slice. rewrite <- Lo. apply window_set_same. lia.
    + rewrite list_lookup_total_insert_ne by done. destruct (Hv j Hj) as [Ej Lj]. split; [|done]. rewrite <- Ej.
      pose proof (place_range 0 cs j (index_in j Hj)) as Hr'. unfold slice. apply window_set_disjoint; [lia|lia|].
      destruct (place_disjoint 0 cs i j (index_in i Hi) (index_in j Hj) ltac:(done)); lia.
Qed.

Lemma view_key data arrays i a st :
  view data arrays -> (i < 15)%nat -> arrays !!! i = a -> key_at place i (data, st) = (data, key a st).
Proof. intros (_ & _ & Hv) Hi <-. unfold key_at. by destruct (Hv i Hi) as [-> _]. Qed.

(** The C string of an array. *)
Lemma view_str data arrays i s :
  view data arrays -> (i < 15)%nat -> arrays !!! i = c_array s -> Forall (fun b => b <> 0) s ->
  str_at place i data = Some s.
Proof.
  intros (_ & _ & Hv) Hi Ea Hs. destruct (Hv i Hi) as [E _]. rewrite Ea in E. unfold slice, window in E. unfold str_at.
  rewrite <- (take_drop (snd (place i)) (drop (fst (place i)) data)), E. unfold c_array. rewrite <- app_assoc.
  by apply c_string_app.
Qed.

Lemma view_slice data arrays i : view data arrays -> (i < 15)%nat -> slice place i data = arrays !!! i.
Proof. intros (_ & _ & Hv) Hi. by destruct (Hv i Hi). Qed.

Lemma view_same data arrays i j :
  view data arrays -> (i < 15)%nat -> (j < 15)%nat -> arrays !!! i = arrays !!! j -> differ place i j data = false.
Proof.
  intros (_ & _ & Hv) Hi Hj E. destruct (Hv i Hi) as [Ei Li], (Hv j Hj) as [Ej Lj]. unfold differ.
  rewrite Ei, Ej, <- Li, <- Lj, E, Nat.eqb_refl, bool_decide_eq_true_2 by done. done.
Qed.

(** ** What the program is meant to do *)

(** A C string of the program, of less than 1 GiB. *)
Definition cstr (s : list Z) : Prop := words 8 s /\ Forall (fun b => b <> 0) s /\ Z.of_nat (length s) < 2 ^ 30.

Definition inputs_ok (inp : inputs) : Prop :=
  cstr (in_date inp) /\ cstr (in_mail inp) /\ is_word 8 (in_rlax inp) /\ cstr (in_shll inp) /\ cstr (in_inlo inp)
  /\ cstr (in_xecc inp) /\ cstr (in_lsto inp) /\ cstr (in_opts inp) /\ cstr (in_text inp).

(** The first execution runs itself again by the shell's exec command; the
    second runs the script, behind 4096 blanks. *)
Definition intended (inp : inputs) (ret now : Z) (stat : list Z -> option stat_fields) (me : list Z) (argv : list (list Z)) : option xsh_result :=
  let run opts scrpt := Some (Exec (in_shll inp) (shell_argv BUSYBOXON ret opts (in_inlo inp) scrpt (in_lsto inp) argv)) in
  if negb (bool_decide (in_date inp = [])) && (strtol (in_date inp) 10 <? now) then Some (Message (has_expired ++ in_mail inp))
  else if ret <? 0 then Some (Message abnormal_behavior)
  else if ret =? 0 then
    if bool_decide (in_xecc inp = []) then run [] me
    else scrpt ← sprintf_s (in_xecc inp) (Some me); if (length scrpt <? 512)%nat then run [] scrpt else None
  else if (in_rlax inp =? 0) && negb (bool_decide (is_Some (stat (in_shll inp)))) then Some (Message (in_shll inp))
  else run (in_opts inp) (replicate hide_z 32 ++ in_text inp).

Lemma stte_0_eq st st' : length (stte st) = 256%nat -> length (stte st') = 256%nat -> stte_0 st = stte_0 st'.
Proof. intros H H'. unfold stte_0. by rewrite !stte_0_bytes. Qed.

(** Names the output and the state of the next encryption in [H]. *)
Ltac name_arc4 H :=
  match type of H with
  | context [arc4 ?p ?s] =>
      let o := fresh "c" in let st := fresh "st" in let E := fresh "E" in
      destruct (arc4 p s) as [o st] eqn:E; apply arc4_involutive in E
  end.

(** Decrypts array [i] by the equation [E]. *)
Ltac decrypt V i E :=
  let d := fresh "d" in let Hd := fresh "Hd" in let V' := fresh "V" in
  destruct (view_arc4 _ _ i _ _ _ V ltac:(lia) E) as (d & Hd & V'); rewrite Hd; clear Hd V;
  rename V' into V; cbn [insert list_insert] in V.

Lemma cstr_nonzero s : cstr s -> Forall (fun b => b <> 0) s.
Proof. by intros (_ & H & _). Qed.

Lemma text_nonzero s : forallb (fun b => negb (b =? 0)) s = true -> Forall (fun b => b <> 0) s.
Proof.
  intros H. apply Forall_forall. intros b Hb%list_elem_of_In. rewrite forallb_forall in H. specialize (H b Hb).
  by destruct (Z.eqb_spec b 0).
Qed.

#[local] Opaque arc4 key stte_0 replicate shell_argv text_of has_expired location_changed abnormal_behavior shell_changed.

(** The key of the file is that of the build, unless stat fails. *)
Lemma same_key relax statf statf' st sk :
  (relax = 0 -> statf' = statf \/ statf' = None) ->
  (if relax =? 0 then key_with_file struct_stat statf st else Some st) = Some sk ->
  (if relax =? 0 then key_with_file struct_stat statf' st else Some st)
  = if (relax =? 0) && negb (bool_decide (is_Some statf')) then None else Some sk.
Proof.
  intros Hstat Ek. destruct (Z.eqb_spec relax 0) as [E0|]; cbn [andb]; [|exact Ek]. destruct (Hstat E0) as [->| ->].
  - destruct statf as [sf|]; [|discriminate Ek]. rewrite bool_decide_eq_true_2 by by eexists. exact Ek.
  - rewrite bool_decide_eq_false_2 by by intros [? ?]. reflexivity.
Qed.

Lemma xsh_intended pw inp statf st0 arrays stat ret now me argv st1 :
  inputs_ok inp -> encrypt struct_stat pw statf inp st0 = Some arrays ->
  length (stte st0) = 256%nat -> length (stte st1) = 256%nat ->
  (in_rlax inp = 0 -> stat (in_shll inp) = statf \/ stat (in_shll inp) = None) ->
  Forall (fun c => arrays !! c_index c = Some (c_payload c)) cs ->
  xsh struct_stat place BUSYBOXON ret now stat me argv (data_of cs, st1) = intended inp ret now stat me argv.
Proof.
  intros (Hdate & Hmail & Hrlax & Hshll & Hinlo & Hxecc & Hlsto & Hopts & Htext) H Hst0 Hst1 Hstat Hcs.
  apply cstr_nonzero in Hdate, Hmail, Hshll, Hinlo, Hxecc, Hlsto, Hopts, Htext.
  unfold encrypt in H. cbv zeta in H. rewrite (stte_0_eq st0 st1 Hst0 Hst1) in H.
  do 10 name_arc4 H.
  destruct (if in_rlax inp =? 0 then _ else _) as [sk|] eqn:Ek; [|discriminate H]. cbn [mbind option_bind] in H.
  do 4 name_arc4 H. injection H as <-.
  match type of Hcs with Forall (fun c => ?l !! _ = _) _ =>
    assert (V : view (data_of cs) l) by (apply view_start; [reflexivity|exact Hcs]) end.
  clear Hcs. unfold xsh, run_script, pswd, msg1, date_, shll_, inlo_, xecc_, lsto_, tst1, chk1, msg2, rlax_, opts_, text_, tst2, chk2.
  cbn [fst snd]. cbv zeta.
  rewrite (view_key _ _ 0 pw _ V ltac:(lia) eq_refl).
  decrypt V 1%nat E. decrypt V 2%nat E0. cbn [fst].
  rewrite (view_str _ _ 2 (in_date inp) V ltac:(lia) eq_refl Hdate). cbn [mbind option_bind].
  unfold intended. destruct (negb (bool_decide (in_date inp = [])) && (strtol (in_date inp) 10 <? now)).
  { by rewrite (view_str _ _ 1 (has_expired ++ in_mail inp) V ltac:(lia) eq_refl) by by apply Forall_app_2, Hmail; apply text_nonzero. }
  decrypt V 3%nat E1. decrypt V 4%nat E2. decrypt V 5%nat E3. decrypt V 6%nat E4. decrypt V 7%nat E5.
  rewrite (view_key _ _ 7 (c_array location_changed) _ V ltac:(lia) eq_refl). decrypt V 8%nat E6. cbn [fst].
  rewrite (view_same _ _ 8 7 V) by (done || lia). decrypt V 9%nat E7. cbn [fst].
  destruct (ret <? 0).
  { by rewrite (view_str _ _ 9 abnormal_behavior V ltac:(lia) eq_refl) by by apply text_nonzero. }
  rewrite (view_str _ _ 5 (in_xecc inp) V ltac:(lia) eq_refl Hxecc). cbn [mbind option_bind].
  assert (Hsh := view_str _ _ 3 (in_shll inp) V ltac:(lia) eq_refl Hshll).
  destruct (Z.eqb_spec ret 0) as [->|Hret]; cbn [negb].
  - assert (Hin := view_str _ _ 4 (in_inlo inp) V ltac:(lia) eq_refl Hinlo).
    assert (Hls := view_str _ _ 6 (in_lsto inp) V ltac:(lia) eq_refl Hlsto).
    destruct (bool_decide (in_xecc inp = [])); cbn [negb mbind option_bind fst].
    + rewrite Hsh, Hin, Hls. reflexivity.
    + destruct (sprintf_s (in_xecc inp) (Some me)) as [scrpt|]; [|reflexivity]. cbn [mbind option_bind].
      destruct (length scrpt <? 512)%nat; [|reflexivity]. cbn [mbind option_bind fst]. rewrite Hsh, Hin, Hls. reflexivity.
  - clear Hsh. decrypt V 10%nat E8. cbn [fst snd].
    rewrite (view_str _ _ 3 (in_shll inp) V ltac:(lia) eq_refl Hshll). cbn [mbind option_bind].
    rewrite (view_slice _ _ 10 V) by lia.
    change ((_ !!! 10%nat) !!! 0%nat) with (in_rlax inp). rewrite (same_key _ _ _ _ _ Hstat Ek).
    destruct ((in_rlax inp =? 0) && _); [reflexivity|].
    decrypt V 11%nat E9. decrypt V 12%nat E10. decrypt V 13%nat E11.
    rewrite (view_key _ _ 13 (c_array shell_changed) _ V ltac:(lia) eq_refl). decrypt V 14%nat E12. cbn [fst].
    rewrite (view_same _ _ 14 13 V) by (done || lia).
    rewrite (view_str _ _ 12 (in_text inp) V ltac:(lia) eq_refl Htext). cbn [mbind option_bind fst].
    rewrite (view_str _ _ 3 (in_shll inp) V ltac:(lia) eq_refl Hshll), (view_str _ _ 4 (in_inlo inp) V ltac:(lia) eq_refl Hinlo),
      (view_str _ _ 6 (in_lsto inp) V ltac:(lia) eq_refl Hlsto), (view_str _ _ 11 (in_opts inp) V ltac:(lia) eq_refl Hopts).
    reflexivity.
Qed.
#[local] Transparent arc4 key stte_0 replicate shell_argv text_of has_expired location_changed abnormal_behavior shell_changed.
End Layout.

(** ** The arrays can be printed *)

Lemma arc4_printable s st out st' :
  arc4 s st = (out, st') -> arc4_ok st -> printable s -> arc4_ok st' /\ printable out /\ length out = length s.
Proof.
  intros E Hst (Hw & H1 & H2). destruct (arc4_ok_bytes s st out st' Hst Hw E) as (H & Ho & Hl).
  split; [exact H|]. split; [|exact Hl]. split; [exact Ho|]. by rewrite Hl.
Qed.

Lemma text_words s : forallb (fun b => (0 <=? b) && (b <? 2 ^ 8)) s = true -> words 8 s.
Proof.
  intros H. apply Forall_forall. intros b Hb%list_elem_of_In. rewrite forallb_forall in H. specialize (H b Hb).
  rewrite andb_true_iff, Z.leb_le, Z.ltb_lt in H. exact H.
Qed.

Lemma c_array_length s : length (c_array s) = S (length s).
Proof. unfold c_array. rewrite length_app. cbn [length]. lia. Qed.

Lemma c_array_printable s : words 8 s -> Z.of_nat (length s) < 2 ^ 30 + 100 -> printable (c_array s).
Proof.
  intros Hw Hl. unfold c_array. split; [apply words_app; [exact Hw|repeat constructor; lia]|].
  rewrite length_app. cbn [length]. lia.
Qed.

Lemma cstr_printable s : cstr s -> printable (c_array s).
Proof. intros (Hw & _ & Hl). apply c_array_printable; [exact Hw|lia]. Qed.

Lemma location_printable : printable (c_array location_changed).
Proof. apply c_array_printable; [by apply text_words|reflexivity]. Qed.
Lemma abnormal_printable : printable (c_array abnormal_behavior).
Proof. apply c_array_printable; [by apply text_words|reflexivity]. Qed.
Lemma shell_printable : printable (c_array shell_changed).
Proof. apply c_array_printable; [by apply text_words|reflexivity]. Qed.
Lemma message_printable mail : cstr mail -> printable (c_array (has_expired ++ mail)).
Proof.
  intros (Hw & _ & Hl). apply c_array_printable; [apply words_app; [by apply text_words|exact Hw]|].
  rewrite length_app. change (length has_expired) with 13%nat. lia.
Qed.
Lemma byte_printable b : is_word 8 b -> printable [b].
Proof. intros H. split; [by constructor|]. cbn. lia. Qed.

(** Follows the next encryption in [H]. *)
Ltac print_arc4 H Hst Hp :=
  match type of H with
  | context [arc4 ?p ?s] =>
      let o := fresh "o" in let st := fresh "s" in let E := fresh "E" in let Hst' := fresh "Hst" in let Po := fresh "Po" in
      destruct (arc4 p s) as [o st] eqn:E; let Lo := fresh "Lo" in
      destruct (arc4_printable p s o st E Hst Hp) as (Hst' & Po & Lo); rewrite ?c_array_length in Lo;
      clear E Hst; rename Hst' into Hst
  end.

#[local] Opaque arc4 key stte_0 has_expired location_changed abnormal_behavior shell_changed.

Lemma encrypt_printable struct_stat pw statf inp st :
  inputs_ok inp -> length (stte st) = 256%nat -> printable pw ->
  match encrypt struct_stat pw statf inp st with
  | Some arrays =>
      length arrays = 15%nat /\ Forall printable arrays
      /\ (in_rlax inp = 0 -> is_Some statf)
      /\ length (arrays !!! 4%nat) = S (length (in_inlo inp)) /\ length (arrays !!! 5%nat) = S (length (in_xecc inp))
      /\ length (arrays !!! 6%nat) = S (length (in_lsto inp))
  | None => in_rlax inp = 0 /\ statf = None
  end.
Proof.
  intros (Hdate & Hmail & Hrlax & Hshll & Hinlo & Hxecc & Hlsto & Hopts & Htext) Hst Hpw.
  destruct (encrypt struct_stat pw statf inp st) as [arrays|] eqn:H.
  - unfold encrypt in H. cbv zeta in H. apply stte_0_ok in Hst. apply (key_ok pw) in Hst.
    print_arc4 H Hst (message_printable _ Hmail). print_arc4 H Hst (cstr_printable _ Hdate). print_arc4 H Hst (cstr_printable _ Hshll).
    print_arc4 H Hst (cstr_printable _ Hinlo). print_arc4 H Hst (cstr_printable _ Hxecc).
    print_arc4 H Hst (cstr_printable _ Hlsto). print_arc4 H Hst location_printable.
    apply (key_ok (c_array location_changed)) in Hst. print_arc4 H Hst location_printable.
    print_arc4 H Hst abnormal_printable. print_arc4 H Hst (byte_printable _ Hrlax).
    destruct (if in_rlax inp =? 0 then _ else _) as [sk|] eqn:Ek; [|discriminate H]. cbn [mbind option_bind] in H.
    assert (arc4_ok sk /\ (in_rlax inp = 0 -> is_Some statf)) as [Hsk Hstat].
    { destruct (Z.eqb_spec (in_rlax inp) 0) as [|Hr]; [|by injection Ek as <-].
      destruct statf as [sf|]; [|discriminate Ek]. injection Ek as <-. split; [by apply key_ok|by eexists]. }
    print_arc4 H Hsk (cstr_printable _ Hopts). print_arc4 H Hsk (cstr_printable _ Htext).
    print_arc4 H Hsk shell_printable. apply (key_ok (c_array shell_changed)) in Hsk. print_arc4 H Hsk shell_printable.
    injection H as <-. split; [reflexivity|]. split; [|split_and!; [exact Hstat|done..]].
    repeat apply Forall_cons_2; try assumption. apply Forall_nil_2.
  - unfold encrypt in H. cbv zeta in H.
    repeat match type of H with context [arc4 ?p ?s] => destruct (arc4 p s) end.
    destruct (Z.eqb_spec (in_rlax inp) 0) as [E|E].
    + split; [exact E|]. destruct statf; [|reflexivity]. cbn [key_with_file mbind option_bind] in H.
      repeat match type of H with context [arc4 ?p ?s] => destruct (arc4 p s) end. discriminate H.
    + cbn [mbind option_bind] in H. repeat match type of H with context [arc4 ?p ?s] => destruct (arc4 p s) end. discriminate H.
Qed.
#[local] Transparent arc4 key stte_0 has_expired location_changed abnormal_behavior shell_changed.

(** ** write_C *)

Section Program.
Context (rand : nat -> Z) (fuel : nat) (struct_stat : stat_fields -> list Z).

(** What the text written contains, for the compiler and for its user: in the
    comment at its head the arguments, but where an option's string was
    encrypted in them; then the data. *)
Definition correct_program (fname : list Z) (args : arg_memory) (argv : list (nat * list Z)) (g : globals) (inp : inputs)
    (statf : option stat_fields) (output : list Z * list Z) : Prop :=
  exists cs shown,
    output = (fname ++ text_of ".x.c", file_head shown ++ layout_text 0 cs ++ file_tail g)
    /\ Forall2 (shown_as args (fun i e => exists c, c ∈ cs /\ c_index c = i /\ c_payload c = e)) argv shown
    /\ map c_index cs ≡ₚ seq 0 15
    /\ Forall (fun c => read_literals false (literal_text (c_bytes c)) = Some (c_bytes c)) cs
    /\ forall ret now stat me argv' st,
         length (stte st) = 256%nat -> (in_rlax inp = 0 -> stat (in_shll inp) = statf \/ stat (in_shll inp) = None) ->
         xsh struct_stat (place_of 0 cs) (BUSYBOXON_flag g) ret now stat me argv' (data_of cs, st)
         = intended (BUSYBOXON_flag g) inp ret now stat me argv'.

Hypothesis rand_range : forall k, 0 <= rand k <= RAND_MAX.
Hypothesis rand_low : forall k, exists j, (j < fuel)%nat /\ rand (k + j) < 2 ^ 30.

Lemma pending_all (arrays : list (list Z)) i : pending i (map Some arrays) = seq i (length arrays).
Proof. revert i. induction arrays as [|a arrays IH]; intros i; [done|]. cbn. by rewrite IH. Qed.

Lemma noise_pswd k : exists pw k', noise rand fuel 256 0 false k = Some ((pw, 256), k') /\ printable pw.
Proof.
  destruct (noise_bytes_spec rand fuel rand_range rand_low 256 k) as (pw & k1 & E & Lpw & Wpw).
  exists pw, k1. unfold noise, dbind, dret. cbn [negb Z.eqb mbind option_bind].
  change (Z.to_nat (0 + 256)) with 256%nat. rewrite E. cbn [mbind option_bind]. rewrite app_nil_r.
  split; [reflexivity|]. split; [exact Wpw|]. rewrite Lpw. lia.
Qed.

#[local] Opaque encrypt emit file_head file_tail.

Lemma write_C_spec fname args argv g text inp statf st k :
  inputs_of g text = Some inp -> inputs_ok inp -> length (stte st) = 256%nat ->
  places_ok args argv (in_inlo inp) (in_xecc inp) (in_lsto inp) ->
  exists r k', write_C rand fuel struct_stat fname args g text statf st k = Some (r, k')
    /\ match r with
       | Some output => (in_rlax inp = 0 -> is_Some statf) /\ correct_program fname args argv g inp statf output
       | None => in_rlax inp = 0 /\ statf = None
       end.
Proof.
  intros Hinp Hok Hst Hplaces. unfold write_C. rewrite Hinp. cbn [mbind option_bind].
  unfold dbind at 1. destruct (noise_pswd k) as (pw & k1 & -> & Hpw). cbn [mbind option_bind].
  pose proof (encrypt_printable struct_stat pw statf inp st Hok Hst Hpw) as He.
  destruct (encrypt struct_stat pw statf inp st) as [arrays|] eqn:E; [|exists None, k1; split; [reflexivity|exact He]].
  destruct He as (Hl & Hp & Hs & Li & Lx & Ll).
  destruct (emit_spec rand fuel rand_range rand_low 15 (map Some arrays) 0 k1) as (cs & k2 & Eb & Hperm & Hcs).
  - rewrite pending_all, length_seq. exact Hl.
  - lia.
  - intros i a Ha. rewrite list_lookup_fmap in Ha. destruct (arrays !! i) as [b|] eqn:Ei; [|discriminate Ha]. injection Ha as <-.
    rewrite Forall_forall in Hp. apply Hp. by eapply list_elem_of_lookup_2.
  - rewrite pending_all, Hl in Hperm.
    assert (Forall (fun c => arrays !! c_index c = Some (c_payload c)) cs) as Ha.
    { apply (Forall_impl _ _ _ Hcs). intros c [Hc _]. rewrite list_lookup_fmap in Hc.
      destruct (arrays !! c_index c) as [b|]; [|discriminate Hc]. by injection Hc as ->. }
    assert (forall i, (i < 15)%nat -> exists c, c ∈ cs /\ c_index c = i /\ c_payload c = arrays !!! i) as Hchunk.
    { intros i Hi. assert (i ∈ map c_index cs) as Hin by (rewrite Hperm; apply elem_of_seq; lia).
      apply list_elem_of_In, in_map_iff in Hin as (c & <- & Hc%list_elem_of_In). exists c. split; [done|]. split; [done|].
      rewrite Forall_forall in Ha. symmetry. by apply list_lookup_total_correct, Ha. }
    destruct (encrypted_shown args argv _ _ _ _ _ _ (fun i e => exists c, c ∈ cs /\ c_index c = i /\ c_payload c = e)
      Hplaces Li Lx Ll ltac:(apply Hchunk; lia) ltac:(apply Hchunk; lia) ltac:(apply Hchunk; lia)) as (shown & -> & Hshown).
    unfold dbind. rewrite Eb. cbn [mbind option_bind]. unfold dret. eexists _, _. split; [reflexivity|]. split; [exact Hs|].
    exists cs, shown. split; [reflexivity|]. split; [exact Hshown|]. split; [exact Hperm|]. split.
    + apply (Forall_impl _ _ _ Hcs). intros c [_ Hc]. by apply read_literal_text.
    + intros ret now stat me argv' st' Hst' Hstat.
      exact (xsh_intended struct_stat _ cs Hperm pw inp statf st arrays stat ret now me argv' st' Hok E Hst Hst' Hstat Ha).
Qed.
#[local] Transparent encrypt emit file_head file_tail.
End Program.

(** ** An example *)

Definition example_globals : globals :=
  Globals (Some (bytes_of "x.sh")) None [] (bytes_of "Please contact your provider") 1 (Some (bytes_of "/bin/sh"))
    (Some (bytes_of "-c")) (Some (bytes_of "exec '%s'")) (Some []) (Some []) 0 0 1 0.

Lemma example_rand : (forall k : nat, 0 <= (fun _ : nat => 12345) k <= RAND_MAX)
  /\ forall k, exists j, (j < 1)%nat /\ (fun _ : nat => 12345) (k + j)%nat < 2 ^ 30.
Proof. split; [intros _; unfold RAND_MAX; lia|]. intros _. exists 0%nat. lia. Qed.

Lemma cstr_text s : forallb (fun b => negb (b =? 0) && ((0 <=? b) && (b <? 2 ^ 8))) s = true -> (length s < 100)%nat -> cstr s.
Proof.
  rewrite forallb_forall. intros H Hl. split; [|split; [|lia]]; apply Forall_forall; intros b Hb%list_elem_of_In;
    specialize (H b Hb); apply andb_true_iff in H as [H1 H2]; [unfold is_word; lia|by destruct (Z.eqb_spec b 0)].
Qed.

Lemma example_inputs_ok T inp :
  inputs_of (set_TRACEABLE T example_globals) (bytes_of "#!/bin/sh") = Some inp -> inputs_ok inp.
Proof.
  intros H. injection H as <-. unfold inputs_ok. split_and!; try (apply cstr_text; [reflexivity|cbn; lia]). cbn. unfold is_word. lia.
Qed.

(** * Theorems *)


(** Called as akb_cc -i -c, the inline option of [example_globals]: it is the
    third argument. *)
Definition example_argv : list (nat * list Z) := [(0%nat, bytes_of "akb_cc"); (7%nat, bytes_of "-i"); (10%nat, bytes_of "-c")].
Definition example_memory : list Z := concat (map (fun a => snd a ++ [0]) example_argv) ++ [0].
Definition example_arguments : arg_memory := arg_memory_of example_memory true example_argv.

Lemma example_args_in : args_in example_memory example_argv.
Proof.
  split.
  - intros a w H. unfold example_argv in H. rewrite !elem_of_cons, elem_of_nil in H.
    destruct H as [[= -> ->]|[[= -> ->]|[[= -> ->]|[]]]]; (split; [reflexivity|by apply (bool_decide_unpack _)]).
  - intros a w a' w' H H'. unfold example_argv in H, H'. rewrite !elem_of_cons, elem_of_nil in H, H'.
    destruct H as [[= -> ->]|[[= -> ->]|[[= -> ->]|[]]]], H' as [[= -> ->]|[[= -> ->]|[[= -> ->]|[]]]]; cbn; lia.
  - by apply (bool_decide_unpack _).
  - eexists. split; [reflexivity|]. intros a w H. unfold example_argv in H. rewrite !elem_of_cons, elem_of_nil in H.
    destruct H as [[= -> ->]|[[= -> ->]|[[= -> ->]|[]]]]; cbn; lia.
Qed.

Lemma example_places inp :
  in_inlo inp = bytes_of "-c" -> places_ok example_arguments example_argv (in_inlo inp) (in_xecc inp) (in_lsto inp).
Proof.
  intros E. apply (arg_memory_ok example_memory true example_argv _ _ _ example_args_in); rewrite ?E; intros s H; [|done..].
  injection H as <-. reflexivity.
Qed.


(** The third argument, -c, is not what the comment of the program shows: the
    output does not begin with the head of the arguments as they were. *)
Example inline_option_changed :
  match write_C (fun _ => 12345) 1 (fun _ => []) (bytes_of "x.sh") example_arguments example_globals (bytes_of "#!/bin/sh") None
      (Arc4State bytes256 0 0 0) 0%nat with
  | Some (Some r, _) => let head := file_head (map snd example_argv) in bool_decide (take (length head) r.2 = head) = false
  | _ => False
  end.
Proof. vm_compute. reflexivity. Qed.
