(* ===== verification/AkbEnv.v ===== *)
(** * How the generated program knows its pass: chkenv

    The program akb_cc writes runs twice in one process: first it hands itself
    to the shell, which executes it again, then it hands over the script.  An
    environment variable whose name and value depend on the process and on the
    program tells the passes apart.  This file has [chkenv] of the run-time
    text ([AkbRtc.RTC_chkenv]) and the composition with [AkbRun.xsh]. *)
From S2P Require Import Prelude Libc Digits Arc4 AkbOpts AkbArgs AkbRtc AkbGen AkbRun.

(** ** The environment *)

Fixpoint strip_prefix (p l : list Z) : option (list Z) :=
  match p, l with
  | [], _ => Some l
  | a :: p, b :: l => if a =? b then strip_prefix p l else None
  | _ :: _, [] => None
  end.

(** [getenv(name)]: the place of the entry and the value. *)
Fixpoint getenv (name : list Z) (env : list (list Z)) (i : nat) : option (nat * list Z) :=
  match env with
  | [] => None
  | e :: env =>
      match strip_prefix (name ++ [61]) e with
      | Some value => Some (i, value)
      | None => getenv name env (S i)
      end
  end.

(** [putenv(entry)]: replaces the entry of the name, or adds one. *)
Fixpoint name_of (entry : list Z) : list Z :=
  match entry with [] => [] | b :: entry => if b =? 61 then [] else b :: name_of entry end.
Definition putenv (entry : list Z) (env : list (list Z)) : list (list Z) :=
  match getenv (name_of entry) env 0 with
  | Some (i, _) => <[i := entry]> env
  | None => env ++ [entry]
  end.

(** [sscanf(string, "%lu %d%c", &m, &a, buff)], when it converts exactly the
    two numbers. *)
Definition scan_ulong (l : list Z) : option (Z * list Z) :=
  let '(neg, l) := scan_sign (skip_spaces l) in
  match take_digits (length l) l with
  | ([], _) => None
  | (ds, r) =>
      let v := scan_digits 10 0 ds in
      Some (if 2 ^ 64 <=? v then 2 ^ 64 - 1 else if neg then u64 (- v) else v, r)
  end.
Definition scan_env (string : list Z) : option (Z * Z) :=
  p ← scan_ulong string;
  q ← scan_int (length p.2) p.2;
  match q.2 with [] => Some (p.1, s32 q.1) | _ => None end.

(** ** chkenv *)

(** [mask] after the cipher: keyed with the code of [chkenv] itself, the data
    and the process. *)
Definition mask_of (code data : list Z) (pid : Z) (st : arc4_state) : Z * arc4_state :=
  let st := stte_0 st in
  let st := key code st in
  let st := key data st in
  let mask := le_digits 8 8 pid in
  let st := key mask st in
  let '(mask, st) := arc4 mask st in
  (le_eval 8 mask, st).

(** [sprintf(buff, "x%lx", mask)] *)
Definition env_name (mask : Z) : list Z := 120 :: digits 16 16 mask.
(** [sprintf(&buff[l], "=%lu %d", mask, argc)] *)
Definition env_value (mask argc : Z) : list Z := fmt_u mask ++ [32] ++ fmt_d argc.

(** The result, the environment and the cipher state after it. *)
Definition chkenv (code data : list Z) (pid argc : Z) (env : list (list Z)) (st : arc4_state) :
    Z * list (list Z) * arc4_state :=
  let '(mask, st) := mask_of code data pid st in
  let buff := env_name mask in
  match getenv buff env 0 with
  | None => (0, putenv (buff ++ [61] ++ env_value mask argc) env, st)
  | Some (i, string) =>
      match scan_env string with
      | Some (m, a) => if m =? mask then (1 + (argc - a), rmarg env i, st) else (-1, env, st)
      | None => (-1, env, st)
      end
  end.

(** The start of [xsh]: the program's name, from the environment when it has no
    arguments, and chkenv. *)
Definition me_of (argv env : list (list Z)) : option (list Z) :=
  match argv with me :: _ => Some me | [] => snd <$> getenv (bytes_of "_") env 0 end.
Definition program (struct_stat : stat_fields -> list Z) (place : nat -> nat * nat) (BUSYBOXON : Z) (code data : list Z)
    (pid now : Z) (stat : list Z -> option stat_fields) (argv env : list (list Z)) (st : arc4_state) :
    option xsh_result * list (list Z) :=
  match me_of argv env with
  | None => (Some Nameless, env)
  | Some me =>
      let '(ret, env, st) := chkenv code (data ++ [0]) pid (Z.of_nat (length argv)) env st in
      (xsh struct_stat place BUSYBOXON ret now stat me argv (data, st), env)
  end.

(** * Lemmas *)

Lemma strip_prefix_app p l : strip_prefix p (p ++ l) = Some l.
Proof. induction p as [|a p IH]; [done|]. cbn [app strip_prefix]. by rewrite Z.eqb_refl. Qed.

Lemma getenv_end name value env i :
  getenv name env i = None -> getenv name (env ++ [name ++ [61] ++ value]) i = Some ((i + length env)%nat, value).
Proof.
  revert i. induction env as [|e env IH]; intros i H; cbn [getenv length app] in *.
  - change (name ++ 61 :: value) with (name ++ [61] ++ value). rewrite app_assoc, strip_prefix_app. by rewrite Nat.add_0_r.
  - destruct (strip_prefix (name ++ [61]) e); [done|]. rewrite IH by done. by rewrite Nat.add_succ_comm.
Qed.

Lemma name_of_app name value : Forall (fun b => b <> 61) name -> name_of (name ++ [61] ++ value) = name.
Proof.
  induction 1 as [|b name Hb Hn IH]; [done|]. cbn [app name_of] in *. rewrite (proj2 (Z.eqb_neq b 61)) by done. by rewrite IH.
Qed.

Lemma take_digits_app w ds r :
  Forall (fun b => isdigit b = true) ds -> (length ds <= w)%nat -> (forall b r', r = b :: r' -> isdigit b = false) ->
  take_digits w (ds ++ r) = (ds, r).
Proof.
  intros Hd. revert w. induction Hd as [|b ds Hb Hd IH]; intros w Hw Hr; cbn [app length] in *.
  - destruct w, r as [|b r]; try done. cbn [take_digits]. by rewrite (Hr b r).
  - destruct w as [|w]; [lia|]. cbn [take_digits]. rewrite Hb, IH by (done || lia). done.
Qed.

Lemma decimal_digits k v : Forall (fun b => isdigit b = true) (digits k 10 v).
Proof.
  assert (forall b, is_base_digit 10 b = true -> isdigit b = true) as H.
  { intros b. unfold is_base_digit, digit_val. destruct (isdigit b); [done|].
    destruct (Z.leb_spec 97 b), (Z.leb_spec b 122), (Z.leb_spec 65 b), (Z.leb_spec b 90); cbn; rewrite ?Z.ltb_lt; (lia || discriminate). }
  apply (Forall_impl _ _ _ (digits_base k 10 v ltac:(lia))). exact H.
Qed.

Lemma digits_cons k base v : exists b l, digits (S k) base v = b :: l.
Proof. cbn [digits]. destruct (if v <? base then _ else _) as [|b l]; by do 2 eexists. Qed.

(** Digits have no blanks and no sign before them. *)
Lemma digit_start b l : isdigit b = true -> skip_spaces (b :: l) = b :: l /\ scan_sign (b :: l) = (false, b :: l).
Proof.
  unfold isdigit. rewrite andb_true_iff, !Z.leb_le. intros H. cbn [skip_spaces scan_sign]. unfold isspace.
  rewrite (proj2 (Z.eqb_neq b 32)), (proj2 (Z.leb_gt b 13)), andb_false_r, (proj2 (Z.eqb_neq b 45)), (proj2 (Z.eqb_neq b 43)) by lia. done.
Qed.

Lemma scan_env_value mask argc :
  is_word 64 mask -> 0 <= argc < 2 ^ 31 -> scan_env (env_value mask argc) = Some (mask, argc).
Proof.
  intros Hm Ha. unfold scan_env, env_value, scan_ulong, scan_int, fmt_u. unfold fmt_d. rewrite (proj2 (Z.ltb_ge argc 0)) by lia.
  pose proof (decimal_digits 20 mask) as Dm. pose proof (decimal_digits 20 argc) as Da.
  pose proof (scan_digits_digits 20 10 mask ltac:(lia)) as Sm. pose proof (scan_digits_digits 20 10 argc ltac:(lia)) as Sa.
  assert (2 ^ 64 <= 10 ^ Z.of_nat 20) as Hp by (vm_compute; discriminate). unfold is_word in Hm.
  specialize (Sm ltac:(lia)). specialize (Sa ltac:(lia)).
  destruct (digits_cons 19 10 mask) as (b & m & Em), (digits_cons 19 10 argc) as (c & a & Ea). rewrite Em, Ea in *.
  pose proof (proj1 (proj1 (Forall_cons _ _ _) Dm)) as Hb. pose proof (proj1 (proj1 (Forall_cons _ _ _) Da)) as Hc.
  cbn [app]. destruct (digit_start b (m ++ 32 :: c :: a) Hb) as [-> ->].
  change (b :: m ++ 32 :: c :: a) with ((b :: m) ++ 32 :: c :: a).
  rewrite take_digits_app; [|done|rewrite length_app; lia|by intros ? ? [= <- _]]. rewrite Sm.
  rewrite (proj2 (Z.leb_gt (2 ^ 64) mask)) by lia. cbn [mbind option_bind fst snd].
  assert (skip_spaces (32 :: c :: a) = c :: a) as ->.
  { cbn [skip_spaces]. change (isspace 32) with true. cbv iota. exact (proj1 (digit_start c a Hc)). }
  destruct (digit_start c a Hc) as [_ ->]. rewrite Nat.sub_diag, Nat.sub_0_r.
  assert (take_digits (length (32 :: c :: a)) (c :: a) = (c :: a, [])) as ->.
  { rewrite <- (app_nil_r (c :: a)) at 2. apply take_digits_app; [done|cbn [length]; lia|done]. }
  rewrite Sa. cbn [mbind option_bind fst snd].
  unfold s32. rewrite u32_small by (split; lia). by rewrite (proj2 (Z.ltb_lt _ _)) by lia.
Qed.

(** The mask is that of the process and the program, whatever the cipher was
    used for before. *)
Lemma mask_of_same code data pid st st' :
  length (stte st) = 256%nat -> length (stte st') = 256%nat -> mask_of code data pid st = mask_of code data pid st'.
Proof. intros H H'. unfold mask_of. by rewrite (stte_0_eq st st'). Qed.

Lemma mask_of_ok code data pid st mask st' :
  length (stte st) = 256%nat -> mask_of code data pid st = (mask, st') ->
  is_word 64 mask /\ length (stte st') = 256%nat.
Proof.
  intros H. unfold mask_of. cbv zeta.
  assert (arc4_ok (key (le_digits 8 8 pid) (key data (key code (stte_0 st))))) as Hk by (do 3 apply key_ok; by apply stte_0_ok).
  destruct (arc4 _ _) as [out st1] eqn:E. intros [= <- <-].
  destruct (arc4_ok_bytes _ _ _ _ Hk (le_digits_words 8 8 pid ltac:(lia)) E) as (H1 & Hw & Hl).
  rewrite le_digits_length in Hl. split; [|by apply perm_length, H1].
  pose proof (le_eval_bound 8 out ltac:(lia) Hw) as Hb. rewrite Hl in Hb. exact Hb.
Qed.

Lemma env_name_no_eq mask : Forall (fun b => b <> 61) (env_name mask).
Proof.
  apply Forall_cons_2; [discriminate|]. apply (Forall_impl _ _ _ (digits_base 16 16 mask ltac:(lia))).
  intros b Hb ->. discriminate Hb.
Qed.

Lemma rmarg_last (env : list (list Z)) e : rmarg (env ++ [e]) (length env) = env.
Proof.
  unfold rmarg. rewrite take_app_length, drop_ge by (rewrite length_app; cbn [length]; lia). apply app_nil_r.
Qed.

(** The variable of this process and program. *)
Definition env_var (code data : list Z) (pid : Z) (st : arc4_state) : list Z := env_name (fst (mask_of code data pid st)).

(** The environment the first call leaves. *)
Definition env_after (code data : list Z) (pid argc : Z) (env : list (list Z)) (st : arc4_state) : list (list Z) :=
  env ++ [env_var code data pid st ++ [61] ++ env_value (fst (mask_of code data pid st)) argc].

(** The first call sets the variable and returns 0; the second, after an
    execution in the same process, removes it and returns 1 and the number of
    arguments it has more. *)
Lemma chkenv_passes code data pid env argc argc' st st' :
  length (stte st) = 256%nat -> length (stte st') = 256%nat -> 0 <= argc < 2 ^ 31 ->
  getenv (env_var code data pid st) env 0 = None ->
  let env1 := env_after code data pid argc env st in
  exists st1 st2,
    chkenv code data pid argc env st = (0, env1, st1) /\ length (stte st1) = 256%nat
    /\ chkenv code data pid argc' env1 st' = (1 + (argc' - argc), env, st2) /\ length (stte st2) = 256%nat.
Proof.
  intros H H' Ha Hg. unfold chkenv, env_after, env_var in *. rewrite (mask_of_same code data pid st' st H' H).
  destruct (mask_of code data pid st) as [mask st1] eqn:E. cbn [fst] in *. destruct (mask_of_ok _ _ _ _ _ _ H E) as [Hm Hl].
  cbv zeta. rewrite Hg. do 2 eexists. unfold putenv. rewrite name_of_app by apply env_name_no_eq. rewrite Hg.
  split; [reflexivity|]. split; [exact Hl|].
  rewrite (getenv_end _ _ _ _ Hg), scan_env_value, Z.eqb_refl by done.
  rewrite rmarg_last. split; [reflexivity|exact Hl].
Qed.

(** The first call leaves the other variables in their places. *)
Lemma getenv_app name env env' i r : getenv name env i = Some r -> getenv name (env ++ env') i = Some r.
Proof.
  revert i. induction env as [|e env IH]; intros i H; cbn [getenv app] in *; [discriminate H|].
  destruct (strip_prefix (name ++ [61]) e); [exact H|]. by apply IH.
Qed.

Lemma me_of_first code data pid argc env st env1 st1 argv me :
  getenv (env_var code data pid st) env 0 = None -> chkenv code data pid argc env st = (0, env1, st1) ->
  me_of argv env = Some me -> me_of argv env1 = Some me.
Proof.
  intros Hg. unfold chkenv, env_var in *. destruct (mask_of code data pid st) as [mask s]. cbn [fst] in Hg. rewrite Hg.
  unfold putenv. rewrite name_of_app, Hg by apply env_name_no_eq. intros [= <- _].
  destruct argv as [|a argv]; [|done]. unfold me_of. destruct (getenv (bytes_of "_") env 0) as [r|] eqn:E; [|done].
  by rewrite (getenv_app _ _ _ _ _ E).
Qed.

(** A variable with another value makes the call return -1. *)
Lemma chkenv_abnormal code data pid argc env st i string :
  length (stte st) = 256%nat -> getenv (env_var code data pid st) env 0 = Some (i, string) ->
  (forall a, scan_env string <> Some (fst (mask_of code data pid st), a)) ->
  exists st1, chkenv code data pid argc env st = (-1, env, st1) /\ length (stte st1) = 256%nat.
Proof.
  intros H Hg Hs. unfold chkenv, env_var in *. destruct (mask_of code data pid st) as [mask st1] eqn:E. cbn [fst] in *.
  destruct (mask_of_ok _ _ _ _ _ _ H E) as [_ Hl]. rewrite Hg. exists st1. split; [|exact Hl].
  destruct (scan_env string) as [[m a]|]; [|done]. destruct (Z.eqb_spec m mask) as [->|]; [by destruct (Hs a)|done].
Qed.

(** ** The passes of a program whose [xsh] does what is meant *)

Section Passes.
Context (struct_stat : stat_fields -> list Z) (cs : list chunk) (g : globals) (inp : inputs) (statf : option stat_fields).
Hypothesis runs : forall ret now stat me argv st,
  length (stte st) = 256%nat -> (in_rlax inp = 0 -> stat (in_shll inp) = statf \/ stat (in_shll inp) = None) ->
  xsh struct_stat (place_of 0 cs) (BUSYBOXON_flag g) ret now stat me argv (data_of cs, st)
  = intended (BUSYBOXON_flag g) inp ret now stat me argv.

Lemma program_passes code pid now now' stat env args args' me me' st1 st2 :
  me_of args env = Some me -> me_of args' env = Some me' -> length (stte st1) = 256%nat -> length (stte st2) = 256%nat ->
  Z.of_nat (length args) < 2 ^ 31 -> (in_rlax inp = 0 -> stat (in_shll inp) = statf \/ stat (in_shll inp) = None) ->
  let run pid now := program struct_stat (place_of 0 cs) (BUSYBOXON_flag g) code (data_of cs) pid now in
  match getenv (env_var code (data_of cs ++ [0]) pid st1) env 0 with
  | None =>
      let env1 := env_after code (data_of cs ++ [0]) pid (Z.of_nat (length args)) env st1 in
      run pid now stat args env st1 = (intended (BUSYBOXON_flag g) inp 0 now stat me args, env1)
      /\ run pid now' stat args' env1 st2
         = (intended (BUSYBOXON_flag g) inp (1 + (Z.of_nat (length args') - Z.of_nat (length args))) now' stat me' args', env)
  | Some (_, string) =>
      (forall a, scan_env string <> Some (fst (mask_of code (data_of cs ++ [0]) pid st1), a)) ->
      run pid now stat args env st1 = (intended (BUSYBOXON_flag g) inp (-1) now stat me args, env)
  end.
Proof.
  intros Hme Hme' H1 H2 Hargs Hstat. cbv zeta. unfold program. rewrite Hme.
  destruct (getenv _ env 0) as [[i string]|] eqn:Hg.
  - intros Hs. destruct (chkenv_abnormal code (data_of cs ++ [0]) pid (Z.of_nat (length args)) env st1 i string H1 Hg Hs) as (st' & -> & Hl).
    by rewrite runs.
  - destruct (chkenv_passes code (data_of cs ++ [0]) pid env (Z.of_nat (length args)) (Z.of_nat (length args')) st1 st2 H1 H2
      ltac:(lia) Hg) as (s1 & s2 & E1 & L1 & E2 & L2).
    cbv zeta. rewrite E1, (me_of_first _ _ _ _ _ _ _ _ _ _ Hg E1 Hme'), E2. split; (f_equal; by apply runs).
Qed.
End Passes.

(** * Theorem *)

(** C10.  The passes of a program akb_cc wrote.  In an environment without its
    variable the first execution does what [intended] says of pass 0 and sets
    the variable; executed again in the same process it does what is said of
    pass 1, or of one more for every argument more, and leaves the environment
    as it was at first; with a variable that it has not set it shows a
    message. *)
Theorem two_passes rand fuel struct_stat fname arguments argv g text inp statf st k output k' :
  (forall k, 0 <= rand k <= RAND_MAX) -> (forall k, exists j, (j < fuel)%nat /\ rand (k + j)%nat < 2 ^ 30) ->
  inputs_of g text = Some inp -> inputs_ok inp -> length (stte st) = 256%nat ->
  places_ok arguments argv (in_inlo inp) (in_xecc inp) (in_lsto inp) ->
  write_C rand fuel struct_stat fname arguments g text statf st k = Some (Some output, k') ->
  exists cs shown, output = (fname ++ text_of ".x.c", file_head shown ++ layout_text 0 cs ++ file_tail g)
    /\ Forall2 (shown_as arguments (fun i e => exists c, c ∈ cs /\ c_index c = i /\ c_payload c = e)) argv shown
    /\ let run code pid now := program struct_stat (place_of 0 cs) (BUSYBOXON_flag g) code (data_of cs) pid now in
       forall code pid now now' stat env args args' me me' st1 st2,
         me_of args env = Some me -> me_of args' env = Some me' -> length (stte st1) = 256%nat -> length (stte st2) = 256%nat ->
         Z.of_nat (length args) < 2 ^ 31 -> (in_rlax inp = 0 -> stat (in_shll inp) = statf \/ stat (in_shll inp) = None) ->
         match getenv (env_var code (data_of cs ++ [0]) pid st1) env 0 with
         | None => exists env1,
             run code pid now stat args env st1 = (intended (BUSYBOXON_flag g) inp 0 now stat me args, env1)
             /\ run code pid now' stat args' env1 st2
                = (intended (BUSYBOXON_flag g) inp (1 + (Z.of_nat (length args') - Z.of_nat (length args))) now' stat me' args', env)
         | Some (_, string) =>
             (forall a, scan_env string <> Some (fst (mask_of code (data_of cs ++ [0]) pid st1), a)) ->
             run code pid now stat args env st1 = (intended (BUSYBOXON_flag g) inp (-1) now stat me args, env)
         end.
Proof.
  intros Hr Hlow Hinp Hok Hst Hpl Hw.
  destruct (write_C_spec rand fuel struct_stat Hr Hlow fname arguments argv g text inp statf st k Hinp Hok Hst Hpl) as (r & k2 & E & H).
  rewrite Hw in E. injection E as <- <-. destruct H as (_ & cs & shown & Eo & Hshown & _ & _ & Hrun). exists cs, shown.
  split; [exact Eo|]. split; [exact Hshown|]. cbv zeta.
  intros code pid now now' stat env args args' me me' st1 st2 Hme Hme' H1 H2 Hargs Hstat.
  pose proof (program_passes struct_stat cs g inp statf Hrun code pid now now' stat env args args' me me' st1 st2 Hme Hme' H1 H2 Hargs Hstat) as H.
  cbv zeta in H. destruct (getenv _ env 0) as [[i string]|]; [exact H|]. eexists. exact H.
Qed.

Lemma two_passes_witness :
  exists inp r k', inputs_of example_globals (bytes_of "#!/bin/sh") = Some inp
    /\ write_C (fun _ => 12345) 1 (fun _ => []) (bytes_of "x.sh") example_arguments example_globals (bytes_of "#!/bin/sh") None
         (Arc4State bytes256 0 0 0) 0%nat = Some (Some r, k')
    /\ exists place data env1, let run := program (fun _ => []) place 0 [] data 77 0 (fun _ => None) in
         run [bytes_of "x"] [] (Arc4State bytes256 0 0 0)
         = (Some (Exec (bytes_of "/bin/sh") (map (fun a => Some (bytes_of a)) ["x"; "-c"; "exec 'x'"; "x"])), env1)
         /\ snd (run [bytes_of "x"] env1 (Arc4State bytes256 0 0 0)) = [].
Proof.
  destruct (inputs_of example_globals (bytes_of "#!/bin/sh")) as [inp|] eqn:Ei; [|discriminate Ei].
  destruct example_rand as [Hr Hl]. pose proof (example_inputs_ok 1 inp Ei) as Hok.
  assert (in_inlo inp = bytes_of "-c") as Hi by by injection Ei as <-.
  destruct (write_C_spec _ 1 (fun _ => []) Hr Hl (bytes_of "x.sh") example_arguments example_argv example_globals (bytes_of "#!/bin/sh") inp None
    (Arc4State bytes256 0 0 0) 0%nat Ei Hok eq_refl (example_places inp Hi)) as ([r|] & k' & E & H).
  2: { destruct H as [H _]. injection Ei as <-. discriminate H. }
  destruct (two_passes _ 1 (fun _ => []) (bytes_of "x.sh") example_arguments example_argv example_globals (bytes_of "#!/bin/sh") inp None
    (Arc4State bytes256 0 0 0) 0%nat r k' Hr Hl Ei Hok eq_refl (example_places inp Hi) E) as (cs & shown & _ & _ & Hrun).
  exists inp, r, k'. split; [reflexivity|]. split; [exact E|].
  destruct (Hrun [] 77 0 0 (fun _ => None) [] [bytes_of "x"] [bytes_of "x"] (bytes_of "x") (bytes_of "x") (Arc4State bytes256 0 0 0) (Arc4State bytes256 0 0 0)
    eq_refl eq_refl eq_refl eq_refl ltac:(cbn; lia) ltac:(auto)) as (env1 & E1 & E2).
  exists (place_of 0 cs), (data_of cs), env1. cbv zeta.
  injection Ei as <-. split.
  - exact E1.
  - exact (f_equal snd E2).
Defined.
