(* ===== verification/AkbTrace.v ===== *)
(** * The generated program around [xsh]: debugexec, untraceable and main

    The rest of the run-time text ([AkbRtc.RTC]): the listing of the arguments of
    a program built with -D, the child process by which a program built with -U
    sees that nobody traces it, and [main].  The two processes of [untraceable]
    are a step relation; what the kernel answers is a parameter. *)
From S2P Require Import Prelude Libc Arc4 AkbOpts AkbArgs AkbGen AkbRun AkbEnv.

Definition line (s : string) : list Z := bytes_of s ++ [10].

(** ** debugexec *)

Definition or_null (s : option (list Z)) : list Z := default (bytes_of "<null>") s.

(** [fprintf(stderr, "argv[%d]=%.60s\n", i, argv[i] ? argv[i] : "<null>")] *)
Definition debug_arg (i : nat) (arg : option (list Z)) : list Z :=
  bytes_of "argv[" ++ fmt_d (Z.of_nat i) ++ bytes_of "]=" ++ take 60 (or_null arg) ++ [10].

(** [for (i = 0; i <= argc ; i++)], [n] rounds from [i] on: reading behind the
    vector is [None]. *)
Fixpoint debug_loop (n i : nat) (argv : list (option (list Z))) : option (list Z) :=
  match n with
  | O => Some []
  | S n => arg ← argv !! i; rest ← debug_loop n (S i) argv; Some (debug_arg i arg ++ rest)
  end.

Definition debugexec (sh11 : option (list Z)) (argc : nat) (argv : option (list (option (list Z)))) : option (list Z) :=
  args ← match argv with None => Some (line "argv=<null>") | Some argv => debug_loop (S argc) 0 argv end;
  Some (bytes_of "shll=" ++ or_null sh11 ++ [10] ++ bytes_of "argc=" ++ fmt_d (Z.of_nat argc) ++ [10] ++ args).

(** ** untraceable *)

Definition EBUSY : Z := 16.

Section Untraceable.
(** The process, the parent of orphans, the answers of open with
    [O_RDWR|O_EXCL] and of [ptrace(PTRACE_ATTACH)] ([None] is success, a number
    the error), and the errors fork and waitpid may give. *)
Context (FreeBSD : bool) (self reaper : Z) (open_excl : list Z -> option Z) (attach : Z -> option Z)
  (fork_error waitpid_error : Z -> Prop) (strerror : Z -> list Z) (argv0 : option (list Z)).

(** [perror(argv0)] *)
Definition perror (errno : Z) : list Z :=
  match argv0 with None | Some [] => [] | Some s => s ++ bytes_of ": " end ++ strerror errno ++ [10].

(** [sprintf(proc, "/proc/%d/as", pid)] *)
Definition proc (pid : Z) : list Z := bytes_of "/proc/" ++ fmt_d pid ++ bytes_of (if FreeBSD then "/mem" else "/as").

(** Where the program is: before fork, in waitpid, or at an end. *)
Inductive parent : Type := Forking | Waiting | Returned | Exited (code : Z) | Killed.

(** Where its child is; [pid] is what getppid gave it. *)
Inductive child : Type :=
  | Unborn
  | Asking
  | Closing (pid : Z)
  | Opening (pid : Z)
  | Opened (pid : Z) (mine : bool) (errno : Z)
  | Decided (pid : Z) (mine : bool) (errno : Z)
  | Leaving (mine : bool)
  | Ended (code : Z).

(** [fds] tells which descriptors the child has open, [stopped] whether the
    program is stopped by a signal, [out] what was written to stderr. *)
Record state : Type := State { program_at : parent; child_at : child; fds : list bool; stopped : bool; out : list Z }.

(** The descriptor open gives: the least that is free. *)
Fixpoint lowest (fds : list bool) : nat :=
  match fds with true :: fds => S (lowest fds) | _ => 0 end.

Definition alive (p : parent) : bool := match p with Forking | Waiting => true | _ => false end.

(** [kill(pid, SIGKILL)] and the stop and continuation of [pid] as seen by the
    program: they are for another process when [pid] is not its number. *)
Definition kill_program (pid : Z) (p : parent) : parent := if (pid =? self) && alive p then Killed else p.
Definition stop_program (pid : Z) (s : bool) : bool := (pid =? self) || s.
Definition cont_program (pid : Z) (s : bool) : bool := negb (pid =? self) && s.

Inductive step : state -> state -> Prop :=
  | step_fork fds o :
      step (State Forking Unborn fds false o) (State Waiting Asking fds false o)
  | step_fork_error fds o e : fork_error e ->
      step (State Forking Unborn fds false o) (State (Exited 1) Unborn fds false (o ++ perror e))
  | step_getppid p fds st o :
      step (State p Asking fds st o) (State p (Closing (if alive p then self else reaper)) fds st o)
  | step_close p pid fds st o :
      step (State p (Closing pid) fds st o) (State p (Opening pid) (<[0%nat := false]> fds) st o)
  | step_open p pid fds st o e : open_excl (proc pid) = None ->
      step (State p (Opening pid) fds st o) (State p (Opened pid (lowest fds =? 0)%nat e) fds st o)
  | step_open_error p pid fds st o e : open_excl (proc pid) = Some e ->
      step (State p (Opening pid) fds st o) (State p (Opened pid false e) fds st o)
  | step_no_attach p pid mine e fds st o : mine || (e =? EBUSY) = true ->
      step (State p (Opened pid mine e) fds st o) (State p (Decided pid mine e) fds st o)
  | step_attach p pid e fds st o : e <> EBUSY -> attach pid = None ->
      step (State p (Opened pid false e) fds st o) (State p (Decided pid true e) fds (stop_program pid st) o)
  | step_attach_error p pid e e' fds st o : e <> EBUSY -> attach pid = Some e' ->
      step (State p (Opened pid false e) fds st o) (State p (Decided pid false e') fds st o)
  | step_continue p pid e fds st o :
      step (State p (Decided pid true e) fds st o) (State p (Leaving true) fds (cont_program pid st) o)
  | step_kill p pid e fds st o :
      step (State p (Decided pid false e) fds st o)
           (State (kill_program pid p) (Leaving false) fds st (o ++ perror e))
  | step_exit p mine fds st o :
      step (State p (Leaving mine) fds st o) (State p (Ended (if mine then 1 else 0)) fds false o)
  | step_wait code fds o :
      step (State Waiting (Ended code) fds false o) (State Returned (Ended code) fds false o)
  | step_wait_error c fds o e : waitpid_error e ->
      step (State Waiting c fds false o) (State (Exited 1) c fds false (o ++ perror e)).

(** The start of [untraceable]. *)
Definition initial (fds : list bool) : state := State Forking Unborn fds false [].

(** The kernel lets the child have the program. *)
Definition granted : Prop :=
  open_excl (proc self) = None \/ exists e, open_excl (proc self) = Some e /\ e <> EBUSY /\ attach self = None.
End Untraceable.

(** ** main *)

Inductive main_result : Type :=
  | Replaced (file : list Z) (args : list (list Z)) (out : list Z)
  | Exits (code : Z) (out : list Z)
  | Dies (out : list Z).

(** The arguments execvp sees: up to the first null pointer. *)
Fixpoint args_of (varg : list (option (list Z))) : list (list Z) :=
  match varg with Some a :: varg => a :: args_of varg | _ => [] end.

Section Main.
Context (struct_stat : stat_fields -> list Z) (place : nat -> nat * nat) (BUSYBOXON : Z) (DEBUGEXEC TRACEABLE : bool)
  (code data : list Z) (strerror : Z -> list Z) (execvp : list Z -> list (list Z) -> option Z).

Definition debug (o : option (list Z)) : option (list Z) := if DEBUGEXEC then o else Some [].

(** [fprintf(stderr, "getenv(%s)=%s\n", buff, string ? string : "<null>")] of chkenv. *)
Definition debug_chkenv (pid : Z) (env : list (list Z)) (st : arc4_state) : list Z :=
  let buff := env_name (fst (mask_of code (data ++ [0]) pid st)) in
  bytes_of "getenv(" ++ buff ++ bytes_of ")=" ++ or_null (snd <$> getenv buff env 0) ++ [10].

(** The message at the end; [argv[1]] is written, so there must be an [argv[0]]. *)
Definition report (argv : list (list Z)) (errno : Z) (message : list Z) : option (list Z) :=
  match argv with
  | [] => None
  | me :: _ =>
      Some (me ++ (if errno =? 0 then [] else bytes_of ": ") ++ (if errno =? 0 then [] else strerror errno)
            ++ bytes_of ": " ++ message ++ [10])
  end.

(** What [main] does after [xsh]; [o] is what was written before, [errno] the
    error number xsh leaves when it does not come to execvp. *)
Definition rtc_end (o : list Z) (pid errno : Z) (argv env : list (list Z)) (st : arc4_state) (r : xsh_result) : option main_result :=
  match r with
  | Nameless => Some (Exits 1 (o ++ bytes_of "E: neither argv[0] nor $_ works."))
  | Message m =>
      o1 ← debug (Some (debug_chkenv pid env st));
      o2 ← report argv errno m; Some (Exits 1 (o ++ o1 ++ o2))
  | Exec file varg =>
      o1 ← debug (Some (debug_chkenv pid env st));
      o2 ← debug (debugexec (Some file) (length varg) (Some (varg ++ [None])));
      match execvp file (args_of varg) with
      | None => Some (Replaced file (args_of varg) (o ++ o1 ++ o2))
      | Some e => o3 ← report argv e file; Some (Exits 1 (o ++ o1 ++ o2 ++ o3))
      end
  end.

(** [u] is where untraceable left the program and what it wrote. *)
Definition rtc_main (u : parent * list Z) (pid now errno : Z) (stat : list Z -> option stat_fields) (argv env : list (list Z))
    (st : arc4_state) : option main_result :=
  o ← debug (debugexec (Some (bytes_of "main")) (length argv) (Some (map Some argv ++ [None])));
  let u := if TRACEABLE then (Returned, []) else u in
  match u.1 with
  | Exited code => Some (Exits code (o ++ u.2))
  | Killed => Some (Dies (o ++ u.2))
  | Forking | Waiting => None
  | Returned =>
      r ← (program struct_stat place BUSYBOXON code data pid now stat argv env st).1;
      rtc_end (o ++ u.2) pid errno argv env st r
  end.
End Main.

(** * Lemmas *)

Section Facts.
Context (FreeBSD : bool) (self reaper : Z) (open_excl : list Z -> option Z) (attach : Z -> option Z)
  (fork_error waitpid_error : Z -> Prop) (strerror : Z -> list Z) (argv0 : option (list Z)).

#[local] Abbreviation step := (step FreeBSD self reaper open_excl attach fork_error waitpid_error strerror argv0).
#[local] Abbreviation granted := (granted FreeBSD self open_excl attach).
#[local] Abbreviation perror := (perror strerror argv0).

(** What the child knows of the program while the program is there. *)
Definition child_knows (present : Prop) (c : child) (fds : list bool) : Prop :=
  match c with
  | Unborn | Asking => True
  | Closing pid => present -> pid = self
  | Opening pid => (present -> pid = self) /\ lowest fds = 0%nat
  | Opened pid mine e =>
      (present -> pid = self) /\ open_excl (proc FreeBSD pid) = if mine then None else Some e
  | Decided pid mine e => (present -> pid = self) /\ (pid = self -> if mine then granted else ~ granted)
  | Leaving mine => present -> mine = true /\ granted
  | Ended code => present -> code = 1 /\ granted
  end.

Definition program_knows (p : parent) (c : child) (out : list Z) : Prop :=
  match p with
  | Forking => c = Unborn /\ out = []
  | Waiting => c <> Unborn /\ out = []
  | Returned => c = Ended 1 /\ granted /\ out = []
  | Exited code => code = 1 /\ (exists e, fork_error e \/ waitpid_error e) /\ exists es, out = concat (map perror es)
  | Killed => (c = Leaving false \/ c = Ended 0) /\ ~ granted /\ exists e, out = perror e
  end.

(** Only an attached child has the program stopped. *)
Definition stop_known (c : child) (stopped : bool) : Prop :=
  stopped = true -> exists e, c = Decided self true e.

Definition inv (s : state) : Prop :=
  child_knows (alive (program_at s) = true) (child_at s) (fds s)
  /\ program_knows (program_at s) (child_at s) (out s) /\ stop_known (child_at s) (stopped s).

Lemma lowest_closed fds : lowest (<[0%nat := false]> fds) = 0%nat.
Proof. by destruct fds. Qed.

Lemma inv_initial fds : inv (initial fds).
Proof. by split_and!. Qed.

(** The child goes on without the program's notice. *)
Lemma program_unaware p c c' o :
  program_knows p c o -> c <> Unborn -> (forall mine, c <> Leaving mine) -> (forall code, c <> Ended code) -> c' <> Unborn ->
  program_knows p c' o.
Proof.
  destruct p; cbn [program_knows]; intros H H1 H2 H3 H4; try done.
  - by destruct H.
  - by destruct H as (_ & ->).
  - by destruct H as (-> & _); destruct (H3 1).
  - destruct H as ([->| ->] & _); [by destruct (H2 false)|by destruct (H3 0)].
Qed.

Lemma not_stopped c st : stop_known c st -> (forall e, c <> Decided self true e) -> st = false.
Proof. intros H Hc. destruct st; [|done]. destruct (H eq_refl) as [e He]. by destruct (Hc e). Qed.

Lemma stop_known_false c : stop_known c false.
Proof. done. Qed.

Lemma granted_open pid e : pid = self -> open_excl (proc FreeBSD pid) = Some e -> e = EBUSY \/ attach pid <> None -> ~ granted.
Proof.
  intros -> He H [H'|(e' & He' & Hb & Ha)]; [congruence|]. rewrite He in He'. injection He' as <-. by destruct H.
Qed.

Lemma exited_first c o e : o = [] -> fork_error e \/ waitpid_error e -> program_knows (Exited 1) c (o ++ perror e).
Proof. intros -> H. split; [done|]. split; [by exists e|]. exists [e]. cbn. by rewrite app_nil_r. Qed.

Lemma exited_more code c c' o e : program_knows (Exited code) c o -> program_knows (Exited code) c' (o ++ perror e).
Proof.
  intros (-> & H & es & ->). split; [done|]. split; [exact H|]. exists (es ++ [e]). rewrite map_app, concat_app. cbn [map concat].
  by rewrite app_nil_r.
Qed.

Lemma inv_step s s' : step s s' -> inv s -> inv s'.
Proof.
  intros Hs (Hc & Hp & Hst). unfold inv. destruct Hs as [| |p|p|p pid fd st o e He|p|p pid mine e fd st o Hm|p pid e fd st o He Ha|p pid e e' fd st o He Ha
    | p pid e fd st o|p pid e fd st o|p mine fd st o|code fd o|c fd o e He];
    cbn [program_at child_at fds out stopped child_knows] in *.
  all: try (apply not_stopped in Hst; [|done]; subst).
  - by destruct Hp as (_ & ->).
  - split_and!; try done. apply exited_first; [by destruct Hp|by left].
  - split_and!; try done; [by destruct (alive p)|by eapply (program_unaware)].
  - split_and!; try done; [apply lowest_closed|by eapply (program_unaware)].
  - destruct Hc as [Hc ->]. split_and!; try done. by eapply (program_unaware).
  - destruct Hc as [Hc Hf]. split_and!; try done. by eapply (program_unaware).
  - destruct Hc as [Hc Ho]. split_and!; try done; [|by eapply (program_unaware)].
    intros ->. destruct mine; [by left|]. apply Z.eqb_eq in Hm. apply (granted_open self e); [done|done|by left].
  - destruct Hc as [Hc Ho]. split_and!; try done; [|by eapply (program_unaware)|].
    + intros ->. right. by exists e.
    + unfold stop_known, stop_program. destruct (Z.eqb_spec pid self) as [->|]; [by exists e|done].
  - destruct Hc as [Hc Ho]. split_and!; try done; [|by eapply (program_unaware)].
    intros ->. apply (granted_open self e); [done|done|by right; rewrite Ha].
  - destruct Hc as [Hc Hg]. split_and!.
    + intros H. by split; [|apply Hg, Hc].
    + by eapply (program_unaware).
    + intros H. destruct st; [|by unfold cont_program in H; rewrite andb_false_r in H]. destruct (Hst eq_refl) as (e' & [= -> _]).
      unfold cont_program in H. by rewrite Z.eqb_refl in H.
  - destruct Hc as [Hc Hg]. unfold kill_program. destruct (Z.eqb_spec pid self) as [->|Hne].
    + destruct (alive p) eqn:E; cbn [andb].
      * split_and!; try done. split; [by left|]. split; [by apply Hg|]. exists e. destruct p; try done; by destruct Hp as (_ & ->).
      * split_and!; try done; [by rewrite E|]. destruct p; try done; [by destruct Hp|by eapply exited_more|by destruct Hp as ([|] & _)].
    + cbn [andb]. destruct (alive p) eqn:E; [by destruct (Hne (Hc eq_refl))|].
      split_and!; try done. destruct p; try done; [by destruct Hp|by eapply exited_more|by destruct Hp as ([|] & _)].
  - split_and!; try done; [by intros H; destruct (Hc H) as [-> Hg]|].
    destruct p; try done; [by destruct Hp|by destruct Hp as (_ & ->)|by destruct Hp|].
    destruct Hp as ([[= ->]|] & Hp); [|done]. by split; [right|].
  - destruct (Hc eq_refl) as [-> Hg]. split_and!; try done. by destruct Hp as (_ & ->).
  - split_and!; try done; [|apply exited_first; [by destruct Hp|by right]].
    destruct c; cbn in *; naive_solver.
Qed.

Lemma inv_nsteps fds n s : nsteps step n (initial fds) s -> inv s.
Proof.
  intros H. remember (initial fds) as s0 eqn:E. assert (inv s0) as Hi by (subst; apply inv_initial).
  clear E. induction H as [s|n s0 s1 s H _ IH]; [exact Hi|]. apply IH. by apply (inv_step s0).
Qed.

(** ** How many steps are left *)

Definition steps_left (s : state) : nat :=
  match program_at s with Forking | Waiting => 1 | _ => 0 end
  + match child_at s with
    | Unborn => if alive (program_at s) then 8 else 0
    | Asking => 6 | Closing _ => 5 | Opening _ => 4 | Opened _ _ _ => 3 | Decided _ _ _ => 2 | Leaving _ => 1 | Ended _ => 0
    end.

Lemma step_less s s' : step s s' -> (steps_left s' < steps_left s)%nat.
Proof. destruct 1; unfold kill_program, steps_left; cbn [program_at child_at alive]; repeat case_match; try (lia || congruence). Qed.

Lemma steps_bound n s s' : nsteps step n s s' -> (n + steps_left s' <= steps_left s)%nat.
Proof. induction 1 as [s|n s0 s1 s H _ IH]; [done|]. apply step_less in H. lia. Qed.

Lemma program_goes_on s : inv s -> alive (program_at s) = true -> exists s', step s s'.
Proof.
  intros (_ & Hp & Hst) Ha. destruct s as [p c fd st o]. cbn [program_at child_at out stopped fds] in *.
  destruct c as [| |pid|pid|pid mine e|pid mine e|mine|code].
  - apply not_stopped in Hst; [|done]. subst st. destruct p; try done; [eexists; apply step_fork|by destruct Hp].
  - eexists. apply step_getppid.
  - eexists. apply step_close.
  - destruct (open_excl (proc FreeBSD pid)) as [e|] eqn:E; eexists; [by eapply step_open_error|by apply (step_open _ _ _ _ _ _ _ _ _ _ _ _ _ _ 0)].
  - destruct (mine || (e =? EBUSY)) eqn:E; [eexists; by apply step_no_attach|].
    apply orb_false_iff in E as [-> E]. apply Z.eqb_neq in E.
    destruct (attach pid) as [e'|] eqn:Ea; eexists; [by eapply step_attach_error|by apply step_attach].
  - destruct mine; eexists; [apply step_continue|apply step_kill].
  - eexists. apply step_exit.
  - apply not_stopped in Hst; [|done]. subst st. destruct p; try done; [by destruct Hp|eexists; apply step_wait].
Qed.
End Facts.

(** ** What is written *)

(** A vector of strings, with the null pointer at its end, as -D shows it. *)
Definition vector_text (name : list Z) (vec : list (option (list Z))) : list Z :=
  bytes_of "shll=" ++ name ++ [10] ++ bytes_of "argc=" ++ fmt_d (Z.of_nat (length vec)) ++ [10]
  ++ concat (imap (fun i a => bytes_of "argv[" ++ fmt_d (Z.of_nat i) ++ bytes_of "]="
       ++ take 60 (match a with Some s => s | None => bytes_of "<null>" end) ++ [10]) (vec ++ [None])).

(** The line of the environment variable. *)
Definition env_text (name : list Z) (value : list Z) : list Z :=
  bytes_of "getenv(" ++ name ++ bytes_of ")=" ++ value ++ [10].

(** What a program built with -D writes and another does not. *)
Definition told (D : bool) (t : list Z) : list Z := if D then t else [].

(** The last line of a program that does not become another. *)
Definition complaint (strerror : Z -> list Z) (me : list Z) (errno : Z) (m : list Z) : list Z :=
  me ++ (if errno =? 0 then [] else bytes_of ": " ++ strerror errno) ++ bytes_of ": " ++ m ++ [10].

(** How main ends when it is to show a message or to execute a file; [o] is
    what was written before. *)
Inductive ends (D : bool) (strerror : Z -> list Z) (execvp : list Z -> list (list Z) -> option Z) (me : list Z) (errno : Z) (o : list Z) :
    xsh_result -> main_result -> Prop :=
  | ends_message m :
      ends D strerror execvp me errno o (Message m) (Exits 1 (o ++ complaint strerror me errno m))
  | ends_replaced file vec : execvp file (args_of vec) = None ->
      ends D strerror execvp me errno o (Exec file vec) (Replaced file (args_of vec) (o ++ told D (vector_text file vec)))
  | ends_failed file vec e : execvp file (args_of vec) = Some e ->
      ends D strerror execvp me errno o (Exec file vec)
        (Exits 1 (o ++ told D (vector_text file vec) ++ complaint strerror me e file)).

Lemma ends_exec D strerror execvp me errno o file vec m :
  ends D strerror execvp me errno o (Exec file vec) m -> execvp file (args_of vec) = None ->
  m = Replaced file (args_of vec) (o ++ told D (vector_text file vec)).
Proof. inversion 1; congruence. Qed.

Lemma debug_loop_text l i pre :
  length pre = i ->
  debug_loop (length l) i (pre ++ l) = Some (concat (imap (fun k a => debug_arg (i + k) a) l)).
Proof.
  revert i pre. induction l as [|a l IH]; intros i pre Hi; cbn [length debug_loop]; [done|].
  subst i. rewrite (list_lookup_middle pre l a) by done. cbn [mbind option_bind].
  specialize (IH (S (length pre)) (pre ++ [a])). rewrite <- app_assoc in IH. cbn [app] in IH.
  rewrite IH by (rewrite length_app; cbn; lia). cbn [mbind option_bind imap concat]. rewrite Nat.add_0_r.
  do 3 f_equal. apply imap_ext. intros k x _. unfold compose. by rewrite Nat.add_succ_r.
Qed.

(** A vector that ends in a null pointer is listed with it. *)
Lemma debugexec_text sh11 argv : debugexec (Some sh11) (length argv) (Some (argv ++ [None])) = Some (vector_text sh11 argv).
Proof.
  unfold debugexec. pose proof (debug_loop_text (argv ++ [None]) 0 [] eq_refl) as E.
  rewrite length_app in E. cbn [length app] in E. rewrite Nat.add_1_r in E. rewrite E. reflexivity.
Qed.

Lemma debug_main D argv :
  debug D (debugexec (Some (bytes_of "main")) (length argv) (Some (map Some argv ++ [None])))
  = Some (told D (vector_text (bytes_of "main") (map Some argv))).
Proof. rewrite <- (length_map Some argv), debugexec_text. by destruct D. Qed.

Lemma rtc_end_ends D code data strerror execvp o pid errno me rest env st r :
  r <> Nameless ->
  exists m, rtc_end D code data strerror execvp o pid errno (me :: rest) env st r = Some m
    /\ ends D strerror execvp me errno (o ++ told D (debug_chkenv code data pid env st)) r m.
Proof.
  intros Hr. assert (forall e f, report strerror (me :: rest) e f = Some (complaint strerror me e f)) as Hc.
  { intros e f. unfold report, complaint. destruct (e =? 0); by rewrite <- ?app_assoc. }
  destruct r as [m| |file vec]; [|done|]; unfold rtc_end.
  - assert (debug D (Some (debug_chkenv code data pid env st)) = Some (told D (debug_chkenv code data pid env st))) as -> by by destruct D.
    cbn [mbind option_bind]. rewrite Hc. eexists. split; [reflexivity|]. rewrite app_assoc. constructor.
  - assert (debug D (Some (debug_chkenv code data pid env st)) = Some (told D (debug_chkenv code data pid env st))) as -> by by destruct D.
    rewrite debugexec_text. assert (forall t, debug D (Some t) = Some (told D t)) as -> by by destruct D.
    cbn [mbind option_bind]. destruct (execvp file (args_of vec)) as [e|] eqn:Ex.
    + rewrite Hc. eexists. split; [reflexivity|]. rewrite app_assoc. by constructor.
    + eexists. split; [reflexivity|]. rewrite app_assoc. by constructor.
Qed.

(** The variable before and after the first pass. *)
Lemma debug_chkenv_first code data pid env st :
  getenv (env_var code (data ++ [0]) pid st) env 0 = None ->
  debug_chkenv code data pid env st = env_text (env_var code (data ++ [0]) pid st) (bytes_of "<null>").
Proof. intros H. unfold debug_chkenv, env_var in *. by rewrite H. Qed.

Lemma debug_chkenv_second code data pid argc env st st' :
  length (stte st) = 256%nat -> length (stte st') = 256%nat ->
  getenv (env_var code (data ++ [0]) pid st) env 0 = None ->
  debug_chkenv code data pid (env_after code (data ++ [0]) pid argc env st) st'
  = env_text (env_var code (data ++ [0]) pid st) (env_value (fst (mask_of code (data ++ [0]) pid st)) argc).
Proof.
  intros H H' Hg. unfold debug_chkenv, env_after, env_var in *. rewrite (mask_of_same code (data ++ [0]) pid st' st H' H).
  by rewrite (getenv_end _ _ _ _ Hg).
Qed.

Lemma intended_not_nameless B inp ret now stat me argv : intended B inp ret now stat me argv <> Some Nameless.
Proof.
  unfold intended. repeat case_match; try done. destruct (sprintf_s _ _); [|done]. cbn. by case_match.
Qed.

Lemma args_of_map args : args_of (map Some args) = args.
Proof. induction args as [|a args IH]; [done|]. cbn. by rewrite IH. Qed.

(** Called without arguments the program finds its name in the environment, but
    copies the null pointer: the shell gets no arguments and no script. *)
Lemma no_argv_no_script ret opts inlo scrpt lsto : args_of (shell_argv 0 ret opts inlo scrpt lsto []) = [].
Proof. reflexivity. Qed.

(** A run of untraceable where ptrace succeeds. *)
Lemma example_run argv0 :
  nsteps (step false 77 1 (fun _ => Some 2) (fun _ => None) (fun _ => False) (fun _ => False) (fun _ => []) argv0)
    8 (initial [true; true; true]) (State Returned (Ended 1) [false; true; true] false []).
Proof.
  eapply nsteps_l; [apply step_fork|]. eapply nsteps_l; [apply step_getppid|]. eapply nsteps_l; [apply step_close|].
  eapply nsteps_l; [by eapply step_open_error|]. eapply nsteps_l; [by apply step_attach|].
  eapply nsteps_l; [apply step_continue|]. eapply nsteps_l; [apply step_exit|]. eapply nsteps_l; [apply step_wait|]. apply nsteps_O.
Qed.

(** * Theorems *)

(** C9.  The check against tracing.  However the program and its child take
    turns, they do so for at most nine steps, and the program can go on until it
    is at an end; it comes back from untraceable only when the kernel gave the
    child the program exclusively - by the file under /proc or, unless the error
    was that it is busy, by ptrace - and then nothing was written; it is killed,
    after one error message, only when the kernel did not; and it exits only
    with status 1, after an error of fork or waitpid.  So a program that is
    traced never gets past this point. *)
Theorem untraceable_correct FreeBSD self reaper open_excl attach fork_error waitpid_error strerror argv0 fds n s :
  let step := step FreeBSD self reaper open_excl attach fork_error waitpid_error strerror argv0 in
  let granted := granted FreeBSD self open_excl attach in
  nsteps step n (initial fds) s ->
  (n <= 9)%nat
  /\ (alive (program_at s) = true -> exists s', step s s')
  /\ match program_at s with
     | Forking | Waiting => out s = []
     | Returned => granted /\ child_at s = Ended 1 /\ out s = []
     | Killed => ~ granted /\ exists e, out s = perror strerror argv0 e
     | Exited code => code = 1 /\ (exists e, fork_error e \/ waitpid_error e) /\ exists es, out s = concat (map (perror strerror argv0) es)
     end.
Proof.
  cbv zeta. intros Hs. pose proof (steps_bound _ _ _ _ _ _ _ _ _ _ _ _ Hs) as Hn.
  pose proof (inv_nsteps _ _ _ _ _ _ _ _ _ _ _ _ Hs) as Hi.
  split; [cbn in Hn; lia|]. split; [intros Ha; by eapply program_goes_on|].
  destruct Hi as (_ & Hp & _). destruct (program_at s); cbn [program_knows] in Hp; [apply Hp|apply Hp|naive_solver|exact Hp|apply Hp].
Qed.

Lemma untraceable_correct_witness :
  exists n s, nsteps (step false 77 1 (fun _ => Some 2) (fun _ => None) (fun _ => False) (fun _ => False) (fun _ => []) None)
      n (initial [true; true; true]) s
    /\ n = 8%nat /\ program_at s = Returned /\ child_at s = Ended 1 /\ fds s = [false; true; true]
    /\ granted false 77 (fun _ => Some 2) (fun _ => None).
Proof.
  pose proof (example_run None) as H.
  exists 8%nat. eexists. split; [exact H|]. do 4 (split; [reflexivity|]).
  exact (proj1 (proj2 (proj2 (untraceable_correct _ _ _ _ _ _ _ _ _ _ _ _ H)))).
Defined.

(** C8.  A program akb_cc wrote, from its main on.  Built without -U, or when
    untraceable came back, it does in each of its two passes what the script and
    its options ask for: it hands the shell, its options and the script to
    execvp, or ends with status 1 and a line with its name, the error and what
    failed when there is only a message to show or execvp fails.  Built with -D
    it has written its arguments, the environment variable of the passes and the
    arguments of the shell before; without -D nothing.  Built with -U and not
    left to its child by the kernel it runs and shows nothing of the script,
    whatever it is called with: it dies or exits with 1, and has written only
    its arguments (with -D) and error messages. *)
Theorem rtc_main_correct rand fuel struct_stat fname arguments argv g text inp statf st k output k' :
  (forall k, 0 <= rand k <= RAND_MAX) -> (forall k, exists j, (j < fuel)%nat /\ rand (k + j)%nat < 2 ^ 30) ->
  inputs_of g text = Some inp -> inputs_ok inp -> length (stte st) = 256%nat ->
  places_ok arguments argv (in_inlo inp) (in_xecc inp) (in_lsto inp) ->
  write_C rand fuel struct_stat fname arguments g text statf st k = Some (Some output, k') ->
  exists cs shown, output = (fname ++ text_of ".x.c", file_head shown ++ layout_text 0 cs ++ file_tail g)
    /\ Forall2 (shown_as arguments (fun i e => exists c, c ∈ cs /\ c_index c = i /\ c_payload c = e)) argv shown
    /\ forall FreeBSD self reaper open_excl attach fork_error waitpid_error strerror execvp code stat env args st1 fds n s,
         let D := negb (DEBUGEXEC_flag g =? 0) in
         let T := negb (TRACEABLE_flag g =? 0) in
         let main s := rtc_main struct_stat (place_of 0 cs) (BUSYBOXON_flag g) D T code (data_of cs) strerror execvp
           (program_at s, out s) self in
         let start args := told D (vector_text (bytes_of "main") (map Some args)) in
         nsteps (step FreeBSD self reaper open_excl attach fork_error waitpid_error strerror (head args)) n (initial fds) s ->
         alive (program_at s) = false ->
         (T = false -> ~ granted FreeBSD self open_excl attach -> forall now errno,
            exists es, let o := start args ++ concat (map (perror strerror (head args)) es) in
              main s now errno stat args env st1 = Some (Dies o) \/ main s now errno stat args env st1 = Some (Exits 1 o))
         /\ (T = true \/ program_at s = Returned -> length (stte st1) = 256%nat -> Z.of_nat (length args) < 2 ^ 31 ->
             (in_rlax inp = 0 -> stat (in_shll inp) = statf \/ stat (in_shll inp) = None) ->
             forall me rest me' rest' st2 now now' errno, args = me :: rest -> length (stte st2) = 256%nat ->
             let name := env_var code (data_of cs ++ [0]) self st1 in
             let value := env_value (fst (mask_of code (data_of cs ++ [0]) self st1)) (Z.of_nat (length args)) in
             let args' := me' :: rest' in
             getenv name env 0 = None ->
             match intended (BUSYBOXON_flag g) inp 0 now stat me args with
             | None => main s now errno stat args env st1 = None
             | Some r => exists m, main s now errno stat args env st1 = Some m
                 /\ ends D strerror execvp me errno (start args ++ told D (env_text name (bytes_of "<null>"))) r m
             end
             /\ match intended (BUSYBOXON_flag g) inp (1 + (Z.of_nat (length args') - Z.of_nat (length args))) now' stat me' args' with
                | None => main s now' errno stat args' (env ++ [name ++ [61] ++ value]) st2 = None
                | Some r => exists m, main s now' errno stat args' (env ++ [name ++ [61] ++ value]) st2 = Some m
                    /\ ends D strerror execvp me' errno (start args' ++ told D (env_text name value)) r m
                end).
Proof.
  intros Hr Hlow Hinp Hok Hst Hpl Hw.
  destruct (write_C_spec rand fuel struct_stat Hr Hlow fname arguments argv g text inp statf st k Hinp Hok Hst Hpl) as (r & k2 & E & H).
  rewrite Hw in E. injection E as <- <-. destruct H as (_ & cs & shown & Eo & Hshown & _ & _ & Hrun). exists cs, shown.
  split; [exact Eo|]. split; [exact Hshown|].
  intros FreeBSD self reaper open_excl attach fork_error waitpid_error strerror execvp code stat env args st1 fds n s D T. cbv zeta.
  intros Hs Ha. pose proof (inv_nsteps _ _ _ _ _ _ _ _ _ _ _ _ Hs) as (_ & Hp & _). split.
  - intros -> Hg now errno. unfold rtc_main. rewrite debug_main. cbn [mbind option_bind fst snd].
    destruct (program_at s) as [| | |code'|]; try discriminate Ha.
    + by destruct Hp as (_ & Hp & _).
    + destruct Hp as (-> & _ & es & ->). exists es. by right.
    + destruct Hp as (_ & _ & e & ->). exists [e]. cbn [map concat]. rewrite app_nil_r. by left.
  - intros HT H1 Hargs Hstat me rest me' rest' st2 now now' errno -> H2 Hg.
    pose proof (program_passes struct_stat cs g inp statf Hrun code self now now' stat env (me :: rest) (me' :: rest') me me' st1 st2
      eq_refl eq_refl H1 H2 Hargs Hstat) as Hpass.
    cbv zeta in Hpass. rewrite Hg in Hpass. destruct Hpass as (P1 & P2).
    assert ((if T then (Returned, []) else (program_at s, out s)) = (Returned, [])) as Eu.
    { destruct HT as [->|HT]; [done|]. rewrite HT in Hp |- *. destruct Hp as (_ & _ & ->). by destruct T. }
    unfold rtc_main. rewrite !debug_main. cbn [mbind option_bind]. rewrite Eu. cbn [fst snd].
    fold (env_after code (data_of cs ++ [0]) self (Z.of_nat (length (me :: rest))) env st1).
    rewrite P1, P2, !app_nil_r. cbn [fst]. split.
    + pose proof (intended_not_nameless (BUSYBOXON_flag g) inp 0 now stat me (me :: rest)) as Hn.
      destruct (intended _ inp 0 now stat me (me :: rest)) as [r|]; [|done]. cbn [mbind option_bind].
      rewrite <- (debug_chkenv_first _ _ _ _ _ Hg). apply rtc_end_ends. congruence.
    + match goal with |- context [intended ?B inp ?z now' stat me' ?a] =>
        pose proof (intended_not_nameless B inp z now' stat me' a) as Hn; destruct (intended B inp z now' stat me' a) as [r|] end;
        [|done]. cbn [mbind option_bind].
      rewrite <- (debug_chkenv_second _ _ _ _ _ st1 st2 H1 H2 Hg). apply rtc_end_ends. congruence.
Qed.

(** With -D and -U, called as x: what the program writes before it becomes the
    shell that is to execute it again. *)
Lemma rtc_main_correct_witness :
  exists inp r k' s, let g := set_DEBUGEXEC 1 (set_TRACEABLE 0 example_globals) in
    inputs_of g (bytes_of "#!/bin/sh") = Some inp
    /\ write_C (fun _ => 12345) 1 (fun _ => []) (bytes_of "x.sh") example_arguments g (bytes_of "#!/bin/sh") None
         (Arc4State bytes256 0 0 0) 0%nat = Some (Some r, k')
    /\ program_at s = Returned
    /\ exists place data name,
         rtc_main (fun _ => []) place 0 true false [] data (fun _ => []) (fun _ _ => None) (program_at s, out s) 77 0 0
           (fun _ => None) [bytes_of "x"] [] (Arc4State bytes256 0 0 0)
         = Some (Replaced (bytes_of "/bin/sh") (map bytes_of ["x"; "-c"; "exec 'x'"; "x"])
             (concat (map line ["shll=main"; "argc=1"; "argv[0]=x"; "argv[1]=<null>"])
              ++ bytes_of "getenv(" ++ name ++ line ")=<null>"
              ++ concat (map line ["shll=/bin/sh"; "argc=4"; "argv[0]=x"; "argv[1]=-c"; "argv[2]=exec 'x'"; "argv[3]=x"; "argv[4]=<null>"]))).
Proof.
  pose (g := set_DEBUGEXEC 1 (set_TRACEABLE 0 example_globals)).
  destruct (inputs_of g (bytes_of "#!/bin/sh")) as [inp|] eqn:Ei; [|discriminate Ei].
  destruct example_rand as [Hr Hl]. pose proof (example_inputs_ok 0 inp Ei) as Hok.
  assert (in_inlo inp = bytes_of "-c") as Hi by by injection Ei as <-.
  destruct (write_C_spec _ 1 (fun _ => []) Hr Hl (bytes_of "x.sh") example_arguments example_argv g (bytes_of "#!/bin/sh") inp None
    (Arc4State bytes256 0 0 0) 0%nat Ei Hok eq_refl (example_places inp Hi)) as ([r|] & k' & E & H).
  2: { destruct H as [H _]. injection Ei as <-. discriminate H. }
  pose proof (example_run (head [bytes_of "x"])) as Hs.
  destruct (rtc_main_correct _ 1 (fun _ => []) (bytes_of "x.sh") example_arguments example_argv g (bytes_of "#!/bin/sh") inp None
    (Arc4State bytes256 0 0 0) 0%nat r k' Hr Hl Ei Hok eq_refl (example_places inp Hi) E) as (cs & shown & _ & _ & Hrun).
  destruct (Hrun false 77 1 (fun _ => Some 2) (fun _ => None) (fun _ => False) (fun _ => False) (fun _ => []) (fun _ _ => None) []
    (fun _ => None) [] [bytes_of "x"] (Arc4State bytes256 0 0 0) _ _ _ Hs eq_refl) as (_ & Hrun2).
  destruct (Hrun2 (or_intror eq_refl) eq_refl ltac:(cbn; lia) ltac:(auto) (bytes_of "x") [] (bytes_of "x") []
    (Arc4State bytes256 0 0 0) 0 0 0 eq_refl eq_refl eq_refl) as (Hfirst & _).
  clear Hrun Hrun2. injection Ei as <-.
  destruct Hfirst as (m & E1 & Hm).
  exists (Inputs [] (bytes_of "Please contact your provider") 1 (bytes_of "/bin/sh") (bytes_of "-c") (bytes_of "exec '%s'") [] [] (bytes_of "#!/bin/sh")),
    r, k', (State Returned (Ended 1) [false; true; true] false []). split; [reflexivity|]. split; [exact E|]. split; [reflexivity|].
  exists (place_of 0 cs), (data_of cs), (env_var [] (data_of cs ++ [0]) 77 (Arc4State bytes256 0 0 0)).
  apply ends_exec in Hm; [|reflexivity]. etransitivity; [exact E1|]. rewrite Hm. clear Hm E1.
  generalize (env_var [] (data_of cs ++ [0]) 77 (Arc4State bytes256 0 0 0)). intros name.
  change (negb (DEBUGEXEC_flag _ =? 0)) with true. unfold told, env_text. rewrite <- !app_assoc. reflexivity.
Defined.
