(* ===== verification/AkbMain.v ===== *)
(** * akb_cc: make, do_all and main

    The compile commands and the run of the whole tool, composed of the
    components of the other files; system(3), the environment, the files that
    can be opened and created, mktime(3) and rand(3) are parameters. *)
From S2P Require Import Prelude Libc Digits Arc4 AkbOpts AkbArgs AkbRtc AkbGen AkbRun.

(** How a run ends: the exit status, the file written and the commands run. *)
Inductive run_result : Type :=
  | Exited (code : Z) (files : list (list Z * list Z)) (commands : list (list Z))
  | Crashed.

Section Main.
Context (rand : nat -> Z) (fuel : nat) (struct_stat : stat_fields -> list Z) (mktime : Z -> Z -> Z -> Z) (reorder : bool).
Context (stat : list Z -> option stat_fields) (open : list Z -> option (list Z)) (can_create : list Z -> bool).
Context (getenv : list Z -> option (list Z)) (system : list Z -> Z).

Definition default (o : option (list Z)) (d : list Z) : list Z := match o with Some s => s | None => d end.

(** [make]: its result and the commands; [None] when one is longer than
    [cmd]. *)
Definition make (g : globals) (file : list Z) : option (Z * list (list Z)) :=
  let cc := default (getenv (bytes_of "CC")) (bytes_of "cc") in
  let cflags := default (getenv (bytes_of "CFLAGS")) [] in
  let file2 := default (file2 g) (file ++ bytes_of ".x") in
  let compile := cc ++ sp ++ cflags ++ sp ++ file ++ bytes_of ".x.c -o " ++ file2 in
  let strip := bytes_of "strip " ++ file2 in
  let chmod := bytes_of "chmod ug=rwx,o=rx " ++ file2 in
  if (SIZE <=? length compile)%nat then None else
  if negb (system compile =? 0) then Some (-1, [compile]) else
  if (SIZE <=? length strip)%nat || (SIZE <=? length chmod)%nat then None else
  Some (0, [compile; strip; chmod]).

(** [static unsigned char stte[256], indx, jndx, kndx;] *)
Definition arc4_init : arc4_state := Arc4State (replicate 256 0) 0 0 0.

(** [main] and [do_all], on the memory of the arguments and their addresses; the
    script is read as a C string.  [None] is a random number that is never drawn
    or an argument that is read behind the memory. *)
Definition main (mem : list Z) (argv : list nat) (k : nat) : option run_result :=
  strings ← mapM (string_at mem) argv;
  let error := Some (Exited 1 [] []) in
  match parse_args mktime reorder (tail strings) globals_init with
  | None => None
  | Some (Printed _, _) => Some (Exited 0 [] [])
  | Some (Exit1, _) => error
  | Some (Parsed g, _) =>
      match file g with
      | None => Some Crashed
      | Some f =>
          match open f with
          | None => error
          | Some content =>
              buffer ← read_script content;
              text ← c_string buffer;
              match eval_shell text g with
              | None => Some Crashed
              | Some (r, g) =>
                  if negb (r =? 0) then error else
                  shll ← shll g;
                  w ← write_C rand fuel struct_stat f (arg_memory_of mem reorder (zip argv strings)) g text (stat shll) arc4_init k;
                  match w.1 with
                  | None => error
                  | Some (name, c) =>
                      if negb (can_create name) then error else
                      match make g f with
                      | None => Some Crashed
                      | Some (r, commands) => Some (Exited (if r =? 0 then 0 else 1) [(name, c)] commands)
                      end
                  end
              end
          end
      end
  end.
End Main.

(** * Lemmas *)

(** ** read_script *)

Lemma read_loop_spec fuel content text : (length content < fuel)%nat -> read_loop fuel content text = Some (text ++ content).
Proof.
  revert content text. induction fuel as [|k IH]; intros content text H; [lia|]. cbn [read_loop].
  destruct content as [|b content]; [by rewrite app_nil_r|].
  rewrite IH; [by rewrite <- app_assoc, take_drop|]. rewrite length_drop. cbn [length] in *. unfold SIZE. lia.
Qed.

Lemma read_script_spec content : read_script content = Some (content ++ [0]).
Proof. unfold read_script. rewrite read_loop_spec by lia. done. Qed.

Lemma c_string_ok mem s : c_string mem = Some s -> Forall (fun b => b <> 0) s /\ exists r, mem = s ++ 0 :: r.
Proof.
  revert s. induction mem as [|b mem IH]; intros s; cbn [c_string]; [done|]. destruct (Z.eqb_spec b 0) as [->|Hb].
  - intros [= <-]. split; [done|]. by exists mem.
  - destruct (c_string mem) as [t|]; [|done]. intros [= <-]. destruct (IH t eq_refl) as (Ht & r & ->).
    split; [by apply Forall_cons_2|]. by exists r.
Qed.

Lemma c_string_total l : exists s, c_string (l ++ [0]) = Some s.
Proof.
  induction l as [|b l (s & IH)]; [by exists []|]. cbn [app c_string]. destruct (b =? 0); [by eexists|]. rewrite IH. by eexists.
Qed.

(** The script as a C string. *)
Lemma script_cstr content s :
  words 8 content -> Z.of_nat (length content) < 2 ^ 30 -> c_string (content ++ [0]) = Some s -> cstr s.
Proof.
  intros Hw Hl H. destruct (c_string_ok _ _ H) as (Hs & r & E).
  assert (length s <= length content)%nat as Hle.
  { apply (f_equal length) in E. rewrite !length_app in E. cbn [length] in E. lia. }
  split; [|split; [done|lia]]. apply (f_equal (take (length s))) in E. rewrite take_app_length, take_app_le in E by done.
  rewrite <- E. by apply Forall_take.
Qed.

(** ** The strings of the options *)

Lemma cstr_app_inv a b : cstr (a ++ b) -> cstr a /\ cstr b.
Proof.
  intros (Hw & Hn & Hl). apply Forall_app in Hw as [? ?]. apply Forall_app in Hn as [? ?]. rewrite length_app in Hl.
  split; (split; [done|split; [done|lia]]).
Qed.
Lemma cstr_nil : cstr [].
Proof. split; [done|split; [done|reflexivity]]. Qed.
Lemma cstr_cons_inv b s : cstr (b :: s) -> cstr s.
Proof. apply (cstr_app_inv [b]). Qed.

Lemma scan_cluster_cstr optstring cluster argv rs argv' :
  cstr cluster -> Forall cstr argv -> scan_cluster optstring cluster argv = (rs, argv') ->
  Forall (fun r => cstr r.2) rs /\ Forall cstr argv'.
Proof.
  intros Hc Ha. revert rs argv'. induction cluster as [|c cluster IH]; intros rs argv'; cbn [scan_cluster].
  { intros [= <- <-]. done. }
  apply cstr_cons_inv in Hc. destruct (opt_kind optstring c) as [[|]|].
  - destruct cluster as [|d cluster].
    + destruct argv as [|arg argv]; intros [= <- <-].
      * split; [by apply Forall_singleton, cstr_nil|done].
      * apply Forall_cons in Ha as [Ha Har]. split; [by apply Forall_singleton|done].
    + intros [= <- <-]. split; [by apply Forall_singleton|done].
  - destruct (scan_cluster optstring cluster argv) as [rs1 argv1] eqn:E. intros [= <- <-]. destruct (IH Hc _ _ eq_refl) as [H1 H2].
    split; [|done]. apply Forall_cons_2; [apply cstr_nil|done].
  - destruct (scan_cluster optstring cluster argv) as [rs1 argv1] eqn:E. intros [= <- <-]. destruct (IH Hc _ _ eq_refl) as [H1 H2].
    split; [|done]. apply Forall_cons_2; [apply cstr_nil|done].
Qed.

Lemma getopt_cstr reorder optstring argv : Forall cstr argv -> Forall (fun r => cstr r.2) (getopt reorder optstring argv).1.
Proof.
  unfold getopt. generalize (length argv) as fuel. intros fuel Ha.
  destruct (getopt_loop reorder fuel optstring argv) as [[rs options] operands] eqn:E. cbn [fst].
  revert argv rs options operands Ha E. induction fuel as [|k IH]; intros argv rs options operands Ha; cbn [getopt_loop].
  { by intros [= <- <- <-]. }
  destruct argv as [|arg rest]; [by intros [= <- <- <-]|]. apply Forall_cons in Ha as [Ha Har].
  assert ((if reorder then let '(rs, options, operands) := getopt_loop reorder k optstring rest in (rs, options, arg :: operands)
           else ([], [], arg :: rest)) = (rs, options, operands) -> Forall (fun r => cstr r.2) rs) as Hoperand.
  { destruct reorder; [|by intros [= <- <- <-]]. destruct (getopt_loop true k optstring rest) as [[rs1 o1] n1] eqn:E1.
    intros [= <- <- <-]. by eapply IH. }
  destruct arg as [|b [|c cl]]; [exact Hoperand|destruct (decide (b = 45)) as [->|]; [exact Hoperand|by repeat case_match]|].
  destruct (decide (b = 45)) as [->|Hb]; [|by repeat case_match]. clear Hoperand.
  destruct (bool_decide (c :: cl = [45])); [by intros [= <- <- <-]|].
  destruct (scan_cluster optstring (c :: cl) rest) as [rs1 rest1] eqn:E1.
  destruct (scan_cluster_cstr _ _ _ _ _ (cstr_cons_inv _ _ Ha) Har E1) as [H1 H2].
  destruct (getopt_loop reorder k optstring rest1) as [[rs2 o2] n2] eqn:E2. intros [= <- <- <-].
  apply Forall_app. split; [done|by eapply IH].
Qed.

(** The strings of the variables are C strings. *)
Definition opt_cstr (o : option (list Z)) : Prop := match o with Some s => cstr s | None => True end.
Definition globals_ok (g : globals) : Prop :=
  cstr (date g) /\ cstr (mail g) /\ is_word 8 (rlax g) /\ opt_cstr (shll g) /\ opt_cstr (inlo g) /\ opt_cstr (xecc g)
  /\ opt_cstr (lsto g) /\ opt_cstr (opts g).

Lemma cstr_bytes s :
  forallb (fun b => negb (b =? 0) && ((0 <=? b) && (b <? 2 ^ 8))) s && (Z.of_nat (length s) <? 2 ^ 30) = true -> cstr s.
Proof.
  rewrite andb_true_iff, Z.ltb_lt. intros [H Hl].
  assert (Forall (fun b => b <> 0 /\ is_word 8 b) s) as Hs.
  { apply Forall_forall. intros b Hb. rewrite forallb_forall in H. apply list_elem_of_In, H in Hb. unfold is_word.
    rewrite !andb_true_iff, negb_true_iff, Z.eqb_neq, Z.leb_le, Z.ltb_lt in Hb. lia. }
  split; [|split; [|exact Hl]]; apply (Forall_impl _ _ _ Hs); by intros b [].
Qed.

Lemma globals_init_ok : globals_ok globals_init.
Proof. repeat (split; [first [exact I | apply cstr_bytes; reflexivity | (split; cbn; lia)]|]). exact I. Qed.

Lemma decimal_cstr v : 0 <= v -> cstr (fmt_d v).
Proof.
  intros Hv. unfold fmt_d. rewrite (proj2 (Z.ltb_ge v 0)) by done.
  assert (forall n, (length (digits n 10 v) <= n)%nat) as Hl.
  { intros n. generalize v. induction n as [|n IH]; intros w; [done|]. cbn [digits]. rewrite length_app. cbn [length].
    destruct (w <? 10); [cbn; lia|]. specialize (IH (w / 10)). lia. }
  assert (Forall (fun b => 48 <= b <= 102) (digits 20 10 v)) as Hd.
  { apply (Forall_impl _ _ _ (digits_base 20 10 v ltac:(lia))). intros b. unfold is_base_digit, digit_val, isdigit.
    destruct (Z.leb_spec 48 b), (Z.leb_spec b 57), (Z.leb_spec 97 b), (Z.leb_spec b 122), (Z.leb_spec 65 b), (Z.leb_spec b 90);
      cbn; rewrite ?Z.ltb_lt; (lia || discriminate). }
  specialize (Hl 20%nat). split; [|split; [|lia]]; apply (Forall_impl _ _ _ Hd); intros b Hb; [split; lia|lia].
Qed.

Lemma parse_an_arg_ok mktime r g ret g' :
  match r with Some (_, optarg) => cstr optarg | None => True end -> globals_ok g ->
  parse_an_arg mktime r g = Ret ret g' -> globals_ok g'.
Proof.
  destruct g as [f f2 d m rl s i x l o v D T B]. intros Hr (H1 & H2 & H3 & H4 & H5 & H6 & H7 & H8). cbn [date mail rlax shll inlo xecc lsto opts] in *.
  unfold parse_an_arg. destruct r as [[c optarg]|].
  - destruct (c =? _).
    { destruct (scan_date optarg) as [[[mday mon] year]|]; [|by intros [= <- <-]].
      destruct (Z.leb_spec (mktime mday (mon - 1) (year - 1900)) 0); intros [= <- <-]; [done|].
      split; [apply decimal_cstr; lia|done]. }
    repeat (destruct (c =? _); [first [intros [= <- <-]; split_and!; try done; apply u8_range
                                     | destruct f; intros [= <- <-]; by split_and! | discriminate]|]).
    by intros [= <- <-].
  - destruct f; intros [= <- <-]; by split_and!.
Qed.

Lemma parse_loop_ok mktime fuel rs err g g' :
  Forall (fun r => cstr r.2) rs -> globals_ok g -> parse_loop mktime fuel rs err g = Some (Parsed g') -> globals_ok g'.
Proof.
  revert rs err g. induction fuel as [|k IH]; intros rs err g Hrs Hg; [done|]. cbn [parse_loop].
  destruct (parse_an_arg mktime (head rs) g) as [ret g1|] eqn:E; [|done].
  assert (globals_ok g1) as H1.
  { eapply parse_an_arg_ok; [|exact Hg|exact E]. destruct rs as [|[c optarg] rs]; [done|]. by apply Forall_cons in Hrs as [H _]. }
  destruct (negb (ret =? 0)).
  - apply IH; [|exact H1]. destruct rs; [done|]. by apply Forall_cons in Hrs as [_ H].
  - destruct (negb _); [done|]. by intros [= <-].
Qed.

(** ** The shell *)

Lemma shells_cstr : Forall (fun s => cstr (sh_inlo s) /\ cstr (sh_xecc s) /\ cstr (sh_lsto s)) shellsDB.
Proof.
  unfold shellsDB. cbn [map].
  repeat (apply Forall_cons_2; [split; [|split]; apply cstr_bytes; reflexivity|]). apply Forall_nil_2.
Qed.

Lemma effective_ok given default base :
  opt_cstr given -> Forall (fun s => cstr (default s)) shellsDB -> opt_cstr (effective given default base).
Proof.
  intros Hg Hd. unfold effective, known_shell. destruct given; [exact Hg|].
  destruct (find _ shellsDB) as [s|] eqn:E; [|done]. apply find_some in E as [Hin _]. cbn. rewrite Forall_forall in Hd.
  by apply Hd, list_elem_of_In.
Qed.

(** What [%s] reads are parts of the line. *)
Lemma scan_shebang_parts line i shll opts :
  scan_shebang line = (i, shll, opts) -> i <= 2 -> cstr line -> cstr shll /\ cstr opts.
Proof.
  unfold scan_shebang. intros H Hi Hl.
  assert (forall l w r, cstr l -> scan_word l = Some (w, r) -> cstr w /\ cstr r) as Hw.
  { intros l w r Hc E. apply scan_word_spec in E as (s & -> & _). apply cstr_app_inv in Hc as [_ Hc]. by apply cstr_app_inv. }
  destruct (skip_spaces_split line) as (s & E & _ & _). rewrite E in Hl. apply cstr_app_inv in Hl as [_ Hl].
  pose proof cstr_nil as Hnil.
  destruct (skip_spaces line) as [|a [|b l]]; try (by repeat case_match; injection H as <- <- <-).
  destruct (decide (a = 35)) as [->|Ha], (decide (b = 33)) as [->|Hb]; try (by repeat case_match; injection H as <- <- <-).
  do 2 apply cstr_cons_inv in Hl.
  destruct (scan_word l) as [[w1 r1]|] eqn:E1; [|by injection H as <- <- <-]. destruct (Hw _ _ _ Hl E1) as [H1 Hr1].
  destruct (scan_word r1) as [[w2 r2]|] eqn:E2; [|by injection H as <- <- <-]. destruct (Hw _ _ _ Hr1 E2) as [H2 Hr2].
  destruct (skip_spaces r2); injection H as <- <- <-; [done|lia].
Qed.

Lemma first_line_cstr text : cstr text -> cstr (first_line text).
Proof.
  intros H. assert (exists r, text = first_line text ++ r) as [r E].
  { clear H. induction text as [|b text (r & IH)]; [by exists []|]. cbn [first_line]. destruct (b =? 10); [by eexists|].
    exists r. cbn [app]. f_equal. exact IH. }
  rewrite E in H. exact (proj1 (cstr_app_inv _ _ H)).
Qed.

(** A script whose shell is recognised: all variables write_C needs are set. *)
Lemma eval_shell_ok text g g' :
  cstr text -> globals_ok g -> eval_shell text g = Some (0, g') ->
  exists inp, inputs_of g' text = Some inp /\ inputs_ok inp /\ file2 g' = file2 g /\ in_text inp = text
    /\ (forall s, inlo g = Some s -> in_inlo inp = s) /\ (forall s, xecc g = Some s -> in_xecc inp = s)
    /\ (forall s, lsto g = Some s -> in_lsto inp = s)
    /\ exists i opts, scan_shebang (first_line text) = (i, in_shll inp, opts) /\ 1 <= i <= 2.
Proof.
  intros Ht Hg H. unfold eval_shell in H. destruct (scan_shebang (first_line text)) as [[i sh] o] eqn:Es.
  destruct ((i <? 1) || (2 <? i)) eqn:Ei; [discriminate H|]. apply orb_false_iff in Ei as [Ei1 Ei2]. apply Z.ltb_ge in Ei1, Ei2.
  destruct (scan_shebang_parts _ _ _ _ Es Ei2 (first_line_cstr _ Ht)) as [Hsh Ho].
  destruct (after_slash sh) as [base|]; [|discriminate H]. cbn [mbind option_bind] in H. rewrite use_known in H.
  destruct g as [f f2 d m rl s il x l o' v D T B]. destruct Hg as (H1 & H2 & H3 & _ & H5 & H6 & H7 & _).
  cbn [set_opts set_shll date mail rlax shll inlo xecc lsto opts] in *. pose proof shells_cstr as Hdb.
  assert (opt_cstr (effective il sh_inlo base)) as G1 by (apply effective_ok; [done|apply (Forall_impl _ _ _ Hdb); by intros ? (? & ? & ?)]).
  assert (opt_cstr (effective x sh_xecc base)) as G2 by (apply effective_ok; [done|apply (Forall_impl _ _ _ Hdb); by intros ? (? & ? & ?)]).
  assert (opt_cstr (effective l sh_lsto base)) as G3 by (apply effective_ok; [done|apply (Forall_impl _ _ _ Hdb); by intros ? (? & ? & ?)]).
  assert (forall given default s, given = Some s -> effective given default base = Some s) as Hkeep by by intros ? ? ? ->.
  pose proof (Hkeep il sh_inlo) as K1. pose proof (Hkeep x sh_xecc) as K2. pose proof (Hkeep l sh_lsto) as K3. clear Hkeep.
  destruct (effective il sh_inlo base) as [il1|]; [|discriminate H]. destruct (effective x sh_xecc base) as [x1|]; [|discriminate H].
  destruct (effective l sh_lsto base) as [l1|]; [|discriminate H].
  set (o1 := if negb (bool_decide (o = [])) && bool_decide (o = l1) then [] else if bool_decide (o = [45]) then [] else o).
  assert (g' = Globals f f2 d m rl (Some sh) (Some il1) (Some x1) (Some l1) (Some o1) v D T B) as ->.
  { unfold o1. destruct (negb (bool_decide (o = [])) && bool_decide (o = l1)); [by injection H as <-|].
    destruct (bool_decide (o = [45])); by injection H as <-. }
  assert (cstr o1) as Ho1 by (unfold o1; pose proof cstr_nil; by repeat case_match).
  eexists. split; [reflexivity|]. split; [unfold inputs_ok; by split_and!|]. split; [done|]. split; [done|]. cbn [in_inlo in_xecc in_lsto].
  split; [intros t E; specialize (K1 t E); by injection K1|]. split; [intros t E; specialize (K2 t E); by injection K2|].
  split; [intros t E; specialize (K3 t E); by injection K3|].
  exists i, o. split; [reflexivity|lia].
Qed.

(** * Theorem *)

(** The commands of a compilation that succeeds. *)
Definition commands_of (getenv : list Z -> option (list Z)) (g : globals) (f : list Z) : list (list Z) :=
  let out := default (file2 g) (f ++ bytes_of ".x") in
  [default (getenv (bytes_of "CC")) (bytes_of "cc") ++ sp ++ default (getenv (bytes_of "CFLAGS")) [] ++ sp ++ f ++ bytes_of ".x.c -o " ++ out;
   bytes_of "strip " ++ out; bytes_of "chmod ug=rwx,o=rx " ++ out].

(** The arguments are read to their end. *)
Lemma parse_args_ends mktime reorder argv :
  Forall cstr argv ->
  exists r args, parse_args mktime reorder argv globals_init = Some (r, args) /\ Permutation args argv
    /\ match r with Parsed g => globals_ok g /\ exists f, file g = Some f | _ => True end.
Proof.
  intros Hargv. unfold parse_args. pose proof (getopt_cstr reorder optstring argv Hargv) as Hc.
  destruct (getopt reorder optstring argv) as [rs args] eqn:Eg. cbn [fst] in Hc.
  destruct (parse_loop_spec mktime rs 0 globals_init) as (r & E & Hp); [lia|]. exists r, args. rewrite E.
  split; [done|]. split; [exact (proj1 (getopt_argv _ _ _ _ _ Eg))|]. destruct r as [g| |]; [|exact I..].
  split; [exact (parse_loop_ok _ _ _ _ _ _ Hc globals_init_ok E)|]. destruct Hp as (_ & f & Hf & _). by exists f.
Qed.

Lemma make_spec getenv system g f :
  make getenv system g f =
  let cmds := commands_of getenv g f in
  if (SIZE <=? length (cmds !!! 0%nat))%nat then None
  else if negb (system (cmds !!! 0%nat) =? 0) then Some (-1, take 1 cmds)
  else if existsb (fun c => SIZE <=? length c)%nat cmds then None else Some (0, cmds).
Proof.
  unfold make, commands_of. cbv zeta.
  set (c1 := default (getenv (bytes_of "CC")) _ ++ _). set (c2 := bytes_of "strip " ++ _). set (c3 := bytes_of "chmod ug=rwx,o=rx " ++ _).
  change ([c1; c2; c3] !!! 0%nat) with c1. change (take 1 [c1; c2; c3]) with [c1]. cbn [existsb].
  destruct (SIZE <=? length c1)%nat; [done|]. destruct (system c1 =? 0); cbn [negb orb]; [|done].
  by rewrite orb_false_r.
Qed.

Lemma zip_pairs {A B} (l : list (A * B)) : zip (map fst l) (map snd l) = l.
Proof. induction l as [|[a b] l IH]; [done|]. cbn. by rewrite IH. Qed.

(** The strings of the options are where getopt found them. *)
Lemma run_places mktime reorder mem argv g0 args g inp text :
  args_in mem argv -> parse_args mktime reorder (tail (map snd argv)) globals_init = Some (Parsed g0, args) ->
  cstr text -> globals_ok g0 -> eval_shell text g0 = Some (0, g) -> inputs_of g text = Some inp ->
  places_ok (arg_memory_of mem reorder argv) (args_after reorder argv) (in_inlo inp) (in_xecc inp) (in_lsto inp).
Proof.
  intros Hin Hp Ht Hg0 He Hi. destruct (eval_shell_ok _ _ _ Ht Hg0 He) as (inp' & Hi' & _ & _ & _ & K1 & K2 & K3 & _).
  rewrite Hi in Hi'. injection Hi' as <-.
  unfold parse_args in Hp. replace (tail (map snd argv)) with (map snd (tail argv)) in Hp by by destruct argv.
  apply arg_memory_ok; [exact Hin|..]; destruct (getopt_at reorder optstring (tail argv)) as [rs rest] eqn:E; cbn [fst];
    rewrite (getopt_forget _ _ _ _ _ E), length_map in Hp;
    destruct (parse_loop mktime _ (map forget rs) 0 globals_init) as [r|] eqn:El; try discriminate Hp;
    injection Hp as -> _; destruct (parse_loop_keeps _ _ _ _ _ _ El) as (H1 & H2 & H3); intros s Hs.
  - apply K1. by rewrite H1.
  - apply K2. by rewrite H2.
  - apply K3. by rewrite H3.
Qed.

(** C6.  The whole tool: on C strings for arguments and any files, a run ends,
    and how is determined.  The options that only print exit with 0; an error
    in the options, a script that cannot be read, a first line that names no
    known shell, a shell that cannot be examined for a binary that is bound to
    it, and an output file that cannot be created exit with 1, with nothing
    written and nothing run; a shell without a slash crashes.  Every other run
    writes the C program beside the script of the -f option - and that program
    does what the script and the options ask for - and runs the compiler; when
    the compiler fails the exit status is 1, otherwise the result is stripped
    and made executable and the status is 0; a command longer than its buffer
    crashes. *)
Theorem akb_cc_correct rand fuel struct_stat mktime reorder stat open can_create getenv system mem argv k :
  (forall k, 0 <= rand k <= RAND_MAX) -> (forall k, exists j, (j < fuel)%nat /\ rand (k + j)%nat < 2 ^ 30) ->
  args_in mem argv -> Forall cstr (tail (map snd argv)) ->
  (forall f content, open f = Some content -> words 8 content /\ Z.of_nat (length content) < 2 ^ 30) ->
  exists r, main rand fuel struct_stat mktime reorder stat open can_create getenv system mem (map fst argv) k = Some r
    /\ match parse_args mktime reorder (tail (map snd argv)) globals_init with
       | None => False
       | Some (Printed _, _) => r = Exited 0 [] []
       | Some (Exit1, _) => r = Exited 1 [] []
       | Some (Parsed g0, _) =>
           exists f, file g0 = Some f
           /\ match open f with
              | None => r = Exited 1 [] []
              | Some content =>
                  exists text, c_string (content ++ [0]) = Some text
                  /\ match eval_shell text g0 with
                     | None => r = Crashed
                     | Some (e, g) =>
                         if negb (e =? 0) then r = Exited 1 [] [] else
                         exists inp, inputs_of g text = Some inp
                         /\ let name := f ++ text_of ".x.c" in
                            if (in_rlax inp =? 0) && negb (bool_decide (is_Some (stat (in_shll inp))))
                               || negb (can_create name)
                            then r = Exited 1 [] []
                            else exists c,
                              correct_program struct_stat f (arg_memory_of mem reorder argv) (args_after reorder argv) g inp
                                (stat (in_shll inp)) (name, c)
                              /\ let cmds := commands_of getenv g f in
                                 if (SIZE <=? length (cmds !!! 0%nat))%nat then r = Crashed
                                 else if negb (system (cmds !!! 0%nat) =? 0) then r = Exited 1 [(name, c)] (take 1 cmds)
                                 else if existsb (fun c => SIZE <=? length c)%nat cmds then r = Crashed
                                 else r = Exited 0 [(name, c)] cmds
                     end
              end
       end.
Proof.
  intros Hr Hl Hin Hargv Hopen. unfold main. rewrite (args_in_all mem argv Hin). cbn [mbind option_bind].
  rewrite zip_pairs.
  destruct (parse_args_ends mktime reorder (tail (map snd argv)) Hargv) as (r & args & E & Hperm & Hp).
  rewrite E. destruct r as [g0| |]; [|by eexists|by eexists].
  destruct Hp as (Hg0 & f & Hf). rewrite Hf.
  destruct (open f) as [content|] eqn:Eo; [|by eexists; split; [reflexivity|exists f; rewrite Eo]].
  destruct (Hopen f content Eo) as [Hw Hlen]. rewrite read_script_spec. cbn [mbind option_bind].
  destruct (c_string_total content) as (text & Et). rewrite Et. cbn [mbind option_bind].
  pose proof (script_cstr _ _ Hw Hlen Et) as Htext.
  destruct (eval_shell text g0) as [[e g]|] eqn:Es.
  2: { eexists. split; [reflexivity|]. exists f. rewrite Eo. split; [done|]. exists text. by rewrite Es. }
  destruct (Z.eqb_spec e 0) as [->|Hne]; cbn [negb].
  2: { eexists. split; [reflexivity|]. exists f. rewrite Eo. split; [done|]. exists text. rewrite Es.
       by rewrite (proj2 (Z.eqb_neq e 0)). }
  destruct (eval_shell_ok text g0 g Htext Hg0 Es) as (inp & Hinp & Hok & _).
  pose proof (run_places _ _ _ _ _ _ _ _ _ Hin E Htext Hg0 Es Hinp) as Hpl.
  assert (shll g = Some (in_shll inp)) as Hs.
  { unfold inputs_of in Hinp. destruct (shll g) as [s|]; [|discriminate Hinp]. cbn [mbind option_bind] in Hinp.
    destruct (inlo g), (xecc g), (lsto g), (opts g); try discriminate Hinp. by injection Hinp as <-. }
  rewrite Hs. cbn [mbind option_bind].
  destruct (write_C_spec rand fuel struct_stat Hr Hl f _ _ g text inp (stat (in_shll inp)) arc4_init k Hinp Hok eq_refl Hpl) as (w & k' & Ew & Hw').
  rewrite Ew. cbn [mbind option_bind fst].
  destruct w as [[name c]|].
  - destruct Hw' as (Hstat & Hc). assert (name = f ++ text_of ".x.c") as ->.
    { destruct Hc as (cs & sh & E1 & _). by injection E1 as -> _. }
    assert ((in_rlax inp =? 0) && negb (bool_decide (is_Some (stat (in_shll inp)))) = false) as Hb.
    { destruct (Z.eqb_spec (in_rlax inp) 0) as [E0|]; [|done]. cbn [andb]. by rewrite bool_decide_eq_true_2 by by apply Hstat. }
    destruct (can_create (f ++ text_of ".x.c")) eqn:Ecr; cbn [negb].
    + rewrite make_spec. cbv zeta.
      destruct (SIZE <=? length (commands_of getenv g f !!! 0%nat))%nat eqn:E1;
        [|destruct (negb (system (commands_of getenv g f !!! 0%nat) =? 0)) eqn:E2; [|destruct (existsb _ _) eqn:E3]];
        (eexists; split; [reflexivity|]; exists f; rewrite Eo; split; [done|]; exists text; rewrite Es; split; [done|];
         exists inp; split; [done|]; rewrite Hb, Ecr; exists c; split; [exact Hc|]);
        rewrite E1, ?E2, ?E3; reflexivity.
    + eexists. split; [reflexivity|]. exists f. rewrite Eo. split; [done|]. exists text. rewrite Es. split; [done|]. cbn [Z.eqb negb].
      exists inp. split; [done|]. by rewrite Ecr, orb_true_r.
  - destruct Hw' as [E1 E2]. eexists. split; [reflexivity|]. exists f. rewrite Eo. split; [done|]. exists text. rewrite Es.
    split; [done|]. cbn [Z.eqb negb]. exists inp. split; [done|].
    rewrite E1, E2, bool_decide_eq_false_2 by by intros [? ?]. done.
Qed.

(** Called as akb_cc -r -i -c -f x.sh. *)
Definition run_argv : list (nat * list Z) :=
  [(0%nat, bytes_of "akb_cc"); (7%nat, bytes_of "-r"); (10%nat, bytes_of "-i"); (13%nat, bytes_of "-c");
   (16%nat, bytes_of "-f"); (19%nat, bytes_of "x.sh")].
Definition run_memory : list Z := concat (map (fun a => snd a ++ [0]) run_argv) ++ [0].

Lemma run_args_in : args_in run_memory run_argv.
Proof.
  assert (forall a w, (a, w) ∈ run_argv -> (a = 0%nat /\ w = bytes_of "akb_cc") \/ (a = 7%nat /\ w = bytes_of "-r")
    \/ (a = 10%nat /\ w = bytes_of "-i") \/ (a = 13%nat /\ w = bytes_of "-c") \/ (a = 16%nat /\ w = bytes_of "-f")
    \/ (a = 19%nat /\ w = bytes_of "x.sh")) as Hin.
  { intros a w H. unfold run_argv in H. rewrite !elem_of_cons, elem_of_nil in H. naive_solver. }
  split.
  - intros a w H%Hin. destruct_or!; destruct_and!; subst; (split; [reflexivity|by apply (bool_decide_unpack _)]).
  - intros a w a' w' H%Hin H'%Hin Hne. destruct_or!; destruct_and!; subst; cbn; lia.
  - by apply (bool_decide_unpack _).
  - eexists. split; [reflexivity|]. intros a w H%Hin. destruct_or!; destruct_and!; subst; cbn; lia.
Qed.

(** The program is written, with the third argument changed in its comment, and
    compiled. *)
Lemma akb_cc_correct_witness :
  exists c, main (fun _ => 12345) 1 (fun _ => []) (fun _ _ _ => 0) true (fun _ => None)
      (fun f => if bool_decide (f = bytes_of "x.sh") then Some (bytes_of "#!/bin/sh") else None) (fun _ => true)
      (fun _ => None) (fun _ => 0) run_memory (map fst run_argv) 0%nat
    = Some (Exited 0 [(bytes_of "x.sh.x.c", c)]
        (map bytes_of ["cc  x.sh.x.c -o x.sh.x"; "strip x.sh.x"; "chmod ug=rwx,o=rx x.sh.x"]))
    /\ exists g inp, in_inlo inp = bytes_of "-c"
       /\ am_inlo (arg_memory_of run_memory true run_argv) = Some (13%nat, 0%nat)
       /\ correct_program (fun _ => []) (bytes_of "x.sh") (arg_memory_of run_memory true run_argv)
            (args_after true run_argv) g inp None (bytes_of "x.sh.x.c", c).
Proof.
  destruct (akb_cc_correct (fun _ => 12345) 1 (fun _ => []) (fun _ _ _ => 0) true (fun _ => None)
      (fun f => if bool_decide (f = bytes_of "x.sh") then Some (bytes_of "#!/bin/sh") else None) (fun _ => true)
      (fun _ => None) (fun _ => 0) run_memory run_argv 0%nat) as (r & E & H).
  - intros _. unfold RAND_MAX. lia.
  - intros _. exists 0%nat. lia.
  - exact run_args_in.
  - cbn [run_argv map tail snd]. repeat (apply Forall_cons_2; [apply cstr_bytes; reflexivity|]). apply Forall_nil_2.
  - intros f content. destruct (bool_decide (f = bytes_of "x.sh")); [|discriminate]. intros [= <-].
    split; [apply (bytes_of_words "#!/bin/sh")|reflexivity].
  - pose (g0 := set_file (bytes_of "x.sh") (set_inlo (bytes_of "-c") (set_rlax 1 globals_init))).
    assert (exists args, parse_args (fun _ _ _ => 0) true (tail (map snd run_argv)) globals_init = Some (Parsed g0, args)) as [args Ep]
      by (eexists; reflexivity).
    rewrite Ep in H. destruct H as (f & Ef & H). injection Ef as <-.
    destruct H as (text & Et & H).
    assert (text = bytes_of "#!/bin/sh") as -> by (vm_compute in Et; by injection Et as <-).
    assert (exists g, eval_shell (bytes_of "#!/bin/sh") g0 = Some (0, g)
      /\ file2 g = None /\ inputs_of g (bytes_of "#!/bin/sh")
         = Some (Inputs [] (mail g0) 1 (bytes_of "/bin/sh") (bytes_of "-c") (text_of "exec '%s' `$@`") [] [] (bytes_of "#!/bin/sh")))
      as (g & Eg & Ef2 & Ei) by (eexists; split; [vm_compute; reflexivity|split; vm_compute; reflexivity]).
    rewrite Eg in H. cbn [Z.eqb negb] in H. destruct H as (inp & Ei' & H). rewrite Ei in Ei'. injection Ei' as <-.
    cbn [in_rlax in_shll Z.eqb Pos.eqb andb orb negb] in H. destruct H as (c & Hc & H).
    unfold commands_of in H. rewrite Ef2 in H. exists c. split.
    + etransitivity; [exact E|]. f_equal. exact H.
    + exists g. eexists. split; [|split; [|exact Hc]]; reflexivity.
Defined.
