(* ===== verification/Cpio.v ===== *)
(** * The cpio archives of the kernel: buffer-format.txt ("newc")

    mkbootfs.c names the format it writes and gives none of it as data; this is
    the reader's side, as the kernel unpacks an initramfs: headers of 110
    hexadecimal characters, names that end in NUL, everything aligned to four
    bytes, and a last entry named TRAILER!!!.  An archive is written here with
    the padding after each item; [read_archive_of_bytes] says that reading gives
    the entries back. *)
From S2P Require Import Prelude Libc Digits.

(** The thirteen fields, without the magic, the sizes apart. *)
Record entry : Type := Entry {
  c_ino : Z; c_mode : Z; c_uid : Z; c_gid : Z; c_nlink : Z; c_mtime : Z;
  c_devmajor : Z; c_devminor : Z; c_rdevmajor : Z; c_rdevminor : Z;
  c_name : list Z; c_check : Z; c_data : list Z }.

Definition trailer_name : list Z := bytes_of "TRAILER!!!".
Definition magic : list Z := bytes_of "070701".

(** The fields in the order of the header. *)
Definition fields (e : entry) : list Z :=
  [c_ino e; c_mode e; c_uid e; c_gid e; c_nlink e; c_mtime e; Z.of_nat (length (c_data e));
   c_devmajor e; c_devminor e; c_rdevmajor e; c_rdevminor e; Z.of_nat (length (c_name e)) + 1; c_check e].

(** Zeros up to the next multiple of four. *)
Definition pad4 (n : nat) : nat := ((4 - n mod 4) mod 4)%nat.

Definition header_bytes (e : entry) : list Z :=
  magic ++ concat (map (fmt_x 8) (fields e)) ++ c_name e ++ [0].

(** Header and name, and the data, each followed by its padding. *)
Definition head_padded (e : entry) : list Z := header_bytes e ++ replicate (pad4 (length (header_bytes e))) 0.
Definition entry_bytes (e : entry) : list Z :=
  head_padded e ++ c_data e ++ replicate (pad4 (length (c_data e))) 0.

Definition archive_bytes (es : list entry) : list Z := concat (map entry_bytes es).

(** ** Reading *)

(** A field: eight hexadecimal digits. *)
Definition hex_field (i : nat) (l : list Z) : option Z :=
  let w := window (6 + 8 * i) 8 l in
  if (length w =? 8)%nat && forallb (is_base_digit 16) w then Some (scan_digits 16 0 w) else None.

(** The entry at the head of an archive and the archive after it. *)
Definition read_entry (l : list Z) : option (entry * list Z) :=
  if negb (bool_decide (take 6 l = magic)) then None else
  ino ← hex_field 0 l; mode ← hex_field 1 l; uid ← hex_field 2 l; gid ← hex_field 3 l;
  nlink ← hex_field 4 l; mtime ← hex_field 5 l; filesize ← hex_field 6 l;
  devmajor ← hex_field 7 l; devminor ← hex_field 8 l; rdevmajor ← hex_field 9 l; rdevminor ← hex_field 10 l;
  namesize ← hex_field 11 l; check ← hex_field 12 l;
  let n := Z.to_nat namesize in
  name ← c_string (window 110 n l);
  let start := (110 + n + pad4 (110 + n))%nat in
  let data := window start (Z.to_nat filesize) l in
  if negb (length name + 1 =? n)%nat || negb (length data =? Z.to_nat filesize)%nat then None else
  Some (Entry ino mode uid gid nlink mtime devmajor devminor rdevmajor rdevminor name check data,
        drop (start + Z.to_nat filesize + pad4 (Z.to_nat filesize)) l).

(** The entries up to the trailer. *)
Fixpoint read_loop (fuel : nat) (l : list Z) : option (list entry) :=
  match fuel with
  | O => None
  | S k =>
      '(e, l) ← read_entry l;
      if bool_decide (c_name e = trailer_name) then Some [] else
      es ← read_loop k l; Some (e :: es)
  end.

(** An entry takes bytes, so the length is fuel enough. *)
Definition read_archive (l : list Z) : option (list entry) := read_loop (length l) l.

(** ** Reading what was written *)

(** An entry the format can hold: 32-bit fields and a name without NUL. *)
Definition entry_ok (e : entry) : Prop :=
  words 32 (fields e) /\ Forall (fun b => b <> 0) (c_name e).

Lemma digits_length16 fuel v n :
  (0 < n)%nat -> 0 <= v < 16 ^ Z.of_nat n -> (n <= fuel)%nat -> (1 <= length (digits fuel 16 v) <= n)%nat.
Proof.
  revert v n. induction fuel as [|k IH]; intros v n Hn Hv Hf; [lia|]. cbn [digits]. rewrite length_app. cbn [length].
  destruct (Z.ltb_spec v 16); [cbn; lia|].
  destruct n as [|[|n]]; [lia|change (16 ^ Z.of_nat 1) with 16 in Hv; lia|].
  assert (0 <= v / 16 < 16 ^ Z.of_nat (S n)) as H16.
  { split; [apply Z.div_pos; lia|]. apply Z.div_lt_upper_bound; [lia|].
    rewrite Nat2Z.inj_succ, Z.pow_succ_r in Hv by lia. lia. }
  specialize (IH (v / 16) (S n) ltac:(lia) H16 ltac:(lia)). lia.
Qed.

Lemma fmt_x_length v : is_word 32 v -> length (fmt_x 8 v) = 8%nat.
Proof.
  intros Hv. unfold fmt_x, zero_pad. rewrite length_app, length_replicate.
  pose proof (digits_length16 16 v 8 ltac:(lia) ltac:(change (16 ^ Z.of_nat 8) with (2 ^ 32); exact Hv) ltac:(lia)). lia.
Qed.

Lemma scan_fmt_x w v : is_word 32 v -> scan_digits 16 0 (fmt_x w v) = v.
Proof.
  intros Hv. unfold fmt_x, zero_pad. unfold is_word in Hv. rewrite scan_digits_zeros by lia.
  apply scan_digits_digits; [lia|]. split; [lia|]. apply Z.lt_trans with (2 ^ 32); [lia|reflexivity].
Qed.

(** Fields of equal length are found at multiples of it. *)
Lemma window_concat (n : nat) (ls : list (list Z)) (i : nat) x post :
  Forall (fun l => length l = n) ls -> ls !! i = Some x -> window (n * i) n (concat ls ++ post) = x.
Proof.
  unfold window. revert i. induction ls as [|l ls IH]; intros i Hl Hi; [done|].
  apply Forall_cons in Hl as [Hl Hls]. cbn [concat]. rewrite <- app_assoc. destruct i as [|i].
  - injection Hi as ->. rewrite Nat.mul_0_r. cbn [drop]. rewrite <- Hl. apply take_app_length.
  - rewrite drop_app_ge by lia. replace (n * S i - length l)%nat with (n * i)%nat by lia. apply IH; done.
Qed.

Lemma hex_field_header (ls : list Z) i v post :
  words 32 ls -> ls !! i = Some v -> hex_field i (magic ++ concat (map (fmt_x 8) ls) ++ post) = Some v.
Proof.
  intros Hls Hi. assert (is_word 32 v) as Hv by (rewrite Forall_forall in Hls; apply Hls; by eapply list_elem_of_lookup_2).
  unfold hex_field. assert (window (6 + 8 * i) 8 (magic ++ concat (map (fmt_x 8) ls) ++ post) = fmt_x 8 v) as ->.
  { unfold window. rewrite <- drop_drop. rewrite (drop_app_length' magic _ 6 eq_refl).
    apply (window_concat 8); [|by rewrite list_lookup_fmap, Hi].
    apply Forall_fmap. apply (Forall_impl _ _ _ Hls). intros x. apply fmt_x_length. }
  rewrite fmt_x_length by done. rewrite (proj2 (Nat.eqb_eq 8 8) eq_refl).
  assert (forallb (is_base_digit 16) (fmt_x 8 v) = true) as ->.
  { apply forallb_forall. intros x Hx. pose proof (fmt_x_digits 8 v) as Hd. rewrite Forall_forall in Hd.
    apply Hd, list_elem_of_In, Hx. }
  cbn [andb]. by rewrite scan_fmt_x.
Qed.

Lemma fields_length e : entry_ok e -> length (concat (map (fmt_x 8) (fields e))) = 104%nat.
Proof.
  intros [Hf _]. unfold fields in *. cbn [map concat]. rewrite !length_app.
  repeat (apply Forall_cons in Hf as [? Hf]). rewrite !fmt_x_length by assumption. reflexivity.
Qed.

Lemma header_length e : entry_ok e -> length (header_bytes e) = (110 + (length (c_name e) + 1))%nat.
Proof. intros H. unfold header_bytes. rewrite !length_app, fields_length by done. change (length magic) with 6%nat. cbn [length]. lia. Qed.

Lemma read_entry_bytes e l : entry_ok e -> read_entry (entry_bytes e ++ l) = Some (e, l).
Proof.
  intros H. pose proof (header_length e H) as Hl. destruct H as [Hf Hn].
  assert (entry_bytes e ++ l = magic ++ concat (map (fmt_x 8) (fields e)) ++
    (c_name e ++ 0 :: replicate (pad4 (length (header_bytes e))) 0 ++ c_data e ++ replicate (pad4 (length (c_data e))) 0 ++ l)) as E.
  { unfold entry_bytes, head_padded. unfold header_bytes at 1. rewrite <- !app_assoc. reflexivity. }
  assert (take 6 (entry_bytes e ++ l) = magic) as Hm by (rewrite E; apply (take_app_length' magic _ 6 eq_refl)).
  assert (forall i v, fields e !! i = Some v -> hex_field i (entry_bytes e ++ l) = Some v) as Hx.
  { intros i v Hi. rewrite E. by apply hex_field_header. }
  unfold read_entry. rewrite bool_decide_eq_true_2 by exact Hm. cbn [negb].
  do 13 (erewrite Hx by reflexivity; cbn [mbind option_bind]). clear E Hx.
  destruct e as [ino mode uid gid nlink mtime dma dmi rma rmi name check data].
  cbn [c_name c_data c_ino c_mode c_uid c_gid c_nlink c_mtime c_devmajor c_devminor c_rdevmajor c_rdevminor c_check] in *.
  set (e := Entry ino mode uid gid nlink mtime dma dmi rma rmi name check data) in *.
  assert (Z.to_nat (Z.of_nat (length name) + 1) = length name + 1)%nat as -> by lia. rewrite Nat2Z.id.
  assert (length (head_padded e) = 110 + (length name + 1) + pad4 (110 + (length name + 1)))%nat as Hh.
  { unfold head_padded. rewrite length_app, length_replicate, Hl. reflexivity. }
  rewrite <- Hh.
  assert (window 110 (length name + 1) (entry_bytes e ++ l) = name ++ [0]) as ->.
  { unfold entry_bytes, head_padded, header_bytes, window. rewrite !(app_assoc magic), <- !app_assoc.
    rewrite (app_assoc magic). rewrite drop_app_length' by (rewrite length_app, fields_length by done; reflexivity).
    rewrite app_assoc. apply take_app_length'. rewrite length_app. reflexivity. }
  rewrite c_string_app by exact Hn. cbn [mbind option_bind]. rewrite Nat.eqb_refl.
  assert (drop (length (head_padded e)) (entry_bytes e ++ l) = data ++ replicate (pad4 (length data)) 0 ++ l) as Hd.
  { unfold entry_bytes. rewrite <- !app_assoc. apply drop_app_length. }
  unfold window. rewrite Hd, take_app_length, Nat.eqb_refl. cbn [negb orb].
  rewrite <- !drop_drop, Hd, drop_app_length. f_equal. f_equal.
  apply drop_app_length'. by rewrite length_replicate.
Qed.

Lemma entry_bytes_nonempty e : entry_ok e -> (0 < length (entry_bytes e))%nat.
Proof. intros H. unfold entry_bytes, head_padded. rewrite !length_app, header_length by done. lia. Qed.

(** Reading gives back the entries before the trailer, whatever follows it. *)
Lemma read_archive_of_bytes es t l :
  Forall entry_ok es -> entry_ok t -> Forall (fun e => c_name e <> trailer_name) es -> c_name t = trailer_name ->
  read_archive (archive_bytes es ++ entry_bytes t ++ l) = Some es.
Proof.
  intros Hes Ht Hn Hname. unfold read_archive.
  assert (forall fuel, (length (archive_bytes es) < fuel)%nat ->
    read_loop fuel (archive_bytes es ++ entry_bytes t ++ l) = Some es) as H.
  { induction es as [|e es IH]; intros fuel Hf; (destruct fuel as [|k]; [cbn in Hf; lia|]); cbn [read_loop].
    - cbn [archive_bytes map concat app]. rewrite read_entry_bytes by done. cbn [mbind option_bind].
      by rewrite bool_decide_eq_true_2.
    - apply Forall_cons in Hes as [He Hes]. apply Forall_cons in Hn as [Hne Hn].
      unfold archive_bytes in *. cbn [map concat] in *. rewrite <- !app_assoc, read_entry_bytes by done. cbn [mbind option_bind].
      rewrite bool_decide_eq_false_2 by done. rewrite IH; [done|done|done|].
      rewrite length_app in Hf. pose proof (entry_bytes_nonempty e He). lia. }
  apply H. rewrite !length_app. pose proof (entry_bytes_nonempty t Ht). lia.
Qed.

(** ** Alignment *)

Lemma pad4_Z n : Z.of_nat (pad4 n) = (- Z.of_nat n) mod 4.
Proof. unfold pad4. rewrite Nat2Z.inj_mod, Nat2Z.inj_sub by (pose proof (Nat.mod_upper_bound n 4); lia). rewrite Nat2Z.inj_mod. Z.to_euclidean_division_equations. lia. Qed.

Lemma pad4_add a b : (a mod 4 = 0)%nat -> pad4 (a + b) = pad4 b.
Proof. intros H. unfold pad4. rewrite Nat.Div0.add_mod, H, Nat.add_0_l, Nat.Div0.mod_mod. reflexivity. Qed.

Lemma pad4_aligned n : ((n + pad4 n) mod 4 = 0)%nat.
Proof. apply Nat2Z.inj. rewrite Nat2Z.inj_mod, Nat2Z.inj_add, pad4_Z. change (Z.of_nat 4) with 4. rewrite Zplus_mod_idemp_r. by rewrite Z.add_opp_diag_r. Qed.

Lemma padded_aligned (l : list Z) : (length (l ++ replicate (pad4 (length l)) 0%Z) mod 4 = 0)%nat.
Proof. rewrite length_app, length_replicate. apply pad4_aligned. Qed.

Lemma archive_aligned es : (length (archive_bytes es) mod 4 = 0)%nat.
Proof.
  induction es as [|e es IH]; [done|]. unfold archive_bytes in *. cbn [map concat].
  rewrite length_app, Nat.Div0.add_mod, IH. unfold entry_bytes. rewrite length_app, (Nat.Div0.add_mod (length (head_padded e))).
  unfold head_padded. rewrite !padded_aligned. done.
Qed.

Lemma archive_bytes_app es es' : archive_bytes (es ++ es') = archive_bytes es ++ archive_bytes es'.
Proof. unfold archive_bytes. by rewrite map_app, concat_app. Qed.
