(* ===== verification/Mkbootfs.v ===== *)
(** * mkbootfs: cpio/mkbootfs.c

    The whole program: the canned configuration, [fix_stat], the writer of one
    archive entry with the running offset, the walk over the directories in the
    two path buffers, and [main].  The system calls are a record of functions;
    [fs_config], which is not in the repository's C files, is a parameter.  A
    null pointer followed, a write outside a buffer and a signed overflow end a
    run as [UB]. *)
From S2P Require Import Prelude Libc Digits Cpio.

(** The fields of [struct stat] the program uses. *)
Record stat : Type := Stat { st_mode : Z; st_uid : Z; st_gid : Z; st_size : Z }.

(** The system calls: [lstat], the bytes a file opened has, the names a
    directory gives in its order, the target of a link, and whether an
    allocation succeeds. *)
Record system : Type := System {
  sys_lstat : list Z -> option stat;
  sys_open : list Z -> option (list Z);
  sys_opendir : list Z -> option (list (list Z));
  sys_readlink : list Z -> option (list Z);
  sys_malloc : Z -> bool }.

Record fs_config_entry : Type := FsConfigEntry { fc_name : list Z; fc_uid : Z; fc_gid : Z; fc_mode : Z }.

(** The globals and the two buffers of [archive]. *)
Record state : Type := State {
  stdout : list Z; next_inode : Z; total_size : Z; in_ : list Z; out_ : list Z }.

(** How a part of the program ends: with a value, with [exit(1)] after a
    message, as undefined behaviour, or out of fuel. *)
Inductive res (A : Type) : Type :=
  | Ok (a : A) (s : state)
  | Died (out err : list Z)
  | UB
  | Timeout.
Arguments Ok {A}. Arguments Died {A}. Arguments UB {A}. Arguments Timeout {A}.

Definition M (A : Type) : Type := state -> res A.
#[export] Instance M_ret : MRet M := fun A a s => Ok a s.
#[export] Instance M_bind : MBind M := fun A B f m s =>
  match m s with Ok a s => f a s | Died o e => Died o e | UB => UB | Timeout => Timeout end.

Definition get {A} (f : state -> A) : M A := fun s => Ok (f s) s.
Definition ub {A} : M A := fun _ => UB.
Definition or_ub {A} (o : option A) : M A := match o with Some a => mret a | None => ub end.

(** [fprintf(stderr, ...); exit(1)], and [die]. *)
Definition fails {A} (msg : list Z) : M A := fun s => Died (stdout s) msg.
Definition die {A} (why : list Z) : M A := fails (bytes_of "error: " ++ why ++ [10]).

Definition put (bs : list Z) : M unit := fun '(State o n t i u) => Ok tt (State (o ++ bs) n t i u).
Definition set_total (t : Z) : M unit := fun '(State o n _ i u) => Ok tt (State o n t i u).
Definition take_inode : M Z := fun '(State o n t i u) => Ok n (State o (u32 (n + 1)) t i u).

(** [total_size += n] in [int]. *)
Definition add_total (n : Z) : M unit :=
  t ← get total_size;
  if (- 2 ^ 31 <=? t + n) && (t + n <? 2 ^ 31) then set_total (t + n) else ub.

(** [while(total_size & mask) { total_size++; putchar(0); }] *)
Fixpoint pad_loop (fuel : nat) (mask : Z) : M unit :=
  match fuel with
  | O => fun _ => Timeout
  | S k => t ← get total_size;
           if t .& mask =? 0 then mret tt else _ ← add_total 1; _ ← put [0]; pad_loop k mask
  end.
Definition pad_to (mask : Z) : M unit := pad_loop 257 mask.

(** [strcmp(a, b) <= 0], and [qsort] with [compare]. *)
Fixpoint str_le (a b : list Z) : bool :=
  match a, b with
  | [], _ => true
  | _ :: _, [] => false
  | x :: a, y :: b => (x <? y) || ((x =? y) && str_le a b)
  end.
Definition compare_le (a b : list Z) : Prop := str_le a b = true.
#[export] Instance compare_le_dec a b : Decision (compare_le a b).
Proof. unfold compare_le. apply _. Defined.
Definition sort_names (names : list (list Z)) : list (list Z) := merge_sort compare_le names.

Section Program.
Context (sys : system).
(** The compiled-in configuration: uid, gid, mode and capabilities. *)
Context (fs_config : list Z -> Z -> option (list Z) -> Z * Z * Z -> Z * Z * Z * Z).
(** What the buffers of [archive] hold before they are written. *)
Context (stack : list Z).
Context (CANNED_LINE_LENGTH : nat).

Definition S_ISREG (mode : Z) : bool := mode .& 0xf000 =? 0x8000.
Definition S_ISDIR (mode : Z) : bool := mode .& 0xf000 =? 0x4000.
Definition S_ISLNK (mode : Z) : bool := mode .& 0xf000 =? 0xa000.

Section Configured.
Context (canned_config : option (list fs_config_entry)) (target_out_path : option (list Z)).

(** The search for [path]: the entry found, or the last one with an empty
    name, or a null pointer. *)
Fixpoint find_config (p : list fs_config_entry) (empty_path_config : option fs_config_entry) (path : list Z) :
    option fs_config_entry :=
  match p with
  | [] => empty_path_config
  | e :: p =>
      let empty_path_config := if bool_decide (fc_name e = []) then Some e else empty_path_config in
      if bool_decide (fc_name e = path) then Some e else find_config p empty_path_config path
  end.

Definition fix_stat (path : list Z) (s : stat) : option stat :=
  match canned_config with
  | Some cfg =>
      p ← find_config cfg None path;
      Some (Stat (u32 (fc_mode p) .| (st_mode s .& u32 (Z.lnot 0xfff))) (u32 (fc_uid p)) (u32 (fc_gid p)) (st_size s))
  | None =>
      let '(uid, gid, mode, _) :=
        fs_config path (if S_ISDIR (st_mode s) then 1 else 0) target_out_path (st_uid s, st_gid s, st_mode s) in
      Some (Stat (u32 mode) (u32 uid) (u32 gid) (st_size s))
  end.

(** The text of the header: the fields are all [%08x], of [unsigned]s. *)
Definition header_text (ino mode datasize namesize : Z) (out : list Z) : list Z :=
  fmt_x 6 0x070701
  ++ concat (map (fmt_x 8) [ino; mode; 0; 0; 1; 0; datasize; 0; 0; 0; 0; u32 namesize; 0])
  ++ out ++ [0].

(** [_eject]; [out] is the memory [out] points to. *)
Definition eject (s : stat) (out : list Z) (olen : nat) (data : list Z) (datasize : Z) : M unit :=
  _ ← pad_to 3;
  path ← or_ub (c_string out);
  s ← or_ub (fix_stat path s);
  ino ← take_inode;
  _ ← put (header_text ino (st_mode s) datasize (Z.of_nat olen + 1) path);
  _ ← add_total (6 + 8 * 13 + Z.of_nat olen + 1);
  _ ← (if negb (length path =? olen)%nat then die (bytes_of "ACK!") else mret tt);
  _ ← pad_to 3;
  if datasize =? 0 then mret tt else
  if Z.of_nat (length data) <? datasize then ub else
  _ ← put (take (Z.to_nat datasize) data);
  t ← get total_size;
  set_total (s32 (u32 t + datasize)).

Definition eject_trailer : M unit :=
  _ ← eject (Stat 0 0 0 0) (trailer_name ++ [0]) 10 [] 0;
  pad_to 0xff.

(** ** The walk *)

(** [memcpy(buf + i, w, |w|)] into a buffer. *)
Definition write_at (i : nat) (w buf : list Z) : option (list Z) :=
  if (i + length w <=? length buf)%nat then Some (set_window i w buf) else None.
Definition write_in (i : nat) (w : list Z) : M unit := fun '(State o n t b u) =>
  match write_at i w b with Some b => Ok tt (State o n t b u) | None => UB end.
Definition write_out (i : nat) (w : list Z) : M unit := fun '(State o n t b u) =>
  match write_at i w u with Some u => Ok tt (State o n t b u) | None => UB end.

(** The loop over [readdir]: the names kept, in the order read. *)
Fixpoint read_names (dirents names : list (list Z)) (size : Z) : M (list (list Z)) :=
  match dirents with
  | [] => mret names
  | d_name :: dirents =>
      if bool_decide (head d_name = Some 46) then read_names dirents names size else
      if bool_decide (d_name = bytes_of "root") then read_names dirents names size else
      let grow := size <=? Z.of_nat (length names) in
      if grow && (2 ^ 31 <=? size * 2) then ub else
      let size := if grow then size * 2 else size in
      if grow && negb (sys_malloc sys (size * 8)) then
        fails (bytes_of "failed to reallocate dir names array (size " ++ fmt_d size ++ bytes_of ")" ++ [10])
      else if negb (sys_malloc sys (Z.of_nat (length d_name) + 1)) then
        fails (bytes_of "failed to strdup name " ++ [34] ++ d_name ++ [34; 10])
      else read_names dirents (names ++ [d_name]) size
  end.

(** The loop over the sorted names, with [_archive] as a parameter. *)
Fixpoint archive_names (archive_ : nat -> nat -> M unit) (names : list (list Z)) (ilen olen : nat) : M unit :=
  match names with
  | [] => mret tt
  | name :: names =>
      let t := length name in
      _ ← write_in ilen [47];
      _ ← write_in (ilen + 1) (name ++ [0]);
      _ ← (if (0 <? olen)%nat then
             _ ← write_out olen [47];
             _ ← write_out (olen + 1) (name ++ [0]);
             archive_ (ilen + t + 1)%nat (olen + t + 1)%nat
           else
             _ ← write_out 0 (name ++ [0]);
             archive_ (ilen + t + 1)%nat t);
      _ ← write_in ilen [0];
      _ ← write_out olen [0];
      archive_names archive_ names ilen olen
  end.

(** [read(fd, tmp, n)]: at most MAX_RW_COUNT bytes. *)
Definition read_bytes (n : Z) (content : list Z) : list Z := take (Z.to_nat (Z.min n 0x7ffff000)) content.

(** [_archive], with [_archive_dir] as a parameter. *)
Definition archive_node (archive_dir : nat -> nat -> M unit) (ilen olen : nat) : M unit :=
  path ← (in_ ← get in_; or_ub (c_string in_));
  match sys_lstat sys path with
  | None => die (bytes_of "could not stat '" ++ path ++ bytes_of "'" ++ [10])
  | Some s =>
      out ← get out_;
      if S_ISREG (st_mode s) then
        match sys_open sys path with
        | None => die (bytes_of "cannot open '" ++ path ++ bytes_of "' for read")
        | Some content =>
            if negb (sys_malloc sys (st_size s))
            then die (bytes_of "cannot allocate " ++ fmt_d (s32 (st_size s)) ++ bytes_of " bytes") else
            let tmp := read_bytes (st_size s) content in
            if negb (Z.of_nat (length tmp) =? st_size s)
            then die (bytes_of "cannot read " ++ fmt_d (s32 (st_size s)) ++ bytes_of " bytes") else
            eject s out olen tmp (u32 (st_size s))
        end
      else if S_ISDIR (st_mode s) then
        _ ← eject s out olen [] 0;
        archive_dir ilen olen
      else if S_ISLNK (st_mode s) then
        match sys_readlink sys path with
        | None => die (bytes_of "cannot read symlink '" ++ path ++ bytes_of "'")
        | Some target =>
            let buf := take 1024 target in
            eject s out olen buf (Z.of_nat (length buf))
        end
      else die (bytes_of "Unknown '" ++ path ++ bytes_of "' (mode " ++ fmt_d (s32 (st_mode s)) ++ bytes_of ")?" ++ [10])
  end.

(** [_archive_dir]; the depth is bounded by the buffers. *)
Fixpoint archive_dir (fuel ilen olen : nat) : M unit :=
  match fuel with
  | O => fun _ => Timeout
  | S k =>
      path ← (in_ ← get in_; or_ub (c_string in_));
      match sys_opendir sys path with
      | None => die (bytes_of "cannot open directory '" ++ path ++ bytes_of "'")
      | Some dirents =>
          if negb (sys_malloc sys (32 * 8))
          then fails (bytes_of "failed to allocate dir names array (size 32)" ++ [10]) else
          names ← read_names dirents [] 32;
          archive_names (archive_node (archive_dir k)) (sort_names names) ilen olen
      end
  end.

(** [archive]: the two buffers are of 8192 bytes, so no path is longer. *)
Definition BUFFER : nat := 8192.
Definition archive (start prefix : list Z) : M unit := fun '(State o n t _ _) =>
  (_ ← write_in 0 (start ++ [0]);
   _ ← write_out 0 (prefix ++ [0]);
   archive_dir (S BUFFER) (length start) (length prefix)) (State o n t stack stack).
End Configured.

(** ** The canned configuration *)

(** [fgets(line, n, f)]: the bytes stored, without the NUL, and the rest. *)
Fixpoint fgets (n : nat) (f : list Z) : list Z * list Z :=
  match n, f with
  | S n, b :: f => if b =? 10 then ([b], f) else let '(l, r) := fgets n f in (b :: l, r)
  | _, _ => ([], f)
  end.

(** [strtok(s, delim)] with the delimiters space and newline: the token, and
    where the next call goes on; [None] is a null pointer. *)
Definition is_delim (b : Z) : bool := (b =? 32) || (b =? 10).
Fixpoint skip_delims (s : list Z) : list Z :=
  match s with b :: s' => if is_delim b then skip_delims s' else s | [] => [] end.
Fixpoint until_delim (s : list Z) : list Z * list Z :=
  match s with
  | [] => ([], [])
  | b :: s => if is_delim b then ([], s) else let '(t, r) := until_delim s in (b :: t, r)
  end.
Definition strtok (s : list Z) : option (list Z * list Z) :=
  match skip_delims s with [] => None | s => Some (until_delim s) end.

(** One line; [None] when [strtok] gives a null pointer to [atoi]. *)
Definition canned_line (line : list Z) : option fs_config_entry :=
  '(name, rest) ← (if isspace (line !!! 0%nat) then Some ([], line) else strtok line);
  '(uid, rest) ← strtok rest;
  '(gid, rest) ← strtok rest;
  '(mode, _) ← strtok rest;
  Some (FsConfigEntry name (atoi uid) (atoi gid) (s32 (strtol mode 8))).

(** The loop; every line takes a byte, so the length of the file is fuel
    enough.  A line is a C string: it ends at its first NUL. *)
Fixpoint canned_loop (fuel : nat) (f : list Z) : option (list fs_config_entry) :=
  match fuel with
  | O => None
  | S k =>
      let '(line, f) := fgets (CANNED_LINE_LENGTH - 1) f in
      if bool_decide (line = []) then Some [] else
      line ← c_string (line ++ [0]);
      if bool_decide (line = []) then Some [] else
      e ← canned_line line;
      es ← canned_loop k f;
      Some (e :: es)
  end.
Definition read_canned_config (content : list Z) : option (list fs_config_entry) :=
  canned_loop (S (length content)) content.

(** ** main *)

(** [char *x = strchr( *argv, '=')]: the text before the sign and after it. *)
Fixpoint split_eq (arg : list Z) : list Z * list Z :=
  match arg with
  | [] => ([], [])
  | b :: arg => if b =? 61 then ([], arg) else let '(d, x) := split_eq arg in (b :: d, x)
  end.

Fixpoint archive_args (cfg : option (list fs_config_entry)) (target : option (list Z)) (argv : list (list Z)) : M unit :=
  match argv with
  | [] => mret tt
  | arg :: argv => let '(start, x) := split_eq arg in _ ← archive cfg target start x; archive_args cfg target argv
  end.

(** The leading options: the target directory, the name of the canned file,
    and the arguments left. *)
Definition options (argv : list (list Z)) : option (list Z) * option (list Z) * list (list Z) :=
  let '(target, argv) :=
    match argv with
    | a :: x :: rest => if bool_decide (a = bytes_of "-d") then (Some x, rest) else (None, argv)
    | _ => (None, argv)
    end in
  match argv with
  | a :: x :: rest => if bool_decide (a = bytes_of "-f") then (target, Some x, rest) else (target, None, argv)
  | _ => (target, None, argv)
  end.

(** [main], on the arguments after the program name; [return 0] is [Ok]. *)
Definition main (argv : list (list Z)) : res unit :=
  let '(target, canned, argv) := options argv in
  let init := State [] 300000 0 [] [] in
  (cfg ← match canned with
         | None => mret None
         | Some filename =>
             match sys_open sys filename with
             | None => die (bytes_of "failed to open canned file")
             | Some content => cfg ← or_ub (read_canned_config content); mret (Some cfg)
             end
         end;
   _ ← match argv with [] => die (bytes_of "no directories to process?!") | _ => mret tt end;
   _ ← archive_args cfg target argv;
   eject_trailer cfg target) init.
End Program.

(** * Specification

    A directory as a tree: what [lstat] says of each node and its contents,
    the entries in the order of [strcmp]. *)
Inductive tree : Type :=
  | File (s : stat) (data : list Z)
  | Link (s : stat) (target : list Z)
  | Directory (s : stat) (children : list (list Z * tree)).

(** Induction with the hypothesis for every child. *)
Definition tree_rect' (P : tree -> Prop) (HF : forall s d, P (File s d)) (HL : forall s d, P (Link s d))
    (HD : forall s ch, Forall (fun c => P (snd c)) ch -> P (Directory s ch)) : forall t, P t :=
  fix go t := match t with
    | File s d => HF s d
    | Link s d => HL s d
    | Directory s ch => HD s ch ((fix all ch : Forall (fun c => P (snd c)) ch := match ch with
        | [] => Forall_nil_2 _
        | (n, t) :: ch => Forall_cons_2 (fun c => P (snd c)) (n, t) ch (go t) (all ch)
        end) ch)
    end.

(** The name of an entry in the archive. *)
Definition join (out name : list Z) : list Z := if (0 <? length out)%nat then out ++ 47 :: name else name.

(** The entries of a tree under a name, a directory before its contents. *)
Fixpoint items (t : tree) (out : list Z) : list (list Z * stat * list Z) :=
  match t with
  | File s d => [(out, s, d)]
  | Link s target => [(out, s, take 1024 target)]
  | Directory s ch => (out, s, []) :: concat (map (fun '(name, t) => items t (join out name)) ch)
  end.
Definition items_of (ch : list (list Z * tree)) (out : list Z) : list (list Z * stat * list Z) :=
  concat (map (fun '(name, t) => items t (join out name)) ch).

(** What [readdir] gives is not used for these names. *)
Definition ignored (name : list Z) : Prop := head name = Some 46 \/ name = bytes_of "root".
#[export] Instance ignored_dec name : Decision (ignored name).
Proof. unfold ignored. apply _. Defined.

Definition no_nuls (s : list Z) : Prop := Forall (fun b => b <> 0) s.

Section Spec.
Context (sys : system).

(** The files under [path] are those of the tree, and its paths fit into the
    buffers. *)
Fixpoint holds (t : tree) (path out : list Z) {struct t} : Prop :=
  match t with
  | File s d =>
      sys_lstat sys path = Some s /\ is_word 32 (st_mode s) /\ S_ISREG (st_mode s) = true
      /\ sys_open sys path = Some d /\ st_size s = Z.of_nat (length d) /\ st_size s <= 0x7ffff000
  | Link s target =>
      sys_lstat sys path = Some s /\ is_word 32 (st_mode s) /\ S_ISLNK (st_mode s) = true
      /\ sys_readlink sys path = Some target
  | Directory s ch =>
      sys_lstat sys path = Some s /\ is_word 32 (st_mode s) /\ S_ISDIR (st_mode s) = true
      /\ (exists dirents, sys_opendir sys path = Some dirents /\ Z.of_nat (length dirents) < 2 ^ 30
           /\ filter (fun n => ~ ignored n) dirents ≡ₚ map fst ch)
      /\ StronglySorted compare_le (map fst ch)
      /\ (fix all ch := match ch with
          | [] => True
          | (name, t) :: ch =>
              no_nuls name /\ (length path + length name + 2 <= BUFFER)%nat /\ (length (join out name) < BUFFER)%nat
              /\ holds t (path ++ 47 :: name) (join out name) /\ all ch
          end) ch
  end.

(** The same of the contents of a directory. *)
Definition holds_in (ch : list (list Z * tree)) (path out : list Z) : Prop :=
  (exists dirents, sys_opendir sys path = Some dirents /\ Z.of_nat (length dirents) < 2 ^ 30
     /\ filter (fun n => ~ ignored n) dirents ≡ₚ map fst ch)
  /\ StronglySorted compare_le (map fst ch)
  /\ Forall (fun '(name, t) => no_nuls name /\ (length path + length name + 2 <= BUFFER)%nat
       /\ (length (join out name) < BUFFER)%nat /\ holds t (path ++ 47 :: name) (join out name)) ch.

Context (fs_config : list Z -> Z -> option (list Z) -> Z * Z * Z -> Z * Z * Z * Z).
Context (cfg : option (list fs_config_entry)) (target : option (list Z)).

(** The [i]-th entry of the archive. *)
Definition entry_of (i : nat) (it : list Z * stat * list Z) : entry :=
  let '(name, s, data) := it in
  Entry (u32 (300000 + Z.of_nat i)) (from_option st_mode 0 (fix_stat fs_config cfg target name s)) 0 0 1 0 0 0 0 0 name 0 data.
Definition entries (i : nat) (its : list (list Z * stat * list Z)) : list entry := imap (fun k => entry_of (i + k)) its.

(** The canned configuration has an entry for all other names. *)
Definition has_default : Prop :=
  match cfg with None => True | Some es => Exists (fun e => fc_name e = []) es end.
End Spec.

(** * Lemmas *)

(** ** Order *)

#[export] Instance compare_le_total : Total compare_le.
Proof.
  intros a. unfold compare_le. induction a as [|x a IH]; intros [|y b]; cbn; auto.
  destruct (Z.ltb_spec x y), (Z.ltb_spec y x), (Z.eqb_spec x y), (Z.eqb_spec y x); cbn; auto; lia.
Qed.
#[export] Instance compare_le_trans : Transitive compare_le.
Proof.
  intros a. unfold compare_le. induction a as [|x a IH]; intros [|y b] [|z c]; cbn; try done.
  intros H1 H2. specialize (IH b c).
  destruct (Z.ltb_spec x y), (Z.ltb_spec y z), (Z.eqb_spec x y), (Z.eqb_spec y z), (Z.ltb_spec x z), (Z.eqb_spec x z); cbn in *; auto; lia.
Qed.
#[export] Instance compare_le_antisymm : AntiSymm eq compare_le.
Proof.
  intros a. unfold compare_le. induction a as [|x a IH]; intros [|y b]; cbn; try done.
  intros H1 H2. specialize (IH b).
  destruct (Z.ltb_spec x y), (Z.ltb_spec y x), (Z.eqb_spec x y), (Z.eqb_spec y x); cbn in *; try lia; try discriminate.
  subst. f_equal. auto.
Qed.

(** The order in which [readdir] gives the names does not matter. *)
Lemma sort_names_unique names sorted :
  names ≡ₚ sorted -> StronglySorted compare_le sorted -> sort_names names = sorted.
Proof.
  intros Hp Hs. apply (StronglySorted_unique compare_le); [|exact Hs|].
  - apply Sorted_StronglySorted; [apply _|]. apply Sorted_merge_sort, _.
  - unfold sort_names. by rewrite merge_sort_Permutation.
Qed.

(** ** The writer *)

Lemma bind_ok {A B} (m : M A) (f : A -> M B) s a s' : m s = Ok a s' -> (x ← m; f x) s = f a s'.
Proof. intros H. unfold mbind, M_bind. by rewrite H. Qed.

Lemma add_total_ok n o i t b u :
  - 2 ^ 31 <= t + n < 2 ^ 31 -> add_total n (State o i t b u) = Ok tt (State o i (t + n) b u).
Proof.
  intros H. unfold add_total, mbind, M_bind, get. cbn [total_size].
  rewrite (proj2 (Z.leb_le _ _)) by lia. rewrite (proj2 (Z.ltb_lt _ _)) by lia. reflexivity.
Qed.

Lemma pad_loop_ok j fuel o i t b u :
  0 <= j -> 0 <= t -> (- t) mod 2 ^ j < Z.of_nat fuel -> t + (- t) mod 2 ^ j < 2 ^ 31 ->
  pad_loop fuel (Z.ones j) (State o i t b u)
  = Ok tt (State (o ++ replicate (Z.to_nat ((- t) mod 2 ^ j)) 0) i (t + (- t) mod 2 ^ j) b u).
Proof.
  intros Hj. revert o t. induction fuel as [|k IH]; intros o t Ht Hf Hs.
  - pose proof (Z.mod_pos_bound (- t) (2 ^ j) ltac:(lia)). lia.
  - cbn [pad_loop]. unfold mbind at 1, M_bind at 1, get. cbn [total_size]. rewrite Z.land_ones by done.
    assert (0 < 2 ^ j) by lia.
    destruct (Z.eqb_spec (t mod 2 ^ j) 0) as [E|E].
    + rewrite (Z.mod_opp_l_z t) by lia. cbn [Z.to_nat replicate]. by rewrite app_nil_r, Z.add_0_r.
    + pose proof (Z.mod_pos_bound t (2 ^ j) ltac:(lia)) as Hb. rewrite (Z.mod_opp_l_nz t) in * by lia.
      erewrite bind_ok by (apply add_total_ok; lia). unfold mbind at 1, M_bind at 1. cbn [put].
      assert ((- (t + 1)) mod 2 ^ j = 2 ^ j - t mod 2 ^ j - 1) as E1.
      { replace (- (t + 1)) with ((2 ^ j - t mod 2 ^ j - 1) + (- (t / 2 ^ j) - 1) * 2 ^ j) by (pose proof (Z.div_mod t (2 ^ j) ltac:(lia)); lia).
        rewrite Z.mod_add by lia. apply Z.mod_small. lia. }
      rewrite IH by lia. rewrite E1. f_equal. f_equal; [|lia].
      rewrite <- app_assoc. f_equal. replace (Z.to_nat (2 ^ j - t mod 2 ^ j)) with (S (Z.to_nat (2 ^ j - t mod 2 ^ j - 1))) by lia. reflexivity.
Qed.

Lemma pad4_ok o i b u :
  Z.of_nat (length o) + Z.of_nat (pad4 (length o)) < 2 ^ 31 ->
  pad_to 3 (State o i (Z.of_nat (length o)) b u)
  = Ok tt (State (o ++ replicate (pad4 (length o)) 0) i (Z.of_nat (length o + pad4 (length o))) b u).
Proof.
  intros H. rewrite pad4_Z in H. unfold pad_to. change 3 with (Z.ones 2).
  pose proof (Z.mod_pos_bound (- Z.of_nat (length o)) 4 ltac:(lia)).
  rewrite pad_loop_ok by (change (2 ^ 2) with 4; lia). change (2 ^ 2) with 4. rewrite Nat2Z.inj_add, !pad4_Z.
  f_equal. f_equal. by rewrite <- pad4_Z, Nat2Z.id.
Qed.

(** Between two entries: the padded output is the archive of the entries so
    far, and the running totals agree with it. *)
Definition wrote (es : list entry) (s : state) : Prop :=
  stdout s ++ replicate (pad4 (length (stdout s))) 0 = archive_bytes es
  /\ total_size s = Z.of_nat (length (stdout s))
  /\ next_inode s = u32 (300000 + Z.of_nat (length es)).

Definition size_ok (es : list entry) : Prop := Z.of_nat (length (archive_bytes es)) < 2 ^ 31.

Lemma size_ok_app es es' : size_ok (es ++ es') -> size_ok es.
Proof. unfold size_ok. rewrite archive_bytes_app, length_app. lia. Qed.

Section Writer.
Context (fs_config : list Z -> Z -> option (list Z) -> Z * Z * Z -> Z * Z * Z * Z).
Context (cfg : option (list fs_config_entry)) (target : option (list Z)).
Abbreviation entry_of := (entry_of fs_config cfg target).
Abbreviation entries := (entries fs_config cfg target).
Abbreviation eject := (eject fs_config cfg target).

Lemma find_config_default es empty path :
  is_Some empty \/ Exists (fun e => fc_name e = []) es -> is_Some (find_config es empty path).
Proof.
  revert empty. induction es as [|e es IH]; intros empty H; cbn [find_config].
  - destruct H as [H|H]; [done|inversion H].
  - destruct (bool_decide (fc_name e = path)); [done|]. apply IH.
    destruct (bool_decide_reflect (fc_name e = [])) as [E|E]; [left; done|].
    destruct H as [H|H]; [by left|]. apply Exists_cons in H as [H|H]; [done|by right].
Qed.

Lemma fix_stat_default path s : has_default cfg -> is_Some (fix_stat fs_config cfg target path s).
Proof.
  unfold has_default, fix_stat. destruct cfg as [es|].
  - intros H. destruct (find_config_default es None path (or_intror H)) as [p ->]. done.
  - intros _. by destruct (fs_config _ _ _ _) as [[[? ?] ?] ?].
Qed.

Lemma fix_stat_word path s s' :
  is_word 32 (st_mode s) -> fix_stat fs_config cfg target path s = Some s' -> is_word 32 (st_mode s').
Proof.
  intros Hs. unfold fix_stat. destruct cfg as [es|].
  - destruct (find_config es None path); [|done]. intros [= <-]. cbn [st_mode].
    apply is_word_lor; [lia|apply u32_range|]. apply is_word_land; [lia|done].
  - destruct (fs_config _ _ _ _) as [[[? ?] ?] ?]. intros [= <-]. apply u32_range.
Qed.

Lemma entry_of_ok i name s data :
  is_word 32 (st_mode s) -> no_nuls name -> Z.of_nat (length name) + 1 < 2 ^ 32 -> Z.of_nat (length data) < 2 ^ 32 ->
  entry_ok (entry_of i (name, s, data)).
Proof.
  intros Hs Hn Hl Hd. split; [|exact Hn]. unfold fields. cbn.
  assert (is_word 32 (from_option st_mode 0 (fix_stat fs_config cfg target name s))) as Hm.
  { destruct (fix_stat _ _ _ _ _) as [s'|] eqn:E; [by eapply fix_stat_word|cbn; split; lia]. }
  repeat (apply Forall_cons_2; [first [apply u32_range | exact Hm | split; lia]|]). apply Forall_nil_2.
Qed.

Lemma eject_spec es s mem name olen data st :
  wrote es s -> c_string mem = Some name -> length name = olen -> is_Some (fix_stat fs_config cfg target name st) ->
  size_ok (es ++ [entry_of (length es) (name, st, data)]) -> entry_ok (entry_of (length es) (name, st, data)) ->
  exists o i t, eject st mem olen data (Z.of_nat (length data)) s = Ok tt (State o i t (in_ s) (out_ s))
    /\ wrote (es ++ [entry_of (length es) (name, st, data)]) (State o i t (in_ s) (out_ s)).
Proof.
  intros (Ho & Ht & Hi) Hname Hlen [st' Hst] Hsize Hok. destruct s as [o i t b u]. cbn [stdout total_size next_inode in_ out_] in *. subst t i.
  set (e := entry_of (length es) (name, st, data)) in *.
  unfold size_ok in Hsize. rewrite archive_bytes_app in Hsize. cbn [archive_bytes map concat] in Hsize.
  rewrite app_nil_r, <- Ho in Hsize. unfold entry_bytes, head_padded in Hsize. rewrite !length_app, !length_replicate in Hsize.
  pose proof (header_length e Hok) as Hh.
  assert (length (c_name e) = olen) as He by exact Hlen. change (c_data e) with data in Hsize.
  unfold Mkbootfs.eject. erewrite bind_ok by (apply pad4_ok; lia). rewrite Ho. rewrite Hname. unfold or_ub at 1.
  erewrite bind_ok by reflexivity. rewrite Hst. erewrite bind_ok by reflexivity. erewrite bind_ok by reflexivity. erewrite bind_ok by reflexivity.
  assert (header_text (u32 (300000 + Z.of_nat (length es))) (st_mode st') (Z.of_nat (length data)) (Z.of_nat olen + 1) name = header_bytes e) as ->.
  { unfold header_text, header_bytes, fields, e. cbn [c_ino c_mode c_uid c_gid c_nlink c_mtime c_devmajor c_devminor c_rdevmajor c_rdevminor c_name c_check c_data Mkbootfs.entry_of].
    rewrite Hst, Hlen. cbn [from_option]. rewrite (u32_small (Z.of_nat olen + 1)); [reflexivity|].
    unfold is_word. split; lia. }
  assert (length (archive_bytes es) = length o + pad4 (length o))%nat as Ha by (rewrite <- Ho, length_app, length_replicate; done).
  erewrite bind_ok by (apply add_total_ok; lia). rewrite Hlen, Nat.eqb_refl. cbn [negb]. erewrite bind_ok by reflexivity.
  assert (length (archive_bytes es ++ header_bytes e) = length o + pad4 (length o) + length (header_bytes e))%nat as Hl by (rewrite length_app; lia).
  assert (pad4 (length (archive_bytes es ++ header_bytes e)) = pad4 (length (header_bytes e))) as Hp.
  { rewrite length_app. apply pad4_add, archive_aligned. }
  replace (Z.of_nat (length o + pad4 (length o)) + (6 + 8 * 13 + Z.of_nat olen + 1)) with (Z.of_nat (length (archive_bytes es ++ header_bytes e))) by lia.
  erewrite bind_ok by (apply pad4_ok; lia). rewrite Hp.
  rewrite <- (app_assoc (archive_bytes es)). change (header_bytes e ++ replicate (pad4 (length (header_bytes e))) 0) with (head_padded e).
  assert (Z.of_nat (length (archive_bytes es ++ header_bytes e) + pad4 (length (header_bytes e)))
          = Z.of_nat (length (archive_bytes es ++ head_padded e))) as -> by (unfold head_padded; rewrite !length_app, length_replicate; lia).
  assert (forall z, z = data -> wrote (es ++ [e])
    (State ((archive_bytes es ++ head_padded e) ++ z) (u32 (u32 (300000 + Z.of_nat (length es)) + 1))
       (Z.of_nat (length ((archive_bytes es ++ head_padded e) ++ z))) b u)) as Hw.
  { intros z ->. repeat split; cbn [stdout next_inode].
    - rewrite archive_bytes_app. cbn [archive_bytes map concat]. rewrite app_nil_r. unfold entry_bytes. rewrite <- !app_assoc.
      do 2 f_equal. change (c_data e) with data. f_equal. f_equal. rewrite (app_assoc _ (head_padded e)), length_app. apply pad4_add.
      rewrite length_app, Nat.Div0.add_mod, archive_aligned. unfold head_padded. by rewrite padded_aligned.
    - rewrite u32_add_l, length_app. f_equal. cbn [length]. lia. }
  destruct (Z.eqb_spec (Z.of_nat (length data)) 0) as [E|E].
  - do 3 eexists. split; [reflexivity|]. destruct data; [|cbn in E; lia]. specialize (Hw [] eq_refl). by rewrite app_nil_r in Hw.
  - rewrite Z.ltb_irrefl. erewrite bind_ok by reflexivity. erewrite bind_ok by reflexivity. do 3 eexists. split; [reflexivity|].
    rewrite Nat2Z.id, firstn_all. specialize (Hw data eq_refl).
    replace (s32 _) with (Z.of_nat (length ((archive_bytes es ++ head_padded e) ++ data))); [exact Hw|].
    unfold s32. cbn [total_size]. rewrite u32_add_l, (length_app _ data), Nat2Z.inj_add.
    assert (Z.of_nat (length (archive_bytes es ++ head_padded e)) + Z.of_nat (length data) < 2 ^ 31).
    { unfold head_padded. rewrite !length_app, length_replicate. lia. }
    rewrite u32_small by (split; lia). rewrite (proj2 (Z.ltb_lt _ _)) by done. reflexivity.
Qed.
End Writer.

(** ** The path buffers *)

(** A buffer that holds a path. *)
Definition in_buffer (path b : list Z) : Prop := (exists r, b = path ++ 0 :: r) /\ length b = BUFFER.

Lemma write_at_prefix i a w b :
  length a = i -> (i + length w <= length b)%nat -> take i b = a ->
  exists r, write_at i w b = Some (a ++ w ++ r) /\ length (a ++ w ++ r) = length b.
Proof.
  intros Ha Hw Hb. unfold write_at. rewrite (proj2 (Nat.leb_le _ _)) by done.
  exists (drop (i + length w) b). unfold set_window. rewrite Hb. split; [done|]. rewrite !length_app, length_drop. lia.
Qed.

Lemma in_buffer_take path w b : in_buffer (path ++ w) b -> take (length path) b = path /\ (length path < length b)%nat.
Proof.
  intros [[r ->] _]. rewrite <- app_assoc. split; [apply take_app_length|]. rewrite !length_app. cbn. lia.
Qed.

Lemma in_buffer_start name b : length b = BUFFER -> (length name < BUFFER)%nat ->
  exists b', write_at 0 (name ++ [0]) b = Some b' /\ in_buffer name b'.
Proof.
  intros Hb Hn. destruct (write_at_prefix 0 [] (name ++ [0]) b) as (r & E & L); [done|rewrite length_app; cbn [length]; lia|apply take_0|].
  eexists. split; [exact E|]. split; [|by rewrite L]. exists r. cbn [app]. by rewrite <- app_assoc.
Qed.

Lemma in_buffer_enter path name b :
  in_buffer path b -> (length path + length name + 2 <= BUFFER)%nat ->
  exists b1 b2, write_at (length path) [47] b = Some b1 /\ write_at (length path + 1) (name ++ [0]) b1 = Some b2
    /\ in_buffer (path ++ 47 :: name) b2.
Proof.
  intros Hb Hl. pose proof (proj2 Hb) as Lb. rewrite <- (app_nil_r path) in Hb. destruct (in_buffer_take _ _ _ Hb) as [Ht Hlt].
  destruct (write_at_prefix (length path) path [47] b) as (r1 & E1 & L1); [done|cbn [length]; lia|done|].
  destruct (write_at_prefix (length path + 1) (path ++ [47]) (name ++ [0]) (path ++ [47] ++ r1)) as (r2 & E2 & L2).
  - by rewrite length_app.
  - rewrite L1, length_app. cbn [length]. lia.
  - rewrite app_assoc. apply take_app_length'. by rewrite length_app.
  - do 2 eexists. split; [exact E1|]. split; [exact E2|]. split; [|lia].
    exists r2. rewrite <- !app_assoc. reflexivity.
Qed.

Lemma in_buffer_leave path w b :
  in_buffer (path ++ w) b -> exists b', write_at (length path) [0] b = Some b' /\ in_buffer path b'.
Proof.
  intros Hb. destruct (in_buffer_take _ _ _ Hb) as [Ht Hlt].
  destruct (write_at_prefix (length path) path [0] b) as (r & E & L); [done|cbn [length]; lia|done|].
  eexists. split; [exact E|]. split; [|rewrite L; apply Hb]. by exists r.
Qed.

Lemma write_in_ok i w o n t b b' u :
  write_at i w b = Some b' -> write_in i w (State o n t b u) = Ok tt (State o n t b' u).
Proof. intros H. unfold write_in. by rewrite H. Qed.
Lemma write_out_ok i w o n t b u u' :
  write_at i w u = Some u' -> write_out i w (State o n t b u) = Ok tt (State o n t b u').
Proof. intros H. unfold write_out. by rewrite H. Qed.

Lemma in_buffer_string path b : no_nuls path -> in_buffer path b -> c_string b = Some path.
Proof. intros Hp [[r ->] _]. by apply c_string_app. Qed.

(** ** The names of a directory *)

Lemma read_names_ok sys dirents names size s :
  (forall n, sys_malloc sys n = true) -> Z.of_nat (length names + length dirents) < 2 ^ 30 ->
  read_names sys dirents names size s = Ok (names ++ filter (fun n => ~ ignored n) dirents) s.
Proof.
  intros Hm. revert names size. induction dirents as [|d dirents IH]; intros names size Hl; cbn [read_names].
  - rewrite filter_nil, app_nil_r. reflexivity.
  - rewrite filter_cons. cbn [length] in Hl.
    destruct (bool_decide_reflect (head d = Some 46)) as [E1|E1].
    { rewrite decide_False by (intros H; apply H; by left). apply IH. lia. }
    destruct (bool_decide_reflect (d = bytes_of "root")) as [E2|E2].
    { rewrite decide_False by (intros H; apply H; by right). apply IH. lia. }
    rewrite decide_True by (by intros [H|H]). rewrite !Hm. cbn [negb]. rewrite !andb_false_r.
    assert ((size <=? Z.of_nat (length names)) && (2 ^ 31 <=? size * 2) = false) as ->.
    { apply andb_false_iff. rewrite Z.leb_gt, Z.leb_gt. lia. }
    rewrite IH by (rewrite length_app; cbn [length]; lia). by rewrite <- app_assoc.
Qed.

(** A mode is of one type. *)
Lemma reg_of_type mode : S_ISDIR mode = true -> S_ISREG mode = false.
Proof. unfold S_ISDIR, S_ISREG. rewrite Z.eqb_eq. by intros ->. Qed.
Lemma lnk_of_type mode : S_ISLNK mode = true -> S_ISREG mode = false /\ S_ISDIR mode = false.
Proof. unfold S_ISDIR, S_ISREG, S_ISLNK. rewrite Z.eqb_eq. by intros ->. Qed.

Lemma holds_children sys s ch path out :
  holds sys (Directory s ch) path out <->
  sys_lstat sys path = Some s /\ is_word 32 (st_mode s) /\ S_ISDIR (st_mode s) = true /\ holds_in sys ch path out.
Proof.
  cbn [holds]. unfold holds_in. do 3 (apply and_iff_compat_l). do 2 (apply and_iff_compat_l).
  induction ch as [|[name t] ch IH]; [split; [intros; apply Forall_nil_2|done]|].
  rewrite Forall_cons, IH. tauto.
Qed.

(** ** The walk *)

Section Walk.
Context (sys : system) (fs_config : list Z -> Z -> option (list Z) -> Z * Z * Z -> Z * Z * Z * Z).
Context (cfg : option (list fs_config_entry)) (target : option (list Z)).
Hypothesis memory : forall n, sys_malloc sys n = true.
Hypothesis default : has_default cfg.
Abbreviation entries := (entries fs_config cfg target).
Abbreviation archive_node := (archive_node sys fs_config cfg target).
Abbreviation archive_dir := (archive_dir sys fs_config cfg target).

(** Both buffers hold the paths, and the entries are written. *)
Definition at_path (path out : list Z) (es : list entry) (s : state) : Prop :=
  in_buffer path (in_ s) /\ in_buffer out (out_ s) /\ wrote es s.

Definition names_ok (path out : list Z) : Prop := no_nuls path /\ no_nuls out /\ (length out < BUFFER)%nat.

(** [m] appends the entries of [its] and gives the buffers back. *)
Definition appends (m : M unit) (its : list (list Z * stat * list Z)) (path out : list Z) : Prop :=
  forall es s, at_path path out es s -> size_ok (es ++ entries (length es) its) ->
  exists s', m s = Ok tt s' /\ at_path path out (es ++ entries (length es) its) s'.

Definition node_appends (t : tree) : Prop := forall k path out,
  holds sys t path out -> names_ok path out -> (BUFFER - length path < k)%nat ->
  appends (archive_node (archive_dir k) (length path) (length out)) (items t out) path out.

Lemma entries_app i a b : entries i (a ++ b) = entries i a ++ entries (i + length a) b.
Proof. unfold Mkbootfs.entries. rewrite imap_app. f_equal. apply imap_ext. intros k x _. cbn. f_equal. lia. Qed.

Lemma entries_length i a : length (entries i a) = length a.
Proof. apply length_imap. Qed.

Lemma appends_nil path out : appends (mret tt) [] path out.
Proof. intros es s Hs _. exists s. split; [done|]. cbn. by rewrite app_nil_r. Qed.

Lemma appends_app m m' a b path out :
  appends m a path out -> appends m' b path out -> appends (_ ← m; m') (a ++ b) path out.
Proof.
  intros H H' es s Hs Hz. rewrite entries_app, app_assoc in Hz |- *.
  destruct (H es s Hs (size_ok_app _ _ Hz)) as (s1 & E1 & H1).
  replace (length es + length a)%nat with (length (es ++ entries (length es) a)) in * by (rewrite length_app, entries_length; done).
  destruct (H' _ s1 H1 Hz) as (s2 & E2 & H2). exists s2. split; [|done]. by erewrite bind_ok.
Qed.

Lemma eject_appends st path out data :
  names_ok path out -> is_word 32 (st_mode st) ->
  appends (fun s => eject fs_config cfg target st (out_ s) (length out) data (Z.of_nat (length data)) s) [(out, st, data)] path out.
Proof.
  intros (_ & Hn & Hl) Hw es s (Hi & Ho & Hs) Hz. cbn [Mkbootfs.entries imap] in *. rewrite Nat.add_0_r in *.
  assert (entry_ok (entry_of fs_config cfg target (length es) (out, st, data))) as Hok.
  { apply entry_of_ok; [done|done|assert (Z.of_nat BUFFER = 8192) by reflexivity; lia|].
    unfold size_ok in Hz. rewrite archive_bytes_app in Hz. unfold archive_bytes at 2, entry_bytes in Hz. cbn [map concat] in Hz.
    rewrite !length_app in Hz. change (c_data _) with data in Hz. lia. }
  destruct (eject_spec fs_config cfg target es s (out_ s) out (length out) data st Hs (in_buffer_string _ _ Hn Ho) eq_refl
    (fix_stat_default fs_config cfg target out st default) Hz Hok) as (o & i & t & E & H).
  eexists. split; [exact E|]. split; [done|]. split; [done|exact H].
Qed.

Lemma file_appends s d k path out :
  holds sys (File s d) path out -> names_ok path out ->
  appends (archive_node (archive_dir k) (length path) (length out)) (items (File s d) out) path out.
Proof.
  intros (Hs & Hw & Hr & Ho & Hz & Hm) Hn es s0 Hp Hsz. destruct (eject_appends s path out d Hn Hw es s0 Hp Hsz) as (s1 & E & H).
  exists s1. split; [|exact H]. unfold Mkbootfs.archive_node. destruct Hp as (Hi & _ & _).
  erewrite bind_ok by (erewrite bind_ok by reflexivity; rewrite (in_buffer_string path) by (done || apply Hn); reflexivity).
  rewrite Hs. erewrite bind_ok by reflexivity. rewrite Hr, Ho, memory. cbn [negb].
  assert (read_bytes (st_size s) d = d) as ->.
  { unfold read_bytes. rewrite Z.min_l, Hz, Nat2Z.id by done. apply firstn_all. }
  rewrite Hz, Z.eqb_refl. cbn [negb]. rewrite u32_small by (split; lia). exact E.
Qed.

Lemma link_appends s tg k path out :
  holds sys (Link s tg) path out -> names_ok path out ->
  appends (archive_node (archive_dir k) (length path) (length out)) (items (Link s tg) out) path out.
Proof.
  intros (Hs & Hw & Hr & Ho) Hn es s0 Hp Hsz. destruct (eject_appends s path out (take 1024 tg) Hn Hw es s0 Hp Hsz) as (s1 & E & H).
  exists s1. split; [|exact H]. unfold Mkbootfs.archive_node. destruct Hp as (Hi & _ & _).
  erewrite bind_ok by (erewrite bind_ok by reflexivity; rewrite (in_buffer_string path) by (done || apply Hn); reflexivity).
  rewrite Hs. erewrite bind_ok by reflexivity. destruct (lnk_of_type _ Hr) as [-> ->]. rewrite Hr, Ho. exact E.
Qed.

Lemma join_length out name :
  length (join out name) = if (0 <? length out)%nat then (length out + length name + 1)%nat else length name.
Proof. unfold join. destruct (0 <? length out)%nat; [|done]. rewrite length_app. cbn [length]. lia. Qed.

Lemma join_names_ok path out name :
  names_ok path out -> no_nuls name -> (length (join out name) < BUFFER)%nat -> names_ok (path ++ 47 :: name) (join out name).
Proof.
  intros (Hp & Ho & _) Hn Hl. split; [|split; [|done]].
  - apply Forall_app. split; [done|]. by apply Forall_cons_2.
  - unfold join. destruct (0 <? length out)%nat; [|done]. apply Forall_app. split; [done|]. by apply Forall_cons_2.
Qed.

(** One step of the loop over the names: into the child and back. *)
Lemma name_appends (node : nat -> nat -> M unit) its path out name :
  names_ok path out -> no_nuls name -> (length path + length name + 2 <= BUFFER)%nat -> (length (join out name) < BUFFER)%nat ->
  appends (node (length (path ++ 47%Z :: name)) (length (join out name))) its (path ++ 47 :: name) (join out name) ->
  forall names rest, appends (archive_names node names (length path) (length out)) rest path out ->
  appends (archive_names node (name :: names) (length path) (length out)) (its ++ rest) path out.
Proof.
  intros (Hp & Ho & Hlo) Hn Hl Hj Hnode names rest Hrest es s (Hi & Hu & Hw) Hsz. rewrite entries_app, app_assoc in Hsz |- *.
  assert (length es + length its = length (es ++ entries (length es) its))%nat as Hle by (by rewrite length_app, entries_length).
  rewrite Hle in Hsz |- *. destruct s as [o n t b u]. cbn [in_ out_] in Hi, Hu. cbn [archive_names].
  destruct (in_buffer_enter path name b Hi Hl) as (b1 & b2 & E1 & E2 & H2).
  erewrite bind_ok by (apply write_in_ok, E1).
  erewrite bind_ok by (apply write_in_ok, E2).
  assert (exists u', in_buffer (join out name) u' /\ forall (k : unit -> M unit), (_ ← (if (0 <? length out)%nat then
      _ ← write_out (length out) [47]; _ ← write_out (length out + 1) (name ++ [0]);
      node (length path + length name + 1)%nat (length out + length name + 1)%nat
    else _ ← write_out 0 (name ++ [0]); node (length path + length name + 1)%nat (length name)); k tt) (State o n t b2 u)
    = (_ ← node (length (path ++ 47%Z :: name)) (length (join out name)); k tt) (State o n t b2 u')) as (u' & Hu' & Heq).
  { rewrite join_length, (length_app path). cbn [length].
    replace (length path + S (length name))%nat with (length path + length name + 1)%nat by lia.
    unfold join in *. destruct (Nat.ltb_spec 0 (length out)).
    - rewrite length_app in Hj. cbn [length] in Hj. destruct (in_buffer_enter out name u Hu ltac:(lia)) as (u1 & u2 & F1 & F2 & G2).
      exists u2. split; [done|]. intros k. unfold mbind, M_bind, write_out. rewrite F1, F2. reflexivity.
    - destruct (in_buffer_start name u (proj2 Hu) Hj) as (u1 & F1 & G1).
      exists u1. split; [done|]. intros k. unfold mbind, M_bind, write_out. rewrite F1. reflexivity. }
  rewrite (Heq (fun _ => _)). clear Heq.
  destruct (Hnode es (State o n t b2 u')) as ([o1 n1 t1 b3 u3] & E3 & Hi3 & Hu3 & Hw3); [done|by eapply size_ok_app|].
  erewrite bind_ok by exact E3. cbn [in_ out_] in Hi3, Hu3.
  destruct (in_buffer_leave path _ b3 Hi3) as (b4 & E4 & H4).
  erewrite bind_ok by (apply write_in_ok, E4).
  assert (exists w, join out name = out ++ w) as [w Hjw].
  { unfold join. destruct out; [by exists name|by eexists]. }
  rewrite Hjw in Hu3. destruct (in_buffer_leave out _ u3 Hu3) as (u4 & E5 & H5).
  erewrite bind_ok by (apply write_out_ok, E5).
  apply Hrest; [|done]. done.
Qed.

Lemma dir_appends ch k path out :
  Forall (fun c => node_appends (snd c)) ch -> holds_in sys ch path out -> names_ok path out -> (BUFFER - length path < k)%nat ->
  appends (archive_dir k (length path) (length out)) (items_of ch out) path out.
Proof.
  intros IH ((dirents & Ed & Hl & Hperm) & Hsort & Hch) Hn Hk. destruct k as [|k]; [lia|].
  assert (appends (archive_names (archive_node (archive_dir k)) (map fst ch) (length path) (length out)) (items_of ch out) path out) as H.
  { clear Hsort Hperm. induction ch as [|[name t] ch IHch]; [apply appends_nil|].
    apply Forall_cons in IH as [Ht IH]. apply Forall_cons in Hch as [(H1 & H2 & H3 & H4) Hch]. cbn [map fst].
    unfold items_of. cbn [map concat]. apply name_appends; [done|done|done|done| |by apply IHch].
    apply Ht; [done|by apply join_names_ok|]. rewrite length_app. cbn [length]. lia. }
  intros es s Hs Hz. destruct (H es s Hs Hz) as (s' & E & Hs'). exists s'. split; [|exact Hs'].
  cbn [Mkbootfs.archive_dir]. destruct Hs as (Hi & _ & _).
  erewrite bind_ok by (erewrite bind_ok by reflexivity; rewrite (in_buffer_string path) by (done || apply Hn); reflexivity).
  rewrite Ed, memory. cbn [negb].
  erewrite bind_ok by (apply read_names_ok; [done|cbn [length]; lia]). cbn [app].
  rewrite (sort_names_unique _ _ Hperm Hsort). exact E.
Qed.

Lemma all_nodes t : node_appends t.
Proof.
  induction t as [s d|s tg|s ch IH] using tree_rect'.
  - intros k path out H Hn _. by apply file_appends.
  - intros k path out H Hn _. by apply link_appends.
  - intros k path out H Hn Hk. apply holds_children in H as (Hs & Hw & Hd & Hin).
    pose proof (appends_app _ _ _ _ _ _ (eject_appends s path out [] Hn Hw) (dir_appends ch k path out IH Hin Hn Hk)) as H.
    intros es s0 Hp Hsz. destruct (H es s0 Hp Hsz) as (s1 & E & Hp'). exists s1. split; [|exact Hp'].
    unfold Mkbootfs.archive_node. destruct Hp as (Hi & _ & _).
    erewrite bind_ok by (erewrite bind_ok by reflexivity; rewrite (in_buffer_string path) by (done || apply Hn); reflexivity).
    rewrite Hs. erewrite bind_ok by reflexivity. rewrite (reg_of_type _ Hd), Hd. exact E.
Qed.
End Walk.

(** ** main *)

Section Main.
Context (sys : system) (fs_config : list Z -> Z -> option (list Z) -> Z * Z * Z -> Z * Z * Z * Z).
Context (cfg : option (list fs_config_entry)) (target : option (list Z)).
Hypothesis memory : forall n, sys_malloc sys n = true.
Hypothesis default : has_default cfg.
Abbreviation entries := (entries fs_config cfg target).

(** An argument names a directory with these contents. *)
Definition arg_holds (arg : list Z) (ch : list (list Z * tree)) : Prop :=
  let '(start, prefix) := split_eq arg in
  (length start < BUFFER)%nat /\ names_ok start prefix /\ holds_in sys ch start prefix.
Definition arg_items (arg : list Z) (ch : list (list Z * tree)) : list (list Z * stat * list Z) :=
  items_of ch (snd (split_eq arg)).

Fixpoint all_items (argv : list (list Z)) (chs : list (list (list Z * tree))) : list (list Z * stat * list Z) :=
  match argv, chs with
  | arg :: argv, ch :: chs => arg_items arg ch ++ all_items argv chs
  | _, _ => []
  end.

Definition item_ok (it : list Z * stat * list Z) : Prop :=
  let '(name, st, _) := it in is_word 32 (st_mode st) /\ no_nuls name /\ (length name < BUFFER)%nat.

Lemma children_items path out ch :
  Forall (fun c => forall path out, holds sys (snd c) path out -> names_ok path out -> Forall item_ok (items (snd c) out)) ch ->
  holds_in sys ch path out -> names_ok path out -> Forall item_ok (items_of ch out).
Proof.
  intros IH (_ & _ & Hch) Hn. apply Forall_concat, Forall_fmap. rewrite Forall_forall in IH, Hch |- *.
  intros [name t] Hc. destruct (Hch _ Hc) as (H1 & H2 & H3 & H4). apply (IH _ Hc _ _ H4). by apply join_names_ok.
Qed.

Lemma holds_items t path out : holds sys t path out -> names_ok path out -> Forall item_ok (items t out).
Proof.
  revert path out. induction t as [s d|s tg|s ch IH] using tree_rect'; intros path out H Hn.
  - destruct H as (_ & Hw & _). apply Forall_singleton. split; [exact Hw|apply Hn].
  - destruct H as (_ & Hw & _). apply Forall_singleton. split; [exact Hw|apply Hn].
  - apply holds_children in H as (_ & Hw & _ & Hin). cbn [items]. apply Forall_cons. split.
    + split; [exact Hw|apply Hn].
    + by apply (children_items path).
Qed.

Lemma all_items_ok argv chs : Forall2 arg_holds argv chs -> Forall item_ok (all_items argv chs).
Proof.
  induction 1 as [|arg ch argv chs Ha Hr IH]; [apply Forall_nil_2|]. apply Forall_app. split; [|exact IH].
  unfold arg_holds, arg_items in *. destruct (split_eq arg) as [start prefix]. destruct Ha as (_ & Hn & Hin).
  apply (children_items start); [|exact Hin|exact Hn]. apply Forall_forall. intros c _ path out. apply holds_items.
Qed.

Lemma data_size e es : e ∈ es -> (length (c_data e) <= length (archive_bytes es))%nat.
Proof.
  intros He. apply list_elem_of_split in He as (l1 & l2 & ->). rewrite archive_bytes_app. unfold archive_bytes at 2. cbn [map concat].
  unfold entry_bytes. rewrite !length_app. lia.
Qed.

Lemma entries_ok argv chs :
  Forall2 arg_holds argv chs -> Z.of_nat (length (archive_bytes (entries 0 (all_items argv chs)))) < 2 ^ 31 ->
  Forall entry_ok (entries 0 (all_items argv chs)).
Proof.
  intros H Hz. pose proof (all_items_ok _ _ H) as Hi. apply Forall_forall. intros e He.
  pose proof (data_size _ _ He) as Hd. unfold Mkbootfs.entries in He. apply list_elem_of_lookup in He as [i Hl].
  rewrite list_lookup_imap in Hl. destruct (all_items argv chs !! i) as [[[name st] data]|] eqn:E; [|discriminate Hl].
  cbn [fmap option_fmap option_map] in Hl. injection Hl as <-. rewrite Forall_forall in Hi.
  destruct (Hi _ (list_elem_of_lookup_2 _ _ _ E)) as (Hw & Hn & Hlen).
  assert (Z.of_nat BUFFER = 8192) by reflexivity. change (c_data _) with data in Hd.
  apply entry_of_ok; [done|done|lia|lia].
Qed.

Definition trailer (i : nat) : entry := entry_of fs_config cfg target i (trailer_name, Stat 0 0 0 0, []).

Lemma trailer_ok i : entry_ok (trailer i).
Proof.
  apply entry_of_ok; [split; cbn; lia| |cbn; lia|cbn; lia]. unfold trailer_name. repeat (apply Forall_cons_2; [discriminate|]). apply Forall_nil_2.
Qed.

Lemma trailer_size i : length (archive_bytes [trailer i]) = 124%nat.
Proof.
  unfold archive_bytes. cbn [map concat]. rewrite app_nil_r. unfold entry_bytes, head_padded. rewrite !length_app, !length_replicate.
  rewrite header_length by apply trailer_ok. change (length (c_name (trailer i))) with 10%nat. reflexivity.
Qed.

Lemma eject_trailer_ok es s :
  wrote es s -> Z.of_nat (length (archive_bytes es)) + 512 < 2 ^ 31 ->
  exists s' n, eject_trailer fs_config cfg target s = Ok tt s'
    /\ stdout s' = archive_bytes es ++ entry_bytes (trailer (length es)) ++ replicate n 0 /\ (length (stdout s') mod 256 = 0)%nat.
Proof.
  intros Hw Hz.
  assert (Z.of_nat (length (archive_bytes (es ++ [trailer (length es)]))) + 256 < 2 ^ 31) as Hz'.
  { rewrite archive_bytes_app, length_app, trailer_size. lia. }
  destruct (eject_spec fs_config cfg target es s (trailer_name ++ [0]) trailer_name 10 [] (Stat 0 0 0 0) Hw) as (o & i & t & E & Ho & Ht & _);
    [reflexivity|reflexivity|by apply fix_stat_default| |apply trailer_ok|].
  { unfold size_ok. fold (trailer (length es)). lia. }
  unfold eject_trailer. erewrite bind_ok by exact E.
  fold (trailer (length es)) in Ho. cbn [stdout total_size] in Ho, Ht. subst t.
  assert (length o + pad4 (length o) = length (archive_bytes (es ++ [trailer (length es)])))%nat as Hl by (rewrite <- Ho, length_app, length_replicate; done).
  pose proof (Z.mod_pos_bound (- Z.of_nat (length o)) 256 ltac:(lia)) as Hm.
  assert (Z.of_nat (length o) + (- Z.of_nat (length o)) mod 256 < 2 ^ 31) as Hs by lia.
  unfold pad_to. change 0xff with (Z.ones 8). rewrite pad_loop_ok by (change (2 ^ 8) with 256; lia). change (2 ^ 8) with 256.
  set (r := Z.to_nat ((- Z.of_nat (length o)) mod 256)).
  assert (pad4 (length o) <= r)%nat as Hr.
  { unfold r. apply Nat2Z.inj_le. rewrite pad4_Z, Z2Nat.id by lia. clear. Z.to_euclidean_division_equations. lia. }
  eexists _, (r - pad4 (length o))%nat. split; [reflexivity|]. cbn [stdout]. split.
  - rewrite app_assoc.
    assert (forall e : entry, archive_bytes [e] = entry_bytes e) as He by (intros e; unfold archive_bytes; cbn [map concat]; apply app_nil_r).
    rewrite <- He, <- archive_bytes_app, <- Ho, <- app_assoc, <- replicate_add. do 3 f_equal. lia.
  - apply Nat2Z.inj. rewrite Nat2Z.inj_mod, length_app, length_replicate, Nat2Z.inj_add. unfold r. rewrite Z2Nat.id by lia.
    change (Z.of_nat 256) with 256. rewrite Zplus_mod_idemp_r. by rewrite Z.add_opp_diag_r.
Qed.

Context (stack : list Z).
Hypothesis stack_size : length stack = BUFFER.

Lemma archive_ok es s arg ch :
  arg_holds arg ch -> wrote es s -> size_ok (es ++ entries (length es) (arg_items arg ch)) ->
  exists s', archive sys fs_config stack cfg target (fst (split_eq arg)) (snd (split_eq arg)) s = Ok tt s'
    /\ wrote (es ++ entries (length es) (arg_items arg ch)) s'.
Proof.
  unfold arg_holds, arg_items. destruct (split_eq arg) as [start prefix]. cbn [fst snd]. intros (Hl & Hn & Hin) Hw Hz. destruct s as [o n t b u].
  destruct (in_buffer_start start stack stack_size Hl) as (b' & Eb & Hb).
  destruct (in_buffer_start prefix stack stack_size (proj2 (proj2 Hn))) as (u' & Eu & Hu).
  unfold archive. erewrite bind_ok by (apply write_in_ok, Eb). erewrite bind_ok by (apply write_out_ok, Eu).
  destruct (dir_appends sys fs_config cfg target memory ch (S BUFFER) start prefix) with (es := es) (s := State o n t b' u') as (s' & E & _ & _ & H); try done.
  - apply Forall_forall. intros c _. by apply all_nodes.
  - lia.
  - by exists s'.
Qed.

Lemma archive_args_ok argv chs es s :
  Forall2 arg_holds argv chs -> wrote es s -> size_ok (es ++ entries (length es) (all_items argv chs)) ->
  exists s', archive_args sys fs_config stack cfg target argv s = Ok tt s'
    /\ wrote (es ++ entries (length es) (all_items argv chs)) s'.
Proof.
  intros H. revert es s. induction H as [|arg ch argv chs Ha Hr IH]; intros es s Hw Hz; cbn [archive_args all_items] in *.
  - exists s. split; [done|]. cbn. by rewrite app_nil_r.
  - rewrite entries_app, app_assoc in Hz |- *. destruct (archive_ok es s arg ch Ha Hw (size_ok_app _ _ Hz)) as (s1 & E1 & H1).
    replace (length es + length (arg_items arg ch))%nat with (length (es ++ entries (length es) (arg_items arg ch))) in *
      by (rewrite length_app, entries_length; done).
    destruct (split_eq arg) as [start prefix]. destruct (IH _ s1 H1 Hz) as (s2 & E2 & H2). exists s2. split; [|done]. by erewrite bind_ok.
Qed.
End Main.

(** * Theorems *)

(** What [main] works on: the target directory, the name of the canned file if
    any, the directories, and the configuration read. *)
Definition configured (sys : system) (line_length : nat) (argv : list (list Z)) (target : option (list Z))
    (cfg : option (list fs_config_entry)) (args : list (list Z)) : Prop :=
  exists canned, options argv = (target, canned, args) /\ args <> []
    /\ match canned with
       | None => cfg = None
       | Some filename => exists content es, sys_open sys filename = Some content
           /\ read_canned_config line_length content = Some es /\ cfg = Some es
       end.

(** C5.  The archive.  For directories whose trees [chs] gives, with paths that
    fit into the buffers, mkbootfs exits 0; its output is as long as a multiple
    of 256, and is the cpio archive of every file, link and directory below
    them, in the order of strcmp, with the configured modes and inode numbers
    counted from 300000; read back, it gives these entries, unless a file is
    called TRAILER!!! itself. *)
Theorem main_archives sys fs_config stack line_length argv target cfg args chs :
  (forall n, sys_malloc sys n = true) -> length stack = BUFFER ->
  configured sys line_length argv target cfg args -> has_default cfg ->
  Forall2 (arg_holds sys) args chs ->
  let es := entries fs_config cfg target 0 (all_items args chs) in
  Z.of_nat (length (archive_bytes es)) + 512 < 2 ^ 31 ->
  exists s n, main sys fs_config stack line_length argv = Ok tt s
    /\ stdout s = archive_bytes es ++ entry_bytes (trailer fs_config cfg target (length es)) ++ replicate n 0
    /\ (length (stdout s) mod 256 = 0)%nat
    /\ (Forall (fun e => c_name e <> trailer_name) es -> read_archive (stdout s) = Some es).
Proof.
  intros Hm Hst (canned & Ho & Hne & Hc) Hd Hargs es Hz. unfold main. rewrite Ho.
  destruct (archive_args_ok sys fs_config cfg target Hm Hd stack Hst args chs [] (State [] 300000 0 [] []) Hargs) as (s1 & E1 & H1).
  - done.
  - cbn [app length]. unfold size_ok. fold es. lia.
  - cbn [app length] in H1. fold es in H1.
    destruct (eject_trailer_ok fs_config cfg target Hd es s1 H1 Hz) as (s2 & n & E2 & Eo & Hl).
    exists s2, n. split; [|split; [exact Eo|split; [exact Hl|]]].
    + destruct canned as [filename|].
      * destruct Hc as (content & ces & -> & Hr & ->). unfold mbind, M_bind. rewrite Hr. cbn [or_ub mret M_ret].
        destruct args as [|a args]; [done|]. cbn [mret M_ret]. rewrite E1. exact E2.
      * subst cfg. unfold mbind, M_bind. cbn [mret M_ret].
        destruct args as [|a args]; [done|]. cbn [mret M_ret]. rewrite E1. exact E2.
    + intros Hname. rewrite Eo. apply read_archive_of_bytes; [|apply trailer_ok|done|reflexivity].
      eapply entries_ok; [exact Hargs|]. fold es. lia.
Qed.

(** A directory "d" with a file and a directory that holds a link. *)
Definition example_tree : list (list Z * tree) :=
  [(bytes_of "init", File (Stat 0x81ed 1 1 2) (bytes_of "hi"));
   (bytes_of "sbin", Directory (Stat 0x41ed 0 0 4096) [(bytes_of "sh", Link (Stat 0xa1ff 0 0 7) (bytes_of "../init"))])].
Definition example_system : system := {|
  sys_lstat := fun p =>
    if bool_decide (p = bytes_of "d/init") then Some (Stat 0x81ed 1 1 2)
    else if bool_decide (p = bytes_of "d/sbin") then Some (Stat 0x41ed 0 0 4096)
    else if bool_decide (p = bytes_of "d/sbin/sh") then Some (Stat 0xa1ff 0 0 7) else None;
  sys_open := fun p => if bool_decide (p = bytes_of "d/init") then Some (bytes_of "hi") else None;
  sys_opendir := fun p =>
    if bool_decide (p = bytes_of "d") then Some (map bytes_of ["sbin"; "."; "root"; "init"; ".."])
    else if bool_decide (p = bytes_of "d/sbin") then Some (map bytes_of ["sh"; ".."; "."]) else None;
  sys_readlink := fun p => if bool_decide (p = bytes_of "d/sbin/sh") then Some (bytes_of "../init") else None;
  sys_malloc := fun _ => true |}.
Definition example_config (path : list Z) (dir : Z) (target : option (list Z)) (s : Z * Z * Z) : Z * Z * Z * Z :=
  let '(uid, gid, mode) := s in (uid, gid, mode, 0).

Lemma main_archives_witness : exists s,
  main example_system example_config (replicate BUFFER 0) 1024 [bytes_of "d=x"] = Ok tt s
  /\ read_archive (stdout s) = Some (entries example_config None None 0
       [(bytes_of "x/init", Stat 0x81ed 1 1 2, bytes_of "hi"); (bytes_of "x/sbin", Stat 0x41ed 0 0 4096, []);
        (bytes_of "x/sbin/sh", Stat 0xa1ff 0 0 7, bytes_of "../init")]).
Proof.
  assert (forall l m, forallb (fun b => negb (b =? 0)) l = true -> (length l <=? m)%nat = true -> no_nuls l /\ (length l <= m)%nat) as Hs.
  { intros l m H Hl. split; [|by apply Nat.leb_le]. apply Forall_forall. intros b Hb. rewrite forallb_forall in H.
    apply list_elem_of_In, H in Hb. by apply negb_true_iff, Z.eqb_neq in Hb. }
  assert (12 < BUFFER)%nat as Hb by (apply Nat.ltb_lt; reflexivity).
  assert (forall (ch : list (list Z * tree)) ns, map fst ch = ns -> bool_decide (Sorted compare_le ns) = true -> StronglySorted compare_le (map fst ch)) as Hsort.
  { intros ch ns -> H. apply Sorted_StronglySorted; [apply _|]. by apply bool_decide_eq_true in H. }
  destruct (main_archives example_system example_config (replicate BUFFER 0) 1024 [bytes_of "d=x"] None None [bytes_of "d=x"] [example_tree])
    as (s & n & E & _ & _ & H).
  - reflexivity.
  - apply length_replicate.
  - exists None. split; [reflexivity|]. split; [discriminate|reflexivity].
  - exact I.
  - apply Forall2_cons_2; [|apply Forall2_nil_2]. unfold arg_holds. change (split_eq (bytes_of "d=x")) with (bytes_of "d", bytes_of "x").
    cbv iota. split; [cbn; lia|]. split; [split; [|split]; [apply (Hs _ 1%nat); reflexivity|apply (Hs _ 1%nat); reflexivity|cbn; lia]|].
    split; [|split].
    + eexists. split; [reflexivity|]. split; [reflexivity|]. apply (bool_decide_eq_true_1 _). reflexivity.
    + by eapply Hsort.
    + apply Forall_cons_2; [|apply Forall_cons_2; [|apply Forall_nil_2]].
      * split; [apply (Hs _ 4%nat); reflexivity|]. split; [cbn; lia|]. split; [cbn; lia|]. cbn [holds].
        split; [reflexivity|]. split; [split; cbn; lia|]. split; [reflexivity|]. split; [reflexivity|]. split; [reflexivity|cbn; lia].
      * split; [apply (Hs _ 4%nat); reflexivity|]. split; [cbn; lia|]. split; [cbn; lia|]. cbn [holds].
        split; [reflexivity|]. split; [split; cbn; lia|]. split; [reflexivity|]. split; [|split].
        -- eexists. split; [reflexivity|]. split; [reflexivity|]. apply (bool_decide_eq_true_1 _). reflexivity.
        -- by eapply Hsort.
        -- split; [apply (Hs _ 2%nat); reflexivity|]. split; [cbn; lia|]. split; [cbn; lia|]. split; [|exact I].
           split; [reflexivity|]. split; [split; cbn; lia|]. split; reflexivity.
  - reflexivity.
  - exists s. split; [exact E|]. apply H. apply Forall_forall. intros e He. apply (bool_decide_eq_true_1 _).
    revert e He. apply Forall_forall. repeat (apply Forall_cons_2; [reflexivity|]). apply Forall_nil_2.
Defined.
