(* ===== verification/MkbootfsConfig.v ===== *)
(** * mkbootfs: termination and the canned configuration

    The recursion of the walk and every loop of mkbootfs.c end on every file
    system; a canned configuration that is printed reads back; and without a
    default entry no run succeeds. *)
From S2P Require Import Prelude Libc Digits Cpio Mkbootfs.

(** ** Termination *)

(** [m] ends, and does not make a path buffer longer. *)
Definition ends {A} (m : M A) : Prop := forall s, (length (in_ s) <= BUFFER)%nat ->
  match m s with Ok _ s' => (length (in_ s') <= BUFFER)%nat | Timeout => False | _ => True end.

Lemma ends_bind {A B} (m : M A) (f : A -> M B) : ends m -> (forall a, ends (f a)) -> ends (x ← m; f x).
Proof. intros Hm Hf s Hs. unfold mbind, M_bind. specialize (Hm s Hs). destruct (m s); try done. by apply Hf. Qed.
Lemma ends_ret {A} (a : A) : ends (mret a).
Proof. intros s Hs. exact Hs. Qed.
Lemma ends_get {A} (f : state -> A) : ends (get f).
Proof. intros s Hs. exact Hs. Qed.
Lemma ends_ub {A} : ends (@ub A).
Proof. intros s Hs. exact I. Qed.
Lemma ends_or_ub {A} (o : option A) : ends (or_ub o).
Proof. destruct o; [apply ends_ret|apply ends_ub]. Qed.
Lemma ends_fails {A} msg : ends (@fails A msg).
Proof. intros s Hs. exact I. Qed.
Lemma ends_put bs : ends (put bs).
Proof. intros [] Hs. exact Hs. Qed.
Lemma ends_set_total t : ends (set_total t).
Proof. intros [] Hs. exact Hs. Qed.
Lemma ends_take_inode : ends take_inode.
Proof. intros [] Hs. exact Hs. Qed.
Lemma ends_add_total n : ends (add_total n).
Proof. intros s Hs. unfold add_total, mbind, M_bind, get. destruct (_ && _); [|done]. by destruct s. Qed.
Lemma ends_write_out i w : ends (write_out i w).
Proof. intros [o n t b u] Hs. unfold write_out. by destruct (write_at i w u). Qed.
Create HintDb ends discriminated.
#[export] Hint Resolve ends_bind ends_ret ends_get ends_ub ends_or_ub ends_fails ends_put ends_set_total
  ends_take_inode ends_add_total ends_write_out : ends.

(** What follows a write into the path buffer may use that it fitted. *)
Lemma ends_write_in {A} i w (m : M A) : ((i + length w <= BUFFER)%nat -> ends m) -> ends (_ ← write_in i w; m).
Proof.
  intros Hm [o n t b u] Hs. cbn [in_] in Hs. unfold mbind, M_bind, write_in, write_at.
  destruct (Nat.leb_spec (i + length w) (length b)); [|done]. apply Hm; [lia|]. cbn [in_]. unfold set_window.
  rewrite !length_app, length_take, length_drop. lia.
Qed.

Lemma ends_pad_loop j fuel s :
  0 <= j -> (- total_size s) mod 2 ^ j < Z.of_nat fuel -> (length (in_ s) <= BUFFER)%nat ->
  match pad_loop fuel (Z.ones j) s with Ok _ s' => (length (in_ s') <= BUFFER)%nat | Timeout => False | _ => True end.
Proof.
  intros Hj. revert s. assert (0 < 2 ^ j) by lia.
  induction fuel as [|k IH]; intros [o n t b u] Hf Hs; cbn [total_size in_] in *.
  - pose proof (Z.mod_pos_bound (- t) (2 ^ j) ltac:(lia)). lia.
  - cbn [pad_loop]. unfold mbind, M_bind, get. cbn [total_size]. rewrite Z.land_ones by done.
    destruct (Z.eqb_spec (t mod 2 ^ j) 0); [done|]. unfold add_total, mbind, M_bind, get. cbn [total_size].
    destruct (_ && _); [|done]. cbn [set_total put]. apply IH; [|done]. cbn [total_size].
    pose proof (Z.mod_pos_bound t (2 ^ j) ltac:(lia)) as Hb. rewrite (Z.mod_opp_l_nz t) in Hf by lia.
    replace (- (t + 1)) with ((2 ^ j - t mod 2 ^ j - 1) + (- (t / 2 ^ j) - 1) * 2 ^ j) by (pose proof (Z.div_mod t (2 ^ j) ltac:(lia)); lia).
    rewrite Z.mod_add, Z.mod_small by lia. lia.
Qed.

Lemma ends_pad_to mask j : mask = Z.ones j -> 0 <= j <= 8 -> ends (pad_to mask).
Proof.
  intros -> Hj s Hs. apply ends_pad_loop; [lia| |done].
  pose proof (Z.mod_pos_bound (- total_size s) (2 ^ j) ltac:(lia)).
  assert (2 ^ j <= 2 ^ 8) by (apply Z.pow_le_mono_r; lia). change (Z.of_nat 257) with 257. lia.
Qed.

Section Ends.
Context (sys : system) (fs_config : list Z -> Z -> option (list Z) -> Z * Z * Z -> Z * Z * Z * Z).
Context (cfg : option (list fs_config_entry)) (target : option (list Z)).

Lemma ends_eject st out olen data size : ends (eject fs_config cfg target st out olen data size).
Proof.
  assert (ends (pad_to 3)) by (by apply (ends_pad_to 3 2)).
  unfold eject, die. repeat (apply ends_bind; [auto with ends|intros ?]); repeat case_match; auto with ends.
Qed.

Lemma ends_read_names dirents names size : ends (read_names sys dirents names size).
Proof.
  revert names size. induction dirents as [|d dirents IH]; intros names size; cbn [read_names]; [apply ends_ret|].
  cbv zeta. do 2 (destruct (bool_decide _); [apply IH|]). destruct (_ && (2 ^ 31 <=? _)); [apply ends_ub|].
  destruct (_ && negb _); [apply ends_fails|]. destruct (negb _); [apply ends_fails|]. apply IH.
Qed.

Lemma ends_archive_names node names ilen olen :
  (forall i o, (ilen < i < BUFFER)%nat -> ends (node i o)) -> ends (archive_names node names ilen olen).
Proof.
  intros Hn. induction names as [|name names IH]; cbn [archive_names]; [apply ends_ret|].
  apply ends_write_in. intros H1. apply ends_write_in. intros H2. rewrite length_app in H2. cbn [length] in H1, H2.
  apply ends_bind; [|intros ?; apply ends_write_in; intros _; auto with ends].
  destruct (0 <? olen)%nat; repeat (apply ends_bind; [apply ends_write_out|intros ?]); apply Hn; lia.
Qed.

Lemma ends_archive_node dir ilen olen : ends (dir ilen olen) -> ends (archive_node sys fs_config cfg target dir ilen olen).
Proof.
  intros Hd. unfold archive_node, die. apply ends_bind; [apply ends_bind; auto with ends|intros path].
  destruct (sys_lstat sys path) as [s|]; [|apply ends_fails]. apply ends_bind; [apply ends_get|intros out].
  destruct (S_ISREG (st_mode s)); [|destruct (S_ISDIR (st_mode s)); [|destruct (S_ISLNK (st_mode s)); [|apply ends_fails]]].
  - destruct (sys_open sys path) as [content|]; [|apply ends_fails]. destruct (negb (sys_malloc _ _)); [apply ends_fails|].
    cbv zeta. destruct (negb _); [apply ends_fails|apply ends_eject].
  - apply ends_bind; [apply ends_eject|intros _; exact Hd].
  - destruct (sys_readlink sys path) as [tg|]; [apply ends_eject|apply ends_fails].
Qed.

Lemma ends_archive_dir fuel ilen olen : (BUFFER - ilen < fuel)%nat -> ends (archive_dir sys fs_config cfg target fuel ilen olen).
Proof.
  revert ilen olen. induction fuel as [|k IH]; intros ilen olen Hf; [lia|]. cbn [archive_dir]. unfold die.
  apply ends_bind; [auto with ends|intros path]. destruct (sys_opendir sys path) as [dirents|]; [|auto with ends].
  destruct (sys_malloc sys (32 * 8)); cbn [negb]; [|auto with ends].
  apply ends_bind; [apply ends_read_names|intros names]. apply ends_archive_names. intros i o Hi.
  apply ends_archive_node, IH. lia.
Qed.

Context (stack : list Z).
Hypothesis stack_size : length stack = BUFFER.

Lemma ends_archive start prefix : ends (archive sys fs_config stack cfg target start prefix).
Proof.
  intros [o n t b u] _. unfold archive.
  refine ((_ : ends (_ ← write_in 0 (start ++ [0]); _ ← write_out 0 (prefix ++ [0]);
    archive_dir sys fs_config cfg target (S BUFFER) (length start) (length prefix))) (State o n t stack stack) _); [|cbn [in_]; lia].
  apply ends_write_in. intros _. apply ends_bind; [apply ends_write_out|]. intros _. apply ends_archive_dir. lia.
Qed.

Lemma ends_archive_args argv : ends (archive_args sys fs_config stack cfg target argv).
Proof.
  induction argv as [|arg argv IH]; cbn [archive_args]; [apply ends_ret|]. destruct (split_eq arg).
  apply ends_bind; [apply ends_archive|]. intros _. exact IH.
Qed.

Lemma ends_eject_trailer : ends (eject_trailer fs_config cfg target).
Proof. apply ends_bind; [apply ends_eject|]. intros _. by apply (ends_pad_to 0xff 8). Qed.
End Ends.

(** Every line read takes bytes of the file. *)
Lemma fgets_length n f l r : fgets n f = (l, r) -> length f = (length l + length r)%nat.
Proof.
  revert f l r. induction n as [|n IH]; intros f l r; [by intros [= <- <-]|].
  destruct f as [|b f]; [by intros [= <- <-]|]. cbn [fgets]. destruct (b =? 10); [by intros [= <- <-]|].
  destruct (fgets n f) as [l' r'] eqn:E. intros [= <- <-]. cbn [length]. by rewrite (IH _ _ _ E).
Qed.

Lemma canned_loop_fuel n k k' f :
  (length f < k)%nat -> (length f < k')%nat -> canned_loop n k f = canned_loop n k' f.
Proof.
  revert k' f. induction k as [|k IH]; intros k' f Hk Hk'; [lia|]. destruct k' as [|k']; [lia|]. cbn [canned_loop].
  destruct (fgets (n - 1) f) as [line r] eqn:E. apply fgets_length in E.
  destruct (bool_decide_reflect (line = [])) as [->|Hl]; [done|]. destruct line as [|b line]; [done|]. cbn [length] in E.
  destruct (c_string ((b :: line) ++ [0])) as [s|]; [|done]. cbn [mbind option_bind]. destruct (bool_decide (s = [])); [done|].
  destruct (canned_line s) as [e|]; [|done]. cbn [mbind option_bind]. by rewrite (IH k' r) by lia.
Qed.

(** ** A configuration printed *)

(** One line of a canned file, as a build writes it. *)
Definition print_line (e : fs_config_entry) : list Z :=
  fc_name e ++ [32] ++ fmt_d (fc_uid e) ++ [32] ++ fmt_d (fc_gid e) ++ [32] ++ fmt_o 4 (fc_mode e) ++ [10].

Lemma base_digit_range base b : base <= 10 -> is_base_digit base b = true -> 48 <= b <= 57.
Proof.
  unfold is_base_digit, digit_val, isdigit. intros Hb.
  destruct (Z.leb_spec 48 b), (Z.leb_spec b 57), (Z.leb_spec 97 b), (Z.leb_spec b 122), (Z.leb_spec 65 b), (Z.leb_spec b 90);
    cbn; rewrite ?Z.ltb_lt; (lia || discriminate).
Qed.

(** [strtol] of digits in a base up to ten. *)
Lemma strtol_digits s base v :
  1 < base <= 10 -> Forall (fun b => is_base_digit base b = true) s -> scan_digits base 0 s = v -> 0 <= v < 2 ^ 63 ->
  strtol s base = v.
Proof.
  intros Hb Hs Hv Hr. unfold strtol.
  assert (skip_spaces s = s /\ scan_sign s = (false, s) /\ skip_0x base s = s) as (-> & -> & E).
  { destruct s as [|d s]; [done|]. apply Forall_cons in Hs as [Hd _]. apply (base_digit_range base d) in Hd; [|lia].
    cbn [skip_spaces scan_sign]. unfold isspace.
    rewrite (proj2 (Z.eqb_neq d 32)), (proj2 (Z.leb_gt d 13)), andb_false_r, (proj2 (Z.eqb_neq d 45)), (proj2 (Z.eqb_neq d 43)) by lia.
    split; [done|]. split; [done|]. destruct s as [|x [|y s]]; [done|done|]. cbn [skip_0x].
    by rewrite (proj2 (Z.eqb_neq base 16)) by lia. }
  rewrite E, Hv. lia.
Qed.

Lemma fmt_d_digits v : 0 <= v -> fmt_d v = digits 20 10 v.
Proof. intros H. unfold fmt_d. by rewrite (proj2 (Z.ltb_ge v 0)). Qed.

Lemma atoi_fmt_d v : 0 <= v < 2 ^ 31 -> atoi (fmt_d v) = v.
Proof.
  intros H. rewrite fmt_d_digits by lia. unfold atoi.
  rewrite (strtol_digits _ 10 v); [|lia|apply digits_base; lia|apply scan_digits_digits; [lia|]|lia].
  - unfold s32. rewrite u32_small by (split; lia). by rewrite (proj2 (Z.ltb_lt _ _)) by lia.
  - split; [lia|]. apply Z.lt_trans with (2 ^ 31); [lia|reflexivity].
Qed.

Lemma strtol_fmt_o v : 0 <= v < 2 ^ 31 -> s32 (strtol (fmt_o 4 v) 8) = v.
Proof.
  intros H. unfold fmt_o, zero_pad. rewrite (strtol_digits _ 8 v); [|lia| | |lia].
  - unfold s32. rewrite u32_small by (split; lia). by rewrite (proj2 (Z.ltb_lt _ _)) by lia.
  - apply Forall_app. split; [by apply Forall_replicate|]. apply digits_base. lia.
  - rewrite scan_digits_zeros by lia. apply scan_digits_digits; [lia|].
    split; [lia|]. apply Z.lt_trans with (2 ^ 31); [lia|reflexivity].
Qed.

(** A token is what [strtok] gives before a delimiter. *)
Definition token (t : list Z) : Prop := t <> [] /\ Forall (fun b => b <> 0 /\ is_delim b = false) t.

Lemma until_delim_app t d r : Forall (fun b => b <> 0 /\ is_delim b = false) t -> is_delim d = true -> until_delim (t ++ d :: r) = (t, r).
Proof.
  intros Ht Hd. induction Ht as [|b t [_ Hb] _ IH]; cbn [app until_delim]; [by rewrite Hd|]. by rewrite Hb, IH.
Qed.

Lemma strtok_app t d r : token t -> is_delim d = true -> strtok (t ++ d :: r) = Some (t, r).
Proof.
  intros [Hne Ht] Hd. unfold strtok. destruct t as [|b t]; [done|]. pose proof Ht as Ht'. apply Forall_cons in Ht' as [[_ Hb] _].
  cbn [app skip_delims]. rewrite Hb. f_equal. apply (until_delim_app (b :: t)); done.
Qed.

Lemma digits_token base l :
  base <= 10 -> l <> [] -> Forall (fun b => is_base_digit base b = true) l -> token l.
Proof.
  intros Hb Hl H. split; [done|]. apply (Forall_impl _ _ _ H). intros b Hd. apply (base_digit_range base b) in Hd; [|done].
  unfold is_delim. rewrite (proj2 (Z.eqb_neq b 32)), (proj2 (Z.eqb_neq b 10)) by lia. split; [lia|done].
Qed.

Lemma digits_nonempty k base v : digits (S k) base v <> [].
Proof. cbn [digits]. intros H. apply app_eq_nil in H as [_ H]. discriminate H. Qed.

Lemma fmt_d_token v : 0 <= v -> token (fmt_d v).
Proof. intros H. rewrite fmt_d_digits by done. apply (digits_token 10); [lia|apply digits_nonempty|apply digits_base; lia]. Qed.

Lemma fmt_o_token v : token (fmt_o 4 v).
Proof.
  unfold fmt_o, zero_pad. apply (digits_token 8); [lia| |].
  - intros H. apply app_eq_nil in H as [_ H]. by apply digits_nonempty in H.
  - apply Forall_app. split; [by apply Forall_replicate|]. apply digits_base. lia.
Qed.

(** An entry a line can hold: a name without NUL and delimiters that does not
    begin with other white space, and numbers an [int] holds. *)
Definition entry_printable (line_length : nat) (e : fs_config_entry) : Prop :=
  Forall (fun b => b <> 0 /\ is_delim b = false) (fc_name e) /\ isspace (fc_name e !!! 0%nat) = false
  /\ 0 <= fc_uid e < 2 ^ 31 /\ 0 <= fc_gid e < 2 ^ 31 /\ 0 <= fc_mode e < 2 ^ 31
  /\ (length (print_line e) < line_length)%nat.

Lemma canned_line_print n e : entry_printable n e -> canned_line (print_line e) = Some e.
Proof.
  intros (Hn & Hs & Hu & Hg & Hm & _). destruct e as [name uid gid mode]. unfold print_line, canned_line. cbn [fc_name fc_uid fc_gid fc_mode] in *.
  assert (is_delim 32 = true /\ is_delim 10 = true) as [D32 D10] by done.
  assert (forall l : list Z, [32] ++ l = 32 :: l) as Hsp by done.
  assert ((if isspace ((name ++ [32] ++ fmt_d uid ++ [32] ++ fmt_d gid ++ [32] ++ fmt_o 4 mode ++ [10]) !!! 0%nat) then
             Some ([], name ++ [32] ++ fmt_d uid ++ [32] ++ fmt_d gid ++ [32] ++ fmt_o 4 mode ++ [10])
           else strtok (name ++ [32] ++ fmt_d uid ++ [32] ++ fmt_d gid ++ [32] ++ fmt_o 4 mode ++ [10]))
          = Some (name, (if bool_decide (name = []) then [32] else []) ++ fmt_d uid ++ [32] ++ fmt_d gid ++ [32] ++ fmt_o 4 mode ++ [10])) as ->.
  { destruct name as [|b name]; [reflexivity|]. change (((b :: name) ++ _) !!! 0%nat) with b. change ((b :: name) !!! 0%nat) with b in Hs.
    rewrite Hs, Hsp. rewrite strtok_app by done. reflexivity. }
  cbn [mbind option_bind]. rewrite !Hsp.
  assert (forall r, strtok ((if bool_decide (name = []) then [32] else []) ++ fmt_d uid ++ 32 :: r) = Some (fmt_d uid, r)) as ->.
  { intros r. destruct (bool_decide (name = [])); cbn [app].
    - unfold strtok. cbn [skip_delims]. rewrite D32. by apply strtok_app; [apply fmt_d_token; lia|].
    - by apply strtok_app; [apply fmt_d_token; lia|]. }
  cbn [mbind option_bind]. rewrite strtok_app by (done || (apply fmt_d_token; lia)). cbn [mbind option_bind].
  rewrite strtok_app by (done || apply fmt_o_token). cbn [mbind option_bind].
  by rewrite !atoi_fmt_d, strtol_fmt_o by done.
Qed.

(** [fgets] gives a line that fits. *)
Lemma fgets_line n l r :
  Forall (fun b => b <> 10) l -> (length l < n)%nat -> fgets n (l ++ 10 :: r) = (l ++ [10], r).
Proof.
  intros Hl. revert n. induction Hl as [|b l Hb Hl IH]; intros [|n] Hn; cbn [length app fgets] in *; try lia; [done|].
  rewrite (proj2 (Z.eqb_neq b 10)) by done. by rewrite IH by lia.
Qed.

Lemma print_line_shape n e :
  entry_printable n e -> exists l, print_line e = l ++ [10] /\ Forall (fun b => b <> 0 /\ b <> 10) l.
Proof.
  intros (Hn & _ & Hu & Hg & Hm & _). eexists. split; [unfold print_line; by rewrite !app_assoc|].
  assert (forall t, Forall (fun b => b <> 0 /\ is_delim b = false) t -> Forall (fun b => b <> 0 /\ b <> 10) t) as H.
  { intros t Ht. apply (Forall_impl _ _ _ Ht). intros b [H0 Hb]. split; [done|]. intros ->. discriminate Hb. }
  rewrite !Forall_app. split_and!;
    first [apply Forall_singleton; split; discriminate
          | apply H; first [exact Hn | apply (proj2 (fmt_o_token _)) | exact (proj2 (fmt_d_token _ (proj1 Hu))) | exact (proj2 (fmt_d_token _ (proj1 Hg)))]].
Qed.

Lemma canned_loop_print n k es :
  Forall (entry_printable n) es -> (length es < k)%nat -> canned_loop n k (concat (map print_line es)) = Some es.
Proof.
  intros H. revert k. induction H as [|e es He Hes IH]; intros [|k] Hk; try (cbn [length] in Hk; lia); cbn [map concat canned_loop].
  - by destruct (n - 1)%nat.
  - cbn [length] in Hk. destruct (print_line_shape n e He) as (l & El & Hl).
    assert (length (print_line e) < n)%nat as Hlen by apply He.
    assert (fgets (n - 1) (print_line e ++ concat (map print_line es)) = (print_line e, concat (map print_line es))) as ->.
    { rewrite El in Hlen |- *. rewrite length_app in Hlen. cbn [length] in Hlen. rewrite <- app_assoc. apply fgets_line; [|lia].
      apply (Forall_impl _ _ _ Hl). by intros b []. }
    assert (print_line e <> []) as Hne by (rewrite El; by destruct l).
    rewrite bool_decide_eq_false_2 by done.
    assert (c_string (print_line e ++ [0]) = Some (print_line e)) as ->.
    { apply c_string_app. rewrite El. apply Forall_app. split; [|by apply Forall_singleton].
      apply (Forall_impl _ _ _ Hl). by intros b []. }
    cbn [mbind option_bind]. rewrite bool_decide_eq_false_2, (canned_line_print n e He) by done. cbn [mbind option_bind].
    by rewrite IH by lia.
Qed.

Lemma concat_length_ge es n : Forall (entry_printable n) es -> (length es <= length (concat (map print_line es)))%nat.
Proof.
  induction 1 as [|e es He Hes IH]; [done|]. cbn [map concat length]. rewrite length_app.
  destruct (print_line_shape n e He) as (l & -> & _). rewrite length_app. cbn [length]. lia.
Qed.

(** * Theorems *)

(** C31.  mkbootfs ends on every file system, whatever its directories hold: a
    path grows at every level and the buffers are finite.  No line of a canned
    file is left over by the fuel its length gives. *)
Theorem main_terminates sys fs_config stack line_length argv :
  length stack = BUFFER ->
  main sys fs_config stack line_length argv <> Timeout
  /\ forall content k, (length content < k)%nat -> canned_loop line_length k content = read_canned_config line_length content.
Proof.
  intros Hst. split; [|intros content k Hk; apply canned_loop_fuel; lia].
  unfold main. destruct (options argv) as [[target canned] args].
  set (m := mbind _ _). assert (ends m) as H.
  { unfold m. apply ends_bind.
    - destruct canned as [f|]; [|apply ends_ret]. destruct (sys_open sys f); [|apply ends_fails].
      apply ends_bind; [apply ends_or_ub|intros; apply ends_ret].
    - intros cfg. apply ends_bind; [destruct args; [apply ends_fails|apply ends_ret]|]. intros _.
      apply ends_bind; [by apply ends_archive_args|]. intros _. apply ends_eject_trailer. }
  specialize (H (State [] 300000 0 [] []) ltac:(cbn; lia)). by destruct (m _).
Qed.

Lemma main_terminates_witness :
  main example_system example_config (replicate BUFFER 0) 1024 [bytes_of "/"] <> Timeout.
Proof. apply (main_terminates example_system example_config (replicate BUFFER 0) 1024 [bytes_of "/"]). apply length_replicate. Defined.

(** C37.  A canned configuration printed line by line is read back: names, owners
    and the octal modes. *)
Theorem canned_config_roundtrip line_length es :
  Forall (entry_printable line_length) es -> read_canned_config line_length (concat (map print_line es)) = Some es.
Proof. intros H. apply canned_loop_print; [done|]. pose proof (concat_length_ge es line_length H). lia. Qed.

Lemma canned_config_roundtrip_witness :
  read_canned_config 1024 (bytes_of "sbin/su 0 2000 4755" ++ [10] ++ bytes_of " 0 0 0644" ++ [10])
  = Some [FsConfigEntry (bytes_of "sbin/su") 0 2000 2541; FsConfigEntry [] 0 0 420].
Proof.
  apply (canned_config_roundtrip 1024 [FsConfigEntry (bytes_of "sbin/su") 0 2000 2541; FsConfigEntry [] 0 0 420]).
  apply Forall_cons_2; [|apply Forall_cons_2; [|apply Forall_nil_2]];
    (split; [|split; [reflexivity|]; split_and!; first [cbn; lia | apply Nat.ltb_lt; reflexivity]]).
  - repeat (apply Forall_cons_2; [split; [discriminate|reflexivity]|]). apply Forall_nil_2.
  - apply Forall_nil_2.
Defined.

(** A canned configuration without a line for all other names, which does
    not list TRAILER!!! either, lets no run succeed: at the latest the trailer
    makes [fix_stat] follow a null pointer. *)
Theorem canned_config_needs_default sys fs_config stack line_length argv target cfg args :
  configured sys line_length argv target (Some cfg) args ->
  Forall (fun e => fc_name e <> [] /\ fc_name e <> trailer_name) cfg ->
  match main sys fs_config stack line_length argv with Ok _ _ => False | _ => True end.
Proof.
  intros (canned & Ho & Hne & Hc) Hcfg. destruct canned as [filename|]; [|done].
  destruct Hc as (content & es & Hopen & Hread & [= <-]). unfold main. rewrite Ho. cbn [mbind M_bind].
  unfold mbind, M_bind. rewrite Hopen, Hread. cbn [or_ub mret M_ret]. destruct args as [|a args]; [done|]. cbn [mret M_ret].
  destruct (archive_args _ _ _ _ _ _ _) as [[] s1| | |]; try done.
  assert (find_config cfg None trailer_name = None) as Hf.
  { clear Hread. induction Hcfg as [|e es [H1 H2] _ IH]; [done|]. cbn [find_config]. by rewrite !bool_decide_eq_false_2. }
  unfold eject_trailer, eject, mbind, M_bind. destruct (pad_to 3 s1) as [[] s2| | |]; try done.
  change (c_string (trailer_name ++ [0])) with (Some trailer_name). cbn [or_ub mret M_ret].
  unfold fix_stat. rewrite Hf. done.
Qed.

Lemma canned_config_needs_default_witness :
  match main {| sys_lstat := fun _ => None; sys_open := fun _ => Some (bytes_of "init 0 0 755"); sys_opendir := fun _ => Some [];
                sys_readlink := fun _ => None; sys_malloc := fun _ => true |}
          example_config (replicate BUFFER 0) 1024 (map bytes_of ["-f"; "config"; "root"]) with
  | Ok _ _ => False
  | _ => True
  end.
Proof.
  apply (canned_config_needs_default _ _ _ _ _ None [FsConfigEntry (bytes_of "init") 0 0 493] [bytes_of "root"]).
  - exists (Some (bytes_of "config")). split; [reflexivity|]. split; [discriminate|].
    do 2 eexists. split; [reflexivity|]. split; reflexivity.
  - apply Forall_cons_2; [split; discriminate|apply Forall_nil_2].
Defined.
