(* ===== verification/Rsa.v ===== *)
(** * RSA signature verification: libmincrypt/rsa.c, include/mincrypt/rsa.h

    Montgomery multiplication, public exponentiation and the PKCS#1 v1.5
    check.  The local arrays of modpow are lists of [key->len] words; the
    hash context of [SHA_hash] is the argument [ctx]. *)
From S2P Require Import Prelude Modular Digits Hash Sha Sha256.
From Stdlib Require Import Zpow_facts.

Definition RSANUMBYTES : nat := 256.
Definition RSANUMWORDS : nat := 64.

Record RSAPublicKey := {
  len : Z;
  n0inv : Z;
  n : list Z;
  rr : list Z;
  exponent : Z
}.

(** The words of [key->n] that the loops visit. *)
Definition nwords (key : RSAPublicKey) : list Z := take (Z.to_nat (len key)) (n key).

(** [a[] -= mod]; the operands are converted to [uint64_t], the sum to [int64_t]. *)
Definition subM (key : RSAPublicKey) (a : list Z) : list Z :=
  fst (digit_loop (fun A x y => s64 (u64 (u64 A + u64 (x - y)))) 0 a (nwords key)).

(** [a[] >= mod], from the most significant word. *)
Fixpoint geM_loop (a n : list Z) : bool :=
  match a, n with
  | x :: a, y :: n => if x <? y then false else if x >? y then true else geM_loop a n
  | _, _ => true
  end.
Definition geM (key : RSAPublicKey) (a : list Z) : bool := geM_loop (rev a) (rev (nwords key)).

(** The loop of montMulAdd from [i = 1]: the words stored from [c[0]], and the
    last [A] and [B]. *)
Fixpoint montMulAdd_loop (a d0 A B : Z) (b n c : list Z) : list Z * Z * Z :=
  match b, n, c with
  | bi :: b, ni :: n, ci :: c =>
      let A := u64 (u64 ((A >> 32) + u64 (a * bi)) + ci) in
      let B := u64 (u64 ((B >> 32) + u64 (d0 * ni)) + u32 A) in
      let '(r, A', B') := montMulAdd_loop a d0 A B b n c in (u32 B :: r, A', B')
  | _, _, _ => ([], A, B)
  end.

Definition montMulAdd (key : RSAPublicKey) (c : list Z) (a : Z) (b : list Z) : list Z :=
  let nw := nwords key in
  let A := u64 (u64 (a * b !!! 0%nat) + c !!! 0%nat) in
  let d0 := u32 (u32 A * n0inv key) in
  let B := u64 (u64 (d0 * nw !!! 0%nat) + u32 A) in
  let '(r, A, B) := montMulAdd_loop a d0 A B (drop 1 b) (drop 1 nw) (drop 1 c) in
  let A := u64 ((A >> 32) + (B >> 32)) in
  let c := r ++ [u32 A] in
  if negb (A >> 32 =? 0) then subM key c else c.

Definition montMul (key : RSAPublicKey) (a b : list Z) : list Z :=
  for_ 0 (Z.to_nat (len key)) (fun i c => montMulAdd key c (a !!! i) b)
    (replicate (Z.to_nat (len key)) 0).

(** The word array of a big-endian byte string. *)
Definition words_of_be (l : nat) (inout : list Z) : list Z :=
  map (fun i => let p := ((l - 1 - i) * 4)%nat in
    be_word (inout !!! (p + 0)%nat) (inout !!! (p + 1)%nat) (inout !!! (p + 2)%nat) (inout !!! (p + 3)%nat))
    (seq 0 l).

(** [aaa] of modpow, for the two exponents; [None] is the null pointer. *)
Definition pow_words (key : RSAPublicKey) (a : list Z) : option (list Z) :=
  if exponent key =? 65537 then
    let aR := montMul key a (rr key) in
    let aR := for_ 0 8 (fun _ aR => let aaR := montMul key aR aR in montMul key aaR aaR) aR in
    Some (montMul key aR a)
  else if exponent key =? 3 then
    let aR := montMul key a (rr key) in
    let aaR := montMul key aR aR in
    Some (montMul key aaR a)
  else None.

Definition modpow (key : RSAPublicKey) (inout : list Z) : option (list Z) :=
  aaa ← pow_words key (words_of_be (Z.to_nat (len key)) inout);
  let aaa := if geM key aaa then subM key aaa else aaa in
  Some (flat_map be_bytes4 (rev aaa)).

(** The paddings of the two comments. *)
Definition sha_padding : list Z :=
  [0x00; 0x01] ++ replicate 218 0xff
  ++ [0x00; 0x30; 0x21; 0x30; 0x09; 0x06; 0x05; 0x2b; 0x0e; 0x03; 0x02; 0x1a; 0x05; 0x00; 0x04; 0x14]
  ++ replicate SHA_DIGEST_SIZE 0.

Definition sha256_padding : list Z :=
  [0x00; 0x01] ++ replicate 202 0xff
  ++ [0x00; 0x30; 0x31; 0x30; 0x0d; 0x06; 0x09; 0x60; 0x86; 0x48; 0x01; 0x65; 0x03; 0x04; 0x02; 0x01;
      0x05; 0x00; 0x04; 0x20]
  ++ replicate SHA256_DIGEST_SIZE 0.

Definition kExpectedPadShaRsa2048 : list Z := [
  0xdc; 0xbd; 0xbe; 0x42; 0xd5; 0xf5; 0xa7; 0x2e;
  0x6e; 0xfc; 0xf5; 0x5d; 0xaf; 0x9d; 0xea; 0x68;
  0x7c; 0xfb; 0xf1; 0x67 ].

Definition kExpectedPadSha256Rsa2048 : list Z := [
  0xab; 0x28; 0x8d; 0x8a; 0xd7; 0xd9; 0x59; 0x92;
  0xba; 0xcc; 0xf8; 0x67; 0x20; 0xe1; 0x15; 0x2e;
  0x39; 0x8d; 0x80; 0x36; 0xd6; 0x6f; 0xf0; 0xfd;
  0x90; 0xe8; 0x7d; 0x8b; 0xe1; 0x7c; 0x87; 0x59 ].

(** [buf[i] ^= *hash++] over the last [length hash] bytes of [buf]. *)
Definition xor_tail (buf hash : list Z) : list Z :=
  let k := (length buf - length hash)%nat in
  take k buf ++ zip_with Z.lxor (drop k buf) hash.

(** [len] and [hash_len] are the lengths of the two byte strings; [None] is
    an access through a null pointer. *)
Definition RSA_verify (ctx : HASH_CTX) (key : RSAPublicKey) (signature hash : list Z) : option Z :=
  let hash_len := length hash in
  if negb (len key =? Z.of_nat RSANUMWORDS) then Some 0 else
  if negb (length signature =? RSANUMBYTES)%nat then Some 0 else
  if negb (hash_len =? SHA_DIGEST_SIZE)%nat && negb (hash_len =? SHA256_DIGEST_SIZE)%nat then Some 0 else
  if negb (exponent key =? 3) && negb (exponent key =? 65537) then Some 0 else
  buf ← modpow key signature;
  let buf := xor_tail buf hash in
  let '(buf, padding_hash) :=
    if (hash_len =? SHA_DIGEST_SIZE)%nat
    then (SHA_hash ctx buf, kExpectedPadShaRsa2048)
    else (SHA256_hash ctx buf, kExpectedPadSha256Rsa2048) in
  Some (if forallb (fun i => buf !!! i =? padding_hash !!! i) (seq 0 hash_len) then 1 else 0).

(** * Specification *)

(** The modulus, and the Montgomery radix of its length. *)
Definition modulus (key : RSAPublicKey) : Z := eval (nwords key).
Definition radix (key : RSAPublicKey) : Z := 2 ^ (32 * len key).

(** A key as the tools that write it promise: an odd modulus of [len] words
    with its top bit set, [n0inv] and [rr] as the header comments say. *)
Record key_ok (key : RSAPublicKey) : Prop := {
  key_len : 0 < len key <= Z.of_nat RSANUMWORDS;
  key_n : words 32 (n key) /\ length (n key) = RSANUMWORDS;
  key_rr : words 32 (rr key) /\ length (rr key) = Z.to_nat (len key);
  key_n0inv : is_word 32 (n0inv key) /\ (n0inv key * n key !!! 0%nat + 1) mod 2 ^ 32 = 0;
  key_R2 : eval (rr key) mod modulus key = radix key ^ 2 mod modulus key;
  key_top : radix key <= 2 * modulus key
}.

(** The digest the last argument selects, and the template hashed with it. *)
Definition pad_digest (hash : list Z) (m : list Z) : list Z :=
  if (length hash =? SHA_DIGEST_SIZE)%nat then Sha1Spec.SHA1 m else Sha256Spec.SHA256 m.
Definition padding_of (hash : list Z) : list Z :=
  if (length hash =? SHA_DIGEST_SIZE)%nat then sha_padding else sha256_padding.

(** EMSA-PKCS1-v1_5 of RFC 8017: the template with the hash in its place. *)
Definition encoded_message (hash : list Z) : list Z :=
  take (RSANUMBYTES - length hash) (padding_of hash) ++ hash.

(** I2OSP: [k] bytes, most significant first. *)
Definition i2osp (k : nat) (v : Z) : list Z := rev (le_digits 8 k v).

(** * Lemmas *)

Lemma land_low x : is_word 32 (u32 x). Proof. auto with words. Qed.

Lemma acc_bound a b c k :
  is_word 32 a -> is_word 32 b -> is_word 32 c -> 0 <= k <= 2 ^ 32 - 1 ->
  0 <= k + a * b + c < 2 ^ 64.
Proof. unfold is_word. intros. assert (0 <= a * b <= (2 ^ 32 - 1) * (2 ^ 32 - 1)) by nia. lia. Qed.

(** The 64-bit accumulators never wrap. *)
Lemma acc_exact a b c k :
  is_word 32 a -> is_word 32 b -> is_word 32 c -> 0 <= k <= 2 ^ 32 - 1 ->
  u64 (u64 (k + u64 (a * b)) + c) = k + a * b + c.
Proof.
  intros Ha Hb Hc Hk. pose proof (acc_bound a b c k Ha Hb Hc Hk). unfold is_word in *.
  assert (0 <= a * b) by nia.
  rewrite (u64_small (a * b)), (u64_small (k + a * b)) by (unfold is_word; lia). apply u64_small. unfold is_word. lia.
Qed.

Lemma high_bound x : 0 <= x < 2 ^ 64 -> 0 <= x >> 32 <= 2 ^ 32 - 1.
Proof.
  intros. rewrite Z.shiftr_div_pow2 by lia.
  split; [apply Z.div_pos; lia | apply Z.lt_succ_r, Z.div_lt_upper_bound; lia].
Qed.

Lemma high_low x : x = 2 ^ 32 * (x >> 32) + u32 x.
Proof. rewrite Z.shiftr_div_pow2, u32_mod by lia. apply Z.div_mod. lia. Qed.

Lemma montMulAdd_loop_spec a d0 :
  is_word 32 a -> is_word 32 d0 ->
  forall b n c A B r A' B', words 32 b -> words 32 n -> words 32 c ->
  length b = length n -> length c = length n -> 0 <= A < 2 ^ 64 -> 0 <= B < 2 ^ 64 ->
  montMulAdd_loop a d0 A B b n c = (r, A', B') ->
  words 32 r /\ length r = length n /\ 0 <= A' < 2 ^ 64 /\ 0 <= B' < 2 ^ 64
  /\ eval r + 2 ^ (32 * Z.of_nat (length n)) * ((A' >> 32) + (B' >> 32))
     = (A >> 32) + (B >> 32) + a * eval b + d0 * eval n + eval c.
Proof.
  intros Ha Hd. induction b as [|x b IH]; intros [|y n] [|z c] A B r A' B' Hb Hn Hc Hl1 Hl2 HA HB E;
    try discriminate Hl1; try discriminate Hl2.
  - injection E as <- <- <-. cbn [le_eval length]. rewrite Z.mul_0_r. split_and!; (done || lia).
  - inv_words. cbn [montMulAdd_loop] in E. cbv zeta in E.
    pose proof (high_bound A HA) as HkA. pose proof (high_bound B HB) as HkB.
    rewrite (acc_exact a x z) in E by done. set (A1 := (A >> 32) + a * x + z) in *.
    rewrite (acc_exact d0 y (u32 A1)) in E by (done || apply u32_range). set (B1 := (B >> 32) + d0 * y + u32 A1) in *.
    destruct (montMulAdd_loop a d0 A1 B1 b n c) as [[r' A2] B2] eqn:E'. injection E as <- <- <-.
    apply IH in E' as (Hr & Hlr & HA2 & HB2 & Ev); [|done|done|done|by injection Hl1|by injection Hl2| |].
    + split_and!; [constructor; auto with words | cbn; lia | lia.. |].
      cbn [le_eval length]. rewrite Nat2Z.inj_succ, Z.mul_succ_r, Z.add_comm, Z.pow_add_r by lia.
      pose proof (high_low A1) as EA. pose proof (high_low B1) as EB. subst A1 B1. nia.
    + by apply acc_bound.
    + apply acc_bound; (done || apply u32_range).
Qed.

(** ** Big-endian bytes *)

Lemma be_eval_app x y : be_eval 8 (x ++ y) = 2 ^ (8 * Z.of_nat (length y)) * be_eval 8 x + be_eval 8 y.
Proof. unfold be_eval. rewrite rev_app_distr, le_eval_app, length_rev by lia. ring. Qed.

Lemma be_chunks l p :
  length p = (4 * l)%nat ->
  eval (rev (map (fun t => be_eval 8 (take 4 (drop (4 * t) p))) (seq 0 l))) = be_eval 8 p.
Proof.
  revert p. induction l as [|l IH]; intros p Hl; [by destruct p|].
  cbn [seq map rev]. rewrite <- seq_shift, map_map, eval_snoc, length_rev, length_map, length_seq.
  replace (be_eval 8 p) with (be_eval 8 (take 4 p ++ drop 4 p)) by (by rewrite take_drop).
  rewrite be_eval_app, <- (IH (drop 4 p)), length_drop, Hl
    by (rewrite length_drop; lia).
  replace (8 * Z.of_nat (4 * S l - 4)) with (32 * Z.of_nat l) by lia.
  rewrite Z.add_comm. f_equal. f_equal. f_equal. apply map_ext. intros t. rewrite drop_drop. do 3 f_equal. lia.
Qed.

Lemma map_seq_rev {A} (g : nat -> A) l :
  map (fun i => g (l - 1 - i)%nat) (seq 0 l) = rev (map g (seq 0 l)).
Proof.
  induction l as [|l IH]; [done|]. transitivity (g l :: rev (map g (seq 0 l))).
  - rewrite <- IH. cbn [seq map]. rewrite <- seq_shift, map_map. f_equal; [f_equal; lia|].
    apply map_ext. intros i. f_equal. lia.
  - by rewrite seq_S, map_app, rev_app_distr.
Qed.

Lemma words_of_be_spec l p :
  words 8 p -> length p = (4 * l)%nat ->
  words 32 (words_of_be l p) /\ length (words_of_be l p) = l /\ eval (words_of_be l p) = be_eval 8 p.
Proof.
  intros Hp Hl. split_and!.
  - apply Forall_map, Forall_forall. intros i _. apply u32_range.
  - unfold words_of_be. by rewrite length_map, length_seq.
  - rewrite <- (be_chunks l p Hl), <- (be_word_array p l Hp) by lia. f_equal. unfold words_of_be.
    rewrite <- map_seq_rev. apply map_ext. intros i. rewrite Nat.add_0_r. f_equal; f_equal; lia.
Qed.

Lemma be_bytes4_spec w : is_word 32 w -> be_bytes4 w = rev (le_digits 8 4 w).
Proof.
  intros Hw. cbn [le_digits rev app]. unfold be_bytes4. rewrite !u8_mod, !Z.shiftr_div_pow2, !Z.div_div by lia.
  by rewrite Z.div_1_r.
Qed.

Lemma bytes_of_words_spec l :
  words 32 l ->
  words 8 (flat_map be_bytes4 (rev l)) /\ length (flat_map be_bytes4 (rev l)) = (4 * length l)%nat
  /\ be_eval 8 (flat_map be_bytes4 (rev l)) = eval l.
Proof.
  induction l as [|x l IH] using rev_ind; intros H; [done|].
  apply Forall_app in H as [Hl Hx]. inv_words. destruct (IH Hl) as (H1 & H2 & H3).
  rewrite rev_unit. cbn [flat_map]. rewrite be_bytes4_spec by done. split_and!.
  - apply words_app; [|done]. apply Forall_rev, le_digits_words. lia.
  - rewrite !length_app, H2, length_rev, le_digits_length. cbn. lia.
  - rewrite be_eval_app, H2, H3, eval_snoc. unfold be_eval. rewrite rev_involutive, le_eval_digits by lia.
    rewrite Z.mod_small by (unfold is_word in *; lia). rewrite Nat2Z.inj_mul, Z.mul_assoc. change (8 * Z.of_nat 4) with 32. ring.
Qed.

(** The bytes of a number are determined by their count and value. *)
Lemma i2osp_eval b : words 8 b -> i2osp (length b) (be_eval 8 b) = b.
Proof.
  intros Hb. unfold i2osp, be_eval. rewrite <- length_rev, le_digits_eval by (lia || by apply Forall_rev).
  apply rev_involutive.
Qed.

Lemma i2osp_length k v : length (i2osp k v) = k.
Proof. unfold i2osp. by rewrite length_rev, le_digits_length. Qed.
Lemma i2osp_words k v : words 8 (i2osp k v).
Proof. apply Forall_rev, le_digits_words. lia. Qed.

Section key.
Context (key : RSAPublicKey) (Hkey : key_ok key).
#[local] Abbreviation L := (Z.to_nat (len key)).
#[local] Abbreviation N := (modulus key).

Lemma L_eq : len key = Z.of_nat L.
Proof. destruct (key_len _ Hkey). lia. Qed.

Lemma L_pos : (0 < L <= 64)%nat.
Proof. destruct (key_len _ Hkey). unfold RSANUMWORDS in *. lia. Qed.

Lemma nwords_ok : words 32 (nwords key) /\ length (nwords key) = L.
Proof.
  destruct (key_n _ Hkey) as [Hw Hl]. split; [by apply Forall_take|].
  unfold nwords. rewrite length_take, Hl. pose proof L_pos. unfold RSANUMWORDS. lia.
Qed.

Lemma radix_eq : radix key = 2 ^ (32 * Z.of_nat L).
Proof. unfold radix. by rewrite <- L_eq. Qed.

Lemma modulus_bound : radix key <= 2 * N /\ 0 < N < radix key.
Proof.
  destruct nwords_ok as [Hw Hl]. pose proof (eval_bound _ Hw) as H. rewrite Hl, <- radix_eq in H.
  pose proof (key_top _ Hkey).
  assert (0 < radix key) by (rewrite radix_eq; apply Z.pow_pos_nonneg; lia). unfold modulus in *. lia.
Qed.

Lemma nwords_first : nwords key !!! 0%nat = n key !!! 0%nat.
Proof.
  unfold nwords. destruct (n key) as [|x l]; [by rewrite take_nil|].
  destruct L eqn:E; [pose proof L_pos; lia | done].
Qed.

Lemma modulus_odd : Z.odd N = true.
Proof.
  destruct (key_n0inv _ Hkey) as [_ H]. rewrite <- nwords_first in H. destruct nwords_ok as [_ Hl].
  unfold modulus. destruct (nwords key) as [|x l]; [pose proof L_pos; cbn in Hl; lia|].
  cbn [lookup_total list_lookup_total le_eval] in *.
  apply Z.mod_divide in H as [k Ek]; [|lia].
  assert (Z.odd (n0inv key * x) = true) as Ho.
  { replace (n0inv key * x) with (2 * (2 ^ 31 * k - 1) + 1) by lia. by rewrite Z.add_comm, Z.odd_add_mul_2. }
  rewrite Z.odd_mul in Ho. apply andb_prop in Ho as [_ Ho].
  replace (2 ^ 32 * eval l) with (2 * (2 ^ 31 * eval l)) by lia. by rewrite Z.odd_add_mul_2.
Qed.

Lemma rsa_subM_spec a :
  words 32 a -> length a = L ->
  words 32 (subM key a) /\ length (subM key a) = L
  /\ eval (subM key a) = (eval a - N) mod radix key.
Proof.
  intros Ha Hl. destruct nwords_ok as [Hn Hln]. unfold subM.
  destruct (digit_loop _ 0 a (nwords key)) as [r k] eqn:E.
  eapply (digit_loop_spec _ 1 (-1) (-1) 0) in E as (Hr & Hlr & Hk & Ev); [|..]; try done; try congruence; [|].
  - rewrite Hl in *. split_and!; [done..|]. cbn [fst].
    pose proof (eval_bound _ Hr) as Br. rewrite Hlr, <- radix_eq in Br. rewrite <- radix_eq in Ev.
    unfold modulus. apply Z.mod_unique with k; [lia|]. lia.
  - unfold is_word. intros k' x y Hk Hx Hy.
    assert (s64 (u64 (u64 k' + u64 (x - y))) = k' + (x - y)) as ->.
    { transitivity (s64 (k' + (x - y))); [|apply s64_small; lia]. unfold s64.
      rewrite !u64_mod, <- Zplus_mod, Z.mod_mod by lia. done. }
    split; [ring|]. assert (- 2 ^ 32 <= k' + (x - y) < 2 ^ 32) by lia.
    replace (k' + 1 * x + -1 * y) with (k' + (x - y)) by ring.
    split; [apply Z.div_le_lower_bound; lia | apply Z.lt_succ_r, Z.div_lt_upper_bound; lia].
Qed.

Lemma geM_loop_spec a m :
  words 32 a -> words 32 m -> length a = length m ->
  geM_loop (rev a) (rev m) = (eval m <=? eval a).
Proof.
  revert m. induction a as [|x a IH] using rev_ind; intros m Ha Hm Hl.
  { destruct m; [done|discriminate Hl]. }
  destruct m as [|y m _] using rev_ind; [rewrite length_app in Hl; cbn in Hl; lia|].
  rewrite !length_app in Hl. cbn [length] in Hl. apply Forall_app in Ha as [Ha Hx], Hm as [Hm Hy].
  inv_words. rewrite !rev_unit. cbn [geM_loop]. rewrite !eval_snoc, IH by (done || lia).
  pose proof (eval_bound _ Ha) as Ba. pose proof (eval_bound _ Hm) as Bm.
  assert (length a = length m) as E by lia. rewrite E in *. set (B := 2 ^ (32 * Z.of_nat (length m))) in *.
  rewrite Z.gtb_ltb. destruct (Z.ltb_spec x y); [symmetry; apply Z.leb_gt; nia|].
  destruct (Z.ltb_spec y x); [symmetry; apply Z.leb_le; nia|]. replace y with x by lia.
  destruct (Z.leb_spec (eval m) (eval a)), (Z.leb_spec (eval m + B * x) (eval a + B * x)); (done || lia).
Qed.

Lemma geM_spec a : words 32 a -> length a = L -> geM key a = (N <=? eval a).
Proof.
  intros Ha Hl. destruct nwords_ok as [Hn Hln]. unfold geM. rewrite geM_loop_spec; [done..|congruence].
Qed.

(** The quotient digit makes the low word vanish. *)
Lemma low_word_vanishes x :
  (u32 (u32 x * n0inv key) * n key !!! 0%nat + u32 x) mod 2 ^ 32 = 0.
Proof.
  destruct (key_n0inv _ Hkey) as [_ H]. rewrite !u32_mod.
  rewrite <- Zplus_mod_idemp_l, Zmult_mod_idemp_l, Zplus_mod_idemp_l.
  replace ((x mod 2 ^ 32) * n0inv key * n key !!! 0%nat + x mod 2 ^ 32)
    with ((x mod 2 ^ 32) * (n0inv key * n key !!! 0%nat + 1)) by ring.
  by rewrite <- Zmult_mod_idemp_r, H, Z.mul_0_r.
Qed.

Lemma acc_first a b c :
  is_word 32 a -> is_word 32 b -> is_word 32 c ->
  u64 (u64 (a * b) + c) = a * b + c /\ 0 <= a * b + c < 2 ^ 64.
Proof.
  intros Ha Hb Hc. pose proof (acc_bound a b c 0 Ha Hb Hc ltac:(lia)).
  unfold is_word in *. assert (0 <= a * b) by nia.
  rewrite (u64_small (a * b)) by (unfold is_word; lia). split; [apply u64_small; unfold is_word|]; lia.
Qed.

(** One row before the conditional subtraction: the words, the carry [t] out
    of them, and the multiple [d] of the modulus that was added. *)
Lemma montMulAdd_row c a b :
  words 32 c -> length c = L -> words 32 b -> length b = L -> is_word 32 a ->
  exists w t d, montMulAdd key c a b = (if negb (t =? 0) then subM key w else w)
    /\ words 32 w /\ length w = L /\ is_word 32 d /\ 0 <= t
    /\ 2 ^ 32 * (eval w + radix key * t) = eval c + a * eval b + d * N.
Proof.
  intros Hc Hlc Hb Hlb Ha. destruct nwords_ok as [Hn Hln].
  pose proof nwords_first as Hn0. unfold montMulAdd, modulus. rewrite radix_eq.
  destruct (nwords key) as [|n0 ns]; [pose proof L_pos; cbn in Hln; lia|].
  destruct b as [|b0 bs]; [cbn in Hln, Hlb; lia|]. destruct c as [|c0 cs]; [cbn in Hln, Hlc; lia|].
  cbn [lookup_total list_lookup_total drop length] in *. rewrite !drop_0. inv_words.
  destruct (acc_first a b0 c0) as [-> BA]; [done..|]. set (A := a * b0 + c0) in *.
  pose proof (low_word_vanishes A) as Hlow. rewrite <- Hn0 in Hlow.
  set (d0 := u32 (u32 A * n0inv key)) in *. assert (is_word 32 d0) as Hd by apply u32_range.
  destruct (acc_first d0 n0 (u32 A)) as [-> BB]; [done|done|apply u32_range|]. set (B := d0 * n0 + u32 A) in *.
  destruct (montMulAdd_loop a d0 A B bs ns cs) as [[r A'] B'] eqn:E.
  apply montMulAdd_loop_spec in E as (Hr & Hlr & HA' & HB' & Ev); try done; try lia.
  pose proof (high_bound A' HA'). pose proof (high_bound B' HB').
  cbv zeta. rewrite (u64_small ((A' >> 32) + _)) by (unfold is_word; lia). set (T := (A' >> 32) + (B' >> 32)) in *.
  exists (r ++ [u32 T]), (T >> 32), d0. split; [done|].
  split; [apply words_app; [done|]; constructor; auto with words|].
  split; [rewrite length_app; cbn [length]; lia|]. split; [done|].
  split; [rewrite Z.shiftr_div_pow2 by lia; apply Z.div_pos; lia|].
  rewrite eval_snoc, Hlr. pose proof (high_low T) as ET. pose proof (high_low A) as EA.
  pose proof (high_low B) as EB. rewrite u32_mod, Hlow in EB.
  replace (2 ^ (32 * Z.of_nat L)) with (2 ^ 32 * 2 ^ (32 * Z.of_nat (length ns)))
    by (rewrite <- Z.pow_add_r by lia; f_equal; lia).
  cbn [le_eval]. subst A B. nia.
Qed.

Lemma montMulAdd_spec c a b :
  words 32 c -> length c = L -> words 32 b -> length b = L -> is_word 32 a ->
  words 32 (montMulAdd key c a b) /\ length (montMulAdd key c a b) = L
  /\ 2 ^ 32 * eval (montMulAdd key c a b) =[N] eval c + a * eval b.
Proof.
  intros Hc Hlc Hb Hlb Ha. pose proof modulus_bound as [_ BN].
  pose proof (eval_bound _ Hc) as Bc. pose proof (eval_bound _ Hb) as Bb.
  rewrite Hlc, <- radix_eq in Bc. rewrite Hlb, <- radix_eq in Bb.
  destruct (montMulAdd_row c a b) as (w & t & d & -> & Hw & Hl & Hd & Ht & E); [done..|].
  pose proof (eval_bound _ Hw) as Bw. rewrite Hl, <- radix_eq in Bw.
  destruct (Z.eqb_spec t 0) as [E0|E0]; cbn [negb].
  - split_and!; [done..|]. apply eqm_add_multiple with d. rewrite E0 in E. lia.
  - destruct (rsa_subM_spec w Hw Hl) as (Hw' & Hl' & Ev'). split_and!; [done..|].
    set (R := radix key) in *. set (cv := eval c) in *. set (bv := eval b) in *. set (W := eval w) in *.
    unfold is_word in Ha, Hd.
    assert (a * bv <= (2 ^ 32 - 1) * (R - 1)) by nia. assert (d * N <= (2 ^ 32 - 1) * (N - 0)) by nia.
    assert (t = 1) as -> by nia.
    rewrite <- (Z.mod_unique (W - N) R (-1) (W - N + R)) in Ev' by lia.
    rewrite Ev'. apply eqm_add_multiple with (d - 2 ^ 32). lia.
Qed.

Lemma montMul_spec a b :
  words 32 a -> length a = L -> words 32 b -> length b = L ->
  words 32 (montMul key a b) /\ length (montMul key a b) = L
  /\ radix key * eval (montMul key a b) =[N] eval a * eval b.
Proof.
  intros Ha Hla Hb Hlb. unfold montMul.
  set (P i c := words 32 c /\ length c = L /\ 2 ^ (32 * Z.of_nat i) * eval c =[N] eval (take i a) * eval b).
  assert (P L (for_ 0 L (fun i c => montMulAdd key c (a !!! i) b) (replicate L 0))) as (H1 & H2 & H3).
  { apply (for_inv P _ L 0).
    - split_and!; [by apply Forall_replicate | by rewrite length_replicate|].
      rewrite eval_zeros, take_0. cbn [le_eval]. by rewrite Z.mul_0_r.
    - intros i c Hi (Hc & Hl & E). 
      destruct (montMulAdd_spec c (a !!! i) b) as (Hw & Hl' & E'); [done..|by apply words_lookup_total|].
      split_and!; [done..|]. rewrite (take_S_r a i (a !!! i)) by (apply list_lookup_lookup_total_lt; lia).
      rewrite eval_snoc, length_take, Nat.min_l by lia.
      rewrite Nat2Z.inj_succ, Z.mul_succ_r, Z.pow_add_r, <- Z.mul_assoc, E' by lia.
      rewrite Z.mul_add_distr_l, E. apply eqm_eq_refl. ring. }
  split_and!; [done..|]. rewrite take_ge in H3 by lia. by rewrite <- radix_eq in H3.
Qed.

(** [v] holds [x] in Montgomery form. *)
Definition mont (v : list Z) (x : Z) : Prop :=
  words 32 v /\ length v = L /\ eval v =[N] x * radix key.

Lemma radix_cancel x y : radix key * x =[N] radix key * y -> x =[N] y.
Proof. rewrite radix_eq. apply eqm_cancel_pow2; [apply modulus_odd | lia]. Qed.

Lemma mont_mul v w x y : mont v x -> mont w y -> mont (montMul key v w) (x * y).
Proof.
  intros (Hv & Hlv & Ev) (Hw & Hlw & Ew). destruct (montMul_spec v w) as (H1 & H2 & E); [done..|].
  split_and!; [done..|]. apply radix_cancel. rewrite E, Ev, Ew. apply eqm_eq_refl. ring.
Qed.

Lemma mont_enter a : words 32 a -> length a = L -> mont (montMul key a (rr key)) (eval a).
Proof.
  intros Ha Hl. destruct (key_rr _ Hkey) as [Hr Hlr].
  destruct (montMul_spec a (rr key)) as (H1 & H2 & E); [done..|].
  split_and!; [done..|]. apply radix_cancel. rewrite E.
  assert (eval (rr key) =[N] radix key ^ 2) as ->.
  { apply eqm_eq; [pose proof modulus_bound; lia | exact (key_R2 _ Hkey)]. }
  apply eqm_eq_refl. ring.
Qed.

Lemma mont_leave v x a :
  mont v x -> words 32 a -> length a = L ->
  words 32 (montMul key v a) /\ length (montMul key v a) = L /\ eval (montMul key v a) =[N] x * eval a.
Proof.
  intros (Hv & Hlv & Ev) Ha Hl. destruct (montMul_spec v a) as (H1 & H2 & E); [done..|].
  split_and!; [done..|]. apply radix_cancel. rewrite E, Ev. apply eqm_eq_refl. ring.
Qed.

Lemma pow_words_spec a :
  exponent key = 3 \/ exponent key = 65537 -> words 32 a -> length a = L ->
  exists v, pow_words key a = Some v /\ words 32 v /\ length v = L /\ eval v =[N] eval a ^ exponent key.
Proof.
  intros He Ha Hl. pose proof (mont_enter a Ha Hl) as Hm. unfold pow_words.
  destruct He as [-> | ->]; cbn [Z.eqb Pos.eqb].
  - eexists. split; [reflexivity|].
    replace (eval a ^ 3) with (eval a * eval a * eval a) by ring.
    apply mont_leave; [by apply mont_mul|done|done].
  - eexists. split; [reflexivity|].
    assert (65537 = 4 ^ Z.of_nat 8 + 1) as -> by reflexivity.
    rewrite Z.pow_add_r, Z.pow_1_r by (done || (apply Z.pow_nonneg; lia)).
    apply mont_leave; [|done|done].
    apply (for_inv (fun i v => mont v (eval a ^ 4 ^ Z.of_nat i)) _ 8 0).
    + change (4 ^ Z.of_nat 0) with 1. by rewrite Z.pow_1_r.
    + intros i v _ Hv. rewrite Nat2Z.inj_succ, Z.pow_succ_r by lia.
      replace (eval a ^ (4 * 4 ^ Z.of_nat i))
        with (eval a ^ 4 ^ Z.of_nat i * eval a ^ 4 ^ Z.of_nat i * (eval a ^ 4 ^ Z.of_nat i * eval a ^ 4 ^ Z.of_nat i)).
      * by repeat apply mont_mul.
      * pose proof (Z.pow_nonneg 4 (Z.of_nat i) ltac:(lia)). rewrite <- !Z.pow_add_r by lia. f_equal. lia.
Qed.

(** The final subtraction gives the remainder. *)
Lemma final_sub v x :
  words 32 v -> length v = L -> eval v =[N] x ->
  let w := if geM key v then subM key v else v in
  words 32 w /\ length w = L /\ eval w = x mod N.
Proof.
  intros Hv Hl E w. pose proof modulus_bound as [HR BN].
  pose proof (eval_bound _ Hv) as Bv. rewrite Hl, <- radix_eq in Bv.
  subst w. rewrite geM_spec by done. destruct (Z.leb_spec N (eval v)).
  - destruct (rsa_subM_spec v Hv Hl) as (Hw & Hlw & Ew). split_and!; [done..|].
    rewrite Z.mod_small in Ew by lia. apply eqm_small; [|lia]. rewrite Ew, <- E. apply eqm_add_multiple with (-1). lia.
  - split_and!; [done..|]. apply eqm_small; [done|lia].
Qed.

Lemma modpow_spec inout :
  exponent key = 3 \/ exponent key = 65537 -> words 8 inout -> length inout = (4 * L)%nat ->
  modpow key inout = Some (i2osp (4 * L) (be_eval 8 inout ^ exponent key mod N)).
Proof.
  intros He Hw Hl. destruct (words_of_be_spec L inout Hw Hl) as (Ha & Hla & Ea).
  destruct (pow_words_spec _ He Ha Hla) as (v & E & Hv & Hlv & Ev). unfold modpow. rewrite E.
  cbn [mbind option_bind]. destruct (final_sub v _ Hv Hlv Ev) as (Hu & Hlu & Eu).
  set (u := if geM key v then _ else v) in *. clearbody u. f_equal.
  destruct (bytes_of_words_spec u Hu) as (H1 & H2 & H3). rewrite <- Ea, <- Eu, <- H3, <- Hlu, <- H2.
  symmetry. by apply i2osp_eval.
Qed.
End key.

(** ** The padding check *)

Lemma be_bytes_length l : length (flat_map be_bytes4 l) = (4 * length l)%nat.
Proof. induction l as [|x l IH]; [done|]. cbn [flat_map]. rewrite length_app, IH. cbn. lia. Qed.

Lemma SHA1_length m : length (Sha1Spec.SHA1 m) = SHA_DIGEST_SIZE.
Proof.
  unfold Sha1Spec.SHA1, hash_spec, absorb. rewrite be_bytes_length.
  enough (length (fold_left Sha1Spec.compress (full_blocks (pad m)) Sha1Spec.H0) = 5%nat) as -> by done.
  generalize (full_blocks (pad m)). assert (length Sha1Spec.H0 = 5%nat) as H by done. revert H.
  generalize Sha1Spec.H0. intros h Hh l. revert h Hh.
  induction l as [|b l IH]; intros h Hh; [done|]. cbn [fold_left]. apply IH.
  destruct h as [|h0 [|h1 [|h2 [|h3 [|h4 [|]]]]]]; try discriminate Hh. unfold Sha1Spec.compress.
  by destruct (for_ 0 80 _ _) as [[[[? ?] ?] ?] ?].
Qed.

Lemma SHA256_length m : length (Sha256Spec.SHA256 m) = SHA256_DIGEST_SIZE.
Proof.
  unfold Sha256Spec.SHA256, hash_spec, absorb. rewrite be_bytes_length.
  enough (length (fold_left Sha256Spec.compress (full_blocks (pad m)) Sha256Spec.H0) = 8%nat) as -> by done.
  generalize (full_blocks (pad m)). assert (length Sha256Spec.H0 = 8%nat) as H by done. revert H.
  generalize Sha256Spec.H0. intros h Hh l. revert h Hh.
  induction l as [|b l IH]; intros h Hh; [done|]. cbn [fold_left]. apply IH.
  destruct h as [|h0 [|h1 [|h2 [|h3 [|h4 [|h5 [|h6 [|h7 [|]]]]]]]]]; try discriminate Hh.
  unfold Sha256Spec.compress. by destruct (for_ 0 64 _ _) as [[[[[[[? ?] ?] ?] ?] ?] ?] ?].
Qed.

(** The two constants are the digests of the templates in the comments. *)
Lemma kExpectedPadSha_digest : kExpectedPadShaRsa2048 = Sha1Spec.SHA1 sha_padding.
Proof.
  rewrite <- (SHA_hash_spec zero_ctx) by (apply zero_ctx_ok || apply (bool_decide_unpack _); vm_compute; exact I).
  vm_compute. reflexivity.
Qed.

Lemma kExpectedPadSha256_digest : kExpectedPadSha256Rsa2048 = Sha256Spec.SHA256 sha256_padding.
Proof.
  rewrite <- (SHA256_hash_spec zero_ctx) by (apply zero_ctx_ok || apply (bool_decide_unpack _); vm_compute; exact I).
  vm_compute. reflexivity.
Qed.

Definition hash_len_ok (hash : list Z) : Prop :=
  length hash = SHA_DIGEST_SIZE \/ length hash = SHA256_DIGEST_SIZE.

Lemma padding_of_split hash :
  hash_len_ok hash ->
  length (padding_of hash) = RSANUMBYTES /\ words 8 (padding_of hash)
  /\ drop (RSANUMBYTES - length hash) (padding_of hash) = replicate (length hash) 0.
Proof.
  intros [E|E]; unfold padding_of; rewrite E;
    (split; [reflexivity|]; split; [apply (bool_decide_unpack _); vm_compute; exact I | reflexivity]).
Qed.

Lemma xor_zero l hash :
  length l = length hash -> zip_with Z.lxor l hash = replicate (length hash) 0 <-> l = hash.
Proof.
  revert hash. induction l as [|x l IH]; intros [|y hash] Hl; try discriminate Hl; [done|].
  cbn [zip_with length replicate]. injection Hl as Hl. specialize (IH hash Hl). split.
  - intros [= E ->%IH]. f_equal. by apply Z.lxor_eq.
  - intros [= -> ->]. rewrite Z.lxor_nilpotent. f_equal. by apply IH.
Qed.

(** What the exclusive or leaves is the template exactly when the decoded
    signature is the encoding of the hash. *)
Lemma xor_tail_padding em hash :
  hash_len_ok hash -> length em = RSANUMBYTES ->
  xor_tail em hash = padding_of hash <-> em = encoded_message hash.
Proof.
  intros Hh Hl. destruct (padding_of_split hash Hh) as (Hp & _ & Hz).
  assert (length hash <= RSANUMBYTES)%nat as Hle by (destruct Hh as [-> | ->]; cbv; lia).
  unfold xor_tail, encoded_message. rewrite Hl. set (k := (RSANUMBYTES - length hash)%nat) in *.
  assert (length (drop k em) = length hash) as Hd by (rewrite length_drop, Hl; subst k; lia).
  assert (length (take k em) = k /\ length (take k (padding_of hash)) = k) as [Ht Ht']
    by (rewrite !length_take, Hl, Hp; subst k; lia).
  split; intros E.
  - rewrite <- (take_drop k (padding_of hash)), Hz in E.
    apply app_inj_1 in E as [E1 E2]; [|congruence]. apply (proj1 (xor_zero _ _ Hd)) in E2.
    rewrite <- (take_drop k em), E1. by rewrite E2.
  - rewrite <- (take_drop k em) in E at 1. apply app_inj_1 in E as [E1 E2]; [|congruence].
    rewrite E1, E2. rewrite <- (take_drop k (padding_of hash)) at 2. f_equal. rewrite Hz. by apply xor_zero.
Qed.

Lemma xor_tail_words em hash : words 8 em -> words 8 hash -> words 8 (xor_tail em hash).
Proof.
  intros He Hh. unfold xor_tail. apply words_app; [by apply Forall_take|].
  generalize (Forall_drop (is_word 8) (length em - length hash) em He). generalize (drop (length em - length hash) em).
  intros l Hl. revert hash Hh. induction Hl as [|x l Hx Hl IH]; intros [|y hash] Hh; try done.
  inv_words. constructor; [by apply is_word_lxor | by apply IH].
Qed.

Lemma digits_equal (x y : list Z) k :
  length x = k -> length y = k -> forallb (fun i => x !!! i =? y !!! i) (seq 0 k) = bool_decide (x = y).
Proof.
  intros Hx Hy. apply eq_bool_prop_intro. rewrite bool_decide_spec, Is_true_true, forallb_forall. split.
  - intros H. apply (list_eq_same_length _ _ k); [done..|]. intros i a b Hi Ha Hb.
    specialize (H i). rewrite Z.eqb_eq in H. rewrite !list_lookup_total_alt, Ha, Hb in H.
    apply H. apply in_seq. lia.
  - intros -> i _. apply Z.eqb_refl.
Qed.

Lemma verify_spec ctx key signature hash :
  ctx_ok ctx -> key_ok key -> len key = Z.of_nat RSANUMWORDS ->
  exponent key = 3 \/ exponent key = 65537 ->
  words 8 signature -> length signature = RSANUMBYTES -> words 8 hash -> hash_len_ok hash ->
  let em := i2osp RSANUMBYTES (be_eval 8 signature ^ exponent key mod modulus key) in
  RSA_verify ctx key signature hash
  = Some (if bool_decide (pad_digest hash (xor_tail em hash) = pad_digest hash (padding_of hash)) then 1 else 0).
Proof.
  intros Hctx Hkey Hlen He Hs Hls Hh Hlh em. unfold RSA_verify. rewrite Hlen, Hls.
  rewrite (modpow_spec key Hkey signature He Hs) by (rewrite Hls, Hlen; done).
  replace (4 * Z.to_nat (len key))%nat with RSANUMBYTES by (rewrite Hlen; done). fold em.
  assert (words 8 (xor_tail em hash)) as Hw by (apply xor_tail_words; [apply i2osp_words | done]).
  replace (negb (exponent key =? 3) && negb (exponent key =? 65537)) with false
    by (by destruct He as [-> | ->]).
  rewrite !Z.eqb_refl, Nat.eqb_refl. cbn [negb mbind option_bind].
  unfold pad_digest, padding_of. destruct Hlh as [E|E]; rewrite E; cbn [Nat.eqb negb andb SHA_DIGEST_SIZE SHA256_DIGEST_SIZE].
  - rewrite SHA_hash_spec, digits_equal by (done || apply SHA1_length). by rewrite kExpectedPadSha_digest.
  - rewrite SHA256_hash_spec, digits_equal by (done || apply SHA256_length). by rewrite kExpectedPadSha256_digest.
Qed.

(** A signature that decodes to the encoding of the hash is accepted. *)
Lemma verify_encoded ctx key signature hash :
  ctx_ok ctx -> key_ok key -> len key = Z.of_nat RSANUMWORDS ->
  exponent key = 3 \/ exponent key = 65537 ->
  words 8 signature -> length signature = RSANUMBYTES -> words 8 hash -> hash_len_ok hash ->
  i2osp RSANUMBYTES (be_eval 8 signature ^ exponent key mod modulus key) = encoded_message hash ->
  RSA_verify ctx key signature hash = Some 1.
Proof.
  intros Hctx Hkey Hlen He Hs Hls Hh Hlh E. rewrite verify_spec by done.
  apply (xor_tail_padding _ hash Hlh (i2osp_length _ _)) in E. rewrite E. by rewrite bool_decide_true.
Qed.

Lemma encoded_message_spec hash :
  words 8 hash -> hash_len_ok hash -> words 8 (encoded_message hash) /\ length (encoded_message hash) = RSANUMBYTES.
Proof.
  intros Hw Hh. destruct (padding_of_split hash Hh) as (Hp & Hpw & _). unfold encoded_message. split.
  - apply words_app; [by apply Forall_take|done].
  - rewrite length_app, length_take, Hp. destruct Hh as [-> | ->]; reflexivity.
Qed.

(** * Theorems *)

(** The public operation: for a well-formed key and either exponent,
    [modpow] replaces a number by its power modulo the modulus, as bytes. *)
Theorem modpow_correct key inout :
  key_ok key -> exponent key = 3 \/ exponent key = 65537 ->
  words 8 inout -> length inout = (4 * Z.to_nat (len key))%nat ->
  modpow key inout
  = Some (i2osp (4 * Z.to_nat (len key)) (be_eval 8 inout ^ exponent key mod modulus key)).
Proof. intros Hk He Hw Hl. by apply modpow_spec. Qed.

(** C25.  Signature verification, on a key of the size supported with either
    exponent.  The message that the code digests is the decoded signature with
    the hash added (exclusive or) over its last bytes; the answer is 1 if the
    digest of that message is the digest of the PKCS#1 template of the hash's
    length and 0 if it is not.  That message is of 256 bytes, and it is the
    template itself exactly when the signature decodes to the
    EMSA-PKCS1-v1_5 encoding of the hash: such a signature is accepted, and
    one that decodes to anything else is accepted only if its own message,
    which is then not the template, has the template's digest. *)
Theorem RSA_verify_correct ctx key signature hash :
  ctx_ok ctx -> key_ok key -> len key = Z.of_nat RSANUMWORDS ->
  exponent key = 3 \/ exponent key = 65537 ->
  words 8 signature -> length signature = RSANUMBYTES -> words 8 hash -> hash_len_ok hash ->
  let em := i2osp RSANUMBYTES (be_eval 8 signature ^ exponent key mod modulus key) in
  let k := (RSANUMBYTES - length hash)%nat in
  let message := take k em ++ zip_with Z.lxor (drop k em) hash in
  RSA_verify ctx key signature hash
    = Some (if bool_decide (pad_digest hash message = pad_digest hash (padding_of hash)) then 1 else 0)
  /\ length message = RSANUMBYTES /\ words 8 message
  /\ (message = padding_of hash <-> em = encoded_message hash)
  /\ (em = encoded_message hash -> RSA_verify ctx key signature hash = Some 1)
  /\ (em <> encoded_message hash -> RSA_verify ctx key signature hash = Some 1 ->
        message <> padding_of hash /\ pad_digest hash message = pad_digest hash (padding_of hash)).
Proof.
  intros Hctx Hkey Hlen He Hs Hls Hh Hlh em k message.
  assert (length em = RSANUMBYTES) as Hem by apply i2osp_length.
  assert (message = xor_tail em hash) as Hm by (unfold message, k, xor_tail; by rewrite Hem).
  pose proof (xor_tail_padding em hash Hlh Hem) as Hx. rewrite <- Hm in Hx.
  pose proof (verify_spec ctx key signature hash Hctx Hkey Hlen He Hs Hls Hh Hlh) as Hv.
  cbn zeta in Hv. fold em in Hv. rewrite <- Hm in Hv. split_and!.
  - exact Hv.
  - unfold message, k. rewrite length_app, length_zip_with, length_take, length_drop, Hem.
    destruct Hlh as [-> | ->]; reflexivity.
  - rewrite Hm. apply xor_tail_words; [apply i2osp_words | done].
  - exact Hx.
  - by apply verify_encoded.
  - intros Hne. rewrite Hv. case_bool_decide as E; [|done]. intros _. split; [by rewrite Hx|exact E].
Qed.

(** Arguments of the wrong size or an unsupported exponent are refused,
    whatever the key holds. *)
Theorem RSA_verify_refuses ctx key signature hash :
  len key <> Z.of_nat RSANUMWORDS \/ length signature <> RSANUMBYTES
  \/ ~ hash_len_ok hash \/ ~ (exponent key = 3 \/ exponent key = 65537) ->
  RSA_verify ctx key signature hash = Some 0.
Proof.
  unfold RSA_verify, hash_len_ok. intros H.
  destruct (Z.eqb_spec (len key) (Z.of_nat RSANUMWORDS)); [|done]. cbn [negb].
  destruct (Nat.eqb_spec (length signature) RSANUMBYTES); [|done]. cbn [negb].
  destruct (Nat.eqb_spec (length hash) SHA_DIGEST_SIZE), (Nat.eqb_spec (length hash) SHA256_DIGEST_SIZE),
    (Z.eqb_spec (exponent key) 3), (Z.eqb_spec (exponent key) 65537); cbn [negb andb]; tauto.
Qed.

(** * A concrete key and signature

    The signature is a small cube root: [small_s ^ 3] exceeds the encoding of
    the hash by exactly the modulus. *)
Definition example_key : RSAPublicKey := {|
  len := 64;
  n0inv := 0xd6d91b23;
  n := [0x48e11375; 0xb06d9479; 0x513c23dc; 0x857fbb2c; 0xca3e74d1; 0x21a39627; 0x0144e09c; 0x0afc4542;
       0x28eccc9d; 0x194f744b; 0x1b481b88; 0x3b15322a; 0xe11840a6; 0xc7afbf8f; 0x933ec19c; 0x961500c3;
       0xf83efec2; 0x11035c67; 0x8735beb1; 0x71218ee1; 0x7a3a9a4f; 0xdface316; 0x25e1e149; 0x5ed9da60;
       0x240380af; 0xf005a740; 0x4bda565f; 0x623def04; 0xc4da0bfb; 0x25717574; 0xd1909121; 0xd69bd2ca;
       0x10c7dd0a; 0x181c263d; 0xc822a136; 0xeea522b2; 0xc712d931; 0x9ad8886a; 0x50b0ef13; 0x6e377a5d;
       0x117fa97a; 0xae191a72; 0x001ee0ed; 0x00000000; 0x00000000; 0x00000000; 0x00000000; 0x00000000;
       0x00000000; 0x00000000; 0x00000000; 0x00000000; 0x00000000; 0x00000000; 0x00000000; 0x00000000;
       0x00000000; 0x00000000; 0x00000000; 0x00000000; 0x00000000; 0x00000000; 0x00000000; 0x80000000];
  rr := [0x72be436f; 0xf913c332; 0x214a245f; 0xa43e36ee; 0x3e9811ae; 0x51ee6e16; 0x850de0ae; 0xefaca4af;
        0x10e201cb; 0x18b0601b; 0xb587d649; 0xb2c2a42a; 0x0ad29fee; 0xacc13335; 0x94ef9c45; 0xe77c81b5;
        0x9d3b70b6; 0x2580fdd1; 0x44c1613d; 0xe4a5ff0b; 0x6ad626ee; 0x46e244f3; 0x9d1f4a72; 0x2a066592;
        0xd130a960; 0x499baac4; 0x703015a5; 0xd2c4555b; 0x09fffeb7; 0xad9c8876; 0x07c96d42; 0x3ec04f0c;
        0xb99e2b1f; 0x6ec40c28; 0xab58605d; 0x8df6c242; 0x40a59449; 0x8e887b63; 0xbe6edbfd; 0x5331b5d1;
        0x2f026e1f; 0x83d60c39; 0xc38ece94; 0x7d0f2f6c; 0xc95b0b9c; 0x2536a67f; 0x10b4d4ab; 0xdd827f18;
        0x430e458b; 0xb2083e59; 0xb0b994c4; 0xb592d4d4; 0x9a9094d9; 0x4fc09b01; 0x959581fd; 0x2751bc66;
        0xa9ce36ce; 0x48a1ae4f; 0xa0f2b7b6; 0xad2f30f3; 0x9b57a63c; 0x4f544f76; 0x0c7b9faf; 0x4130e551];
  exponent := 3 |}.

Definition example_signature : list Z :=
  replicate 170 0 ++
  [0x05; 0x0a; 0x2f; 0x76; 0x90; 0xba; 0x48; 0x03; 0x30; 0x1e; 0x93; 0xaf; 0x27; 0x83; 0x89; 0x41;
   0x11; 0xec; 0xd0; 0x0e; 0x3d; 0xbc; 0x91; 0xe9; 0xd1; 0xce; 0x21; 0xd9; 0xba; 0xfb; 0x42; 0x63;
   0x34; 0x17; 0xf9; 0xe5; 0x2f; 0x99; 0x05; 0x13; 0x3d; 0xf8; 0x14; 0x61; 0x37; 0x72; 0xbb; 0xc7;
   0x82; 0x79; 0x35; 0x9f; 0x5b; 0xe9; 0x98; 0x7a; 0xf9; 0x5e; 0x00; 0x99; 0x53; 0x91; 0x4e; 0x7a;
   0x73; 0x36; 0x23; 0x12; 0x7f; 0x33; 0x6d; 0xc2; 0x01; 0x23; 0xf0; 0x5f; 0xcb; 0x1a; 0x0b; 0x38;
   0x7f; 0xc7; 0x07; 0x75; 0xc1; 0xb8].

Definition example_hash : list Z :=
  [0x87; 0x4d; 0x46; 0xfd; 0x3e; 0xe3; 0xa4; 0xc3; 0xf4; 0xd2; 0xca; 0x9c; 0x2d; 0xb3; 0xfa; 0x9e; 0x05; 0x82; 0xba; 0x8b].

(** The quotient of [R ^ 2] by the modulus. *)
Definition example_quotient : Z := 0x1ffffffffffffffffffffffffffffffffffffffffffffffffffffffffffffffffffffffffffffffffffffffffffffffffffffffffffffffffffffffffffffffffffffffffffffffffffffffffffffffffffffffffff847c49479b9637ba015a164722168abd3c43b1949dde54e3b49b38456b7534df757b279f8f670bbce08bd4a590b4d4b9bdbb7b6a3a2a2cec97d012770843eed096a6803fe962ff6ff1fd428498967f68787ad8814c917201c27091caa055c006cab762da407038f79ca88e0a61c5d5babdc787ceaf4f86460199ec2758615e03f898c425cac3c3c1b664f1988a376643c5b75eb911deec4276c7071026cf2bd7aecd3eacf7fe0fb436ed2d.

Lemma example_key_ok : key_ok example_key.
Proof.
  split.
  - cbn. unfold RSANUMWORDS. lia.
  - split; [apply (bool_decide_unpack _); vm_compute; exact I | reflexivity].
  - split; [apply (bool_decide_unpack _); vm_compute; exact I | reflexivity].
  - split; [unfold is_word; cbn; lia | vm_compute; reflexivity].
  - rewrite (Z.mod_small (eval (rr example_key))) by (vm_compute; split; [discriminate | reflexivity]).
    apply Z.mod_unique with example_quotient;
      [left; vm_compute; split; [discriminate | reflexivity] | vm_compute; reflexivity].
  - vm_compute. discriminate.
Qed.

Lemma example_decoded :
  i2osp RSANUMBYTES (be_eval 8 example_signature ^ exponent example_key mod modulus example_key)
  = encoded_message example_hash.
Proof.
  rewrite <- (Z.mod_unique (be_eval 8 example_signature ^ exponent example_key) (modulus example_key) 1
    (be_eval 8 (encoded_message example_hash)));
    [|left; vm_compute; split; [discriminate | reflexivity] | vm_compute; reflexivity].
  apply (i2osp_eval (encoded_message example_hash)). apply (bool_decide_unpack _). vm_compute. exact I.
Qed.

Lemma modpow_correct_witness : modpow example_key example_signature = Some (encoded_message example_hash).
Proof.
  rewrite (modpow_correct example_key example_signature example_key_ok).
  - exact (f_equal Some example_decoded).
  - left. reflexivity.
  - apply (bool_decide_unpack _). vm_compute. exact I.
  - reflexivity.
Defined.

Lemma zero_decoded :
  i2osp RSANUMBYTES (be_eval 8 (replicate 256 0) ^ exponent example_key mod modulus example_key) = replicate 256 0.
Proof. vm_compute. reflexivity. Qed.

(** The signature of the example is accepted; one of zeros is refused: the
    digest of its message is another one. *)
Lemma RSA_verify_correct_witness :
  RSA_verify zero_ctx example_key example_signature example_hash = Some 1
  /\ RSA_verify zero_ctx example_key (replicate 256 0) example_hash = Some 0.
Proof.
  split.
  - apply (RSA_verify_correct zero_ctx example_key example_signature example_hash).
    + apply zero_ctx_ok.
    + apply example_key_ok.
    + reflexivity.
    + left. reflexivity.
    + apply (bool_decide_unpack _). vm_compute. exact I.
    + reflexivity.
    + apply (bool_decide_unpack _). vm_compute. exact I.
    + left. reflexivity.
    + exact example_decoded.
  - destruct (RSA_verify_correct zero_ctx example_key (replicate 256 0) example_hash) as [E _].
    + apply zero_ctx_ok.
    + apply example_key_ok.
    + reflexivity.
    + left. reflexivity.
    + apply (bool_decide_unpack _). vm_compute. exact I.
    + reflexivity.
    + apply (bool_decide_unpack _). vm_compute. exact I.
    + left. reflexivity.
    + rewrite E, zero_decoded. vm_compute. reflexivity.
Defined.

Lemma RSA_verify_refuses_witness : RSA_verify zero_ctx example_key [1; 2; 3] example_hash = Some 0.
Proof. apply RSA_verify_refuses. right. left. discriminate. Defined.
