(* ===== verification/DumpKey.v ===== *)
(** * The key printer: libmincrypt/tools/DumpPublicKey.java

    Prints the RSA and EC keys of certificates as data initializers.  A Java
    method that throws is a [result]; a string is the list of its characters.
    BigInteger's methods are modelled as its documentation describes them; what
    reads a certificate file is the parameter [load]. *)
From S2P Require Import Prelude Hash Sha Libc Digits Rsa.
From Stdlib Require Import Zcong.

(** ** Java's exceptions and integers *)

Inductive exception :=
| Exn (message : list Z)
| ArithmeticException.

Inductive result (A : Type) :=
| Throw (e : exception)
| Return (x : A).
Arguments Throw {A} e.
Arguments Return {A} x.

#[export] Instance result_bind : MBind result := fun A B f r =>
  match r with Throw e => Throw e | Return x => f x end.

(** The bits of the two's complement form without the sign. *)
Definition bitLength (x : Z) : Z :=
  let x := if x <? 0 then - x - 1 else x in if x =? 0 then 0 else Z.log2 x + 1.

(** An integer has at most as many digits as bits. *)
Definition toString (radix x : Z) : list Z :=
  let magnitude := digits (Z.to_nat (bitLength (Z.abs x) + 1)) radix (Z.abs x) in
  if x <? 0 then 45 :: magnitude else magnitude.

Definition modInverse (x m : Z) : result Z :=
  if (m <=? 0) || negb (Z.gcd x m =? 1) then Throw ArithmeticException else Return (Z.invmod x m).

Definition mod_ (x m : Z) : result Z :=
  if m <=? 0 then Throw ArithmeticException else Return (x mod m).

(** ** The program *)

(** The keys a certificate can hold: the getters of RSAPublicKey; the field
    size and the affine coordinates of ECPublicKey; the name of the class. *)
Inductive PublicKey :=
| RSA (publicExponent modulus : Z)
| EC (fieldSize affineX affineY : Z)
| OtherKey (class_name : list Z).

Definition checkRSA (pubexp modulus : Z) (useSHA256 : bool) : result Z :=
  version ← (if pubexp =? 3 then Return (if useSHA256 then 3 else 1)
             else if pubexp =? 65537 then Return (if useSHA256 then 4 else 2)
             else Throw (Exn (bytes_of "Public exponent should be 3 or 65537 but is " ++ toString 10 pubexp
                              ++ bytes_of ".")));
  if negb (bitLength modulus =? 2048)
  then Throw (Exn (bytes_of "Modulus should be 2048 bits long but is " ++ toString 10 (bitLength modulus)
                   ++ bytes_of " bits."))
  else Return version.

Definition checkEC (fieldSize : Z) : result Z :=
  if negb (fieldSize =? 256) then Throw (Exn (bytes_of "Curve must be NIST P-256")) else Return 5.

Definition check_key (key : PublicKey) (useSHA256 : bool) : result Z :=
  match key with
  | RSA pubexp modulus => checkRSA pubexp modulus useSHA256
  | EC fieldSize _ _ =>
      if negb useSHA256 then Throw (Exn (bytes_of "Must use SHA-256 with EC keys!")) else checkEC fieldSize
  | OtherKey name => Throw (Exn (bytes_of "Unsupported key class: " ++ name))
  end.

(** The loops that write [count] digits in base [B], least significant first. *)
Definition print_array (B : Z) (count : nat) (result : list Z) (X : Z) : list Z :=
  (for_ 0 count (fun i '(result, X) =>
     let result := result ++ toString 10 (X mod B) in
     let result := if negb (i =? count - 1)%nat then result ++ bytes_of "," else result in
     (result, Z.quot X B)) (result, X)).1.

Definition printRSA (pubexp modulus : Z) (useSHA256 : bool) : result (list Z) :=
  version ← check_key (RSA pubexp modulus) useSHA256;
  let N := modulus in
  let nwords := Z.quot (bitLength N) 32 in
  let result := if 1 <? version then bytes_of "v" ++ toString 10 version ++ bytes_of " " else [] in
  let result := result ++ bytes_of "{" ++ toString 10 nwords in
  let B := 0x100000000 in
  inverse ← modInverse N B;
  let N0inv := B - inverse in
  let result := result ++ bytes_of ",0x" ++ toString 16 N0inv in
  let R := 2 ^ bitLength N in
  RR ← mod_ (R * R) N;
  let result := print_array B (Z.to_nat nwords) (result ++ bytes_of ",{") N ++ bytes_of "}" in
  let result := print_array B (Z.to_nat nwords) (result ++ bytes_of ",{") RR ++ bytes_of "}" in
  Return (result ++ bytes_of "}").

Definition printEC (fieldSize X Y : Z) : result (list Z) :=
  version ← checkEC fieldSize;
  let result := bytes_of "v" ++ toString 10 version ++ bytes_of " " in
  let nbytes := Z.quot fieldSize 8 in
  let result := result ++ bytes_of "{" ++ toString 10 nbytes in
  let B := 0x100 in
  let result := print_array B (Z.to_nat nbytes) (result ++ bytes_of ",{") X ++ bytes_of "}" in
  let result := print_array B (Z.to_nat nbytes) (result ++ bytes_of ",{") Y ++ bytes_of "}" in
  Return (result ++ bytes_of "}").

Definition print_key (key : PublicKey) (useSHA256 : bool) : result (list Z) :=
  match key with
  | RSA pubexp modulus => printRSA pubexp modulus useSHA256
  | EC fieldSize x y => printEC fieldSize x y
  | OtherKey name => Throw (Exn (bytes_of "Unsupported key class: " ++ name))
  end.

(** The hash a signature algorithm selects; [None] exits. *)
Definition sigAlg_SHA256 (sigAlg : string) : option bool :=
  if String.eqb sigAlg "SHA1withRSA" || String.eqb sigAlg "MD5withRSA" then Some false
  else if String.eqb sigAlg "SHA256withRSA" || String.eqb sigAlg "SHA256withECDSA" then Some true
  else None.

Section Main.
(** The algorithm name and the key of a certificate file, or the exception
    of the stream or the certificate factory. *)
Variable load : string -> result (string * PublicKey).

(** The loop of main: what is written to the standard output, and the status
    the process exits with. *)
Fixpoint dump_files (args : list string) : list Z * Z :=
  match args with
  | [] => ([], 0)
  | file :: rest =>
      match load file with
      | Throw _ => ([], 1)
      | Return (sigAlg, key) =>
          match sigAlg_SHA256 sigAlg with
          | None => ([], 1)
          | Some useSHA256 =>
              match (_ ← check_key key useSHA256; print_key key useSHA256) with
              | Throw _ => ([], 1)
              | Return text =>
                  let line := text ++ (match rest with [] => [] | _ => bytes_of "," end) ++ [10] in
                  let '(out, status) := dump_files rest in (line ++ out, status)
              end
          end
      end
  end.

Definition dump_main (args : list string) : list Z * Z :=
  match args with [] => ([], 1) | _ => dump_files args end.
End Main.

(** * Specification

    The text as a C compiler reads an initializer of struct RSAPublicKey. *)

Definition expect (c : Z) (l : list Z) : option (list Z) :=
  match l with x :: l => if x =? c then Some l else None | [] => None end.

Fixpoint span (f : Z -> bool) (l : list Z) : list Z * list Z :=
  match l with
  | x :: r => if f x then let '(a, b) := span f r in (x :: a, b) else ([], l)
  | [] => ([], [])
  end.

(** An integer constant: hexadecimal, octal or decimal. *)
Definition read_number (l : list Z) : option (Z * list Z) :=
  let '(base, l) :=
    match l with
    | a :: b :: r => if (a =? 48) && (b =? 120) then (16, r) else if a =? 48 then (8, l) else (10, l)
    | _ => (10, l)
    end in
  let '(ds, r) := span (is_base_digit base) l in
  match ds with [] => None | _ => Some (scan_digits base 0 ds, r) end.

Fixpoint read_numbers (k : nat) (l : list Z) : option (list Z * list Z) :=
  match k with
  | O => None
  | S k =>
      '(x, l) ← read_number l;
      match expect 44 l with
      | Some l => '(xs, l) ← read_numbers k l; Some (x :: xs, l)
      | None => Some ([x], l)
      end
  end.

Definition read_array (l : list Z) : option (list Z * list Z) :=
  l ← expect 123 l; '(xs, l) ← read_numbers (length l) l; l ← expect 125 l; Some (xs, l).

(** The prefix [v5 ] that tells the versions other than 1. *)
Definition read_version (l : list Z) : option (Z * list Z) :=
  match expect 118 l with
  | Some l => '(v, l) ← read_number l; l ← expect 32 l; Some (v, l)
  | None => Some (1, l)
  end.

(** An array member of the struct: the elements without initializer are 0. *)
Definition array_member (xs : list Z) : option (list Z) :=
  if (length xs <=? RSANUMWORDS)%nat then Some (xs ++ replicate (RSANUMWORDS - length xs) 0) else None.

(** The last member of the struct, [exponent], has no initializer. *)
Definition read_RSAPublicKey (l : list Z) : option (Z * RSAPublicKey) :=
  '(v, l) ← read_version l;
  l ← expect 123 l;
  '(klen, l) ← read_number l;
  l ← expect 44 l;
  '(inv, l) ← read_number l;
  l ← expect 44 l;
  '(ns, l) ← read_array l;
  l ← expect 44 l;
  '(rrs, l) ← read_array l;
  l ← expect 125 l;
  ns ← array_member ns;
  rrs ← array_member rrs;
  match l with
  | [] => Some (v, {| len := klen; n0inv := inv; n := ns; rr := rrs; exponent := 0 |})
  | _ => None
  end.

(** The coordinates of a version 5 key. *)
Definition read_ECPublicKey (l : list Z) : option (Z * Z * list Z * list Z) :=
  '(v, l) ← read_version l;
  l ← expect 123 l;
  '(klen, l) ← read_number l;
  l ← expect 44 l;
  '(x, l) ← read_array l;
  l ← expect 44 l;
  '(y, l) ← read_array l;
  l ← expect 125 l;
  match l with [] => Some (v, klen, x, y) | _ => None end.

Definition with_exponent (e : Z) (key : RSAPublicKey) : RSAPublicKey :=
  {| len := len key; n0inv := n0inv key; n := n key; rr := rr key; exponent := e |}.

(** The version table of the comment on checkRSA. *)
Definition version_of (pubexp : Z) (useSHA256 : bool) : option Z :=
  match pubexp, useSHA256 with
  | 3, false => Some 1
  | 65537, false => Some 2
  | 3, true => Some 3
  | 65537, true => Some 4
  | _, _ => None
  end.

(** * Lemmas *)

Lemma bitLength_bound x : 0 <= x -> 0 <= bitLength x /\ x < 2 ^ bitLength x.
Proof.
  intros Hx. unfold bitLength. rewrite (proj2 (Z.ltb_ge x 0)) by lia.
  destruct (Z.eqb_spec x 0) as [->|Hn]; [split; reflexivity || lia|].
  pose proof (Z.log2_spec x ltac:(lia)). pose proof (Z.log2_nonneg x). replace (Z.log2 x + 1) with (Z.succ (Z.log2 x)) by lia. lia.
Qed.

(** A number of exactly [k] bits. *)
Lemma bitLength_pos k x : 0 < k -> 0 <= x -> bitLength x = k <-> 2 ^ (k - 1) <= x < 2 ^ k.
Proof.
  intros Hk Hx. unfold bitLength. rewrite (proj2 (Z.ltb_ge x 0)) by lia.
  assert (2 ^ k = 2 * 2 ^ (k - 1)) as E by (rewrite <- Z.pow_succ_r by lia; f_equal; lia).
  assert (0 < 2 ^ (k - 1)) by (apply Z.pow_pos_nonneg; lia).
  destruct (Z.eqb_spec x 0) as [->|Hn]; [lia|]. split.
  - intros Hb. pose proof (Z.log2_spec x ltac:(lia)) as L. replace (Z.log2 x) with (k - 1) in L by lia.
    replace (Z.succ (k - 1)) with k in L by lia. exact L.
  - intros L. rewrite (Z.log2_unique x (k - 1)); [lia|lia|]. by replace (Z.succ (k - 1)) with k by lia.
Qed.

Lemma digits_first fuel base v :
  1 < base <= 16 -> 0 < v < base ^ Z.of_nat fuel -> exists d l, digits fuel base v = d :: l /\ d <> 48.
Proof.
  intros Hb. revert v. induction fuel as [|k IH]; intros v Hv; [cbn in Hv; lia|]. cbn [digits].
  destruct (Z.ltb_spec v base).
  - exists (digit_char (v mod base)), []. split; [done|]. rewrite Z.mod_small by lia. unfold digit_char. case_match; lia.
  - rewrite Nat2Z.inj_succ, Z.pow_succ_r in Hv by lia.
    destruct (IH (v / base)) as (d & l & -> & Hd).
    + split; [apply Z.div_str_pos; lia|apply Z.div_lt_upper_bound; lia].
    + by exists d, (l ++ [digit_char (v mod base)]).
Qed.

(** The digits of a number: they stand for it, and start with 0 for 0 only. *)
Lemma toString_spec radix x :
  1 < radix <= 16 -> 0 <= x ->
  Forall (fun b => is_base_digit radix b = true) (toString radix x)
  /\ scan_digits radix 0 (toString radix x) = x
  /\ (x = 0 /\ toString radix x = [48] \/ exists d l, toString radix x = d :: l /\ d <> 48).
Proof.
  intros Hr Hx. unfold toString. rewrite (proj2 (Z.ltb_ge x 0)), (Z.abs_eq x) by lia.
  destruct (bitLength_bound x Hx) as [B0 B1].
  assert (x < radix ^ Z.of_nat (Z.to_nat (bitLength x + 1))) as Hf.
  { rewrite Z2Nat.id by lia. apply Z.lt_le_trans with (2 ^ bitLength x); [done|].
    transitivity (radix ^ bitLength x); [apply Z.pow_le_mono_l; lia|apply Z.pow_le_mono_r; lia]. }
  split; [by apply digits_base|]. split; [by apply scan_digits_digits|].
  destruct (decide (x = 0)) as [->|Hn]; [left|right; apply digits_first; lia].
  split; [done|]. change (Z.to_nat (bitLength 0 + 1)) with 1%nat. cbn [digits].
  by rewrite (proj2 (Z.ltb_lt 0 radix)), Z.mod_0_l by lia.
Qed.

(** ** Reading what was printed *)

(** The characters that end a number. *)
Definition stops (c : Z) : Prop := c = 44 \/ c = 125 \/ c = 32.

Lemma span_app f l c r :
  Forall (fun x => f x = true) l -> f c = false -> span f (l ++ c :: r) = (l, c :: r).
Proof.
  intros Hl Hc. induction Hl as [|x l Hx Hl IH]; cbn [app span]; [by rewrite Hc|]. by rewrite Hx, IH.
Qed.

Lemma stops_digit base c : stops c -> is_base_digit base c = false.
Proof. intros [-> | [-> | ->]]; reflexivity. Qed.

Lemma read_decimal x c r : 0 <= x -> stops c -> read_number (toString 10 x ++ c :: r) = Some (x, c :: r).
Proof.
  intros Hx Hc. destruct (toString_spec 10 x ltac:(lia) Hx) as (Hd & Hs & [[-> ->]|(d & l & E & Hne)]).
  - destruct Hc as [-> | [-> | ->]]; reflexivity.
  - rewrite <- Hs at 2. revert Hd. rewrite E. clear Hs E. intros Hd. unfold read_number. cbn [app].
    assert (forall t, (match t with [] => (10, d :: t) | b :: r' => if (d =? 48) && (b =? 120) then (16, r')
                       else if d =? 48 then (8, d :: t) else (10, d :: t) end) = (10, d :: t)) as H.
    { intros [|b t]; [done|]. by rewrite (proj2 (Z.eqb_neq d 48) Hne). }
    assert (forall t, (match d :: t with a :: b :: r' => if (a =? 48) && (b =? 120) then (16, r')
                       else if a =? 48 then (8, d :: t) else (10, d :: t) | _ => (10, d :: t) end) = (10, d :: t)) as H'.
    { intros [|b t]; [done|]. by rewrite (proj2 (Z.eqb_neq d 48) Hne). }
    rewrite H'. change (d :: l ++ c :: r) with ((d :: l) ++ c :: r). by rewrite (span_app _ _ _ _ Hd (stops_digit 10 c Hc)).
Qed.

Lemma read_hexadecimal x c r :
  0 <= x -> stops c -> read_number (48 :: 120 :: toString 16 x ++ c :: r) = Some (x, c :: r).
Proof.
  intros Hx Hc. destruct (toString_spec 16 x ltac:(lia) Hx) as (Hd & Hs & Hf). unfold read_number.
  change ((48 =? 48) && (120 =? 120)) with true. cbv beta iota.
  rewrite (span_app _ _ _ _ Hd (stops_digit 16 c Hc)), Hs.
  destruct Hf as [[_ ->]|(d & l & -> & _)]; reflexivity.
Qed.

(** The elements with commas between them. *)
Fixpoint join (l : list (list Z)) : list Z :=
  match l with
  | [] => []
  | x :: r => x ++ match r with [] => [] | _ => 44 :: join r end
  end.

Lemma join_read xs c r k :
  xs <> [] -> Forall (fun x => 0 <= x) xs -> c = 125 -> (length xs <= k)%nat ->
  read_numbers k (join (map (toString 10) xs) ++ c :: r) = Some (xs, c :: r).
Proof.
  intros Hne Hx ->. revert k. induction Hx as [|x xs Hx Hxs IH]; [done|]. intros [|k] Hk; [cbn in Hk; lia|].
  cbn [map join read_numbers]. destruct xs as [|y xs].
  - cbn [map]. rewrite app_nil_r, read_decimal by (done || (right; by left)). reflexivity.
  - cbn [map]. rewrite <- app_assoc. cbn [app]. rewrite read_decimal by (done || by left).
    cbn [mbind option_bind expect]. change (44 =? 44) with true. cbv beta iota.
    change (toString 10 y :: map (toString 10) xs) with (map (toString 10) (y :: xs)).
    rewrite IH by (done || cbn in *; lia). reflexivity.
Qed.

(** Enough fuel: an element has a digit. *)
Lemma printed_length l : Forall (fun x => x <> []) l -> (length l <= length (join l))%nat.
Proof.
  induction 1 as [|x l Hx H IH]; [done|]. cbn [join]. rewrite length_app.
  assert (1 <= length x)%nat by (destruct x; [done|cbn; lia]). destruct l; cbn [length] in *; lia.
Qed.

Lemma toString_nonempty x : 0 <= x -> toString 10 x <> [].
Proof. intros Hx E. destruct (toString_spec 10 x ltac:(lia) Hx) as (_ & _ & [[_ H]|(d & l & H & _)]); by rewrite H in E. Qed.

Lemma read_printed xs r :
  xs <> [] -> Forall (fun x => 0 <= x) xs -> read_array (123 :: join (map (toString 10) xs) ++ 125 :: r) = Some (xs, r).
Proof.
  intros Hne Hx. unfold read_array. cbn [expect mbind option_bind]. change (123 =? 123) with true. cbv beta iota. cbn [mbind option_bind].
  rewrite join_read; [reflexivity|done|done|done|]. rewrite length_app, <- (length_map (toString 10) xs).
  assert (length (map (toString 10) xs) <= length (join (map (toString 10) xs)))%nat as Hl; [|lia].
  apply printed_length, Forall_map. apply (Forall_impl _ _ _ Hx). apply toString_nonempty.
Qed.

(** The loop prints the digits. *)
Lemma print_array_spec w n result X :
  0 < w -> 0 <= X -> print_array (2 ^ w) n result X = result ++ join (map (toString 10) (le_digits w n X)).
Proof.
  intros Hw. unfold print_array. set (body := fun i '(result, X) => _).
  enough (forall k lo result X, (lo + k)%nat = n -> 0 <= X ->
    (for_ lo k body (result, X)).1 = result ++ join (map (toString 10) (le_digits w k X))) as H by (intros; by apply H).
  clear result X. induction k as [|k IH]; intros lo result X Hn HX; cbn [for_ le_digits map join fst]; [by rewrite app_nil_r|].
  unfold body at 2. cbv zeta. rewrite Z.quot_div_nonneg, IH by (lia || apply Z.div_pos; lia). destruct k as [|k].
  - rewrite (proj2 (Nat.eqb_eq lo (n - 1))) by lia. cbn [negb le_digits map join]. by rewrite !app_nil_r.
  - rewrite (proj2 (Nat.eqb_neq lo (n - 1))) by lia. cbn [negb]. cbn [le_digits map]. by rewrite <- !app_assoc.
Qed.

(** ** The keys *)

Lemma version_of_spec e sha v :
  version_of e sha = Some v <->
  (e = 3 \/ e = 65537) /\ v = (if e =? 3 then 1 else 2) + (if sha then 2 else 0).
Proof.
  split.
  - intros H. assert (e = 3 \/ e = 65537) as He.
    { unfold version_of in H. repeat (case_match; try discriminate H); (left; reflexivity) || (right; reflexivity). }
    split; [exact He|]. destruct He as [-> | ->], sha; injection H as <-; reflexivity.
  - intros [[-> | ->] ->]; destruct sha; reflexivity.
Qed.

Lemma check_RSA e N sha v :
  check_key (RSA e N) sha = Return v <-> version_of e sha = Some v /\ bitLength N = 2048.
Proof.
  rewrite version_of_spec. unfold check_key, checkRSA.
  destruct (Z.eqb_spec e 3) as [->|H3]; [|destruct (Z.eqb_spec e 65537) as [->|H6]]; cbn [mbind result_bind].
  3: { split; [discriminate|]. intros [[[H|H] _] _]; lia. }
  all: destruct (Z.eqb_spec (bitLength N) 2048) as [Hb|Hb]; cbn [negb]; (split; [|intros [[_ Hv] H]]).
  all: try discriminate; try (intros H; injection H as <-).
  all: try (split; [split; [tauto|by destruct sha]|done]).
  all: try (rewrite Hv; by destruct sha); by destruct Hb.
Qed.

(** The number of a key, of 2048 bits and invertible modulo [2 ^ 32]. *)
Definition modulus_ok (N : Z) : Prop := 2 ^ 2047 <= N < 2 ^ 2048 /\ Z.odd N = true.

(** The struct of a modulus. *)
Definition key_of (N e : Z) : RSAPublicKey := {|
  len := 64;
  n0inv := 2 ^ 32 - Z.invmod N (2 ^ 32);
  n := le_digits 32 64 N;
  rr := le_digits 32 64 ((2 ^ 2048 * 2 ^ 2048) mod N);
  exponent := e
|}.

Lemma odd_gcd N k : 0 < k -> Z.gcd N (2 ^ k) = 1 <-> Z.odd N = true.
Proof.
  intros Hk. split.
  - intros Hg. destruct (Z.odd N) eqn:Ho; [done|]. rewrite <- Z.negb_even, negb_false_iff, Z.even_spec in Ho.
    destruct Ho as [m Hm]. assert ((2 | 1)) as [q Hq]; [|lia]. rewrite <- Hg. apply Z.gcd_greatest; [by exists m; lia|].
    exists (2 ^ (k - 1)). rewrite Z.mul_comm, <- Z.pow_succ_r by lia. f_equal. lia.
  - intros Ho. apply Z.coprime_pow_r; [lia|]. unfold Z.coprime. rewrite Z.gcd_comm, <- Z.gcd_mod by lia.
    rewrite Zmod_odd, Ho. reflexivity.
Qed.

Lemma inverse_spec N :
  Z.odd N = true ->
  is_word 32 (2 ^ 32 - Z.invmod N (2 ^ 32)) /\ ((2 ^ 32 - Z.invmod N (2 ^ 32)) * (N mod 2 ^ 32) + 1) mod 2 ^ 32 = 0.
Proof.
  intros Ho. assert (Z.coprime N (2 ^ 32)) as Hc by (apply odd_gcd; [lia|done]).
  pose proof (Z.invmod_coprime N (2 ^ 32) ltac:(lia) Hc) as E. pose proof (Z.mod_invmod (2 ^ 32) N) as Hr.
  set (v := Z.invmod N (2 ^ 32)) in *. assert (v <> 0) as Hv by (intros Hz; rewrite Hz in E; discriminate E).
  pose proof (Z.mod_pos_bound v (2 ^ 32) ltac:(lia)). split; [unfold is_word; lia|].
  pose proof (Z.div_mod N (2 ^ 32) ltac:(lia)) as DN. pose proof (Z.div_mod (v * N) (2 ^ 32) ltac:(lia)) as DV.
  rewrite E in DV. set (m := N mod 2 ^ 32) in *. apply Z.mod_divide; [lia|].
  exists (m - v * N / 2 ^ 32 + v * (N / 2 ^ 32)). nia.
Qed.

Lemma modulus_of_key N e : modulus_ok N -> modulus (key_of N e) = N.
Proof.
  intros [HN _]. unfold modulus, nwords. cbn [len n key_of]. rewrite take_ge by (by rewrite le_digits_length).
  rewrite le_eval_digits by lia. apply Z.mod_small. change (32 * Z.of_nat 64) with 2048. lia.
Qed.

Lemma key_of_ok N e : modulus_ok N -> key_ok (key_of N e).
Proof.
  intros HN. pose proof (modulus_of_key N e HN) as EM. destruct HN as [HN Ho].
  assert (radix (key_of N e) = 2 ^ 2048) as ER by (unfold radix; cbn [len key_of]; f_equal).
  split.
  - cbn [len key_of]. unfold RSANUMWORDS. lia.
  - cbn [n key_of]. split; [apply le_digits_words; lia|apply le_digits_length].
  - cbn [rr key_of len]. split; [apply le_digits_words; lia|apply le_digits_length].
  - cbn [n0inv n key_of]. destruct (inverse_spec N Ho) as [H1 H2]. split; [exact H1|exact H2].
  - rewrite EM, ER. cbn [rr key_of]. rewrite le_eval_digits by lia. change (32 * Z.of_nat 64) with 2048.
    assert (0 < N) as Hp by lia. rewrite Z.pow_2_r. set (x := (2 ^ 2048 * 2 ^ 2048)).
    pose proof (Z.mod_pos_bound x N Hp). rewrite (Z.mod_small (x mod N) (2 ^ 2048)) by lia. apply Z.mod_mod. lia.
  - rewrite EM, ER. lia.
Qed.

(** ** The text of a key *)

(** The prefix that tells the versions. *)
Definition prefix (v : Z) : list Z := if 1 <? v then 118 :: toString 10 v ++ [32] else [].

Definition array_text (xs : list Z) : list Z := 123 :: join (map (toString 10) xs).

Lemma modulus_ok_spec N : modulus_ok N <-> 0 < N /\ bitLength N = 2048 /\ Z.gcd N (2 ^ 32) = 1.
Proof.
  unfold modulus_ok. rewrite odd_gcd by lia. split.
  - intros [HN Ho]. assert (0 < N) by lia. rewrite bitLength_pos by lia. change (2048 - 1) with 2047. tauto.
  - intros (HN & Hb & Ho). rewrite bitLength_pos in Hb by lia. change (2048 - 1) with 2047 in Hb. tauto.
Qed.

Lemma printRSA_text e N sha v :
  version_of e sha = Some v -> modulus_ok N ->
  printRSA e N sha
  = Return (prefix v ++ 123 :: toString 10 64 ++ 44 :: 48 :: 120 :: toString 16 (n0inv (key_of N e))
            ++ 44 :: array_text (n (key_of N e)) ++ 125 :: 44 :: array_text (rr (key_of N e)) ++ [125; 125]).
Proof.
  intros Hv HN. pose proof (proj1 (modulus_ok_spec N) HN) as (Hp & Hb & Hg).
  unfold printRSA. rewrite (proj2 (check_RSA e N sha v) (conj Hv Hb)). cbn [mbind result_bind]. rewrite Hb.
  unfold modInverse, mod_. change (0x100000000) with (2 ^ 32).
  rewrite (proj2 (Z.leb_gt N 0)), (proj2 (Z.eqb_eq _ _) Hg) by lia.
  change (2 ^ 32 <=? 0) with false. cbn [orb negb mbind result_bind].
  change (Z.quot 2048 32) with 64. change (Z.to_nat 64) with 64%nat.
  rewrite !print_array_spec by (lia || apply Z.mod_pos_bound; lia).
  unfold prefix, array_text. cbn [n rr n0inv key_of]. change (bytes_of "v") with [118]. change (bytes_of " ") with [32].
  change (bytes_of "{") with [123]. change (bytes_of "}") with [125]. change (bytes_of ",{") with [44; 123].
  change (bytes_of ",0x") with [44; 48; 120]. rewrite <- !app_assoc. reflexivity.
Qed.

Lemma version_bounds e sha v : version_of e sha = Some v -> 1 <= v <= 4.
Proof. intros [_ ->]%version_of_spec. repeat case_match; lia. Qed.

Lemma read_prefix v r : 1 <= v <= 5 -> read_version (prefix v ++ 123 :: r) = Some (v, 123 :: r).
Proof.
  intros Hv. unfold prefix, read_version. destruct (Z.ltb_spec 1 v).
  - cbn [app expect]. change (118 =? 118) with true. cbv beta iota. rewrite <- app_assoc. cbn [app].
    rewrite read_decimal by (lia || (right; by right)). reflexivity.
  - replace v with 1 by lia. reflexivity.
Qed.

Lemma digits_nonneg w n X : 0 < w -> Forall (fun x => 0 <= x) (le_digits w n X).
Proof. intros Hw. apply (Forall_impl _ _ _ (le_digits_words w n X ltac:(lia))). unfold is_word. lia. Qed.

Lemma read_array_text w n X r :
  0 < w -> n <> 0%nat -> read_array (array_text (le_digits w n X) ++ 125 :: r) = Some (le_digits w n X, r).
Proof.
  intros Hw Hn. apply read_printed; [|by apply digits_nonneg]. by destruct n.
Qed.

(** One reading step, over a part of the text. *)
Lemma expect_cons c l : expect c (c :: l) = Some l.
Proof. unfold expect. by rewrite Z.eqb_refl. Qed.

Lemma read_length x r : 0 <= x -> read_number (toString 10 x ++ 44 :: r) = Some (x, 44 :: r).
Proof. intros Hx. apply read_decimal; [done|by left]. Qed.

Ltac read_step := first
  [ rewrite expect_cons | rewrite read_length by lia | rewrite read_array_text by (lia || done) ]; cbn [mbind option_bind].

(** * Theorems *)

(** C26.  For a modulus of 2048 bits, odd, and an exponent the version table
    lists, the text printed is an initializer of struct RSAPublicKey, behind the
    prefix of the version where it is not 1.  With the exponent of the version
    added, the struct is a well-formed key with this modulus, as RSA_verify and
    modpow need it.  As an initializer alone, it leaves the member [exponent]
    zero, and RSA_verify refuses everything under the key. *)
Theorem print_key_RSA e N sha v :
  version_of e sha = Some v -> modulus_ok N ->
  exists text key, print_key (RSA e N) sha = Return text /\ read_RSAPublicKey text = Some (v, key)
    /\ key_ok (with_exponent e key) /\ len key = Z.of_nat RSANUMWORDS /\ modulus key = N
    /\ forall ctx signature hash, RSA_verify ctx key signature hash = Some 0.
Proof.
  intros Hv HN. eexists _, (key_of N 0). split; [exact (printRSA_text e N sha v Hv HN)|]. split.
  - pose proof (version_bounds e sha v Hv). unfold read_RSAPublicKey. rewrite read_prefix by lia. cbn [mbind option_bind].
    do 3 read_step. rewrite read_hexadecimal; [|apply (key_n0inv _ (key_of_ok N 0 HN))|by left].
    cbn [mbind option_bind n rr key_of]. do 5 read_step.
    unfold array_member. rewrite !le_digits_length. unfold RSANUMWORDS. cbn [Nat.leb mbind option_bind Nat.sub replicate].
    by rewrite !app_nil_r.
  - split; [exact (key_of_ok N e HN)|]. split; [reflexivity|]. split; [by apply modulus_of_key|].
    intros ctx signature hash. apply RSA_verify_refuses. right. right. right. cbn [exponent key_of]. lia.
Qed.

(** The tool prints exactly the keys it can: RSA keys of an exponent the
    version table lists, with an odd modulus of 2048 bits, and EC keys over a
    field of 256 bits in certificates signed with SHA-256, whose coordinates
    are then read back as 32 bytes each.  For every other key it throws. *)
Theorem printable key sha :
  (exists text, (_ ← check_key key sha; print_key key sha) = Return text)
  <-> match key with
      | RSA e N => version_of e sha <> None /\ modulus_ok N
      | EC fieldSize x y => fieldSize = 256 /\ sha = true
      | OtherKey _ => False
      end.
Proof.
  destruct key as [e N|fs x y|c].
  - split.
    + intros [text H]. destruct (check_key (RSA e N) sha) as [|v] eqn:Ec; [discriminate H|]. pose proof Ec as Ec'.
      apply check_RSA in Ec as [Hv Hb]. split; [congruence|]. apply modulus_ok_spec.
      revert H. cbn [mbind result_bind print_key]. unfold printRSA. rewrite Ec', Hb. cbn [mbind result_bind].
      unfold modInverse, mod_. change (0x100000000) with (2 ^ 32). change (2 ^ 32 <=? 0) with false. cbn [orb].
      destruct (Z.eqb_spec (Z.gcd N (2 ^ 32)) 1) as [Hg|]; [|discriminate]. cbn [negb mbind result_bind].
      destruct (Z.leb_spec N 0); [discriminate|]. intros _. split; [done|]. by split.
    + intros [Hv HN]. destruct (version_of e sha) as [v|] eqn:Ev; [|done].
      rewrite (proj2 (check_RSA e N sha v)) by (split; [done|exact (proj1 (proj2 (proj1 (modulus_ok_spec N) HN)))]). cbn [mbind result_bind print_key].
      rewrite (printRSA_text e N sha v Ev HN). by eexists.
  - cbn [check_key print_key]. unfold printEC, checkEC.
    destruct sha; cbn [negb]; [|split; [intros [t H]; discriminate H|intros [_ H]; discriminate H]].
    destruct (Z.eqb_spec fs 256) as [->|Hf]; cbn [negb mbind result_bind].
    + split; [done|]. intros _. by eexists.
    + split; [intros [t H]; discriminate H|intros [H _]; by destruct Hf].
  - split; [intros [t H]; discriminate H|done].
Qed.

(** The coordinates of an EC key are printed as 32 bytes, least significant
    first. *)
Theorem print_key_EC x y sha :
  is_word 256 x -> is_word 256 y ->
  exists text xs ys, print_key (EC 256 x y) sha = Return text /\ read_ECPublicKey text = Some (5, 32, xs, ys)
    /\ words 8 xs /\ words 8 ys /\ length xs = 32%nat /\ length ys = 32%nat
    /\ le_eval 8 xs = x /\ le_eval 8 ys = y.
Proof.
  intros Hx Hy. exists (prefix 5 ++ 123 :: toString 10 32 ++ 44 :: array_text (le_digits 8 32 x)
          ++ 125 :: 44 :: array_text (le_digits 8 32 y) ++ [125; 125]), (le_digits 8 32 x), (le_digits 8 32 y).
  split.
  { cbn [print_key]. unfold printEC, checkEC. change (256 =? 256) with true. cbn [negb mbind result_bind].
    change (0x100) with (2 ^ 8). change (Z.quot 256 8) with 32. change (Z.to_nat 32) with 32%nat.
    unfold is_word in *. rewrite !print_array_spec by lia. unfold array_text.
    change (bytes_of "v") with [118]. change (bytes_of " ") with [32]. change (bytes_of "{") with [123].
    change (bytes_of "}") with [125]. change (bytes_of ",{") with [44; 123]. rewrite <- !app_assoc. reflexivity. }
  split.
  { unfold read_ECPublicKey. rewrite read_prefix by lia. cbn [mbind option_bind]. by do 7 read_step. }
  unfold is_word in *. rewrite !le_eval_digits, !le_digits_length by lia. change (8 * Z.of_nat 32) with 256. rewrite !Z.mod_small by done.
  split_and!; (reflexivity || apply le_digits_words; lia).
Qed.

Section Dumped.
Context (load : string -> result (string * PublicKey)).

(** [text] is printed for the certificate [file]. *)
Definition dumped (file : string) (text : list Z) : Prop :=
  exists sigAlg key sha, load file = Return (sigAlg, key) /\ sigAlg_SHA256 sigAlg = Some sha
    /\ (_ ← check_key key sha; print_key key sha) = Return text.

(** Keys separated by a comma and the end of a line. *)
Fixpoint key_lines (texts : list (list Z)) : list Z :=
  match texts with
  | [] => []
  | [t] => t ++ [10]
  | t :: r => t ++ [44; 10] ++ key_lines r
  end.

Lemma dump_files_cons file rest :
  (forall text, dumped file text -> dump_files load (file :: rest)
    = let '(out, status) := dump_files load rest in
      (text ++ (match rest with [] => [] | _ => [44] end) ++ [10] ++ out, status))
  /\ ((forall text, ~ dumped file text) -> dump_files load (file :: rest) = ([], 1)).
Proof.
  cbn [dump_files]. split.
  - intros text (sigAlg & key & sha & -> & -> & ->). destruct (dump_files load rest) as [out status].
    f_equal. rewrite <- !app_assoc. by destruct rest.
  - intros H. destruct (load file) as [|[sigAlg key]] eqn:El; [done|].
    destruct (sigAlg_SHA256 sigAlg) as [sha|] eqn:Es; [|done].
    destruct (mbind _ _) as [|text] eqn:Ep; [done|]. destruct (H text). by exists sigAlg, key, sha.
Qed.

(** The files up to the first that fails are printed, and the status tells
    whether one failed. *)
Theorem dump_files_correct files texts :
  Forall2 dumped files texts ->
  dump_files load files = (key_lines texts, 0)
  /\ forall file rest, (forall text, ~ dumped file text) ->
       dump_files load (files ++ file :: rest) = (concat (map (.++ [44; 10]) texts), 1).
Proof.
  induction 1 as [|f t files texts Hd H [IH1 IH2]].
  - split; [done|]. intros file rest Hf. exact (proj2 (dump_files_cons file rest) Hf).
  - split.
    + rewrite (proj1 (dump_files_cons f files) t Hd), IH1. cbn [key_lines]. by destruct H.
    + intros file rest Hf. cbn [app]. rewrite (proj1 (dump_files_cons f _) t Hd), (IH2 file rest Hf).
      cbn [map concat]. rewrite <- app_assoc. by destruct files.
Qed.
End Dumped.

(** * A concrete key *)

Lemma print_key_RSA_witness :
  modulus_ok (eval (n example_key))
  /\ exists text key, print_key (RSA 3 (eval (n example_key))) false = Return text
       /\ read_RSAPublicKey text = Some (1, key) /\ key_ok (with_exponent 3 key)
       /\ RSA_verify zero_ctx key example_signature example_hash = Some 0.
Proof.
  assert (modulus_ok (eval (n example_key))) as HN.
  { split; [split; [vm_compute; discriminate|vm_compute; reflexivity]|vm_compute; reflexivity]. }
  split; [exact HN|]. destruct (print_key_RSA 3 (eval (n example_key)) false 1 eq_refl HN) as (text & key & E & R & K & _ & _ & V).
  exists text, key. split; [exact E|]. split; [exact R|]. split; [exact K|]. apply V.
Defined.
