(* ===== verification/Shell.v ===== *)
(** * Shell scripts

    All a script does is run commands and choose by their exit statuses and
    outputs, which are not known: a script is a tree that branches on the
    answers.  A command is the list of its words, with the variables replaced,
    before field splitting and pathname expansion; a pipeline or redirection is
    written with its operators as words.  A test of a string alone is computed.
    A run is the list of the commands with their answers; what a theorem says of
    every run holds whatever the commands do. *)
From Stdlib Require Import Ascii.
From S2P Require Import Prelude.

Definition word := string.
#[local] Open Scope string_scope.
#[local] Open Scope Z_scope.

(** ** Scripts *)

Inductive sh (A : Type) : Type :=
| Ret (a : A)
| Exit (status : Z)
| Run (cmd : list word) (k : Z -> sh A)
| Out (cmd : list word) (k : string -> Z -> sh A).
Arguments Ret {A} a.
Arguments Exit {A} status.
Arguments Run {A} cmd k.
Arguments Out {A} cmd k.

Fixpoint sh_then {A B} (p : sh A) (f : A -> sh B) : sh B :=
  match p with
  | Ret a => f a
  | Exit n => Exit n
  | Run c k => Run c (fun s => sh_then (k s) f)
  | Out c k => Out c (fun o s => sh_then (k o s) f)
  end.

#[export] Instance sh_ret : MRet sh := @Ret.
#[export] Instance sh_bind : MBind sh := fun A B f p => sh_then p f.

(** A command and its status; [$(command)]; the words of a test. *)
Definition run (cmd : list word) : sh Z := Run cmd Ret.
Definition capture (cmd : list word) : sh string := Out cmd (fun o _ => Ret o).
Definition test (cond : list word) : sh bool := s ← run ("[" :: cond ++ ["]"]); Ret (s =? 0).
Definition is_file (path : word) : sh bool := test ["-f"; path].

(** A list of commands, for its status: 0 when it is empty. *)
Fixpoint run_all (cmds : list (list word)) : sh Z :=
  match cmds with
  | [] => Ret 0
  | [c] => run c
  | c :: rest => _ ← run c; run_all rest
  end.

(** [if cond; then p; fi] for its effect only. *)
Definition when (b : bool) (p : sh Z) : sh Z := if b then p else Ret 0.

(** A script run by another shell, for its status. *)
Fixpoint subshell (p : sh Z) : sh Z :=
  match p with
  | Ret s => Ret s
  | Exit n => Ret n
  | Run c k => Run c (fun s => subshell (k s))
  | Out c k => Out c (fun o s => subshell (k o s))
  end.

Definition nonempty (s : string) : bool := negb (String.eqb s "").

(** The pattern [*infix*]. *)
Fixpoint contains (infix s : string) : bool :=
  String.prefix infix s || match s with EmptyString => false | String _ r => contains infix r end.

(** The first file of a list that is in the directory: the loops
    [for i in ...; do if [ -f dir/$i ]; then ...; break; fi; done]. *)
Fixpoint first_file (dir : string) (l : list word) : sh (option word) :=
  match l with
  | [] => Ret None
  | i :: l => found ← is_file (dir ++ "/" ++ i); if (found : bool) then Ret (Some i) else first_file dir l
  end.

(** * Runs

    A run is the list of the commands with their answers, in order, and how the
    script ends. *)

Inductive event := Ran (cmd : list word) (status : Z) | Got (cmd : list word) (output : string) (status : Z).
Definition command (e : event) : list word := match e with Ran c _ => c | Got c _ _ => c end.

Inductive outcome (A : Type) := Exited (status : Z) | Returned (a : A).
Arguments Exited {A} status.
Arguments Returned {A} a.

Inductive runs {A} : sh A -> list event -> outcome A -> Prop :=
| runs_ret a : runs (Ret a) [] (Returned a)
| runs_exit n : runs (Exit n) [] (Exited n)
| runs_run c k s tr o : runs (k s) tr o -> runs (Run c k) (Ran c s :: tr) o
| runs_out c k out s tr o : runs (k out s) tr o -> runs (Out c k) (Got c out s :: tr) o.

(** The run for given answers. *)
Fixpoint answer {A} (status : list word -> Z) (output : list word -> string) (p : sh A) : list event * outcome A :=
  match p with
  | Ret a => ([], Returned a)
  | Exit n => ([], Exited n)
  | Run c k => let '(tr, o) := answer status output (k (status c)) in (Ran c (status c) :: tr, o)
  | Out c k => let '(tr, o) := answer status output (k (output c) (status c)) in (Got c (output c) (status c) :: tr, o)
  end.

(** * Lemmas *)

Lemma answer_runs {A} status output (p : sh A) : runs p (answer status output p).1 (answer status output p).2.
Proof.
  induction p as [a|n|c k IH|c k IH]; cbn [answer]; [constructor|constructor| |].
  - specialize (IH (status c)). destruct (answer status output (k (status c))) as [tr o]. by constructor.
  - specialize (IH (output c) (status c)). destruct (answer status output (k (output c) (status c))) as [tr o]. by constructor.
Qed.

Lemma runs_bind {A B} (p : sh A) (f : A -> sh B) tr o :
  runs (p ≫= f) tr o ->
  (exists a tr1 tr2, tr = (tr1 ++ tr2)%list /\ runs p tr1 (Returned a) /\ runs (f a) tr2 o)
  \/ exists n, runs p tr (Exited n) /\ o = Exited n.
Proof.
  revert tr. induction p as [a|n|c k IH|c k IH]; intros tr H; cbn [mbind sh_bind sh_then] in H.
  - left. exists a, [], tr. split; [done|]. split; [constructor|exact H].
  - right. inversion H; subst. exists n. split; [constructor|done].
  - inversion H as [| |c' k' s tr' o' H'|]; subst. destruct (IH s tr' H') as [(a & tr1 & tr2 & -> & H1 & H2)|(n & H1 & ->)].
    + left. exists a, (Ran c s :: tr1), tr2. split; [done|]. split; [by constructor|exact H2].
    + right. exists n. split; [by constructor|done].
  - inversion H as [| | |c' k' out s tr' o' H']; subst.
    destruct (IH out s tr' H') as [(a & tr1 & tr2 & -> & H1 & H2)|(n & H1 & ->)].
    + left. exists a, (Got c out s :: tr1), tr2. split; [done|]. split; [by constructor|exact H2].
    + right. exists n. split; [by constructor|done].
Qed.

Lemma runs_capture {B} c (f : string -> sh B) out s tr o : runs (capture c ≫= f) (Got c out s :: tr) o -> runs (f out) tr o.
Proof. intros H. by inversion H. Qed.

(** ** Scripts that run no command of a kind *)

Section Without.
Context (W : list word -> bool).

Fixpoint without {A} (p : sh A) : Prop :=
  match p with
  | Ret _ | Exit _ => True
  | Run c k => W c = false /\ forall s, without (k s)
  | Out c k => W c = false /\ forall o s, without (k o s)
  end.

Lemma without_bind {A B} (p : sh A) (f : A -> sh B) : without p -> (forall a, without (f a)) -> without (p ≫= f).
Proof.
  intros Hp Hf. induction p as [a|n|c k IH|c k IH]; cbn [mbind sh_bind sh_then without] in *; [apply Hf|done| |];
    destruct Hp as [Hc Hk]; (split; [exact Hc|]); intros; apply IH, Hk.
Qed.

Lemma without_runs {A} (p : sh A) tr o : without p -> runs p tr o -> Forall (fun e => W (command e) = false) tr.
Proof.
  intros Hp H. induction H as [a|n|c k s tr o H IH|c k out s tr o H IH]; cbn [without] in Hp; [constructor|constructor| |];
    destruct Hp as [Hc Hk]; (constructor; [exact Hc|apply IH, Hk]).
Qed.

(** A command of that kind comes after such a script. *)
Lemma without_skip {A B} (p : sh A) (f : A -> sh B) tr o e :
  without p -> runs (p ≫= f) tr o -> e ∈ tr -> W (command e) = true ->
  exists a tr1 tr2, runs p tr1 (Returned a) /\ runs (f a) tr2 o /\ e ∈ tr2.
Proof.
  intros Hp H He E.
  assert (forall tr o, runs p tr o -> e ∈ tr -> False) as Hno.
  { intros tr' o' H' He'. pose proof (without_runs p tr' o' Hp H') as HF. rewrite Forall_forall in HF.
    specialize (HF e He'). cbv beta in HF. congruence. }
  apply runs_bind in H as [(a & tr1 & tr2 & -> & H1 & H2)|(n & H1 & _)]; [|by destruct (Hno _ _ H1 He)].
  apply elem_of_app in He as [He|He]; [by destruct (Hno _ _ H1 He)|]. by exists a, tr1, tr2.
Qed.

Lemma without_not {A} (p : sh A) tr o e : without p -> runs p tr o -> e ∈ tr -> W (command e) = true -> False.
Proof.
  intros Hp H He E. destruct (without_skip p (fun _ => Ret tt) tr (match o with Exited n => Exited n | Returned _ => Returned tt end) e Hp)
    as (? & ? & ? & _ & H' & He'); [|done|done|by inversion H'; subst; apply not_elem_of_nil in He'].
  clear He E Hp. induction H as [a|n|c k s tr o H IH|c k out s tr o H IH]; by constructor.
Qed.

Lemma without_first_file dir l :
  (forall i, W ["["; "-f"; dir ++ "/" ++ i; "]"] = false) -> without (first_file dir l).
Proof.
  intros H. induction l as [|i l IH]; cbn [first_file]; [done|]. apply without_bind.
  - split; [apply H|done].
  - intros [|]; [done|exact IH].
Qed.
End Without.

(** Scripts that exit only with a status of a kind. *)
Section Exits.
Context (P : Z -> Prop).

Fixpoint exits {A} (p : sh A) : Prop :=
  match p with
  | Ret _ => True
  | Exit n => P n
  | Run _ k => forall s, exits (k s)
  | Out _ k => forall o s, exits (k o s)
  end.

Lemma exits_bind {A B} (p : sh A) (f : A -> sh B) : exits p -> (forall a, exits (f a)) -> exits (p ≫= f).
Proof.
  intros Hp Hf. induction p as [a|n|c k IH|c k IH]; cbn [mbind sh_bind sh_then exits] in *; [apply Hf|exact Hp| |];
    intros; apply IH, Hp.
Qed.

Lemma exits_runs {A} (p : sh A) tr n : exits p -> runs p tr (Exited n) -> P n.
Proof.
  intros Hp H. remember (Exited n) as o eqn:E. induction H as [a|m|c k s tr o H IH|c k out s tr o H IH]; [discriminate E| | |].
  - injection E as ->. exact Hp.
  - exact (IH (Hp s) E).
  - exact (IH (Hp out s) E).
Qed.
End Exits.

(** Scripts that do not exit. *)
Abbreviation returns := (exits (fun _ => False)).

Lemma returns_runs {A} (p : sh A) tr n : returns p -> runs p tr (Exited n) -> False.
Proof. apply (exits_runs (fun _ => False)). Qed.

(** Goes through a script; the commands are compared by computation. *)
Ltac walk :=
  repeat first
    [ exact I
    | reflexivity
    | apply without_first_file; intros
    | apply without_bind; [|intros]
    | apply exits_bind; [|intros]
    | match goal with |- _ /\ _ => split end
    | progress (intros; cbn [without exits run capture test is_file when run_all mret sh_ret])
    | match goal with
      | |- without _ (if ?b then _ else _) => destruct b
      | |- without _ (when ?b _) => destruct b
      | |- without _ (match ?x with _ => _ end) => destruct x
      | |- exits _ (if ?b then _ else _) => destruct b
      | |- exits _ (when ?b _) => destruct b
      | |- exits _ (match ?x with _ => _ end) => destruct x
      | |- without _ ?p => let p' := eval hnf in p in change p with p'
      | |- exits _ ?p => let p' := eval hnf in p in change p with p'
      end ].

(** A script that goes on after [p] does so after a run of [p]. *)
Lemma runs_after {A B} (p : sh A) (f : A -> sh B) tr a :
  runs (p ≫= f) tr (Returned a) -> exists x tr1 tr2, tr = (tr1 ++ tr2)%list /\ runs p tr1 (Returned x) /\ runs (f x) tr2 (Returned a).
Proof. intros [H|(n & _ & H)]%runs_bind; [exact H|discriminate H]. Qed.

Ltac find_event := cbn [app]; repeat first [apply list_elem_of_here | apply list_elem_of_further].

(** ** Subshells *)

(** The status a script ends with. *)
Definition ends (o : outcome Z) : Z := match o with Exited n => n | Returned s => s end.

Lemma runs_subshell (p : sh Z) tr o :
  runs (subshell p) tr o -> exists o', runs p tr o' /\ o = Returned (ends o').
Proof.
  revert tr. induction p as [a|n|c k IH|c k IH]; intros tr H; cbn [subshell] in H; inversion H; subst.
  - eexists. split; [constructor|done].
  - exists (Exited n). split; [constructor|done].
  - match goal with H' : runs (subshell (k _)) _ _ |- _ => destruct (IH _ _ H') as (o' & Ho & ->) end. exists o'. by split; [constructor|].
  - match goal with H' : runs (subshell (k _ _)) _ _ |- _ => destruct (IH _ _ _ H') as (o' & Ho & ->) end. exists o'. by split; [constructor|].
Qed.

(** A script that cannot exit goes on. *)
Lemma runs_returns {A B} (p : sh A) (f : A -> sh B) tr o :
  returns p -> runs (p ≫= f) tr o -> exists a tr1 tr2, tr = (tr1 ++ tr2)%list /\ runs p tr1 (Returned a) /\ runs (f a) tr2 o.
Proof.
  intros Hp [(a & tr1 & tr2 & H)|(n & H & _)]%runs_bind; [by exists a, tr1, tr2|]. by destruct (returns_runs p tr n Hp).
Qed.

(** ** Commands that come only after something

    After the events [before], the commands [W] are run in [tr] only when [Q]
    holds of the events until then. *)
Section OnlyAfter.
Context (W : list word -> bool) (Q : list event -> Prop) (Q_mono : forall tr tr', Q tr -> Q (tr ++ tr')%list).

Definition only_after (before tr : list event) : Prop :=
  forall pre e post, tr = (pre ++ e :: post)%list -> W (command e) = true -> Q (before ++ pre).

Lemma only_after_quiet before tr : Forall (fun e => W (command e) = false) tr -> only_after before tr.
Proof.
  intros H pre e post -> He. apply Forall_app in H as [_ H]. apply Forall_cons in H as [H _]. congruence.
Qed.

Lemma only_after_ready before tr : Q before -> only_after before tr.
Proof. intros H pre e post _ _. by apply Q_mono. Qed.

Lemma only_after_app before tr1 tr2 : only_after before tr1 -> only_after (before ++ tr1) tr2 -> only_after before (tr1 ++ tr2).
Proof.
  intros H1 H2 pre e post E He. apply app_eq_inv in E as [(k & -> & E)|(k & -> & E)].
  - destruct k as [|e' k].
    + rewrite app_nil_r in *. specialize (H2 [] e post (eq_sym E) He). by rewrite app_nil_r in H2.
    + injection E as -> ->. by apply (H1 pre e' k).
  - rewrite app_assoc. by apply (H2 k e post).
Qed.

(** A part without these commands, and what comes after it. *)
Lemma only_after_bind {A B} (p : sh A) (f : A -> sh B) before tr o :
  without W p -> runs (p ≫= f) tr o ->
  (forall a tr1 tr2, runs p tr1 (Returned a) -> runs (f a) tr2 o -> only_after (before ++ tr1) tr2) ->
  only_after before tr.
Proof.
  intros Hp H Hf. apply runs_bind in H as [(a & tr1 & tr2 & -> & H1 & H2)|(n & H1 & _)].
  - apply only_after_app; [|by apply (Hf a)]. apply only_after_quiet. exact (without_runs _ _ _ _ Hp H1).
  - apply only_after_quiet. exact (without_runs _ _ _ _ Hp H1).
Qed.
End OnlyAfter.

(** ** Texts *)

(** The lines of a text, without the newlines: those that end in one, and the
    rest. *)
Fixpoint text_lines (line s : string) : list string * string :=
  match s with
  | EmptyString => ([], line)
  | String c s =>
      if Ascii.eqb c "010"%char then let '(ls, rest) := text_lines "" s in (line :: ls, rest)
      else text_lines (line ++ String c "") s
  end.

(** [$(sed -n <n>p file)] for the text of the file. *)
Definition sed_line (n : nat) (text : string) : string :=
  let '(ls, rest) := text_lines "" text in nth (n - 1) (ls ++ [rest]) "".

Fixpoint no_newline (s : string) : bool :=
  match s with EmptyString => true | String c s => negb (Ascii.eqb c "010"%char) && no_newline s end.

Lemma str_app_nil s : s ++ "" = s.
Proof. induction s as [|c s IH]; [done|]. exact (f_equal (String c) IH). Qed.

Lemma str_app_assoc r s t : r ++ s ++ t = (r ++ s) ++ t.
Proof. induction r as [|c r IH]; [done|]. exact (f_equal (String c) IH). Qed.

Lemma text_lines_line line s rest :
  no_newline s = true -> text_lines line (s ++ String "010"%char rest) = let '(ls, r) := text_lines "" rest in ((line ++ s) :: ls, r).
Proof.
  revert line. induction s as [|c s IH]; intros line H.
  - change (text_lines line ("" ++ String "010"%char rest)) with (let '(ls, r) := text_lines "" rest in (line :: ls, r)).
    by rewrite str_app_nil.
  - cbn [no_newline] in H. apply andb_true_iff in H as [Hc H]. apply negb_true_iff in Hc.
    change (String c s ++ String "010"%char rest) with (String c (s ++ String "010"%char rest)). cbn [text_lines].
    rewrite Hc, IH by done. destruct (text_lines "" rest). do 2 f_equal. by rewrite <- str_app_assoc.
Qed.
