(* ===== verification/Flash.v ===== *)
(** * The installer: sources/otagen/flashme.sh and sources/otagen/tools/fcore.sh

    The scripts that take the boot image off its partition, pack it again with
    the new kernel and write it back. *)
From S2P Require Import Prelude Shell.

#[local] Open Scope string_scope.
#[local] Open Scope Z_scope.

(** ** fcore.sh *)

Definition bin : string := "/tmp/otapack/tools".
Definition split_img : string := "/tmp/otapack/split_img".
Definition tool (name : string) : word := bin ++ "/" ++ name.
Definition part (suffix : string) : word := split_img ++ "/boot.img-" ++ suffix.

Section Installer.
(** The file that shows messages, [/proc/self/fd/$1], and the variables the
    scripts use and never set. *)
Context (OUTFD compext slot LD_LIBRARY_PATH : string).

Definition ui_print (text : string) : sh Z :=
  run ["echo"; "-e"; "ui_print " ++ text ++ "\nui_print"; ">"; OUTFD].

Definition abort {A} (text : string) : sh A := _ ← ui_print " "; _ ← ui_print text; Exit 1.

(** *** split_boot *)

Definition dump_boot (block : string) : sh Z :=
  nanddump ← is_file (tool "nanddump");
  if (nanddump : bool) then run [tool "nanddump"; "-f"; "/tmp/otapack/boot.img"; block]
  else run ["dd"; "if=" ++ block; "of=/tmp/otapack/boot.img"].

(** A Nook loader before the image is cut off and kept. *)
Definition split_loader : sh Z :=
  nooktest ← capture ["strings"; "/tmp/otapack/boot.img"; "|"; "grep"; "-E";
    "Red Loader|Green Loader|Green Recovery|eMMC boot.img|eMMC recovery.img|BauwksBoot"];
  when (nonempty nooktest)
    (let nookoff := if contains "BauwksBoot" nooktest then "262144" else "1048576" in
     run_all
       [["mv"; "-f"; "/tmp/otapack/boot.img"; "/tmp/otapack/boot-orig.img"];
        ["dd"; "bs=" ++ nookoff; "count=1"; "conv=notrunc"; "if=/tmp/otapack/boot-orig.img"; "of=" ++ part "master_boot.key"];
        ["dd"; "bs=" ++ nookoff; "skip=1"; "conv=notrunc"; "if=/tmp/otapack/boot-orig.img"; "of=/tmp/otapack/boot.img"]]).

(** [grep label header | cut -c15- | ... > part] *)
Definition header_field (label : string) (cuts : list word) (suffix : string) : list word :=
  ["grep"; label; part "header"; "|"] ++ cuts ++ [">"; part suffix].

(** [test $? != 0 && dumpfail=1]: the status of the list, and [dumpfail]. *)
Definition note_failure (status : Z) (dumpfail : bool) : Z * bool :=
  if negb (status =? 0) then (0, true) else (1, dumpfail).

(** The branch of dumpimage: its status, and [dumpfail]. *)
Definition dumpimage_boot : sh (Z * bool) :=
  _ ← run_all
    [[tool "dumpimage"; "-l"; "/tmp/otapack/boot.img"];
     [tool "dumpimage"; "-l"; "/tmp/otapack/boot.img"; ">"; part "header"];
     header_field "Name:" ["cut"; "-c15-"] "name";
     header_field "Type:" ["cut"; "-c15-"; "|"; "cut"; "-d "; "-f1"] "arch";
     header_field "Type:" ["cut"; "-c15-"; "|"; "cut"; "-d "; "-f2"] "os";
     header_field "Type:" ["cut"; "-c15-"; "|"; "cut"; "-d "; "-f3"; "|"; "cut"; "-d-"; "-f1"] "type";
     header_field "Type:" ["cut"; "-d("; "-f2"; "|"; "cut"; "-d)"; "-f1"; "|"; "cut"; "-d "; "-f1"; "|"; "cut"; "-d-"; "-f1"] "comp";
     header_field "Address:" ["cut"; "-c15-"] "addr";
     header_field "Point:" ["cut"; "-c15-"] "ep"];
  status ← run [tool "dumpimage"; "-i"; "/tmp/otapack/boot.img"; "-p"; "0"; part "zImage"];
  let '(_, dumpfail) := note_failure status false in
  type ← capture ["cat"; part "type"];
  status ← (if String.eqb type "Multi"
            then run [tool "dumpimage"; "-i"; "/tmp/otapack/boot.img"; "-p"; "1"; part "ramdisk.gz"]
            else Ret 0);
  Ret (note_failure status dumpfail).

(** The choice of the tool that takes the image apart. *)
Definition unpack_boot : sh (Z * bool) :=
  info ← capture [tool "unpackelf"; "-i"; "/tmp/otapack/boot.img"; "-h"; "-q"; "2>/dev/null"; ";"; "echo"; "$?"];
  elf ← test ["-f"; tool "unpackelf"; "-a"; info; "=="; "0"];
  if (elf : bool) then
    elftool ← is_file (tool "elftool");
    _ ← when elftool (run_all
      [["mkdir"; split_img ++ "/elftool_out"];
       [tool "elftool"; "unpack"; "-i"; "/tmp/otapack/boot.img"; "-o"; split_img ++ "/elftool_out"];
       ["cp"; "-f"; split_img ++ "/elftool_out/header"; part "header"]]);
    status ← run_all
      [[tool "unpackelf"; "-i"; "/tmp/otapack/boot.img"; "-o"; split_img];
       ["mv"; "-f"; part "ramdisk.cpio.gz"; part "ramdisk.gz"]];
    Ret (status, false)
  else
    dumpimage ← is_file (tool "dumpimage");
    if (dumpimage : bool) then dumpimage_boot
    else
      rkcrc ← is_file (tool "rkcrc");
      if (rkcrc : bool) then
        status ← run ["dd"; "bs=4096"; "skip=8"; "iflag=skip_bytes"; "conv=notrunc"; "if=/tmp/otapack/boot.img";
                      "of=" ++ part "ramdisk.gz"];
        Ret (status, false)
      else
        pxa ← is_file (tool "pxa-unpackbootimg");
        status ← (if (pxa : bool) then run [tool "pxa-unpackbootimg"; "-i"; "/tmp/otapack/boot.img"; "-o"; split_img]
                  else run [tool "unpackbootimg"; "-i"; "/tmp/otapack/boot.img"; "-o"; split_img]);
        Ret (status, false).

Definition append_dtb : sh Z :=
  dtb ← test ["-f"; tool "unpackelf"; "-a"; "-f"; part "dtb"];
  when dtb
    (kind ← capture ["od"; "-ta"; "-An"; "-N4"; part "dtb"; "|"; "sed"; "-e"; "s/del //"; "-e"; "s/   //g"];
     when (negb (String.eqb kind "QCDT" || String.eqb kind "ELF")) (run_all
       [["gzip"; part "zImage"];
        ["mv"; "-f"; part "zImage.gz"; part "zImage"];
        ["cat"; part "dtb"; ">>"; part "zImage"];
        ["rm"; "-f"; part "dtb"]])).

Definition split_boot (block : string) : sh Z :=
  device ← capture ["echo"; block; "|"; "cut"; "-d "; "-f1"];
  missing ← test ["!"; "-e"; device];
  if (missing : bool) then abort "Invalid partition. Aborting..." else
  _ ← dump_boot block;
  _ ← split_loader;
  '(status, dumpfail) ← unpack_boot;
  if negb (status =? 0) || dumpfail then abort "Dumping/splitting image failed. Aborting..."
  else append_dtb.

(** *** flash_boot *)

(** The variables read from the parts of the image; those that are not set are
    empty. *)
Record image_config := {
  i_name : string; i_arch : string; i_os : string; i_type : string; i_comp : string; i_addr : string; i_ep : string;
  cmdline : string; cmd : string; board : string; base : string; pagesize : string; kerneloff : string; ramdiskoff : string;
  tagsoff : string; osver : string; oslvl : string; second : string; secondoff : string; hash : string; unknown : string
}.

Definition cat_part (suffix : string) : sh string := capture ["cat"; "*-" ++ suffix].
Definition cat_if_file (suffix : string) : sh string :=
  found ← is_file ("*-" ++ suffix); if (found : bool) then cat_part suffix else Ret "".

Definition read_config : sh image_config :=
  mkimage ← is_file (tool "mkimage");
  if (mkimage : bool) then
    name ← cat_part "name"; arch ← cat_part "arch"; os ← cat_part "os"; type ← cat_part "type"; comp ← cat_part "comp";
    let comp := if String.eqb comp "uncompressed" then "none" else comp in
    addr ← cat_part "addr"; ep ← cat_part "ep";
    Ret {| i_name := name; i_arch := arch; i_os := os; i_type := type; i_comp := comp; i_addr := addr; i_ep := ep;
           cmdline := ""; cmd := ""; board := ""; base := ""; pagesize := ""; kerneloff := ""; ramdiskoff := "";
           tagsoff := ""; osver := ""; oslvl := ""; second := ""; secondoff := ""; hash := ""; unknown := "" |}
  else
    has_cmdline ← is_file "*-cmdline";
    cmdline ← (if (has_cmdline : bool) then cat_part "cmdline" else Ret "");
    let cmd := if (has_cmdline : bool) then part "cmdline" ++ "@cmdline" else "" in
    board ← cat_if_file "board";
    base ← cat_part "base"; pagesize ← cat_part "pagesize"; kerneloff ← cat_part "kerneloff"; ramdiskoff ← cat_part "ramdiskoff";
    tagsoff ← cat_if_file "tagsoff"; osver ← cat_if_file "osversion"; oslvl ← cat_if_file "oslevel";
    has_second ← is_file "*-second";
    '(second, secondoff) ←
      (if (has_second : bool) then
         file ← capture ["ls"; "*-second"];
         off ← cat_part "secondoff";
         Ret ("--second " ++ split_img ++ "/" ++ file, "--second_offset " ++ off)
       else Ret ("", ""));
    has_hash ← is_file "*-hash";
    hash ← (if (has_hash : bool) then
              h ← cat_part "hash"; Ret ("--hash " ++ (if String.eqb h "unknown" then "sha1" else h))
            else Ret "");
    unknown ← cat_if_file "unknown";
    Ret {| i_name := ""; i_arch := ""; i_os := ""; i_type := ""; i_comp := ""; i_addr := ""; i_ep := "";
           cmdline := cmdline; cmd := cmd; board := board; base := base; pagesize := pagesize; kerneloff := kerneloff;
           ramdiskoff := ramdiskoff; tagsoff := tagsoff; osver := osver; oslvl := oslvl; second := second;
           secondoff := secondoff; hash := hash; unknown := unknown |}.

Definition kernel_names : list word := [
  "zImage"; "zImage-dtb"; "Image.gz"; "Image"; "Image-dtb"; "Image.gz-dtb"; "Image.bz2"; "Image.bz2-dtb"; "Image.lzo";
  "Image.lzo-dtb"; "Image.lzma"; "Image.lzma-dtb"; "Image.xz"; "Image.xz-dtb"; "Image.lz4"; "Image.lz4-dtb"; "Image.fit"].

(** The new kernel, or the one of the image. *)
Definition find_kernel : sh string :=
  i ← first_file "/tmp/otapack" kernel_names;
  match i with
  | Some i => Ret ("/tmp/otapack/" ++ i)
  | None => file ← capture ["ls"; "*-zImage"]; Ret (split_img ++ "/" ++ file)
  end.

Definition find_ramdisk : sh string :=
  new ← is_file ("/tmp/otapack/ramdisk-new.cpio." ++ compext);
  if (new : bool) then Ret ("/tmp/otapack/ramdisk-new.cpio." ++ compext)
  else file ← capture ["ls"; "*-ramdisk.*"]; Ret (split_img ++ "/" ++ file).

(** The variables [dtb] and [rpm]. *)
Definition find_dtb : sh (string * string) :=
  i ← first_file "/tmp/otapack" ["dtb"; "dt.img"];
  let '(dtb, rpm) :=
    match i with Some i => ("--dt /tmp/otapack/" ++ i, "/tmp/otapack/" ++ i ++ ",rpm") | None => ("", "") end in
  old ← test ["!"; dtb; "-a"; "-f"; "*-dtb"];
  if (old : bool) then
    file ← capture ["ls"; "*-dtb"]; Ret ("--dt " ++ split_img ++ "/" ++ file, split_img ++ "/" ++ file ++ ",rpm")
  else Ret (dtb, rpm).

(** A new kernel for a Mediatek loader gets its header. *)
Definition mtk_header (kernel : string) : sh string :=
  mkmtkhdr ← is_file (tool "mkmtkhdr");
  if (mkmtkhdr : bool) && negb (String.prefix (split_img ++ "/") kernel) then
    _ ← run [tool "mkmtkhdr"; "--kernel"; kernel]; Ret (kernel ++ "-mtk")
  else Ret kernel.

(** boot-new.img: the status of the tool that packs it. *)
Definition repack (c : image_config) (kernel rd dtb rpm : string) : sh Z :=
  mkimage ← is_file (tool "mkimage");
  if (mkimage : bool) then
    let uramdisk := if String.eqb (i_type c) "Multi" then ":" ++ rd else "" in
    run [tool "mkimage"; "-A"; i_arch c; "-O"; i_os c; "-T"; i_type c; "-C"; i_comp c; "-a"; i_addr c; "-e"; i_ep c;
         "-n"; i_name c; "-d"; kernel ++ uramdisk; "boot-new.img"]
  else
    elftool ← is_file (tool "elftool");
    if (elftool : bool) then
      run [tool "elftool"; "pack"; "-o"; "boot-new.img"; "header=" ++ part "header"; kernel; rd ++ ",ramdisk"; rpm; cmd c]
    else
      rkcrc ← is_file (tool "rkcrc");
      if (rkcrc : bool) then run [tool "rkcrc"; "-k"; rd; "boot-new.img"]
      else
        pxa ← is_file (tool "pxa-mkbootimg");
        if (pxa : bool) then
          run [tool "pxa-mkbootimg"; "--kernel"; kernel; "--ramdisk"; rd; second c; "--cmdline"; cmdline c; "--board"; board c;
               "--base"; base c; "--pagesize"; pagesize c; "--kernel_offset"; kerneloff c; "--ramdisk_offset"; ramdiskoff c;
               secondoff c; "--tags_offset"; tagsoff c; "--unknown"; unknown c; dtb; "--output"; "boot-new.img"]
        else
          run [tool "mkbootimg"; "--kernel"; kernel; "--ramdisk"; rd; second c; "--cmdline"; cmdline c; "--board"; board c;
               "--base"; base c; "--pagesize"; pagesize c; "--kernel_offset"; kerneloff c; "--ramdisk_offset"; ramdiskoff c;
               secondoff c; "--tags_offset"; tagsoff c; "--os_version"; osver c; "--os_patch_level"; oslvl c; hash c; dtb;
               "--output"; "boot-new.img"].

(** The steps between packing and writing; each aborts or goes on. *)

Definition chromeos_sign : sh Z :=
  both ← test ["-f"; tool "futility"; "-a"; "-d"; tool "chromeos"];
  when both
    (status ← run [tool "futility"; "vbutil_kernel"; "--pack"; "boot-new-signed.img"; "--keyblock"; tool "chromeos/kernel.keyblock";
                   "--signprivate"; tool "chromeos/kernel_data_key.vbprivk"; "--version"; "1"; "--vmlinuz"; "boot-new.img";
                   "--bootloader"; tool "chromeos/empty"; "--config"; tool "chromeos/empty"; "--arch"; "arm"; "--flags"; "0x1"];
     if negb (status =? 0) then abort "Signing image failed. Aborting..."
     else run ["mv"; "-f"; "boot-new-signed.img"; "boot-new.img"]).

Definition BootSignature : list word := [
  "/system/bin/dalvikvm";
  "-Xbootclasspath:/system/framework/core-oj.jar:/system/framework/core-libart.jar:/system/framework/conscrypt.jar:/system/framework/bouncycastle.jar";
  "-Xnodex2oat"; "-Xnoimage-dex2oat"; "-cp"; tool "BootSignature_Android.jar"; "com.android.verity.BootSignature"].

Definition avb_sign (block : string) : sh Z :=
  both ← test ["-f"; tool "BootSignature_Android.jar"; "-a"; "-d"; tool "avb"];
  when both
    (system_as_root ← is_file "/system/system/bin/dalvikvm";
     _ ← when system_as_root (run_all
       [["umount"; "/system"]; ["umount"; "/system"; "2>/dev/null"]; ["mkdir"; "/system_root"];
        ["mount"; "-o"; "ro"; "-t"; "auto"; "/dev/block/bootdevice/by-name/system" ++ slot; "/system_root"];
        ["mount"; "-o"; "bind"; "/system_root/system"; "/system"]]);
     pk8 ← capture ["ls"; tool "avb/*.pk8"];
     cert ← capture ["ls"; tool "avb/*.x509.*"];
     let avbtype := if contains "recovery" block || contains "SOS" block then "recovery" else "boot" in
     _ ← run ["unset"; "LD_LIBRARY_PATH"];
     valid ← capture (BootSignature ++ ["-verify"; "boot.img"; "|"; "grep"; "VALID"]);
     _ ← when (nonempty valid)
       (status ← run (BootSignature ++ ["/" ++ avbtype; "boot-new.img"; pk8; cert; "boot-new-signed.img"]);
        if negb (status =? 0) then abort "Signing image failed. Aborting..." else Ret 0);
     _ ← when (nonempty LD_LIBRARY_PATH) (run ["export"; "LD_LIBRARY_PATH=" ++ LD_LIBRARY_PATH]);
     _ ← run ["mv"; "-f"; "boot-new-signed.img"; "boot-new.img"];
     system_root ← test ["-d"; "/system_root"];
     when system_root (run_all
       [["umount"; "/system"]; ["umount"; "/system_root"]; ["rmdir"; "/system_root"];
        ["mount"; "-o"; "ro"; "-t"; "auto"; "/system"]])).

Definition blob_sign : sh Z :=
  blobpack ← is_file (tool "blobpack");
  when blobpack (run_all
    [["printf"; "-SIGNED-BY-SIGNBLOB-\00\00\00\00\00\00\00\00"; ">"; "boot-new-signed.img"];
     [tool "blobpack"; "tempblob"; "LNX"; "boot-new.img"];
     ["cat"; "tempblob"; ">>"; "boot-new-signed.img"];
     ["mv"; "-f"; "boot-new-signed.img"; "boot-new.img"]]).

Definition user_script : sh Z :=
  script ← is_file "/data/custom_boot_image_patch.sh";
  when script
    (status ← run ["ash"; "/data/custom_boot_image_patch.sh"; "/tmp/otapack/boot-new.img"];
     if negb (status =? 0) then abort "User script execution failed. Aborting..." else Ret 0).

Definition trailers : sh Z :=
  seandroid ← capture ["strings"; "/tmp/otapack/boot.img"; "|"; "grep"; "SEANDROIDENFORCE"];
  _ ← when (nonempty seandroid) (run ["printf"; "SEANDROIDENFORCE"; ">>"; "boot-new.img"]);
  dhtbsign ← is_file (tool "dhtbsign");
  _ ← when dhtbsign (run_all
    [[tool "dhtbsign"; "-i"; "boot-new.img"; "-o"; "boot-new-signed.img"];
     ["mv"; "-f"; "boot-new-signed.img"; "boot-new.img"]]);
  loader ← is_file (part "master_boot.key");
  when loader (run_all
    [["cat"; part "master_boot.key"; "boot-new.img"; ">"; "boot-new-signed.img"];
     ["mv"; "-f"; "boot-new-signed.img"; "boot-new.img"]]).

(** The last checks: the new image is there and fits. *)
Definition check_image : sh Z :=
  missing ← test ["!"; "-f"; "/tmp/otapack/boot-new.img"];
  if (missing : bool) then abort "Repacked image could not be found. Aborting..."
  else
    new ← capture ["wc"; "-c"; "<"; "boot-new.img"];
    old ← capture ["wc"; "-c"; "<"; "boot.img"];
    larger ← test [new; "-gt"; old];
    if (larger : bool) then abort "New image larger than boot partition. Aborting..." else Ret 0.

(** An image to a partition: on flash memory, or by dd. *)
Definition write_image (block image : string) : sh Z :=
  nand ← test ["-f"; tool "flash_erase"; "-a"; "-f"; tool "nandwrite"];
  if (nand : bool) then run_all [[tool "flash_erase"; block; "0"; "0"]; [tool "nandwrite"; "-p"; block; image]]
  else run_all [["dd"; "if=/dev/zero"; "of=" ++ block; "2>/dev/null"]; ["dd"; "if=" ++ image; "of=" ++ block]].

Definition flash_dtbo : sh Z :=
  i ← first_file "/tmp/otapack" ["dtbo"; "dtbo.img"];
  match i with
  | None => Ret 0
  | Some dtbo =>
      let dtbo_block := "/dev/block/bootdevice/by-name/dtbo" ++ slot in
      name ← capture ["echo"; dtbo_block];
      missing ← test ["!"; "-e"; name];
      if (missing : bool) then abort "dtbo partition could not be found. Aborting..."
      else write_image dtbo_block ("/tmp/otapack/" ++ dtbo)
  end.

(** From the parts of the image to the packed image. *)
Definition pack_boot : sh Z :=
  _ ← run ["cd"; split_img];
  config ← read_config;
  kernel ← find_kernel;
  rd ← find_ramdisk;
  '(dtb, rpm) ← find_dtb;
  _ ← run ["cd"; "/tmp/otapack"];
  kernel ← mtk_header kernel;
  repack config kernel rd dtb rpm.

Definition finish_image (block : string) : sh Z :=
  _ ← chromeos_sign; _ ← avb_sign block; _ ← blob_sign; _ ← user_script; trailers.

Definition flash_boot (block : string) : sh Z :=
  status ← pack_boot;
  if negb (status =? 0) then abort "Repacking image failed. Aborting..." else
  _ ← finish_image block;
  _ ← check_image;
  _ ← write_image block "/tmp/otapack/boot-new.img";
  flash_dtbo.

(** ** flashme.sh *)

Definition flashme : sh Z :=
  loc ← capture ["sed"; "-n"; "18p"; "/tmp/otapack/author.prop"];
  let block := loc in
  _ ← run_all [["chmod"; "-R"; "755"; bin]; ["mkdir"; "-p"; split_img]];
  _ ← split_boot block;
  flash_boot block.
End Installer.

(** ** Specification *)

(** Commands that write to a partition. *)
Definition writes (block : string) (cmd : list word) : bool :=
  match cmd with
  | c :: args =>
      if String.eqb c "dd" then existsb (String.eqb ("of=" ++ block)) args
      else if String.eqb c (tool "flash_erase") || String.eqb c (tool "nandwrite") then existsb (String.eqb block) args
      else false
  | [] => false
  end.

(** The commands that pack boot-new.img. *)
Definition packs (cmd : list word) : bool :=
  match cmd with
  | c :: args =>
      existsb (fun t => String.eqb c (tool t)) ["mkimage"; "elftool"; "rkcrc"; "pxa-mkbootimg"; "mkbootimg"]
      && existsb (String.eqb "boot-new.img") args
  | [] => false
  end.

(** A tool packed the new image without an error, it was found, and it was not
    found to be larger than the old one. *)
Definition image_ready (tr : list event) : Prop :=
  (exists cmd, packs cmd = true /\ Ran cmd 0 ∈ tr)
  /\ (exists s, s <> 0 /\ Ran ["["; "!"; "-f"; "/tmp/otapack/boot-new.img"; "]"] s ∈ tr)
  /\ exists new old s1 s2 s, s <> 0 /\ Got ["wc"; "-c"; "<"; "boot-new.img"] new s1 ∈ tr
       /\ Got ["wc"; "-c"; "<"; "boot.img"] old s2 ∈ tr /\ Ran ["["; new; "-gt"; old; "]"] s ∈ tr.

(** ** No write before the checks *)

Section Block.
Context (OUTFD compext slot ld b : string).
#[local] Abbreviation block := ("/dev/" ++ b).

Lemma split_boot_quiet : without (writes block) (split_boot OUTFD block).
Proof. walk. Qed.

Lemma pack_boot_quiet : without (writes block) (pack_boot compext).
Proof. walk. Qed.

Lemma finish_image_quiet : without (writes block) (finish_image OUTFD slot ld block).
Proof. walk. Qed.

Lemma check_image_quiet : without (writes block) (check_image OUTFD).
Proof. walk. Qed.
End Block.

(** Takes the runs of a script of known commands apart. *)
Ltac runs_inv :=
  repeat match goal with
  | H : runs (mbind _ _) _ _ |- _ => apply runs_bind in H as [(? & ? & ? & -> & ? & ?)|(? & ? & ?)]
  | H : Returned _ = Exited _ |- _ => discriminate H
  | H : Exited _ = Returned _ |- _ => discriminate H
  | H : runs (Ret _) _ _ |- _ => inversion H; clear H; subst
  | H : runs (Exit _) _ _ |- _ => inversion H; clear H; subst
  | H : runs (Run _ _) _ _ |- _ => inversion H; clear H; subst
  | H : runs (Out _ _) _ _ |- _ => inversion H; clear H; subst
  | H : runs (run _) _ _ |- _ => unfold run in H
  | H : runs (capture _) _ _ |- _ => unfold capture in H
  | H : runs (test _) _ _ |- _ => unfold test in H
  | H : runs (is_file _) _ _ |- _ => unfold is_file in H
  | H : runs (abort _ _) _ _ |- _ => unfold abort, ui_print in H
  | H : runs (if ?c then _ else _) _ _ |- _ => destruct c eqn:?
  end.

Lemma repack_packs c kernel rd dtb rpm tr s :
  runs (repack c kernel rd dtb rpm) tr (Returned s) -> exists cmd, packs cmd = true /\ Ran cmd s ∈ tr.
Proof.
  intros H. enough (exists cmd, last tr = Some (Ran cmd s) /\ packs cmd = true) as (cmd & Hl & Hp)
    by (exists cmd; split; [exact Hp|by apply last_Some_elem_of]).
  unfold repack in H. runs_inv; eexists; (split; [reflexivity|]);
    cbn -[String.eqb]; rewrite ?String.eqb_refl, ?orb_true_r; reflexivity.
Qed.

Lemma pack_boot_packs compext tr s :
  runs (pack_boot compext) tr (Returned s) -> exists cmd, packs cmd = true /\ Ran cmd s ∈ tr.
Proof.
  unfold pack_boot. intros H. repeat match goal with
    | H : runs (let '(_, _) := ?x in _) _ _ |- _ => destruct x
    | H : runs (repack _ _ _ _ _) _ _ |- _ => apply repack_packs in H
    | H : runs (mbind _ _) _ _ |- _ => apply runs_after in H as (? & ? & ? & -> & _ & H)
    end.
  destruct H as (cmd & Hp & Hin). exists cmd. split; [exact Hp|]. rewrite !elem_of_app. tauto.
Qed.

Lemma check_image_ready OUTFD tr s :
  runs (check_image OUTFD) tr (Returned s) ->
  (exists s, s <> 0 /\ Ran ["["; "!"; "-f"; "/tmp/otapack/boot-new.img"; "]"] s ∈ tr)
  /\ exists new old s1 s2 s, s <> 0 /\ Got ["wc"; "-c"; "<"; "boot-new.img"] new s1 ∈ tr
       /\ Got ["wc"; "-c"; "<"; "boot.img"] old s2 ∈ tr /\ Ran ["["; new; "-gt"; old; "]"] s ∈ tr.
Proof.
  unfold check_image. intros H. runs_inv.
  repeat match goal with H : (_ =? 0) = false |- _ => apply Z.eqb_neq in H end. split.
  - eexists. split; [|find_event]. assumption.
  - do 5 eexists. split; [|split; [|split]]; [|find_event..]. assumption.
Qed.

Lemma image_ready_mono tr tr' : image_ready tr -> image_ready (tr ++ tr').
Proof.
  intros ((c & Hc & H1) & (s & Hs & H2) & new & old & s1 & s2 & s' & Hs' & H3 & H4 & H5).
  split; [|split].
  - exists c. split; [exact Hc|]. apply elem_of_app. by left.
  - exists s. split; [exact Hs|]. apply elem_of_app. by left.
  - exists new, old, s1, s2, s'. rewrite !elem_of_app. tauto.
Qed.

(** ** Every write after the checks *)

(** After the events [before], [tr] writes to the partition only when the image
    is ready. *)
Abbreviation guarded block := (only_after (writes block) image_ready).

Lemma flash_boot_guarded OUTFD compext slot ld b before tr o :
  runs (flash_boot OUTFD compext slot ld ("/dev/" ++ b)) tr o -> guarded ("/dev/" ++ b) before tr.
Proof.
  intros H. unfold flash_boot in H. eapply only_after_bind; [apply pack_boot_quiet|exact H|]. clear H.
  intros status tr1 tr2 H1 H2. cbv beta in H2. destruct (status =? 0) eqn:Hs; cbn [negb] in H2.
  2: { apply only_after_quiet. apply (without_runs _ (abort OUTFD "Repacking image failed. Aborting...") tr2 o); [walk|exact H2]. }
  apply Z.eqb_eq in Hs as ->. eapply only_after_bind; [apply finish_image_quiet|exact H2|]. clear H2. intros s2 tr3 tr4 _ H2.
  eapply only_after_bind; [apply check_image_quiet|exact H2|]. clear H2. intros s3 tr5 tr6 H3 _.
  apply (only_after_ready _ _ image_ready_mono). destruct (pack_boot_packs _ _ _ H1) as (cmd & Hc & Hin). destruct (check_image_ready _ _ _ H3) as [Hm Hl].
  split; [exists cmd; split; [exact Hc|rewrite !elem_of_app; tauto]|]. split.
  - destruct Hm as (s & Hs & Hm). exists s. split; [exact Hs|]. rewrite !elem_of_app. tauto.
  - destruct Hl as (new & old & a1 & a2 & s & Hs & Ha & Hb & Hd). exists new, old, a1, a2, s. rewrite !elem_of_app. tauto.
Qed.

(** ** The branch of dumpimage *)

Definition is_dumpimage (cmd : list word) : bool := bool_decide (cmd = ["["; "-f"; tool "dumpimage"; "]"]).

(** Its last list, [test $? != 0 && dumpfail=1], fails when nothing failed. *)
Lemma dumpimage_boot_fails tr status dumpfail :
  runs dumpimage_boot tr (Returned (status, dumpfail)) -> negb (status =? 0) || dumpfail = true.
Proof.
  assert (forall s d, let '(status, dumpfail) := note_failure s d in negb (status =? 0) || dumpfail = true) as Hn.
  { intros s d. unfold note_failure. by destruct (s =? 0). }
  unfold dumpimage_boot. intros H. apply runs_after in H as (? & ? & ? & -> & _ & H).
  apply runs_after in H as (s1 & ? & ? & -> & _ & H). destruct (note_failure s1 false) as [? d].
  apply runs_after in H as (type & ? & ? & -> & _ & H). apply runs_after in H as (s2 & ? & ? & -> & _ & H).
  assert (note_failure s2 d = (status, dumpfail)) as E by by inversion H.
  specialize (Hn s2 d). by rewrite E in Hn.
Qed.

Lemma is_file_false path tr : runs (is_file path) tr (Returned false) -> Ran ["["; "-f"; path; "]"] 0 ∉ tr.
Proof.
  intros H Hin. runs_inv. cbn [app] in Hin. apply list_elem_of_singleton in Hin. injection Hin as <-. discriminate.
Qed.

(** Skips a part without that test. *)
Ltac skip H Hin :=
  let H' := fresh in let Hin' := fresh in
  match type of H with
  | runs (?p ≫= ?f) ?tr ?o =>
      let Hp := fresh in
      assert (without is_dumpimage p) as Hp by walk;
      destruct (without_skip is_dumpimage p f tr o _ Hp H Hin eq_refl) as (? & ? & ? & _ & H' & Hin');
      clear Hp H Hin; rename H' into H, Hin' into Hin; cbv beta in H
  end.

Ltac no_dumpimage :=
  match goal with
  | H : runs ?p ?tr ?o, Hin : ?e ∈ ?tr |- _ =>
      exfalso; refine (without_not is_dumpimage p tr o e _ H Hin eq_refl); walk
  end.

Lemma unpack_boot_dumpimage tr status dumpfail :
  runs unpack_boot tr (Returned (status, dumpfail)) -> Ran ["["; "-f"; tool "dumpimage"; "]"] 0 ∈ tr ->
  negb (status =? 0) || dumpfail = true.
Proof.
  unfold unpack_boot. intros H Hin. do 2 skip H Hin.
  match type of H with runs (if ?elf then _ else _) _ _ => destruct elf end; [no_dumpimage|].
  apply runs_after in H as (found & t1 & t2 & -> & H1 & H). destruct found; [exact (dumpimage_boot_fails _ _ _ H)|].
  apply elem_of_app in Hin as [Hin|Hin]; [by destruct (is_file_false _ _ H1)|]. clear H1. no_dumpimage.
Qed.

(** * Theorems *)

(** C7.  The installer writes to the partition of the image only after a tool
    has packed the new image without an error, the new image was found, and it
    was not found to be larger than the old one: in every run, whatever the
    commands answer, for a partition below /dev/. *)
Theorem flashme_guarded OUTFD compext slot ld b s tr o :
  runs (flashme OUTFD compext slot ld) (Got ["sed"; "-n"; "18p"; "/tmp/otapack/author.prop"] ("/dev/" ++ b) s :: tr) o ->
  forall pre e post, tr = (pre ++ e :: post)%list -> writes ("/dev/" ++ b) (command e) = true -> image_ready pre.
Proof.
  intros H'%runs_capture. cbv beta zeta in H'.
  assert (guarded ("/dev/" ++ b) [] tr) as Hg; [|exact Hg].
  eapply only_after_bind; [|exact H'|]; [walk|]. clear H'. intros ? t1 t2 _ H.
  eapply only_after_bind; [apply split_boot_quiet|exact H|]. clear H. intros ? t3 t4 _ H.
  exact (flash_boot_guarded _ _ _ _ _ _ _ _ H).
Qed.

(** With dumpimage among the tools the installer always gives up: when the
    image was taken apart without an error, the last test of that branch has the
    status 1, which is then taken for a failure. *)
Theorem dumpimage_aborts OUTFD block tr o :
  runs (split_boot OUTFD block) tr o -> Ran ["["; "-f"; tool "dumpimage"; "]"] 0 ∈ tr -> o = Exited 1.
Proof.
  unfold split_boot. intros H Hin. do 2 skip H Hin.
  match type of H with runs (if ?missing then _ else _) _ _ => destruct missing end; [no_dumpimage|]. do 2 skip H Hin.
  apply runs_bind in H as [([status dumpfail] & t1 & t2 & -> & H1 & H)|(n & H1 & ->)].
  - assert (negb (status =? 0) || dumpfail = true) as E.
    { apply elem_of_app in Hin as [Hin|Hin]; [by apply (unpack_boot_dumpimage t1)|]. clear H1.
      destruct (negb (status =? 0) || dumpfail); [done|]. no_dumpimage. }
    rewrite E in H. runs_inv. done.
  - exfalso. revert H1. apply returns_runs. walk.
Qed.

(** * Concrete runs *)

(** The answers of a device without special tools: tests fail, commands
    succeed, and the partition is /dev/block/boot. *)
Definition plain_status (cmd : list word) : Z := match cmd with "[" :: _ => 1 | _ => 0 end.
Definition plain_output (cmd : list word) : string := match cmd with "sed" :: _ => "/dev/block/boot" | _ => "" end.
Definition plain_run : list event * outcome Z := answer plain_status plain_output (flashme "/proc/self/fd/3" "" "" "").

(** It flashes with dd, at the end. *)
Lemma flashme_guarded_witness :
  exists pre, image_ready pre
    /\ plain_run.1 = (Got ["sed"; "-n"; "18p"; "/tmp/otapack/author.prop"] "/dev/block/boot" 0 :: pre ++
         [Ran ["dd"; "if=/dev/zero"; "of=/dev/block/boot"; "2>/dev/null"] 0;
          Ran ["dd"; "if=/tmp/otapack/boot-new.img"; "of=/dev/block/boot"] 0;
          Ran ["["; "-f"; "/tmp/otapack/dtbo"; "]"] 1; Ran ["["; "-f"; "/tmp/otapack/dtbo.img"; "]"] 1])%list
    /\ plain_run.2 = Returned 0.
Proof.
  pose (tr := tail plain_run.1). pose (pre := take (length tr - 4) tr).
  assert (plain_run.1 = (Got ["sed"; "-n"; "18p"; "/tmp/otapack/author.prop"] "/dev/block/boot" 0 :: tr)%list) as E by (vm_compute; reflexivity).
  assert (tr = (pre ++ drop (length tr - 4) tr)%list) as Et by (vm_compute; reflexivity).
  exists pre. split.
  - apply (flashme_guarded "/proc/self/fd/3" "" "" "" "block/boot" 0 tr plain_run.2) with
      (e := Ran ["dd"; "if=/dev/zero"; "of=/dev/block/boot"; "2>/dev/null"] 0) (post := tail (drop (length tr - 4) tr)).
    + change ("/dev/" ++ "block/boot") with "/dev/block/boot". rewrite <- E. apply answer_runs.
    + vm_compute. reflexivity.
    + reflexivity.
  - split; vm_compute; reflexivity.
Defined.

(** A device with dumpimage: everything succeeds but the first test and those
    of the tools before it. *)
Definition dumpimage_status (cmd : list word) : Z :=
  match cmd with "[" :: _ => if is_dumpimage cmd then 0 else 1 | _ => 0 end.

Lemma dumpimage_aborts_witness :
  let p := answer dumpimage_status plain_output (split_boot "/proc/self/fd/3" "/dev/block/boot") in
  Ran ["["; "-f"; tool "dumpimage"; "]"] 0 ∈ p.1 /\ p.2 = Exited 1.
Proof.
  intros p. assert (Ran ["["; "-f"; tool "dumpimage"; "]"] 0 ∈ p.1) as H by (vm_compute; find_event).
  split; [exact H|]. apply (dumpimage_aborts "/proc/self/fd/3" "/dev/block/boot" p.1 p.2); [apply answer_runs|exact H].
Defined.

(** A write that fails is not noticed: the run above ends the same way when
    every dd command fails. *)
Definition failing_status (cmd : list word) : Z := match cmd with "dd" :: _ => 1 | _ => plain_status cmd end.

Example failed_write_unnoticed : (answer failing_status plain_output (flashme "/proc/self/fd/3" "" "" "")).2 = Returned 0.
Proof. vm_compute. reflexivity. Qed.
