(* ===== verification/Update.v ===== *)
(** * The recovery's side: META-INF/com/google/android/update-binary

    The script that the recovery of a device runs for a package: it unpacks the
    package, sets busybox up and runs the installer, flashme.sh, of Flash.  Its
    function [getprop] is not called after the place it is defined. *)
From Stdlib Require Import Ascii.
From S2P Require Import Prelude Shell Flash.

#[local] Open Scope string_scope.
#[local] Open Scope Z_scope.

(** ** The script *)

Definition busybox : word := "/tmp/otapack/tools/busybox".
Definition sed_author (line : word) : sh string := capture ["sed"; "-n"; line; "/tmp/otapack/author.prop"].

(** Field splitting: the arguments from a quoted [word] with the text of a
    variable outside the quotes behind it. *)
Fixpoint fields (word s : string) : list string :=
  match s with
  | EmptyString => if nonempty word then [word] else []
  | String c s =>
      if existsb (Ascii.eqb c) [" "%char; "009"%char; "010"%char]
      then (if nonempty word then [word] else []) ++ fields "" s
      else fields (word ++ String c "") s
  end%list.

Section Update.
(** [$2], the descriptor of the messages, [$3], the package, and the variables
    the installer uses and nobody sets. *)
Context (fd ZIPFILE compext slot LD_LIBRARY_PATH : string).
Definition OUTFD : string := "/proc/self/fd/" ++ fd.

(** [until [ ! "$1" ]]: an argument that is empty prints nothing. *)
Definition ui_print (text : string) : sh Z :=
  when (nonempty text) (run ["echo"; "-e"; "ui_print " ++ text ++ "\nui_print"; ">"; OUTFD]).

Fixpoint ui_print_all (lines : list string) : sh Z :=
  match lines with
  | [] => Ret 0
  | line :: lines => _ ← ui_print line; ui_print_all lines
  end.

Definition show_progress (a b : word) : sh Z := run ["echo"; "progress " ++ a ++ " " ++ b; ">"; OUTFD].
Definition cleanup : sh Z := run ["rm"; "-rf"; "/tmp/otapack"].
Definition umount_all : list (list word) :=
  [["umount"; "/system"]; ["umount"; "/vendor"; "2>/dev/null"]; ["umount"; "/data"; "2>/dev/null"]].

Definition abort {A} (text : string) : sh A :=
  _ ← ui_print text;
  prop ← capture ["file_getprop"; "/tmp/otapack/flashme.sh"; "do.cleanuponabort"; "2>/dev/null"];
  clean ← test ["!"; "-f"; "/tmp/otapack/flashme.sh"; "-o"; prop; "=="; "1"];
  _ ← when clean cleanup;
  _ ← run_all umount_all;
  Exit 1.

(** The loop that reads the banner: a last line without a newline is shown when
    busybox finds it is not empty, and then its test of the empty string ends
    the loop. *)
Definition print_banner : sh Z :=
  banner ← is_file "/tmp/otapack/banner";
  when banner
    (text ← capture ["<"; "/tmp/otapack/banner"];
     let '(lines, rest) := text_lines "" text in
     _ ← ui_print_all lines;
     last ← run [busybox; "[["; "-n"; rest; "]]"];
     when (last =? 0) (_ ← ui_print rest; run [busybox; "[["; "-n"; ""; "]]"])).

Definition unpack : sh Z :=
  _ ← show_progress "1.34" "4";
  _ ← cleanup;
  _ ← run_all [["mkdir"; "-p"; "/tmp/otapack/bin"]; ["cd"; "/tmp/otapack"]];
  status ← run ["unzip"; "-o"; ZIPFILE];
  tools ← capture ["ls"; "/tmp/otapack/tools"];
  if negb (status =? 0) || negb (nonempty tools) then abort "Unzip failed. Aborting..." else
  run_all [["chmod"; "755"; busybox]; [busybox; "chmod"; "-R"; "755"; "/tmp/otapack/tools"; "/tmp/otapack/bin"]].

(** What is shown of author.prop.  The variables stand outside the quotes, so
    that a value of several words is several arguments, each with its message. *)
Definition print_info : sh Z :=
  device ← sed_author "12p"; cpu ← sed_author "10p"; cpum ← sed_author "12p"; author ← sed_author "2p";
  bh ← sed_author "8p"; arch ← sed_author "4p"; loc ← sed_author "18p"; bt ← sed_author "20p";
  ver ← sed_author "22p"; type ← sed_author "24p";
  _ ← ui_print_all (concat [["***********************************"; "            AKB® xyzmean@tg"; "***********************************";
    "Generated by:"; "  Automatic Kernel Builder(AKB)"]; fields "  AKB ver: " ver; fields "  Build type: " type;
    ["***********************************"]]);
  _ ← run ["sleep"; "3"];
  _ ← ui_print_all (concat [["Info:"]; fields "  Author: " author; fields "  Host: " bh; fields "  ARCH: " arch; fields "  CPU: " cpu;
    fields "  Device: " device; ["***********************************"]]);
  _ ← run ["sleep"; "2"];
  _ ← ui_print ("Boot: " ++ loc);
  run ["sleep"; "1"].

Definition mount_all : list (list word) :=
  [["umount"; "/system"; "2>/dev/null"]; ["umount"; "/vendor"; "2>/dev/null"]; ["mount"; "-o"; "ro"; "-t"; "auto"; "/system"];
   ["mount"; "-o"; "ro"; "-t"; "auto"; "/vendor"; "2>/dev/null"]; ["mount"; "/data"; "2>/dev/null"];
   ["test"; "-f"; "/system/system/build.prop"]].

(** Links for the commands of busybox; the status is that of the last one. *)
Definition link_busybox : sh Z :=
  list ← capture [busybox; "--list"];
  status ← run_all (map (fun i => [busybox; "ln"; "-s"; busybox; "/tmp/otapack/bin/" ++ i]) (fields "" list));
  links ← capture ["ls"; "/tmp/otapack/bin"];
  if negb (status =? 0) || negb (nonempty links) then abort "Recovery busybox setup failed. Aborting..." else Ret 0.

Definition prepare : sh Z :=
  _ ← capture ["getprop"; "2>/dev/null"];
  _ ← unpack;
  _ ← print_banner;
  _ ← print_info;
  _ ← run_all mount_all;
  _ ← ui_print "   >> Prepare...";
  _ ← run ["sleep"; "2"];
  _ ← ui_print "   >> Installing kernel...";
  link_busybox.

Definition done_message : list word := ["echo"; "-e"; "ui_print     >> Done!\nui_print"; ">"; OUTFD].

Definition finish : sh Z :=
  _ ← cleanup;
  _ ← run_all umount_all;
  _ ← ui_print "    >> Done!";
  _ ← run ["sleep"; "2"];
  ui_print "***********************************".

Definition update_binary : sh Z :=
  DIR ← capture ["dirname"; ZIPFILE];
  _ ← prepare;
  status ← subshell (flashme OUTFD compext slot LD_LIBRARY_PATH);
  if negb (status =? 0) then abort "" else finish.
End Update.

(** * Parts without a command of a kind *)

Lemma ui_print_all_without W fd lines :
  (forall text, W ["echo"; "-e"; "ui_print " ++ text ++ "\nui_print"; ">"; OUTFD fd] = false) -> without W (ui_print_all fd lines).
Proof.
  intros H. induction lines as [|line lines IH]; [done|]. cbn [ui_print_all]. apply without_bind; [|done].
  unfold ui_print. destruct (nonempty line); [|done]. split; [apply H|done].
Qed.

Lemma run_all_without W cmds : Forall (fun c => W c = false) cmds -> without W (run_all cmds).
Proof.
  intros H. induction H as [|c cmds Hc H IH]; [done|]. destruct cmds; [by split|]. apply without_bind; [by split|done].
Qed.

Section Runs.
Context (fd ZIPFILE compext slot ld b : string).
#[local] Abbreviation block := ("/dev/" ++ b).

Lemma prepare_quiet : without (writes block) (prepare fd ZIPFILE).
Proof.
  walk; first [by apply ui_print_all_without|apply run_all_without].
  induction (fields "" _) as [|i l IH]; by constructor.
Qed.

Lemma finish_quiet : without (writes block) (finish fd).
Proof. walk. Qed.

Lemma abort_quiet {A} text : without (writes block) (abort fd text : sh A).
Proof. walk. Qed.

(** [abort] ends the script with the status 1. *)
Lemma abort_exits {A} text tr (o : outcome A) : runs (abort fd text) tr o -> o = Exited 1.
Proof.
  unfold abort. intros H. apply runs_returns in H as (? & ? & ? & -> & _ & H); [|walk].
  apply runs_returns in H as (? & ? & ? & -> & _ & H); [|walk]. apply runs_returns in H as (? & ? & ? & -> & _ & H); [|walk].
  apply runs_returns in H as (? & ? & ? & -> & _ & H); [|walk]. apply runs_returns in H as (? & ? & ? & -> & _ & H); [|walk].
  by inversion H.
Qed.

Lemma ui_print_all_returns lines : returns (ui_print_all fd lines).
Proof. induction lines as [|line lines IH]; [done|]. cbn [ui_print_all]. apply exits_bind; [walk|done]. Qed.

Lemma run_all_returns cmds : returns (run_all cmds).
Proof. induction cmds as [|c cmds IH]; [done|]. destruct cmds; [done|]. by apply exits_bind. Qed.

Lemma exits_weaken {A} (P Q : Z -> Prop) (p : sh A) : (forall n, P n -> Q n) -> exits P p -> exits Q p.
Proof. intros H. induction p as [a|n|c k IH|c k IH]; cbn [exits]; auto. Qed.

(** The preparation gives up with the status 1, or not at all. *)
Lemma prepare_exits : exits (fun n => n = 1) (prepare fd ZIPFILE).
Proof.
  walk; apply exits_weaken with (fun _ => False); first [done|apply ui_print_all_returns|apply run_all_returns].
Qed.

(** The last part shows that the work is done. *)
Lemma finish_done tr (o : outcome Z) : runs (finish fd) tr o -> (exists s, o = Returned s) /\ exists s, Ran (done_message fd) s ∈ tr.
Proof.
  unfold finish. intros H.
  apply runs_returns in H as (? & t1 & t2 & -> & _ & H); [|walk]. apply runs_returns in H as (? & t3 & t4 & -> & _ & H); [|walk].
  apply runs_returns in H as (s & t5 & t6 & -> & H5 & H); [|walk]. split.
  - apply runs_returns in H as (? & t7 & t8 & -> & _ & H); [|walk]. destruct o as [n|s']; [|by exists s'].
    exfalso. revert H. apply returns_runs. walk.
  - exists s. change (runs (Run (done_message fd) Ret) t5 (Returned s)) in H5. inversion H5 as [| |c k s' t o' H'|]; subst.
    inversion H'; subst. rewrite !elem_of_app. right. right. left. constructor.
Qed.

(** The messages of [abort] are not that one. *)
Lemma abort_not_done {A} tr (o : outcome A) s : runs (abort fd "" : sh A) tr o -> Ran (done_message fd) s ∉ tr.
Proof.
  intros H Hin. refine (without_not (fun c => match c with "echo" :: _ => true | _ => false end) _ tr o _ _ H Hin eq_refl). walk.
Qed.

(** A trace without a write to the partition. *)
Definition no_writes (tr : list event) : Prop := Forall (fun e => writes block (command e) = false) tr.
End Runs.

(** C24. Every run of update-binary, whatever the commands answer: either it
    gives up before the installer, with status 1 and nothing written to any
    partition below /dev/, or it goes through a whole run of the installer, and
    the rest of it writes to no partition; then it ends well, with the message
    that it is done, exactly when the installer ended with status 0, and
    otherwise gives up with status 1 and without that message. *)
Theorem update_binary_correct fd ZIPFILE compext slot ld b tr o :
  runs (update_binary fd ZIPFILE compext slot ld) tr o ->
  (o = Exited 1 /\ no_writes b tr)
  \/ exists before installer after o',
       tr = (before ++ installer ++ after)%list
       /\ runs (flashme (OUTFD fd) compext slot ld) installer o' /\ no_writes b (before ++ after)
       /\ if ends o' =? 0 then (exists s, o = Returned s) /\ exists s, Ran (done_message fd) s ∈ after
          else o = Exited 1 /\ forall s, Ran (done_message fd) s ∉ after.
Proof.
  unfold update_binary. intros H. apply runs_returns in H as (DIR & t1 & tr1 & -> & H1 & H); [|walk].
  assert (no_writes b t1) as Hw1 by (apply (without_runs _ (capture ["dirname"; ZIPFILE]) t1 (Returned DIR)); [walk|exact H1]).
  apply runs_bind in H as [(s2 & t2 & tr2 & -> & H2 & H)|(n & H2 & ->)].
  - right. pose proof (without_runs _ _ _ _ (prepare_quiet fd ZIPFILE b) H2) as Hw2.
    apply runs_bind in H as [(status & t3 & t4 & -> & H3 & H)|(n & H3 & _)].
    2: { apply runs_subshell in H3 as (o' & _ & [=]). }
    apply runs_subshell in H3 as (o' & H3 & [= ->]). exists (t1 ++ t2)%list, t3, t4, o'.
    split; [by rewrite <- app_assoc|]. split; [exact H3|].
    destruct (ends o' =? 0); cbn [negb] in H.
    + split; [|by apply finish_done]. repeat apply Forall_app_2; [exact Hw1|exact Hw2|].
      exact (without_runs _ _ _ _ (finish_quiet fd b) H).
    + split; [|split; [by apply (abort_exits fd "" t4)|intros s; by apply (abort_not_done fd t4 o)]].
      repeat apply Forall_app_2; [exact Hw1|exact Hw2|]. exact (without_runs _ _ _ _ (abort_quiet fd b "") H).
  - left. assert (n = 1) as -> by exact (exits_runs _ _ _ _ (prepare_exits fd ZIPFILE) H2). split; [done|].
    apply Forall_app_2; [exact Hw1|]. exact (without_runs _ _ _ _ (prepare_quiet fd ZIPFILE b) H2).
Qed.

(** A device where every command succeeds and tests fail, and listings are not
    empty. *)
Definition device_output (cmd : list word) : string :=
  match cmd with "ls" :: _ => "dd sh" | [c; "--list"] => "dd sh" | _ => plain_output cmd end.
Definition device_run : list event * outcome Z :=
  answer plain_status device_output (update_binary "3" "/sdcard/akb.zip" "" "" "").

Lemma update_binary_correct_witness :
  device_run.2 = Returned 0
  /\ exists installer o', runs (flashme "/proc/self/fd/3" "" "" "") installer o' /\ ends o' = 0.
Proof.
  assert (device_run.2 = Returned 0) as E by (vm_compute; reflexivity). split; [exact E|].
  destruct (update_binary_correct "3" "/sdcard/akb.zip" "" "" "" "block/boot" device_run.1 device_run.2)
    as [[E1 _]|(before & installer & after & o' & _ & H & _ & Ho)].
  - apply answer_runs.
  - rewrite E in E1. discriminate E1.
  - exists installer, o'. split; [exact H|]. destruct (Z.eqb_spec (ends o') 0) as [E0|_]; [exact E0|].
    destruct Ho as [Ho _]. rewrite E in Ho. discriminate Ho.
Defined.
