(* ===== verification/Build.v ===== *)
(** * The build scripts: sources/bin, btool and install

    sources/bin has the scripts a user runs, as the commands akb_init,
    akb_prepare, akb_build and akb_clean: they set a kernel source tree up,
    configure and build it.  btool compiles them with akb_cc and packs them, and
    install/installer.sh copies them to a system.  The variables a script uses
    and does not set are those of the environment.  The words of an [echo] are
    written as the text they print. *)
From Stdlib Require Import Ascii.
From S2P Require Import Prelude Shell.

#[local] Open Scope string_scope.
#[local] Open Scope Z_scope.

(** ** Under [set -e]

    A command that fails ends the script with its status. *)

Definition run_e (cmd : list word) : sh Z := status ← run cmd; if status =? 0 then Ret 0 else Exit status.

Fixpoint run_all_e (cmds : list (list word)) : sh Z :=
  match cmds with
  | [] => Ret 0
  | c :: cmds => _ ← run_e c; run_all_e cmds
  end.

(** An assignment [x=$(command)] fails with its command. *)
Definition capture_e (cmd : list word) : sh string := Out cmd (fun o s => if s =? 0 then Ret o else Exit s).

(** The outputs of commands that are not looked at. *)
Fixpoint capture_all (cmds : list (list word)) : sh (list string) :=
  match cmds with
  | [] => Ret []
  | c :: cmds => o ← capture c; os ← capture_all cmds; Ret (o :: os)
  end.

(** [export name=value] and [export name=$(command)], which has the status of
    [export]. *)
Definition export (name value : string) : sh string := _ ← run ["export"; name ++ "=" ++ value]; Ret value.
Definition export_output (name : string) (cmd : list word) : sh string := o ← capture cmd; export name o.

Definition colour (code : string) : string := "\x1b[" ++ code.
Definition y : string := colour "93;01m".
Definition cy : string := colour "96;01m".
Definition g : string := colour "92;01m".
Definition m : string := colour "95;01m".
Definition ver : string := "1.5-nightly".
Definition newline : string := String "010"%char "".

Definition sed (line file : word) : list word := ["sed"; "-n"; line; file].
(** The title, with the spaces that each script has. *)
Definition banner (indent before after by_after : string) : list word :=
  let line := newline ++ indent ++ cy in
  ["echo"; "-e";
   line ++ "****************************************************"
    ++ line ++ "*" ++ before ++ "Automatic kernel builder v" ++ ver ++ after ++ "*"
    ++ line ++ "*                   by xyzmean" ++ by_after ++ "*"
    ++ line ++ "****************************************************" ++ newline ++ indent ++ y].

Definition prepare_banner : list word := banner "" "           " "  " "                     ".

(** ** sources/bin/init.sh *)

(** make.prop, line by line: a comment and a value in turns. *)
Definition make_prop : list string :=
  ["// YOUR NAME (a.k.a build user)"; "name_here"; "// ARCH (arm/arm64)"; "arch_here"; "// DEFCONFIG NAME"; "defconfig_here";
   "// BUILD HOST"; "build_host_here"; "// CPU"; "cpu_here"; "// Device"; "device_here";
   "// Image type (zImage/Image/Image.gz-dtb/...)"; "image_type_here"; "// GCC perfix"; "gcc_perfix_here";
   "// Boot.img location"; "boot.img_location_here"].

(** The makefile it writes; that of makeproj.sh names the commands with a
    directory. *)
Definition quoted (text : string) : string := String "034"%char text ++ String "034"%char "".

Definition target (name title trailer command : string) : list string :=
  [name ++ ":"; String "009"%char "@echo " ++ quoted ("Building <" ++ title ++ ">") ++ trailer; String "009"%char "@" ++ command].

Definition makefile (dir : string) : string :=
  foldr (fun line text => line ++ newline ++ text) "# END MAKEFILE"
    (("### MAKEFILE GENERATED BY AKB" ++ String "034"%char "") :: "# BEGIN MAKEFILE" :: concat
      [target "prepare" "Prepare" "" (dir ++ "akb_prepare"); target "build" "Build" " " (dir ++ "akb_build");
       target "clean" "Clean" "" (dir ++ "akb_clean")]).

Definition init : sh Z := run_all [
  ["echo"; "-e"; g ++ " Please wait..." ++ y];
  ["mkdir"; "../tmp"];
  ["mv"; "*"; "../tmp"];
  ["sleep"; "2"];
  ["cp"; "-rf"; "/usr/otagen"; "./"];
  ["mkdir"; "sources"];
  ["mkdir"; "gcc"];
  ["mv"; "../tmp/*"; "sources/"];
  ["mv"; ".git"; "sources/"];
  ["rm"; "-rf"; "../tmp"];
  ["sleep"; "1"];
  ["echo"; "-e"; g ++ "  GENERATING MAKE.PROP!" ++ y];
  ["sleep"; "1"];
  ["echo"; String.concat newline make_prop; ">"; "make.prop"];
  ["cat"; "make.prop"];
  ["sleep"; "2"];
  ["echo"; "-e"; g ++ "  MAKE.PROP GENERATED!" ++ y];
  ["echo"; " "];
  ["echo"; " "];
  ["echo"; "-e"; g ++ "  GENERATING MAKEFILE" ++ y];
  ["echo"; makefile ""; ">"; "makefile"];
  ["cat"; "makefile"];
  ["sleep"; "1"];
  ["echo"; "-e"; g ++ "  MAKEFILE GENERATED!" ++ y];
  ["sleep"; "1"];
  ["echo"; " Done!"]].

(** ** sources/bin/clean.sh *)

Definition clean : sh Z := run_all [
  ["echo"; "Starting AKB Cleaner..."];
  ["sleep"; "5"];
  ["echo"; "AKB Cleaner started!"];
  ["echo"; "Cleaning..."];
  ["rm"; "-rf"; "out"];
  ["rm"; "-rf"; "outkernel"];
  ["rm"; "-rf"; "outzip"];
  ["sleep"; "5"];
  ["echo"; "Clean success!"]].

Section Environment.
(** The variables that the scripts below use and never set themselves. *)
Context (author bh : string).
Context (device arch imgt stamp archp gcc th otazip PWD : string).
(** [$(($end - $strt))] of two outputs. *)
Context (difference : string -> string -> string).

(** ** sources/bin/prepare.sh and prepare_install.sh *)

Definition exportcm (arch : string) : list (list word) :=
  [["export"; "ARCH=" ++ arch]; ["export"; "TARGET_ARCH=" ++ arch];
   ["export"; "KBUILD_BUILD_USER=" ++ author]; ["export"; "KBUILD_BUILD_HOST=" ++ bh]].

(** What both do after [set -e], with their commands for cleaning and building. *)
Definition configure (akb_clean akb_build device arch conf : string) : sh Z :=
  _ ← run_all_e [[akb_clean]; ["rm"; "-f"; "gen.info"]; ["mkdir"; "out"]; ["mkdir"; "out/build"]; ["mkdir"; "out/kernel"];
                 ["mkdir"; "out/ota"]];
  _ ← run_all_e (exportcm arch);
  stamp ← capture_e ["date"; "+%H:%M:%S %Y.%m.%d"];
  run_all_e [["echo"; "generated by fuldaros's script on " ++ stamp ++ " "; ">gen.info"]; ["cd"; "sources"];
             ["make"; "O=../out/build/" ++ device; conf]; ["cd"; "../"]; [akb_build]].

Definition prepare : sh Z :=
  _ ← export_output "a1" (sed "2p" "make.prop");
  _ ← export_output "a2" (sed "8p" "make.prop");
  a3 ← export_output "a3" (sed "4p" "make.prop");
  _ ← export_output "a4" ["date"; "+%Y.%m.%d %H:%M"];
  _ ← export_output "a5" ["date"; "+%d.%m.%Y-%H:%M"];
  _ ← export "a6" ("logb_" ++ stamp);
  _ ← export "a7" ("ota_akb_" ++ stamp);
  a8 ← export_output "a8" (sed "12p" "make.prop");
  _ ← export_output "a9" (sed "10p" "make.prop");
  _ ← export_output "a10" (sed "14p" "make.prop");
  _ ← export_output "a11" (sed "18p" "make.prop");
  _ ← export_output "a12" (sed "16p" "make.prop");
  _ ← export "a13" "1";
  _ ← run ["clear"];
  conf ← capture (sed "6p" "make.prop");
  let arch := a3 in
  let device := a8 in
  _ ← run_all [prepare_banner; ["sleep"; "3"]];
  configure "./bin/akb_clean" "./bin/akb_build" device arch conf.

Definition prepare_install : sh Z :=
  _ ← run ["clear"];
  device ← capture (sed "12p" "make.prop");
  conf ← capture (sed "6p" "make.prop");
  arch ← capture (sed "4p" "make.prop");
  _ ← run_all [prepare_banner; ["sleep"; "3"]];
  configure "akb_clean" "akb_build" device arch conf.

(** ** sources/bin/build.sh

    The values of make.prop go to a1, ..., a13; [linkvar] copies them to
    variables of its own, so that device, arch, imgt and the others are those of
    the environment afterwards.  The line break inside the command for a9 makes
    it a list of two commands.  exportmkval, printinfo and mkota are not
    functions of this script. *)

Definition cleantmp : list (list word) :=
  [["rm"; "-rf"; "out/build/" ++ device ++ "/include/generated/compile.h"]; ["rm"; "-f"; "zImage"]; ["rm"; "-f"; "generated.info"];
   ["rm"; "-f"; "author.prop"]].

(** The outputs of its commands are assigned to variables of its own. *)
Definition linkvar : sh (list string) :=
  capture_all [["dpkg"; "--print-architecture"]; ["cat"; "/proc/cpuinfo"; "|"; "grep"; "processor"; "|"; "wc"; "-l"]].

(** After the variables are set. *)
Definition build_kernel : sh Z :=
  let kernel := imgt ++ "_" ++ stamp in
  _ ← run_all_e [["exportmkval"]; ["printinfo"]; ["sleep"; "4"]];
  _ ← (if String.eqb archp "amd64" then run_e ["export"; "CROSS_COMPILE=" ++ PWD ++ "/gcc/bin/" ++ gcc]
       else run_e ["echo"; "Your arch not amd64!"]);
  _ ← run_all_e [["cd"; "sources/"]; ["echo"; "-e"; g ++ " Building the kernel..." ++ y]];
  strt ← capture_e ["date"; "+%s"];
  _ ← run_all_e [["make"; "-j" ++ th; "O=../out/build/" ++ device; imgt]; ["clear"];
    banner "" "           " "          " "                    ";
    ["echo"; "-e"; g ++ " Build completed!" ++ newline ++ "  Moving the kernel to out/kernel... " ++ y]; ["sleep"; "3"];
    ["cat"; "../out/build/" ++ device ++ "/arch/" ++ arch ++ "/boot/" ++ imgt; ">../out/kernel/" ++ kernel];
    ["rm"; "-rf"; "../out/build/" ++ device ++ "/arch/" ++ arch ++ "/boot/"]; ["cd"; "../"]; ["mkota"];
    ["echo"; "-e"; g ++ " Removing temporary files..." ++ y]; ["sleep"; "1"]];
  _ ← run_all_e cleantmp;
  _ ← run_e ["echo"; "-e"; g ++ " Done! OTA package name: " ++ otazip ++ ".zip" ++ y];
  end_ ← capture_e ["date"; "+%s"];
  run_all_e [["echo"; "Operation completed successfully!"]; ["sleep"; "2"];
    ["echo"; "-e"; m ++ " Compilation took " ++ difference end_ strt ++ " seconds!"]].

Definition build : sh Z :=
  _ ← export_output "a1" (sed "2p" "make.prop");
  _ ← export_output "a2" (sed "8p" "make.prop");
  _ ← export_output "a3" (sed "4p" "make.prop");
  a4 ← export_output "a4" ["date"; "+%Y.%m.%d %H:%M"];
  _ ← export_output "a5" ["date"];
  _ ← export "a6" ("logb_" ++ a4);
  a8 ← export_output "a8" (sed "12p" "make.prop");
  _ ← export "a7" ("ota_" ++ a8 ++ "_" ++ a4);
  _ ← export_output "a9" (sed "10p" "make" ++ [newline; ".prop"])%list;
  _ ← export_output "a10" (sed "14p" "make.prop");
  _ ← export_output "a11" (sed "18p" "make.prop");
  _ ← export_output "a12" (sed "16p" "make.prop");
  _ ← export "a13" "1";
  ch1 ← capture (sed "19p" "make.prop");
  if nonempty ch1 then
    status ← run ["echo"; "FATAL! Bad make.prop"];
    Exit status
  else
    _ ← run_all [["clear"]; banner "    " "       " "      " "                     "; ["sleep"; "3"]];
    _ ← linkvar;
    build_kernel.
End Environment.

(** ** btool *)

Definition greeting (text : string) : list (list word) := [["echo"; "-e"; g ++ text ++ y]; ["sleep"; "2"]].

(** prepare.sh: the tools of bootimg_tools for the package. *)
Definition btool_prepare : sh Z := run_all [
  ["echo"; "MAKING bootimg_tools"];
  ["sleep"; "3"];
  ["mkdir"; "tmplib/"];
  ["cd"; "bootimg_tools"];
  ["make"; "all"];
  ["cp"; "-rf"; "mkbootimg/mkbootimg"; "../tmplib"];
  ["cat"; "mkbootimg/unmkbootimg"; ">"; "mkbootimg/unpackbootimg"];
  ["mv"; "mkbootimg/unpackbootimg"; "../tmplib"];
  ["make"; "clean"];
  ["echo"; "Done!"];
  ["sleep"; "3"];
  ["cd"; "../"]].

Definition gen_cc : sh Z := run_all [
  ["cd"; "cc/"]; ["make"]; ["cd"; ".."]; ["cp"; "-rf"; "cc/akb_cc"; "btool"]; ["rm"; "-rf"; "cc/akb_cc"]].

(** build_btool.sh, build_btool_dpkg.sh and build_btool_install.sh compile a
    script of btool and run it; they differ in its name and in a message. *)
Definition compile_and_run (script : string) : list (list word) := [
  ["./akb_cc"; "-v"; "-f"; script ++ ".sh"];
  ["rm"; "-f"; script ++ ".sh.x.c"];
  ["cd"; "../"];
  ["cat"; "btool/" ++ script ++ ".sh.x"; ">"; "binary_btool/" ++ script];
  ["rm"; "-f"; "btool/" ++ script ++ ".sh.x"];
  ["chmod"; "777"; "binary_btool/" ++ script];
  ["./binary_btool/" ++ script]].

Definition build_btool_with (message script : string) : sh Z :=
  run_all (concat [greeting message; [["cd"; "btool"]; ["mkdir"; "../binary_btool"]]; compile_and_run script]).

Definition build_btool : sh Z := build_btool_with "  BUILDING GEN_AKB" "gen_akb".
Definition build_btool_dpkg : sh Z := build_btool_with "  BUILDING GEN_AKB_INSTALL" "gen_akb_dpkg".
Definition build_btool_install : sh Z := build_btool_with "  BUILDING GEN_AKB_INSTALL" "gen_akb_install".

(** gen_akb.sh, gen_akb_install.sh and gen_akb_dpkg.sh do the same with the
    script that packs, and pack what it leaves. *)
Definition pack_with (script : string) : list (list word) :=
  concat [greeting "  BUILDING BTOOL'S"; [["cd"; "btool"]]; compile_and_run script;
    [["chmod"; "-R"; "777"; "build/"]; ["rm"; "-rf"; "binary_btool/"]]].

Definition zip_with (name : string) : list (list word) :=
  concat [
    [["cd"; "build/"]; ["mkdir"; "../tmp"]; ["mkdir"; "../tmp/akb_" ++ ver]; ["cp"; "-rf"; "*"; "../tmp/akb_" ++ ver];
     ["cd"; "../tmp/"]; ["rm"; "-rf"; "../out/" ++ name ++ "_" ++ ver ++ "-release.zip"]; ["mkdir"; "../out"]];
    greeting "  BUILDING ZIP PACKAGE";
    [["zip"; "-r"; "../out/" ++ name ++ "_" ++ ver ++ "-release.zip"; "*"]; ["cd"; "../"]; ["rm"; "-rf"; "tmp/"]];
    greeting "  DONE!"].

Definition gen_akb : sh Z := run_all (concat [pack_with "makeproj"; zip_with "akb"]).
Definition gen_akb_install : sh Z := run_all (concat [pack_with "makeinstall"; zip_with "akb_installer"]).
Definition gen_akb_dpkg : sh Z := run_all (concat [pack_with "makedpkg";
  [["mkdir"; "out"]; ["cd"; "out"]; ["dpkg"; "-b"; "../dpkg_tmp"]; ["mv"; "../dpkg_tmp.deb"; "akb_" ++ ver ++ ".deb"]; ["cd"; "../"];
   ["rm"; "-rf"; "dpkg_tmp/"]]]).

(** A script of [dir] compiled, its program written to [output]. *)
Definition compile_to (akb_cc file output : string) : list (list word) := [
  [akb_cc; "-v"; "-f"; file ++ ".sh"];
  ["rm"; "-f"; file ++ ".sh.x.c"];
  ["cat"; file ++ ".sh.x"; ">"; output];
  ["rm"; "-rf"; file ++ ".sh.x"]].

(** The function [makej] of makedpkg.sh and makeinstall.sh. *)
Definition makej (file : string) : list (list word) := compile_to "../../btool/akb_cc" file ("../../build/maked/akb_" ++ file).

(** The commands both compile. *)
Definition make_commands : list (list word) :=
  concat [[["rm"; "-rf"; "build/"]; ["mkdir"; "build/"]; ["mkdir"; "build/maked"]; ["cp"; "-rf"; "sources/otagen/"; "build/"];
    ["cp"; "-rf"; "tmplib/*"; "build/otagen/"]; ["rm"; "-rf"; "tmplib"]; ["cd"; "sources/bin"];
    ["echo"; "-e"; g ++ "  BUILDING BINARY" ++ y]; ["sleep"; "3"]];
    makej "build"; compile_to "../../btool/akb_cc" "prepare_install" "../../build/maked/akb_prepare"].

Definition makedpkg : sh Z := run_all (concat [make_commands; makej "init"; makej "clean";
  [["cd"; "../../"]; ["mkdir"; "-p"; "dpkg_tmp/usr/bin"]; ["cp"; "-rf"; "deb_prop/*"; "dpkg_tmp/"];
   ["cp"; "-rf"; "build/maked/*"; "dpkg_tmp/usr/bin"]; ["cp"; "-rf"; "sources/otagen"; "dpkg_tmp/usr/"];
   ["chmod"; "755"; "dpkg_tmp/usr/bin/*"]]]).

Definition makeinstall : sh Z := run_all (concat [make_commands; makej "clean"; makej "init"; [["cd"; "../../install"]];
  compile_to "../btool/akb_cc" "installer" "../build/installer"]).

Definition makeproj : sh Z := run_all (concat [
   [["rm"; "-rf"; "build/"]; ["mkdir"; "build/"]; ["mkdir"; "build/bin"]; ["mkdir"; "build/sources"];
    ["cp"; "-rf"; "sources/otagen/"; "build/"]; ["cp"; "-rf"; "tmplib/*"; "build/otagen/"]; ["mkdir"; "build/gcc"];
    ["cp"; "-rf"; "LICENSE"; "build/"]; ["cp"; "-rf"; "sources/make.prop"; "build/"]; ["cp"; "-rf"; "README.md"; "build/"];
    ["cd"; "sources/bin"]; ["echo"; "-e"; g ++ "  BUILDING BINARY" ++ y]; ["sleep"; "3"]];
   concat (map (fun file => compile_to "../../btool/akb_cc" file ("../../build/bin/akb_" ++ file)) ["build"; "prepare"; "clean"]);
   [["cd"; "../"]; ["sleep"; "1"]; ["echo"; "-e"; g ++ "  GENERATING MAKEFILE" ++ y]; ["echo"; makefile "./bin/"; ">"; "../build/makefile"];
       ["sleep"; "1"]; ["cat"; "../build/makefile"]; ["sleep"; "1"]; ["echo"; "-e"; g ++ "  MAKEFILE GENERATED!" ++ y]]]).

(** ** install/installer.sh *)

Definition installer : sh Z := run_all [
  ["echo"; "Copying files..."];
  ["sudo"; "cp"; "-rf"; "maked/*"; "/usr/bin"];
  ["sudo"; "cp"; "-rf"; "otagen/"; "/usr"];
  ["sudo"; "chmod"; "755"; "/usr/bin/akb_*"];
  ["sleep"; "2"];
  ["echo"; "Done!"]].

(** * Lemmas *)

Lemma run_e_ok cmd tr (a : Z) : runs (run_e cmd) tr (Returned a) -> tr = [Ran cmd 0].
Proof.
  intros H. unfold run_e in H. inversion H as [| |c k s t o H'|]; subst. destruct (s =? 0) eqn:E; [|by inversion H'].
  apply Z.eqb_eq in E as ->. by inversion H'.
Qed.

Lemma run_all_e_ok cmds tr (a : Z) : runs (run_all_e cmds) tr (Returned a) -> tr = map (fun c => Ran c 0) cmds.
Proof.
  revert tr. induction cmds as [|c cmds IH]; intros tr H; [by inversion H|]. cbn [run_all_e] in H.
  apply runs_after in H as (s & t1 & t2 & -> & H1 & H). apply run_e_ok in H1 as ->. by rewrite (IH _ H).
Qed.

Lemma run_all_e_without W cmds : Forall (fun c => W c = false) cmds -> without W (run_all_e cmds).
Proof.
  intros H. induction H as [|c cmds Hc H IH]; [done|]. cbn [run_all_e]. apply without_bind; [|done].
  split; [exact Hc|]. intros s. change (without W (if s =? 0 then Ret 0 else Exit s)). by destruct (s =? 0).
Qed.

Lemma capture_all_without W cmds : Forall (fun c => W c = false) cmds -> without W (capture_all cmds).
Proof.
  intros H. induction H as [|c cmds Hc H IH]; [done|]. cbn [capture_all]. apply without_bind; [by split|]. intros o.
  by apply without_bind.
Qed.

(** A script without branches runs its commands. *)
Lemma run_all_commands cmds tr o : runs (run_all cmds) tr o -> map command tr = cmds.
Proof.
  revert tr. induction cmds as [|c cmds IH]; intros tr H; [by inversion H|]. destruct cmds as [|c' cmds].
  - cbn [run_all] in H. inversion H as [| |? ? s t ? H'|]; subst. by inversion H'.
  - change (runs (_ ← run c; run_all (c' :: cmds)) tr o) in H. apply runs_returns in H as (s & t1 & t2 & -> & H1 & H); [|done].
    inversion H1 as [| |? ? s' t ? H'|]; subst. inversion H'; subst. cbn [app map command]. f_equal. by apply IH.
Qed.

Lemma export_runs {B} name value (f : string -> sh B) tr o : runs (export name value ≫= f) tr o ->
  exists s tr', tr = Ran ["export"; name ++ "=" ++ value] s :: tr' /\ runs (f value) tr' o.
Proof. intros H. inversion H as [| |c k s tr' o' H'|]; subst. by exists s, tr'. Qed.

Lemma export_output_runs {B} name cmd (f : string -> sh B) tr o : runs (export_output name cmd ≫= f) tr o ->
  exists out s s' tr', tr = Got cmd out s :: Ran ["export"; name ++ "=" ++ out] s' :: tr' /\ runs (f out) tr' o.
Proof.
  intros H. inversion H as [| | |c k out s tr' o' H']; subst. inversion H' as [| |c k' s' tr'' o' H''|]; subst.
  by exists out, s, s', tr''.
Qed.

Lemma capture_runs {B} cmd (f : string -> sh B) tr o : runs (capture cmd ≫= f) tr o ->
  exists out s tr', tr = Got cmd out s :: tr' /\ runs (f out) tr' o.
Proof. intros H. inversion H as [| | |c k out s tr' o' H']; subst. by exists out, s, tr'. Qed.

(** Goes through the settings of a script. *)
Ltac export_values H :=
  repeat (first [apply export_output_runs in H as (? & ? & ? & ? & -> & H) | apply export_runs in H as (? & ? & -> & H)]; cbn beta in H).

Section Build.
Context (device arch imgt stamp archp gcc th otazip PWD : string) (difference : string -> string -> string).
#[local] Abbreviation build := (build device arch imgt stamp archp gcc th otazip PWD difference).
#[local] Abbreviation build_kernel := (build_kernel device arch imgt stamp archp gcc th otazip PWD difference).

Definition is_make (cmd : list word) : bool := match cmd with c :: _ => String.eqb c "make" | [] => false end.
Definition is_exportmkval (cmd : list word) : bool := match cmd with c :: _ => String.eqb c "exportmkval" | [] => false end.

(** build.sh up to [set -e], or its end for a make.prop that is too long. *)
Lemma build_cases tr o :
  runs build tr o ->
  exists before after, tr = (before ++ after)%list
    /\ Forall (fun e => is_make (command e) = false /\ is_exportmkval (command e) = false) before
    /\ (after = [] \/ runs build_kernel after o).
Proof.
  unfold Build.build. intros H.
  assert (forall {A} (p : sh A) t o', without (fun c => is_make c || is_exportmkval c) p -> runs p t o' ->
    Forall (fun e => is_make (command e) = false /\ is_exportmkval (command e) = false) t) as Hq.
  { intros A p t o' Hp Ht. eapply Forall_impl; [exact (without_runs _ p t o' Hp Ht)|]. intros e He. by apply orb_false_iff in He. }
  assert (exists t1 t2, tr = (t1 ++ t2)%list
    /\ Forall (fun e => is_make (command e) = false /\ is_exportmkval (command e) = false) t1
    /\ runs (ch1 ← capture (sed "19p" "make.prop");
             if nonempty ch1 then status ← run ["echo"; "FATAL! Bad make.prop"]; Exit status
             else (_ ← run_all [["clear"]; banner "    " "       " "      " "                     "; ["sleep"; "3"]]; _ ← linkvar; build_kernel)) t2 o)
    as (t1 & t2 & -> & H1 & H').
  { export_values H. match goal with |- exists t1 t2, ?tr = _ /\ _ => exists (take 23 tr), (drop 23 tr) end.
    rewrite take_drop. split; [done|]. split; [|exact H]. cbn [take]. repeat constructor. }
  clear H. rename H' into H.
  apply runs_returns in H as (ch1 & t3 & t4 & -> & H2 & H); [|walk]. apply Hq in H2; [|walk]. destruct (nonempty ch1).
  - exists (t1 ++ t3 ++ t4)%list, []. rewrite app_nil_r. split; [done|]. split; [|by left].
    apply Hq in H; [|walk]. by repeat apply Forall_app_2.
  - apply runs_returns in H as (? & t5 & t6 & -> & H3 & H); [|walk]. apply Hq in H3; [|walk].
    apply runs_returns in H as (? & t7 & t8 & -> & H4 & H); [|walk]. apply Hq in H4; [|walk].
    exists (t1 ++ t3 ++ t5 ++ t7)%list, t8. rewrite <- !app_assoc. split; [done|]. split; [by repeat apply Forall_app_2|by right].
Qed.

Definition functions_ran (tr : list event) : Prop := Ran ["exportmkval"] 0 ∈ tr /\ Ran ["printinfo"] 0 ∈ tr.

Lemma functions_ran_mono tr tr' : functions_ran tr -> functions_ran (tr ++ tr')%list.
Proof. intros [H1 H2]. split; apply elem_of_app; by left. Qed.

Lemma build_kernel_make before tr o : runs build_kernel tr o -> only_after is_make functions_ran before tr.
Proof.
  intros H. unfold Build.build_kernel in H. eapply only_after_bind; [|exact H|]; [by apply run_all_e_without; repeat constructor|].
  clear H. intros a tr1 tr2 H1 _. apply only_after_ready; [exact functions_ran_mono|]. apply run_all_e_ok in H1 as ->.
  split; apply elem_of_app; right; cbn [map]; find_event.
Qed.

Lemma build_kernel_start tr o :
  runs build_kernel tr o ->
  exists s rest, tr = (Ran ["exportmkval"] s :: rest)%list /\ Forall (fun e => is_exportmkval (command e) = false) rest
    /\ (s <> 0 -> rest = [] /\ o = Exited s).
Proof.
  intros H. unfold Build.build_kernel in H. cbn [run_all_e] in H.
  inversion H as [| |c k s t o' H'|]; subst. exists s, t. split; [done|]. split.
  - refine (without_runs is_exportmkval _ t o _ H'). destruct (s =? 0); walk.
  - intros Hs. destruct (Z.eqb_spec s 0) as [|_]; [done|]. by inversion H'.
Qed.
End Build.

(** C35. In every run of akb_build, the kernel is made only after the commands
    exportmkval and printinfo have run without an error, which neither this
    script nor another of the repository defines: when the first is not found,
    or fails, the script ends there with its status and makes nothing. *)
Theorem build_needs_functions device arch imgt stamp archp gcc th otazip PWD difference tr o :
  runs (build device arch imgt stamp archp gcc th otazip PWD difference) tr o ->
  (forall pre e post, tr = (pre ++ e :: post)%list -> is_make (command e) = true -> functions_ran pre)
  /\ forall s, s <> 0 -> Ran ["exportmkval"] s ∈ tr -> o = Exited s /\ Forall (fun e => is_make (command e) = false) tr.
Proof.
  intros H. apply build_cases in H as (before & after & -> & Hb & Hk).
  assert (Forall (fun e => is_make (command e) = false) before) as Hm by (eapply Forall_impl; [exact Hb|]; by intros e []).
  split.
  - enough (only_after is_make functions_ran [] (before ++ after)) as Ho by (exact Ho).
    apply only_after_app; [by apply only_after_quiet|]. destruct Hk as [->|Hk]; [by apply only_after_quiet|].
    by eapply build_kernel_make.
  - intros s Hs Hin. apply elem_of_app in Hin as [Hin|Hin].
    + rewrite Forall_forall in Hb. by destruct (Hb _ Hin).
    + destruct Hk as [->|Hk]; [by apply not_elem_of_nil in Hin|].
      apply build_kernel_start in Hk as (s' & rest & -> & Hr & Hs'). apply elem_of_cons in Hin as [[= <-]|Hin].
      * destruct (Hs' Hs) as [-> ->]. split; [done|]. apply Forall_app_2; [exact Hm|]. by constructor.
      * rewrite Forall_forall in Hr. by specialize (Hr _ Hin).
Qed.

(** A system where exportmkval is not found. *)
Definition not_found (cmd : list word) : Z := match cmd with ["exportmkval"] => 127 | _ => 0 end.
Definition build_run : list event * outcome Z :=
  answer not_found (fun _ => "") (build "" "" "" "" "" "" "" "" "/src" (fun _ _ => "")).

Lemma build_needs_functions_witness :
  Ran ["exportmkval"] 127 ∈ build_run.1 /\ build_run.2 = Exited 127 /\ Forall (fun e => is_make (command e) = false) build_run.1.
Proof.
  assert (Ran ["exportmkval"] 127 ∈ build_run.1) as H by (vm_compute; find_event). split; [exact H|].
  apply (build_needs_functions "" "" "" "" "" "" "" "" "/src" (fun _ _ => "") build_run.1 build_run.2); [apply answer_runs|done|exact H].
Defined.

(** ** make.prop *)

Lemma sed_lines lines : Forall (fun l => no_newline l = true) lines ->
  text_lines "" (foldr (fun line text => line ++ newline ++ text) "" lines) = (lines, "").
Proof.
  intros H. induction H as [|l lines Hl H IH]; [done|]. cbn [foldr]. change (newline ++ ?t) with (String "010"%char t).
  rewrite text_lines_line by done. by rewrite IH.
Qed.

(** The text of a file, and the template with the values of a user. *)
Definition file_text (lines : list string) : string := foldr (fun line text => line ++ newline ++ text) "" lines.

Fixpoint fill (lines values : list string) : list string :=
  match lines, values with
  | comment :: _ :: lines, v :: values => comment :: v :: fill lines values
  | _, _ => lines
  end.

Example make_prop_written : String.concat newline make_prop ++ newline = file_text make_prop.
Proof. reflexivity. Qed.

(** The number of a sed script [<n>p]. *)
Fixpoint line_number (n : nat) (script : string) : option nat :=
  match script with
  | EmptyString => None
  | String c rest =>
      if Ascii.eqb c "p"%char then (if String.eqb rest "" then Some n else None)
      else d ← Ascii.is_nat c; line_number (10 * n + d) rest
  end.

(** [sed -n] with such a script prints that line of make.prop. *)
Definition sed_prints (text : string) (e : event) : Prop :=
  match e with
  | Got ["sed"; "-n"; script; "make.prop"] out _ => forall n, line_number 0 script = Some n -> out = sed_line n text
  | _ => True
  end.

Definition exports (tr : list event) : list string :=
  omap (fun cmd => match cmd with ["export"; setting] => Some setting | _ => None end) (map command tr).
Definition makes (tr : list event) : list (list word) := List.filter is_make (map command tr).


(** What akb_prepare sets and makes for an architecture, a device and a
    configuration: with [before] it exports these settings, in this order, as far
    as it comes, and it runs no other make. *)
Definition settings (author bh arch : string) : list string :=
  ["ARCH=" ++ arch; "TARGET_ARCH=" ++ arch; "KBUILD_BUILD_USER=" ++ author; "KBUILD_BUILD_HOST=" ++ bh].

Definition configured (author bh arch device conf : string) (before : list string) (tr : list event) (o : outcome Z) : Prop :=
  let make := ["make"; "O=../out/build/" ++ device; conf] in
  (exists after, exports tr = (before ++ after)%list /\ after `prefix_of` settings author bh arch)
  /\ (makes tr = [] \/ makes tr = [make])
  /\ forall a, o = Returned a -> exports tr = (before ++ settings author bh arch)%list /\ makes tr = [make].

(** The commands of a script under [set -e]. *)
Definition straight {A} (p : sh A) (cmds : list (list word)) : Prop := forall tr o, runs p tr o ->
  map command tr `prefix_of` cmds /\ forall a, o = Returned a -> map command tr = cmds.

Lemma run_all_e_straight cmds : straight (run_all_e cmds) cmds.
Proof.
  induction cmds as [|c cmds IH]; intros tr o H; [by inversion H|]. cbn [run_all_e] in H.
  apply runs_bind in H as [(s & t1 & t2 & -> & H1 & H)|(n & H & ->)].
  - apply run_e_ok in H1 as ->. destruct (IH _ _ H) as [Hp Hr]. cbn [app map command]. split; [by apply prefix_cons|].
    intros a Ha. by rewrite (Hr a Ha).
  - split; [|done]. inversion H as [| |? ? s t ? H'|]; subst. exists cmds. destruct (s =? 0); by inversion H'.
Qed.

Lemma capture_e_straight cmd : straight (capture_e cmd) [cmd].
Proof.
  intros tr o H. inversion H as [| | |? ? out s t ? H']; subst. assert (t = []) as -> by (destruct (s =? 0); by inversion H').
  by split.
Qed.

Lemma straight_bind {A B} (p : sh A) (f : A -> sh B) L tr o : straight p L -> runs (p ≫= f) tr o ->
  (exists a t1 t2, tr = (t1 ++ t2)%list /\ map command t1 = L /\ runs (f a) t2 o)
  \/ (map command tr `prefix_of` L /\ exists n, o = Exited n).
Proof.
  intros Hp [(a & t1 & t2 & -> & H1 & H2)|(n & H1 & ->)]%runs_bind.
  - left. exists a, t1, t2. split; [done|]. split; [|done]. by eapply Hp.
  - right. split; [by apply Hp in H1 as [? _]|by exists n].
Qed.

Definition configure_commands (author bh akb_clean akb_build device arch conf stamp : string) : list (list word) :=
  [[akb_clean]; ["rm"; "-f"; "gen.info"]; ["mkdir"; "out"]; ["mkdir"; "out/build"]; ["mkdir"; "out/kernel"]; ["mkdir"; "out/ota"]]
  ++ exportcm author bh arch ++ [["date"; "+%H:%M:%S %Y.%m.%d"]]
  ++ [["echo"; "generated by fuldaros's script on " ++ stamp ++ " "; ">gen.info"]; ["cd"; "sources"];
      ["make"; "O=../out/build/" ++ device; conf]; ["cd"; "../"]; [akb_build]].

Lemma configure_straight author bh akb_clean akb_build device arch conf tr o :
  runs (configure author bh akb_clean akb_build device arch conf) tr o ->
  exists stamp, map command tr `prefix_of` configure_commands author bh akb_clean akb_build device arch conf stamp
    /\ forall a, o = Returned a -> map command tr = configure_commands author bh akb_clean akb_build device arch conf stamp.
Proof.
  intros H. unfold configure, configure_commands in *.
  apply straight_bind with (1 := run_all_e_straight _) in H as [(? & t1 & t2 & -> & E1 & H)|[Hp [n ->]]];
    [|exists ""; split; [by apply prefix_app_r|done]].
  apply straight_bind with (1 := run_all_e_straight _) in H as [(? & t3 & t4 & -> & E3 & H)|[Hp [n ->]]];
    [|exists ""; split; [rewrite map_app, E1; apply prefix_app; by apply prefix_app_r|done]].
  apply straight_bind with (1 := capture_e_straight _) in H as [(stamp & t5 & t6 & -> & E5 & H)|[Hp [n ->]]];
    [|exists ""; split; [rewrite !map_app, E1, E3; do 2 apply prefix_app; by apply prefix_app_r|done]].
  exists stamp. apply run_all_e_straight in H as [Hp Hr]. rewrite !map_app, E1, E3, E5. split; [by do 3 apply prefix_app|].
  intros a Ha. by rewrite (Hr a Ha).
Qed.

Lemma omap_prefix {A B} (f : A -> option B) l l' : l `prefix_of` l' -> omap f l `prefix_of` omap f l'.
Proof. intros [k ->]. rewrite omap_app. by apply prefix_app_r. Qed.

Lemma prefix_single {A} (x : A) l : l `prefix_of` [x] -> l = [] \/ l = [x].
Proof. intros [k E]. destruct l as [|a [|b l]]; [by left| |discriminate E]. injection E as ->. by right. Qed.

(** After the commands [tr], which make nothing. *)
Lemma configure_configured author bh cmds device arch conf before tr tr' o :
  cmds ∈ [("akb_clean", "akb_build"); ("./bin/akb_clean", "./bin/akb_build")] ->
  exports tr = before -> makes tr = [] -> runs (configure author bh cmds.1 cmds.2 device arch conf) tr' o ->
  configured author bh arch device conf before (tr ++ tr') o.
Proof.
  intros Hc Ee Em (stamp & Hp & Hr)%configure_straight. set (L := configure_commands _ _ _ _ _ _ _ _) in *.
  assert (omap (fun cmd => match cmd with ["export"; setting] => Some setting | _ => None end) L = settings author bh arch
    /\ List.filter is_make L = [["make"; "O=../out/build/" ++ device; conf]]) as [El Ml].
  { subst L. apply elem_of_cons in Hc as [->|Hc]; [by split|]. apply list_elem_of_singleton in Hc as ->. by split. }
  assert (exports (tr ++ tr') = (before ++ exports tr')%list) as E1 by (unfold exports; by rewrite map_app, omap_app, <- Ee).
  assert (makes (tr ++ tr') = makes tr') as E2.
  { unfold makes in *. rewrite map_app, List.filter_app, Em. done. }
  unfold configured. cbv zeta. rewrite E1, E2. split_and!.
  - eexists. split; [done|]. rewrite <- El. by apply omap_prefix.
  - enough (makes tr' `prefix_of` List.filter is_make L) as Hm by (rewrite Ml in Hm; by apply prefix_single).
    unfold makes. destruct Hp as [k ->]. rewrite List.filter_app. by apply prefix_app_r.
  - intros a Ha. unfold exports, makes. by rewrite (Hr a Ha), El, Ml.
Qed.

Lemma sed_prints_line script n text out s :
  sed_prints text (Got (sed script "make.prop") out s) -> line_number 0 script = Some n -> out = sed_line n text.
Proof. intros H E. by apply H. Qed.

(** The lines of a filled make.prop. *)
Lemma filled_lines name arch defconfig build_host cpu device image_type gcc_perfix location :
  Forall (fun v => no_newline v = true) [name; arch; defconfig; build_host; cpu; device; image_type; gcc_perfix; location] ->
  let text := file_text (fill make_prop [name; arch; defconfig; build_host; cpu; device; image_type; gcc_perfix; location]) in
  forall n, sed_line n text
    = nth (n - 1) (fill make_prop [name; arch; defconfig; build_host; cpu; device; image_type; gcc_perfix; location] ++ [""]) "".
Proof.
  intros H text n. repeat (apply Forall_cons in H as [? H]). unfold text, file_text, sed_line. rewrite sed_lines; [done|].
  repeat constructor; done.
Qed.

Lemma runs_command {A} c (k : Z -> sh A) tr o : runs (Run c k) tr o ->
  exists s tr', tr = Ran c s :: tr' /\ runs (k s) tr' o.
Proof. intros H. inversion H as [| |? ? s tr' o' H'|]; subst. by exists s, tr'. Qed.

(** Goes over one command. *)
Ltac skip_command H :=
  first [apply capture_runs in H as (? & ? & ? & -> & H) | apply runs_command in H as (? & ? & -> & H)]; cbn beta in H.

(** The first [n] events of a run, and those that [H] is about. *)
Ltac split_run n H :=
  match type of H with runs _ ?rest _ =>
    match goal with |- context [configured _ _ _ _ _ _ ?tr _] => change tr with (take n tr ++ rest)%list end end.

(** What sed prints, in the events [Ht] of a run. *)
Ltac read_values Hline Ht :=
  repeat (apply Forall_cons in Ht as [?Hv Ht]);
  repeat match goal with Hv : sed_prints _ ?e |- _ =>
    first [apply sed_prints_line with (2 := eq_refl) in Hv; rewrite Hline in Hv; cbn in Hv; subst | clear Hv] end.

(** The refusal of akb_build. *)
Definition is_bad (cmd : list word) : bool := match cmd with ["echo"; t] => String.eqb t "FATAL! Bad make.prop" | _ => false end.


(** Values of a user, and the answers of a system where everything works. *)
Definition user_values : list string :=
  ["fuldaros"; "arm64"; "x_defconfig"; "host"; "cpu"; "phone"; "Image.gz-dtb"; "aarch64-"; "/dev/block/boot"].
Definition user_text : string := file_text (fill make_prop user_values).
Definition works (cmd : list word) : string :=
  match cmd with
  | ["sed"; "-n"; script; "make.prop"] => match line_number 0 script with Some n => sed_line n user_text | None => "" end
  | _ => ""
  end.
Definition prepare_run : list event * outcome Z := answer (fun _ => 0) works (prepare "author" "bh" "").


(** ** Packages *)

(** The files a script writes programs to. *)
Definition written (tr : list event) : list word :=
  omap (fun cmd => match cmd with ["cat"; _; ">"; output] => Some output | _ => None end) (map command tr).

Definition akb_commands : list word := ["akb_prepare"; "akb_build"; "akb_clean"].

(** A command of the package that is not among these. *)
Definition foreign (dir : string) (cmd : list word) : bool :=
  match cmd with
  | c :: _ => String.prefix (dir ++ "akb_") c && negb (existsb (fun a => String.eqb c (dir ++ a)) akb_commands)
  | [] => false
  end.

(** The packages are complete: every run of makedpkg and of makeinstall
    writes akb_init and the commands of its makefile, every run of makeproj
    those of the makefile in the tree, and the scripts compiled as akb_prepare
    and akb_build run no other akb command, whatever the commands answer. *)
Theorem packages_complete :
  (forall script tr o, script ∈ [makedpkg; makeinstall] -> runs script tr o ->
     forall c, c ∈ "akb_init" :: akb_commands -> ("../../build/maked/" ++ c) ∈ written tr)
  /\ (forall tr o, runs makeproj tr o -> forall c, c ∈ akb_commands -> ("../../build/bin/" ++ c) ∈ written tr)
  /\ (forall author bh tr o, runs (prepare_install author bh) tr o -> Forall (fun e => foreign "" (command e) = false) tr)
  /\ (forall author bh stamp tr o, runs (prepare author bh stamp) tr o -> Forall (fun e => foreign "./bin/" (command e) = false) tr).
Proof.
  split; [|split; [|split]].
  - intros script tr o Hs H c Hc.
    apply elem_of_cons in Hs as [->|Hs]; [|apply list_elem_of_singleton in Hs as ->];
      unfold written; rewrite (run_all_commands _ _ _ H); revert c Hc; apply Forall_forall; apply (bool_decide_unpack _); by vm_compute.
  - intros tr o H c Hc. unfold written. rewrite (run_all_commands _ _ _ H). revert c Hc. apply Forall_forall.
    apply (bool_decide_unpack _). by vm_compute.
  - intros author bh tr o. apply without_runs. walk.
  - intros author bh stamp tr o. apply without_runs. walk.
Qed.
