(* ===== verification/Linked.v ===== *)
(** * Memory and doubly linked lists

    What RingList and LruCache share: programs that read and write a state and
    may fail, objects at addresses, and the shape of a doubly linked list that
    goes round through one fixed address.  A list that ends in null pointers is
    one too, with null for the fixed address. *)
From S2P Require Import Prelude.

(** ** Programs over a state *)

(** A step fails where the code is undefined or a loop runs out of its bound. *)
Definition ST (S A : Type) : Type := S -> option (A * S).

#[export] Instance st_ret {S} : MRet (ST S) := fun A a s => Some (a, s).
#[export] Instance st_bind {S} : MBind (ST S) := fun A B f m s => '(a, s) ← m s; f a s.

Definition gets {S A} (f : S -> A) : ST S A := fun s => Some (f s, s).
Definition modify {S} (f : S -> S) : ST S unit := fun s => Some (tt, f s).
Definition lift {S A} (o : option A) : ST S A := fun s => (.,s) <$> o.

(** [body] for each element of a list, in order. *)
Fixpoint for_each {S A} (body : A -> ST S unit) (l : list A) : ST S unit :=
  match l with
  | [] => mret tt
  | x :: l => _ ← body x; for_each body l
  end.

(** ** Objects at addresses *)

Definition ptr := positive.
Abbreviation heap N := (gmap ptr N).

(** [new] returns an address that no object has. *)
Class Malloc := { malloc : gset ptr -> ptr; malloc_fresh d : malloc d ∉ d }.

(** For examples. *)
Definition first_free : Malloc := {| malloc d := fresh d; malloc_fresh d := is_fresh d |}.

Section Memory.
Context {N : Type}.

Definition load (p : ptr) : ST (heap N) N := fun h => n ← h !! p; Some (n, h).
Definition store (p : ptr) (f : N -> N) : ST (heap N) unit := fun h => _ ← h !! p; Some (tt, alter f p h).
Definition new `{Malloc} (n : N) : ST (heap N) ptr := fun h => let p := malloc (dom h) in Some (p, <[p := n]> h).
Definition free (p : ptr) : ST (heap N) unit := fun h => _ ← h !! p; Some (tt, delete p h).

Lemma load_eq p n h : h !! p = Some n -> load p h = Some (n, h).
Proof. unfold load. by intros ->. Qed.

Lemma store_eq p f h : p ∈ dom h -> store p f h = Some (tt, alter f p h).
Proof. unfold store. by intros [n ->]%elem_of_dom. Qed.

Lemma free_eq p h : p ∈ dom h -> free p h = Some (tt, delete p h).
Proof. unfold free. by intros [n ->]%elem_of_dom. Qed.

Lemma new_eq `{HM : Malloc} n h : exists p, p ∉ dom h /\ new n h = Some (p, <[p := n]> h).
Proof. eexists. split; [|reflexivity]. apply malloc_fresh. Qed.
End Memory.

Lemma bind_some {S A B} (m : ST S A) (f : A -> ST S B) s a s' : m s = Some (a, s') -> (m ≫= f) s = f a s'.
Proof. intros H. unfold mbind, st_bind. by rewrite H. Qed.

Lemma bind_none {S A B} (m : ST S A) (f : A -> ST S B) s : m s = None -> (m ≫= f) s = None.
Proof. intros H. unfold mbind, st_bind. by rewrite H. Qed.

Lemma bind_ext {S A B} (m : ST S A) (f g : A -> ST S B) s : (forall a s, f a s = g a s) -> (m ≫= f) s = (m ≫= g) s.
Proof. intros H. unfold mbind, st_bind. destruct (m s) as [[a s']|]; cbn; [apply H|done]. Qed.

Lemma bind_tt {S} (m : ST S unit) s : (_ ← m; mret tt) s = m s.
Proof. unfold mbind, st_bind. by destruct (m s) as [[[] s']|]. Qed.

(** ** Doubly linked lists *)

Section Linked.
Context {A : Type}.
Implicit Types (nxt prv : A -> option A) (a b p q s x : A) (l w : list A).

Definition edge nxt prv a b : Prop := nxt a = Some b /\ prv b = Some a.

(** Each element of [w] is linked to the one after it. *)
Fixpoint chain nxt prv w : Prop :=
  match w with
  | a :: w => match w with b :: _ => edge nxt prv a b | [] => True end /\ chain nxt prv w
  | [] => True
  end.

(** The elements of [l], in order, from [s] round to [s]. *)
Definition ring nxt prv s l : Prop := chain nxt prv (s :: l ++ [s]) /\ NoDup (s :: l).

(** The neighbours in the ring of a place between [l1] and [l2]. *)
Definition before s l1 : A := default s (last l1).
Definition after s l2 : A := default s (head l2).

Lemma chain_app nxt prv w1 a b w2 :
  chain nxt prv (w1 ++ a :: b :: w2) <-> chain nxt prv (w1 ++ [a]) /\ edge nxt prv a b /\ chain nxt prv (b :: w2).
Proof.
  induction w1 as [|c w1 IH]; cbn [app].
  - cbn [chain]. tauto.
  - destruct w1 as [|d w1]; cbn [app chain] in *; tauto.
Qed.

Lemma chain_ext nxt prv nxt' prv' w p :
  chain nxt prv (w ++ [p]) -> (forall a, a ∈ w -> nxt' a = nxt a) -> (forall b, b ∈ tail (w ++ [p]) -> prv' b = prv b) ->
  chain nxt' prv' (w ++ [p]).
Proof.
  induction w as [|a w IH]; intros H Hn Hp; [done|]. cbn [app tail] in *. destruct H as [He H]. split.
  - destruct (w ++ [p]) as [|b w'] eqn:E; [done|]. destruct He as [He1 He2].
    split; [rewrite Hn; [exact He1|constructor]|rewrite Hp; [exact He2|constructor]].
  - apply IH; [exact H| |]; intros.
    + apply Hn. by constructor.
    + apply Hp. destruct (w ++ [p]); [done|by constructor].
Qed.

Lemma before_spec s l1 : exists u, s :: l1 = u ++ [before s l1].
Proof.
  unfold before. destruct (last l1) as [p|] eqn:E.
  - apply last_Some in E as [l' ->]. exists (s :: l'). done.
  - apply last_None in E as ->. by exists [].
Qed.

Lemma after_spec s l2 : exists v, l2 ++ [s] = after s l2 :: v.
Proof. destruct l2 as [|q l2]; [by exists []|by exists (l2 ++ [s])]. Qed.

(** The links of a ring on both sides of a place, and with one more element
    there. *)
Lemma ring_split nxt prv s l1 l2 x u v :
  s :: l1 = u ++ [before s l1] -> l2 ++ [s] = after s l2 :: v ->
  (chain nxt prv (s :: (l1 ++ l2) ++ [s]) <->
     chain nxt prv (u ++ [before s l1]) /\ edge nxt prv (before s l1) (after s l2) /\ chain nxt prv (after s l2 :: v))
  /\ (chain nxt prv (s :: (l1 ++ x :: l2) ++ [s]) <->
     chain nxt prv (u ++ [before s l1]) /\ edge nxt prv (before s l1) x /\ edge nxt prv x (after s l2)
     /\ chain nxt prv (after s l2 :: v)).
Proof.
  intros Hu Hv. rewrite <- !app_assoc, !app_comm_cons, Hu. cbn [app]. rewrite Hv, <- !app_assoc. cbn [app].
  rewrite !chain_app. cbn [chain]. tauto.
Qed.

(** The two parts of a ring keep their links when only the links of the place
    between them change. *)
Lemma ring_parts nxt prv nxt' prv' s l1 l2 u v :
  s :: l1 = u ++ [before s l1] -> l2 ++ [s] = after s l2 :: v -> NoDup (s :: l1 ++ l2) ->
  (forall a, a ∈ s :: l1 ++ l2 -> a <> before s l1 -> nxt' a = nxt a) ->
  (forall b, b ∈ s :: l1 ++ l2 -> b <> after s l2 -> prv' b = prv b) ->
  (chain nxt prv (u ++ [before s l1]) -> chain nxt' prv' (u ++ [before s l1]))
  /\ (chain nxt prv (after s l2 :: v) -> chain nxt' prv' (after s l2 :: v)).
Proof.
  intros Hu Hv HN Hn Hp.
  assert (NoDup ((s :: l1) ++ l2)) as HN1 by done. assert (NoDup (l1 ++ (l2 ++ [s]))) as HN2.
  { rewrite app_assoc. rewrite NoDup_cons in HN. apply NoDup_app. split; [tauto|]. split; [|apply NoDup_singleton].
    intros a Ha ->%list_elem_of_singleton. tauto. }
  split; intros H.
  - rewrite Hu in HN1. apply NoDup_app in HN1 as (HN1 & _ & _). apply NoDup_app in HN1 as (_ & Hd & _).
    apply chain_ext with nxt prv; [exact H| |].
    + intros a Ha. apply Hn; [|intros ->; by apply (Hd _ Ha), list_elem_of_singleton].
      change (a ∈ (s :: l1) ++ l2). rewrite Hu, !elem_of_app. tauto.
    + rewrite <- Hu. cbn [tail]. intros b Hb. apply Hp; [constructor; apply elem_of_app; by left|].
      intros ->. apply NoDup_app in HN2 as (_ & Hd2 & _). apply (Hd2 _ Hb). rewrite Hv. constructor.
  - rewrite <- Hv in *. apply chain_ext with nxt prv; [exact H| |].
    + intros a Ha. apply Hn; [constructor; apply elem_of_app; by right|].
      intros ->. rewrite Hu in HN1. apply NoDup_app in HN1 as (_ & Hd2 & _).
      apply (Hd2 (before s l1)); [apply elem_of_app; right; by apply list_elem_of_singleton|exact Ha].
    + rewrite Hv. cbn [tail]. rewrite Hv in HN2. apply NoDup_app in HN2 as (_ & _ & HN2).
      apply NoDup_cons in HN2 as [HN2 _]. intros b Hb. apply Hp; [|by intros ->].
      assert (b ∈ l2 ++ [s]) as Hin by (rewrite Hv; by constructor).
      apply elem_of_app in Hin as [Hin|Hin]; [constructor; apply elem_of_app; by right|].
      apply list_elem_of_singleton in Hin as ->. constructor.
Qed.

Lemma before_in s l1 : before s l1 ∈ s :: l1.
Proof.
  unfold before. destruct (last l1) as [p|] eqn:E; [|constructor]. apply list_elem_of_further. by apply last_Some_elem_of.
Qed.

Lemma after_in s l2 : after s l2 ∈ s :: l2.
Proof. destruct l2 as [|q l2]; [constructor|apply list_elem_of_further; constructor]. Qed.

Lemma ring_not_in nxt prv s l1 x l2 : ring nxt prv s (l1 ++ x :: l2) -> x ∉ s :: l1 ++ l2.
Proof.
  intros [_ HN]. change (NoDup ((s :: l1) ++ x :: l2)) in HN. rewrite <- Permutation_middle in HN. by apply NoDup_cons_1_1 in HN.
Qed.

(** *** Reading *)

Lemma ring_next nxt prv s l1 x l2 : ring nxt prv s (l1 ++ x :: l2) -> nxt x = Some (after s l2) /\ prv x = Some (before s l1).
Proof.
  intros [H _]. destruct (before_spec s l1) as [u Hu], (after_spec s l2) as [v Hv].
  by destruct (proj1 (proj2 (ring_split nxt prv s l1 l2 x u v Hu Hv)) H) as (_ & [_ H1] & [H2 _] & _).
Qed.

Lemma ring_ends nxt prv s l1 l2 :
  ring nxt prv s (l1 ++ l2) -> nxt (before s l1) = Some (after s l2) /\ prv (after s l2) = Some (before s l1).
Proof.
  intros [H _]. destruct (before_spec s l1) as [u Hu], (after_spec s l2) as [v Hv].
  by destruct (proj1 (proj1 (ring_split nxt prv s l1 l2 s u v Hu Hv)) H) as (_ & He & _).
Qed.

Lemma ring_head nxt prv s l : ring nxt prv s l -> nxt s = Some (after s l) /\ prv s = Some (before s l).
Proof.
  intros H. split; [apply (ring_ends nxt prv s [] l H)|].
  rewrite <- (app_nil_r l) in H. apply (ring_ends nxt prv s l [] H).
Qed.

(** *** Writing *)

Lemma ring_insert nxt prv nxt' prv' s l1 l2 x :
  ring nxt prv s (l1 ++ l2) -> x ∉ s :: l1 ++ l2 ->
  edge nxt' prv' (before s l1) x -> edge nxt' prv' x (after s l2) ->
  (forall a, a ∈ s :: l1 ++ l2 -> a <> before s l1 -> nxt' a = nxt a) ->
  (forall b, b ∈ s :: l1 ++ l2 -> b <> after s l2 -> prv' b = prv b) ->
  ring nxt' prv' s (l1 ++ x :: l2).
Proof.
  intros [H HN] Hx H1 H2 Hn Hp. split.
  - destruct (before_spec s l1) as [u Hu], (after_spec s l2) as [v Hv].
    destruct (proj1 (proj1 (ring_split nxt prv s l1 l2 x u v Hu Hv)) H) as (Hc1 & _ & Hc2).
    apply (proj2 (ring_split nxt' prv' s l1 l2 x u v Hu Hv)).
    destruct (ring_parts nxt prv nxt' prv' s l1 l2 u v Hu Hv HN Hn Hp) as [Hp1 Hp2]. tauto.
  - change (NoDup ((s :: l1) ++ x :: l2)). rewrite <- Permutation_middle. by constructor.
Qed.

Lemma ring_remove nxt prv nxt' prv' s l1 l2 x :
  ring nxt prv s (l1 ++ x :: l2) -> edge nxt' prv' (before s l1) (after s l2) ->
  (forall a, a ∈ s :: l1 ++ l2 -> a <> before s l1 -> nxt' a = nxt a) ->
  (forall b, b ∈ s :: l1 ++ l2 -> b <> after s l2 -> prv' b = prv b) ->
  ring nxt' prv' s (l1 ++ l2).
Proof.
  intros [H HN] H1 Hn Hp.
  assert (NoDup (s :: l1 ++ l2)) as HN'.
  { change (NoDup ((s :: l1) ++ x :: l2)) in HN. rewrite <- Permutation_middle in HN. by apply NoDup_cons_1_2 in HN. }
  split; [|exact HN'].
  destruct (before_spec s l1) as [u Hu], (after_spec s l2) as [v Hv].
  destruct (proj1 (proj2 (ring_split nxt prv s l1 l2 x u v Hu Hv)) H) as (Hc1 & _ & _ & Hc2).
  apply (proj1 (ring_split nxt' prv' s l1 l2 x u v Hu Hv)).
  destruct (ring_parts nxt prv nxt' prv' s l1 l2 u v Hu Hv HN' Hn Hp) as [Hp1 Hp2]. tauto.
Qed.

(** A ring whose links did not change. *)
Lemma ring_ext nxt prv nxt' prv' s l :
  ring nxt prv s l -> (forall a, a ∈ s :: l -> nxt' a = nxt a /\ prv' a = prv a) -> ring nxt' prv' s l.
Proof.
  intros [H HN] E. split; [|exact HN]. rewrite app_comm_cons in *. apply chain_ext with nxt prv; [exact H| |].
  - intros a Ha. by apply E.
  - intros b Hb. apply E. cbn [app tail] in Hb. rewrite elem_of_app, list_elem_of_singleton in Hb. rewrite elem_of_cons. tauto.
Qed.

Lemma ring_empty nxt prv s : edge nxt prv s s -> ring nxt prv s [].
Proof. intros H. split; [by cbn [app chain]|apply NoDup_singleton]. Qed.
End Linked.
