(* ===== verification/RingList.v ===== *)
(** * Circular lists: utils/List.h and cutils/list.h

    Two headers with a doubly linked list that goes round through a node of the
    list itself: the class template List, which allocates its nodes, and the C
    functions on [struct listnode], which the caller allocates.  The nodes are
    objects at addresses; the theorems give the sequence of the list after each
    operation, the addresses it has written, and the nodes that are freed. *)
From S2P Require Import Prelude Linked.

(** ** Nodes *)

(** [_Node].  A field that is not initialised is [None]; a [listnode] is a node
    without a value. *)
Record node (V : Type) := Node { mVal : option V; mpPrev : option ptr; mpNext : option ptr }.
Arguments Node {V}.
Arguments mVal {V}.
Arguments mpPrev {V}.
Arguments mpNext {V}.

Section Nodes.
Context {V : Type}.
#[local] Abbreviation M := (ST (heap (node V))).

Definition getRef (p : ptr) : M V := n ← load p; lift (mVal n).
Definition getPrev (p : ptr) : M ptr := n ← load p; lift (mpPrev n).
Definition getNext (p : ptr) : M ptr := n ← load p; lift (mpNext n).
Definition setVal (p : ptr) (v : V) : M unit := store p (fun n => Node (Some v) (mpPrev n) (mpNext n)).
Definition setPrev (p q : ptr) : M unit := store p (fun n => Node (mVal n) (Some q) (mpNext n)).
Definition setNext (p q : ptr) : M unit := store p (fun n => Node (mVal n) (mpPrev n) (Some q)).

(** ** cutils/list.h *)

Definition list_init (node : ptr) : M unit := _ ← setNext node node; setPrev node node.

Definition list_add_tail (head item : ptr) : M unit :=
  _ ← setNext item head;
  prev ← getPrev head;
  _ ← setPrev item prev;
  prev ← getPrev head;
  _ ← setNext prev item;
  setPrev head item.

Definition list_add_head (head item : ptr) : M unit :=
  next ← getNext head;
  _ ← setNext item next;
  _ ← setPrev item head;
  next ← getNext head;
  _ ← setPrev next item;
  setNext head item.

Definition list_remove (item : ptr) : M unit :=
  next ← getNext item;
  prev ← getPrev item;
  _ ← setPrev next prev;
  prev ← getPrev item;
  next ← getNext item;
  setNext prev next.

Definition list_empty (list : ptr) : M bool := next ← getNext list; mret (bool_decide (list = next)).
Definition list_head (list : ptr) : M ptr := getNext list.
Definition list_tail (list : ptr) : M ptr := getPrev list.

(** The loops of the macros from [node] on: [step] is the link they follow. *)
Fixpoint each_from (fuel : nat) (step : ptr -> M ptr) (list : ptr) (body : ptr -> M unit) (node : ptr) : M unit :=
  if decide (node = list) then mret tt
  else match fuel with
  | O => lift None
  | S fuel => _ ← body node; node ← step node; each_from fuel step list body node
  end.

Definition list_for_each (fuel : nat) (list : ptr) (body : ptr -> M unit) : M unit :=
  node ← getNext list; each_from fuel getNext list body node.

Definition list_for_each_reverse (fuel : nat) (list : ptr) (body : ptr -> M unit) : M unit :=
  node ← getPrev list; each_from fuel getPrev list body node.

(** The next node is read before the body, which may free this one. *)
Fixpoint each_safe_from (fuel : nat) (list : ptr) (body : ptr -> M unit) (node n : ptr) : M unit :=
  if decide (node = list) then mret tt
  else match fuel with
  | O => lift None
  | S fuel => _ ← body node; let node := n in n ← getNext node; each_safe_from fuel list body node n
  end.

Definition list_for_each_safe (fuel : nat) (list : ptr) (body : ptr -> M unit) : M unit :=
  node ← getNext list; n ← getNext node; each_safe_from fuel list body node n.

(** ** utils/List.h

    A list is the address of its node [mpMiddle], an iterator the address of a
    node. *)

Definition empty (mpMiddle : ptr) : M bool := next ← getNext mpMiddle; mret (bool_decide (next = mpMiddle)).
Definition begin (mpMiddle : ptr) : M ptr := getNext mpMiddle.
Definition end_ (mpMiddle : ptr) : ptr := mpMiddle.

(** [mpMiddle] is raw storage: no field of it is initialised before. *)
Definition prep `{Malloc} : M ptr :=
  mpMiddle ← new (Node None None None);
  _ ← setPrev mpMiddle mpMiddle;
  _ ← setNext mpMiddle mpMiddle;
  mret mpMiddle.

Definition insert `{Malloc} (posn : ptr) (val : V) : M ptr :=
  newNode ← new (Node (Some val) None None);
  _ ← setNext newNode posn;
  prev ← getPrev posn;
  _ ← setPrev newNode prev;
  prev ← getPrev posn;
  _ ← setNext prev newNode;
  _ ← setPrev posn newNode;
  mret newNode.

Definition push_front `{Malloc} (mpMiddle : ptr) (val : V) : M ptr := posn ← begin mpMiddle; insert posn val.
Definition push_back `{Malloc} (mpMiddle : ptr) (val : V) : M ptr := insert (end_ mpMiddle) val.

Definition erase (posn : ptr) : M ptr :=
  pNext ← getNext posn;
  pPrev ← getPrev posn;
  _ ← setNext pPrev pNext;
  _ ← setPrev pNext pPrev;
  _ ← free posn;
  mret pNext.

(** [for ( ; first != last; ++first) insert(posn, *first);] *)
Fixpoint insert_range `{Malloc} (fuel : nat) (posn first last : ptr) : M unit :=
  if decide (first = last) then mret tt
  else match fuel with
  | O => lift None
  | S fuel => v ← getRef first; _ ← insert posn v; first ← getNext first; insert_range fuel posn first last
  end.

(** [while (first != last) erase(first++);] *)
Fixpoint erase_range (fuel : nat) (first last : ptr) : M ptr :=
  if decide (first = last) then mret last
  else match fuel with
  | O => lift None
  | S fuel => next ← getNext first; _ ← erase first; erase_range fuel next last
  end.

Fixpoint clear_from (fuel : nat) (mpMiddle pCurrent : ptr) : M unit :=
  if decide (pCurrent = mpMiddle) then mret tt
  else match fuel with
  | O => lift None
  | S fuel => pNext ← getNext pCurrent; _ ← free pCurrent; clear_from fuel mpMiddle pNext
  end.

Definition clear (fuel : nat) (mpMiddle : ptr) : M unit :=
  pCurrent ← getNext mpMiddle;
  _ ← clear_from fuel mpMiddle pCurrent;
  _ ← setPrev mpMiddle mpMiddle;
  setNext mpMiddle mpMiddle.

Definition destructor (fuel : nat) (mpMiddle : ptr) : M unit := _ ← clear fuel mpMiddle; free mpMiddle.

Fixpoint distance (fuel : nat) (first last : ptr) (count : Z) : M Z :=
  if decide (first = last) then mret count
  else match fuel with
  | O => lift None
  | S fuel => first ← getNext first; distance fuel first last (count + 1)
  end.

Definition size (fuel : nat) (mpMiddle : ptr) : M Z := first ← begin mpMiddle; distance fuel first (end_ mpMiddle) 0.

Definition copy_constructor `{Malloc} (fuel : nat) (src : ptr) : M ptr :=
  mpMiddle ← prep;
  posn ← begin mpMiddle;
  first ← begin src;
  _ ← insert_range fuel posn first (end_ src);
  mret mpMiddle.

(** The loop of [operator=], which writes over the elements both lists have;
    the rest of the two ranges. *)
Fixpoint assign_from (fuel : nat) (firstSrc lastSrc firstDst lastDst : ptr) : M (ptr * ptr) :=
  if decide (firstSrc <> lastSrc /\ firstDst <> lastDst) then
    match fuel with
    | O => lift None
    | S fuel =>
        v ← getRef firstSrc;
        _ ← setVal firstDst v;
        firstDst ← getNext firstDst;
        firstSrc ← getNext firstSrc;
        assign_from fuel firstSrc lastSrc firstDst lastDst
    end
  else mret (firstSrc, firstDst).

Definition assign `{Malloc} (fuel : nat) (this right : ptr) : M unit :=
  if decide (this = right) then mret tt
  else
    firstDst ← begin this;
    let lastDst := end_ this in
    firstSrc ← begin right;
    let lastSrc := end_ right in
    '(firstSrc, firstDst) ← assign_from fuel firstSrc lastSrc firstDst lastDst;
    if decide (firstSrc = lastSrc) then _ ← erase_range fuel firstDst lastDst; mret tt
    else insert_range fuel lastDst firstSrc lastSrc.
End Nodes.

(** * Links of a memory *)

Section Links.
Context {V : Type}.
Implicit Types (h : heap (node V)) (p q m x : ptr) (l : list (ptr * V)).

Definition next_of h p : option ptr := h !! p ≫= mpNext.
Definition prev_of h p : option ptr := h !! p ≫= mpPrev.
Definition val_of h p : option V := h !! p ≫= mVal.

(** The nodes of the circle through [m], from [m] on. *)
Definition is_ring h m (ps : list ptr) : Prop := ring (next_of h) (prev_of h) m ps.

(** The list of [m]: its nodes with their values. *)
Definition is_list h m l : Prop := is_ring h m l.*1 /\ Forall (fun '(p, v) => val_of h p = Some v) l.

(** [h'] is [h] but for the addresses [D]. *)
Definition writes_only (D : list ptr) h h' : Prop := forall p, p ∉ D -> h' !! p = h !! p.

Lemma next_of_dom h p q : next_of h p = Some q -> p ∈ dom h.
Proof. unfold next_of. intros H. apply elem_of_dom. by destruct (h !! p). Qed.

Lemma prev_of_dom h p q : prev_of h p = Some q -> p ∈ dom h.
Proof. unfold prev_of. intros H. apply elem_of_dom. by destruct (h !! p). Qed.

Lemma getNext_eq h p q : next_of h p = Some q -> getNext p h = Some (q, h).
Proof.
  unfold next_of, getNext, load, mbind, st_bind, lift. intros H. destruct (h !! p) as [n|]; [|done]. cbn in *. by rewrite H.
Qed.

Lemma getPrev_eq h p q : prev_of h p = Some q -> getPrev p h = Some (q, h).
Proof.
  unfold prev_of, getPrev, load, mbind, st_bind, lift. intros H. destruct (h !! p) as [n|]; [|done]. cbn in *. by rewrite H.
Qed.

Lemma getRef_eq h p v : val_of h p = Some v -> getRef p h = Some (v, h).
Proof.
  unfold val_of, getRef, load, mbind, st_bind, lift. intros H. destruct (h !! p) as [n|]; [|done]. cbn in *. by rewrite H.
Qed.

(** What a store of the node [p] changes. *)
Record stored h h' p (next prev : option ptr) (val : option V) : Prop := {
  stored_dom : dom h' = dom h;
  stored_other : writes_only [p] h h';
  stored_next a : next_of h' a = if decide (a = p) then next else next_of h a;
  stored_prev a : prev_of h' a = if decide (a = p) then prev else prev_of h a;
  stored_val a : val_of h' a = if decide (a = p) then val else val_of h a
}.

Lemma store_stored h p f :
  p ∈ dom h -> exists h', store p f h = Some (tt, h')
    /\ stored h h' p ((f <$> h !! p) ≫= mpNext) ((f <$> h !! p) ≫= mpPrev) ((f <$> h !! p) ≫= mVal).
Proof.
  intros Hp. rewrite store_eq by done. eexists. split; [reflexivity|]. split.
  - by rewrite dom_alter_L.
  - intros a Ha%not_elem_of_cons. apply lookup_alter_ne. destruct Ha as [Ha _]. congruence.
  - intros a. unfold next_of. case_decide as E; [subst a; by rewrite lookup_alter_eq|by rewrite lookup_alter_ne].
  - intros a. unfold prev_of. case_decide as E; [subst a; by rewrite lookup_alter_eq|by rewrite lookup_alter_ne].
  - intros a. unfold val_of. case_decide as E; [subst a; by rewrite lookup_alter_eq|by rewrite lookup_alter_ne].
Qed.

Lemma fields_of h p :
  p ∈ dom h -> exists n, h !! p = Some n /\ next_of h p = mpNext n /\ prev_of h p = mpPrev n /\ val_of h p = mVal n.
Proof. unfold next_of, prev_of, val_of. intros [n Hn]%elem_of_dom. exists n. by rewrite Hn. Qed.

Lemma setNext_eq h p q :
  p ∈ dom h -> exists h', setNext p q h = Some (tt, h') /\ stored h h' p (Some q) (prev_of h p) (val_of h p).
Proof.
  intros Hp. destruct (fields_of h p Hp) as (n & Hn & _ & -> & ->). unfold setNext.
  destruct (store_stored h p (fun n => Node (mVal n) (mpPrev n) (Some q)) Hp) as (h' & E & H). rewrite Hn in H. by exists h'.
Qed.

Lemma setPrev_eq h p q :
  p ∈ dom h -> exists h', setPrev p q h = Some (tt, h') /\ stored h h' p (next_of h p) (Some q) (val_of h p).
Proof.
  intros Hp. destruct (fields_of h p Hp) as (n & Hn & -> & _ & ->). unfold setPrev.
  destruct (store_stored h p (fun n => Node (mVal n) (Some q) (mpNext n)) Hp) as (h' & E & H). rewrite Hn in H. by exists h'.
Qed.

Lemma setVal_eq h p v :
  p ∈ dom h -> exists h', setVal p v h = Some (tt, h') /\ stored h h' p (next_of h p) (prev_of h p) (Some v).
Proof.
  intros Hp. destruct (fields_of h p Hp) as (n & Hn & -> & -> & _). unfold setVal.
  destruct (store_stored h p (fun n => Node (Some v) (mpPrev n) (mpNext n)) Hp) as (h' & E & H). rewrite Hn in H. by exists h'.
Qed.
End Links.

(** Runs the next command: its state and what it has stored. *)
Ltac run_store h' S :=
  match goal with
  | |- context [(setNext ?p ?q ≫= _) ?h] => destruct (setNext_eq h p q) as (h' & E' & S); [|rewrite (bind_some _ _ _ _ _ E'); clear E']
  | |- context [(setPrev ?p ?q ≫= _) ?h] => destruct (setPrev_eq h p q) as (h' & E' & S); [|rewrite (bind_some _ _ _ _ _ E'); clear E']
  | |- context [(setVal ?p ?v ≫= _) ?h] => destruct (setVal_eq h p v) as (h' & E' & S); [|rewrite (bind_some _ _ _ _ _ E'); clear E']
  | |- context [setNext ?p ?q ?h] => destruct (setNext_eq h p q) as (h' & E' & S); [|rewrite E'; clear E']
  | |- context [setPrev ?p ?q ?h] => destruct (setPrev_eq h p q) as (h' & E' & S); [|rewrite E'; clear E']
  end.

(** * Changing a circle *)

Section Rings.
Context {V : Type}.
Implicit Types (h : heap (node V)) (p q m x : ptr) (l : list (ptr * V)).

Lemma writes_only_trans D1 D2 h1 h2 h3 : writes_only D1 h1 h2 -> writes_only D2 h2 h3 -> writes_only (D1 ++ D2) h1 h3.
Proof. intros H1 H2 p Hp. rewrite elem_of_app in Hp. rewrite H2, H1; tauto. Qed.

Lemma writes_only_mono D D' h h' : writes_only D h h' -> D ⊆ D' -> writes_only D' h h'.
Proof. intros H HD p Hp. apply H. intros Hin. by apply Hp, HD. Qed.

(** The objects of [h] other than [D] are the same in [h']. *)
Definition frame (D : list ptr) h h' : Prop := forall p, p ∈ dom h -> p ∉ D -> h' !! p = h !! p.

Lemma frame_refl D h : frame D h h.
Proof. by intros p. Qed.

Lemma frame_trans D1 D2 h1 h2 h3 :
  frame D1 h1 h2 -> frame D2 h2 h3 -> (forall p, p ∈ D2 -> p ∈ D1 \/ p ∉ dom h1) -> frame D1 h1 h3.
Proof.
  intros H1 H2 HD p Hp Hin. rewrite <- (H1 p Hp Hin). apply H2.
  - rewrite elem_of_dom, (H1 p Hp Hin). by apply elem_of_dom.
  - intros H. by destruct (HD p H).
Qed.

Lemma ring_dom h m ps p : is_ring h m ps -> p ∈ m :: ps -> p ∈ dom h.
Proof.
  intros H [->|Hp]%elem_of_cons.
  - apply next_of_dom with (after m ps), (ring_head _ _ _ _ H).
  - apply list_elem_of_split in Hp as (l1 & l2 & ->). apply next_of_dom with (after m l2), (ring_next _ _ _ _ _ _ H).
Qed.

(** Circles and lists of nodes that are not written. *)
Lemma ring_writes h h' m ps D : is_ring h m ps -> writes_only D h h' -> (forall p, p ∈ D -> p ∉ m :: ps) -> is_ring h' m ps.
Proof.
  intros H Hw HD. apply (ring_ext _ _ _ _ _ _ H). intros a Ha. unfold next_of, prev_of.
  rewrite (Hw a) by (intros Hin; exact (HD a Hin Ha)). done.
Qed.

Lemma list_writes h h' m l D : is_list h m l -> writes_only D h h' -> (forall p, p ∈ D -> p ∉ m :: l.*1) -> is_list h' m l.
Proof.
  intros [H Hv] Hw HD. split; [by apply ring_writes with h D|]. rewrite Forall_forall in *. intros [p v] Hin.
  unfold val_of. rewrite (Hw p); [exact (Hv _ Hin)|]. intros Hp. apply (HD p Hp), list_elem_of_further.
  apply list_elem_of_fmap. by exists (p, v).
Qed.

Lemma list_dom h m l p : is_list h m l -> p ∈ m :: l.*1 -> p ∈ dom h.
Proof. intros [H _]. by apply ring_dom. Qed.

Lemma list_frame h h' m l D : is_list h m l -> frame D h h' -> (forall p, p ∈ m :: l.*1 -> p ∉ D) -> is_list h' m l.
Proof.
  intros H Hf HD. assert (forall p, p ∈ m :: l.*1 -> h' !! p = h !! p) as Hw.
  { intros p Hp. apply Hf; [by apply (list_dom h m l)|by apply HD]. }
  destruct H as [H Hv]. split.
  - apply (ring_ext _ _ _ _ _ _ H). intros a Ha. unfold next_of, prev_of. by rewrite (Hw a Ha).
  - rewrite Forall_forall in *. intros [p v] Hin. unfold val_of. rewrite (Hw p); [exact (Hv _ Hin)|].
    apply list_elem_of_further, list_elem_of_fmap. by exists (p, v).
Qed.

(** A node [n] between two neighbours, after the four stores that link it. *)
Lemma ring_linked_in h h' m ps1 ps2 n :
  is_ring h m (ps1 ++ ps2) -> n ∉ m :: ps1 ++ ps2 ->
  (forall a, next_of h' a = if decide (a = before m ps1) then Some n else if decide (a = n) then Some (after m ps2) else next_of h a) ->
  (forall a, prev_of h' a = if decide (a = after m ps2) then Some n else if decide (a = n) then Some (before m ps1) else prev_of h a) ->
  is_ring h' m (ps1 ++ n :: ps2).
Proof.
  intros H Hn Hx Hp.
  assert (n <> before m ps1) as Hb.
  { intros ->. apply Hn. pose proof (before_in m ps1). set_solver. }
  assert (n <> after m ps2) as Ha.
  { intros ->. apply Hn. pose proof (after_in m ps2). set_solver. }
  apply ring_insert with (next_of h) (prev_of h); [exact H|exact Hn| | | |].
  - split; [rewrite Hx|rewrite Hp]; repeat case_decide; congruence.
  - split; [rewrite Hx|rewrite Hp]; repeat case_decide; congruence.
  - intros a Hin Ha'. rewrite Hx. repeat case_decide; congruence.
  - intros a Hin Ha'. rewrite Hp. repeat case_decide; congruence.
Qed.

(** A circle after the two stores that take a node out. *)
Lemma ring_linked_out h h' m ps1 ps2 n :
  is_ring h m (ps1 ++ n :: ps2) ->
  (forall a, a <> n -> next_of h' a = if decide (a = before m ps1) then Some (after m ps2) else next_of h a) ->
  (forall a, a <> n -> prev_of h' a = if decide (a = after m ps2) then Some (before m ps1) else prev_of h a) ->
  is_ring h' m (ps1 ++ ps2).
Proof.
  intros H Hx Hp. pose proof (ring_not_in _ _ _ _ _ _ H) as Hn.
  pose proof (before_in m ps1) as Hb. pose proof (after_in m ps2) as Ha.
  apply ring_remove with (next_of h) (prev_of h) n; [exact H| | |].
  - split; [rewrite Hx by set_solver|rewrite Hp by set_solver]; by case_decide.
  - intros a Hin Ha'. rewrite Hx by set_solver. by case_decide.
  - intros a Hin Ha'. rewrite Hp by set_solver. by case_decide.
Qed.
End Rings.

(** Rewrites with what the stores have done, last first. *)
Ltac after_stores :=
  repeat match goal with
  | S : stored _ ?h' _ _ _ _ |- context [next_of ?h' _] => rewrite (stored_next _ _ _ _ _ _ S)
  | S : stored _ ?h' _ _ _ _ |- context [prev_of ?h' _] => rewrite (stored_prev _ _ _ _ _ _ S)
  | S : stored _ ?h' _ _ _ _ |- context [val_of ?h' _] => rewrite (stored_val _ _ _ _ _ _ S)
  | S : stored _ ?h' _ _ _ _ |- context [dom ?h'] => rewrite (stored_dom _ _ _ _ _ _ S)
  end.

(** Linking a node that is in no list yet: the stores of [insert], in its order. *)
Section Operations.
Context {V : Type}.
Implicit Types (h : heap (node V)) (p q m x n : ptr) (l : list (ptr * V)).

Lemma link_between {B} (k : ST (heap (node V)) B) h m ps1 ps2 n :
  is_ring h m (ps1 ++ ps2) -> n ∈ dom h -> n ∉ m :: ps1 ++ ps2 ->
  exists h', (_ ← setNext n (after m ps2);
              prev ← getPrev (after m ps2);
              _ ← setPrev n prev;
              prev ← getPrev (after m ps2);
              _ ← setNext prev n;
              _ ← setPrev (after m ps2) n;
              k) h = k h'
    /\ is_ring h' m (ps1 ++ n :: ps2) /\ dom h' = dom h
    /\ writes_only [n; before m ps1; after m ps2] h h' /\ (forall a, val_of h' a = val_of h a).
Proof.
  intros H Hn Hni. pose proof (before_in m ps1) as Hb. pose proof (after_in m ps2) as Ha.
  destruct (ring_ends _ _ _ _ _ H) as [_ Hp].
  set (p := before m ps1) in *. set (q := after m ps2) in *.
  assert (p ∈ dom h) as Hpd by (apply (ring_dom h m _ p H); set_solver).
  assert (q ∈ dom h) as Hqd by (apply (ring_dom h m _ q H); set_solver).
  assert (n <> q) by (intros ->; set_solver). assert (n <> p) by (intros ->; set_solver).
  run_store h1 S1; [exact Hn|].
  rewrite (bind_some _ _ _ _ _ (getPrev_eq h1 q p ltac:(after_stores; by case_decide))).
  run_store h2 S2; [by after_stores|].
  rewrite (bind_some _ _ _ _ _ (getPrev_eq h2 q p ltac:(after_stores; by repeat case_decide))).
  run_store h3 S3; [by after_stores|].
  run_store h4 S4; [by after_stores|].
  exists h4. split; [reflexivity|]. split; [|split; [|split]].
  - apply ring_linked_in with h; [exact H|exact Hni| |]; intros a; after_stores; fold p q; repeat case_decide; congruence.
  - by after_stores.
  - intros a Hin. apply not_elem_of_cons in Hin as [? Hin]. apply not_elem_of_cons in Hin as [? Hin].
    rewrite (stored_other _ _ _ _ _ _ S4), (stored_other _ _ _ _ _ _ S3), (stored_other _ _ _ _ _ _ S2), (stored_other _ _ _ _ _ _ S1);
      set_solver.
  - intros a. after_stores. repeat case_decide; congruence.
Qed.

(** The two neighbours of a node of a circle: addresses of the circle that are
    not the node. *)
Lemma neighbours h m ps1 ps2 n :
  is_ring h m (ps1 ++ n :: ps2) ->
  n ∉ m :: ps1 ++ ps2 /\ before m ps1 <> n /\ after m ps2 <> n
  /\ n ∈ dom h /\ before m ps1 ∈ dom h /\ after m ps2 ∈ dom h
  /\ next_of h n = Some (after m ps2) /\ prev_of h n = Some (before m ps1).
Proof.
  intros H. pose proof (ring_not_in _ _ _ _ _ _ H) as Hn.
  pose proof (before_in m ps1) as Hb. pose proof (after_in m ps2) as Ha.
  split; [exact Hn|]. split; [set_solver|]. split; [set_solver|].
  repeat split; try (apply (ring_dom h m _ _ H); set_solver); apply (ring_next _ _ _ _ _ _ H).
Qed.

Lemma erase_correct h m l1 l2 x v :
  is_list h m (l1 ++ (x, v) :: l2) ->
  exists h', erase x h = Some (after m l2.*1, h') /\ is_list h' m (l1 ++ l2) /\ dom h' = dom h ∖ {[x]}
    /\ frame (m :: (l1 ++ (x, v) :: l2).*1) h h'.
Proof.
  intros [H Hv]. rewrite fmap_app, fmap_cons in H. cbn [fst] in H.
  destruct (neighbours h m l1.*1 l2.*1 x H) as (Hx & Hb & Ha & Hxd & Hbd & Had & Hnx & Hpx).
  set (p := before m l1.*1) in *. set (q := after m l2.*1) in *.
  unfold erase. rewrite (bind_some _ _ _ _ _ (getNext_eq h x q Hnx)), (bind_some _ _ _ _ _ (getPrev_eq h x p Hpx)).
  run_store h1 S1; [exact Hbd|]. run_store h2 S2; [by after_stores|].
  rewrite (bind_some _ _ _ _ _ (free_eq x h2 ltac:(by after_stores))).
  assert (forall a, a <> x -> delete x h2 !! a = h2 !! a) as Hd by (intros a Hax; by apply lookup_delete_ne).
  assert (writes_only [x; p; q] h (delete x h2)) as Hw.
  { intros a Hin. rewrite Hd by set_solver.
    rewrite (stored_other _ _ _ _ _ _ S2), (stored_other _ _ _ _ _ _ S1); set_solver. }
  exists (delete x h2). split; [reflexivity|]. split; [split|split].
  - rewrite fmap_app. apply ring_linked_out with h x; [exact H| |]; intros a Hax; unfold next_of, prev_of;
      rewrite (Hd a Hax); [change (h2 !! a ≫= mpNext) with (next_of h2 a)|change (h2 !! a ≫= mpPrev) with (prev_of h2 a)];
      after_stores; fold p q; repeat case_decide; subst; congruence || reflexivity.
  - apply Forall_app in Hv as [Hv1 Hv2]. apply Forall_cons in Hv2 as [_ Hv2].
    assert (Forall (fun '(a, w) => val_of h a = Some w) (l1 ++ l2)) as Hvl by (by apply Forall_app).
    rewrite Forall_forall in *. intros [a w] Hin. specialize (Hvl _ Hin). cbv beta iota in *.
    assert (a <> x) as Hax.
    { intros ->. apply Hx, list_elem_of_further. rewrite <- fmap_app. apply list_elem_of_fmap. by exists (x, w). }
    unfold val_of at 1. rewrite (Hd a Hax). change (val_of h2 a = Some w). after_stores. repeat case_decide; congruence.
  - rewrite dom_delete_L. by after_stores.
  - intros a _ Hai. rewrite fmap_app in Hai. cbn [fmap list_fmap fst] in Hai. pose proof (before_in m l1.*1).
    pose proof (after_in m l2.*1). apply Hw. set_solver.
Qed.

Lemma insert_correct `{HM : Malloc} h m l1 l2 v :
  is_list h m (l1 ++ l2) ->
  exists n h', insert (after m l2.*1) v h = Some (n, h') /\ n ∉ dom h /\ is_list h' m (l1 ++ (n, v) :: l2)
    /\ dom h' = {[n]} ∪ dom h /\ frame (m :: (l1 ++ l2).*1) h h'.
Proof.
  intros Hl. unfold insert. destruct (new_eq (Node (Some v) None None) h) as (n & Hn & E).
  rewrite (bind_some _ _ _ _ _ E). set (h0 := <[n := _]> h).
  assert (writes_only [n] h h0) as Hw0.
  { intros a Ha. apply lookup_insert_ne. set_solver. }
  assert (forall a, a ∈ m :: (l1 ++ l2).*1 -> a <> n) as Hne.
  { intros a Ha ->. apply Hn. by apply (ring_dom h m (l1 ++ l2).*1), Ha; destruct Hl. }
  assert (is_list h0 m (l1 ++ l2)) as [Hl0 Hv].
  { apply list_writes with h [n]; [exact Hl|exact Hw0|]. intros p ->%list_elem_of_singleton Hp. by apply (Hne n). }
  rewrite fmap_app in Hl0.
  destruct (link_between (mret n) h0 m l1.*1 l2.*1 n) as (h' & E' & Hr & Hd & Hw & Hval).
  - exact Hl0.
  - apply elem_of_dom. unfold h0. rewrite lookup_insert_eq. by eexists.
  - rewrite <- fmap_app. intros Hin. by apply (Hne n).
  - exists n, h'. split.
    { exact E'. }
    split; [exact Hn|]. split; [split|split].
    + rewrite fmap_app. exact Hr.
    + assert (val_of h' n = Some v) as Hvn by (rewrite Hval; unfold val_of, h0; by rewrite lookup_insert_eq).
      assert (Forall (fun '(p, w) => val_of h' p = Some w) (l1 ++ l2)) as Hv'.
      { eapply Forall_impl; [exact Hv|]. intros [p w] Hp. by rewrite Hval. }
      apply Forall_app in Hv' as [? ?]. apply Forall_app. split; [done|]. by constructor.
    + rewrite Hd. unfold h0. by rewrite dom_insert_L.
    + intros p Hp Hpi. pose proof (before_in m l1.*1). pose proof (after_in m l2.*1). rewrite fmap_app in Hpi.
      apply (writes_only_trans _ _ _ _ _ Hw0 Hw). set_solver.
Qed.

(** The C functions: the nodes are the caller's, and values are not looked at. *)

Lemma list_add_tail_correct h head ps item :
  is_ring h head ps -> item ∈ dom h -> item ∉ head :: ps ->
  exists h', list_add_tail head item h = Some (tt, h') /\ is_ring h' head (ps ++ [item]) /\ dom h' = dom h
    /\ writes_only [item; before head ps; head] h h'.
Proof.
  intros H Hi Hn. rewrite <- (app_nil_r ps) in H.
  destruct (link_between (mret tt) h head ps [] item H Hi) as (h' & E & Hr & Hd & Hw & _); [by rewrite app_nil_r|].
  exists h'. split; [|done]. unfold after in E. cbn [list.head default] in E. etransitivity; [|exact E]. unfold list_add_tail.
  do 5 (apply bind_ext; intros). symmetry. apply bind_tt.
Qed.

Lemma list_add_head_correct h head ps item :
  is_ring h head ps -> item ∈ dom h -> item ∉ head :: ps ->
  exists h', list_add_head head item h = Some (tt, h') /\ is_ring h' head (item :: ps) /\ dom h' = dom h
    /\ writes_only [item; after head ps; head] h h'.
Proof.
  intros H Hi Hn. pose proof (after_in head ps) as Ha. destruct (ring_head _ _ _ _ H) as [Hnx _].
  assert (item <> head) by (intros ->; set_solver). assert (item <> after head ps) by (intros ->; set_solver).
  assert (head ∈ dom h) as Hhd by (apply (ring_dom h head ps); [exact H|constructor]).
  assert (after head ps ∈ dom h) as Had by (by apply (ring_dom h head ps)).
  set (q := after head ps) in *. unfold list_add_head. rewrite (bind_some _ _ _ _ _ (getNext_eq h head q Hnx)).
  run_store h1 S1; [exact Hi|]. run_store h2 S2; [by after_stores|].
  rewrite (bind_some _ _ _ _ _ (getNext_eq h2 head q ltac:(after_stores; by repeat case_decide))).
  run_store h3 S3; [by after_stores|]. run_store h4 S4; [by after_stores|].
  exists h4. split; [reflexivity|]. split; [|split].
  - apply (ring_linked_in h h4 head [] ps item); [exact H|exact Hn| |]; intros a; unfold before; cbn [last default];
      after_stores; fold q; repeat case_decide; congruence.
  - by after_stores.
  - intros a Hin. rewrite (stored_other _ _ _ _ _ _ S4), (stored_other _ _ _ _ _ _ S3), (stored_other _ _ _ _ _ _ S2),
      (stored_other _ _ _ _ _ _ S1); set_solver.
Qed.

Lemma list_remove_correct h head ps1 item ps2 :
  is_ring h head (ps1 ++ item :: ps2) ->
  exists h', list_remove item h = Some (tt, h') /\ is_ring h' head (ps1 ++ ps2) /\ dom h' = dom h
    /\ writes_only [before head ps1; after head ps2] h h'.
Proof.
  intros H. destruct (neighbours h head ps1 ps2 item H) as (Hx & Hb & Ha & Hxd & Hbd & Had & Hnx & Hpx).
  set (p := before head ps1) in *. set (q := after head ps2) in *. unfold list_remove.
  rewrite (bind_some _ _ _ _ _ (getNext_eq h item q Hnx)), (bind_some _ _ _ _ _ (getPrev_eq h item p Hpx)).
  run_store h1 S1; [exact Had|].
  rewrite (bind_some _ _ _ _ _ (getPrev_eq h1 item p ltac:(after_stores; case_decide; congruence))).
  rewrite (bind_some _ _ _ _ _ (getNext_eq h1 item q ltac:(after_stores; case_decide; congruence))).
  run_store h2 S2; [by after_stores|]. exists h2. split; [reflexivity|]. split; [|split].
  - apply ring_linked_out with h item; [exact H| |]; intros a _; after_stores; fold p q; repeat case_decide; subst; congruence || reflexivity.
  - by after_stores.
  - intros a Hin. rewrite (stored_other _ _ _ _ _ _ S2), (stored_other _ _ _ _ _ _ S1); set_solver.
Qed.

Lemma list_init_correct h p :
  p ∈ dom h -> exists h', list_init p h = Some (tt, h') /\ is_ring h' p [] /\ dom h' = dom h /\ writes_only [p] h h'.
Proof.
  intros Hp. unfold list_init. run_store h1 S1; [exact Hp|]. run_store h2 S2; [by after_stores|]. exists h2.
  split; [done|]. split; [|split].
  - apply ring_empty. split; after_stores; by repeat case_decide.
  - by after_stores.
  - intros a Ha. by rewrite (stored_other _ _ _ _ _ _ S2), (stored_other _ _ _ _ _ _ S1).
Qed.

Lemma list_empty_correct h head ps : is_ring h head ps -> list_empty head h = Some (bool_decide (ps = []), h).
Proof.
  intros H. unfold list_empty. destruct (ring_head _ _ _ _ H) as [Hn _]. rewrite (bind_some _ _ _ _ _ (getNext_eq _ _ _ Hn)).
  unfold mret, st_ret. do 2 f_equal. apply bool_decide_ext. destruct ps as [|p ps]; [done|]. cbn. split; [|done].
  intros ->. destruct H as [_ HN]. apply NoDup_cons in HN as [HN _]. destruct HN. constructor.
Qed.

(** The macros, for a body that leaves the circle as it is. *)
Lemma each_from_correct fuel (body : ptr -> ST (heap (node V)) unit) h head ps1 ps2 :
  (forall s x s', is_ring s head (ps1 ++ ps2) -> body x s = Some (tt, s') -> is_ring s' head (ps1 ++ ps2)) ->
  is_ring h head (ps1 ++ ps2) -> (length ps2 <= fuel)%nat ->
  each_from fuel getNext head body (after head ps2) h = for_each body ps2 h.
Proof.
  revert fuel h ps1. induction ps2 as [|x ps2 IH]; intros fuel h ps1 Hb H Hf.
  - destruct fuel; cbn [each_from]; by rewrite decide_True.
  - destruct fuel as [|fuel]; [cbn in Hf; lia|]. cbn [each_from]. unfold after at 1. cbn [list.head default].
    destruct (neighbours h head ps1 ps2 x H) as (Hx & _). rewrite decide_False by set_solver. cbn [for_each].
    destruct (body x h) as [[[] h1]|] eqn:E; [|by rewrite !(bind_none _ _ _ E)].
    rewrite !(bind_some _ _ _ _ _ E). pose proof (Hb _ _ _ H E) as H1.
    destruct (neighbours h1 head ps1 ps2 x H1) as (_ & _ & _ & _ & _ & _ & Hn & _).
    rewrite (bind_some _ _ _ _ _ (getNext_eq _ _ _ Hn)).
    rewrite (cons_middle x ps1 ps2), (app_assoc ps1 [x] ps2) in H1, Hb. apply IH with (ps1 ++ [x]); [exact Hb|exact H1|cbn in Hf; lia].
Qed.

Lemma each_reverse_from_correct fuel (body : ptr -> ST (heap (node V)) unit) h head ps1 ps2 :
  (forall s x s', is_ring s head (ps1 ++ ps2) -> body x s = Some (tt, s') -> is_ring s' head (ps1 ++ ps2)) ->
  is_ring h head (ps1 ++ ps2) -> (length ps1 <= fuel)%nat ->
  each_from fuel getPrev head body (before head ps1) h = for_each body (reverse ps1) h.
Proof.
  revert fuel h ps2. induction ps1 as [|x ps1 IH] using rev_ind; intros fuel h ps2 Hb H Hf.
  - destruct fuel; cbn [each_from]; by rewrite decide_True.
  - rewrite length_app in Hf. destruct fuel as [|fuel]; [cbn in Hf; lia|]. rewrite reverse_snoc. cbn [each_from for_each].
    rewrite <- !app_assoc in *. cbn [app] in *.
    assert (before head (ps1 ++ [x]) = x) as -> by (unfold before; by rewrite last_snoc).
    destruct (neighbours h head ps1 ps2 x H) as (Hx & _). rewrite decide_False by set_solver.
    destruct (body x h) as [[[] h1]|] eqn:E; [|by rewrite !(bind_none _ _ _ E)].
    rewrite !(bind_some _ _ _ _ _ E). pose proof (Hb _ _ _ H E) as H1.
    destruct (neighbours h1 head ps1 ps2 x H1) as (_ & _ & _ & _ & _ & _ & _ & Hp).
    rewrite (bind_some _ _ _ _ _ (getPrev_eq _ _ _ Hp)). apply IH with (x :: ps2); [exact Hb|exact H1|cbn in Hf; lia].
Qed.

(** The safe macro, for a body that takes the node out of the circle. *)
Lemma each_safe_from_correct fuel (body : ptr -> ST (heap (node V)) unit) h head ps :
  (forall s x qs s', is_ring s head (x :: qs) -> body x s = Some (tt, s') -> is_ring s' head qs) ->
  is_ring h head ps -> (length ps <= fuel)%nat ->
  list_for_each_safe fuel head body h = for_each body ps h.
Proof.
  intros Hb H Hf. unfold list_for_each_safe. destruct (ring_head _ _ _ _ H) as [Hn _].
  rewrite (bind_some _ _ _ _ _ (getNext_eq _ _ _ Hn)).
  revert fuel h H Hn Hf. induction ps as [|x ps IH]; intros fuel h H Hn Hf.
  - unfold after. cbn [list.head default]. cbn [after list.head default] in Hn. unfold after in Hn. cbn in Hn.
    rewrite (bind_some _ _ _ _ _ (getNext_eq _ _ _ Hn)). destruct fuel; cbn [each_safe_from]; by rewrite decide_True.
  - destruct fuel as [|fuel]; [cbn in Hf; lia|]. unfold after at 1. cbn [list.head default].
    destruct (neighbours h head [] ps x H) as (Hx & _ & _ & _ & _ & _ & Hnx & _).
    rewrite (bind_some _ _ _ _ _ (getNext_eq _ _ _ Hnx)). cbn [each_safe_from for_each].
    rewrite decide_False by set_solver.
    destruct (body x h) as [[[] h1]|] eqn:E; [|by rewrite !(bind_none _ _ _ E)].
    rewrite !(bind_some _ _ _ _ _ E). pose proof (Hb _ _ _ _ H E) as H1. destruct (ring_head _ _ _ _ H1) as [Hn1 _].
    apply (IH fuel h1 H1 Hn1). cbn in Hf. lia.
Qed.
End Operations.

(** * Loops over a list *)

Section Loops.
Context {V : Type}.
Implicit Types (h : heap (node V)) (p q m x n : ptr) (l : list (ptr * V)).

(** Where a list starts. *)
Abbreviation start m l := (after m l.*1).

Lemma list_at h m l1 x v l2 :
  is_list h m (l1 ++ (x, v) :: l2) ->
  next_of h x = Some (start m l2) /\ val_of h x = Some v /\ x ∈ dom h /\ x <> m /\ x ∉ l1.*1 /\ x ∉ l2.*1.
Proof.
  intros [H Hv]. rewrite fmap_app, fmap_cons in H. cbn [fst] in H.
  destruct (neighbours _ _ _ _ _ H) as (Hx & _ & _ & Hd & _ & _ & Hn & _). apply Forall_app in Hv as [_ [Hv _]%Forall_cons].
  set_solver.
Qed.

Lemma list_begin h m l : is_list h m l -> getNext m h = Some (start m l, h).
Proof. intros [H _]. by apply getNext_eq, (ring_head _ _ _ _ H). Qed.

(** A place of a list is not the end of a later range. *)
Lemma list_start_ne h m l1 x v l2 l3 : is_list h m (l1 ++ ((x, v) :: l2) ++ l3) -> x <> start m l3.
Proof.
  intros H. destruct (list_at h m l1 x v (l2 ++ l3) H) as (_ & _ & _ & Hm & _ & Hx). rewrite fmap_app in Hx.
  destruct l3 as [|[y w] l3]; [done|]. unfold after. cbn. set_solver.
Qed.

Lemma distance_correct fuel h m l1 l2 l3 c :
  is_list h m (l1 ++ l2 ++ l3) -> (length l2 <= fuel)%nat ->
  distance fuel (start m (l2 ++ l3)) (start m l3) c h = Some (c + Z.of_nat (length l2), h).
Proof.
  revert fuel l1 c. induction l2 as [|[x v] l2 IH]; intros fuel l1 c H Hf.
  - destruct fuel; cbn [distance app length]; rewrite decide_True by done; unfold mret, st_ret; do 2 f_equal; lia.
  - destruct fuel as [|fuel]; [cbn in Hf; lia|]. cbn [distance app]. unfold after at 1. cbn [fmap list_fmap fst head default].
    rewrite decide_False by (by apply (list_start_ne h m l1 x v l2 l3)).
    destruct (list_at h m l1 x v (l2 ++ l3) H) as (Hn & _).
    rewrite (bind_some _ _ _ _ _ (getNext_eq _ _ _ Hn)).
    rewrite (IH fuel (l1 ++ [(x, v)])); [|by rewrite <- app_assoc|cbn in Hf; lia]. cbn [length]. do 2 f_equal. lia.
Qed.

Lemma size_correct fuel h m l :
  is_list h m l -> (length l <= fuel)%nat -> size fuel m h = Some (Z.of_nat (length l), h).
Proof.
  intros H Hf. unfold size, begin. rewrite (bind_some _ _ _ _ _ (list_begin h m l H)).
  rewrite <- (app_nil_r l) in H. pose proof (distance_correct fuel h m [] l [] 0 H Hf) as Hd. by rewrite app_nil_r in Hd.
Qed.

Lemma erase_range_correct fuel h m l1 l2 l3 :
  is_list h m (l1 ++ l2 ++ l3) -> (length l2 <= fuel)%nat ->
  exists h', erase_range fuel (start m (l2 ++ l3)) (start m l3) h = Some (start m l3, h')
    /\ is_list h' m (l1 ++ l3) /\ dom h' = dom h ∖ list_to_set l2.*1 /\ frame (m :: (l1 ++ l2 ++ l3).*1) h h'.
Proof.
  revert fuel h. induction l2 as [|[x v] l2 IH]; intros fuel h H Hf.
  - exists h. destruct fuel; cbn [erase_range app]; rewrite decide_True by done; (split; [done|]; split; [exact H|]);
      (split; [set_solver|apply frame_refl]).
  - destruct fuel as [|fuel]; [cbn in Hf; lia|]. cbn [erase_range app]. unfold after at 1. cbn [fmap list_fmap fst head default].
    rewrite decide_False by (by apply (list_start_ne h m l1 x v l2 l3)).
    destruct (list_at h m l1 x v (l2 ++ l3) H) as (Hn & _).
    rewrite (bind_some _ _ _ _ _ (getNext_eq _ _ _ Hn)).
    destruct (erase_correct h m l1 (l2 ++ l3) x v H) as (h1 & E & H1 & Hd1 & Hf1). rewrite (bind_some _ _ _ _ _ E).
    destruct (IH fuel h1 H1 ltac:(cbn in Hf; lia)) as (h2 & E2 & H2 & Hd2 & Hf2). exists h2. split; [exact E2|].
    split; [exact H2|]. split; [rewrite Hd2, Hd1; cbn; set_solver|].
    apply (frame_trans _ _ _ _ _ Hf1 Hf2). rewrite !fmap_app. cbn. set_solver.
Qed.

Lemma insert_range_correct `{HM : Malloc} fuel h m l1 l2 m' k1 k2 k3 :
  is_list h m (l1 ++ l2) -> is_list h m' (k1 ++ k2 ++ k3) -> m' :: (k1 ++ k2 ++ k3).*1 ## m :: (l1 ++ l2).*1 ->
  (length k2 <= fuel)%nat ->
  exists h' new, insert_range fuel (start m l2) (start m' (k2 ++ k3)) (start m' k3) h = Some (tt, h')
    /\ is_list h' m (l1 ++ new ++ l2) /\ new.*2 = k2.*2 /\ dom h' = list_to_set new.*1 ∪ dom h
    /\ (forall n, n ∈ new.*1 -> n ∉ dom h) /\ frame (m :: (l1 ++ l2).*1) h h'.
Proof.
  revert fuel h l1 k1. induction k2 as [|[x v] k2 IH]; intros fuel h l1 k1 Hl Hk Hdj Hf.
  - exists h, []. destruct fuel; cbn [insert_range app]; rewrite decide_True by done; (split; [done|]; split; [exact Hl|]);
      (split; [done|]; split; [set_solver|]; split; [set_solver|apply frame_refl]).
  - destruct fuel as [|fuel]; [cbn in Hf; lia|]. cbn [insert_range app]. unfold after at 2. cbn [fmap list_fmap fst head default].
    rewrite decide_False by (by apply (list_start_ne h m' k1 x v k2 k3)).
    destruct (list_at h m' k1 x v (k2 ++ k3) Hk) as (Hn & Hv & Hxd & _).
    rewrite (bind_some _ _ _ _ _ (getRef_eq _ _ _ Hv)).
    destruct (insert_correct h m l1 l2 v Hl) as (n & h1 & E & Hnd & Hl1 & Hd1 & Hf1). rewrite (bind_some _ _ _ _ _ E).
    assert (is_list h1 m' (k1 ++ ((x, v) :: k2) ++ k3)) as Hk1.
    { apply list_frame with h (m :: (l1 ++ l2).*1); [exact Hk|exact Hf1|]. intros p Hp Hp'. exact (Hdj p Hp Hp'). }
    destruct (list_at h1 m' k1 x v (k2 ++ k3) Hk1) as (Hn1 & _). rewrite (bind_some _ _ _ _ _ (getNext_eq _ _ _ Hn1)).
    destruct (IH fuel h1 (l1 ++ [(n, v)]) (k1 ++ [(x, v)])) as (h2 & new & E2 & Hl2 & Hv2 & Hd2 & Hnew & Hf2).
    + by rewrite <- app_assoc.
    + by rewrite <- app_assoc.
    + intros p Hp Hp'. rewrite <- !app_assoc in *. cbn [app] in *.
      assert (p ∈ dom h) as Hpd by (by apply (list_dom h m' (k1 ++ (x, v) :: k2 ++ k3))).
      apply (Hdj p Hp). rewrite fmap_app, fmap_cons in Hp'. rewrite fmap_app. cbn [fst] in Hp'. set_solver.
    + cbn in Hf. lia.
    + exists h2, ((n, v) :: new). rewrite <- !app_assoc in *. cbn [app] in *. split; [exact E2|]. split; [exact Hl2|].
      split; [cbn; by rewrite Hv2|]. split; [rewrite Hd2, Hd1; cbn; set_solver|]. split.
      * cbn. intros a [->|Ha]%elem_of_cons; [exact Hnd|]. specialize (Hnew a Ha). rewrite Hd1 in Hnew. set_solver.
      * apply (frame_trans _ _ _ _ _ Hf1 Hf2). rewrite !fmap_app. cbn. intros p Hp.
        destruct (decide (p = n)) as [->|]; [by right|]. left. set_solver.
Qed.

(** [h] has the nodes of [l2] left of the list that was in [h0]. *)
Lemma clear_from_correct fuel h0 h m l1 l2 :
  is_list h0 m (l1 ++ l2) -> (forall p, p ∈ l2.*1 -> h !! p = h0 !! p) -> (length l2 <= fuel)%nat ->
  exists h', clear_from fuel m (start m l2) h = Some (tt, h')
    /\ dom h' = dom h ∖ list_to_set l2.*1 /\ writes_only l2.*1 h h'.
Proof.
  revert fuel h l1. induction l2 as [|[x v] l2 IH]; intros fuel h l1 H Hh Hf.
  - exists h. destruct fuel; cbn [clear_from]; rewrite decide_True by done; (split; [done|]; split; [set_solver|done]).
  - destruct fuel as [|fuel]; [cbn in Hf; lia|]. cbn [clear_from]. unfold after at 1. cbn [fmap list_fmap fst head default].
    destruct (list_at h0 m l1 x v l2 H) as (Hn & _ & Hd & Hm & _ & Hx). rewrite decide_False by exact Hm.
    assert (h !! x = h0 !! x) as Ex by (apply Hh; constructor).
    assert (next_of h x = Some (start m l2)) as Hn' by (unfold next_of; by rewrite Ex).
    rewrite (bind_some _ _ _ _ _ (getNext_eq _ _ _ Hn')).
    rewrite (bind_some _ _ _ _ _ (free_eq x h (next_of_dom _ _ _ Hn'))).
    destruct (IH fuel (delete x h) (l1 ++ [(x, v)])) as (h' & E & Hd' & Hw).
    + by rewrite <- app_assoc.
    + intros p Hp. rewrite lookup_delete_ne by (intros ->; exact (Hx Hp)). apply Hh. by constructor.
    + cbn in Hf. lia.
    + exists h'. split; [exact E|]. split; [rewrite Hd', dom_delete_L; cbn; set_solver|].
      intros p Hp. cbn in Hp. rewrite Hw by set_solver. apply lookup_delete_ne. set_solver.
Qed.

(** Both links of a node to itself. *)
Lemma self_linked h m :
  m ∈ dom h ->
  exists h', (_ ← setPrev m m; setNext m m) h = Some (tt, h') /\ is_list h' m [] /\ dom h' = dom h /\ writes_only [m] h h'.
Proof.
  intros Hm. run_store h1 S1; [exact Hm|]. run_store h2 S2; [by after_stores|]. exists h2. split; [done|]. split; [|split].
  - split; [|constructor]. apply ring_empty. split; after_stores; by repeat case_decide.
  - by after_stores.
  - intros p Hp. by rewrite (stored_other _ _ _ _ _ _ S2), (stored_other _ _ _ _ _ _ S1).
Qed.

Lemma List_clear_correct fuel h m l :
  is_list h m l -> (length l <= fuel)%nat ->
  exists h', clear fuel m h = Some (tt, h') /\ is_list h' m [] /\ dom h' = dom h ∖ list_to_set l.*1 /\ frame (m :: l.*1) h h'.
Proof.
  intros H Hf. unfold clear. rewrite (bind_some _ _ _ _ _ (list_begin h m l H)).
  destruct (clear_from_correct fuel h h m [] l H ltac:(done) Hf) as (h1 & E & Hd & Hw). rewrite (bind_some _ _ _ _ _ E).
  assert (m ∉ l.*1) as Hm by (destruct H as [[_ HN] _]; by apply NoDup_cons_1_1 in HN).
  destruct (self_linked h1 m) as (h2 & E2 & H2 & Hd2 & Hw2).
  { rewrite Hd. assert (m ∈ dom h) by (apply (list_dom h m l m H); constructor). set_solver. }
  exists h2. split; [exact E2|]. split; [exact H2|]. split; [by rewrite Hd2|].
  intros p _ Hp. rewrite Hw2, Hw; set_solver.
Qed.

Lemma destructor_correct fuel h m l :
  is_list h m l -> (length l <= fuel)%nat ->
  exists h', destructor fuel m h = Some (tt, h') /\ dom h' = dom h ∖ list_to_set (m :: l.*1) /\ frame (m :: l.*1) h h'.
Proof.
  intros H Hf. unfold destructor. destruct (List_clear_correct fuel h m l H Hf) as (h1 & E & H1 & Hd & Hf1).
  rewrite (bind_some _ _ _ _ _ E). rewrite free_eq by (apply (list_dom h1 m [] m H1); constructor).
  exists (delete m h1). split; [done|]. split; [rewrite dom_delete_L, Hd; cbn; set_solver|].
  intros p Hp Hin. rewrite lookup_delete_ne by set_solver. by apply Hf1.
Qed.

Lemma prep_correct `{HM : Malloc} h :
  exists m h', prep h = Some (m, h') /\ m ∉ dom h /\ is_list h' m [] /\ dom h' = {[m]} ∪ dom h /\ frame [] h h'.
Proof.
  unfold prep. destruct (new_eq (Node None None None) h) as (m & Hm & E). rewrite (bind_some _ _ _ _ _ E).
  destruct (self_linked (<[m := Node None None None]> h) m) as (h' & E' & Hl & Hd & Hw).
  { rewrite dom_insert_L. set_solver. }
  exists m, h'. split.
  { revert E'. unfold mbind, st_bind. destruct (setPrev m m _) as [[[] s]|]; [|done]. cbn. by intros ->. }
  split; [exact Hm|]. split; [exact Hl|]. split; [by rewrite Hd, dom_insert_L|].
  intros p Hp _. assert (p <> m) by (by intros ->). rewrite Hw by set_solver. by apply lookup_insert_ne.
Qed.

Lemma copy_constructor_correct `{HM : Malloc} fuel h m l :
  is_list h m l -> (length l <= fuel)%nat ->
  exists m' h' l', copy_constructor fuel m h = Some (m', h') /\ is_list h' m' l' /\ l'.*2 = l.*2
    /\ is_list h' m l /\ m' :: l'.*1 ## m :: l.*1 /\ frame [] h h'.
Proof.
  intros H Hf. unfold copy_constructor, begin, end_. destruct (prep_correct h) as (m' & h1 & E & Hm & H1 & Hd1 & Hf1).
  rewrite (bind_some _ _ _ _ _ E), (bind_some _ _ _ _ _ (list_begin h1 m' [] H1)).
  assert (is_list h1 m l) as Hl by (apply list_frame with h []; [exact H|exact Hf1|intros; apply not_elem_of_nil]).
  assert (m' ∉ m :: l.*1) as Hm' by (intros Hin; by apply Hm, (list_dom h m l)).
  rewrite (bind_some _ _ _ _ _ (list_begin h1 m l Hl)).
  destruct (insert_range_correct fuel h1 m' [] [] m [] l []) as (h2 & new & E2 & H2 & Hv & Hd2 & Hn2 & Hf2).
  - exact H1.
  - by rewrite app_nil_r.
  - rewrite app_nil_r. intros p Hp Hp'. cbn in Hp'. apply list_elem_of_singleton in Hp' as ->. exact (Hm' Hp).
  - exact Hf.
  - rewrite !app_nil_r in *. cbn [app] in *. rewrite (bind_some _ _ _ _ _ E2). exists m', h2, new.
    split; [done|]. split; [exact H2|]. split; [exact Hv|]. split; [|split].
    + apply list_frame with h1 [m']; [exact Hl|exact Hf2|]. intros p Hp ->%list_elem_of_singleton. exact (Hm' Hp).
    + intros p Hp Hp'. apply elem_of_cons in Hp as [->|Hp]; [exact (Hm' Hp')|].
      by apply (Hn2 p Hp), (list_dom h1 m l).
    + apply (frame_trans _ _ _ _ _ Hf1 Hf2). cbn. intros p ->%list_elem_of_singleton. by right.
Qed.

(** [operator=] first writes over as many elements as both lists have. *)
Lemma setVal_correct h m l1 x v w l2 :
  is_list h m (l1 ++ (x, v) :: l2) ->
  exists h', setVal x w h = Some (tt, h') /\ is_list h' m (l1 ++ (x, w) :: l2) /\ dom h' = dom h /\ writes_only [x] h h'.
Proof.
  intros H. destruct (list_at h m l1 x v l2 H) as (_ & _ & Hd & _ & Hx1 & Hx2).
  destruct (setVal_eq h x w Hd) as (h' & E & S). exists h'. split; [exact E|].
  split; [|split; [apply (stored_dom _ _ _ _ _ _ S)|apply (stored_other _ _ _ _ _ _ S)]].
  destruct H as [Hr Hv]. split.
  - rewrite fmap_app, fmap_cons in *. apply (ring_ext _ _ _ _ _ _ Hr). intros a _. after_stores.
    case_decide; subst; done.
  - assert (forall k, x ∉ k.*1 -> Forall (fun '(p, u) => val_of h p = Some u) k -> Forall (fun '(p, u) => val_of h' p = Some u) k) as Hk.
    { intros k Hxk. rewrite !Forall_forall. intros HF [p u] Hin. after_stores. case_decide as Ep; [subst p|exact (HF _ Hin)].
      destruct Hxk. apply list_elem_of_fmap. by exists (x, u). }
    apply Forall_app in Hv as [Hv1 [_ Hv2]%Forall_cons]. apply Forall_app. split; [by apply Hk|].
    constructor; [after_stores; by case_decide|by apply Hk].
Qed.

Lemma assign_from_correct fuel h m l1 l2 m' k1 k2 :
  is_list h m (l1 ++ l2) -> is_list h m' (k1 ++ k2) -> m' :: (k1 ++ k2).*1 ## m :: (l1 ++ l2).*1 -> (length k2 <= fuel)%nat ->
  exists h' lw l3 kw k3, assign_from fuel (start m' k2) m' (start m l2) m h = Some ((start m' k3, start m l3), h')
    /\ lw.*1 ++ l3.*1 = l2.*1 /\ k2 = kw ++ k3 /\ lw.*2 = kw.*2 /\ (l3 = [] \/ k3 = [])
    /\ is_list h' m (l1 ++ lw ++ l3) /\ dom h' = dom h /\ frame (m :: (l1 ++ l2).*1) h h'.
Proof.
  revert fuel h l1 l2 k1. induction k2 as [|[x v] k2 IH]; intros fuel h l1 l2 k1 Hl Hk Hdj Hf.
  - exists h, [], l2, [], []. destruct fuel; cbn [assign_from]; rewrite decide_False by (by intros [? _]); repeat split; auto; apply Hl.
  - destruct l2 as [|[y w] l2].
    + exists h, [], [], [], ((x, v) :: k2).
      destruct fuel; cbn [assign_from]; rewrite decide_False by (by intros [_ ?]); repeat split; auto; apply Hl.
    + destruct fuel as [|fuel]; [cbn in Hf; lia|]. cbn [assign_from].
      unfold after at 1 2 3. cbn [fmap list_fmap fst head default].
      destruct (list_at h m l1 y w l2 Hl) as (_ & _ & _ & Hym & _).
      destruct (list_at h m' k1 x v k2 Hk) as (_ & Hv & _ & Hxm & _).
      rewrite decide_True by done. rewrite (bind_some _ _ _ _ _ (getRef_eq _ _ _ Hv)).
      destruct (setVal_correct h m l1 y w v l2 Hl) as (h1 & E & Hl1 & Hd1 & Hw1). rewrite (bind_some _ _ _ _ _ E).
      assert (is_list h1 m' (k1 ++ (x, v) :: k2)) as Hk1.
      { apply list_writes with h [y]; [exact Hk|exact Hw1|]. intros p ->%list_elem_of_singleton Hp. apply (Hdj y Hp).
        rewrite fmap_app. cbn. set_solver. }
      destruct (list_at h1 m l1 y v l2 Hl1) as (Hn & _). rewrite (bind_some _ _ _ _ _ (getNext_eq _ _ _ Hn)).
      destruct (list_at h1 m' k1 x v k2 Hk1) as (Hn' & _). rewrite (bind_some _ _ _ _ _ (getNext_eq _ _ _ Hn')).
      destruct (IH fuel h1 (l1 ++ [(y, v)]) l2 (k1 ++ [(x, v)])) as (h2 & lw & l3 & kw & k3 & E2 & H1 & H2 & H3 & H4 & H5 & H6 & H7).
      * by rewrite <- app_assoc.
      * by rewrite <- app_assoc.
      * rewrite <- !app_assoc. cbn [app]. rewrite !fmap_app in *. exact Hdj.
      * cbn in Hf. lia.
      * exists h2, ((y, v) :: lw), l3, ((x, v) :: kw), k3. rewrite <- !app_assoc in *. split; [exact E2|].
        split; [cbn; by rewrite H1|]. split; [cbn; by rewrite H2|]. split; [cbn; by rewrite H3|]. split; [exact H4|].
        split; [exact H5|]. split; [by rewrite H6|].
        intros p Hp Hin. rewrite fmap_app in Hin. rewrite H7; [|by rewrite Hd1|by rewrite fmap_app]. apply Hw1.
        cbn in Hin. set_solver.
Qed.

(** What [operator=] promises of the list [m], which was [l], and of [m'], which
    is [k]. *)
Definition assigned h h' m l m' k : Prop :=
  exists l', is_list h' m l' /\ l'.*2 = k.*2 /\ is_list h' m' k
    /\ dom h' = (dom h ∖ list_to_set l.*1) ∪ list_to_set l'.*1 /\ frame (m :: l.*1) h h'.

(** The source ends first: the elements left are erased. *)
Lemma assign_erases fuel h m lw l3 m' k :
  is_list h m (lw ++ l3) -> is_list h m' k -> m' :: k.*1 ## m :: (lw ++ l3).*1 -> lw.*2 = k.*2 -> (length l3 <= fuel)%nat ->
  exists h', erase_range fuel (start m l3) m h = Some (m, h') /\ assigned h h' m (lw ++ l3) m' k.
Proof.
  intros Hl Hk Hdj Hv Hf. rewrite <- (app_nil_r l3) in Hl.
  destruct (erase_range_correct fuel h m lw l3 [] Hl Hf) as (h' & E & Hl' & Hd & Hf').
  rewrite app_nil_r in Hl, E, Hl', Hf'. exists h'. split; [exact E|]. exists lw.
  split; [exact Hl'|]. split; [exact Hv|]. split; [|split; [|exact Hf']].
  - apply list_frame with h (m :: (lw ++ l3).*1); [exact Hk|exact Hf'|]. intros p Hp Hp'. exact (Hdj p Hp Hp').
  - assert (list_to_set lw.*1 ⊆ dom h) as Hsub.
    { intros p Hp%elem_of_list_to_set. apply (list_dom h m _ p Hl). rewrite fmap_app. set_solver. }
    assert (lw.*1 ## l3.*1) as Hdis.
    { intros p Hp Hp'. destruct Hl as [[_ HN] _]. rewrite fmap_app in HN. apply NoDup_cons in HN as [_ HN].
      apply NoDup_app in HN as (_ & HN & _). exact (HN p Hp Hp'). }
    rewrite Hd, fmap_app, list_to_set_app_L. apply set_eq. intros p. destruct (decide (p ∈ lw.*1)); set_solver.
Qed.

(** The list ends first: the elements left of the source are inserted. *)
Lemma assign_inserts `{HM : Malloc} fuel h m l m' kw k3 :
  is_list h m l -> is_list h m' (kw ++ k3) -> m' :: (kw ++ k3).*1 ## m :: l.*1 -> l.*2 = kw.*2 -> (length k3 <= fuel)%nat ->
  exists h', insert_range fuel m (start m' k3) m' h = Some (tt, h') /\ assigned h h' m l m' (kw ++ k3).
Proof.
  intros Hl Hk Hdj Hv Hf.
  destruct (insert_range_correct fuel h m l [] m' kw k3 []) as (h' & new & E & Hl' & Hv' & Hd & Hn & Hf');
    rewrite ?app_nil_r in *; [done..|].
  exists h'. split; [exact E|]. exists (l ++ new).
  split; [exact Hl'|]. split; [by rewrite !fmap_app, Hv, Hv'|]. split; [|split; [|exact Hf']].
  - apply list_frame with h (m :: l.*1); [exact Hk|exact Hf'|]. intros p Hp Hp'. exact (Hdj p Hp Hp').
  - assert (list_to_set l.*1 ⊆ dom h) as Hsub.
    { intros p Hp%elem_of_list_to_set. apply (list_dom h m l p Hl). by apply list_elem_of_further. }
    rewrite Hd, fmap_app, list_to_set_app_L. apply set_eq. intros p. destruct (decide (p ∈ l.*1)); set_solver.
Qed.

Lemma assign_correct `{HM : Malloc} fuel h m l m' k :
  is_list h m l -> is_list h m' k -> m' :: k.*1 ## m :: l.*1 -> (length l + length k <= fuel)%nat ->
  exists h', assign fuel m m' h = Some (tt, h') /\ assigned h h' m l m' k.
Proof.
  intros Hl Hk Hdj Hf. unfold assign, begin, end_. rewrite decide_False by (intros <-; set_solver).
  rewrite (bind_some _ _ _ _ _ (list_begin h m l Hl)), (bind_some _ _ _ _ _ (list_begin h m' k Hk)).
  destruct (assign_from_correct fuel h m [] l m' [] k Hl Hk Hdj ltac:(lia))
    as (h1 & lw & l3 & kw & k3 & E & H1 & -> & H3 & H4 & H5 & H6 & H7). cbn [app] in *.
  rewrite (bind_some _ _ _ _ _ E).
  assert ((lw ++ l3).*1 = l.*1) as El by (by rewrite fmap_app).
  assert (length l3 <= length l)%nat as HL.
  { assert (length (lw ++ l3).*1 = length l.*1) as HL by (by rewrite El). rewrite !length_fmap, length_app in HL. lia. }
  assert (is_list h1 m' (kw ++ k3)) as Hk1.
  { apply list_frame with h (m :: l.*1); [exact Hk|exact H7|]. intros p Hp Hp'. exact (Hdj p Hp Hp'). }
  assert (forall h', assigned h1 h' m (lw ++ l3) m' (kw ++ k3) -> assigned h h' m l m' (kw ++ k3)) as Hfin.
  { intros h' (l' & A1 & A2 & A3 & A4 & A5). rewrite El in A4, A5. exists l'. rewrite H6 in A4. repeat split; try done; try apply A1; try apply A3.
    apply (frame_trans _ _ _ _ _ H7 A5). intros p Hp. by left. }
  rewrite <- El in Hdj. case_decide as Es.
  - assert (k3 = []) as ->.
    { destruct k3 as [|[x v] k3]; [done|]. destruct (list_at h1 m' kw x v k3 Hk1) as (_ & _ & _ & Hx & _). done. }
    rewrite app_nil_r in *. destruct (assign_erases fuel h1 m lw l3 m' kw H5 Hk1 Hdj H3 ltac:(lia)) as (h2 & E2 & HA).
    rewrite (bind_some _ _ _ _ _ E2). exists h2. split; [done|by apply Hfin].
  - destruct H4 as [->| ->]; [|done]. rewrite app_nil_r in *. rewrite length_app in Hf.
    destruct (assign_inserts fuel h1 m lw m' kw k3 H5 Hk1 Hdj H3 ltac:(lia)) as (h2 & E2 & HA).
    exists h2. split; [exact E2|by apply Hfin].
Qed.
End Loops.

(** * The two interfaces *)

(** C16. On a list with the values of [l], the operations of List do what they do
    on sequences: [size] counts, [push_front], [push_back] and [insert] add the
    value at its place in a new node, [erase] takes the node out and frees it,
    or the nodes from one iterator up to another, [clear] frees every node and keeps the list, the destructor frees that too;
    other objects of the memory stay as they are.  The loops end, on fuel for
    the length of the list. *)
Theorem List_correct {V} `{HM : Malloc} fuel (h : heap (node V)) m l :
  is_list h m l -> (length l <= fuel)%nat ->
  empty m h = Some (bool_decide (l = []), h)
  /\ size fuel m h = Some (Z.of_nat (length l), h)
  /\ (forall v, exists n h', push_front m v h = Some (n, h') /\ is_list h' m ((n, v) :: l)
        /\ n ∉ dom h /\ dom h' = {[n]} ∪ dom h /\ frame (m :: l.*1) h h')
  /\ (forall v, exists n h', push_back m v h = Some (n, h') /\ is_list h' m (l ++ [(n, v)])
        /\ n ∉ dom h /\ dom h' = {[n]} ∪ dom h /\ frame (m :: l.*1) h h')
  /\ (forall l1 x u l2 v, l = l1 ++ (x, u) :: l2 ->
        exists n h', insert x v h = Some (n, h') /\ is_list h' m (l1 ++ (n, v) :: (x, u) :: l2)
          /\ n ∉ dom h /\ dom h' = {[n]} ∪ dom h /\ frame (m :: l.*1) h h')
  /\ (forall l1 x v l2, l = l1 ++ (x, v) :: l2 ->
        exists h', erase x h = Some (after m l2.*1, h') /\ is_list h' m (l1 ++ l2)
          /\ dom h' = dom h ∖ {[x]} /\ frame (m :: l.*1) h h')
  /\ (forall l1 l2 l3, l = l1 ++ l2 ++ l3 ->
        exists h', erase_range fuel (after m (l2 ++ l3).*1) (after m l3.*1) h = Some (after m l3.*1, h')
          /\ is_list h' m (l1 ++ l3)
          /\ dom h' = dom h ∖ list_to_set l2.*1 /\ frame (m :: l.*1) h h')
  /\ (exists h', clear fuel m h = Some (tt, h') /\ is_list h' m []
        /\ dom h' = dom h ∖ list_to_set l.*1 /\ frame (m :: l.*1) h h')
  /\ (exists h', destructor fuel m h = Some (tt, h')
        /\ dom h' = dom h ∖ list_to_set (m :: l.*1) /\ frame (m :: l.*1) h h').
Proof.
  intros H Hf. split; [|split; [by apply size_correct|split; [|split; [|split; [|split; [|split; [|split]]]]]]].
  - unfold empty. rewrite (bind_some _ _ _ _ _ (list_begin h m l H)). unfold mret, st_ret. do 2 f_equal.
    apply bool_decide_ext. destruct l as [|[x v] l]; [done|]. destruct (list_at h m [] x v l H) as (_ & _ & _ & Hx & _). done.
  - intros v. destruct (insert_correct h m [] l v H) as (n & h' & E & Hn & Hl & Hd & Hw). exists n, h'.
    unfold push_front, begin. rewrite (bind_some _ _ _ _ _ (list_begin h m l H)). done.
  - intros v. rewrite <- (app_nil_r l) in H. destruct (insert_correct h m l [] v H) as (n & h' & E & Hn & Hl & Hd & Hw).
    rewrite app_nil_r in Hw. by exists n, h'.
  - intros l1 x u l2 v ->. destruct (insert_correct h m l1 ((x, u) :: l2) v H) as (n & h' & E & Hn & Hl & Hd & Hw). by exists n, h'.
  - intros l1 x v l2 ->. by apply erase_correct.
  - intros l1 l2 l3 ->. apply erase_range_correct; [exact H|]. rewrite !length_app in Hf. lia.
  - by apply List_clear_correct.
  - by apply destructor_correct.
Qed.

(** Two lists in one memory: [1] with the values 10, 20, and [4] with 30. *)
Definition two_lists : heap (node Z) :=
  list_to_map
    [(1%positive, Node None (Some 3%positive) (Some 2%positive));
     (2%positive, Node (Some 10) (Some 1%positive) (Some 3%positive));
     (3%positive, Node (Some 20) (Some 2%positive) (Some 1%positive));
     (4%positive, Node None (Some 5%positive) (Some 5%positive));
     (5%positive, Node (Some 30) (Some 4%positive) (Some 4%positive))].

Lemma two_lists_are :
  is_list two_lists 1%positive [(2%positive, 10); (3%positive, 20)] /\ is_list two_lists 4%positive [(5%positive, 30)].
Proof.
  split; (split; [split|]); repeat constructor; try reflexivity; intros H; repeat (apply elem_of_cons in H as [H|H]; [discriminate H|]);
    by apply not_elem_of_nil in H.
Defined.

Lemma List_correct_witness :
  (exists h', @erase Z 2%positive two_lists = Some (3%positive, h') /\ is_list h' 1%positive [(3%positive, 20)])
  /\ (exists h', @erase_range Z 2 2%positive 1%positive two_lists = Some (1%positive, h') /\ is_list h' 1%positive [])
  /\ size 2 1%positive two_lists = Some (2, two_lists).
Proof.
  destruct (@List_correct Z first_free 2 two_lists 1%positive _ (proj1 two_lists_are) (le_n 2))
    as (_ & Hs & _ & _ & _ & He & Hr & _).
  split; [|split; [|exact Hs]].
  - destruct (He [] 2%positive 10 [(3%positive, 20)] eq_refl) as (h' & E & Hl & _). by exists h'.
  - destruct (Hr [] [(2%positive, 10); (3%positive, 20)] [] eq_refl) as (h' & E & Hl & _). by exists h'.
Defined.

(** The copy constructor and [operator=] make a list of the same values in
    nodes of its own, whatever the target was, and leave the source alone;
    [operator=] keeps the nodes both lists have, frees those left over and
    allocates those that are missing, and does nothing for a list itself. *)
Theorem List_copies {V} `{HM : Malloc} fuel (h : heap (node V)) m l m' k :
  is_list h m l -> is_list h m' k -> m' :: k.*1 ## m :: l.*1 -> (length l + length k <= fuel)%nat ->
  (exists h', assign fuel m m' h = Some (tt, h') /\ assigned h h' m l m' k)
  /\ assign fuel m m h = Some (tt, h)
  /\ exists n h' l', copy_constructor fuel m' h = Some (n, h') /\ is_list h' n l' /\ l'.*2 = k.*2
       /\ is_list h' m' k /\ n :: l'.*1 ## m' :: k.*1 /\ frame [] h h'.
Proof.
  intros Hl Hk Hdj Hf. split; [by apply assign_correct|]. split.
  - unfold assign. by rewrite decide_True.
  - apply copy_constructor_correct; [exact Hk|lia].
Qed.

Lemma List_copies_witness :
  exists h', @assign Z first_free 3 1%positive 4%positive two_lists = Some (tt, h')
    /\ assigned two_lists h' 1%positive [(2%positive, 10); (3%positive, 20)] 4%positive [(5%positive, 30)].
Proof.
  destruct two_lists_are as [H1 H2].
  apply (@List_copies Z first_free 3 two_lists 1%positive _ 4%positive _ H1 H2).
  - intros p Hp Hp'. repeat (apply elem_of_cons in Hp as [->|Hp]; [revert Hp'; apply (bool_decide_unpack _); exact I|]).
    by apply not_elem_of_nil in Hp.
  - apply le_n.
Defined.

(** The functions and macros of cutils/list.h on a circle of nodes:
    [list_init] makes an empty one, [list_add_head] and [list_add_tail] add a
    node at its end, [list_remove] takes a node out wherever it is, and the
    loops run the body for each node in order, the reverse loop in the reverse
    order, the safe loop also when the body takes the node out. *)
Theorem listnode_correct {V} fuel (h : heap (node V)) head ps body :
  is_ring h head ps -> (length ps <= fuel)%nat ->
  list_empty head h = Some (bool_decide (ps = []), h)
  /\ list_head head h = Some (after head ps, h) /\ list_tail head h = Some (before head ps, h)
  /\ (forall p, p ∈ dom h -> exists h', list_init p h = Some (tt, h') /\ is_ring h' p [] /\ dom h' = dom h /\ writes_only [p] h h')
  /\ (forall item, item ∈ dom h -> item ∉ head :: ps ->
        (exists h', list_add_tail head item h = Some (tt, h') /\ is_ring h' head (ps ++ [item]) /\ dom h' = dom h
           /\ writes_only [item; before head ps; head] h h')
        /\ exists h', list_add_head head item h = Some (tt, h') /\ is_ring h' head (item :: ps) /\ dom h' = dom h
           /\ writes_only [item; after head ps; head] h h')
  /\ (forall ps1 item ps2, ps = ps1 ++ item :: ps2 ->
        exists h', list_remove item h = Some (tt, h') /\ is_ring h' head (ps1 ++ ps2) /\ dom h' = dom h
          /\ writes_only [before head ps1; after head ps2] h h')
  /\ ((forall s x s', is_ring s head ps -> body x s = Some (tt, s') -> is_ring s' head ps) ->
        list_for_each fuel head body h = for_each body ps h /\ list_for_each_reverse fuel head body h = for_each body (reverse ps) h)
  /\ ((forall s x qs s', is_ring s head (x :: qs) -> body x s = Some (tt, s') -> is_ring s' head qs) ->
        list_for_each_safe fuel head body h = for_each body ps h).
Proof.
  intros H Hf. destruct (ring_head _ _ _ _ H) as [Hn Hp].
  split; [by apply list_empty_correct|]. split; [by apply getNext_eq|]. split; [by apply getPrev_eq|].
  split; [by apply list_init_correct|]. split.
  { intros item Hi Hni. split; [by apply list_add_tail_correct|by apply list_add_head_correct]. }
  split; [intros ps1 item ps2 ->; by apply list_remove_correct|]. split.
  - intros Hb. unfold list_for_each, list_for_each_reverse.
    rewrite (bind_some _ _ _ _ _ (getNext_eq _ _ _ Hn)), (bind_some _ _ _ _ _ (getPrev_eq _ _ _ Hp)). split.
    + by apply (each_from_correct fuel body h head [] ps).
    + rewrite <- (app_nil_r ps) in Hb, H. by apply (each_reverse_from_correct fuel body h head ps []).
  - intros Hb. by apply each_safe_from_correct.
Qed.

Lemma listnode_correct_witness :
  list_for_each_safe 2 1%positive list_remove two_lists = for_each list_remove [2%positive; 3%positive] two_lists
  /\ exists h', @list_remove Z 3%positive two_lists = Some (tt, h') /\ is_ring h' 1%positive [2%positive].
Proof.
  destruct (@listnode_correct Z 2 two_lists 1%positive [2%positive; 3%positive] list_remove (proj1 (proj1 two_lists_are)) (le_n 2))
    as (_ & _ & _ & _ & _ & Hr & _ & Hs). split.
  - apply Hs. intros s x qs s' Hsr E. destruct (list_remove_correct s 1%positive [] x qs Hsr) as (s2 & E2 & Hq & _).
    rewrite E in E2. by injection E2 as ->.
  - destruct (Hr [2%positive] 3%positive [] eq_refl) as (h' & E & Hh & _). by exists h'.
Defined.
