(* ===== verification/LruCache.v ===== *)
(** * The cache of utils/LruCache.h

    A set of entries found by their keys, and a list of the same entries from
    the oldest to the youngest, linked by [parent] and [child].  The entries are
    objects at addresses.  The set is a [std::unordered_set] that compares keys,
    here a map from the keys to the addresses.  The listener is code of the
    user: it is told of a key and a value, and the calls are recorded. *)
From S2P Require Import Prelude Linked.

Section LruCache.
Context {K V : Type} `{Countable K} `{HM : Malloc} (mNullValue : V).

(** ** State *)

Record Entry := { key : K; value : V; parent : option ptr; child : option ptr }.

Record LruCache := {
  mSet : gmap K ptr;
  mListener : bool;
  mOldest : option ptr;
  mYoungest : option ptr;
  mMaxCapacity : Z;
  entries : heap Entry;
  notified : list (K * V)
}.

#[local] Abbreviation M := (ST LruCache).

Definition set_mSet (f : gmap K ptr -> gmap K ptr) : M unit := modify (fun s =>
  {| mSet := f (mSet s); mListener := mListener s; mOldest := mOldest s; mYoungest := mYoungest s;
     mMaxCapacity := mMaxCapacity s; entries := entries s; notified := notified s |}).

Definition set_mOldest (p : option ptr) : M unit := modify (fun s =>
  {| mSet := mSet s; mListener := mListener s; mOldest := p; mYoungest := mYoungest s;
     mMaxCapacity := mMaxCapacity s; entries := entries s; notified := notified s |}).

Definition set_mYoungest (p : option ptr) : M unit := modify (fun s =>
  {| mSet := mSet s; mListener := mListener s; mOldest := mOldest s; mYoungest := p;
     mMaxCapacity := mMaxCapacity s; entries := entries s; notified := notified s |}).

Definition with_entries (s : LruCache) (h : heap Entry) : LruCache :=
  {| mSet := mSet s; mListener := mListener s; mOldest := mOldest s; mYoungest := mYoungest s;
     mMaxCapacity := mMaxCapacity s; entries := h; notified := notified s |}.

(** A step on the entries alone. *)
Definition on_entries {A} (m : ST (heap Entry) A) : M A := fun s => '(a, h) ← m (entries s); Some (a, with_entries s h).

Definition entry (p : ptr) : M Entry := on_entries (load p).
Definition set_parent (p : ptr) (q : option ptr) : M unit :=
  on_entries (store p (fun e => {| key := key e; value := value e; parent := q; child := child e |})).
Definition set_child (p : ptr) (q : option ptr) : M unit :=
  on_entries (store p (fun e => {| key := key e; value := value e; parent := parent e; child := q |})).

(** The call of the listener, when there is one. *)
Definition notify (k : K) (v : V) : M unit := modify (fun s =>
  if mListener s then
    {| mSet := mSet s; mListener := mListener s; mOldest := mOldest s; mYoungest := mYoungest s;
       mMaxCapacity := mMaxCapacity s; entries := entries s; notified := notified s ++ [(k, v)] |}
  else s).

(** ** Operations *)

Definition kUnlimitedCapacity : Z := 0.

Definition constructor (maxCapacity : Z) : LruCache :=
  {| mSet := ∅; mListener := false; mOldest := None; mYoungest := None; mMaxCapacity := maxCapacity; entries := ∅; notified := [] |}.

Definition setOnEntryRemovedListener (listener : bool) : M unit := modify (fun s =>
  {| mSet := mSet s; mListener := listener; mOldest := mOldest s; mYoungest := mYoungest s;
     mMaxCapacity := mMaxCapacity s; entries := entries s; notified := notified s |}).

Definition size : M Z := gets (fun s => Z.of_nat (base.size (mSet s))).

Definition findByKey (k : K) : M (option ptr) := gets (fun s => mSet s !! k).

Definition attachToCache (p : ptr) : M unit :=
  mYoungest ← gets mYoungest;
  match mYoungest with
  | None => _ ← set_mOldest (Some p); set_mYoungest (Some p)
  | Some y =>
      _ ← set_parent p (Some y);
      _ ← set_child y (Some p);
      set_mYoungest (Some p)
  end.

Definition detachFromCache (p : ptr) : M unit :=
  e ← entry p;
  _ ← match parent e with
      | Some q => set_child q (child e)
      | None => set_mOldest (child e)
      end;
  e ← entry p;
  _ ← match child e with
      | Some q => set_parent q (parent e)
      | None => set_mYoungest (parent e)
      end;
  _ ← set_parent p None;
  set_child p None.

Definition get (k : K) : M V :=
  find_result ← findByKey k;
  match find_result with
  | None => mret mNullValue
  | Some p =>
      _ ← detachFromCache p;
      _ ← attachToCache p;
      e ← entry p;
      mret (value e)
  end.

Definition remove (k : K) : M bool :=
  find_result ← findByKey k;
  match find_result with
  | None => mret false
  | Some p =>
      e ← entry p;
      _ ← set_mSet (delete (key e));
      _ ← notify (key e) (value e);
      _ ← detachFromCache p;
      _ ← on_entries (free p);
      mret true
  end.

Definition removeOldest : M bool :=
  mOldest ← gets mOldest;
  match mOldest with
  | Some p => e ← entry p; remove (key e)
  | None => mret false
  end.

Definition put (k : K) (v : V) : M bool :=
  mMaxCapacity ← gets mMaxCapacity;
  size ← size;
  _ ← (if negb (mMaxCapacity =? kUnlimitedCapacity) && (size >=? mMaxCapacity) then removeOldest else mret false);
  find_result ← findByKey k;
  match find_result with
  | Some _ => mret false
  | None =>
      p ← on_entries (new {| key := k; value := v; parent := None; child := None |});
      _ ← set_mSet (<[k := p]>);
      _ ← attachToCache p;
      mret true
  end.

Definition peekOldestValue : M V :=
  mOldest ← gets mOldest;
  match mOldest with
  | Some p => e ← entry p; mret (value e)
  | None => mret mNullValue
  end.

(** The loop [for (Entry* p = mOldest; p != NULL; p = p->child)] of [clear]. *)
Fixpoint notify_from (fuel : nat) (p : option ptr) : M unit :=
  match p with
  | None => mret tt
  | Some p =>
      match fuel with
      | O => lift None
      | S fuel => e ← entry p; _ ← notify (key e) (value e); e ← entry p; notify_from fuel (child e)
      end
  end.

Definition clear (fuel : nat) : M unit :=
  mListener ← gets mListener;
  mOldest ← gets mOldest;
  _ ← (if (mListener : bool) then notify_from fuel mOldest else mret tt);
  _ ← set_mYoungest None;
  _ ← set_mOldest None;
  mSet ← gets mSet;
  _ ← for_each (fun kp => on_entries (free kp.2)) (map_to_list mSet);
  set_mSet (fun _ => ∅).

(** *** Iterator

    The entries from [mIterator] to the end, in the order of the set. *)
Record Iterator := { mIterator : list ptr; mBeginReturned : bool }.

Definition iterator (order : list ptr) : Iterator := {| mIterator := order; mBeginReturned := false |}.

Definition next (it : Iterator) : bool * Iterator :=
  match mIterator it with
  | [] => (false, it)
  | _ :: rest =>
      let it := if mBeginReturned it then {| mIterator := rest; mBeginReturned := true |}
                else {| mIterator := mIterator it; mBeginReturned := true |} in
      (match mIterator it with [] => false | _ => true end, it)
  end.

Definition it_entry (it : Iterator) : M Entry := p ← lift (head (mIterator it)); entry p.
Definition it_key (it : Iterator) : M K := e ← it_entry it; mret (key e).
Definition it_value (it : Iterator) : M V := e ← it_entry it; mret (value e).

(** [while (it.next()) { it.key(); it.value(); }] *)
Fixpoint iterate (fuel : nat) (it : Iterator) : M (list (K * V)) :=
  match next it with
  | (false, _) => mret []
  | (true, it) =>
      match fuel with
      | O => lift None
      | S fuel => k ← it_key it; v ← it_value it; l ← iterate fuel it; mret ((k, v) :: l)
      end
  end.
End LruCache.

(** * Links *)

Section Links.
Context {K V : Type} `{Countable K}.
#[local] Abbreviation Entry := (@Entry K V).
#[local] Abbreviation LruCache := (@LruCache K V _ _).
Implicit Types (s : LruCache) (p q : ptr) (a b x : option ptr).

(** The list goes round through the null pointer: [mOldest] comes after it and
    [mYoungest] before it. *)
Definition nxt s a : option (option ptr) :=
  match a with Some p => child <$> entries s !! p | None => Some (mOldest s) end.
Definition prv s a : option (option ptr) :=
  match a with Some p => parent <$> entries s !! p | None => Some (mYoungest s) end.
Definition kv_of s p : option (K * V) := (fun e => (key e, value e)) <$> entries s !! p.

(** Nothing but links differs. *)
Record kept s s' : Prop := {
  kept_set : mSet s' = mSet s;
  kept_listener : mListener s' = mListener s;
  kept_capacity : mMaxCapacity s' = mMaxCapacity s;
  kept_notified : notified s' = notified s;
  kept_dom : dom (entries s') = dom (entries s);
  kept_kv p : kv_of s' p = kv_of s p
}.

#[export] Instance kept_preorder : PreOrder kept.
Proof.
  split; [done|]. intros s1 s2 s3 [] []. split; intros; congruence.
Qed.

(** The link from [a], or the link back from [a], is now [b]. *)
Record next_set s s' a b : Prop := {
  ns_kept : kept s s';
  ns_next x : nxt s' x = if decide (x = a) then Some b else nxt s x;
  ns_prev x : prv s' x = prv s x
}.
Record prev_set s s' a b : Prop := {
  ps_kept : kept s s';
  ps_next x : nxt s' x = nxt s x;
  ps_prev x : prv s' x = if decide (x = a) then Some b else prv s x
}.

Lemma entry_eq s p e : entries s !! p = Some e -> entry p s = Some (e, s).
Proof. intros He. unfold entry, on_entries. rewrite (load_eq _ _ _ He). cbn. by destruct s. Qed.

Lemma on_store_eq s p f : p ∈ dom (entries s) -> on_entries (store p f) s = Some (tt, with_entries s (alter f p (entries s))).
Proof. intros Hp. unfold on_entries. by rewrite (store_eq _ _ _ Hp). Qed.

Lemma on_free_eq s p : p ∈ dom (entries s) -> on_entries (free p) s = Some (tt, with_entries s (delete p (entries s))).
Proof. intros Hp. unfold on_entries. by rewrite (free_eq _ _ Hp). Qed.

Lemma in_links s p : p ∈ dom (entries s) <-> is_Some (nxt s (Some p)).
Proof. rewrite elem_of_dom. cbn [nxt]. by rewrite fmap_is_Some. Qed.

(** A store on an entry that keeps its key and value. *)
Lemma store_kept s p f :
  (forall e, key (f e) = key e /\ value (f e) = value e) -> kept s (with_entries s (alter f p (entries s))).
Proof.
  intros Hf. split; try done; [apply dom_alter_L|]. intros q. unfold kv_of. cbn [entries with_entries].
  destruct (decide (p = q)) as [<-|Hq]; [rewrite lookup_alter_eq|by rewrite lookup_alter_ne].
  destruct (entries s !! p) as [e|]; [|done]. cbn. by destruct (Hf e) as [-> ->].
Qed.

Lemma set_child_eq s p b :
  p ∈ dom (entries s) -> exists s', set_child p b s = Some (tt, s') /\ next_set s s' (Some p) b.
Proof.
  intros Hp. unfold set_child. rewrite on_store_eq by done. eexists. split; [reflexivity|].
  split; [by apply store_kept| |]; intros [q|]; try done; cbn [nxt prv entries with_entries].
  - apply elem_of_dom in Hp as [e He].
    case_decide as E; [injection E as ->; by rewrite lookup_alter_eq, He|by rewrite lookup_alter_ne by congruence].
  - destruct (decide (p = q)) as [<-|]; [rewrite lookup_alter_eq|by rewrite lookup_alter_ne].
    by destruct (entries s !! p).
Qed.

Lemma set_parent_eq s p b :
  p ∈ dom (entries s) -> exists s', set_parent p b s = Some (tt, s') /\ prev_set s s' (Some p) b.
Proof.
  intros Hp. unfold set_parent. rewrite on_store_eq by done. eexists. split; [reflexivity|].
  split; [by apply store_kept| |]; intros [q|]; try done; cbn [nxt prv entries with_entries].
  - destruct (decide (p = q)) as [<-|]; [rewrite lookup_alter_eq|by rewrite lookup_alter_ne].
    by destruct (entries s !! p).
  - apply elem_of_dom in Hp as [e He].
    case_decide as E; [injection E as ->; by rewrite lookup_alter_eq, He|by rewrite lookup_alter_ne by congruence].
Qed.

Lemma set_mOldest_eq s b : exists s', set_mOldest b s = Some (tt, s') /\ next_set s s' None b.
Proof. eexists. split; [reflexivity|]. split; [done| |]; by intros [q|]. Qed.

Lemma set_mYoungest_eq s b : exists s', set_mYoungest b s = Some (tt, s') /\ prev_set s s' None b.
Proof. eexists. split; [reflexivity|]. split; [done| |]; by intros [q|]. Qed.

(** Both cases of [detachFromCache] write the link of a place of the circle. *)
Lemma link_next s a b :
  is_Some (nxt s a) ->
  exists s', match a with Some q => set_child q b | None => set_mOldest b end s = Some (tt, s') /\ next_set s s' a b.
Proof.
  destruct a as [q|]; [intros Hq%in_links; by apply set_child_eq|intros _; apply set_mOldest_eq].
Qed.

Lemma link_prev s a b :
  is_Some (nxt s a) ->
  exists s', match a with Some q => set_parent q b | None => set_mYoungest b end s = Some (tt, s') /\ prev_set s s' a b.
Proof.
  destruct a as [q|]; [intros Hq%in_links; by apply set_parent_eq|intros _; apply set_mYoungest_eq].
Qed.

Lemma links_entry s p a b :
  nxt s (Some p) = Some a -> prv s (Some p) = Some b -> exists e, entries s !! p = Some e /\ child e = a /\ parent e = b.
Proof.
  cbn [nxt prv]. destruct (entries s !! p) as [e|]; [|done]. cbn. intros [= <-] [= <-]. by exists e.
Qed.

Lemma ring_links s ps x : ring (nxt s) (prv s) None ps -> x ∈ None :: ps -> is_Some (nxt s x).
Proof.
  intros Hr [->|Hx]%elem_of_cons; [done|]. apply list_elem_of_split in Hx as (l1 & l2 & ->).
  eexists. apply (ring_next _ _ _ _ _ _ Hr).
Qed.
End Links.

(** Rewrites with the links that were set, last first. *)
Ltac after_links :=
  repeat match goal with
  | S : next_set _ ?s' _ _ |- context [nxt ?s' _] => rewrite (ns_next _ _ _ _ S)
  | S : next_set _ ?s' _ _ |- context [prv ?s' _] => rewrite (ns_prev _ _ _ _ S)
  | S : prev_set _ ?s' _ _ |- context [nxt ?s' _] => rewrite (ps_next _ _ _ _ S)
  | S : prev_set _ ?s' _ _ |- context [prv ?s' _] => rewrite (ps_prev _ _ _ _ S)
  end.

Section Moves.
Context {K V : Type} `{Countable K}.
Implicit Types (s : @LruCache K V _ _) (p q : ptr) (a b x : option ptr).

(** An entry that is in no list. *)
Definition detached s p : Prop := nxt s (Some p) = Some None /\ prv s (Some p) = Some None.

Lemma detach_correct s ps1 p ps2 :
  ring (nxt s) (prv s) None (ps1 ++ Some p :: ps2) ->
  exists s', detachFromCache p s = Some (tt, s') /\ ring (nxt s') (prv s') None (ps1 ++ ps2)
    /\ kept s s' /\ detached s' p.
Proof.
  intros Hr. destruct (ring_next _ _ _ _ _ _ Hr) as [Hn Hp].
  pose proof (before_in None ps1) as Hb. pose proof (after_in None ps2) as Ha.
  assert (Some p ∉ None :: ps1 ++ ps2) as Hx by (by apply (ring_not_in _ _ _ _ _ _ Hr)).
  set (b := before None ps1) in *. set (a := after None ps2) in *.
  assert (Some p <> b) as Hpb by (intros E; apply Hx; rewrite E; set_solver).
  assert (Some p <> a) as Hpa by (intros E; apply Hx; rewrite E; set_solver).
  assert (is_Some (nxt s b)) as Hbs by (apply (ring_links s _ b Hr); set_solver).
  assert (is_Some (nxt s a)) as Has by (apply (ring_links s _ a Hr); set_solver).
  unfold detachFromCache.
  destruct (links_entry s p a b Hn Hp) as (e & He & Hc & Hq). rewrite (bind_some _ _ _ _ _ (entry_eq s p e He)), Hc, Hq.
  destruct (link_next s b a Hbs) as (s1 & E1 & S1). rewrite (bind_some _ _ _ _ _ E1).
  destruct (links_entry s1 p a b) as (e1 & He1 & Hc1 & Hq1); [by after_links; rewrite decide_False|by after_links|].
  rewrite (bind_some _ _ _ _ _ (entry_eq s1 p e1 He1)), Hc1, Hq1.
  destruct (link_prev s1 a b) as (s2 & E2 & S2); [after_links; by case_decide|]. rewrite (bind_some _ _ _ _ _ E2).
  destruct (set_parent_eq s2 p None) as (s3 & E3 & S3).
  { apply in_links. after_links. rewrite decide_False by done. by eexists. }
  rewrite (bind_some _ _ _ _ _ E3).
  destruct (set_child_eq s3 p None) as (s4 & E4 & S4).
  { apply in_links. after_links. rewrite decide_False by done. by eexists. }
  exists s4. split; [exact E4|]. split; [|split].
  - apply ring_remove with (nxt s) (prv s) (Some p); [exact Hr| | |]; fold a b.
    + split; after_links; repeat case_decide; congruence.
    + intros x Hin Hxb. after_links. repeat case_decide; subst; try congruence; by destruct Hx.
    + intros x Hin Hxa. after_links. repeat case_decide; subst; try congruence; by destruct Hx.
  - etransitivity; [exact (ns_kept _ _ _ _ S1)|]. etransitivity; [exact (ps_kept _ _ _ _ S2)|].
    etransitivity; [exact (ps_kept _ _ _ _ S3)|]. exact (ns_kept _ _ _ _ S4).
  - split; after_links; repeat case_decide; congruence.
Qed.

Lemma attach_correct s ps p :
  ring (nxt s) (prv s) None ps -> Some p ∉ ps -> detached s p ->
  exists s', attachToCache p s = Some (tt, s') /\ ring (nxt s') (prv s') None (ps ++ [Some p]) /\ kept s s'.
Proof.
  intros Hr Hx [Hn Hp]. unfold attachToCache.
  destruct (ring_head _ _ _ _ Hr) as [_ Hy]. cbn [prv] in Hy. injection Hy as Hy.
  assert (p ∈ dom (entries s)) as Hpd by (apply in_links; rewrite Hn; by eexists).
  assert (Some p ∉ None :: ps ++ []) as Hx' by (rewrite app_nil_r; set_solver).
  pose proof (before_in None ps) as Hb. rewrite <- (app_nil_r ps) in Hr.
  rewrite (bind_some _ _ s (before None ps) s) by (unfold gets; by rewrite Hy).
  destruct (before None ps) as [y|] eqn:Eb.
  - destruct (set_parent_eq s p (Some y) Hpd) as (s1 & E1 & S1). rewrite (bind_some _ _ _ _ _ E1).
    assert (p <> y) as Hpy by (intros ->; set_solver).
    destruct (set_child_eq s1 y (Some p)) as (s2 & E2 & S2).
    { apply in_links. after_links. apply (ring_links s _ (Some y) Hr). rewrite app_nil_r. exact Hb. }
    rewrite (bind_some _ _ _ _ _ E2). destruct (set_mYoungest_eq s2 (Some p)) as (s3 & E3 & S3).
    exists s3. split; [exact E3|]. split.
    + apply ring_insert with (nxt s) (prv s); [exact Hr|exact Hx'| | | |]; unfold after; rewrite ?Eb; cbn [head default].
      * split; after_links; repeat case_decide; congruence.
      * split; after_links; repeat case_decide; congruence.
      * intros x Hin Hxb. after_links. repeat case_decide; congruence.
      * intros x Hin Hxa. after_links. repeat case_decide; subst; try congruence; by destruct Hx'.
    + etransitivity; [exact (ps_kept _ _ _ _ S1)|]. etransitivity; [exact (ns_kept _ _ _ _ S2)|]. exact (ps_kept _ _ _ _ S3).
  - destruct (set_mOldest_eq s (Some p)) as (s1 & E1 & S1). rewrite (bind_some _ _ _ _ _ E1).
    destruct (set_mYoungest_eq s1 (Some p)) as (s2 & E2 & S2). exists s2. split; [exact E2|]. split.
    + apply ring_insert with (nxt s) (prv s); [exact Hr|exact Hx'| | | |]; unfold after; rewrite ?Eb; cbn [head default].
      * split; after_links; repeat case_decide; congruence.
      * split; after_links; repeat case_decide; congruence.
      * intros x Hin Hxb. after_links. repeat case_decide; congruence.
      * intros x Hin Hxa. after_links. repeat case_decide; congruence.
    + etransitivity; [exact (ns_kept _ _ _ _ S1)|exact (ps_kept _ _ _ _ S2)].
Qed.
End Moves.

(** * Specification

    The cache as a list of keys and values, the one used longest ago first. *)

Section Specification.
Context {K V : Type} `{Countable K} (null : V).

Record usage := { capacity : Z; listening : bool; order : list (K * V); told : list (K * V) }.

Definition set_order (l : list (K * V)) (a : usage) : usage :=
  {| capacity := capacity a; listening := listening a; order := l; told := told a |}.

Definition tell (l : list (K * V)) (a : usage) : usage :=
  {| capacity := capacity a; listening := listening a; order := order a; told := if listening a then told a ++ l else told a |}.

Definition value_of (k : K) (a : usage) : option V := (list_to_map (order a) : gmap K V) !! k.
Definition without (k : K) (l : list (K * V)) : list (K * V) := filter (fun kv => kv.1 <> k) l.

Definition get_spec (k : K) (a : usage) : V * usage :=
  match value_of k a with
  | Some v => (v, set_order (without k (order a) ++ [(k, v)]) a)
  | None => (null, a)
  end.

Definition remove_spec (k : K) (a : usage) : bool * usage :=
  match value_of k a with
  | Some v => (true, tell [(k, v)] (set_order (without k (order a)) a))
  | None => (false, a)
  end.

Definition removeOldest_spec (a : usage) : bool * usage :=
  match order a with
  | kv :: l => (true, tell [kv] (set_order l a))
  | [] => (false, a)
  end.

Definition full (a : usage) : bool := negb (capacity a =? 0) && (Z.of_nat (length (order a)) >=? capacity a).

(** The oldest goes even when the key is there already and nothing is added. *)
Definition put_spec (k : K) (v : V) (a : usage) : bool * usage :=
  let a := if full a then (removeOldest_spec a).2 else a in
  match value_of k a with
  | Some _ => (false, a)
  | None => (true, set_order (order a ++ [(k, v)]) a)
  end.

Definition oldest_spec (a : usage) : V := match order a with kv :: _ => kv.2 | [] => null end.
Definition clear_spec (a : usage) : usage := set_order [] (tell (order a) a).

(** ** Calls *)

Inductive call := Size | Get (k : K) | Put (k : K) (v : V) | Remove (k : K) | RemoveOldest | PeekOldest | Clear | Listen (b : bool).
Inductive answer := Count (n : Z) | Value (v : V) | Done (b : bool) | Nothing.

Definition answer_spec (c : call) (a : usage) : answer * usage :=
  match c with
  | Size => (Count (Z.of_nat (length (order a))), a)
  | Get k => let '(v, a) := get_spec k a in (Value v, a)
  | Put k v => let '(b, a) := put_spec k v a in (Done b, a)
  | Remove k => let '(b, a) := remove_spec k a in (Done b, a)
  | RemoveOldest => let '(b, a) := removeOldest_spec a in (Done b, a)
  | PeekOldest => (Value (oldest_spec a), a)
  | Clear => (Nothing, clear_spec a)
  | Listen b => (Nothing, {| capacity := capacity a; listening := b; order := order a; told := told a |})
  end.

Fixpoint answers_spec (cs : list call) (a : usage) : list answer * usage :=
  match cs with
  | [] => ([], a)
  | c :: cs => let '(r, a) := answer_spec c a in let '(rs, a) := answers_spec cs a in (r :: rs, a)
  end.

(** The same calls on the cache itself. *)
Definition answer_call `{Malloc} (c : call) : ST (@LruCache K V _ _) answer :=
  match c with
  | Size => n ← size; mret (Count n)
  | Get k => v ← get null k; mret (Value v)
  | Put k v => b ← put k v; mret (Done b)
  | Remove k => b ← remove k; mret (Done b)
  | RemoveOldest => b ← removeOldest; mret (Done b)
  | PeekOldest => v ← peekOldestValue null; mret (Value v)
  | Clear => n ← size; _ ← clear (Z.to_nat n); mret Nothing
  | Listen b => _ ← setOnEntryRemovedListener b; mret Nothing
  end.

Fixpoint answer_calls `{Malloc} (cs : list call) : ST (@LruCache K V _ _) (list answer) :=
  match cs with
  | [] => mret []
  | c :: cs => r ← answer_call c; rs ← answer_calls cs; mret (r :: rs)
  end.

Definition new_usage (maxCapacity : Z) : usage := {| capacity := maxCapacity; listening := false; order := []; told := [] |}.

(** *** What the specification promises *)

Record well_formed (a : usage) : Prop := {
  wf_keys : NoDup (order a).*1;
  wf_bound : capacity a <> 0 -> 0 <= capacity a -> Z.of_nat (length (order a)) <= capacity a
}.

Lemma without_fresh k l : k ∉ l.*1 -> without k l = l.
Proof.
  induction l as [|[k' v] l IH]; [done|]. rewrite fmap_cons. intros [Hk Hl]%not_elem_of_cons. unfold without.
  rewrite filter_cons_True by (cbn in *; congruence). f_equal. by apply IH.
Qed.

Lemma without_split k v l1 l2 : NoDup (l1 ++ (k, v) :: l2).*1 -> without k (l1 ++ (k, v) :: l2) = l1 ++ l2.
Proof.
  rewrite fmap_app, fmap_cons. cbn. intros HN%NoDup_app. destruct HN as (_ & HN1 & HN2%NoDup_cons).
  unfold without. rewrite filter_app, filter_cons_False by (cbn; tauto).
  fold (without k l1) (without k l2). rewrite !without_fresh; [done|tauto|]. intros Hin. apply (HN1 k Hin). constructor.
Qed.

(** A list of keys and values, by the place of a key. *)
Lemma keys_split k l : NoDup l.*1 ->
  (exists v l1 l2, l = l1 ++ (k, v) :: l2 /\ (list_to_map l : gmap K V) !! k = Some v)
  \/ (k ∉ l.*1 /\ (list_to_map l : gmap K V) !! k = None).
Proof.
  intros HN. destruct (list_to_map l !! k) as [v|] eqn:E.
  - left. apply elem_of_list_to_map in E; [|exact HN]. apply list_elem_of_split in E as (l1 & l2 & ->). by exists v, l1, l2.
  - right. split; [|done]. by apply not_elem_of_list_to_map.
Qed.
End Specification.

(** * Representation *)

Section Representation.
Context {K V : Type} `{Countable K}.
Implicit Types (s : @LruCache K V _ _) (p : ptr) (k : K) (v : V) (c : list (ptr * (K * V))).

Definition index c : list (K * ptr) := (fun pkv => (pkv.2.1, pkv.1)) <$> c.
Definition nodes c : list (option ptr) := (fun pkv => Some pkv.1) <$> c.

(** The entries of [c], oldest first, are those of the list, of the set and of
    the memory. *)
Record shape s c : Prop := {
  sh_ring : ring (nxt s) (prv s) None (nodes c);
  sh_kv : Forall (fun pkv => kv_of s pkv.1 = Some pkv.2) c;
  sh_set : mSet s = list_to_map (index c);
  sh_keys : NoDup c.*2.*1;
  sh_dom : dom (entries s) = list_to_set c.*1
}.

Definition represents s (a : usage) : Prop :=
  exists c, shape s c
    /\ a = {| capacity := mMaxCapacity s; listening := mListener s; order := c.*2; told := notified s |}.

Lemma index_keys c : (index c).*1 = c.*2.*1.
Proof. unfold index. by rewrite <- !list_fmap_compose. Qed.

Lemma shape_nodup s c : shape s c -> NoDup c.*1.
Proof.
  intros [[_ HN] _ _ _ _]. apply NoDup_cons in HN as [_ HN]. unfold nodes in HN.
  replace ((fun pkv => Some pkv.1) <$> c) with (Some <$> c.*1) in HN by (by rewrite <- list_fmap_compose).
  by apply NoDup_fmap in HN; [|apply _].
Qed.

(** What [findByKey] finds. *)
Lemma shape_find s c k : shape s c ->
  (exists c1 p v c2, c = c1 ++ (p, (k, v)) :: c2 /\ mSet s !! k = Some p /\ kv_of s p = Some (k, v))
  \/ (k ∉ c.*2.*1 /\ mSet s !! k = None).
Proof.
  intros Hs. pose proof (sh_keys _ _ Hs) as HN. rewrite <- index_keys in HN. rewrite (sh_set _ _ Hs).
  destruct (list_to_map (index c) !! k) as [p|] eqn:E.
  - left. apply elem_of_list_to_map in E; [|exact HN]. apply list_elem_of_fmap in E as ([p' [k' v]] & [= -> ->] & Hin).
    pose proof (sh_kv _ _ Hs) as HF. rewrite Forall_forall in HF. specialize (HF _ Hin). cbn in HF.
    apply list_elem_of_split in Hin as (c1 & c2 & ->). by exists c1, p', v, c2.
  - right. split; [|done]. rewrite <- index_keys. by apply not_elem_of_list_to_map.
Qed.

(** The same entries in another order. *)
Lemma shape_permute s s' c c' :
  shape s c -> kept s s' -> c ≡ₚ c' -> ring (nxt s') (prv s') None (nodes c') -> shape s' c'.
Proof.
  intros Hs Hk Hp Hr. assert (index c ≡ₚ index c') as Hi by (by apply fmap_Permutation). split; [exact Hr| | | |].
  - rewrite <- Hp. eapply Forall_impl; [exact (sh_kv _ _ Hs)|]. intros [p kv] E. cbn in *. by rewrite (kept_kv _ _ Hk).
  - rewrite (kept_set _ _ Hk), (sh_set _ _ Hs). apply list_to_map_proper; [|exact Hi].
    rewrite index_keys. apply (sh_keys _ _ Hs).
  - rewrite <- Hp. apply (sh_keys _ _ Hs).
  - rewrite (kept_dom _ _ Hk), (sh_dom _ _ Hs). by apply list_to_set_perm_L, fmap_Permutation.
Qed.

Lemma kv_entry s p kv : kv_of s p = Some kv -> exists e, entries s !! p = Some e /\ key e = kv.1 /\ value e = kv.2.
Proof. unfold kv_of. intros E. destruct (entries s !! p) as [e|]; [|done]. injection E as <-. by exists e. Qed.

Lemma nodes_app c1 c2 : nodes (c1 ++ c2) = nodes c1 ++ nodes c2.
Proof. apply fmap_app. Qed.

(** [get] on an entry. *)
Lemma get_found null s c1 p k v c2 :
  shape s (c1 ++ (p, (k, v)) :: c2) -> mSet s !! k = Some p ->
  exists s', get null k s = Some (v, s') /\ shape s' (c1 ++ c2 ++ [(p, (k, v))]) /\ kept s s'.
Proof.
  intros Hs Hf. pose proof (sh_ring _ _ Hs) as Hr. rewrite nodes_app in Hr. cbn in Hr.
  unfold get, findByKey. rewrite (bind_some _ _ s (Some p) s) by (unfold gets; by rewrite Hf).
  pose proof (ring_not_in _ _ _ _ _ _ Hr) as Hp.
  destruct (detach_correct s (nodes c1) p (nodes c2) Hr) as (s1 & E1 & Hr1 & Hk1 & Hd1). rewrite (bind_some _ _ _ _ _ E1).
  destruct (attach_correct s1 (nodes c1 ++ nodes c2) p Hr1 ltac:(set_solver) Hd1) as (s2 & E2 & Hr2 & Hk2).
  rewrite (bind_some _ _ _ _ _ E2).
  assert (kept s s2) as Hk by (by transitivity s1).
  assert (shape s2 (c1 ++ c2 ++ [(p, (k, v))])) as Hs2.
  { apply shape_permute with s (c1 ++ (p, (k, v)) :: c2); [exact Hs|exact Hk| |].
    - apply Permutation_app_head, Permutation_cons_append.
    - rewrite !nodes_app, app_assoc. exact Hr2. }
  assert (kv_of s2 p = Some (k, v)) as Hkv.
  { pose proof (sh_kv _ _ Hs2) as HF. rewrite Forall_forall in HF. apply (HF (p, (k, v))). set_solver. }
  destruct (kv_entry _ _ _ Hkv) as (e & He & _ & Hv). rewrite (bind_some _ _ _ _ _ (entry_eq s2 p e He)), Hv. by exists s2.
Qed.

Lemma index_middle s c1 p k v c2 :
  shape s (c1 ++ (p, (k, v)) :: c2) -> delete k (mSet s) = list_to_map (index (c1 ++ c2)) /\ k ∉ (c1 ++ c2).*2.*1.
Proof.
  intros Hs. pose proof (sh_keys _ _ Hs) as HN. rewrite (sh_set _ _ Hs). rewrite <- index_keys in HN.
  assert (index (c1 ++ (p, (k, v)) :: c2) ≡ₚ (k, p) :: index (c1 ++ c2)) as Hp.
  { unfold index. rewrite !fmap_app. cbn. by rewrite Permutation_middle. }
  rewrite (list_to_map_proper _ _ HN Hp). rewrite Hp in HN. cbn in HN. rewrite index_keys in HN. apply NoDup_cons in HN as [HN _].
  split; [|exact HN]. cbn. apply delete_insert_id. apply not_elem_of_list_to_map. by rewrite index_keys.
Qed.

(** The oldest and youngest, the set and the memory without an entry. *)
Lemma shape_removed s s' c1 p k v c2 :
  shape s (c1 ++ (p, (k, v)) :: c2) ->
  ring (nxt s') (prv s') None (nodes (c1 ++ c2)) -> mSet s' = delete k (mSet s) ->
  dom (entries s') = dom (entries s) ∖ {[p]} -> (forall q, q <> p -> kv_of s' q = kv_of s q) -> shape s' (c1 ++ c2).
Proof.
  intros Hs Hr Hm Hd Hkv. pose proof (shape_nodup _ _ Hs) as HN. rewrite fmap_app, fmap_cons in HN. cbn [fst] in HN.
  rewrite <- Permutation_middle, <- fmap_app in HN. apply NoDup_cons in HN as [Hp HN].
  assert (c1 ++ (p, (k, v)) :: c2 ≡ₚ (p, (k, v)) :: (c1 ++ c2)) as Hperm by (symmetry; apply Permutation_middle).
  split; [exact Hr| | | |].
  - pose proof (sh_kv _ _ Hs) as HF. rewrite Hperm in HF. apply Forall_cons in HF as [_ HF].
    rewrite Forall_forall in *. intros [q kv] Hin. rewrite Hkv; [exact (HF _ Hin)|]. cbn. intros ->.
    apply Hp, list_elem_of_fmap. by exists (p, kv).
  - rewrite Hm. apply (index_middle s c1 p k v c2 Hs).
  - pose proof (sh_keys _ _ Hs) as HK. rewrite Hperm, !fmap_cons in HK. by apply NoDup_cons_1_2 in HK.
  - rewrite Hd, (sh_dom _ _ Hs). rewrite (list_to_set_perm_L (C := gset ptr) (c1 ++ (p, (k, v)) :: c2).*1 (p :: (c1 ++ c2).*1))
      by (by rewrite Hperm). cbn. apply set_eq. intros q. set_solver.
Qed.

(** [remove] of an entry. *)
Lemma remove_found s c1 p k v c2 :
  shape s (c1 ++ (p, (k, v)) :: c2) -> mSet s !! k = Some p ->
  exists s', remove k s = Some (true, s') /\ shape s' (c1 ++ c2) /\ mListener s' = mListener s /\ mMaxCapacity s' = mMaxCapacity s
    /\ notified s' = (if mListener s then notified s ++ [(k, v)] else notified s).
Proof.
  intros Hs Hf. unfold remove, findByKey. rewrite (bind_some _ _ s (Some p) s) by (unfold gets; by rewrite Hf).
  assert (kv_of s p = Some (k, v)) as Hkv.
  { pose proof (sh_kv _ _ Hs) as HF. apply Forall_app in HF as [_ HF]. by apply Forall_cons in HF as [HF _]. }
  destruct (kv_entry _ _ _ Hkv) as (e & He & Hk & Hv). cbn [fst snd] in Hk, Hv.
  rewrite (bind_some _ _ _ _ _ (entry_eq s p e He)), Hk, Hv.
  erewrite bind_some by reflexivity. erewrite bind_some by reflexivity. set (s1 := if mListener _ then _ else _).
  assert (entries s1 = entries s /\ mOldest s1 = mOldest s /\ mYoungest s1 = mYoungest s /\ mSet s1 = delete k (mSet s)
    /\ mListener s1 = mListener s /\ mMaxCapacity s1 = mMaxCapacity s
    /\ notified s1 = (if mListener s then notified s ++ [(k, v)] else notified s)) as (Hse & Hso & Hsy & Hss & Hsl & Hsc & Hsn).
  { unfold s1. cbn. by destruct (mListener s). }
  pose proof (sh_ring _ _ Hs) as Hr. rewrite nodes_app in Hr. cbn in Hr. fold (nodes c2) in Hr.
  assert (ring (nxt s1) (prv s1) None (nodes c1 ++ Some p :: nodes c2)) as Hr1.
  { apply (ring_ext _ _ _ _ _ _ Hr). intros [a|] _; cbn [nxt prv]; by rewrite ?Hse, ?Hso, ?Hsy. }
  destruct (detach_correct s1 (nodes c1) p (nodes c2) Hr1) as (s2 & E2 & Hr2 & Hk2 & Hd2). rewrite (bind_some _ _ _ _ _ E2).
  assert (p ∈ dom (entries s2)) as Hp2 by (apply in_links; rewrite (proj1 Hd2); by eexists).
  rewrite (bind_some _ _ _ _ _ (on_free_eq s2 p Hp2)).
  eexists. split; [reflexivity|]. destruct Hk2 as [K1 K2 K3 K4 K5 K6].
  split; [|cbn; rewrite K2, K3, K4; by repeat split].
  apply (shape_removed s _ c1 p k v c2 Hs).
  - rewrite nodes_app. apply (ring_ext _ _ _ _ _ _ Hr2). pose proof (ring_not_in _ _ _ _ _ _ Hr) as Hp.
    intros [a|] Ha; [|done]. cbn [nxt prv entries with_entries]. rewrite lookup_delete_ne; [done|]. intros ->. exact (Hp Ha).
  - cbn. by rewrite K1.
  - cbn. by rewrite dom_delete_L, K5, Hse.
  - intros q Hq. unfold kv_of at 1. cbn [entries with_entries]. rewrite lookup_delete_ne by done.
    change (kv_of s2 q = kv_of s q). rewrite K6. unfold kv_of. by rewrite Hse.
Qed.

(** [put] of a key that is not there, once there is room. *)
Lemma insert_new `{HM : Malloc} s c k v :
  shape s c -> mSet s !! k = None ->
  exists p s', (p ← on_entries (new {| key := k; value := v; parent := None; child := None |});
                _ ← set_mSet (<[k := p]>);
                _ ← attachToCache p;
                mret true) s = Some (true, s')
    /\ shape s' (c ++ [(p, (k, v))]) /\ mListener s' = mListener s /\ mMaxCapacity s' = mMaxCapacity s /\ notified s' = notified s.
Proof.
  intros Hs Hf. destruct (shape_find s c k Hs) as [(c1 & p & w & c2 & _ & Hm & _)|[Hk _]]; [congruence|].
  set (e := {| key := k; value := v; parent := None; child := None |}).
  destruct (new_eq e (entries s)) as (p & Hp & E). exists p.
  unfold on_entries at 1. erewrite bind_some by (rewrite E; reflexivity). erewrite bind_some by reflexivity.
  set (s1 := {| mSet := _ |}).
  assert (forall q, q ∈ c.*1 -> q <> p) as Hne.
  { intros q Hq ->. apply Hp. rewrite (sh_dom _ _ Hs). by apply elem_of_list_to_set. }
  assert (Some p ∉ nodes c) as Hpc.
  { unfold nodes. intros (pkv & [= Hpk] & Hin)%list_elem_of_fmap. apply (Hne p); [|done].
    apply list_elem_of_fmap. by exists pkv. }
  assert (ring (nxt s1) (prv s1) None (nodes c)) as Hr1.
  { apply (ring_ext _ _ _ _ _ _ (sh_ring _ _ Hs)). intros [a|] Ha; [|done]. cbn [nxt prv s1 entries with_entries].
    rewrite lookup_insert_ne; [done|]. intros ->. apply Hpc. set_solver. }
  assert (detached s1 p) as Hd1 by (split; cbn [nxt prv s1 entries with_entries]; by rewrite lookup_insert_eq).
  destruct (attach_correct s1 (nodes c) p Hr1 Hpc Hd1) as (s2 & E2 & Hr2 & [K1 K2 K3 K4 K5 K6]).
  rewrite (bind_some _ _ _ _ _ E2). exists s2. split; [reflexivity|]. split; [|by rewrite K2, K3, K4].
  split.
  - by rewrite nodes_app.
  - apply Forall_app. split; [|constructor; [|constructor]].
    + pose proof (sh_kv _ _ Hs) as HF. rewrite Forall_forall in *. intros [q kv] Hin. cbn. rewrite K6. unfold kv_of. cbn [s1 entries with_entries].
      rewrite lookup_insert_ne; [exact (HF _ Hin)|]. intros ->. apply (Hne q); [|done]. apply list_elem_of_fmap. by exists (q, kv).
    + cbn. rewrite K6. unfold kv_of. cbn [s1 entries with_entries]. by rewrite lookup_insert_eq.
  - rewrite K1. cbn [s1 mSet with_entries]. rewrite (sh_set _ _ Hs). unfold index. rewrite fmap_app. cbn.
    rewrite list_to_map_snoc; [done|]. change (k ∉ (index c).*1). by rewrite index_keys.
  - rewrite !fmap_app. apply NoDup_app. split; [apply (sh_keys _ _ Hs)|]. split; [|apply NoDup_singleton].
    cbn. intros k' Hk' ->%list_elem_of_singleton. exact (Hk Hk').
  - rewrite K5. cbn [s1 entries with_entries]. rewrite dom_insert_L, (sh_dom _ _ Hs), fmap_app, list_to_set_app_L. cbn. set_solver.
Qed.
End Representation.

(** * Each operation refines its specification *)

Section Refinement.
Context {K V : Type} `{Countable K} `{HM : Malloc} (null : V).
Implicit Types (s : @LruCache K V _ _) (a : @usage K V) (p : ptr) (k : K) (v : V) (c : list (ptr * (K * V))).

Lemma shape_case s c k : shape s c ->
  (exists c1 p v c2, c = c1 ++ (p, (k, v)) :: c2 /\ mSet s !! k = Some p
     /\ (list_to_map c.*2 : gmap K V) !! k = Some v /\ without k c.*2 = (c1 ++ c2).*2)
  \/ (mSet s !! k = None /\ (list_to_map c.*2 : gmap K V) !! k = None).
Proof.
  intros Hs. pose proof (sh_keys _ _ Hs) as HN. destruct (shape_find s c k Hs) as [(c1 & p & v & c2 & -> & Hm & _)|[Hk Hm]].
  - left. exists c1, p, v, c2. rewrite fmap_app, fmap_cons in *. cbn [snd] in *. split; [done|]. split; [exact Hm|]. split.
    + apply elem_of_list_to_map_1; [exact HN|]. set_solver.
    + rewrite without_split by exact HN. by rewrite fmap_app.
  - right. split; [exact Hm|]. by apply not_elem_of_list_to_map.
Qed.

(** [m] on [s] does what [spec] does on its abstraction. *)
Definition refines {R} (m : ST (@LruCache K V _ _) R) (spec : @usage K V -> R * @usage K V) : Prop :=
  forall s a, represents s a -> exists s', m s = Some ((spec a).1, s') /\ represents s' (spec a).2.

Lemma refines_bind {R R'} (m : ST (@LruCache K V _ _) R) spec (f : R -> ST (@LruCache K V _ _) R') spec' :
  refines m spec -> (forall r, refines (f r) (spec' r)) -> refines (m ≫= f) (fun a => let '(r, a) := spec a in spec' r a).
Proof.
  intros Hm Hf s a Ha. destruct (Hm s a Ha) as (s1 & E1 & H1). destruct (spec a) as [r a1]. cbn [fst snd] in *.
  destruct (Hf r s1 a1 H1) as (s2 & E2 & H2). exists s2. by rewrite (bind_some _ _ _ _ _ E1).
Qed.

Lemma refines_ret {R} (r : R) : refines (mret r) (fun a => (r, a)).
Proof. intros s a Ha. by exists s. Qed.

Lemma size_refines : refines size (fun a => (Z.of_nat (length (order a)), a)).
Proof.
  intros s a (c & Hs & ->). exists s. split; [|by exists c]. unfold size, gets. cbn [fst order]. do 3 f_equal.
  rewrite (sh_set _ _ Hs). pose proof (sh_keys _ _ Hs) as HN. rewrite <- index_keys in HN.
  rewrite <- (length_map_to_list (list_to_map (index c))). rewrite (map_to_list_to_map _ HN). unfold index. by rewrite !length_fmap.
Qed.

Lemma get_refines k : refines (get null k) (get_spec null k).
Proof.
  intros s a (c & Hs & ->). unfold get_spec, value_of. cbn [order].
  destruct (shape_case s c k Hs) as [(c1 & p & v & c2 & -> & Hm & Hv & Hw)|[Hm Hv]]; rewrite Hv; cbn [fst snd].
  - destruct (get_found null s c1 p k v c2 Hs Hm) as (s' & E & Hs' & [K1 K2 K3 K4 _ _]). exists s'. split; [exact E|].
    exists (c1 ++ c2 ++ [(p, (k, v))]). split; [exact Hs'|]. unfold set_order. cbn. rewrite K2, K3, K4. f_equal.
    cbn in Hw. rewrite Hw, !fmap_app. by rewrite app_assoc.
  - exists s. split; [|by exists c]. unfold get, findByKey. by rewrite (bind_some _ _ s None s) by (unfold gets; by rewrite Hm).
Qed.

Lemma remove_refines k : refines (remove k) (remove_spec k).
Proof.
  intros s a (c & Hs & ->). unfold remove_spec, value_of. cbn [order].
  destruct (shape_case s c k Hs) as [(c1 & p & v & c2 & -> & Hm & Hv & Hw)|[Hm Hv]]; rewrite Hv; cbn [fst snd].
  - destruct (remove_found s c1 p k v c2 Hs Hm) as (s' & E & Hs' & K2 & K3 & K4). exists s'. split; [exact E|].
    exists (c1 ++ c2). split; [exact Hs'|]. unfold tell, set_order. cbn [capacity listening order told] in *. by rewrite K2, K3, K4, Hw.
  - exists s. split; [|by exists c]. unfold remove, findByKey. by rewrite (bind_some _ _ s None s) by (unfold gets; by rewrite Hm).
Qed.

(** The oldest entry. *)
Lemma shape_oldest s c : shape s c -> mOldest s = head c.*1.
Proof.
  intros Hs. destruct (ring_head _ _ _ _ (sh_ring _ _ Hs)) as [Hn _]. cbn [nxt] in Hn. injection Hn as ->. by destruct c.
Qed.

Lemma shape_head s p k v c : shape s ((p, (k, v)) :: c) ->
  (exists e, entries s !! p = Some e /\ key e = k /\ value e = v) /\ mSet s !! k = Some p.
Proof.
  intros Hs. split.
  - pose proof (sh_kv _ _ Hs) as HF. apply Forall_cons in HF as [HF _]. by destruct (kv_entry _ _ _ HF) as (e & ? & ? & ?); exists e.
  - rewrite (sh_set _ _ Hs). by apply lookup_insert_eq.
Qed.

Lemma removeOldest_refines : refines removeOldest removeOldest_spec.
Proof.
  intros s a (c & Hs & ->). unfold removeOldest, removeOldest_spec. cbn [order].
  rewrite (bind_some _ _ s (head c.*1) s) by (unfold gets; by rewrite (shape_oldest s c Hs)).
  destruct c as [|[p [k v]] c]; cbn [fmap list_fmap head fst snd].
  - exists s. split; [done|]. by exists [].
  - destruct (shape_head s p k v c Hs) as [(e & He & Hk & _) Hm]. rewrite (bind_some _ _ _ _ _ (entry_eq s p e He)), Hk.
    destruct (remove_found s [] p k v c Hs Hm) as (s' & E & Hs' & K2 & K3 & K4). exists s'. split; [exact E|].
    exists c. split; [exact Hs'|]. unfold tell, set_order. cbn. by rewrite K2, K3, K4.
Qed.

Lemma peekOldestValue_refines : refines (peekOldestValue null) (fun a => (oldest_spec null a, a)).
Proof.
  intros s a (c & Hs & ->). exists s. split; [|by exists c]. unfold peekOldestValue, oldest_spec. cbn [order fst].
  rewrite (bind_some _ _ s (head c.*1) s) by (unfold gets; by rewrite (shape_oldest s c Hs)).
  destruct c as [|[p [k v]] c]; cbn [fmap list_fmap head fst snd]; [done|].
  destruct (shape_head s p k v c Hs) as [(e & He & _ & Hv) _]. by rewrite (bind_some _ _ _ _ _ (entry_eq s p e He)), Hv.
Qed.

Lemma put_refines k v : refines (put k v) (put_spec k v).
Proof.
  intros s a Ha. unfold put. erewrite bind_some by reflexivity. destruct (size_refines s a Ha) as (s0 & E0 & _).
  assert (s0 = s) as -> by (unfold size, gets in E0; by injection E0). rewrite (bind_some _ _ _ _ _ E0). cbn [fst].
  assert (mMaxCapacity s = capacity a) as -> by (by destruct Ha as (c & _ & ->)).
  change (negb (capacity a =? kUnlimitedCapacity) && (Z.of_nat (length (order a)) >=? capacity a)) with (full a).
  assert (exists r s1, (if full a then removeOldest else mret false) s = Some (r, s1)
    /\ represents s1 (if full a then (removeOldest_spec a).2 else a)) as (r & s1 & E1 & H1).
  { destruct (full a); [|by exists false, s]. destruct (removeOldest_refines s a Ha) as (s1 & E1 & H1). by eexists _, s1. }
  rewrite (bind_some _ _ _ _ _ E1). unfold put_spec. destruct H1 as (c & Hs & ->). unfold value_of. cbn [order].
  unfold findByKey. rewrite (bind_some _ _ s1 (mSet s1 !! k) s1) by reflexivity.
  destruct (shape_case s1 c k Hs) as [(c1 & p & w & c2 & -> & Hm & Hv & _)|[Hm Hv]]; rewrite Hv, Hm; cbn [fst snd].
  - exists s1. split; [done|]. by eexists.
  - destruct (insert_new s1 c k v Hs Hm) as (p & s2 & E2 & Hs2 & K2 & K3 & K4). exists s2. split; [exact E2|].
    exists (c ++ [(p, (k, v))]). split; [exact Hs2|]. unfold set_order. cbn [capacity listening told order]. by rewrite K2, K3, K4, fmap_app.
Qed.

Lemma setOnEntryRemovedListener_refines b :
  refines (setOnEntryRemovedListener b)
    (fun a => (tt, {| capacity := capacity a; listening := b; order := order a; told := told a |})).
Proof.
  intros s a (c & [Hr Hkv Hset Hkeys Hdom] & ->). eexists. split; [reflexivity|]. by exists c.
Qed.
End Refinement.

(** * Clearing, and sequences of calls *)

Section Calls.
Context {K V : Type} `{Countable K} `{HM : Malloc} (null : V).
Implicit Types (s : @LruCache K V _ _) (a : @usage K V) (p : ptr) (k : K) (v : V) (c : list (ptr * (K * V))).

Definition add_notified (l : list (K * V)) s : LruCache :=
  {| mSet := mSet s; mListener := mListener s; mOldest := mOldest s; mYoungest := mYoungest s;
     mMaxCapacity := mMaxCapacity s; entries := entries s; notified := notified s ++ l |}.

Lemma notify_from_correct fuel s0 l s c1 c2 :
  shape s0 (c1 ++ c2) -> s = add_notified l s0 -> mListener s0 = true -> (length c2 <= fuel)%nat ->
  notify_from fuel (head c2.*1) s = Some (tt, add_notified c2.*2 s).
Proof.
  intros Hs. revert fuel l s c1 Hs. induction c2 as [|[p [k v]] c2 IH]; intros fuel l s c1 Hs -> Hl Hf.
  - destruct fuel; cbn; unfold mret, st_ret, add_notified; cbn; by rewrite app_nil_r.
  - destruct fuel as [|fuel]; [cbn in Hf; lia|]. cbn [fmap list_fmap head fst notify_from].
    pose proof (sh_kv _ _ Hs) as HF. apply Forall_app in HF as [_ HF]. apply Forall_cons in HF as [HF _].
    destruct (kv_entry _ _ _ HF) as (e & He & Hk & Hv). cbn in Hk, Hv.
    pose proof (sh_ring _ _ Hs) as Hr. rewrite nodes_app in Hr. destruct (ring_next _ _ _ _ _ _ Hr) as [Hn _].
    cbn [nxt] in Hn. rewrite He in Hn. cbn in Hn. injection Hn as Hn.
    rewrite (bind_some _ _ _ _ _ (entry_eq (add_notified l s0) p e He)), Hk, Hv.
    rewrite (bind_some _ _ (add_notified l s0) tt (add_notified (l ++ [(k, v)]) s0)).
    + rewrite (bind_some _ _ _ _ _ (entry_eq (add_notified (l ++ [(k, v)]) s0) p e He)), Hn.
      replace (after None _) with (head c2.*1) by (by destruct c2).
      rewrite (IH fuel (l ++ [(k, v)]) _ (c1 ++ [(p, (k, v))])); [|by rewrite <- app_assoc|done|exact Hl|cbn in Hf; lia].
      unfold add_notified. cbn. by rewrite <- !app_assoc.
    + unfold notify, modify, add_notified. cbn. rewrite Hl. by rewrite <- app_assoc.
Qed.

Lemma free_all (l : list (K * ptr)) s :
  NoDup l.*2 -> (forall p, p ∈ l.*2 -> p ∈ dom (entries s)) ->
  exists h, for_each (fun kp => on_entries (free kp.2)) l s = Some (tt, with_entries s h)
    /\ dom h = dom (entries s) ∖ list_to_set l.*2.
Proof.
  revert s. induction l as [|[k p] l IH]; intros s HN Hd.
  - exists (entries s). split; [by destruct s|set_solver].
  - cbn [for_each fmap list_fmap snd] in *. apply NoDup_cons in HN as [Hp HN].
    rewrite (bind_some _ _ s tt (with_entries s (delete p (entries s)))) by (apply on_free_eq, Hd; set_solver).
    destruct (IH (with_entries s (delete p (entries s))) HN) as (h & E & Eh).
    + intros q Hq. cbn. rewrite dom_delete_L. assert (q ∈ dom (entries s)) by (apply Hd; set_solver). set_solver.
    + exists h. split; [exact E|]. rewrite Eh. cbn. rewrite dom_delete_L. set_solver.
Qed.

Lemma clear_correct fuel s a :
  represents s a -> (length (order a) <= fuel)%nat -> exists s', clear fuel s = Some (tt, s') /\ represents s' (clear_spec a).
Proof.
  intros (c & Hs & ->) Hf. cbn [order] in Hf. rewrite length_fmap in Hf. unfold clear.
  erewrite bind_some by reflexivity. erewrite bind_some by reflexivity. rewrite (shape_oldest s c Hs).
  assert ((if mListener s then notify_from fuel (head c.*1) else mret tt) s
    = Some (tt, add_notified (if mListener s then c.*2 else []) s)) as E1.
  { assert (s = add_notified [] s) as Es by (unfold add_notified; rewrite app_nil_r; by destruct s).
    destruct (mListener s) eqn:Hl; [exact (notify_from_correct fuel s [] s [] c Hs Es Hl Hf)|]. unfold mret, st_ret. do 2 f_equal. exact Es. }
  rewrite (bind_some _ _ _ _ _ E1). do 3 (erewrite bind_some by reflexivity). cbn [mSet add_notified].
  set (s2 := {| mSet := _ |}).
  assert (map_to_list (mSet s) ≡ₚ index c) as Hp.
  { rewrite (sh_set _ _ Hs). apply map_to_list_to_map. rewrite index_keys. apply (sh_keys _ _ Hs). }
  assert ((map_to_list (mSet s)).*2 ≡ₚ c.*1) as Hp2.
  { rewrite Hp. unfold index. by rewrite <- list_fmap_compose. }
  destruct (free_all (map_to_list (mSet s)) s2) as (h & E2 & Hd).
  - rewrite Hp2. apply (shape_nodup _ _ Hs).
  - intros p. rewrite Hp2. cbn. rewrite (sh_dom _ _ Hs). by rewrite elem_of_list_to_set.
  - rewrite (bind_some _ _ _ _ _ E2). eexists. split; [reflexivity|]. exists []. split.
    + split; [by apply ring_empty|constructor|done|constructor|]. change (dom h = ∅). rewrite Hd. cbn. rewrite (sh_dom _ _ Hs), (list_to_set_perm_L _ _ Hp2). set_solver.
    + unfold clear_spec, tell, set_order. cbn. destruct (mListener s); [done|by rewrite app_nil_r].
Qed.

Lemma answer_refines (cl : @call K V) : refines (answer_call null cl) (answer_spec null cl).
Proof.
  intros s a Ha. destruct cl as [|k|k v|k| | | |b]; cbn [answer_call answer_spec].
  - by apply (refines_bind _ _ _ _ size_refines (fun n => refines_ret (Count n))).
  - by apply (refines_bind _ _ _ (fun v a => (Value v, a)) (get_refines null k) (fun v => refines_ret (Value v))).
  - by apply (refines_bind _ _ _ (fun b a => (Done b, a)) (put_refines k v) (fun b => refines_ret (Done b))).
  - by apply (refines_bind _ _ _ (fun b a => (Done b, a)) (remove_refines k) (fun b => refines_ret (Done b))).
  - by apply (refines_bind _ _ _ (fun b a => (Done b, a)) removeOldest_refines (fun b => refines_ret (Done b))).
  - by apply (refines_bind _ _ _ (fun v a => (Value v, a)) (peekOldestValue_refines null) (fun v => refines_ret (Value v))).
  - destruct (size_refines s a Ha) as (s1 & E1 & H1). rewrite (bind_some _ _ _ _ _ E1). cbn [fst snd] in *. rewrite Nat2Z.id.
    destruct (clear_correct _ s1 a H1 (le_n _)) as (s2 & E2 & H2). rewrite (bind_some _ _ _ _ _ E2). by exists s2.
  - by apply (refines_bind _ _ _ (fun _ a => (Nothing, a)) (setOnEntryRemovedListener_refines b) (fun _ => refines_ret Nothing)).
Qed.

Lemma answers_refine (cs : list (@call K V)) : refines (answer_calls null cs) (answers_spec null cs).
Proof.
  induction cs as [|cl cs IH]; [apply refines_ret|]. intros s a Ha. cbn [answer_calls answers_spec].
  destruct (answer_refines cl s a Ha) as (s1 & E1 & H1). rewrite (bind_some _ _ _ _ _ E1).
  destruct (answer_spec null cl a) as [r a1]. cbn [fst snd] in *. destruct (IH s1 a1 H1) as (s2 & E2 & H2).
  rewrite (bind_some _ _ _ _ _ E2). destruct (answers_spec null cs a1) as [rs a2]. by exists s2.
Qed.

Lemma constructor_represents cap : represents (@constructor K V _ _ cap) (new_usage cap).
Proof.
  exists []. split; [|done]. split; [by apply ring_empty|constructor|done|constructor|done].
Qed.
End Calls.

(** ** Bounds of the specification *)

Section Bounds.
Context {K V : Type} `{Countable K} (null : V).
Implicit Types (a : @usage K V) (k : K) (v : V) (l : list (K * V)).

Lemma well_formed_shorter a b l :
  well_formed a -> NoDup l.*1 -> (length l <= length (order a))%nat ->
  well_formed {| capacity := capacity a; listening := b; order := l; told := told a |}
  /\ forall t, well_formed {| capacity := capacity a; listening := b; order := l; told := t |}.
Proof.
  intros [HN Hb] Hl Hlen. split; [|intros t]; (split; [exact Hl|]; cbn; intros H1 H2; specialize (Hb H1 H2); lia).
Qed.

(** A key of a well-formed cache, taken out. *)
Lemma value_split k v a : well_formed a -> value_of k a = Some v ->
  NoDup (without k (order a)).*1 /\ k ∉ (without k (order a)).*1 /\ length (order a) = S (length (without k (order a))).
Proof.
  intros [HN _] Hv. unfold value_of in Hv. destruct (keys_split k (order a) HN) as [(w & l1 & l2 & E & _)|[_ Hno]]; [|congruence].
  rewrite E in *. rewrite without_split by exact HN. rewrite fmap_app, fmap_cons, <- Permutation_middle in HN. cbn [fst] in HN.
  apply NoDup_cons in HN as [Hk HN]. rewrite fmap_app. rewrite !length_app. cbn [length]. repeat split; [exact HN|exact Hk|lia].
Qed.

Lemma get_well_formed k a : well_formed a -> well_formed (get_spec null k a).2.
Proof.
  intros Ha. unfold get_spec. destruct (value_of k a) as [v|] eqn:E; [|exact Ha].
  destruct (value_split k v a Ha E) as (HN & Hk & Hlen). apply (well_formed_shorter a (listening a)); [exact Ha| |].
  - rewrite fmap_app. cbn [fmap list_fmap fst]. rewrite <- Permutation_cons_append. by constructor.
  - rewrite length_app. cbn [length]. lia.
Qed.

Lemma remove_well_formed k a : well_formed a -> well_formed (remove_spec k a).2.
Proof.
  intros Ha. unfold remove_spec. destruct (value_of k a) as [v|] eqn:E; [|exact Ha].
  destruct (value_split k v a Ha E) as (HN & Hk & Hlen). apply (well_formed_shorter a (listening a)); [exact Ha|exact HN|cbn; lia].
Qed.

Lemma removeOldest_well_formed a : well_formed a -> well_formed (removeOldest_spec a).2.
Proof.
  intros Ha. unfold removeOldest_spec. destruct (order a) as [|kv l] eqn:E; [exact Ha|].
  apply (well_formed_shorter a (listening a)); [exact Ha| |rewrite E; cbn; lia].
  destruct Ha as [HN _]. rewrite E, fmap_cons in HN. by apply NoDup_cons_1_2 in HN.
Qed.

(** After the check for room there is room, unless the capacity is unlimited. *)
Lemma put_room a : well_formed a -> let a' := if full a then (removeOldest_spec a).2 else a in
  well_formed a' /\ capacity a' = capacity a /\ (capacity a <> 0 -> 0 <= capacity a -> Z.of_nat (length (order a')) < capacity a).
Proof.
  intros Ha a'. unfold a', full. destruct (capacity a =? 0) eqn:E0; cbn [negb andb].
  - apply Z.eqb_eq in E0. split; [exact Ha|]. split; [done|]. by intros.
  - apply Z.eqb_neq in E0. rewrite Z.geb_leb. destruct (Z.leb_spec (capacity a) (Z.of_nat (length (order a)))) as [Hge|Hlt].
    + split; [by apply removeOldest_well_formed|]. pose proof (wf_bound _ Ha E0). unfold removeOldest_spec.
      destruct (order a) as [|kv l]; cbn [snd set_order tell capacity order length] in *; (split; [done|intros _ ?; lia]).
    + split; [exact Ha|]. split; [done|]. by intros.
Qed.

Lemma put_well_formed k v a : well_formed a -> well_formed (put_spec k v a).2.
Proof.
  intros Ha. unfold put_spec. destruct (put_room a Ha) as (Ha' & Hc & Hroom). set (a' := if full a then _ else _) in *.
  destruct (value_of k a') as [w|] eqn:E; [exact Ha'|]. unfold value_of in E. cbn [snd]. split; cbn [set_order order capacity].
  - rewrite fmap_app. cbn [fmap list_fmap fst]. rewrite <- Permutation_cons_append. constructor; [|apply (wf_keys _ Ha')].
    by apply not_elem_of_list_to_map.
  - rewrite length_app, Hc. cbn [length]. intros H1 H2. specialize (Hroom H1 H2). lia.
Qed.

Lemma answer_well_formed c a : well_formed a -> well_formed (answer_spec null c a).2.
Proof.
  intros Ha. destruct c as [|k|k v|k| | | |b]; cbn [answer_spec].
  - exact Ha.
  - pose proof (get_well_formed k a Ha). by destruct (get_spec null k a).
  - pose proof (put_well_formed k v a Ha). by destruct (put_spec k v a).
  - pose proof (remove_well_formed k a Ha). by destruct (remove_spec k a).
  - pose proof (removeOldest_well_formed a Ha). by destruct (removeOldest_spec a).
  - exact Ha.
  - split; [constructor|]. cbn. lia.
  - by apply (well_formed_shorter a b); [|apply (wf_keys _ Ha)|].
Qed.

Lemma answers_well_formed cs a : well_formed a -> well_formed (answers_spec null cs a).2.
Proof.
  revert a. induction cs as [|c cs IH]; intros a Ha; [exact Ha|]. cbn [answers_spec].
  pose proof (answer_well_formed c a Ha) as H1. destruct (answer_spec null c a) as [r a1]. cbn [snd] in H1.
  specialize (IH a1 H1). by destruct (answers_spec null cs a1).
Qed.
End Bounds.

(** C15. Any sequence of calls on a new cache runs without following a null or
    dangling pointer, and answers as the list of keys and values does that
    [get] keeps in the order of use and from which a [put] into a full cache
    takes the oldest; the listener is told of the same removals.  At the end
    the entries in memory are those of that list and no others, no key is in it
    twice, and it is not longer than a limited capacity. *)
Theorem LruCache_correct {K V} `{Countable K} `{HM : Malloc} (null : V) (cap : Z) (cs : list (@call K V)) :
  exists s, answer_calls null cs (constructor cap) = Some ((answers_spec null cs (new_usage cap)).1, s)
    /\ represents s (answers_spec null cs (new_usage cap)).2
    /\ well_formed (answers_spec null cs (new_usage cap)).2.
Proof.
  destruct (answers_refine null cs (constructor cap) (new_usage cap) (constructor_represents cap)) as (s & E & Hs).
  exists s. split; [exact E|]. split; [exact Hs|]. apply answers_well_formed. split; [constructor|]. cbn. lia.
Qed.

(** A key that is there is put again into a full cache: the call answers that it
    added nothing, and another entry is gone. *)
Example put_again_evicts :
  fst <$> @answer_calls Z Z _ _ 0 first_free [Listen true; Put 1 10; Put 2 20; Put 2 21; Get 1; Get 2; Size] (constructor 2)
  = Some [Nothing; Done true; Done true; Done false; Value 0; Value 20; Count 1].
Proof. vm_compute. reflexivity. Qed.

(** ** The iterator *)

Section Iteration.
Context {K V : Type} `{Countable K}.
Implicit Types (s : @LruCache K V _ _).

(** The body of the loop at an entry, then the rest of it. *)
Lemma iterate_step fuel s p kv rest it l :
  next it = (true, {| mIterator := p :: rest; mBeginReturned := true |}) -> kv_of s p = Some kv ->
  iterate fuel {| mIterator := p :: rest; mBeginReturned := true |} s = Some (l, s) ->
  iterate (S fuel) it s = Some (kv :: l, s).
Proof.
  intros Hn Hkv Hl. destruct (kv_entry _ _ _ Hkv) as (e & He & Hk & Hv). cbn [iterate]. rewrite Hn.
  assert (it_entry {| mIterator := p :: rest; mBeginReturned := true |} s = Some (e, s)) as Ee by (exact (entry_eq s p e He)).
  rewrite (bind_some _ _ s (key e) s) by (unfold it_key; by rewrite (bind_some _ _ _ _ _ Ee)).
  rewrite (bind_some _ _ s (value e) s) by (unfold it_value; by rewrite (bind_some _ _ _ _ _ Ee)).
  rewrite (bind_some _ _ _ _ _ Hl), Hk, Hv. by destruct kv.
Qed.

Lemma iterate_from fuel s p rest kvs :
  Forall2 (fun q kv => kv_of s q = Some kv) rest kvs -> (length rest <= fuel)%nat ->
  iterate fuel {| mIterator := p :: rest; mBeginReturned := true |} s = Some (kvs, s).
Proof.
  intros HF. revert fuel p. induction HF as [|q kv rest kvs Hq HF IH]; intros fuel p Hf; [by destruct fuel|].
  destruct fuel as [|fuel]; [cbn in Hf; lia|]. apply iterate_step with q rest; [done|exact Hq|]. apply IH. cbn in Hf. lia.
Qed.
End Iteration.

(** The iterator visits every entry once, in the order of the set, whatever
    that is: the loop over [next] ends and reads the keys and values of all
    entries, and changes nothing. *)
Theorem iterate_correct {K V} `{Countable K} (s : @LruCache K V _ _) c (order : list ptr) :
  shape s c -> order ≡ₚ c.*1 ->
  exists l, iterate (length order) (iterator order) s = Some (l, s) /\ l ≡ₚ c.*2.
Proof.
  intros Hs Hp. apply Permutation_map_inv in Hp as (c' & -> & Hp). change (map fst c') with c'.*1. exists c'.*2.
  split; [|by rewrite Hp].
  assert (Forall2 (fun q kv => kv_of s q = Some kv) c'.*1 c'.*2) as HF.
  { pose proof (sh_kv _ _ Hs) as HF. rewrite Hp in HF. clear Hp Hs. induction HF as [|[p kv] c' Hk HF IH]; by constructor. }
  destruct HF as [|p kv rest kvs Hk HF]; [done|]. cbn [length].
  apply iterate_step with p rest; [done|exact Hk|]. by apply iterate_from.
Qed.

Definition example_cache : option (@LruCache Z Z _ _) :=
  snd <$> @answer_calls Z Z _ _ 0 first_free [Put 1 10; Put 2 20; Get 1] (constructor 0).

Lemma iterate_correct_witness :
  exists s c l, example_cache = Some s /\ shape s c /\ iterate (length c.*1) (iterator c.*1) s = Some (l, s) /\ l ≡ₚ [(2, 20); (1, 10)].
Proof.
  pose proof (@answers_refine Z Z _ _ first_free 0 [Put 1 10; Put 2 20; Get 1] (constructor 0) (new_usage 0) (constructor_represents 0))
    as (s & E & c & Hs & Ec).
  destruct (iterate_correct s c c.*1 Hs (Permutation_refl _)) as (l & El & Hl). exists s, c, l.
  split; [unfold example_cache; by rewrite E|]. split; [exact Hs|]. split; [exact El|].
  assert (c.*2 = [(2, 20); (1, 10)]) as <-; [|exact Hl]. pose proof (f_equal order Ec) as Eo. by vm_compute in Eo.
Defined.
