(* ===== verification/BitSet.v ===== *)
(** * Sets of bits: utils/BitSet.h and cutils/bitops.h

    BitSet32 and BitSet64 number the bits of a word from its top, the bit masks
    of bitops.h those of an array of words from the bottom of each.  The
    functions are the same but for this and the width; BitSet32 and BitSet64 are
    two instances of one interface, whose laws say what the operations do on the
    set of the marked numbers. *)
From S2P Require Import Prelude.

(** ** The builtin functions of the compiler

    [clz] and [ctz] of 0 are undefined. *)

Fixpoint pos_ones (p : positive) : Z :=
  match p with xH => 1 | xO p => pos_ones p | xI p => 1 + pos_ones p end.

Fixpoint pos_ctz (p : positive) : Z :=
  match p with xO p => 1 + pos_ctz p | _ => 0 end.

Definition builtin_popcount (x : Z) : Z := match x with Zpos p => pos_ones p | _ => 0 end.
Definition builtin_clz (w x : Z) : option Z := if x =? 0 then None else Some (w - 1 - Z.log2 x).
Definition builtin_ctz (x : Z) : option Z := match x with Zpos p => Some (pos_ctz p) | _ => None end.
Definition ffs (x : Z) : Z := match builtin_ctz x with Some n => n + 1 | None => 0 end.

(** ** BitSet32

  A set is its [value]; the operations that change it return the new one. *)
Module BitSet32.
(** [unsigned int] has 32 bits and [unsigned long] 64. *)
Definition sizeof_unsigned_int : Z := 4.

Definition clz_checked (value : Z) : option Z :=
  if sizeof_unsigned_int =? 4 then builtin_clz 32 value else builtin_clz 64 value.
Definition ctz_checked (value : Z) : option Z :=
  if sizeof_unsigned_int =? 4 then builtin_ctz value else builtin_ctz value.

Definition valueForBit (n : Z) : Z := u32 (0x80000000 >> n).
Definition clear : Z := 0.
Definition count (value : Z) : Z := builtin_popcount value.
Definition isEmpty (value : Z) : bool := value =? 0.
Definition isFull (value : Z) : bool := value =? 0xffffffff.
Definition hasBit (value n : Z) : bool := negb ((value .& valueForBit n) =? 0).
Definition markBit (value n : Z) : Z := value .| valueForBit n.
Definition clearBit (value n : Z) : Z := value .& u32 (Z.lnot (valueForBit n)).
Definition firstMarkedBit (value : Z) : option Z := clz_checked value.
Definition firstUnmarkedBit (value : Z) : option Z := clz_checked (u32 (Z.lnot value)).
Definition lastMarkedBit (value : Z) : option Z := n ← ctz_checked value; Some (31 - n).
Definition clearFirstMarkedBit (value : Z) : option (Z * Z) := n ← firstMarkedBit value; Some (n, clearBit value n).
Definition markFirstUnmarkedBit (value : Z) : option (Z * Z) := n ← firstUnmarkedBit value; Some (n, markBit value n).
Definition clearLastMarkedBit (value : Z) : option (Z * Z) := n ← lastMarkedBit value; Some (n, clearBit value n).
Definition getIndexOfBit (value n : Z) : Z := builtin_popcount (value .& u64 (Z.lnot (0xffffffff >> n))).
Definition eqb (value other : Z) : bool := value =? other.
Definition neqb (value other : Z) : bool := negb (value =? other).
Definition and (value other : Z) : Z := value .& other.
Definition or (value other : Z) : Z := value .| other.
End BitSet32.

(** ** BitSet64 *)
Module BitSet64.
Definition valueForBit (n : Z) : Z := u64 (0x8000000000000000 >> n).
Definition clear : Z := 0.
Definition count (value : Z) : Z := builtin_popcount value.
Definition isEmpty (value : Z) : bool := value =? 0.
Definition isFull (value : Z) : bool := value =? 0xffffffffffffffff.
Definition hasBit (value n : Z) : bool := negb ((value .& valueForBit n) =? 0).
Definition markBit (value n : Z) : Z := value .| valueForBit n.
Definition clearBit (value n : Z) : Z := value .& u64 (Z.lnot (valueForBit n)).
Definition firstMarkedBit (value : Z) : option Z := builtin_clz 64 value.
Definition firstUnmarkedBit (value : Z) : option Z := builtin_clz 64 (u64 (Z.lnot value)).
Definition lastMarkedBit (value : Z) : option Z := n ← builtin_ctz value; Some (63 - n).
Definition clearFirstMarkedBit (value : Z) : option (Z * Z) := n ← firstMarkedBit value; Some (n, clearBit value n).
Definition markFirstUnmarkedBit (value : Z) : option (Z * Z) := n ← firstUnmarkedBit value; Some (n, markBit value n).
Definition clearLastMarkedBit (value : Z) : option (Z * Z) := n ← lastMarkedBit value; Some (n, clearBit value n).
Definition getIndexOfBit (value n : Z) : Z := builtin_popcount (value .& u64 (Z.lnot (0xffffffffffffffff >> n))).
Definition eqb (value other : Z) : bool := value =? other.
Definition neqb (value other : Z) : bool := negb (value =? other).
Definition and (value other : Z) : Z := value .& other.
Definition or (value other : Z) : Z := value .| other.
End BitSet64.

(** ** bitops.h

    A mask is the array of its words; an index outside it is undefined. *)

Definition BITS_PER_WORD : Z := 32.
Definition BITS_TO_WORDS (x : Z) : Z := (x + BITS_PER_WORD - 1) / BITS_PER_WORD.
Definition BIT_IN_WORD (x : Z) : Z := x mod BITS_PER_WORD.
Definition BIT_WORD (x : Z) : Z := x / BITS_PER_WORD.
Definition BIT_MASK (x : Z) : Z := u32 (1 << BIT_IN_WORD x).

Definition bitmask_init (bitmask : list Z) (num_bits : Z) : option (list Z) :=
  let n := Z.to_nat (BITS_TO_WORDS num_bits) in
  if (n <=? length bitmask)%nat then Some (replicate n 0 ++ drop n bitmask) else None.

(** The loop of [bitmask_ffz] with [n] iterations left. *)
Fixpoint bitmask_ffz_from (bitmask : list Z) (num_bits : Z) (i n : nat) : option Z :=
  match n with
  | O => Some (-1)
  | S n =>
      word ← bitmask !! i;
      let bit := ffs (u32 (Z.lnot word)) in
      if negb (bit =? 0) then
        let bit := bit - 1 in
        let result := BITS_PER_WORD * Z.of_nat i + bit in
        if result >=? num_bits then Some (-1) else Some result
      else bitmask_ffz_from bitmask num_bits (S i) n
  end.

Definition bitmask_ffz (bitmask : list Z) (num_bits : Z) : option Z :=
  bitmask_ffz_from bitmask num_bits 0 (Z.to_nat (BITS_TO_WORDS num_bits)).

Fixpoint bitmask_weight_from (bitmask : list Z) (i n : nat) (weight : Z) : option Z :=
  match n with
  | O => Some weight
  | S n => word ← bitmask !! i; bitmask_weight_from bitmask (S i) n (weight + builtin_popcount word)
  end.

Definition bitmask_weight (bitmask : list Z) (num_bits : Z) : option Z :=
  bitmask_weight_from bitmask 0 (Z.to_nat (BITS_TO_WORDS num_bits)) 0.

Definition bitmask_set (bitmask : list Z) (bit : Z) : option (list Z) :=
  let i := Z.to_nat (BIT_WORD bit) in
  word ← bitmask !! i; Some (<[i := word .| BIT_MASK bit]> bitmask).

Definition bitmask_clear (bitmask : list Z) (bit : Z) : option (list Z) :=
  let i := Z.to_nat (BIT_WORD bit) in
  word ← bitmask !! i; Some (<[i := word .& u32 (Z.lnot (BIT_MASK bit))]> bitmask).

Definition bitmask_test (bitmask : list Z) (bit : Z) : option bool :=
  word ← bitmask !! Z.to_nat (BIT_WORD bit); Some (negb ((word .& BIT_MASK bit) =? 0)).

(** * Bits of a word *)

Lemma popcount_half x : 0 <= x -> builtin_popcount x = Z.b2z (Z.odd x) + builtin_popcount (x / 2).
Proof.
  intros Hx. destruct x as [|p|p]; [done| |lia]. rewrite <- Z.div2_div. destruct p; cbn; lia.
Qed.

Lemma filter_ext_in {A} (P Q : A -> Prop) `{!forall x, Decision (P x), !forall x, Decision (Q x)} (l : list A) :
  (forall x, x ∈ l -> P x <-> Q x) -> filter P l = filter Q l.
Proof.
  induction l as [|x l IH]; intros E; [done|]. rewrite !filter_cons, IH by (intros; apply E; by constructor).
  pose proof (E x ltac:(constructor)). repeat case_decide; tauto.
Qed.

(** The number of the bits below [w] is counted from the bottom or the top. *)
Definition ones (w x : Z) : Z := Z.of_nat (length (filter (fun n => Z.testbit x (w - 1 - n) = true) (seqZ 0 w))).

Lemma ones_succ w x : 0 <= w -> ones (w + 1) x = ones w (x / 2) + Z.b2z (Z.odd x).
Proof.
  intros Hw. unfold ones. rewrite seqZ_app by lia. rewrite filter_app, length_app, Nat2Z.inj_add. f_equal.
  - do 2 f_equal. apply filter_ext_in. intros n Hn%elem_of_seqZ. rewrite <- Z.div2_div, Z.div2_spec, Z.shiftr_spec by lia.
    by replace (w - 1 - n + 1) with (w + 1 - 1 - n) by lia.
  - change (seqZ (0 + w) 1) with [0 + w]. rewrite filter_cons. replace (w + 1 - 1 - (0 + w)) with 0 by lia.
    rewrite Z.bit0_odd. by destruct (Z.odd x).
Qed.

Lemma popcount_ones w x : 0 <= w -> is_word w x -> builtin_popcount x = ones w x.
Proof.
  intros Hw. revert x. pattern w. apply natlike_ind; [| |exact Hw]; clear w Hw.
  - intros x Hx. unfold is_word in Hx. replace x with 0 by lia. done.
  - intros w Hw IH x Hx. unfold Z.succ in *. rewrite popcount_half, ones_succ by (unfold is_word in Hx; lia).
    rewrite IH; [lia|]. unfold is_word in *. rewrite Z.pow_add_r in Hx by lia.
    split; [apply Z.div_pos; lia|apply Z.div_lt_upper_bound; lia].
Qed.

Lemma filter_fmap_length {A B} (f : A -> B) (P : B -> Prop) `{!forall x, Decision (P x)} (l : list A) :
  length (filter P (f <$> l)) = length (filter (fun x => P (f x)) l).
Proof. induction l as [|x l IH]; [done|]. rewrite fmap_cons, !filter_cons. case_decide; cbn [length]; by rewrite IH. Qed.

Lemma ones_up w x : 0 <= w -> ones w x = Z.of_nat (length (filter (fun n => Z.testbit x n = true) (seqZ 0 w))).
Proof.
  intros Hw. unfold ones. f_equal.
  etransitivity; [symmetry; exact (filter_fmap_length (fun n => w - 1 - n) (fun n => Z.testbit x n = true) (seqZ 0 w))|].
  assert ((fun n => w - 1 - n) <$> seqZ 0 w ≡ₚ seqZ 0 w) as ->; [|done]. apply NoDup_Permutation.
  - apply NoDup_fmap; [intros a b ?; lia|apply NoDup_seqZ].
  - apply NoDup_seqZ.
  - intros a. rewrite list_elem_of_fmap, elem_of_seqZ. split.
    + intros (b & -> & Hb%elem_of_seqZ). lia.
    + intros Ha. exists (w - 1 - a). rewrite elem_of_seqZ. lia.
Qed.

Lemma ctz_spec x n : builtin_ctz x = Some n -> 0 <= n /\ Z.testbit x n = true /\ forall i, i < n -> Z.testbit x i = false.
Proof.
  destruct x as [|p|p]; [done| |done]. cbn [builtin_ctz]. intros [= <-]. induction p as [p _|p IH|]; cbn [pos_ctz].
  - split; [done|]. split; [done|]. intros i Hi. by apply Z.testbit_neg_r.
  - destruct IH as (H0 & H1 & H2). split; [lia|]. rewrite Pos2Z.inj_xO.
    split; [replace (1 + pos_ctz p) with (Z.succ (pos_ctz p)) by lia; by rewrite Z.double_bits_succ|].
    intros i Hi. destruct (Z.lt_trichotomy i 0) as [Hi0|[->|Hi0]]; [by apply Z.testbit_neg_r|by rewrite Z.testbit_even_0|].
    replace i with (Z.succ (i - 1)) by lia. rewrite Z.double_bits_succ. apply H2. lia.
  - split; [done|]. split; [done|]. intros i Hi. by apply Z.testbit_neg_r.
Qed.

Lemma ctz_none x : 0 <= x -> builtin_ctz x = None <-> x = 0.
Proof. intros Hx. destruct x; [done|done|lia]. Qed.

Lemma clz_spec w x n :
  0 <= x -> builtin_clz w x = Some n -> Z.testbit x (w - 1 - n) = true /\ forall i, w - 1 - n < i -> Z.testbit x i = false.
Proof.
  unfold builtin_clz. intros Hx. destruct (Z.eqb_spec x 0) as [|Hne]; [done|]. intros [= <-].
  replace (w - 1 - (w - 1 - Z.log2 x)) with (Z.log2 x) by lia. split; [apply Z.bit_log2; lia|]. intros i Hi. by apply Z.bits_above_log2.
Qed.

Lemma word_lnot w x : 0 <= w -> is_word w ((Z.lnot x) mod 2 ^ w).
Proof. intros Hw. apply Z.mod_pos_bound. lia. Qed.

Lemma lnot_testbit w x i : 0 <= i < w -> Z.testbit ((Z.lnot x) mod 2 ^ w) i = negb (Z.testbit x i).
Proof. intros Hi. rewrite Z.mod_pow2_bits_low by lia. apply Z.lnot_spec; lia. Qed.

(** * The interface *)

(** The operations of the two classes. *)
Record bit_set := {
  width : Z;
  clear : Z;
  count : Z -> Z;
  isEmpty : Z -> bool;
  isFull : Z -> bool;
  hasBit : Z -> Z -> bool;
  markBit : Z -> Z -> Z;
  clearBit : Z -> Z -> Z;
  firstMarkedBit : Z -> option Z;
  firstUnmarkedBit : Z -> option Z;
  lastMarkedBit : Z -> option Z;
  clearFirstMarkedBit : Z -> option (Z * Z);
  markFirstUnmarkedBit : Z -> option (Z * Z);
  clearLastMarkedBit : Z -> option (Z * Z);
  getIndexOfBit : Z -> Z -> Z;
  eqb : Z -> Z -> bool;
  neqb : Z -> Z -> bool;
  and : Z -> Z -> Z;
  or : Z -> Z -> Z
}.

Definition BitSet32_ops : bit_set := {|
  width := 32; clear := BitSet32.clear; count := BitSet32.count; isEmpty := BitSet32.isEmpty; isFull := BitSet32.isFull;
  hasBit := BitSet32.hasBit; markBit := BitSet32.markBit; clearBit := BitSet32.clearBit;
  firstMarkedBit := BitSet32.firstMarkedBit; firstUnmarkedBit := BitSet32.firstUnmarkedBit; lastMarkedBit := BitSet32.lastMarkedBit;
  clearFirstMarkedBit := BitSet32.clearFirstMarkedBit; markFirstUnmarkedBit := BitSet32.markFirstUnmarkedBit;
  clearLastMarkedBit := BitSet32.clearLastMarkedBit; getIndexOfBit := BitSet32.getIndexOfBit;
  eqb := BitSet32.eqb; neqb := BitSet32.neqb; and := BitSet32.and; or := BitSet32.or |}.

Definition BitSet64_ops : bit_set := {|
  width := 64; clear := BitSet64.clear; count := BitSet64.count; isEmpty := BitSet64.isEmpty; isFull := BitSet64.isFull;
  hasBit := BitSet64.hasBit; markBit := BitSet64.markBit; clearBit := BitSet64.clearBit;
  firstMarkedBit := BitSet64.firstMarkedBit; firstUnmarkedBit := BitSet64.firstUnmarkedBit; lastMarkedBit := BitSet64.lastMarkedBit;
  clearFirstMarkedBit := BitSet64.clearFirstMarkedBit; markFirstUnmarkedBit := BitSet64.markFirstUnmarkedBit;
  clearLastMarkedBit := BitSet64.clearLastMarkedBit; getIndexOfBit := BitSet64.getIndexOfBit;
  eqb := BitSet64.eqb; neqb := BitSet64.neqb; and := BitSet64.and; or := BitSet64.or |}.

(** The marked numbers of a value of [w] bits, and all numbers. *)
Definition marked (w value : Z) : gset Z := list_to_set (filter (fun n => Z.testbit value (w - 1 - n) = true) (seqZ 0 w)).
Definition numbers (w : Z) : gset Z := list_to_set (seqZ 0 w).

(** The least and greatest element of a set. *)
Definition least (X : gset Z) (n : Z) : Prop := n ∈ X /\ forall m, m ∈ X -> n <= m.
Definition greatest (X : gset Z) (n : Z) : Prop := n ∈ X /\ forall m, m ∈ X -> m <= n.

(** A result that is the number [P] asks for, or undefined when the set [X] has
    none. *)
Definition picks {A} (X : gset Z) (P : A -> Prop) (r : option A) : Prop :=
  match r with Some a => P a | None => X = ∅ end.

(** What the operations promise on values [v] of the width and numbers [n]
    below it. *)
Class BitSetLaws (B : bit_set) : Prop := {
  law_clear : is_word (width B) (clear B) /\ marked (width B) (clear B) = ∅;
  law_count v : is_word (width B) v -> count B v = Z.of_nat (size (marked (width B) v));
  law_isEmpty v : is_word (width B) v -> isEmpty B v = bool_decide (marked (width B) v = ∅);
  law_isFull v : is_word (width B) v -> isFull B v = bool_decide (marked (width B) v = numbers (width B));
  law_hasBit v n : is_word (width B) v -> 0 <= n < width B -> hasBit B v n = bool_decide (n ∈ marked (width B) v);
  law_markBit v n : is_word (width B) v -> 0 <= n < width B ->
    is_word (width B) (markBit B v n) /\ marked (width B) (markBit B v n) = {[n]} ∪ marked (width B) v;
  law_clearBit v n : is_word (width B) v -> 0 <= n < width B ->
    is_word (width B) (clearBit B v n) /\ marked (width B) (clearBit B v n) = marked (width B) v ∖ {[n]};
  law_firstMarkedBit v : is_word (width B) v -> picks (marked (width B) v) (least (marked (width B) v)) (firstMarkedBit B v);
  law_firstUnmarkedBit v : is_word (width B) v ->
    picks (numbers (width B) ∖ marked (width B) v) (least (numbers (width B) ∖ marked (width B) v)) (firstUnmarkedBit B v);
  law_lastMarkedBit v : is_word (width B) v -> picks (marked (width B) v) (greatest (marked (width B) v)) (lastMarkedBit B v);
  law_clearFirstMarkedBit v : clearFirstMarkedBit B v = (fun n => (n, clearBit B v n)) <$> firstMarkedBit B v;
  law_markFirstUnmarkedBit v : markFirstUnmarkedBit B v = (fun n => (n, markBit B v n)) <$> firstUnmarkedBit B v;
  law_clearLastMarkedBit v : clearLastMarkedBit B v = (fun n => (n, clearBit B v n)) <$> lastMarkedBit B v;
  law_getIndexOfBit v n : is_word (width B) v -> 0 <= n < width B ->
    getIndexOfBit B v n = Z.of_nat (size (filter (fun m => m < n) (marked (width B) v)));
  law_eqb v u : is_word (width B) v -> is_word (width B) u -> eqb B v u = bool_decide (marked (width B) v = marked (width B) u);
  law_neqb v u : neqb B v u = negb (eqb B v u);
  law_and v u : is_word (width B) v -> is_word (width B) u ->
    is_word (width B) (and B v u) /\ marked (width B) (and B v u) = marked (width B) v ∩ marked (width B) u;
  law_or v u : is_word (width B) v -> is_word (width B) u ->
    is_word (width B) (or B v u) /\ marked (width B) (or B v u) = marked (width B) v ∪ marked (width B) u
}.

(** ** The laws, for any width

    [conv] is the conversion to the width and [wide] one to a width that is not
    smaller. *)
Section Width.
Context (w : Z) (Hw : 0 < w) (conv wide : Z -> Z).
Context (Hconv : forall x, conv x = x mod 2 ^ w).
Context (Hwide : forall x i, 0 <= i < w -> Z.testbit (wide x) i = Z.testbit x i).

Lemma elem_of_marked v n : n ∈ marked w v <-> 0 <= n < w /\ Z.testbit v (w - 1 - n) = true.
Proof. unfold marked. rewrite elem_of_list_to_set, list_elem_of_filter, elem_of_seqZ. rewrite Z.add_0_l. tauto. Qed.

Lemma elem_of_numbers n : n ∈ numbers w <-> 0 <= n < w.
Proof. unfold numbers. rewrite elem_of_list_to_set, elem_of_seqZ. by rewrite Z.add_0_l. Qed.

Lemma size_marked v : Z.of_nat (size (marked w v)) = ones w v.
Proof.
  unfold marked, ones. rewrite size_list_to_set; [done|]. apply NoDup_filter, NoDup_seqZ.
Qed.

Lemma marked_inj v u : is_word w v -> is_word w u -> marked w v = marked w u -> v = u.
Proof.
  intros Hv Hu E. apply Z.bits_inj'. intros i Hi. destruct (Z.lt_ge_cases i w) as [Hiw|Hiw].
  - assert (w - 1 - i ∈ marked w v <-> w - 1 - i ∈ marked w u) as Em by (by rewrite E).
    rewrite !elem_of_marked in Em. replace (w - 1 - (w - 1 - i)) with i in Em by lia.
    destruct (Z.testbit v i), (Z.testbit u i); try done; [symmetry|]; apply Em; split; done || lia.
  - rewrite (is_word_testbit w v), (is_word_testbit w u); done || lia.
Qed.

Lemma top_bit n : 0 <= n < w -> (2 ^ (w - 1) >> n) = 2 ^ (w - 1 - n).
Proof. intros Hn. rewrite Z.shiftr_div_pow2 by lia. rewrite <- Z.pow_sub_r by lia. done. Qed.

Lemma top_bit_word n : 0 <= n < w -> is_word w (2 ^ (w - 1 - n)) /\ conv (2 ^ (w - 1) >> n) = 2 ^ (w - 1 - n).
Proof.
  intros Hn. assert (is_word w (2 ^ (w - 1 - n))) as H by (split; [lia|apply Z.pow_lt_mono_r; lia]).
  split; [exact H|]. rewrite top_bit by done. rewrite Hconv. by apply Z.mod_small.
Qed.

Lemma bit_testbit n i : 0 <= n < w -> 0 <= i -> Z.testbit (2 ^ (w - 1 - n)) i = bool_decide (n = w - 1 - i).
Proof. intros Hn Hi. rewrite Z.pow2_bits_eqb by lia. destruct (Z.eqb_spec (w - 1 - n) i), (bool_decide_reflect (n = w - 1 - i)); lia || done. Qed.

Lemma marked_top n : 0 <= n < w -> marked w (2 ^ (w - 1 - n)) = {[n]}.
Proof.
  intros Hn. apply set_eq. intros m. rewrite elem_of_marked, elem_of_singleton. split.
  - intros [Hm Hb]. rewrite bit_testbit in Hb by lia. apply bool_decide_eq_true in Hb. lia.
  - intros ->. split; [done|]. rewrite bit_testbit by lia. apply bool_decide_eq_true. lia.
Qed.

Lemma marked_lor v u : marked w (v .| u) = marked w v ∪ marked w u.
Proof. apply set_eq. intros n. rewrite elem_of_union, !elem_of_marked, Z.lor_spec, orb_true_iff. tauto. Qed.

Lemma marked_land v u : marked w (v .& u) = marked w v ∩ marked w u.
Proof. apply set_eq. intros n. rewrite elem_of_intersection, !elem_of_marked, Z.land_spec, andb_true_iff. tauto. Qed.

Lemma marked_lnot v : marked w (conv (Z.lnot v)) = numbers w ∖ marked w v.
Proof.
  apply set_eq. intros n. rewrite elem_of_difference, elem_of_numbers, !elem_of_marked, Hconv. split.
  - intros [Hn Hb]. rewrite lnot_testbit, negb_true_iff in Hb by lia. split; [done|]. intros [_ ?]. congruence.
  - intros [Hn Hb]. split; [done|]. rewrite lnot_testbit, negb_true_iff by lia. destruct (Z.testbit v (w - 1 - n)) eqn:E; [|done]. tauto.
Qed.

Lemma marked_0 : marked w 0 = ∅.
Proof. apply set_eq. intros n. rewrite elem_of_marked, Z.bits_0. set_solver. Qed.

Lemma marked_ones : marked w (2 ^ w - 1) = numbers w.
Proof.
  apply set_eq. intros n. rewrite elem_of_marked, elem_of_numbers. replace (2 ^ w - 1) with (Z.ones w) by (rewrite Z.ones_equiv; lia).
  split; [tauto|]. intros Hn. split; [done|]. apply Z.ones_spec_low. lia.
Qed.

Lemma marked_subset v : marked w v ⊆ numbers w.
Proof. intros n. rewrite elem_of_marked, elem_of_numbers. tauto. Qed.

(** Both classes, up to conversion. *)
Definition of_width : bit_set := {|
  width := w;
  clear := 0;
  count v := builtin_popcount v;
  isEmpty v := v =? 0;
  isFull v := v =? 2 ^ w - 1;
  hasBit v n := negb ((v .& conv (2 ^ (w - 1) >> n)) =? 0);
  markBit v n := v .| conv (2 ^ (w - 1) >> n);
  clearBit v n := v .& conv (Z.lnot (conv (2 ^ (w - 1) >> n)));
  firstMarkedBit v := builtin_clz w v;
  firstUnmarkedBit v := builtin_clz w (conv (Z.lnot v));
  lastMarkedBit v := n ← builtin_ctz v; Some (w - 1 - n);
  clearFirstMarkedBit v := n ← builtin_clz w v; Some (n, v .& conv (Z.lnot (conv (2 ^ (w - 1) >> n))));
  markFirstUnmarkedBit v := n ← builtin_clz w (conv (Z.lnot v)); Some (n, v .| conv (2 ^ (w - 1) >> n));
  clearLastMarkedBit v :=
    n ← (n ← builtin_ctz v; Some (w - 1 - n)); Some (n, v .& conv (Z.lnot (conv (2 ^ (w - 1) >> n))));
  getIndexOfBit v n := builtin_popcount (v .& wide (Z.lnot ((2 ^ w - 1) >> n)));
  eqb v u := v =? u;
  neqb v u := negb (v =? u);
  and v u := v .& u;
  or v u := v .| u
|}.

Lemma marked_empty v : is_word w v -> marked w v = ∅ <-> v = 0.
Proof.
  intros Hv. split; [|intros ->; apply marked_0]. intros E. apply marked_inj; [exact Hv|split; lia|]. by rewrite marked_0.
Qed.

Lemma least_clz v : is_word w v -> picks (marked w v) (least (marked w v)) (builtin_clz w v).
Proof.
  intros Hv. destruct (builtin_clz w v) as [n|] eqn:E; cbn [picks].
  - destruct (clz_spec w v n (proj1 Hv) E) as [Hb Hlow].
    assert (w - 1 - n < w) as Hn1.
    { destruct (Z.lt_ge_cases (w - 1 - n) w) as [|Hge]; [done|]. rewrite (is_word_testbit w v) in Hb; done || lia. }
    assert (0 <= w - 1 - n) as Hn2.
    { destruct (Z.lt_ge_cases (w - 1 - n) 0) as [Hlt|]; [|done]. by rewrite Z.testbit_neg_r in Hb. }
    split; [apply elem_of_marked; split; [lia|done]|]. intros m [Hm Hbm]%elem_of_marked.
    destruct (Z.lt_ge_cases m n) as [Hlt|]; [|done]. rewrite Hlow in Hbm by lia. done.
  - apply marked_empty; [exact Hv|]. unfold builtin_clz in E. by destruct (Z.eqb_spec v 0).
Qed.

Lemma greatest_ctz v : is_word w v -> picks (marked w v) (greatest (marked w v)) (n ← builtin_ctz v; Some (w - 1 - n)).
Proof.
  intros Hv. destruct (builtin_ctz v) as [n|] eqn:E; cbn.
  - destruct (ctz_spec v n E) as (Hn & Hb & Hlow). assert (n < w) as Hnw.
    { destruct (Z.lt_ge_cases n w) as [|Hge]; [done|]. rewrite (is_word_testbit w v) in Hb; done || lia. }
    split; [apply elem_of_marked; split; [lia|]; by replace (w - 1 - (w - 1 - n)) with n by lia|].
    intros m [Hm Hbm]%elem_of_marked. destruct (Z.lt_ge_cases (w - 1 - m) n) as [Hlt|]; [|lia]. rewrite Hlow in Hbm by lia. done.
  - apply marked_empty; [exact Hv|]. apply ctz_none; [apply Hv|exact E].
Qed.

Lemma conv_word x : is_word w (conv x).
Proof. rewrite Hconv. apply Z.mod_pos_bound. lia. Qed.

(** The bits above a number. *)
Lemma marked_above v n : 0 <= n < w -> marked w (v .& wide (Z.lnot ((2 ^ w - 1) >> n))) = filter (fun m => m < n) (marked w v).
Proof.
  intros Hn. apply set_eq. intros m. rewrite elem_of_filter, !elem_of_marked, Z.land_spec, andb_true_iff.
  enough (0 <= m < w -> Z.testbit (wide (Z.lnot ((2 ^ w - 1) >> n))) (w - 1 - m) = true <-> m < n) by tauto.
  intros Hm. rewrite Hwide by lia. rewrite Z.lnot_spec, Z.shiftr_spec, negb_true_iff by lia.
  replace (2 ^ w - 1) with (Z.ones w) by (rewrite Z.ones_equiv; lia). rewrite Z.testbit_ones_nonneg by lia.
  destruct (Z.ltb_spec (w - 1 - m + n) w); split; intros; lia || done.
Qed.

#[export] Instance of_width_laws : BitSetLaws of_width.
Proof.
  split; cbn [width clear count isEmpty isFull hasBit markBit clearBit firstMarkedBit firstUnmarkedBit lastMarkedBit
    clearFirstMarkedBit markFirstUnmarkedBit clearLastMarkedBit getIndexOfBit eqb neqb and or of_width].
  - split; [split; lia|apply marked_0].
  - intros v Hv. rewrite size_marked. by apply popcount_ones; [lia|].
  - intros v Hv. apply eq_bool_prop_intro. rewrite bool_decide_spec, marked_empty by done. by rewrite Is_true_true, Z.eqb_eq.
  - intros v Hv. apply eq_bool_prop_intro. rewrite bool_decide_spec, Is_true_true, Z.eqb_eq, <- marked_ones. split; [by intros ->|].
    apply marked_inj; [exact Hv|split; lia].
  - intros v n Hv Hn. destruct (top_bit_word n Hn) as [Hb ->]. apply eq_bool_prop_intro. rewrite bool_decide_spec, Is_true_true, negb_true_iff, Z.eqb_neq, <- (marked_empty (_ .& _)) by
      (by apply is_word_land; [lia|]). rewrite marked_land, marked_top by done. destruct (decide (n ∈ marked w v)); set_solver.
  - intros v n Hv Hn. destruct (top_bit_word n Hn) as [Hb ->]. rewrite marked_lor, marked_top by done. split; [|set_solver].
    by apply is_word_lor; [lia| |].
  - intros v n Hv Hn. destruct (top_bit_word n Hn) as [Hb ->]. rewrite marked_land, marked_lnot, marked_top by done.
    split; [by apply is_word_land; [lia|]|]. pose proof (marked_subset v). set_solver.
  - intros v Hv. by apply least_clz.
  - intros v Hv. rewrite <- marked_lnot. apply least_clz, conv_word.
  - intros v Hv. by apply greatest_ctz.
  - intros v. by destruct (builtin_clz w v).
  - intros v. by destruct (builtin_clz w (conv (Z.lnot v))).
  - intros v. by destruct (builtin_ctz v).
  - intros v n Hv Hn. rewrite <- marked_above by done. rewrite size_marked. apply popcount_ones; [lia|]. by apply is_word_land; [lia|].
  - intros v u Hv Hu. apply eq_bool_prop_intro. rewrite bool_decide_spec, Is_true_true, Z.eqb_eq. split; [by intros ->|by apply marked_inj].
  - done.
  - intros v u Hv Hu. split; [by apply is_word_land; [lia|]|apply marked_land].
  - intros v u Hv Hu. split; [by apply is_word_lor; [lia| |]|apply marked_lor].
Qed.
End Width.

(** C17. BitSet32 and BitSet64 are sets of the numbers below 32 and 64: the
    operations mark, clear, count and compare the marked numbers, and find the
    first and last one, the first that is not marked, and how many are marked
    below a number; the finding operations are undefined only when there is no
    such number. *)
Theorem BitSet_correct : BitSetLaws BitSet32_ops /\ BitSetLaws BitSet64_ops.
Proof.
  split.
  - apply (of_width_laws 32 ltac:(lia) u32 u64 u32_mod). intros x i Hi. rewrite u64_mod. apply Z.mod_pow2_bits_low. lia.
  - apply (of_width_laws 64 ltac:(lia) u64 u64 u64_mod). intros x i Hi. rewrite u64_mod. apply Z.mod_pow2_bits_low. lia.
Qed.

(** * Bit masks *)

(** Bit [i] of an array of words, and the array as a list of bits. *)
Definition bit_at (ws : list Z) (i : Z) : bool :=
  match ws !! Z.to_nat (i / 32) with Some x => Z.testbit x (i mod 32) | None => false end.

Definition mask_size (ws : list Z) : Z := 32 * Z.of_nat (length ws).

Lemma mask_word ws i : words 32 ws -> 0 <= i < mask_size ws ->
  exists x, ws !! Z.to_nat (i / 32) = Some x /\ is_word 32 x /\ bit_at ws i = Z.testbit x (i mod 32) /\ 0 <= i mod 32 < 32.
Proof.
  intros Hw Hi. unfold mask_size in Hi. assert (0 <= i / 32 < Z.of_nat (length ws)) as Hd
    by (split; [apply Z.div_pos; lia|apply Z.div_lt_upper_bound; lia]).
  destruct (lookup_lt_is_Some_2 ws (Z.to_nat (i / 32)) ltac:(lia)) as [x Hx]. exists x. unfold bit_at. rewrite Hx.
  split; [done|]. split; [by apply (Forall_lookup_1 _ _ _ _ Hw Hx)|]. split; [done|]. apply Z.mod_pos_bound. lia.
Qed.

Lemma bit_mask_eq i : 0 <= i -> BIT_MASK i = 2 ^ (i mod 32).
Proof.
  intros Hi. unfold BIT_MASK, BIT_IN_WORD, BITS_PER_WORD. pose proof (Z.mod_pos_bound i 32 ltac:(lia)).
  rewrite Z.shiftl_1_l, u32_small; [done|]. split; [lia|]. apply Z.pow_lt_mono_r; lia.
Qed.

(** A word changed at one index. *)
Lemma bit_at_insert ws i x j : 0 <= i < mask_size ws -> 0 <= j ->
  bit_at (<[Z.to_nat (i / 32) := x]> ws) j = if bool_decide (j / 32 = i / 32) then Z.testbit x (j mod 32) else bit_at ws j.
Proof.
  intros Hi Hj. unfold mask_size in Hi. unfold bit_at.
  assert (0 <= i / 32 < Z.of_nat (length ws)) as Hd by (split; [apply Z.div_pos; lia|apply Z.div_lt_upper_bound; lia]).
  assert (0 <= j / 32) by (apply Z.div_pos; lia).
  case_bool_decide as E.
  - rewrite E. by rewrite list_lookup_insert_eq by lia.
  - by rewrite list_lookup_insert_ne by lia.
Qed.

Lemma same_bit i j : i = j <-> i / 32 = j / 32 /\ i mod 32 = j mod 32.
Proof.
  split; [by intros ->|]. intros [Hd Hm]. pose proof (Z.div_mod i 32 ltac:(lia)). pose proof (Z.div_mod j 32 ltac:(lia)). lia.
Qed.

Lemma bit_at_word ws i x k : ws !! i = Some x -> 0 <= k < 32 -> bit_at ws (32 * Z.of_nat i + k) = Z.testbit x k.
Proof.
  intros Hx Hk. unfold bit_at. rewrite (Z.mul_comm 32), Z.div_add_l, Z.div_small, Z.add_0_r, Nat2Z.id, Hx by lia.
  by rewrite Z.add_comm, Z.mod_add, Z.mod_small by lia.
Qed.

Lemma land_pow2_nonzero x k : 0 <= k -> (x .& 2 ^ k) <> 0 <-> Z.testbit x k = true.
Proof.
  intros Hk. split.
  - intros H. destruct (Z.testbit x k) eqn:E; [done|]. destruct H. apply Z.bits_inj'. intros i Hi.
    rewrite Z.land_spec, Z.pow2_bits_eqb, Z.bits_0 by done. destruct (Z.eqb_spec k i) as [<-|]; [by rewrite E|apply andb_false_r].
  - intros E H. assert (Z.testbit (x .& 2 ^ k) k = true) as Ht by (by rewrite Z.land_spec, E, Z.pow2_bits_true).
    rewrite H, Z.bits_0 in Ht. done.
Qed.

(** The words that bit [i] of [num_bits] is in. *)
Lemma words_of_bits num_bits : 0 <= num_bits ->
  num_bits <= 32 * BITS_TO_WORDS num_bits < num_bits + 32 /\ 0 <= BITS_TO_WORDS num_bits.
Proof.
  intros H. unfold BITS_TO_WORDS, BITS_PER_WORD. pose proof (Z.div_mod (num_bits + 32 - 1) 32 ltac:(lia)).
  pose proof (Z.mod_pos_bound (num_bits + 32 - 1) 32 ltac:(lia)). lia.
Qed.

Lemma ffs_spec x : 0 <= x ->
  (ffs x = 0 /\ x = 0) \/ exists n, ffs x = n + 1 /\ 0 <= n /\ Z.testbit x n = true /\ forall i, i < n -> Z.testbit x i = false.
Proof.
  intros Hx. unfold ffs. destruct (builtin_ctz x) as [n|] eqn:E; [right|left].
  - exists n. split; [done|]. by apply ctz_spec.
  - split; [done|]. by apply ctz_none.
Qed.

Lemma bitmask_ffz_from_correct ws num_bits i n :
  words 32 ws -> (i + n <= length ws)%nat -> num_bits <= 32 * Z.of_nat (i + n) ->
  (forall j, 0 <= j < 32 * Z.of_nat i -> bit_at ws j = true) ->
  exists r, bitmask_ffz_from ws num_bits i n = Some r
    /\ ((r = -1 /\ forall j, 0 <= j < num_bits -> bit_at ws j = true)
        \/ (0 <= r < num_bits /\ bit_at ws r = false /\ forall j, 0 <= j < r -> bit_at ws j = true)).
Proof.
  intros Hw. revert i. induction n as [|n IH]; intros i Hl Hn Hb; cbn [bitmask_ffz_from].
  - exists (-1). split; [done|]. left. split; [done|]. intros j Hj. apply Hb. lia.
  - destruct (lookup_lt_is_Some_2 ws i ltac:(lia)) as [x Hx]. rewrite Hx. cbn [mbind option_bind].
    pose proof (Forall_lookup_1 _ _ _ _ Hw Hx) as Hxw.
    pose proof (fun k => bit_at_word ws i x k Hx) as Hbit.
    assert (forall k, 0 <= k < 32 -> Z.testbit (u32 (Z.lnot x)) k = negb (Z.testbit x k)) as Hnot.
    { intros k Hk. rewrite u32_mod. by apply lnot_testbit. }
    destruct (ffs_spec (u32 (Z.lnot x)) (proj1 (u32_range _))) as [[-> H0]|(k & -> & Hk0 & Hk & Hlow)].
    + cbn [Z.eqb negb]. apply IH; [lia|lia|]. intros j Hj. destruct (Z.lt_ge_cases j (32 * Z.of_nat i)); [apply Hb; lia|].
      replace j with (32 * Z.of_nat i + (j - 32 * Z.of_nat i)) by lia. rewrite Hbit by lia.
      apply negb_false_iff. rewrite <- Hnot by lia. rewrite H0. apply Z.bits_0.
    + assert (k < 32) as Hk32.
      { destruct (Z.lt_ge_cases k 32) as [|Hge]; [done|]. rewrite (is_word_testbit 32 (u32 (Z.lnot x))) in Hk by (apply u32_range || lia). done. }
      replace (k + 1 =? 0) with false by (symmetry; apply Z.eqb_neq; lia). cbn [negb]. unfold BITS_PER_WORD.
      replace (32 * Z.of_nat i + (k + 1 - 1)) with (32 * Z.of_nat i + k) by lia.
      assert (bit_at ws (32 * Z.of_nat i + k) = false) as Hclear.
      { rewrite Hbit by lia. apply negb_true_iff. by rewrite <- Hnot by lia. }
      assert (forall j, 0 <= j < 32 * Z.of_nat i + k -> bit_at ws j = true) as Hset.
      { intros j Hj. destruct (Z.lt_ge_cases j (32 * Z.of_nat i)); [apply Hb; lia|].
        replace j with (32 * Z.of_nat i + (j - 32 * Z.of_nat i)) by lia. rewrite Hbit by lia.
        apply negb_false_iff. rewrite <- Hnot by lia. apply Hlow. lia. }
      rewrite Z.geb_leb. destruct (Z.leb_spec num_bits (32 * Z.of_nat i + k)).
      * exists (-1). split; [done|]. left. split; [done|]. intros j Hj. apply Hset. lia.
      * eexists. split; [done|]. right. split; [lia|]. by split.
Qed.

(** The bits of the first [n] words, counted. *)
Lemma bitmask_weight_from_correct ws i n weight :
  words 32 ws -> (i + n <= length ws)%nat ->
  bitmask_weight_from ws i n weight
  = Some (weight + Z.of_nat (length (filter (fun j => bit_at ws j = true) (seqZ (32 * Z.of_nat i) (32 * Z.of_nat n))))).
Proof.
  intros Hw. revert i weight. induction n as [|n IH]; intros i weight Hl; cbn [bitmask_weight_from].
  - rewrite seqZ_nil by lia. cbn [filter list_filter length]. f_equal. cbn. lia.
  - destruct (lookup_lt_is_Some_2 ws i ltac:(lia)) as [x Hx]. rewrite Hx. cbn [mbind option_bind].
    pose proof (Forall_lookup_1 _ _ _ _ Hw Hx) as Hxw. rewrite IH by lia. f_equal.
    replace (32 * Z.of_nat (S n)) with (32 + 32 * Z.of_nat n) by lia. rewrite seqZ_app by lia.
    replace (32 * Z.of_nat i + 32) with (32 * Z.of_nat (S i)) by lia. rewrite filter_app, length_app, Nat2Z.inj_add.
    rewrite (popcount_ones 32 x) by (lia || done).
    enough (ones 32 x = Z.of_nat (length (filter (fun j => bit_at ws j = true) (seqZ (32 * Z.of_nat i) 32)))) by lia.
    rewrite ones_up by lia. f_equal. replace (32 * Z.of_nat i) with (32 * Z.of_nat i + 0) by lia.
    rewrite <- fmap_add_seqZ, filter_fmap_length. f_equal. apply filter_ext_in.
    intros k Hk%elem_of_seqZ. by rewrite (bit_at_word ws i x k Hx) by lia.
Qed.

Lemma bitmask_update ws bit (f : Z -> Z) (b : bool -> bool -> bool) :
  words 32 ws -> 0 <= bit < mask_size ws ->
  (forall x, is_word 32 x -> is_word 32 (f x)) ->
  (forall x k, is_word 32 x -> 0 <= k < 32 -> Z.testbit (f x) k = b (bool_decide (k = bit mod 32)) (Z.testbit x k)) ->
  (forall c, b false c = c) ->
  exists ws', (word ← ws !! Z.to_nat (BIT_WORD bit); Some (<[Z.to_nat (BIT_WORD bit) := f word]> ws)) = Some ws'
    /\ words 32 ws' /\ length ws' = length ws
    /\ forall i, 0 <= i -> bit_at ws' i = if bool_decide (i = bit) then b true (bit_at ws i) else bit_at ws i.
Proof.
  intros Hw Hbit Hf Hfb Hb. destruct (mask_word ws bit Hw Hbit) as (x & Hx & Hxw & Hxb & Hm).
  unfold BIT_WORD, BITS_PER_WORD. rewrite Hx. cbn [mbind option_bind]. eexists. split; [reflexivity|]. split; [|split].
  - apply Forall_insert; [exact Hw|by apply Hf].
  - apply length_insert.
  - intros i Hi. pose proof (Z.mod_pos_bound i 32 ltac:(lia)) as Him. rewrite bit_at_insert by done.
    case_bool_decide as E1.
    + rewrite Hfb by done. assert (bit_at ws i = Z.testbit x (i mod 32)) as -> by (unfold bit_at; by rewrite E1, Hx).
      case_bool_decide as E2; case_bool_decide as E3; try (done || apply Hb || by subst i).
      destruct E3. apply same_bit. done.
    + case_bool_decide as E3; [by subst i|done].
Qed.

(** C34. On a mask of enough words, [bitmask_init] clears the words of the bits
    asked for, [bitmask_set] and [bitmask_clear] change one bit and
    [bitmask_test] reads it; [bitmask_ffz] finds the first clear bit below
    [num_bits], or answers -1 when all are set, and [bitmask_weight] counts the
    set bits of the words, those after [num_bits] in the last word too. *)
Theorem bitmask_correct ws num_bits bit :
  words 32 ws -> 0 <= num_bits -> BITS_TO_WORDS num_bits <= Z.of_nat (length ws) -> 0 <= bit < mask_size ws ->
  (exists ws', bitmask_init ws num_bits = Some ws' /\ words 32 ws' /\ length ws' = length ws
     /\ forall i, 0 <= i -> bit_at ws' i = if i <? 32 * BITS_TO_WORDS num_bits then false else bit_at ws i)
  /\ (exists ws', bitmask_set ws bit = Some ws' /\ words 32 ws' /\ length ws' = length ws
        /\ forall i, 0 <= i -> bit_at ws' i = if bool_decide (i = bit) then true else bit_at ws i)
  /\ (exists ws', bitmask_clear ws bit = Some ws' /\ words 32 ws' /\ length ws' = length ws
        /\ forall i, 0 <= i -> bit_at ws' i = if bool_decide (i = bit) then false else bit_at ws i)
  /\ bitmask_test ws bit = Some (bit_at ws bit)
  /\ (exists r, bitmask_ffz ws num_bits = Some r
        /\ ((r = -1 /\ forall j, 0 <= j < num_bits -> bit_at ws j = true)
            \/ (0 <= r < num_bits /\ bit_at ws r = false /\ forall j, 0 <= j < r -> bit_at ws j = true)))
  /\ bitmask_weight ws num_bits
     = Some (Z.of_nat (length (filter (fun j => bit_at ws j = true) (seqZ 0 (32 * BITS_TO_WORDS num_bits))))).
Proof.
  intros Hw Hn Hl Hbit. pose proof (words_of_bits num_bits Hn) as Hb. pose proof (bit_mask_eq bit ltac:(lia)) as Hmask.
  pose proof (Z.mod_pos_bound bit 32 ltac:(lia)) as Hm.
  assert (is_word 32 (2 ^ (bit mod 32))) as Hmw by (split; [lia|apply Z.pow_lt_mono_r; lia]).
  split; [|split; [|split; [|split; [|split]]]].
  - unfold bitmask_init. set (n := Z.to_nat (BITS_TO_WORDS num_bits)).
    destruct (Nat.leb_spec n (length ws)) as [Hle|]; [|lia]. eexists. split; [reflexivity|]. split; [|split].
    + apply Forall_app. split; [apply Forall_replicate; split; lia|by apply Forall_drop].
    + rewrite length_app, length_replicate, length_drop. lia.
    + intros i Hi. unfold bit_at. destruct (Z.ltb_spec i (32 * BITS_TO_WORDS num_bits)) as [Hlt|Hge].
      * assert (i / 32 < BITS_TO_WORDS num_bits) by (apply Z.div_lt_upper_bound; lia).
        assert (0 <= i / 32) by (apply Z.div_pos; lia).
        rewrite lookup_app_l by (rewrite length_replicate; lia). rewrite lookup_replicate_2 by lia. apply Z.bits_0.
      * assert (BITS_TO_WORDS num_bits <= i / 32) by (apply Z.div_le_lower_bound; lia).
        rewrite lookup_app_r by (rewrite length_replicate; lia). rewrite length_replicate, lookup_drop.
        by replace (n + (Z.to_nat (i / 32) - n))%nat with (Z.to_nat (i / 32)) by lia.
  - apply (bitmask_update ws bit (fun word => word .| BIT_MASK bit) orb); [exact Hw|exact Hbit| | |done]; rewrite Hmask.
    + intros x Hx. by apply is_word_lor.
    + intros x k Hx Hk. rewrite Z.lor_spec, Z.pow2_bits_eqb, orb_comm by lia. f_equal. apply eq_bool_prop_intro.
      rewrite bool_decide_spec, Is_true_true, Z.eqb_eq. done.
  - apply (bitmask_update ws bit (fun word => word .& u32 (Z.lnot (BIT_MASK bit))) (fun c d => negb c && d));
      [exact Hw|exact Hbit| | |done]; rewrite Hmask.
    + intros x Hx. by apply is_word_land.
    + intros x k Hx Hk. rewrite Z.land_spec, u32_mod, lnot_testbit, Z.pow2_bits_eqb, andb_comm by lia. do 2 f_equal.
      apply eq_bool_prop_intro. rewrite bool_decide_spec, Is_true_true, Z.eqb_eq. done.
  - destruct (mask_word ws bit Hw Hbit) as (x & Hx & Hxw & Hxb & _). unfold bitmask_test, BIT_WORD, BITS_PER_WORD.
    rewrite Hx. cbn [mbind option_bind]. rewrite Hmask, Hxb. f_equal. apply eq_bool_prop_intro.
    rewrite !Is_true_true, negb_true_iff, Z.eqb_neq. apply land_pow2_nonzero. lia.
  - apply bitmask_ffz_from_correct; [exact Hw|lia|lia|]. intros j Hj. lia.
  - unfold bitmask_weight. rewrite bitmask_weight_from_correct by (done || lia). rewrite Z2Nat.id by lia. done.
Qed.

(** The example of the header: 40 resources, the first 33 taken. *)
Lemma bitmask_correct_witness :
  bitmask_ffz [0xffffffff; 1] 40 = Some 33 /\ bitmask_weight [0xffffffff; 1] 40 = Some 33
  /\ exists ws, bitmask_set [0xffffffff; 1] 33 = Some ws /\ words 32 ws.
Proof.
  destruct (bitmask_correct [0xffffffff; 1] 40 33) as (_ & (ws & Hs & Hws & _) & _ & _ & (r & Hr & _) & Hw).
  - repeat constructor; done.
  - done.
  - done.
  - done.
  - split; [rewrite Hr; by vm_compute in Hr; inversion Hr|]. split; [rewrite Hw; by vm_compute|]. exists ws. by split.
Defined.
