(* ===== verification/StrongPointer.v ===== *)
(** * Counted references: utils/StrongPointer.h and LightRefBase of utils/RefBase.h

    An object of a class with LightRefBase counts the [sp] variables that point
    to it and is deleted when the last of them lets go of it.  The objects are
    at addresses, each with its [mCount].  A variable is local, or a member of
    an object: it has a number and its owner, and it is in the state from its
    constructor to its destructor.  A local variable is destroyed by the
    program, a member by the destructor of its object, which [delete] runs; so
    one [decStrong] can delete a whole structure of objects.  Of an object's
    destructor only that is modelled: what the class does besides is not in the
    headers. *)
From S2P Require Import Prelude Linked.

(** ** State *)

Definition var : Type := option ptr * nat.

(** The object a variable is a member of. *)
Definition owner (x : var) : option ptr := x.1.

Record refs := { objects : gmap ptr Z; pointers : gmap var (option ptr) }.

#[local] Abbreviation M := (ST refs).

Definition set_object (p : ptr) (mCount : Z) : M unit := modify (fun s =>
  {| objects := <[p := mCount]> (objects s); pointers := pointers s |}).
Definition delete_object (p : ptr) : M unit := modify (fun s =>
  {| objects := delete p (objects s); pointers := pointers s |}).

(** A constructor gives a new variable its member; afterwards the member is
    read and written only while the variable is there. *)
Definition init_m_ptr (x : var) (m_ptr : option ptr) : M unit := modify (fun s =>
  {| objects := objects s; pointers := <[x := m_ptr]> (pointers s) |}).
Definition set_m_ptr (x : var) (m_ptr : option ptr) : M unit := fun s =>
  _ ← pointers s !! x; Some (tt, {| objects := objects s; pointers := <[x := m_ptr]> (pointers s) |}).
Definition m_ptr (x : var) : M (option ptr) := fun s => m ← pointers s !! x; Some (m, s).
Definition end_of_life (x : var) : M unit := modify (fun s =>
  {| objects := objects s; pointers := delete x (pointers s) |}).

(** The count of an object that is there. *)
Definition mCount (p : ptr) : M Z := fun s => c ← objects s !! p; Some (c, s).

(** The members of an object that are [sp] variables, in the order in which a
    destructor destroys them: the last declared first. *)
Definition members (p : ptr) (m : gmap var (option ptr)) : list var :=
  reverse ((Some p,.) <$> merge_sort le (snd <$> filter (fun x => owner x = Some p) (elements (dom m)))).

(** ** LightRefBase *)

(** The object of a [new] expression. *)
Definition LightRefBase (p : ptr) : M unit := set_object p 0.

Definition incStrong (p : ptr) : M unit := count ← mCount p; set_object p (s32 (count + 1)).

(** The destructor of a member calls [decStrong] again; [n] bounds how deep. *)
Fixpoint decStrong_within (n : nat) (p : ptr) : M unit :=
  match n with
  | O => lift None
  | S n =>
    count ← mCount p;
    _ ← set_object p (s32 (count - 1));
    if count =? 1 then
      fields ← gets (fun s => members p (pointers s));
      _ ← for_each (fun x =>
            q ← m_ptr x;
            _ ← (match q with Some q => decStrong_within n q | None => mret tt end);
            end_of_life x) fields;
      delete_object p
    else mret tt
  end.

(** No more objects are deleted than there are. *)
Definition decStrong (p : ptr) : M unit := fun s => decStrong_within (S (size (objects s))) p s.

Definition getStrongCount (p : ptr) : M Z := mCount p.

(** [if (p) p->incStrong(this);] and [if (p) p->decStrong(this);] *)
Definition inc_if (p : option ptr) : M unit := match p with Some p => incStrong p | None => mret tt end.
Definition dec_if (p : option ptr) : M unit := match p with Some p => decStrong p | None => mret tt end.

(** ** sp *)

Definition sp (x : var) : M unit := init_m_ptr x None.
Definition sp_from (x : var) (other : option ptr) : M unit := _ ← init_m_ptr x other; inc_if other.
Definition sp_copy (x other : var) : M unit := p ← m_ptr other; _ ← init_m_ptr x p; inc_if p.
Definition sp_move (x other : var) : M unit := p ← m_ptr other; _ ← init_m_ptr x p; set_m_ptr other None.
Definition sp_destructor (x : var) : M unit := p ← m_ptr x; _ ← dec_if p; end_of_life x.

Definition assign (x other : var) : M unit :=
  otherPtr ← m_ptr other;
  _ ← inc_if otherPtr;
  p ← m_ptr x;
  _ ← dec_if p;
  set_m_ptr x otherPtr.

Definition assign_move (x other : var) : M unit :=
  p ← m_ptr x;
  _ ← dec_if p;
  p ← m_ptr other;
  _ ← set_m_ptr x p;
  set_m_ptr other None.

Definition assign_from (x : var) (other : option ptr) : M unit :=
  _ ← inc_if other;
  p ← m_ptr x;
  _ ← dec_if p;
  set_m_ptr x other.

Definition clear (x : var) : M unit :=
  p ← m_ptr x;
  match p with
  | Some p => _ ← decStrong p; set_m_ptr x None
  | None => mret tt
  end.

Definition get (x : var) : M (option ptr) := m_ptr x.

(** ** Operations *)

Inductive operation :=
| New (p : ptr)
| Default (x : var)
| From (x : var) (other : option ptr)
| Copy (x other : var)
| Move (x other : var)
| Destroy (x : var)
| Assign (x other : var)
| AssignMove (x other : var)
| AssignFrom (x : var) (other : option ptr)
| Clear (x : var).

Definition perform (o : operation) : M unit :=
  match o with
  | New p => LightRefBase p
  | Default x => sp x
  | From x other => sp_from x other
  | Copy x other => sp_copy x other
  | Move x other => sp_move x other
  | Destroy x => sp_destructor x
  | Assign x other => assign x other
  | AssignMove x other => assign_move x other
  | AssignFrom x other => assign_from x other
  | Clear x => clear x
  end.

(** * Specification *)

(** How many of the variables point to [p]. *)
Definition pointing (m : gmap var (option ptr)) (p : ptr) : Z :=
  Z.of_nat (size (filter (fun xq => xq.2 = Some p) m)).

(** The members of the variables afterwards. *)
Definition value (m : gmap var (option ptr)) (x : var) : option ptr := m !! x ≫= id.

Definition pointers_after (o : operation) (m : gmap var (option ptr)) : gmap var (option ptr) :=
  match o with
  | New _ => m
  | Default x => <[x := None]> m
  | From x other | AssignFrom x other => <[x := other]> m
  | Copy x other | Assign x other => <[x := value m other]> m
  | Move x other | AssignMove x other => <[other := None]> (<[x := value m other]> m)
  | Destroy x => delete x m
  | Clear x => <[x := None]> m
  end.

(** The variables that count while the operation lets go of a pointer: a move
    assignment lets go before it reads the other variable. *)
Definition released (o : operation) (m : gmap var (option ptr)) : gmap var (option ptr) :=
  match o with AssignMove x _ => <[x := None]> m | _ => pointers_after o m end.

Definition created (o : operation) : gset ptr := match o with New p => {[p]} | _ => ∅ end.

(** The objects that go: those that had a pointer and have none any more but
    from members of objects that go. *)
Inductive freed (before after : gmap var (option ptr)) : ptr -> Prop :=
| Freed p :
    0 < pointing before p ->
    (forall y, after !! y = Some (Some p) -> exists q, owner y = Some q /\ freed before after q) ->
    freed before after p.

(** A variable that is not a member of one of these objects, and the variables
    that are not. *)
Definition alive (K : gset ptr) (y : var) : Prop := forall q, owner y = Some q -> q ∉ K.

#[export] Instance alive_dec K y : Decision (alive K y).
Proof.
  refine (match owner y as o return owner y = o -> _ with
          | Some q => fun E => cast_if_not (decide (q ∈ K))
          | None => fun E => left _
          end eq_refl); unfold alive; rewrite E; naive_solver.
Defined.

Definition remove (K : gset ptr) (m : gmap var (option ptr)) : gmap var (option ptr) :=
  filter (fun yv => alive K yv.1) m.

(** What the program can get at from its local variables. *)
Inductive reached (m : gmap var (option ptr)) : ptr -> Prop :=
| Reached_local y p : m !! y = Some (Some p) -> owner y = None -> reached m p
| Reached_member y q p : m !! y = Some (Some p) -> owner y = Some q -> reached m q -> reached m p.

(** What C++ asks of the operation: a constructor is for a new variable, of an
    object that is there if it is a member, the program destroys local
    variables only, other operations are for a variable that is there, a
    pointer is to an object that is there, and [new] gives a new address. *)
Definition placed (x : var) (s : refs) : Prop :=
  x ∉ dom (pointers s) /\ forall p, owner x = Some p -> p ∈ dom (objects s).

Definition permitted (o : operation) (s : refs) : Prop :=
  match o with
  | New p => p ∉ dom (objects s)
  | Default x => placed x s
  | From x other => placed x s /\ forall p, other = Some p -> p ∈ dom (objects s)
  | Copy x other | Move x other => placed x s /\ other ∈ dom (pointers s)
  | Destroy x => x ∈ dom (pointers s) /\ owner x = None
  | Clear x => x ∈ dom (pointers s)
  | Assign x other | AssignMove x other => x ∈ dom (pointers s) /\ other ∈ dom (pointers s)
  | AssignFrom x other => x ∈ dom (pointers s) /\ forall p, other = Some p -> p ∈ dom (objects s)
  end.

(** The variable that is assigned. *)
Definition assigned (o : operation) : option var :=
  match o with Assign x _ | AssignMove x _ | AssignFrom x _ | Clear x => Some x | _ => None end.

(** A variable whose object the operation itself deletes. *)
Definition outlived (o : operation) (m : gmap var (option ptr)) (x : var) : Prop :=
  exists p, owner x = Some p /\ freed m (released o m) p.

(** The variable a move assignment takes from. *)
Definition taken (o : operation) : option var := match o with AssignMove _ other => Some other | _ => None end.

(** The counts are [f], and objects that are not there have no count. *)
Definition counted (objs : gmap ptr Z) (f : ptr -> Z) : Prop :=
  forall p, match objs !! p with Some c => c = f p | None => f p = 0 end.

(** Every count is the number of the variables that point to the object, these
    point to objects that are there, and members are of objects that are. *)
Definition consistent (s : refs) : Prop :=
  counted (objects s) (pointing (pointers s))
  /\ forall x p, x ∈ dom (pointers s) -> owner x = Some p -> p ∈ dom (objects s).

(** * Counting *)

Definition here (q : option ptr) (p : ptr) : Z := if decide (q = Some p) then 1 else 0.

Lemma pointing_insert m x q p : m !! x = None -> pointing (<[x := q]> m) p = pointing m p + here q p.
Proof.
  intros Hx. unfold pointing, here. case_decide as E.
  - rewrite map_filter_insert_True by done. rewrite map_size_insert_None; [lia|]. apply map_lookup_filter_None. by left.
  - rewrite map_filter_insert_False by done. rewrite delete_id by done. lia.
Qed.

Lemma pointing_delete m x q p : m !! x = Some q -> pointing (delete x m) p = pointing m p - here q p.
Proof.
  intros Hx. pose proof (pointing_insert (delete x m) x q p (lookup_delete_eq m x)) as H.
  rewrite insert_delete_id in H by done. lia.
Qed.

Lemma pointing_update m x q q' p : m !! x = Some q -> pointing (<[x := q']> m) p = pointing m p - here q p + here q' p.
Proof.
  intros Hx. rewrite <- insert_delete_eq, pointing_insert by apply lookup_delete_eq. by rewrite (pointing_delete m x q).
Qed.

Lemma pointing_bounds m p : 0 <= pointing m p <= Z.of_nat (size m).
Proof. unfold pointing. pose proof (map_size_filter (fun xq => xq.2 = Some p) m). lia. Qed.

Lemma pointing_here m x q p : m !! x = Some q -> here q p <= pointing m p.
Proof. intros Hx. pose proof (pointing_delete m x q p Hx). pose proof (pointing_bounds (delete x m) p). lia. Qed.

Lemma here_none p : here None p = 0.
Proof. unfold here. by rewrite decide_False. Qed.

Lemma here_range q p : 0 <= here q p <= 1.
Proof. unfold here. case_decide; lia. Qed.

(** ** Counting up *)

Lemma inc_if_correct s q f :
  counted (objects s) f -> (forall p, q = Some p -> p ∈ dom (objects s)) -> (forall p, 0 <= f p < 2 ^ 31 - 1) ->
  exists s', inc_if q s = Some (tt, s') /\ pointers s' = pointers s /\ counted (objects s') (fun p => f p + here q p)
    /\ dom (objects s') = dom (objects s).
Proof.
  intros Hc Hq Hf. destruct q as [p|]; cbn [inc_if].
  - specialize (Hq p eq_refl). apply elem_of_dom in Hq as [c Ec]. unfold incStrong.
    rewrite (bind_some _ _ s c s) by (unfold mCount; by rewrite Ec). eexists. split; [reflexivity|]. split; [done|].
    assert (c = f p) as -> by (specialize (Hc p); by rewrite Ec in Hc).
    split; [|cbn; rewrite dom_insert_L; apply elem_of_dom_2 in Ec; set_solver].
    intros p'. cbn [objects]. specialize (Hc p'). unfold here. destruct (decide (p = p')) as [<-|Hne].
    + rewrite lookup_insert_eq, decide_True by done. apply s32_small. pose proof (Hf p). lia.
    + rewrite lookup_insert_ne, decide_False by congruence. destruct (objects s !! p'); lia.
  - exists s. split; [done|]. split; [done|]. split; [|done]. intros p. specialize (Hc p). rewrite here_none. destruct (objects s !! p); lia.
Qed.

Lemma counted_ext objs f g : counted objs f -> (forall p, f p = g p) -> counted objs g.
Proof. intros H E p. rewrite <- E. apply H. Qed.

Lemma m_ptr_eq s x q : pointers s !! x = Some q -> m_ptr x s = Some (q, s).
Proof. intros E. unfold m_ptr. by rewrite E. Qed.

Lemma value_eq m x q : m !! x = Some q -> value m x = q.
Proof. intros E. unfold value. by rewrite E. Qed.

(** What a pointer of a variable points to is there. *)
Lemma pointing_there s x q p : consistent s -> pointers s !! x = Some q -> q = Some p -> p ∈ dom (objects s).
Proof.
  intros [Hc _] Hx ->. specialize (Hc p). apply elem_of_dom. destruct (objects s !! p) as [c|]; [by eexists|].
  pose proof (pointing_here _ x _ p Hx) as H. unfold here in H. rewrite decide_True in H by done. lia.
Qed.

(** A pointer is counted, and what is counted has a pointer. *)
Lemma pointing_positive m p : 0 < pointing m p <-> exists y, m !! y = Some (Some p).
Proof.
  split.
  - unfold pointing. intros H.
    destruct (map_choose (filter (fun xq => xq.2 = Some p) m)) as (y & q & Hy).
    { intros E. rewrite E, map_size_empty in H. lia. }
    apply map_lookup_filter_Some in Hy as [Hy Hq]. cbn in Hq. subst q. by exists y.
  - intros [y Hy]. pose proof (pointing_here m y _ p Hy) as H. unfold here in H. rewrite decide_True in H by done. lia.
Qed.

Lemma pointing_subseteq m m' p : m ⊆ m' -> pointing m p <= pointing m' p.
Proof. intros H. unfold pointing. apply Nat2Z.inj_le, map_subseteq_size, map_filter_subseteq_mono. intros i. specialize (H i). exact H. Qed.

(** ** Variables that go *)

Definition without (l : list var) (m : gmap var (option ptr)) : gmap var (option ptr) := filter (fun yv => yv.1 ∉ l) m.

Lemma remove_some K m y v : remove K m !! y = Some v <-> m !! y = Some v /\ alive K y.
Proof. unfold remove. by rewrite map_lookup_filter_Some. Qed.

Lemma without_some l m y v : without l m !! y = Some v <-> m !! y = Some v /\ y ∉ l.
Proof. unfold without. by rewrite map_lookup_filter_Some. Qed.

Lemma map_eq_some {V} (m m' : gmap var V) : (forall y v, m !! y = Some v <-> m' !! y = Some v) -> m = m'.
Proof. intros H. apply map_eq. intros y. apply option_eq, H. Qed.

Lemma alive_union K K' y : alive (K ∪ K') y <-> alive K y /\ alive K' y.
Proof. unfold alive. set_solver. Qed.

Lemma alive_empty y : alive ∅ y.
Proof. unfold alive. set_solver. Qed.

Lemma remove_empty m : remove ∅ m = m.
Proof. apply map_eq_some. intros y v. rewrite remove_some. pose proof (alive_empty y). tauto. Qed.

Lemma remove_remove K K' m : remove K (remove K' m) = remove (K' ∪ K) m.
Proof. apply map_eq_some. intros y v. rewrite !remove_some, alive_union. tauto. Qed.

Lemma remove_delete K x m : remove K (delete x m) = delete x (remove K m).
Proof. apply map_filter_delete. Qed.

Lemma remove_insert K x v m : alive K x -> remove K (<[x := v]> m) = <[x := v]> (remove K m).
Proof. intros H. by apply map_filter_insert_True. Qed.

Lemma remove_subseteq K m : remove K m ⊆ m.
Proof. apply map_filter_subseteq. Qed.

Lemma without_nil m : without [] m = m.
Proof. apply map_eq_some. intros y v. rewrite without_some. set_solver. Qed.

Lemma without_cons x l m : without (x :: l) m = without l (delete x m).
Proof. apply map_eq_some. intros y v. rewrite !without_some, lookup_delete_Some, not_elem_of_cons. naive_solver. Qed.

Lemma without_remove l K m : without l (remove K m) = remove K (without l m).
Proof. apply map_eq_some. intros y v. rewrite remove_some, !without_some, remove_some. tauto. Qed.

Lemma elem_of_members p m x : x ∈ members p m <-> owner x = Some p /\ x ∈ dom m.
Proof.
  unfold members. rewrite elem_of_reverse, list_elem_of_fmap. split.
  - intros (k & -> & Hk). rewrite merge_sort_Permutation in Hk. apply list_elem_of_fmap in Hk as ([o k'] & -> & Hk).
    apply list_elem_of_filter in Hk as [Ho Hk]. cbn in Ho. subst o. split; [done|]. by apply elem_of_elements.
  - intros [Ho Hx]. destruct x as [o k]. cbn in Ho. subst o. exists k. split; [done|].
    rewrite merge_sort_Permutation. apply list_elem_of_fmap. exists (Some p, k). split; [done|].
    apply list_elem_of_filter. split; [done|]. by apply elem_of_elements.
Qed.

Lemma members_NoDup p m : NoDup (members p m).
Proof.
  unfold members. rewrite reverse_Permutation. apply NoDup_fmap_2; [intros ? ? [=]; done|].
  rewrite merge_sort_Permutation. apply NoDup_fmap_2_strong; [|apply NoDup_filter, NoDup_elements].
  intros [o k] [o' k'] [Ho _]%list_elem_of_filter [Ho' _]%list_elem_of_filter E. cbn in *. congruence.
Qed.

(** * Letting go

    [decStrong] on one object of a state in which the variables of [L] count,
    and [q] counts once more.  [F] are the objects that may go, [A] the
    variables that count at the start and [f0] bounds the counts. *)
Definition live_count (objs : gmap ptr Z) : nat := size (dom (filter (fun pc => 0 < pc.2) objs) : gset ptr).

Lemma live_count_elem objs g p : counted objs g -> p ∈ (dom (filter (fun pc => 0 < pc.2) objs) : gset ptr) <-> 0 < g p.
Proof.
  intros Hc. specialize (Hc p). rewrite elem_of_dom. split.
  - intros [c [E H]%map_lookup_filter_Some]. rewrite E in Hc. by subst c.
  - intros H. destruct (objs !! p) as [c|] eqn:E; [subst c|lia].
    exists (g p). by apply map_lookup_filter_Some.
Qed.

Lemma live_count_le objs objs' g g' :
  counted objs g -> counted objs' g' -> (forall p, g' p <= g p) -> (live_count objs' <= live_count objs)%nat.
Proof.
  intros H H' Hle. unfold live_count. apply (subseteq_size (C:=gset ptr)). intros p. rewrite (live_count_elem objs' g'), (live_count_elem objs g) by done.
  specialize (Hle p). lia.
Qed.

Lemma live_count_lt objs objs' g g' p :
  counted objs g -> counted objs' g' -> (forall p, g' p <= g p) -> 0 < g p -> g' p = 0 ->
  (live_count objs' < live_count objs)%nat.
Proof.
  intros H H' Hle Hp Hp'. unfold live_count. apply (subset_size (C:=gset ptr)). split.
  - intros p'. rewrite (live_count_elem objs' g'), (live_count_elem objs g) by done. specialize (Hle p'). lia.
  - intros Hs. specialize (Hs p). rewrite (live_count_elem objs' g'), (live_count_elem objs g) in Hs by done. lia.
Qed.

Section LettingGo.
Context (F : ptr -> Prop) (A : gmap var (option ptr)) (f0 : ptr -> Z).
Context (closed : forall p, 0 < f0 p -> (forall y, A !! y = Some (Some p) -> exists q, owner y = Some q /\ F q) -> F p).
Context (small : forall p, f0 p < 2 ^ 31).

Definition counting (L : gmap var (option ptr)) (q : option ptr) (p : ptr) : Z := pointing L p + here q p.

Record before (s : refs) (L : gmap var (option ptr)) (q : option ptr) : Prop := {
  before_counted : counted (objects s) (counting L q);
  before_bound p : counting L q p <= f0 p;
  before_agree y p : owner y = Some p -> F p -> 0 < counting L q p -> L !! y = pointers s !! y;
  before_live y v : A !! y = Some v -> L !! y = Some v \/ exists p, owner y = Some p /\ F p }.

(** The objects [K] have gone, with their members; [m] and [L] are the
    variables of before and [g] the counts. *)
Record afterwards (s : refs) (m L : gmap var (option ptr)) (g : ptr -> Z) (s' : refs) (K : gset ptr) : Prop := {
  after_dom : dom (objects s') = dom (objects s) ∖ K;
  after_pointers : pointers s' = remove K m;
  after_counted : counted (objects s') (pointing (remove K L));
  after_gone p : p ∈ K -> F p /\ 0 < g p;
  after_kept p : p ∉ K -> 0 < g p -> 0 < pointing (remove K L) p }.

(** What is to be shown of [decStrong_within n]. *)
Definition lets_go (n : nat) (dec : option ptr -> M unit) : Prop := forall s L q,
  before s L q -> (live_count (objects s) <= n)%nat ->
  exists s' K, dec q s = Some (tt, s') /\ afterwards s (pointers s) L (counting L q) s' K.

Lemma counting_none L p : counting L None p = pointing L p.
Proof. unfold counting. rewrite here_none. lia. Qed.

Lemma afterwards_none s L : before s L None -> afterwards s (pointers s) L (counting L None) s ∅.
Proof.
  intros [Hc _ _ _]. split; rewrite ?remove_empty.
  - set_solver.
  - done.
  - eapply counted_ext; [exact Hc|]. intros p. apply counting_none.
  - set_solver.
  - intros p _. by rewrite counting_none.
Qed.

(** The members of an object whose count is gone, one after the other. *)
Lemma destroy_members n dec p l : lets_go n dec -> F p -> NoDup l ->
  forall s L, (forall x, x ∈ l -> owner x = Some p /\ x ∈ dom (pointers s) /\ L !! x = pointers s !! x) ->
  before s L None -> pointing L p = 0 -> (live_count (objects s) <= n)%nat ->
  exists s' K, for_each (fun x => q ← m_ptr x; _ ← dec q; end_of_life x) l s = Some (tt, s')
    /\ afterwards s (without l (pointers s)) (without l L) (pointing L) s' K.
Proof.
  intros Hdec HF. induction 1 as [|x l Hx _ IH]; intros s L Hl Hb Hp Hn.
  { exists s, ∅. split; [done|]. rewrite !without_nil. destruct (afterwards_none _ _ Hb) as [? ? ? ? Hk].
    split; [done..|set_solver|]. intros p' Hp' H. apply Hk; [done|]. by rewrite counting_none. }
  destruct (Hl x ltac:(left)) as (Hox & [q Hq]%elem_of_dom & HLx). rewrite Hq in HLx. pose proof Hb as [Hc Hle Hag Hlv].
  assert (forall p', counting (delete x L) q p' = pointing L p') as Hcount.
  { intros p'. unfold counting. rewrite (pointing_delete _ _ q) by done. lia. }
  destruct (Hdec s (delete x L) q) as (s1 & K1 & E1 & [Hd1 Hp1 Hc1 Hg1 Hk1]).
  { split.
    - eapply counted_ext; [exact Hc|]. intros p'. by rewrite Hcount, counting_none.
    - intros p'. rewrite Hcount, <- counting_none. apply Hle.
    - intros y p' Hy HF' H. rewrite Hcount in H. rewrite lookup_delete_ne by (intros <-; rewrite Hox in Hy; injection Hy as <-; lia).
      apply (Hag y p'); [done..|]. by rewrite counting_none.
    - intros y v Hy. destruct (decide (x = y)) as [<-|Hne]; [right; by exists p|]. rewrite lookup_delete_ne by done. by apply Hlv. }
  { done. }
  assert (p ∉ K1) as HpK by (intros H%Hg1; rewrite Hcount in H; lia).
  assert (forall y, owner y = Some p -> alive K1 y) as Hal by (intros y Hy q' Hq'; congruence).
  set (s2 := {| objects := objects s1; pointers := delete x (pointers s1) |}).
  assert (forall p', pointing (remove K1 (delete x L)) p' <= pointing L p') as Hmono.
  { intros p'. rewrite <- Hcount. etransitivity; [apply pointing_subseteq, remove_subseteq|]. unfold counting. pose proof (here_range q p'). lia. }
  destruct (IH s2 (remove K1 (delete x L))) as (s' & K2 & E2 & [Hd2 Hp2 Hc2 Hg2 Hk2]).
  { intros y Hy. destruct (Hl y ltac:(by right)) as (Hoy & Hdy & HLy).
    assert (x <> y) as Hne by (intros <-; done). split; [done|]. cbn [pointers s2]. rewrite Hp1.
    assert (forall m, remove K1 m !! y = m !! y) as Hr.
    { intros m. apply option_eq. intros v. rewrite remove_some. pose proof (Hal y Hoy). tauto. }
    rewrite elem_of_dom, lookup_delete_ne, !Hr, lookup_delete_ne by done. split; [by apply elem_of_dom|done]. }
  { split.
    - eapply counted_ext; [exact Hc1|]. intros p'. by rewrite counting_none.
    - intros p'. rewrite counting_none. etransitivity; [apply Hmono|]. rewrite <- counting_none. apply Hle.
    - intros y p' Hy HF' H. rewrite counting_none in H. cbn [pointers s2]. rewrite Hp1. specialize (Hmono p').
      assert (x <> y) as Hne by (intros <-; rewrite Hox in Hy; injection Hy as <-; lia).
      rewrite lookup_delete_ne by done. apply option_eq. intros v. rewrite !remove_some, lookup_delete_ne by done.
      rewrite (Hag y p'); [done..|]. rewrite counting_none. lia.
    - intros y v Hy. destruct (Hlv y v Hy) as [H|H]; [|by right]. destruct (decide (x = y)) as [<-|Hne]; [right; by exists p|].
      destruct (decide (alive K1 y)) as [Ha|Ha]; [left; apply remove_some; by rewrite lookup_delete_ne|right].
      destruct (owner y) as [q'|] eqn:Eo; [|destruct Ha; intros ? ?; congruence]. exists q'. split; [done|]. apply Hg1.
      apply dec_stable. intros Hq'. apply Ha. intros ? ?. congruence. }
  { specialize (Hmono p). pose proof (pointing_bounds (remove K1 (delete x L)) p). lia. }
  { etransitivity; [|exact Hn]. eapply live_count_le; [exact Hc|exact Hc1|]. intros p'. rewrite counting_none. apply Hmono. }
  exists s', (K1 ∪ K2). split.
  { cbn [for_each]. rewrite (bind_some _ _ s tt s2); [exact E2|].
    rewrite (bind_some _ _ s q s) by (unfold m_ptr; by rewrite Hq). by rewrite (bind_some _ _ _ _ _ E1). }
  split.
  - rewrite Hd2. cbn [objects s2]. rewrite Hd1. set_solver.
  - rewrite Hp2. cbn [pointers s2]. by rewrite Hp1, without_cons, <- remove_delete, without_remove, remove_remove.
  - eapply counted_ext; [exact Hc2|]. intros p'. by rewrite without_cons, without_remove, remove_remove.
  - intros p' [H|H]%elem_of_union.
    + destruct (Hg1 p' H) as [HF' H']. by rewrite Hcount in H'.
    + destruct (Hg2 p' H) as [HF' H']. specialize (Hmono p'). split; [done|lia].
  - intros p' Hp' H. rewrite without_cons, <- remove_remove, <- without_remove. apply Hk2; [set_solver|].
    apply Hk1; [set_solver|]. by rewrite Hcount.
Qed.

Definition dec_within (n : nat) (q : option ptr) : M unit :=
  match q with Some q => decStrong_within n q | None => mret tt end.

(** The count of [p] is one less. *)
Lemma counted_less s L p :
  counted (objects s) (counting L (Some p)) -> (forall p', counting L (Some p) p' < 2 ^ 31) ->
  objects s !! p = Some (pointing L p + 1)
  /\ counted (<[p := s32 (pointing L p + 1 - 1)]> (objects s)) (pointing L).
Proof.
  intros Hc Hb. assert (here (Some p) p = 1) as Hp by (unfold here; by rewrite decide_True).
  pose proof (pointing_bounds L p) as Hlo. specialize (Hb p). unfold counting in Hb. rewrite Hp in Hb. split.
  - specialize (Hc p). unfold counting in Hc. rewrite Hp in Hc. destruct (objects s !! p) as [c|]; [by subst c|lia].
  - intros p'. destruct (decide (p = p')) as [<-|Hne].
    + rewrite lookup_insert_eq. rewrite s32_small; lia.
    + rewrite lookup_insert_ne by done. specialize (Hc p'). unfold counting, here in Hc. rewrite decide_False in Hc by congruence.
      destruct (objects s !! p'); lia.
Qed.

(** The members of an object that may go are those of [L]. *)
Lemma without_members s L p :
  (forall y, owner y = Some p -> L !! y = pointers s !! y) ->
  forall m, (m = L \/ m = pointers s) -> without (members p (pointers s)) m = remove {[p]} m.
Proof.
  intros Hag m Hm. apply map_eq_some. intros y v. rewrite without_some, remove_some, elem_of_members, elem_of_dom.
  assert (alive {[p]} y <-> owner y <> Some p) as -> by (unfold alive; set_solver).
  split; intros [Hy Hn]; (split; [done|]); [|tauto]. intros Ho. apply Hn. split; [done|].
  specialize (Hag y Ho). exists v. destruct Hm as [-> | ->]; congruence.
Qed.

Lemma decStrong_lets_go n : lets_go n (dec_within (S n)).
Proof.
  induction n as [n IH] using lt_wf_ind. intros s L [p|] Hb Hn; [|exists s, ∅; split; [done|by apply afterwards_none]].
  pose proof Hb as [Hc Hle Hag Hlv].
  destruct (counted_less s L p Hc) as [Ep Hc0]; [intros p'; specialize (Hle p'); specialize (small p'); lia|].
  assert (forall p', p' <> p -> counting L (Some p) p' = pointing L p') as Hother.
  { intros p' Hne. unfold counting, here. rewrite decide_False by congruence. lia. }
  assert (counting L (Some p) p = pointing L p + 1) as Hself by (unfold counting, here; by rewrite decide_True).
  set (s0 := {| objects := <[p := s32 (pointing L p + 1 - 1)]> (objects s); pointers := pointers s |}).
  assert (dom (objects s0) = dom (objects s)) as Hd0.
  { cbn [objects s0]. rewrite dom_insert_L. apply elem_of_dom_2 in Ep. set_solver. }
  cbn [dec_within]. cbn [decStrong_within]. rewrite (bind_some _ _ s (pointing L p + 1) s) by (unfold mCount; by rewrite Ep).
  rewrite (bind_some _ _ s tt s0) by done. pose proof (pointing_bounds L p) as [Hlo _].
  destruct (Z.eqb_spec (pointing L p + 1) 1) as [E1|E1].
  2:{ exists s0, ∅. split; [done|]. split; rewrite ?remove_empty; [rewrite Hd0; set_solver|done|done|set_solver|].
      intros p' _ H. destruct (decide (p' = p)) as [->|Hne]; [lia|by rewrite <- Hother]. }
  assert (pointing L p = 0) as H0 by lia.
  assert (F p) as HF.
  { apply closed; [specialize (Hle p); lia|]. intros y [Hy|H]%Hlv; [|done].
    assert (0 < pointing L p) by (apply pointing_positive; by exists y). lia. }
  assert (forall p', pointing L p' <= counting L (Some p) p') as Hcl by (intros p'; unfold counting; pose proof (here_range (Some p) p'); lia).
  destruct n as [|n].
  { exfalso. assert (live_count (objects s0) < live_count (objects s))%nat; [|lia].
    apply (live_count_lt _ _ _ _ p Hc Hc0); [exact Hcl|lia|done]. }
  assert (forall y, owner y = Some p -> L !! y = pointers s !! y) as HLp by (intros y Hy; apply (Hag y p); [done..|lia]).
  destruct (destroy_members n (dec_within (S n)) p (members p (pointers s)) (IH n (Nat.lt_succ_diag_r n)) HF (members_NoDup _ _) s0 L)
    as (s1 & K & E & [Hd1 Hp1 Hc1 Hg1 Hk1]).
  { intros x [Ho Hx]%elem_of_members. split; [done|]. split; [done|]. by apply HLp. }
  { split.
    - eapply counted_ext; [exact Hc0|]. intros p'. by rewrite counting_none.
    - intros p'. rewrite counting_none. specialize (Hle p'). specialize (Hcl p'). lia.
    - intros y p' Hy HF' H. rewrite counting_none in H. apply (Hag y p'); [done..|]. specialize (Hcl p'). lia.
    - exact Hlv. }
  { done. }
  { assert (live_count (objects s0) < live_count (objects s))%nat; [|lia].
    apply (live_count_lt _ _ _ _ p Hc Hc0); [exact Hcl|lia|done]. }
  rewrite !(without_members s L p HLp) in * by auto. cbn [pointers s0] in Hp1. rewrite remove_remove in Hp1, Hc1.
  exists {| objects := delete p (objects s1); pointers := pointers s1 |}, ({[p]} ∪ K). split.
  { rewrite (bind_some _ _ s0 (members p (pointers s)) s0) by done. erewrite bind_some by exact E. done. }
  split.
  - cbn [objects]. rewrite dom_delete_L, Hd1, Hd0. set_solver.
  - exact Hp1.
  - intros p'. cbn [objects]. destruct (decide (p = p')) as [<-|Hne]; [rewrite lookup_delete_eq|rewrite lookup_delete_ne by done; apply Hc1].
    pose proof (pointing_subseteq _ _ p (remove_subseteq ({[p]} ∪ K) L)). pose proof (pointing_bounds (remove ({[p]} ∪ K) L) p). lia.
  - intros p' [->%elem_of_singleton|H%Hg1]%elem_of_union; [split; [done|lia]|]. specialize (Hcl p'). split; [tauto|lia].
  - intros p' Hp' H. rewrite <- remove_remove. apply Hk1; [set_solver|]. rewrite <- Hother; [done|set_solver].
Qed.

(** [decStrong] on any pointer. *)
Lemma dec_if_lets_go s L q : before s L q ->
  exists s' K, dec_if q s = Some (tt, s') /\ afterwards s (pointers s) L (counting L q) s' K.
Proof.
  intros Hb. destruct (decStrong_lets_go (size (objects s)) s L q Hb) as (s' & K & E & H).
  - unfold live_count. rewrite size_dom. apply map_size_filter.
  - exists s', K. split; [|exact H]. by destruct q.
Qed.
End LettingGo.

(** * The operations *)

Lemma freed_induct b a (P : ptr -> Prop) :
  (forall p, 0 < pointing b p ->
    (forall y, a !! y = Some (Some p) -> exists q, owner y = Some q /\ freed b a q /\ P q) -> P p) ->
  forall p, freed b a p -> P p.
Proof.
  intros H. fix IH 2. intros p [p' Hp Hy]. apply H; [exact Hp|]. intros y E.
  destruct (Hy y E) as (q & Ho & Hq). exists q. split; [exact Ho|]. split; [exact Hq|]. apply IH. exact Hq.
Qed.

(** Nothing goes when no pointer does. *)
Lemma freed_none b a p : (forall p, pointing b p <= pointing a p) -> ~ freed b a p.
Proof.
  intros Hle Hp. induction Hp as [p Hp Hy] using freed_induct. specialize (Hle p).
  assert (0 < pointing a p) as [y E]%pointing_positive by lia. by destruct (Hy y E) as (q & _ & _ & []).
Qed.

(** What can be reached stays. *)
Lemma reached_kept b a p : reached a p -> ~ freed b a p.
Proof.
  assert (forall p y, a !! y = Some (Some p) -> freed b a p -> exists q, owner y = Some q /\ freed b a q) as Hinv.
  { intros p' y Hy Hf. destruct Hf as [p' _ H]. exact (H y Hy). }
  induction 1 as [y p Hy Ho|y q p Hy Ho _ IH]; intros (r & Hr & Hf)%(Hinv _ y); congruence.
Qed.

(** What an operation promises. *)
Definition performs (o : operation) (s : refs) : Prop :=
  exists K, (forall p, p ∈ K <-> freed (pointers s) (released o (pointers s)) p)
    /\ (forall p, reached (released o (pointers s)) p -> p ∉ K)
    /\ (forall y, taken o = Some y -> ~ alive K y -> perform o s = None)
    /\ ((forall y, taken o = Some y -> alive K y) ->
        exists s', perform o s = Some (tt, s')
          /\ pointers s' = remove K (pointers_after o (pointers s))
          /\ dom (objects s') = (dom (objects s) ∪ created o) ∖ K
          /\ consistent s').

(** An operation that deletes no object. *)
Lemma performs_keeping o s s' :
  perform o s = Some (tt, s') -> pointers s' = pointers_after o (pointers s) -> consistent s' ->
  dom (objects s') = dom (objects s) ∪ created o -> taken o = None ->
  (forall p, pointing (pointers s) p <= pointing (pointers s') p) -> performs o s.
Proof.
  intros E Hp Hc Hd Ht Hle. assert (released o (pointers s) = pointers s') as Hr by (rewrite Hp; by destruct o).
  exists ∅. rewrite Hr. split_and!.
  - intros p. split; [set_solver|]. intros H. by apply freed_none in H.
  - set_solver.
  - by rewrite Ht.
  - intros _. exists s'. rewrite remove_empty. split_and!; [done..| |done]. rewrite Hd. set_solver.
Qed.

Section Operations.
Context (s : refs) (Hs : consistent s) (Hsize : Z.of_nat (size (pointers s)) < 2 ^ 31 - 1).

Lemma bounded p : 0 <= pointing (pointers s) p < 2 ^ 31 - 1.
Proof. pose proof (pointing_bounds (pointers s) p). lia. Qed.

Lemma init_m_ptr_eq s0 x q : init_m_ptr x q s0 = Some (tt, {| objects := objects s0; pointers := <[x := q]> (pointers s0) |}).
Proof. done. Qed.

Lemma set_m_ptr_eq s0 x q : x ∈ dom (pointers s0) ->
  set_m_ptr x q s0 = Some (tt, {| objects := objects s0; pointers := <[x := q]> (pointers s0) |}).
Proof. unfold set_m_ptr. by intros [v ->]%elem_of_dom. Qed.

(** Members of objects that are there, after a construction. *)
Lemma placed_there x q (objs : gmap ptr Z) y p : placed x s -> dom objs = dom (objects s) ->
  y ∈ dom (<[x := q]> (pointers s)) -> owner y = Some p -> p ∈ dom objs.
Proof.
  intros [_ Hx] -> Hy Ho. rewrite dom_insert_L, elem_of_union, elem_of_singleton in Hy.
  destruct Hy as [->|Hy]; [by apply Hx|by apply (proj2 Hs y)].
Qed.

Lemma From_performs x q : permitted (From x q) s -> performs (From x q) s.
Proof.
  intros [Hx Hq]. pose proof Hx as [Hx'%not_elem_of_dom _].
  destruct (inc_if_correct {| objects := objects s; pointers := <[x := q]> (pointers s) |} q _ (proj1 Hs) Hq bounded)
    as (s' & E & Hp & Hc & Hd).
  apply (performs_keeping _ _ s').
  - cbn [perform]. unfold sp_from. by rewrite (bind_some _ _ _ _ _ (init_m_ptr_eq s x q)).
  - exact Hp.
  - split.
    + eapply counted_ext; [exact Hc|]. intros p. rewrite Hp. cbn [pointers]. by rewrite pointing_insert.
    + intros y p. rewrite Hp. cbn [pointers]. by apply placed_there.
  - rewrite Hd. cbn. set_solver.
  - done.
  - intros p. rewrite Hp. cbn [pointers]. rewrite pointing_insert by done. pose proof (here_range q p). lia.
Qed.

(** Letting go of the pointer [q] of [x], when the variables of [A] count. *)
Lemma release x q A s1 :
  pointers s !! x = Some q -> pointers s1 = pointers s -> dom (objects s1) = dom (objects s) ->
  (forall y, y <> x -> A !! y = pointers s !! y) ->
  (forall p, owner x = Some p -> ~ freed (pointers s) A p) ->
  counted (objects s1) (counting A q) -> (forall p, counting A q p < 2 ^ 31) ->
  exists s' K, dec_if q s1 = Some (tt, s')
    /\ (forall p, p ∈ K <-> freed (pointers s) A p)
    /\ pointers s' = remove K (pointers s) /\ dom (objects s') = dom (objects s) ∖ K
    /\ counted (objects s') (pointing (remove K A)).
Proof.
  intros Hx Hp1 Hd1 HA Hal Hc Hb. destruct (dec_if_lets_go (freed (pointers s) A) A (counting A q)) with (s := s1) (L := A) (q := q)
    as (s' & K & E & [Hd Hp Hk Hg Hkept]).
  - intros p Hp Hy. constructor; [|exact Hy]. pose proof (pointing_here _ _ _ p Hx) as Hh. unfold counting in Hp.
    pose proof (bounded p). destruct (decide (0 < pointing (pointers s) p)) as [|Hn]; [done|].
    assert (0 < pointing A p) as [y Ey]%pointing_positive by lia. destruct (decide (y = x)) as [->|Hne].
    + destruct (Hy x Ey) as (r & Hr & Hf). by apply Hal in Hf.
    + rewrite (HA y Hne) in Ey. apply pointing_positive. by exists y.
  - exact Hb.
  - split.
    + exact Hc.
    + done.
    + intros y p Hy Hf _. rewrite Hp1. apply HA. intros ->. by apply (Hal p).
    + intros y v Hy. by left.
  - exists s', K. split_and!; [done| |by rewrite Hp, Hp1|by rewrite Hd, Hd1|done]. intros p. split; [intros H; by apply Hg|].
    intros Hf. induction Hf as [p Hpos Hy] using freed_induct. destruct (decide (p ∈ K)) as [|Hn]; [done|]. exfalso.
    assert (0 < counting A q p) as Hcp.
    { apply pointing_positive in Hpos as [y Ey]. unfold counting. pose proof (here_range q p). pose proof (pointing_bounds A p).
      destruct (decide (y = x)) as [->|Hne].
      - rewrite Hx in Ey. injection Ey as ->. unfold here. rewrite decide_True by done. lia.
      - assert (0 < pointing A p) by (apply pointing_positive; exists y; by rewrite HA). lia. }
    apply Hkept, pointing_positive in Hcp as [y [Ey Ha]%remove_some]; [|done].
    destruct (Hy y Ey) as (r & Hr & _ & HrK). by apply (Ha r).
Qed.

(** Members of objects that are there, when the objects of [K] are not. *)
Lemma remove_there K A (objs : gmap ptr Z) y p : dom objs = dom (objects s) ∖ K -> dom A ⊆ dom (pointers s) ->
  y ∈ dom (remove K A) -> owner y = Some p -> p ∈ dom objs.
Proof.
  intros -> HA [v [Hy Ha]%remove_some]%elem_of_dom Ho. apply elem_of_difference. split; [|by apply Ha].
  apply (proj2 Hs y); [|done]. apply HA. by apply elem_of_dom_2 in Hy.
Qed.

Lemma alive_spared x (K : gset ptr) A :
  (forall p, p ∈ K <-> freed (pointers s) A p) -> (forall p, owner x = Some p -> ~ freed (pointers s) A p) -> alive K x.
Proof. intros HK Hx p Hp H. apply (Hx p Hp). by apply HK. Qed.

(** Releasing the pointer of [x] for [q], which has been counted. *)
Lemma release_for o x q s1 :
  x ∈ dom (pointers s) -> pointers s1 = pointers s -> dom (objects s1) = dom (objects s) ->
  counted (objects s1) (fun p => pointing (pointers s) p + here q p) ->
  perform o s = (p ← m_ptr x; _ ← dec_if p; set_m_ptr x q) s1 ->
  pointers_after o (pointers s) = <[x := q]> (pointers s) -> released o (pointers s) = <[x := q]> (pointers s) ->
  taken o = None -> created o = ∅ -> ~ outlived o (pointers s) x -> performs o s.
Proof.
  intros Hx Hp1 Hd1 Hc1 E Ho Hr Ht Hcr Hal. pose proof Hx as [u Hu]%elem_of_dom.
  assert (forall p, owner x = Some p -> ~ freed (pointers s) (<[x := q]> (pointers s)) p) as Hsp.
  { intros p Hox H. apply Hal. exists p. by rewrite Hr. }
  assert (forall p, counting (<[x := q]> (pointers s)) u p = pointing (pointers s) p + here q p) as Hcount.
  { intros p. unfold counting. rewrite (pointing_update _ x u) by done. lia. }
  destruct (release x u (<[x := q]> (pointers s)) s1) as (s2 & K & E2 & HK & Hp2 & Hd2 & Hc2); try done.
  { intros y Hne. by rewrite lookup_insert_ne. }
  { by eapply counted_ext. }
  { intros p. rewrite Hcount. pose proof (bounded p). pose proof (here_range q p). lia. }
  pose proof (alive_spared x K _ HK Hsp) as Ha. exists K. rewrite Hr. split_and!; [done| |by rewrite Ht|].
  { intros p H1 H2%HK. by apply (reached_kept (pointers s)) in H1. }
  intros _. eexists. split_and!.
  - rewrite E, (bind_some _ _ _ _ _ (m_ptr_eq s1 x u ltac:(by rewrite Hp1))), (bind_some _ _ _ _ _ E2). apply set_m_ptr_eq.
    rewrite Hp2. apply elem_of_dom. exists u. by apply remove_some.
  - cbn [pointers]. by rewrite Ho, Hp2, remove_insert.
  - cbn [objects]. rewrite Hd2, Hcr. set_solver.
  - split; cbn [objects pointers]; rewrite Hp2, <- remove_insert by done; [done|].
    intros y p. apply remove_there; [done|]. rewrite dom_insert_L. set_solver.
Qed.

Lemma AssignFrom_performs x q : permitted (AssignFrom x q) s -> ~ outlived (AssignFrom x q) (pointers s) x -> performs (AssignFrom x q) s.
Proof.
  intros [Hx Hq] Hal. destruct (inc_if_correct s q _ (proj1 Hs) Hq bounded) as (s1 & E1 & Hp1 & Hc1 & Hd1).
  apply (release_for _ x q s1 Hx Hp1 Hd1 Hc1); [|done..]. cbn [perform]. unfold assign_from. by rewrite (bind_some _ _ _ _ _ E1).
Qed.

Lemma Assign_performs x y : permitted (Assign x y) s -> ~ outlived (Assign x y) (pointers s) x -> performs (Assign x y) s.
Proof.
  intros [Hx [q Hy]%elem_of_dom] Hal.
  destruct (inc_if_correct s q _ (proj1 Hs) (fun p => pointing_there s y q p Hs Hy) bounded) as (s1 & E1 & Hp1 & Hc1 & Hd1).
  apply (release_for _ x q s1 Hx Hp1 Hd1 Hc1); [|cbn; by rewrite (value_eq _ _ _ Hy)..|done|done|done]. cbn [perform]. unfold assign.
  by rewrite (bind_some _ _ _ _ _ (m_ptr_eq s y q Hy)), (bind_some _ _ _ _ _ E1).
Qed.

Lemma Copy_performs x y : permitted (Copy x y) s -> performs (Copy x y) s.
Proof.
  intros [Hx [q Hy]%elem_of_dom]. destruct (From_performs x q) as (K & HK & HR & _ & H).
  - split; [exact Hx|]. intros p. by apply pointing_there with y.
  - exists K. cbn [released pointers_after created taken] in *. rewrite (value_eq _ _ _ Hy). split_and!; [done..|].
    intros _. destruct H as (s' & E & H); [done|]. exists s'. split; [|done].
    cbn [perform]. unfold sp_copy. by rewrite (bind_some _ _ _ _ _ (m_ptr_eq s y q Hy)).
Qed.

Lemma Move_performs x y : permitted (Move x y) s -> performs (Move x y) s.
Proof.
  intros [Hx [q Hy]%elem_of_dom]. pose proof Hx as [Hx'%not_elem_of_dom _]. assert (x <> y) as Hxy by (intros ->; congruence).
  assert (forall p, pointing (<[y := None]> (<[x := q]> (pointers s))) p = pointing (pointers s) p) as Hc.
  { intros p. rewrite (pointing_update _ y q) by (by rewrite lookup_insert_ne).
    rewrite pointing_insert by done. rewrite here_none. lia. }
  eapply performs_keeping.
  - cbn [perform]. unfold sp_move. rewrite (bind_some _ _ _ _ _ (m_ptr_eq s y q Hy)), (bind_some _ _ _ _ _ (init_m_ptr_eq s x q)).
    apply set_m_ptr_eq. cbn [pointers]. apply elem_of_dom. exists q. by rewrite lookup_insert_ne.
  - cbn. by rewrite (value_eq _ _ _ Hy).
  - split; cbn [objects pointers].
    + eapply counted_ext; [exact (proj1 Hs)|]. intros p. by rewrite Hc.
    + intros z p Hz. apply (placed_there x q); [done..|]. revert Hz. rewrite dom_insert_L, elem_of_union, elem_of_singleton.
      intros [->|Hz]; [|done]. rewrite dom_insert_L. apply elem_of_dom_2 in Hy. set_solver.
  - cbn. set_solver.
  - done.
  - intros p. cbn [pointers]. by rewrite Hc.
Qed.

Lemma AssignMove_performs x y : permitted (AssignMove x y) s -> ~ outlived (AssignMove x y) (pointers s) x -> performs (AssignMove x y) s.
Proof.
  intros [[u Hu]%elem_of_dom [v Hv]%elem_of_dom] Hal. set (A := <[x := None]> (pointers s)).
  assert (forall p, owner x = Some p -> ~ freed (pointers s) A p) as Hsp by (intros p Hox H; apply Hal; by exists p).
  assert (forall p, counting A u p = pointing (pointers s) p) as Hcount.
  { intros p. unfold counting, A. rewrite (pointing_update _ x u), here_none by done. lia. }
  destruct (release x u A s) as (s2 & K & E2 & HK & Hp2 & Hd2 & Hc2); try done.
  { intros z Hne. unfold A. by rewrite lookup_insert_ne. }
  { eapply counted_ext; [exact (proj1 Hs)|]. intros p. by rewrite Hcount. }
  { intros p. rewrite Hcount. pose proof (bounded p). lia. }
  pose proof (alive_spared x K _ HK Hsp) as Ha.
  assert (perform (AssignMove x y) s = (p ← m_ptr y; _ ← set_m_ptr x p; set_m_ptr y None) s2) as E.
  { cbn [perform]. unfold assign_move. by rewrite (bind_some _ _ _ _ _ (m_ptr_eq s x u Hu)), (bind_some _ _ _ _ _ E2). }
  assert (remove K (pointers s) !! x = Some u) as Hu' by by apply remove_some.
  exists K. split_and!; [done| | |].
  { intros p H1 H2%HK. by apply (reached_kept (pointers s)) in H1. }
  { intros z [= <-] Hy. rewrite E. apply bind_none. unfold m_ptr. rewrite Hp2.
    destruct (remove K (pointers s) !! y) eqn:Ey; [|done]. by apply remove_some in Ey as [_ ?]. }
  intros Hy%(fun H => H y eq_refl). assert (remove K (pointers s) !! y = Some v) as Hv' by by apply remove_some.
  set (m := <[y := None]> (<[x := v]> (remove K (pointers s)))).
  assert (forall p, pointing m p = pointing (remove K A) p) as Hm.
  { intros p. unfold m, A. rewrite remove_insert, (pointing_update _ x u None), here_none by done. destruct (decide (x = y)) as [<-|Hne].
    - assert (v = u) as -> by congruence. rewrite insert_insert_eq, (pointing_update _ x u), here_none by done. lia.
    - rewrite (pointing_update _ y v) by (by rewrite lookup_insert_ne). rewrite (pointing_update _ x u), here_none by done. lia. }
  exists {| objects := objects s2; pointers := m |}. split_and!.
  - rewrite E, (bind_some _ _ _ _ _ (m_ptr_eq s2 y v ltac:(by rewrite Hp2))).
    erewrite bind_some by (apply set_m_ptr_eq; rewrite Hp2; by apply elem_of_dom_2 in Hu').
    rewrite set_m_ptr_eq; cbn [pointers]; rewrite Hp2; [done|]. rewrite dom_insert_L. apply elem_of_dom_2 in Hv'. set_solver.
  - cbn. by rewrite (value_eq _ _ _ Hv), !remove_insert.
  - cbn. rewrite Hd2. set_solver.
  - split; cbn [objects pointers].
    + eapply counted_ext; [exact Hc2|]. intros p. by rewrite Hm.
    + intros z p Hz. apply (remove_there K (pointers s)); [done..|]. revert Hz. unfold m. rewrite !dom_insert_L.
      apply elem_of_dom_2 in Hu', Hv'. set_solver.
Qed.

Lemma Destroy_performs x : permitted (Destroy x) s -> performs (Destroy x) s.
Proof.
  intros [[u Hu]%elem_of_dom Hox]. set (A := delete x (pointers s)).
  assert (forall p, counting A u p = pointing (pointers s) p) as Hcount.
  { intros p. unfold counting, A. rewrite (pointing_delete _ x u) by done. lia. }
  destruct (release x u A s) as (s2 & K & E2 & HK & Hp2 & Hd2 & Hc2); try done.
  { intros z Hne. unfold A. by rewrite lookup_delete_ne. }
  { intros p Hp. congruence. }
  { eapply counted_ext; [exact (proj1 Hs)|]. intros p. by rewrite Hcount. }
  { intros p. rewrite Hcount. pose proof (bounded p). lia. }
  exists K. split_and!; [done| |done|].
  { intros p H1 H2%HK. by apply (reached_kept (pointers s)) in H1. }
  intros _. exists {| objects := objects s2; pointers := delete x (pointers s2) |}. split_and!.
  - cbn [perform]. unfold sp_destructor. by rewrite (bind_some _ _ _ _ _ (m_ptr_eq s x u Hu)), (bind_some _ _ _ _ _ E2).
  - cbn. by rewrite Hp2, remove_delete.
  - cbn. rewrite Hd2. set_solver.
  - split; cbn [objects pointers]; rewrite Hp2, <- remove_delete; [done|].
    intros z p. apply remove_there; [done|]. rewrite dom_delete_L. set_solver.
Qed.

Lemma Clear_performs x : permitted (Clear x) s -> ~ outlived (Clear x) (pointers s) x -> performs (Clear x) s.
Proof.
  intros Hx Hal. pose proof Hx as [u Hu]%elem_of_dom.
  assert (counted (objects s) (fun p => pointing (pointers s) p + here None p)) as Hc.
  { apply counted_ext with (pointing (pointers s)); [exact (proj1 Hs)|]. intros p. rewrite here_none. lia. }
  apply (release_for _ x None s Hx eq_refl eq_refl Hc); [|done..]. cbn [perform]. unfold clear.
  rewrite !(bind_some _ _ _ _ _ (m_ptr_eq s x u Hu)). destruct u as [p|]; [done|]. cbn [dec_if].
  rewrite (bind_some (mret tt) _ s tt s), set_m_ptr_eq by done. rewrite insert_id by done. by destruct s.
Qed.

Lemma New_performs p : permitted (New p) s -> performs (New p) s.
Proof.
  intros Hp. cbn [permitted] in Hp. eapply performs_keeping; [reflexivity|done| |cbn; rewrite dom_insert_L; set_solver|done|done]. split.
  - intros p'. cbn [objects pointers]. pose proof (proj1 Hs p') as Hc. destruct (decide (p = p')) as [<-|Hne].
    + rewrite lookup_insert_eq. apply not_elem_of_dom in Hp. by rewrite Hp in Hc.
    + by rewrite lookup_insert_ne.
  - intros y q Hy Ho. cbn [objects]. rewrite dom_insert_L. apply elem_of_union_r. by apply (proj2 Hs y).
Qed.

Lemma Default_performs x : permitted (Default x) s -> performs (Default x) s.
Proof.
  intros Hx. pose proof Hx as [Hx'%not_elem_of_dom _].
  assert (forall p, pointing (<[x := None]> (pointers s)) p = pointing (pointers s) p) as Hc.
  { intros p. rewrite pointing_insert, here_none by done. lia. }
  eapply performs_keeping; [reflexivity|done| |cbn; set_solver|done|intros p; cbn [pointers]; by rewrite Hc]. split.
  - eapply counted_ext; [exact (proj1 Hs)|]. intros p. cbn [pointers]. by rewrite Hc.
  - intros y p. cbn [pointers]. by apply placed_there.
Qed.
End Operations.

(** C18. Counted references, with objects that own further ones.  For every
    operation on [sp] variables that C++ permits, on a variable whose own object
    it does not delete: the objects that go are those whose last pointer the
    operation takes away, directly or with the members of other objects that
    go, and no object that the program can still reach is one of them.  They go
    with their members, the remaining variables have their new pointers, and
    every count is again the number of the variables that point to the object.
    A move assignment is the exception: it lets go of the old pointer before it
    reads the variable it takes from, and reads freed memory when that variable
    was a member of an object that went. *)
Theorem sp_correct (s : refs) (o : operation) :
  consistent s -> Z.of_nat (size (pointers s)) < 2 ^ 31 - 1 -> permitted o s ->
  (forall x, assigned o = Some x -> ~ outlived o (pointers s) x) ->
  exists K, (forall p, p ∈ K <-> freed (pointers s) (released o (pointers s)) p)
    /\ (forall p, reached (released o (pointers s)) p -> p ∉ K)
    /\ (forall y, taken o = Some y -> ~ alive K y -> perform o s = None)
    /\ ((forall y, taken o = Some y -> alive K y) ->
        exists s', perform o s = Some (tt, s')
          /\ pointers s' = remove K (pointers_after o (pointers s))
          /\ dom (objects s') = (dom (objects s) ∪ created o) ∖ K
          /\ consistent s').
Proof.
  intros Hs Hn Ho Hal. change (performs o s). destruct o as [p|x|x q|x y|x y|x|x y|x y|x q|x].
  - by apply New_performs.
  - by apply Default_performs.
  - by apply From_performs.
  - by apply Copy_performs.
  - by apply Move_performs.
  - by apply Destroy_performs.
  - apply Assign_performs; try done. by apply Hal.
  - apply AssignMove_performs; try done. by apply Hal.
  - apply AssignFrom_performs; try done. by apply Hal.
  - apply Clear_performs; try done. by apply Hal.
Qed.

(** A list of three objects, each with its next as a member, behind a local
    variable; another local variable has the third. *)
Definition head : var := (None, 0%nat).
Definition third : var := (None, 1%nat).
Definition next (p : ptr) : var := (Some p, 0%nat).
#[local] Arguments next p%_positive_scope.

Definition run (os : list operation) : ST refs unit := for_each perform os.

Definition build_list : list operation :=
  [New 1%positive; Default (next 1); From head (Some 1%positive);
   New 2%positive; Default (next 2); AssignFrom (next 1) (Some 2%positive);
   New 3%positive; Default (next 3); AssignFrom (next 2) (Some 3%positive); From third (Some 3%positive)].

Definition three_objects : refs := {|
  objects := {[1%positive := 1; 2%positive := 1; 3%positive := 2]};
  pointers := {[head := Some 1%positive; next 1 := Some 2%positive; next 2 := Some 3%positive; next 3 := None; third := Some 3%positive]} |}.

Example three_objects_built :
  run build_list {| objects := ∅; pointers := ∅ |} = Some (tt, three_objects).
Proof. vm_compute. reflexivity. Qed.

Lemma pointing_none m p : map_Forall (fun _ q => q <> Some p) m -> pointing m p = 0.
Proof.
  intros H. pose proof (pointing_bounds m p). destruct (decide (0 < pointing m p)) as [[y Hy]%pointing_positive|]; [|lia].
  by apply H in Hy.
Qed.

Lemma three_objects_consistent : consistent three_objects.
Proof.
  split.
  - intros p. destruct (decide (p = 1%positive)) as [->|H1]; [by vm_compute|].
    destruct (decide (p = 2%positive)) as [->|H2]; [by vm_compute|]. destruct (decide (p = 3%positive)) as [->|H3]; [by vm_compute|].
    cbn [objects three_objects]. rewrite !lookup_insert_ne by done. rewrite lookup_singleton_ne by done. apply pointing_none.
    cbn [pointers three_objects]. repeat (apply map_Forall_insert_2; [congruence|]). apply map_Forall_empty.
  - intros x p. cbn [objects pointers three_objects]. rewrite !dom_insert_L, !dom_singleton_L. intros Hx Ho.
    repeat (apply elem_of_union in Hx as [Hx%elem_of_singleton|Hx]; [subst x; cbn in Ho; set_solver|]).
    apply elem_of_singleton in Hx. subst x. cbn in Ho. set_solver.
Qed.

(** A variable that is only [operator=(sp&&)]ed from a member of the object it
    lets go of: the member is freed before it is read. *)
Example move_next : perform (AssignMove head (next 1)) three_objects = None.
Proof. vm_compute. reflexivity. Qed.

(** The copy of the same variable is safe: it counts first. *)
Example copy_next : perform (Assign head (next 1)) three_objects = Some (tt, {|
  objects := {[2%positive := 1; 3%positive := 2]};
  pointers := {[head := Some 2%positive; next 2 := Some 3%positive; next 3 := None; third := Some 3%positive]} |}).
Proof. vm_compute. reflexivity. Qed.

Lemma first_goes : freed (pointers three_objects) (<[head := None]> (pointers three_objects)) 1%positive.
Proof.
  constructor; [vm_compute; done|]. intros y Hy. exfalso.
  assert (0 < pointing (<[head := None]> (pointers three_objects)) 1%positive) as H by (apply pointing_positive; by exists y).
  by vm_compute in H.
Qed.

(** Clearing the head of the list deletes the first two objects and leaves the
    third, which has a variable of its own; moving the next of the head into
    it reads freed memory. *)
Lemma sp_correct_witness :
  (exists s', perform (Clear head) three_objects = Some (tt, s')
     /\ consistent s' /\ (dom (objects s') : gset ptr) = {[3%positive]} /\ value (pointers s') third = Some 3%positive)
  /\ perform (AssignMove head (next 1)) three_objects = None.
Proof.
  split.
  - destruct (sp_correct three_objects (Clear head)) as (K & _ & _ & _ & (s' & E & _ & _ & Hc)).
    + exact three_objects_consistent.
    + done.
    + cbn [permitted]. apply elem_of_dom. by eexists.
    + intros x [= <-] (p & [=] & _).
    + intros y [=].
    + exists s'. split; [exact E|]. split; [exact Hc|]. vm_compute in E. injection E as <-. by vm_compute.
  - destruct (sp_correct three_objects (AssignMove head (next 1))) as (K & HK & _ & Hnone & _).
    + exact three_objects_consistent.
    + done.
    + split; apply elem_of_dom; by eexists.
    + intros x [= <-] (p & [=] & _).
    + apply (Hnone (next 1)); [done|]. intros H. by apply (H 1%positive), HK, first_goes.
Defined.

(** Two local variables of one object, the first moved to itself: it is null
    then and the object is still there. *)
Example move_self :
  perform (AssignMove head head) {| objects := {[1%positive := 2]}; pointers := {[head := Some 1%positive; third := Some 1%positive]} |}
  = Some (tt, {| objects := {[1%positive := 1]}; pointers := {[head := None; third := Some 1%positive]} |}).
Proof. vm_compute. reflexivity. Qed.

(** A cycle, through a member whose own object the operation deletes: [clear]
    writes to freed memory. *)
Example clear_cycle :
  perform (Clear (next 1)) {| objects := {[1%positive := 1; 2%positive := 1]}; pointers := {[next 1 := Some 2%positive; next 2 := Some 1%positive]} |}
  = None.
Proof. vm_compute. reflexivity. Qed.
