(* ===== verification/TypeHelpers.v ===== *)
(** * Objects in storage: utils/TypeHelpers.h

    The containers of utils keep their items in raw storage and create, copy,
    move and destroy them with the functions of this header, which take a
    shortcut when the traits of the type allow it.  A place of the storage is raw
    or holds an object; an object remembers where it was made, since a type
    that is not marked as movable may depend on its address. *)
From S2P Require Import Prelude Linked.

(** ** Traits *)

(** The types as the templates see them: one with basic traits, a pointer, a
    class with the traits its macros declare, a pair. *)
Inductive type :=
| Basic
| Pointer (t : type)
| Declared (trivial_ctor trivial_dtor trivial_copy trivial_move : bool)
| key_value_pair (k v : type).

Definition trait_pointer (t : type) : bool := match t with Pointer _ => true | _ => false end.

(** The four traits, [which] of them to be chosen from the declared ones: an
    aggregate has what both parts have. *)
Fixpoint trait_trivial (which : bool -> bool -> bool -> bool -> bool) (t : type) : bool :=
  match t with
  | Basic => true
  | Pointer _ => false
  | Declared c d p m => which c d p m
  | key_value_pair k v => (trait_pointer k || trait_trivial which k) && (trait_pointer v || trait_trivial which v)
  end.

Definition has_trivial_ctor (t : type) : bool := trait_pointer t || trait_trivial (fun c _ _ _ => c) t.
Definition has_trivial_dtor (t : type) : bool := trait_pointer t || trait_trivial (fun _ d _ _ => d) t.
Definition has_trivial_copy (t : type) : bool := trait_pointer t || trait_trivial (fun _ _ p _ => p) t.
Definition has_trivial_move (t : type) : bool := trait_pointer t || trait_trivial (fun _ _ _ m => m) t.

(** ** Order *)

Section Order.
Context {TYPE : Type} (ltb : TYPE -> TYPE -> bool).

Definition strictly_order_type (lhs rhs : TYPE) : Z := if ltb lhs rhs then 1 else 0.
Definition compare_type (lhs rhs : TYPE) : Z := strictly_order_type rhs lhs - strictly_order_type lhs rhs.
End Order.

(** A key and a value, ordered by their keys. *)
Record key_value_pair_t (KEY VALUE : Type) := Pair { key : KEY; value : VALUE }.
Arguments Pair {KEY VALUE}.
Arguments key {KEY VALUE}.
Arguments value {KEY VALUE}.

Definition pair_ltb {KEY VALUE} (ltb : KEY -> KEY -> bool) (p o : key_value_pair_t KEY VALUE) : bool :=
  negb (strictly_order_type ltb (key p) (key o) =? 0).

(** ** Hash codes *)

Definition hash_int32 (value : Z) : Z := u32 value.
Definition hash_int64 (value : Z) : Z := u32 ((value >> 32) .^ value).
(** [float] and [double] by their representation. *)
Definition hash_float (representation : Z) : Z := hash_int32 representation.
Definition hash_double (representation : Z) : Z := hash_int64 representation.

(** ** Storage *)

Section Storage.
Context {V : Type} (default : V) (TYPE : type).

Record object := Object { home : Z; contents : V }.

(** The addresses count places of the size of an object. *)
Abbreviation storage := (gmap Z (option object)).
#[local] Abbreviation M := (ST storage).

(** [new(p) TYPE(...)]: the place must not hold an object whose destructor has
    work to do. *)
Definition construct (p : Z) (v : V) : M unit := fun m =>
  match m !! p with
  | None => None
  | Some (Some _) => if has_trivial_dtor TYPE then Some (tt, <[p := Some (Object p v)]> m) else None
  | Some None => Some (tt, <[p := Some (Object p v)]> m)
  end.

Definition object_at (p : Z) : M object := fun m => slot ← m !! p; o ← slot; Some (o, m).

Definition destroy (p : Z) : M unit := _ ← object_at p; modify (<[p := None]>).
Definition copy_construct (d s : Z) : M unit := o ← object_at s; construct d (contents o).
(** [*d = *s] for a type whose copies are those of its bytes. *)
Definition assign (d s : Z) : M unit := fun m =>
  '(o, _) ← object_at s m; _ ← m !! d; Some (tt, <[d := Some (Object d (contents o))]> m).

(** The bytes of [n] places, objects or not. *)
Fixpoint read_slots (s : Z) (n : nat) (m : storage) : option (list (option object)) :=
  match n with
  | O => Some []
  | S n => x ← m !! s; l ← read_slots (s + 1) n m; Some (x :: l)
  end.
Fixpoint write_slots (d : Z) (l : list (option object)) (m : storage) : option storage :=
  match l with
  | [] => Some m
  | x :: l => _ ← m !! d; write_slots (d + 1) l (<[d := x]> m)
  end.

Definition memmove (d s : Z) (n : nat) : M unit := fun m => l ← read_slots s n m; m ← write_slots d l m; Some (tt, m).
(** [memcpy] is undefined on ranges that overlap. *)
Definition memcpy (d s : Z) (n : nat) : M unit := fun m =>
  if (d + Z.of_nat n <=? s) || (s + Z.of_nat n <=? d) then memmove d s n m else None.

(** ** The functions

    Loops with a count [n] in a [while (n > 0)] run [n] times. *)

Fixpoint construct_loop (p : Z) (n : nat) : M unit :=
  match n with
  | O => mret tt
  | S n => _ ← construct p default; construct_loop (p + 1) n
  end.
Definition construct_type (p : Z) (n : nat) : M unit :=
  if negb (has_trivial_ctor TYPE) then construct_loop p n else mret tt.

Fixpoint destroy_loop (p : Z) (n : nat) : M unit :=
  match n with
  | O => mret tt
  | S n => _ ← destroy p; destroy_loop (p + 1) n
  end.
Definition destroy_type (p : Z) (n : nat) : M unit :=
  if negb (has_trivial_dtor TYPE) then destroy_loop p n else mret tt.

Fixpoint copy_loop (d s : Z) (n : nat) : M unit :=
  match n with
  | O => mret tt
  | S n => _ ← copy_construct d s; copy_loop (d + 1) (s + 1) n
  end.
Definition copy_type (d s : Z) (n : nat) : M unit :=
  if negb (has_trivial_copy TYPE) then copy_loop d s n else memcpy d s n.

Fixpoint splat_loop (step : Z -> Z -> M unit) (where_ what : Z) (n : nat) : M unit :=
  match n with
  | O => mret tt
  | S n => _ ← step where_ what; splat_loop step (where_ + 1) what n
  end.
Definition splat_type (where_ what : Z) (n : nat) : M unit :=
  if negb (has_trivial_copy TYPE) then splat_loop copy_construct where_ what n else splat_loop assign where_ what n.

(** One object made or overwritten from another one. *)
Definition place (d s : Z) : M unit := if negb (has_trivial_copy TYPE) then copy_construct d s else assign d s.

(** An item moved on its own. *)
Definition move_one (d s : Z) : M unit :=
  _ ← place d s;
  if negb (has_trivial_dtor TYPE) then destroy s else mret tt.

Definition moves_bytes : bool := (has_trivial_dtor TYPE && has_trivial_copy TYPE) || has_trivial_move TYPE.

Fixpoint move_forward_loop (d s : Z) (n : nat) : M unit :=
  match n with
  | O => mret tt
  | S n => _ ← move_one (d - 1) (s - 1); move_forward_loop (d - 1) (s - 1) n
  end.
Definition move_forward_type (d s : Z) (n : nat) : M unit :=
  if moves_bytes then memmove d s n else move_forward_loop (d + Z.of_nat n) (s + Z.of_nat n) n.

Fixpoint move_backward_loop (d s : Z) (n : nat) : M unit :=
  match n with
  | O => mret tt
  | S n => _ ← move_one d s; move_backward_loop (d + 1) (s + 1) n
  end.
Definition move_backward_type (d s : Z) (n : nat) : M unit :=
  if moves_bytes then memmove d s n else move_backward_loop d s n.

(** * Specification *)

(** An object that may be used where it is. *)
Definition usable (p : Z) (o : object) : Prop := has_trivial_copy TYPE = true \/ has_trivial_move TYPE = true \/ home o = p.

Definition holds (m : storage) (p : Z) (v : V) : Prop := exists o, m !! p = Some (Some o) /\ contents o = v /\ usable p o.
Definition range (p : Z) (n : nat) (a : Z) : Prop := p <= a < p + Z.of_nat n.

(** A place that may be made an object: one with an object that nobody would
    destroy is not. *)
Definition free_for (m : storage) (p : Z) : Prop := p ∈ dom m /\ (has_trivial_dtor TYPE = false -> m !! p = Some None).

(** ** Steps on several places

    One step makes an object from another one, which is gone afterwards or not. *)

Section Steps.
Context (step : Z -> Z -> M unit) (gone : bool) (dst src : Z -> Z).

Definition after_step (m : storage) (d s : Z) (v : V) : storage :=
  (if gone then insert s None else id) (<[d := Some (Object d v)]> m).

Definition steps_right : Prop := forall d s m v, d <> s -> holds m s v -> free_for m d -> step d s m = Some (tt, after_step m d s v).

(** No step overwrites what a later one needs. *)
Definition in_time (i j : Z) : Prop := dst i <> dst j /\ dst i <> src j /\ (gone = true -> src i <> src j).

Record stepped (m m' : storage) (l : list Z) : Prop := {
  stepped_to i v : i ∈ l -> holds m (src i) v -> holds m' (dst i) v;
  stepped_from i : i ∈ l -> src i ∉ map dst l -> m' !! src i = if gone then Some None else m !! src i;
  stepped_frame a : a ∉ map src l -> a ∉ map dst l -> m' !! a = m !! a
}.

Lemma after_step_other m d s v a : a <> d -> (gone = true -> a <> s) -> after_step m d s v !! a = m !! a.
Proof. intros Hd Hs. unfold after_step. destruct gone; cbn; rewrite ?lookup_insert_ne; naive_solver. Qed.

Lemma after_step_dst m d s v : d <> s -> holds (after_step m d s v) d v.
Proof.
  intros H. exists (Object d v). split; [|split; [done|by right; right]]. unfold after_step.
  destruct gone; cbn; rewrite ?lookup_insert_ne by done; apply lookup_insert_eq.
Qed.

Lemma after_step_src m d s v : d <> s -> after_step m d s v !! s = if gone then Some None else m !! s.
Proof. intros H. unfold after_step. destruct gone; cbn; [apply lookup_insert_eq|by rewrite lookup_insert_ne]. Qed.

Lemma holds_ext m m' p v : m' !! p = m !! p -> holds m p v -> holds m' p v.
Proof. intros E (o & H & Ho). exists o. by rewrite E. Qed.

Lemma free_for_ext m m' p : m' !! p = m !! p -> free_for m p -> free_for m' p.
Proof. intros E [Hd H]. split; [apply elem_of_dom; rewrite E; by apply elem_of_dom|by rewrite E]. Qed.

(** The places that a list of steps needs. *)
Definition ready (m : storage) (l : list Z) (i : Z) : Prop :=
  dst i <> src i /\ (exists v, holds m (src i) v) /\ (free_for m (dst i) \/ gone = true /\ dst i ∈ map src l).

Lemma ready_step m i v l j : steps_right -> dst i <> src i -> in_time i j -> ready m (i :: l) j ->
  ready (after_step m (dst i) (src i) v) l j.
Proof.
  intros Hstep Hi (Hdd & Hds & Hss) (Hj & [w Hw] & Hroom). split; [done|]. split.
  - exists w. eapply holds_ext; [|exact Hw]. apply after_step_other; [congruence|]. intros Hg. apply not_eq_sym. auto.
  - destruct (decide (gone = true /\ dst j = src i)) as [[Hg E]|Hn].
    + left. rewrite E. unfold free_for. rewrite elem_of_dom, (after_step_src m _ _ v Hi), Hg. by split; [eexists|].
    + destruct Hroom as [Hf|[Hg Hin]].
      * left. eapply free_for_ext; [|exact Hf]. apply after_step_other; [congruence|]. intros Hg E. apply Hn. by split.
      * right. split; [done|]. cbn in Hin. apply elem_of_cons in Hin as [E|Hin]; [|done]. by destruct Hn.
Qed.

Lemma ready_first m i l : Forall (in_time i) l -> ready m (i :: l) i -> free_for m (dst i).
Proof.
  intros Hi (Hds & _ & [Hf|[_ Hin]]); [done|]. cbn in Hin. apply elem_of_cons in Hin as [E|Hin]; [done|].
  apply list_elem_of_fmap in Hin as (j & E & Hj). rewrite Forall_forall in Hi. by destruct (Hi j Hj) as (_ & Hd & _).
Qed.

Lemma steps_correct l m : steps_right -> Forall (ready m l) l -> StronglySorted in_time l ->
  exists m', for_each (fun i => step (dst i) (src i)) l m = Some (tt, m') /\ stepped m m' l.
Proof.
  intros Hstep. revert m. induction l as [|i l IH]; intros m H HS; [exists m; split; [done|split; set_solver]|].
  apply StronglySorted_inv in HS as [HS Hi]. apply Forall_cons in H as [H0 H].
  pose proof (ready_first _ _ _ Hi H0) as Hf. destruct H0 as (Hds & [v Hv] & _).
  destruct (IH (after_step m (dst i) (src i) v)) as (m' & E & [Hto Hfrom Hframe]); [|done|].
  { apply Forall_forall. intros j Hj. rewrite Forall_forall in H, Hi. by apply ready_step; auto. }
  exists m'. split; [cbn [for_each]; by rewrite (bind_some _ _ _ _ _ (Hstep _ _ _ _ Hds Hv Hf))|].
  rewrite Forall_forall in Hi.
  assert (dst i ∉ map src l /\ dst i ∉ map dst l) as [Hn1 Hn2].
  { split; intros (j & E' & Hj)%list_elem_of_fmap; by destruct (Hi j Hj) as (? & ? & _). }
  split.
  - intros j w [->|Hj]%elem_of_cons Hw.
    + assert (w = v) as -> by (destruct Hw as (o & E1 & <- & _), Hv as (o' & E2 & <- & _); congruence).
      eapply holds_ext; [apply Hframe; done|]. by apply after_step_dst.
    + apply Hto; [done|]. destruct (Hi j Hj) as (? & ? & Hss). eapply holds_ext; [|exact Hw]. apply after_step_other; [congruence|].
      intros Hg. apply not_eq_sym. auto.
  - intros j Hj Hnin. cbn in Hnin. apply not_elem_of_cons in Hnin as [Hnd Hnin].
    destruct (decide (src j ∈ map src l)) as [(k & E' & Hk)%list_elem_of_fmap|Hnl].
    + rewrite E', Hfrom by (rewrite <- ?E'; done). destruct gone eqn:Hg; [done|]. rewrite <- E'. apply after_step_other; congruence.
    + rewrite (Hframe _ Hnl Hnin). apply elem_of_cons in Hj as [->|Hj]; [by apply after_step_src|].
      destruct Hnl. by apply list_elem_of_fmap_2.
  - intros a. cbn. rewrite !not_elem_of_cons. intros [Ha1 Ha2] [Ha3 Ha4]. rewrite (Hframe _ Ha2 Ha4). by apply after_step_other.
Qed.
End Steps.

Lemma construct_free m d v : free_for m d -> construct d v m = Some (tt, <[d := Some (Object d v)]> m).
Proof.
  intros [[x E]%elem_of_dom H]. unfold construct. rewrite E. destruct x as [o|]; [|done].
  destruct (has_trivial_dtor TYPE) eqn:Hd; [done|]. specialize (H eq_refl). congruence.
Qed.

Lemma object_at_holds m s v : holds m s v -> exists o, object_at s m = Some (o, m) /\ contents o = v.
Proof. intros (o & E & Ho & _). exists o. unfold object_at. by rewrite E. Qed.

Lemma copy_construct_right : steps_right copy_construct false.
Proof.
  intros d s m v Hds Hv Hf. apply object_at_holds in Hv as (o & E & <-). unfold copy_construct.
  by rewrite (bind_some _ _ _ _ _ E), construct_free.
Qed.

Lemma assign_right : steps_right assign false.
Proof.
  intros d s m v Hds Hv [Hd _]. apply object_at_holds in Hv as (o & E & <-). unfold assign. rewrite E. cbn.
  by apply elem_of_dom in Hd as [x ->].
Qed.

Lemma place_right : steps_right place false.
Proof. unfold place. destruct (has_trivial_copy TYPE); [exact assign_right|exact copy_construct_right]. Qed.

Lemma move_one_right : steps_right move_one (negb (has_trivial_dtor TYPE)).
Proof.
  intros d s m v Hds Hv Hf. unfold move_one. rewrite (bind_some _ _ _ _ _ (place_right d s m v Hds Hv Hf)).
  destruct (has_trivial_dtor TYPE); [done|]. cbn [negb]. destruct Hv as (o & E & _). unfold destroy.
  assert (object_at s (after_step false m d s v) = Some (o, after_step false m d s v)) as E'.
  { unfold object_at, after_step. cbn. by rewrite lookup_insert_ne, E. }
  by rewrite (bind_some _ _ _ _ _ E').
Qed.

(** The numbers of the items in the order of the loops. *)
Fixpoint up (k : Z) (n : nat) : list Z := match n with O => [] | S n => k :: up (k + 1) n end.
Fixpoint down (n : nat) : list Z := match n with O => [] | S n => Z.of_nat n :: down n end.

Lemma elem_of_up k n i : i ∈ up k n <-> k <= i < k + Z.of_nat n.
Proof.
  revert k. induction n as [|n IH]; intros k; cbn [up]; [rewrite elem_of_nil; lia|]. rewrite elem_of_cons, IH. lia.
Qed.

Lemma elem_of_down n i : i ∈ down n <-> 0 <= i < Z.of_nat n.
Proof. induction n as [|n IH]; cbn [down]; [rewrite elem_of_nil; lia|]. rewrite elem_of_cons, IH. lia. Qed.

Lemma up_sorted k n : StronglySorted Z.lt (up k n).
Proof.
  revert k. induction n as [|n IH]; intros k; constructor; [apply IH|]. apply Forall_forall. intros i Hi%elem_of_up. lia.
Qed.

Lemma down_sorted n : StronglySorted Z.gt (down n).
Proof. induction n as [|n IH]; constructor; [apply IH|]. apply Forall_forall. intros i Hi%elem_of_down. lia. Qed.

Lemma sorted_impl (P : Z -> Prop) (R R' : Z -> Z -> Prop) l :
  (forall i j, P i -> P j -> R i j -> R' i j) -> Forall P l -> StronglySorted R l -> StronglySorted R' l.
Proof.
  intros H HP HS. induction HS as [|i l HS IH Hi]; [constructor|]. apply Forall_cons in HP as [Hp HP]. constructor; [auto|].
  rewrite !Forall_forall in *. auto.
Qed.

Lemma elem_of_places (d : Z) n (l : list Z) a : (forall i, i ∈ l <-> 0 <= i < Z.of_nat n) -> a ∈ map (fun i => d + i) l <-> range d n a.
Proof.
  intros Hl. unfold range. split; [intros (i & -> & Hi%Hl)%list_elem_of_fmap; lia|]. intros H. apply list_elem_of_fmap.
  exists (a - d). split; [lia|]. apply Hl. lia.
Qed.

(** What moving promises: the items arrive as usable objects, what is left of
    the old ones is raw where they had a destructor that was called, and
    nothing else changes. *)
Record moved (m m' : storage) (d s : Z) (n : nat) : Prop := {
  moved_to i v : 0 <= i < Z.of_nat n -> holds m (s + i) v -> holds m' (d + i) v;
  moved_from a : range s n a -> ~ range d n a -> m' !! a = if moves_bytes || has_trivial_dtor TYPE then m !! a else Some None;
  moved_frame a : ~ range s n a -> ~ range d n a -> m' !! a = m !! a
}.

(** What it needs: [n] items, and room where they go, unless they are there. *)
Record movable (m : storage) (d s : Z) (n : nat) : Prop := {
  movable_from i : 0 <= i < Z.of_nat n -> exists v, holds m (s + i) v;
  movable_to a : range d n a -> ~ range s n a -> free_for m a
}.

Lemma move_steps (l : list Z) m d s n : moves_bytes = false -> (forall i, i ∈ l <-> 0 <= i < Z.of_nat n) ->
  d <> s -> StronglySorted (in_time (negb (has_trivial_dtor TYPE)) (fun i => d + i) (fun i => s + i)) l -> movable m d s n ->
  exists m', for_each (fun i => move_one (d + i) (s + i)) l m = Some (tt, m') /\ moved m m' d s n.
Proof.
  intros Hb Hl Hds HS [Hfrom Hroom].
  destruct (steps_correct move_one (negb (has_trivial_dtor TYPE)) (fun i => d + i) (fun i => s + i) l m) as (m' & E & [H1 H2 H3]);
    [exact move_one_right| |exact HS|].
  - apply Forall_forall. intros i Hi%Hl. split; [lia|]. split; [by apply Hfrom|].
    destruct (decide (range s n (d + i))) as [Hr|Hr]; [|left; apply Hroom; [unfold range; lia|done]].
    destruct (has_trivial_dtor TYPE) eqn:Hd; [|right; split; [done|by apply (elem_of_places s n l _ Hl)]].
    left. destruct (Hfrom (d + i - s)) as (v & o & Ho & _); [unfold range in Hr; lia|]. replace (s + (d + i - s)) with (d + i) in Ho by lia.
    split; [apply elem_of_dom; by eexists|congruence].
  - exists m'. split; [done|]. split.
    + intros i v Hi. by apply H1, Hl.
    + intros a Ha Hn. rewrite Hb. unfold range in Ha. specialize (H2 (a - s)). replace (s + (a - s)) with a in H2 by lia.
      rewrite H2; [by destruct (has_trivial_dtor TYPE)|apply Hl; lia|]. by rewrite (elem_of_places d n l _ Hl).
    + intros a Hs Hd. apply H3; by rewrite (elem_of_places _ n l _ Hl).
Qed.

Lemma move_forward_loop_steps d s n :
  move_forward_loop (d + Z.of_nat n) (s + Z.of_nat n) n = for_each (fun i => move_one (d + i) (s + i)) (down n).
Proof.
  induction n as [|n IH]; [done|]. cbn [move_forward_loop down for_each].
  replace (d + Z.of_nat (S n) - 1) with (d + Z.of_nat n) by lia. replace (s + Z.of_nat (S n) - 1) with (s + Z.of_nat n) by lia.
  by rewrite IH.
Qed.

Lemma up_loop (step : Z -> Z -> M unit) (dst src : Z -> Z) (loop : Z -> Z -> nat -> M unit) :
  (forall d s, loop d s O = mret tt) ->
  (forall k n, loop (dst k) (src k) (S n) = (_ ← step (dst k) (src k); loop (dst (k + 1)) (src (k + 1)) n)) ->
  forall n k, loop (dst k) (src k) n = for_each (fun i => step (dst i) (src i)) (up k n).
Proof. intros H0 HS n. induction n as [|n IH]; intros k; [apply H0|]. rewrite HS, IH. done. Qed.

Lemma move_backward_loop_steps d s n :
  move_backward_loop d s n = for_each (fun i => move_one (d + i) (s + i)) (up 0 n).
Proof.
  rewrite <- (Z.add_0_r d) at 1. rewrite <- (Z.add_0_r s) at 1.
  apply (up_loop move_one (fun i => d + i) (fun i => s + i) move_backward_loop); [done|]. intros k n'. by rewrite !Z.add_assoc.
Qed.

(** *** Bytes *)

Lemma read_slots_spec s n m : (forall a, range s n a -> a ∈ dom m) ->
  exists l, read_slots s n m = Some l /\ length l = n /\ forall i, 0 <= i < Z.of_nat n -> l !! Z.to_nat i = m !! (s + i).
Proof.
  revert s. induction n as [|n IH]; intros s H; [exists []; repeat split; lia|].
  destruct (IH (s + 1)) as (l & E & Hl & Hs); [intros a Ha; apply H; unfold range in *; lia|].
  destruct (m !! s) as [x|] eqn:Ex; [|destruct (not_elem_of_dom_2 _ _ Ex); apply H; unfold range; lia].
  exists (x :: l). cbn [read_slots]. rewrite Ex, E. split; [done|]. split; [cbn; lia|]. intros i Hi.
  destruct (decide (i = 0)) as [->|Hn]; [by rewrite Z.add_0_r|]. replace (Z.to_nat i) with (S (Z.to_nat (i - 1))) by lia. cbn.
  rewrite Hs by lia. f_equal. lia.
Qed.

Lemma write_slots_spec d l m : (forall a, range d (length l) a -> a ∈ dom m) ->
  exists m', write_slots d l m = Some m' /\ (forall i, 0 <= i < Z.of_nat (length l) -> m' !! (d + i) = l !! Z.to_nat i)
    /\ forall a, ~ range d (length l) a -> m' !! a = m !! a.
Proof.
  revert d m. induction l as [|x l IH]; intros d m H; [exists m; repeat split; cbn; lia|]. cbn [length] in *.
  assert (exists y, m !! d = Some y) as [y Ey] by (apply elem_of_dom, H; unfold range; lia).
  destruct (IH (d + 1) (<[d := x]> m)) as (m' & E & Hi & Hf).
  { intros a Ha. rewrite dom_insert_L. apply elem_of_union_r, H. unfold range in *. lia. }
  exists m'. cbn [write_slots]. rewrite Ey. split; [done|]. split.
  - intros i Hr. destruct (decide (i = 0)) as [->|Hn].
    + rewrite Z.add_0_r, Hf by (unfold range; lia). by rewrite lookup_insert_eq.
    + replace (d + i) with (d + 1 + (i - 1)) by lia. rewrite Hi by lia. by replace (Z.to_nat i) with (S (Z.to_nat (i - 1))) by lia.
  - intros a Ha. unfold range in *. rewrite Hf by lia. rewrite lookup_insert_ne; [done|lia].
Qed.

Lemma memmove_spec d s n m : (forall a, range s n a \/ range d n a -> a ∈ dom m) ->
  exists m', memmove d s n m = Some (tt, m') /\ (forall i, 0 <= i < Z.of_nat n -> m' !! (d + i) = m !! (s + i))
    /\ forall a, ~ range d n a -> m' !! a = m !! a.
Proof.
  intros H. destruct (read_slots_spec s n m) as (l & E & <- & Hl); [auto|].
  destruct (write_slots_spec d l m) as (m' & E' & Hi & Hf); [auto|]. exists m'. unfold memmove. rewrite E. cbn. rewrite E'.
  split; [done|]. split; [|done]. intros i Hr. by rewrite Hi, Hl.
Qed.

Lemma movable_dom m d s n : movable m d s n -> forall a, range s n a \/ range d n a -> a ∈ dom m.
Proof.
  intros [Hfrom Hto] a H. destruct (decide (range s n a)) as [Hr|Hn].
  - destruct (Hfrom (a - s)) as (v & o & E & _); [unfold range in Hr; lia|]. replace (s + (a - s)) with a in E by lia.
    apply elem_of_dom. by eexists.
  - destruct H as [H|H]; [done|]. by apply Hto.
Qed.

(** Objects of a type whose bytes may be moved. *)
Lemma usable_moved m m' p q v : has_trivial_copy TYPE = true \/ has_trivial_move TYPE = true -> m' !! q = m !! p -> holds m p v -> holds m' q v.
Proof. intros Ht E (o & H & Ho & _). exists o. rewrite E. split; [done|]. split; [done|]. unfold usable. tauto. Qed.

Lemma moves_bytes_trivial : moves_bytes = true -> has_trivial_copy TYPE = true \/ has_trivial_move TYPE = true.
Proof. unfold moves_bytes. intros [[_ H]%andb_prop|H]%orb_prop; auto. Qed.

Lemma memmove_moved d s n m : moves_bytes = true -> movable m d s n ->
  exists m', memmove d s n m = Some (tt, m') /\ moved m m' d s n.
Proof.
  intros Hb H. destruct (memmove_spec d s n m (movable_dom _ _ _ _ H)) as (m' & E & Hi & Hf). exists m'. split; [done|]. split.
  - intros i v Hr. apply usable_moved; [by apply moves_bytes_trivial|by apply Hi].
  - intros a _ Hn. rewrite Hb. by apply Hf.
  - intros a _ Hn. by apply Hf.
Qed.

(** ** What the two functions do *)

Lemma move_forward_moved d s n m : movable m d s n -> moves_bytes = true \/ s < d \/ d + Z.of_nat n <= s ->
  exists m', move_forward_type d s n m = Some (tt, m') /\ moved m m' d s n.
Proof.
  intros H Hd. unfold move_forward_type. destruct moves_bytes eqn:Hb; [by apply memmove_moved|].
  destruct Hd as [?|Hd]; [done|]. destruct n as [|n]; [exists m; split; [done|]; split; unfold range; [lia|lia|done]|].
  rewrite move_forward_loop_steps. apply move_steps; [done|apply elem_of_down|lia| |done].
  apply (sorted_impl (fun i => 0 <= i < Z.of_nat (S n)) Z.gt); [|apply Forall_forall; intros i Hi%elem_of_down; lia|apply down_sorted].
  intros i j Hi Hj Hij. unfold in_time. lia.
Qed.

Lemma move_backward_moved d s n m : movable m d s n -> moves_bytes = true \/ d < s \/ s + Z.of_nat n <= d ->
  exists m', move_backward_type d s n m = Some (tt, m') /\ moved m m' d s n.
Proof.
  intros H Hd. unfold move_backward_type. destruct moves_bytes eqn:Hb; [by apply memmove_moved|].
  destruct Hd as [?|Hd]; [done|]. destruct n as [|n]; [exists m; split; [done|]; split; unfold range; [lia|lia|done]|].
  rewrite move_backward_loop_steps. apply move_steps; [done|intros i; rewrite elem_of_up; lia|lia| |done].
  apply (sorted_impl (fun i => 0 <= i < Z.of_nat (S n)) Z.lt); [|apply Forall_forall; intros i Hi%elem_of_up; lia|apply up_sorted].
  intros i j Hi Hj Hij. unfold in_time. lia.
Qed.

(** ** Copies *)

(** [n] items from [src] at [d]. *)
Record copied (m m' : storage) (d : Z) (src : Z -> Z) (n : nat) : Prop := {
  copied_to i v : 0 <= i < Z.of_nat n -> holds m (src i) v -> holds m' (d + i) v;
  copied_frame a : ~ range d n a -> m' !! a = m !! a
}.

Lemma copy_steps step (src : Z -> Z) m d n : steps_right step false ->
  (forall i, 0 <= i < Z.of_nat n -> (exists v, holds m (src i) v) /\ ~ range d n (src i)) -> (forall a, range d n a -> free_for m a) ->
  exists m', for_each (fun i => step (d + i) (src i)) (up 0 n) m = Some (tt, m') /\ copied m m' d src n.
Proof.
  intros Hstep Hsrc Hroom. assert (forall i, i ∈ up 0 n <-> 0 <= i < Z.of_nat n) as Hl by (intros i; rewrite elem_of_up; lia).
  destruct (steps_correct step false (fun i => d + i) src (up 0 n) m Hstep) as (m' & E & [H1 H2 H3]).
  - apply Forall_forall. intros i Hi%Hl. destruct (Hsrc i Hi) as [Hv Hn]. split; [unfold range in Hn; lia|]. split; [done|].
    left. apply Hroom. unfold range. lia.
  - apply (sorted_impl (fun i => 0 <= i < Z.of_nat n) Z.lt); [|apply Forall_forall; intros i; apply Hl|apply up_sorted].
    intros i j Hi Hj Hij. destruct (Hsrc j Hj) as [_ Hn]. unfold in_time, range in *. repeat split; [lia|lia|done].
  - exists m'. split; [done|]. split; [intros i v Hi; by apply H1, Hl|]. intros a Hd.
    assert (a ∉ map (fun i => d + i) (up 0 n)) as Hn by by rewrite (elem_of_places d n _ _ Hl).
    destruct (decide (a ∈ map src (up 0 n))) as [(i & -> & Hi)%list_elem_of_fmap|Hs]; [by apply H2|by apply H3].
Qed.

Definition apart (d s : Z) (n : nat) : Prop := d + Z.of_nat n <= s \/ s + Z.of_nat n <= d.

Lemma copy_type_copied d s n m : (forall i, 0 <= i < Z.of_nat n -> exists v, holds m (s + i) v) ->
  (forall a, range d n a -> free_for m a) -> apart d s n ->
  exists m', copy_type d s n m = Some (tt, m') /\ copied m m' d (fun i => s + i) n.
Proof.
  intros Hs Hd Ha. unfold apart in Ha. unfold copy_type. destruct (has_trivial_copy TYPE) eqn:Ht; cbn [negb].
  - unfold memcpy. replace (_ || _) with true by (symmetry; apply orb_true_iff; rewrite !Z.leb_le; lia).
    destruct (memmove_spec d s n m) as (m' & E & Hi & Hf).
    { intros a [Hr|Hr]; [|by apply Hd]. destruct (Hs (a - s)) as (v & o & Eo & _); [unfold range in Hr; lia|].
      replace (s + (a - s)) with a in Eo by lia. apply elem_of_dom. by eexists. }
    exists m'. split; [done|]. split; [|done]. intros i v Hr. apply usable_moved; [by left|by apply Hi].
  - replace (copy_loop d s n) with (copy_loop (d + 0) (s + 0) n) by by rewrite !Z.add_0_r.
    rewrite (up_loop copy_construct (fun i => d + i) (fun i => s + i) copy_loop); [|done|intros k n'; by rewrite !Z.add_assoc].
    apply copy_steps; [exact copy_construct_right| |done]. intros i Hi. split; [by apply Hs|]. unfold range. lia.
Qed.

Lemma splat_loop_steps step where_ what n : splat_loop step where_ what n = for_each (fun i => step (where_ + i) what) (up 0 n).
Proof.
  replace (splat_loop step where_ what n) with (splat_loop step (where_ + 0) what n) by by rewrite Z.add_0_r.
  apply (up_loop step (fun i => where_ + i) (fun _ => what) (fun w s => splat_loop step w s)); [done|]. intros k n'. by rewrite Z.add_assoc.
Qed.

Lemma splat_type_copied where_ what n m v : holds m what v -> ~ range where_ n what -> (forall a, range where_ n a -> free_for m a) ->
  exists m', splat_type where_ what n m = Some (tt, m') /\ copied m m' where_ (fun _ => what) n.
Proof.
  intros Hv Hn Hroom. unfold splat_type.
  destruct (has_trivial_copy TYPE); cbn [negb]; rewrite splat_loop_steps;
    (apply copy_steps; [first [exact assign_right|exact copy_construct_right]|by eauto|done]).
Qed.

(** ** The beginning and the end of objects *)

(** Every place of a range set, by steps from the first one. *)
Lemma fill_loop (step : Z -> M unit) (loop : Z -> nat -> M unit) (x : Z -> option object) (P : storage -> Z -> Prop) :
  (forall p, loop p O = mret tt) -> (forall p n, loop p (S n) = (_ ← step p; loop (p + 1) n)) ->
  (forall m m' p, m' !! p = m !! p -> P m p -> P m' p) -> (forall m p, P m p -> step p m = Some (tt, <[p := x p]> m)) ->
  forall n p m, (forall a, range p n a -> P m a) ->
  exists m', loop p n m = Some (tt, m') /\ forall a, (range p n a -> m' !! a = Some (x a)) /\ (~ range p n a -> m' !! a = m !! a).
Proof.
  intros H0 HS Hext Hstep n. induction n as [|n IH]; intros p m H.
  { exists m. rewrite H0. split; [done|]. unfold range. intros a. split; [lia|done]. }
  destruct (IH (p + 1) (<[p := x p]> m)) as (m' & E & Ha).
  { intros a Ha. apply (Hext m); [apply lookup_insert_ne|apply H]; unfold range in *; lia. }
  exists m'. rewrite HS, (bind_some _ _ _ _ _ (Hstep m p (H p ltac:(unfold range; lia)))). split; [done|]. intros a.
  destruct (Ha a) as [H1 H2]. unfold range in *. split; intros Hr.
  - destruct (decide (a = p)) as [->|Hn]; [|apply H1; lia]. rewrite H2 by lia. apply lookup_insert_eq.
  - rewrite H2 by lia. apply lookup_insert_ne. lia.
Qed.

Lemma construct_type_spec p n m : (forall a, range p n a -> free_for m a) ->
  exists m', construct_type p n m = Some (tt, m') /\ (forall a, ~ range p n a -> m' !! a = m !! a)
    /\ (has_trivial_ctor TYPE = false -> forall a, range p n a -> holds m' a default) /\ (has_trivial_ctor TYPE = true -> m' = m).
Proof.
  intros H. unfold construct_type. destruct (has_trivial_ctor TYPE); cbn [negb]; [by exists m|].
  destruct (fill_loop (fun p => construct p default) construct_loop (fun p => Some (Object p default)) free_for) with (n := n) (p := p) (m := m)
    as (m' & E & Ha); [done|done|apply free_for_ext|intros; by apply construct_free|done|].
  exists m'. split; [done|]. split; [intros a; apply Ha|]. split; [|done]. intros _ a Hr. exists (Object a default).
  split; [by apply Ha|]. split; [done|by right; right].
Qed.

Lemma destroy_type_spec p n m : (forall a, range p n a -> exists v, holds m a v) ->
  exists m', destroy_type p n m = Some (tt, m') /\ forall a,
    m' !! a = if decide (range p n a) then (if has_trivial_dtor TYPE then m !! a else Some None) else m !! a.
Proof.
  intros H. unfold destroy_type. destruct (has_trivial_dtor TYPE); cbn [negb].
  { exists m. split; [done|]. intros a. by destruct (decide _). }
  destruct (fill_loop destroy destroy_loop (fun _ => None) (fun m p => exists v, holds m p v)) with (n := n) (p := p) (m := m)
    as (m' & E & Ha); [done|done|intros ? ? ? ? [v Hv]; exists v; by eapply holds_ext| |done|].
  { intros m0 p0 [v Hv]. apply object_at_holds in Hv as (o & E & _). unfold destroy. by rewrite (bind_some _ _ _ _ _ E). }
  exists m'. split; [done|]. intros a. destruct (decide (range p n a)) as [Hr|Hr]; by apply Ha.
Qed.
End Storage.

(** ** Comparisons *)

(** [cmp] compares as a total order does: the sign of its result says which of
    two is the smaller one, and 0 that neither is. *)
Class Comparison {T} (cmp : T -> T -> Z) : Prop := {
  cmp_opposite x y : cmp y x = - cmp x y;
  cmp_trans x y z : cmp x y < 0 -> cmp y z <= 0 -> cmp x z < 0;
  cmp_equal x y z : cmp x y = 0 -> cmp y z = 0 -> cmp x z = 0
}.

(** [operator<] is a strict total order. *)
Class TotalLess {T} (ltb : T -> T -> bool) : Prop := {
  ltb_irrefl x : ltb x x = false;
  ltb_trans x y z : ltb x y = true -> ltb y z = true -> ltb x z = true;
  ltb_total x y : ltb x y = false -> ltb y x = false -> x = y
}.

#[export] Instance Z_less : TotalLess Z.ltb.
Proof. split; intros *; rewrite ?Z.ltb_lt, ?Z.ltb_ge; lia. Qed.

Lemma compare_type_cases {T} (ltb : T -> T -> bool) `{TotalLess T ltb} x y :
  (ltb x y = true /\ ltb y x = false /\ compare_type ltb x y = -1) \/ (x = y /\ compare_type ltb x y = 0)
  \/ (ltb x y = false /\ ltb y x = true /\ compare_type ltb x y = 1).
Proof.
  unfold compare_type, strictly_order_type. destruct (ltb x y) eqn:Exy, (ltb y x) eqn:Eyx; auto.
  - pose proof (ltb_trans _ _ _ Exy Eyx) as Hx. by rewrite ltb_irrefl in Hx.
  - right. left. split; [by apply ltb_total|done].
Qed.

(** [compare_type] of pairs looks at the keys. *)
Lemma compare_pairs {K V} (ltb : K -> K -> bool) (p o : key_value_pair_t K V) :
  compare_type (pair_ltb ltb) p o = compare_type ltb (key p) (key o).
Proof.
  unfold compare_type, pair_ltb, strictly_order_type at 1 3. unfold strictly_order_type. by destruct (ltb _ _), (ltb _ _).
Qed.

#[export] Instance compare_pairs_comparison {K V} (ltb : K -> K -> bool) `{TotalLess K ltb} :
  Comparison (compare_type (pair_ltb (VALUE := V) ltb)).
Proof.
  split; intros [x ?] [y ?] *; rewrite !compare_pairs; cbn [key].
  - unfold compare_type. lia.
  - destruct z as [z ?]. cbn [key]. destruct (compare_type_cases ltb x y) as [(H1 & _ & E1)|[[-> E1]|(_ & H1 & E1)]];
      rewrite E1; try lia. intros _. destruct (compare_type_cases ltb y z) as [(H2 & _ & E2)|[[-> E2]|(_ & _ & E2)]]; rewrite E2; try lia.
    intros _. pose proof (ltb_trans _ _ _ H1 H2) as H3. unfold compare_type, strictly_order_type. rewrite H3.
    destruct (ltb z x) eqn:E; [|lia]. pose proof (ltb_trans _ _ _ H3 E) as Hx. by rewrite ltb_irrefl in Hx.
  - destruct z as [z ?]. cbn [key]. destruct (compare_type_cases ltb x y) as [(_ & _ & E1)|[[-> E1]|(_ & _ & E1)]]; rewrite E1; lia.
Qed.

(** ** Hash codes *)

(** The hash of a number of 64 bits combines its halves; it is the same for a
    signed number and its representation, which [hash_double] relies on. *)
Lemma hash_int64_halves v : hash_int64 v = Z.lxor (u32 (v >> 32)) (u32 v) /\ hash_int64 (u64 v) = hash_int64 v.
Proof.
  unfold hash_int64, u32, u64. split.
  - apply Z.bits_inj'. intros n Hn. rewrite ?Z.land_spec, ?Z.lxor_spec, ?Z.land_spec. by destruct (Z.testbit (v >> 32) n), (Z.testbit v n), (Z.testbit _ n).
  - apply Z.bits_inj'. intros n Hn. rewrite !Z.land_spec, !Z.lxor_spec, !Z.shiftr_spec, !Z.land_spec by done.
    change 0xffffffff with (Z.ones 32). change 0xffffffffffffffff with (Z.ones 64).
    destruct (decide (n < 32)).
    + rewrite !Z.testbit_ones_nonneg by lia. rewrite !(proj2 (Z.ltb_lt _ _)) by lia. by rewrite !andb_true_r.
    + rewrite (Z.testbit_ones_nonneg 32) by lia. rewrite (proj2 (Z.ltb_ge n 32)) by lia. by rewrite !andb_false_r.
Qed.

(** * Properties *)

(** C20. Moving items inside a buffer is safe in the direction the function is
    for, for every type its traits describe: when the target starts above the
    source ([move_forward_type], to make room), or below it
    ([move_backward_type], to close a gap), or the two do not overlap, every
    item arrives as an object that may be used at its new place, none is
    overwritten while it has a destructor to run, all old places are left with
    their destructors run where the type has one and items are moved one by
    one, and no other place changes; bytes may be moved either way. *)
Theorem move_type_correct {V} (TYPE : type) (m : gmap Z (option (@object V))) d s n :
  movable (V := V) TYPE m d s n ->
  (moves_bytes TYPE = true \/ s < d \/ d + Z.of_nat n <= s ->
     exists m', move_forward_type TYPE d s n m = Some (tt, m') /\ moved TYPE m m' d s n)
  /\ (moves_bytes TYPE = true \/ d < s \/ s + Z.of_nat n <= d ->
     exists m', move_backward_type TYPE d s n m = Some (tt, m') /\ moved TYPE m m' d s n).
Proof. intros H. split; [by apply move_forward_moved|by apply move_backward_moved]. Qed.

(** Two objects of a class without traits, and a free place behind them. *)
Definition two_objects : gmap Z (option (@object Z)) :=
  <[0 := Some (Object 0 10)]> (<[1 := Some (Object 1 11)]> {[ 2 := None ]}).
Definition plain_class : type := Declared false false false false.

Lemma move_type_correct_witness :
  exists m', move_forward_type plain_class 1 0 2 two_objects = Some (tt, m') /\ holds plain_class m' 1 10 /\ holds plain_class m' 2 11
    /\ m' !! 0 = Some None.
Proof.
  assert (movable plain_class two_objects 1 0 2) as H.
  { split.
    - intros i Hi. assert (i = 0 \/ i = 1) as [->| ->] by lia; eexists _, (Object _ _);
        (split; [vm_compute; reflexivity|]); (split; [reflexivity|]); by right; right.
    - intros a Ha Hn. unfold range in *. assert (a = 2) as -> by lia. split; [by apply elem_of_dom; eexists|by vm_compute]. }
  destruct (move_type_correct plain_class two_objects 1 0 2 H) as [Hf _]. destruct Hf as (m' & E & [Hto Hfrom _]); [right; left; lia|].
  exists m'. split; [exact E|]. split; [apply (Hto 0); [lia|]|split; [apply (Hto 1); [lia|]|apply Hfrom; unfold range; lia]].
  - exists (Object 0 10). split; [by vm_compute|]. split; [done|by right; right].
  - exists (Object 1 11). split; [by vm_compute|]. split; [done|by right; right].
Defined.

(** The other function would overwrite the second object. *)
Example move_backward_overwrites : move_backward_type plain_class 1 0 2 two_objects = None.
Proof. by vm_compute. Qed.

(** Items begin and end as the traits of their type ask: places made items
    hold default objects where a constructor is to be called and are untouched
    where it is not; copies of a range or of one item, by bytes or by
    constructors, are objects with the contents of the originals, which stay;
    destroyed places are raw where a destructor is to be called; and no place
    outside the range changes. *)
Theorem item_lifetime_correct {V} (default : V) (TYPE : type) (m : gmap Z (option (@object V))) p n :
  ((forall a, range p n a -> free_for TYPE m a) ->
     (exists m', construct_type default TYPE p n m = Some (tt, m') /\ (forall a, ~ range p n a -> m' !! a = m !! a)
        /\ (has_trivial_ctor TYPE = false -> forall a, range p n a -> holds TYPE m' a default) /\ (has_trivial_ctor TYPE = true -> m' = m))
     /\ (forall s, (forall i, 0 <= i < Z.of_nat n -> exists v, holds TYPE m (s + i) v) -> apart p s n ->
        exists m', copy_type TYPE p s n m = Some (tt, m') /\ copied TYPE m m' p (fun i => s + i) n)
     /\ (forall what v, holds TYPE m what v -> ~ range p n what ->
        exists m', splat_type TYPE p what n m = Some (tt, m') /\ copied TYPE m m' p (fun _ => what) n))
  /\ ((forall a, range p n a -> exists v, holds TYPE m a v) ->
     exists m', destroy_type TYPE p n m = Some (tt, m') /\ forall a,
       m' !! a = if decide (range p n a) then (if has_trivial_dtor TYPE then m !! a else Some None) else m !! a).
Proof.
  split; [intros H; split; [by apply construct_type_spec|split]|apply destroy_type_spec].
  - intros s Hs Ha. by apply copy_type_copied.
  - intros what v Hv Hn. by eapply splat_type_copied.
Qed.

Lemma item_lifetime_correct_witness :
  exists m', splat_type plain_class 2 0 1 two_objects = Some (tt, m') /\ holds plain_class m' 2 10.
Proof.
  assert (forall a, range 2 1 a -> free_for plain_class two_objects a) as H.
  { intros a Ha. unfold range in Ha. assert (a = 2) as -> by lia. split; [by apply elem_of_dom; eexists|by vm_compute]. }
  assert (holds plain_class two_objects 0 10) as H0.
  { exists (Object 0 10). split; [by vm_compute|]. split; [done|by right; right]. }
  destruct (item_lifetime_correct 0 plain_class two_objects 2 1) as [Hc _]. destruct (Hc H) as (_ & _ & Hs).
  destruct (Hs 0 10 H0) as (m' & E & [Hto _]); [unfold range; lia|]. exists m'. split; [exact E|]. apply (Hto 0); [lia|exact H0].
Defined.
