(* ===== verification/SortedVectors.v ===== *)
(** * Sorted vectors: utils/SortedVector.h and utils/KeyedVector.h

    A KeyedVector is a map kept as a SortedVector of pairs, and a SortedVector is
    a face of SortedVectorImpl, which is declared in VectorImpl.h and whose code
    is not in the repository.  It is the class [SortedVectorImpl] below, with
    what the comments of its declaration say as the laws.  These include that
    memory is there: the error that Vector.h lets add return instead of an index
    is the one of a failed allocation, and is left out.  A vector is the list of
    its items; what an index outside it gives is undefined. *)
From S2P Require Import Prelude Linked TypeHelpers.

(** ** SortedVectorImpl *)

Class SortedVectorImpl := {
  impl_indexOf {T} : (T -> T -> Z) -> list T -> T -> Z;
  impl_orderOf {T} : (T -> T -> Z) -> list T -> T -> Z;
  impl_add {T} : (T -> T -> Z) -> list T -> T -> Z * list T;
  impl_merge {T} : (T -> T -> Z) -> list T -> list T -> Z * list T;
  impl_remove {T} : (T -> T -> Z) -> list T -> T -> Z * list T;
  impl_removeItemsAt {T} : list T -> Z -> Z -> Z * list T;
  impl_clear {T} : list T -> list T
}.

Definition sorted {T} (cmp : T -> T -> Z) : list T -> Prop := StronglySorted (fun x y => cmp x y < 0).

(** The place of [x] between the items below it and those above it. *)
Definition between {T} (cmp : T -> T -> Z) (l1 : list T) (x : T) (l2 : list T) : Prop :=
  Forall (fun y => cmp y x < 0) l1 /\ Forall (fun y => cmp x y < 0) l2.

Class SortedVectorLaws `(SortedVectorImpl) : Prop := {
  indexOf_found {T} (cmp : T -> T -> Z) `{!Comparison cmp} l1 y l2 x :
    sorted cmp (l1 ++ y :: l2) -> cmp y x = 0 -> impl_indexOf cmp (l1 ++ y :: l2) x = Z.of_nat (length l1);
  indexOf_missing {T} (cmp : T -> T -> Z) `{!Comparison cmp} l x :
    sorted cmp l -> Forall (fun y => cmp y x <> 0) l -> impl_indexOf cmp l x < 0;
  orderOf_place {T} (cmp : T -> T -> Z) `{!Comparison cmp} l1 x l2 :
    sorted cmp (l1 ++ l2) -> between cmp l1 x l2 -> impl_orderOf cmp (l1 ++ l2) x = Z.of_nat (length l1);
  add_new {T} (cmp : T -> T -> Z) `{!Comparison cmp} l1 x l2 :
    sorted cmp (l1 ++ l2) -> between cmp l1 x l2 -> impl_add cmp (l1 ++ l2) x = (Z.of_nat (length l1), l1 ++ x :: l2);
  add_replaces {T} (cmp : T -> T -> Z) `{!Comparison cmp} l1 y l2 x :
    sorted cmp (l1 ++ y :: l2) -> cmp y x = 0 -> impl_add cmp (l1 ++ y :: l2) x = (Z.of_nat (length l1), l1 ++ x :: l2);
  remove_found {T} (cmp : T -> T -> Z) `{!Comparison cmp} l1 y l2 x :
    sorted cmp (l1 ++ y :: l2) -> cmp y x = 0 -> impl_remove cmp (l1 ++ y :: l2) x = (Z.of_nat (length l1), l1 ++ l2);
  remove_missing {T} (cmp : T -> T -> Z) `{!Comparison cmp} l x :
    sorted cmp l -> Forall (fun y => cmp y x <> 0) l -> (impl_remove cmp l x).1 < 0 /\ (impl_remove cmp l x).2 = l;
  removeItemsAt_inside {T} (l1 l2 l3 : list T) :
    impl_removeItemsAt (l1 ++ l2 ++ l3) (Z.of_nat (length l1)) (Z.of_nat (length l2)) = (Z.of_nat (length l1), l1 ++ l3);
  clear_all {T} (l : list T) : impl_clear l = []
}.

Definition BAD_INDEX : Z := -75.

(** ** SortedVector *)

Module SortedVector.
Section SortedVector.
Context `{SortedVectorImpl} {TYPE : Type} (ltb : TYPE -> TYPE -> bool).

Definition do_compare (lhs rhs : TYPE) : Z := compare_type ltb lhs rhs.

Definition clear (v : list TYPE) : list TYPE := impl_clear v.
Definition size (v : list TYPE) : Z := Z.of_nat (length v).
Definition isEmpty (v : list TYPE) : bool := size v =? 0.
Definition indexOf (v : list TYPE) (item : TYPE) : Z := impl_indexOf do_compare v item.
Definition orderOf (v : list TYPE) (item : TYPE) : Z := impl_orderOf do_compare v item.
Definition itemAt (v : list TYPE) (index : Z) : option TYPE := if index <? 0 then None else v !! Z.to_nat index.
Definition top (v : list TYPE) : option TYPE := itemAt v (size v - 1).
Definition add (v : list TYPE) (item : TYPE) : Z * list TYPE := impl_add do_compare v item.
(** The item is written through the reference that the code returns. *)
Definition editItemAt (v : list TYPE) (index : Z) (f : TYPE -> TYPE) : option (list TYPE) :=
  x ← itemAt v index; Some (<[Z.to_nat index := f x]> v).
Definition merge (v vector : list TYPE) : Z * list TYPE := impl_merge do_compare v vector.
Definition remove (v : list TYPE) (item : TYPE) : Z * list TYPE := impl_remove do_compare v item.
Definition removeItemsAt (v : list TYPE) (index count : Z) : Z * list TYPE := impl_removeItemsAt v index count.
Definition removeAt (v : list TYPE) (index : Z) : Z * list TYPE := removeItemsAt v index 1.
End SortedVector.
End SortedVector.

(** ** KeyedVector *)

Module KeyedVector.
Section KeyedVector.
Context `{SortedVectorImpl} {KEY VALUE : Type} (ltb : KEY -> KEY -> bool) (default : VALUE).

Abbreviation mVector := (list (key_value_pair_t KEY VALUE)).
Abbreviation less := (pair_ltb ltb).

(** [key_value_pair_t(key)] *)
Definition only_key (k : KEY) : key_value_pair_t KEY VALUE := Pair k default.

Definition clear (v : mVector) : mVector := SortedVector.clear v.
Definition size (v : mVector) : Z := SortedVector.size v.
Definition isEmpty (v : mVector) : bool := SortedVector.isEmpty v.

Definition indexOfKey (v : mVector) (k : KEY) : Z := SortedVector.indexOf less v (only_key k).

(** A key that is not there ends the program. *)
Definition valueFor (v : mVector) (k : KEY) : option VALUE :=
  let i := indexOfKey v k in
  if i <? 0 then None else value <$> SortedVector.itemAt v i.

Definition valueAt (v : mVector) (index : Z) : option VALUE := value <$> SortedVector.itemAt v index.
Definition keyAt (v : mVector) (index : Z) : option KEY := key <$> SortedVector.itemAt v index.

Definition set_value (x : VALUE) (p : key_value_pair_t KEY VALUE) : key_value_pair_t KEY VALUE := Pair (key p) x.

(** The references are written to at once. *)
Definition editValueFor (v : mVector) (k : KEY) (x : VALUE) : option mVector :=
  let i := indexOfKey v k in
  if i <? 0 then None else SortedVector.editItemAt v i (set_value x).
Definition editValueAt (v : mVector) (index : Z) (x : VALUE) : option mVector := SortedVector.editItemAt v index (set_value x).

Definition add (v : mVector) (k : KEY) (x : VALUE) : Z * mVector := SortedVector.add less v (Pair k x).

Definition replaceValueFor (v : mVector) (k : KEY) (x : VALUE) : Z * mVector :=
  let pair := Pair k x in
  let '(_, v) := SortedVector.remove less v pair in
  SortedVector.add less v pair.

Definition replaceValueAt (v : mVector) (index : Z) (item : VALUE) : option (Z * mVector) :=
  if index <? size v then v ← SortedVector.editItemAt v index (set_value item); Some (index, v) else Some (BAD_INDEX, v).

Definition removeItem (v : mVector) (k : KEY) : Z * mVector := SortedVector.remove less v (only_key k).
Definition removeItemsAt (v : mVector) (index count : Z) : Z * mVector := SortedVector.removeItemsAt v index count.

(** DefaultKeyedVector *)
Definition valueFor_default (mDefault : VALUE) (v : mVector) (k : KEY) : option VALUE :=
  let i := indexOfKey v k in
  if i >=? 0 then valueAt v i else Some mDefault.
End KeyedVector.
End KeyedVector.

(** * An implementation

    Linear search; it shows that the laws can hold. *)

Fixpoint place_of {T} (cmp : T -> T -> Z) (l : list T) (x : T) : nat :=
  match l with
  | [] => O
  | y :: l => if cmp y x <? 0 then S (place_of cmp l x) else O
  end.

Definition found {T} (cmp : T -> T -> Z) (l : list T) (x : T) : bool :=
  match l !! place_of cmp l x with Some y => cmp y x =? 0 | None => false end.

Definition linear_search : SortedVectorImpl := {|
  impl_indexOf T cmp l x := if found cmp l x then Z.of_nat (place_of cmp l x) else -2;
  impl_orderOf T cmp l x := Z.of_nat (place_of cmp l x);
  impl_add T cmp l x := let i := place_of cmp l x in
    (Z.of_nat i, take i l ++ x :: drop (if found cmp l x then S i else i) l);
  impl_merge T cmp l l' := (0, foldr (fun x l => let i := place_of cmp l x in take i l ++ x :: drop (if found cmp l x then S i else i) l) l l');
  impl_remove T cmp l x := let i := place_of cmp l x in
    if found cmp l x then (Z.of_nat i, take i l ++ drop (S i) l) else (-2, l);
  impl_removeItemsAt T l i n := (i, take (Z.to_nat i) l ++ drop (Z.to_nat (i + n)) l);
  impl_clear T l := []
|}.

Section Places.
Context {T} (cmp : T -> T -> Z) `{!Comparison cmp}.

Lemma cmp_swap x y : cmp x y < 0 -> ~ cmp y x < 0.
Proof. rewrite (cmp_opposite (cmp := cmp) x y). lia. Qed.

Lemma place_of_app l1 l2 x : Forall (fun y => cmp y x < 0) l1 -> (forall y, head l2 = Some y -> ~ cmp y x < 0) ->
  place_of cmp (l1 ++ l2) x = length l1.
Proof.
  intros H1 H2. induction H1 as [|y l1 Hy H1 IH]; cbn [app place_of length].
  - destruct l2 as [|y l2]; [done|]. cbn [place_of]. rewrite (proj2 (Z.ltb_ge _ _)); [done|]. specialize (H2 y eq_refl). lia.
  - by rewrite (proj2 (Z.ltb_lt _ _) Hy), IH.
Qed.

(** An item equal to [x] stands where [x] belongs. *)
Lemma place_of_equal l1 y l2 x : sorted cmp (l1 ++ y :: l2) -> cmp y x = 0 ->
  place_of cmp (l1 ++ y :: l2) x = length l1 /\ found cmp (l1 ++ y :: l2) x = true.
Proof.
  intros HS He. assert (place_of cmp (l1 ++ y :: l2) x = length l1) as E.
  { apply place_of_app; [|intros ? [= <-]; lia]. apply Forall_forall. intros z Hz. unfold sorted in HS.
    assert (cmp z y < 0) as Hzy.
    { apply list_elem_of_split in Hz as (a & b & ->). rewrite <- app_assoc in HS. cbn in HS.
      apply StronglySorted_app in HS as (_ & _ & HS). apply StronglySorted_inv in HS as [_ HS]. rewrite Forall_forall in HS.
      apply HS. set_solver. }
    apply (cmp_trans (cmp := cmp) z y x); [done|lia]. }
  split; [done|]. unfold found. rewrite E, list_lookup_middle by done. by rewrite He.
Qed.

Lemma found_missing l x : Forall (fun y => cmp y x <> 0) l -> found cmp l x = false.
Proof.
  intros H. unfold found. destruct (l !! _) as [y|] eqn:E; [|done]. apply list_elem_of_lookup_2 in E. rewrite Forall_forall in H.
  apply Z.eqb_neq. by apply H.
Qed.

Lemma place_of_between l1 x l2 : between cmp l1 x l2 -> place_of cmp (l1 ++ l2) x = length l1 /\ found cmp (l1 ++ l2) x = false.
Proof.
  intros [H1 H2]. split.
  - apply place_of_app; [done|]. intros y Hy. destruct l2 as [|z l2]; [done|]. injection Hy as ->. apply Forall_cons in H2 as [H2 _].
    by apply cmp_swap.
  - apply found_missing. apply Forall_app. split; eapply Forall_impl; [exact H1| |exact H2|]; cbn; intros y Hy; [lia|].
    rewrite (cmp_opposite (cmp := cmp) x y). lia.
Qed.
End Places.

Lemma drop_middle {T} (l1 : list T) y l2 : drop (S (length l1)) (l1 ++ y :: l2) = l2.
Proof. by induction l1. Qed.

#[export] Instance linear_search_laws : SortedVectorLaws linear_search.
Proof.
  split; cbn [linear_search impl_indexOf impl_orderOf impl_add impl_remove impl_removeItemsAt impl_clear].
  - intros T cmp ? l1 y l2 x HS He. by destruct (place_of_equal cmp _ _ _ _ HS He) as [-> ->].
  - intros T cmp ? l x _ H. by rewrite (found_missing cmp _ _ H).
  - intros T cmp ? l1 x l2 _ H. by destruct (place_of_between cmp _ _ _ H) as [-> _].
  - intros T cmp ? l1 x l2 _ H. destruct (place_of_between cmp _ _ _ H) as [-> ->]. by rewrite take_app_length, drop_app_length.
  - intros T cmp ? l1 y l2 x HS He. destruct (place_of_equal cmp _ _ _ _ HS He) as [-> ->]. by rewrite take_app_length, drop_middle.
  - intros T cmp ? l1 y l2 x HS He. destruct (place_of_equal cmp _ _ _ _ HS He) as [-> ->]. by rewrite take_app_length, drop_middle.
  - intros T cmp ? l x _ H. by rewrite (found_missing cmp _ _ H).
  - intros T l1 l2 l3. rewrite Nat2Z.id, <- Nat2Z.inj_add, Nat2Z.id, take_app_length. rewrite app_assoc, <- length_app.
    by rewrite drop_app_length.
  - done.
Qed.

(** * Maps *)

(** What a KeyedVector is for: a finite map, whose keys have their places in
    the order. *)
Section Maps.
Context {K V : Type} `{Countable K} (ltb : K -> K -> bool) `{!TotalLess ltb}.

#[local] Abbreviation mVector := (list (key_value_pair_t K V)).
#[local] Abbreviation cmp := (SortedVector.do_compare (pair_ltb (VALUE := V) ltb)).

Definition pair_of (p : key_value_pair_t K V) : K * V := (key p, value p).

Record represents (v : mVector) (m : gmap K V) : Prop := {
  represents_sorted : sorted cmp v;
  represents_map : list_to_map (map pair_of v) = m
}.

(** The number of keys below [k]. *)
Definition rank (m : gmap K V) (k : K) : Z := Z.of_nat (base.size (filter (fun kv => ltb kv.1 k = true) m)).

Lemma cmp_keys p o : (cmp p o < 0 <-> ltb (key p) (key o) = true) /\ (cmp p o = 0 <-> key p = key o).
Proof.
  unfold SortedVector.do_compare. rewrite compare_pairs.
  destruct (compare_type_cases ltb (key p) (key o)) as [(E1 & E2 & ->)|[[-> ->]|(E1 & E2 & ->)]]; rewrite ?E1, ?ltb_irrefl.
  - split; [done|]. split; [done|]. intros E. rewrite E, ltb_irrefl in E1. done.
  - done.
  - split; [done|]. split; [done|]. intros E. rewrite E, ltb_irrefl in E2. done.
Qed.

(** A sorted list is cut in two at any key, with or without its item. *)
Lemma cut_at v k : sorted cmp v ->
  (exists l1 x l2, v = l1 ++ Pair k x :: l2 /\ forall y, between cmp l1 (Pair k y) l2)
  \/ (exists l1 l2, v = l1 ++ l2 /\ forall y, between cmp l1 (Pair k y) l2).
Proof.
  induction v as [|[k' x] v IH]; intros HS; [right; exists [], []; split; [done|by split]|].
  apply StronglySorted_inv in HS as [HS Hx]. destruct (compare_type_cases ltb k' k) as [(E & _ & _)|[[-> _]|(_ & E & _)]].
  - destruct (IH HS) as [(l1 & y & l2 & -> & Hb)|(l1 & l2 & -> & Hb)].
    + left. exists (Pair k' x :: l1), y, l2. split; [done|]. intros z. destruct (Hb z). split; [|done]. constructor; [|done].
      by apply cmp_keys.
    + right. exists (Pair k' x :: l1), l2. split; [done|]. intros z. destruct (Hb z). split; [|done]. constructor; [|done].
      by apply cmp_keys.
  - left. exists [], x, v. split; [done|]. intros z. split; [done|]. eapply Forall_impl; [exact Hx|]. cbn. intros p Hp.
    apply cmp_keys in Hp. by apply cmp_keys.
  - right. exists [], (Pair k' x :: v). split; [done|]. intros z. split; [done|]. constructor; [by apply cmp_keys|].
    eapply Forall_impl; [exact Hx|]. cbn. intros p Hp. apply cmp_keys in Hp. apply cmp_keys. by eapply ltb_trans.
Qed.

Lemma sorted_between l1 x l2 : sorted cmp (l1 ++ x :: l2) <-> sorted cmp (l1 ++ l2) /\ between cmp l1 x l2.
Proof.
  unfold sorted, between. rewrite !StronglySorted_app, StronglySorted_cons, !Forall_forall. split.
  - intros (H1 & H2 & H3 & H4). repeat split; auto; intros; apply H1; set_solver.
  - intros ((H1 & H2 & H3) & H4 & H5). repeat split; auto. intros y z Hy [->|Hz]%elem_of_cons; auto.
Qed.

Lemma between_keys l1 k x l2 p : between cmp l1 (Pair k x) l2 -> p ∈ l1 ++ l2 ->
  key p <> k /\ (p ∈ l1 <-> ltb (key p) k = true).
Proof.
  intros [H1 H2]. rewrite !Forall_forall in *. intros [Hp|Hp]%elem_of_app.
  - specialize (H1 p Hp). apply cmp_keys in H1. cbn in H1. split; [|done]. intros E. by rewrite E, ltb_irrefl in H1.
  - specialize (H2 p Hp). apply cmp_keys in H2. cbn in H2. split; [intros E; by rewrite E, ltb_irrefl in H2|].
    split; intros H3; exfalso.
    + specialize (H1 p H3). apply cmp_keys in H1. cbn in H1. pose proof (ltb_trans _ _ _ H1 H2) as Hx. by rewrite ltb_irrefl in Hx.
    + pose proof (ltb_trans _ _ _ H3 H2) as Hx. by rewrite ltb_irrefl in Hx.
Qed.

Lemma sorted_nodup v : sorted cmp v -> NoDup (map pair_of v).*1.
Proof.
  induction v as [|p v IH]; [constructor|]. intros [HS Hp]%StronglySorted_inv. cbn. constructor; [|by apply IH].
  intros (q & Eq & (p' & -> & Hp')%list_elem_of_fmap)%list_elem_of_fmap. rewrite Forall_forall in Hp. specialize (Hp _ Hp').
  apply cmp_keys in Hp. cbn in Eq. by rewrite Eq, ltb_irrefl in Hp.
Qed.

Lemma lookup_represents v m k x : represents v m -> m !! k = Some x <-> Pair k x ∈ v.
Proof.
  intros [HS <-]. rewrite <- elem_of_list_to_map by by apply sorted_nodup. split.
  - intros ([k' x'] & E & Hin)%list_elem_of_fmap. injection E as -> ->. done.
  - intros H1. apply list_elem_of_fmap. by exists (Pair k x).
Qed.

(** A vector represents the map with the same entries. *)
Lemma represents_iff v m : sorted cmp v -> (forall k x, m !! k = Some x <-> Pair k x ∈ v) -> represents v m.
Proof.
  intros HS Hm. split; [done|]. apply map_eq. intros k. apply option_eq. intros x. rewrite Hm.
  by apply lookup_represents.
Qed.

Lemma rank_at v m l1 k l2 : represents v m -> (v = l1 ++ l2 /\ (forall x, between cmp l1 (Pair k x) l2)
    \/ exists x, v = l1 ++ Pair k x :: l2) -> rank m k = Z.of_nat (length l1).
Proof.
  intros HR Hv. pose proof HR as [HS Em]. unfold rank. f_equal.
  assert (sorted cmp l1) as HS1.
  { destruct Hv as [[-> _]|[x ->]]; by apply StronglySorted_app in HS as (_ & ? & _). }
  replace (filter _ m) with (list_to_map (map pair_of l1) : gmap K V).
  { rewrite map_size_list_to_map by by apply sorted_nodup. apply length_map. }
  apply map_eq. intros k'. apply option_eq. intros y. rewrite map_lookup_filter_Some, (lookup_represents _ _ _ _ HR).
  rewrite (lookup_represents l1); [|by split]. cbn. destruct Hv as [[-> Hb]|[x ->]].
  - rewrite elem_of_app. split.
    + intros Hin. split; [by left|]. by apply (between_keys _ _ y _ (Pair k' y) (Hb y)); [set_solver|].
    + intros [Hin Hlt]. apply elem_of_app in Hin. by apply (between_keys _ _ y _ (Pair k' y) (Hb y)).
  - apply sorted_between in HS as [_ Hb]. rewrite elem_of_app, elem_of_cons. split.
    + intros Hin. split; [by left|]. by apply (between_keys _ _ x _ (Pair k' y) Hb); [set_solver|].
    + intros [Hin Hlt]. destruct Hin as [Hin|[[= -> ->]|Hin]]; [done|by rewrite ltb_irrefl in Hlt|].
      by apply (between_keys _ _ x _ (Pair k' y) Hb); [set_solver|].
Qed.

(** Both ways a key can be in a vector or not. *)
Lemma cut v m k : represents v m ->
  (exists l1 x l2, v = l1 ++ Pair k x :: l2 /\ m !! k = Some x /\ rank m k = Z.of_nat (length l1))
  \/ (exists l1 l2, v = l1 ++ l2 /\ (forall y, between cmp l1 (Pair k y) l2) /\ m !! k = None /\ rank m k = Z.of_nat (length l1)).
Proof.
  intros HR. destruct (cut_at v k) as [(l1 & x & l2 & Ev & Hb)|(l1 & l2 & Ev & Hb)]; [apply HR|left|right].
  - exists l1, x, l2. split; [done|]. split; [|eapply rank_at; [done|right; by exists x]].
    apply (lookup_represents v); [done|]. rewrite Ev. set_solver.
  - exists l1, l2. split; [done|]. split; [done|]. split; [|eapply rank_at; [done|by left]].
    apply eq_None_not_Some. intros [x Hx]. apply (lookup_represents v) in Hx; [|done]. rewrite Ev in Hx.
    by destruct (between_keys _ _ x _ _ (Hb x) Hx) as [Hn _].
Qed.

Lemma represents_insert l1 l2 k x m : represents (l1 ++ l2) m -> between cmp l1 (Pair k x) l2 ->
  represents (l1 ++ Pair k x :: l2) (<[k := x]> m).
Proof.
  intros HR Hb. apply represents_iff; [apply sorted_between; split; [apply HR|done]|]. intros k' y.
  rewrite lookup_insert_Some, (lookup_represents _ _ _ _ HR), !elem_of_app, elem_of_cons. split.
  - intros [[-> ->]|[_ Hin]]; tauto.
  - intros [Hin|[[= -> ->]|Hin]]; [right|by left|right];
      (split; [|by auto]; apply not_eq_sym; apply (between_keys _ _ x _ (Pair k' y) Hb), elem_of_app; by auto).
Qed.

Lemma represents_delete l1 l2 k x m : represents (l1 ++ Pair k x :: l2) m -> represents (l1 ++ l2) (delete k m).
Proof.
  intros HR. pose proof (represents_sorted _ _ HR) as HS. apply sorted_between in HS as [HS Hb]. apply represents_iff; [done|].
  intros k' y. rewrite lookup_delete_Some, (lookup_represents _ _ _ _ HR), !elem_of_app, elem_of_cons. split.
  - intros [Hn [Hin|[[= -> ->]|Hin]]]; tauto.
  - intros Hin. split; [apply not_eq_sym; apply (between_keys _ _ x _ (Pair k' y) Hb), elem_of_app; by auto|tauto].
Qed.

Lemma represents_replace l1 l2 k x y m : represents (l1 ++ Pair k x :: l2) m -> represents (l1 ++ Pair k y :: l2) (<[k := y]> m).
Proof.
  intros HR. pose proof (represents_sorted _ _ HR) as HS. apply sorted_between in HS as [HS [Hb1 Hb2]].
  rewrite <- insert_delete_eq. apply represents_insert; [by eapply represents_delete|].
  split; eapply Forall_impl; [exact Hb1| |exact Hb2|]; intros p Hp%cmp_keys; by apply cmp_keys.
Qed.
End Maps.

(** * Calls

    A sequence of calls, with its answers.  An index that is negative is the
    report that there is none. *)

Inductive call (K V : Type) :=
| Size | IndexOfKey (k : K) | ValueFor (k : K) | ValueForOr (mDefault : V) (k : K) | KeyAt (i : N) | ValueAt (i : N)
| EditValueFor (k : K) (x : V) | EditValueAt (i : N) (x : V) | Add (k : K) (x : V) | ReplaceValueFor (k : K) (x : V)
| ReplaceValueAt (i : N) (x : V) | RemoveItem (k : K) | Clear.
Inductive answer (K V : Type) := Count (n : Z) | Index (i : option Z) | Key (k : K) | Value (x : V) | Done.
Arguments Size {K V}. Arguments IndexOfKey {K V}. Arguments ValueFor {K V}. Arguments ValueForOr {K V}. Arguments KeyAt {K V}.
Arguments ValueAt {K V}. Arguments EditValueFor {K V}. Arguments EditValueAt {K V}. Arguments Add {K V}. Arguments ReplaceValueFor {K V}.
Arguments ReplaceValueAt {K V}. Arguments RemoveItem {K V}. Arguments Clear {K V}.
Arguments Count {K V}. Arguments Index {K V}. Arguments Key {K V}. Arguments Value {K V}. Arguments Done {K V}.

Definition as_index (i : Z) : option Z := if i <? 0 then None else Some i.

Fixpoint answer_all {S C A} (answer : C -> ST S A) (cs : list C) : ST S (list A) :=
  match cs with
  | [] => mret []
  | c :: cs => a ← answer c; l ← answer_all answer cs; mret (a :: l)
  end.

Section Calls.
Context {K V : Type} `{SortedVectorImpl} (ltb : K -> K -> bool) (default : V).
#[local] Abbreviation mVector := (list (key_value_pair_t K V)).

Definition answer_call (c : call K V) : ST mVector (answer K V) := fun v =>
  match c with
  | Size => Some (Count (KeyedVector.size v), v)
  | IndexOfKey k => Some (Index (as_index (KeyedVector.indexOfKey ltb default v k)), v)
  | ValueFor k => x ← KeyedVector.valueFor ltb default v k; Some (Value x, v)
  | ValueForOr d k => x ← KeyedVector.valueFor_default ltb default d v k; Some (Value x, v)
  | KeyAt i => k ← KeyedVector.keyAt v (Z.of_N i); Some (Key k, v)
  | ValueAt i => x ← KeyedVector.valueAt v (Z.of_N i); Some (Value x, v)
  | EditValueFor k x => v ← KeyedVector.editValueFor ltb default v k x; Some (Done, v)
  | EditValueAt i x => v ← KeyedVector.editValueAt v (Z.of_N i) x; Some (Done, v)
  | Add k x => let '(i, v) := KeyedVector.add ltb v k x in Some (Index (as_index i), v)
  | ReplaceValueFor k x => let '(i, v) := KeyedVector.replaceValueFor ltb v k x in Some (Index (as_index i), v)
  | ReplaceValueAt i x => '(i, v) ← KeyedVector.replaceValueAt v (Z.of_N i) x; Some (Index (as_index i), v)
  | RemoveItem k => let '(i, v) := KeyedVector.removeItem ltb default v k in Some (Index (as_index i), v)
  | Clear => Some (Done, KeyedVector.clear v)
  end.
End Calls.

(** The same for a finite map. *)
Section MapCalls.
Context {K V : Type} `{Countable K} (ltb : K -> K -> bool).

Definition entry_at (m : gmap K V) (i : Z) : option (K * V) := head (filter (fun kv => rank ltb m kv.1 = i) (map_to_list m)).
Definition index_of (m : gmap K V) (k : K) : option Z := _ ← m !! k; Some (rank ltb m k).

Definition map_call (c : call K V) : ST (gmap K V) (answer K V) := fun m =>
  match c with
  | Size => Some (Count (Z.of_nat (base.size m)), m)
  | IndexOfKey k => Some (Index (index_of m k), m)
  | ValueFor k => x ← m !! k; Some (Value x, m)
  | ValueForOr d k => Some (Value (from_option id d (m !! k)), m)
  | KeyAt i => kx ← entry_at m (Z.of_N i); Some (Key kx.1, m)
  | ValueAt i => kx ← entry_at m (Z.of_N i); Some (Value kx.2, m)
  | EditValueFor k x => _ ← m !! k; Some (Done, <[k := x]> m)
  | EditValueAt i x => ky ← entry_at m (Z.of_N i); Some (Done, <[ky.1 := x]> m)
  | Add k x | ReplaceValueFor k x => Some (Index (Some (rank ltb m k)), <[k := x]> m)
  | ReplaceValueAt i x =>
      match entry_at m (Z.of_N i) with
      | Some ky => Some (Index (Some (Z.of_N i)), <[ky.1 := x]> m)
      | None => Some (Index None, m)
      end
  | RemoveItem k => Some (Index (index_of m k), delete k m)
  | Clear => Some (Done, ∅)
  end.
End MapCalls.

(** * Operations *)

(** An answer that is an index when the key is there, and negative when not. *)
Definition index_or_negative (m_k : bool) (rank r : Z) : Prop := if m_k then r = rank else r < 0.

Section Operations.
Context {K V : Type} `{Countable K} (ltb : K -> K -> bool) `{!TotalLess ltb} (default : V).
Context `{HI : SortedVectorImpl} `{!SortedVectorLaws HI}.

#[local] Abbreviation cmp := (SortedVector.do_compare (pair_ltb (VALUE := V) ltb)).
#[local] Abbreviation represents := (represents (V := V) ltb).
#[local] Abbreviation rank := (rank (V := V) ltb).

Lemma equal_keys k (x y : V) : cmp (Pair k x) (Pair k y) = 0.
Proof. by apply cmp_keys. Qed.

Lemma none_equal l1 k (x : V) l2 : between cmp l1 (Pair k x) l2 -> Forall (fun y => cmp y (Pair k x) <> 0) (l1 ++ l2).
Proof.
  intros Hb. apply Forall_forall. intros p Hp E%cmp_keys; [|done]. by destruct (between_keys _ _ _ _ _ p Hb Hp) as [? _].
Qed.

Lemma indexOfKey_correct v m k : represents v m ->
  index_or_negative (bool_decide (is_Some (m !! k))) (rank m k) (KeyedVector.indexOfKey ltb default v k).
Proof.
  intros HR. pose proof (represents_sorted _ _ _ HR) as HS.
  destruct (cut ltb v m k HR) as [(l1 & x & l2 & -> & -> & ->)|(l1 & l2 & -> & Hb & -> & _)]; cbn;
    unfold KeyedVector.indexOfKey, SortedVector.indexOf.
  - apply indexOf_found; [apply _|done|apply equal_keys].
  - apply indexOf_missing; [apply _|done|by apply none_equal].
Qed.

Lemma itemAt_middle {T} (l1 : list T) x l2 : SortedVector.itemAt (l1 ++ x :: l2) (Z.of_nat (length l1)) = Some x.
Proof.
  unfold SortedVector.itemAt. rewrite (proj2 (Z.ltb_ge _ _)) by lia. rewrite Nat2Z.id. by apply list_lookup_middle.
Qed.

Lemma valueFor_correct v m k : represents v m -> KeyedVector.valueFor ltb default v k = m !! k.
Proof.
  intros HR. pose proof (indexOfKey_correct v m k HR) as Hi. unfold KeyedVector.valueFor.
  destruct (cut ltb v m k HR) as [(l1 & x & l2 & -> & E & Er)|(l1 & l2 & -> & Hb & E & _)]; rewrite E in *; cbn in Hi.
  - rewrite Hi, Er, (proj2 (Z.ltb_ge _ _)) by lia. by rewrite itemAt_middle.
  - by rewrite (proj2 (Z.ltb_lt _ _) Hi).
Qed.

Lemma valueFor_default_correct d v m k : represents v m ->
  KeyedVector.valueFor_default ltb default d v k = Some (from_option id d (m !! k)).
Proof.
  intros HR. pose proof (indexOfKey_correct v m k HR) as Hi. unfold KeyedVector.valueFor_default.
  destruct (cut ltb v m k HR) as [(l1 & x & l2 & -> & E & Er)|(l1 & l2 & -> & Hb & E & _)]; rewrite E in *; cbn in Hi |- *;
    rewrite Z.geb_leb.
  - rewrite Hi, Er, (proj2 (Z.leb_le _ _)) by lia. unfold KeyedVector.valueAt. by rewrite itemAt_middle.
  - by rewrite (proj2 (Z.leb_gt _ _) Hi).
Qed.

(** The items stand in the order of their keys. *)
Lemma items_correct v m i k x : represents v m ->
  KeyedVector.keyAt v i = Some k /\ KeyedVector.valueAt v i = Some x <-> m !! k = Some x /\ i = rank m k.
Proof.
  intros HR. unfold KeyedVector.keyAt, KeyedVector.valueAt. split.
  - intros [Hk Hx]. destruct (SortedVector.itemAt v i) as [[k' x']|] eqn:E; [|done]. injection Hk as ->. injection Hx as ->.
    unfold SortedVector.itemAt in E. destruct (i <? 0) eqn:Hi; [done|]. apply Z.ltb_ge in Hi.
    pose proof (list_elem_of_lookup_2 _ _ _ E) as Hin. split; [by apply (lookup_represents ltb v)|].
    apply take_drop_middle in E as Ev. rewrite (rank_at ltb v m (take (Z.to_nat i) v) k (drop (S (Z.to_nat i)) v)); [|done|].
    + apply lookup_lt_Some in E. rewrite length_take. lia.
    + right. by exists x.
  - intros [Hx ->]. destruct (cut ltb v m k HR) as [(l1 & y & l2 & -> & E & ->)|(l1 & l2 & -> & Hb & E & _)]; [|congruence].
    rewrite itemAt_middle. cbn. split; congruence.
Qed.

Lemma items_count v m : represents v m -> KeyedVector.size v = Z.of_nat (base.size m).
Proof.
  intros [HS <-]. unfold KeyedVector.size, SortedVector.size. rewrite map_size_list_to_map by by eapply sorted_nodup.
  by rewrite length_map.
Qed.

Lemma add_correct v m k x : represents v m ->
  (KeyedVector.add ltb v k x).1 = rank m k /\ represents (KeyedVector.add ltb v k x).2 (<[k := x]> m).
Proof.
  intros HR. pose proof (represents_sorted _ _ _ HR) as HS. unfold KeyedVector.add, SortedVector.add.
  destruct (cut ltb v m k HR) as [(l1 & y & l2 & -> & _ & ->)|(l1 & l2 & -> & Hb & _ & ->)].
  - rewrite add_replaces; [|apply _|done|apply equal_keys]. split; [done|]. by eapply represents_replace.
  - rewrite add_new; [|apply _|done|done]. split; [done|]. by apply represents_insert.
Qed.

Lemma remove_correct v m k x : represents v m ->
  let r := SortedVector.remove (pair_ltb ltb) v (Pair k x) in
  index_or_negative (bool_decide (is_Some (m !! k))) (rank m k) r.1 /\ represents r.2 (delete k m).
Proof.
  intros HR. pose proof (represents_sorted _ _ _ HR) as HS. unfold SortedVector.remove.
  destruct (cut ltb v m k HR) as [(l1 & y & l2 & -> & E & ->)|(l1 & l2 & -> & Hb & E & ->)]; rewrite E; cbn.
  - rewrite remove_found; [|apply _|done|apply equal_keys]. split; [done|]. by eapply represents_delete.
  - destruct (remove_missing cmp (l1 ++ l2) (Pair k x) HS (none_equal _ _ _ _ (Hb x))) as [H1 H2].
    split; [done|]. by rewrite H2, delete_id.
Qed.

Lemma rank_delete m k : rank (delete k m) k = rank m k.
Proof.
  unfold SortedVectors.rank. do 2 f_equal. apply map_eq. intros k'. apply option_eq. intros y.
  rewrite !map_lookup_filter_Some, lookup_delete_Some. cbn. split; [tauto|]. intros [? Hlt]. repeat split; auto. intros ->.
  by rewrite ltb_irrefl in Hlt.
Qed.

Lemma replaceValueFor_correct v m k x : represents v m ->
  (KeyedVector.replaceValueFor ltb v k x).1 = rank m k /\ represents (KeyedVector.replaceValueFor ltb v k x).2 (<[k := x]> m).
Proof.
  intros HR. unfold KeyedVector.replaceValueFor. destruct (remove_correct v m k x HR) as [_ HR'].
  destruct (SortedVector.remove _ v _) as [i v'] eqn:E. cbn in HR'. destruct (add_correct v' (delete k m) k x HR') as [H1 H2].
  unfold KeyedVector.add in H1, H2. rewrite rank_delete in H1. by rewrite insert_delete_eq in H2.
Qed.

Lemma editValueAt_correct v m i k x y : represents v m -> KeyedVector.keyAt v i = Some k -> KeyedVector.valueAt v i = Some y ->
  exists v', KeyedVector.editValueAt v i x = Some v' /\ represents v' (<[k := x]> m).
Proof.
  intros HR Hk Hy. destruct (proj1 (items_correct v m i k y HR) (conj Hk Hy)) as [E ->].
  destruct (cut ltb v m k HR) as [(l1 & z & l2 & -> & E' & ->)|(l1 & l2 & -> & Hb & E' & _)]; [|congruence].
  eexists. unfold KeyedVector.editValueAt, SortedVector.editItemAt. rewrite itemAt_middle. split; [reflexivity|].
  rewrite Nat2Z.id, (insert_app_r_alt l1) by done. rewrite Nat.sub_diag. by eapply represents_replace.
Qed.

Lemma editValueFor_correct v m k x : represents v m ->
  match m !! k with
  | Some _ => exists v', KeyedVector.editValueFor ltb default v k x = Some v' /\ represents v' (<[k := x]> m)
  | None => KeyedVector.editValueFor ltb default v k x = None
  end.
Proof.
  intros HR. pose proof (indexOfKey_correct v m k HR) as Hi. unfold KeyedVector.editValueFor. destruct (m !! k) as [y|] eqn:E; cbn in Hi.
  - rewrite Hi. unfold SortedVectors.rank at 1. rewrite (proj2 (Z.ltb_ge _ _)) by lia.
    destruct (proj2 (items_correct v m _ k y HR) (conj E eq_refl)) as [Hk Hy]. by apply (editValueAt_correct v m _ k x y).
  - by rewrite (proj2 (Z.ltb_lt _ _) Hi).
Qed.

Lemma entry_at_correct v m i : represents v m -> entry_at ltb m i = pair_of <$> SortedVector.itemAt v i.
Proof.
  intros HR. pose proof (items_correct v m i) as Hi. unfold KeyedVector.keyAt, KeyedVector.valueAt in Hi. unfold entry_at.
  destruct (filter _ _) as [|[k x] l] eqn:E; cbn.
  - destruct (SortedVector.itemAt v i) as [[k x]|]; [|done]. exfalso.
    destruct (proj1 (Hi k x HR) (conj eq_refl eq_refl)) as [Hx Hr].
    assert ((k, x) ∈ filter (fun kv => rank m kv.1 = i) (map_to_list m)) as Hin.
    { apply list_elem_of_filter. split; [done|]. by apply elem_of_map_to_list. }
    rewrite E in Hin. by apply not_elem_of_nil in Hin.
  - assert ((k, x) ∈ filter (fun kv => rank m kv.1 = i) (map_to_list m)) as [Hr Hin%elem_of_map_to_list]%list_elem_of_filter
      by (rewrite E; set_solver).
    destruct (proj2 (Hi k x HR) (conj Hin (eq_sym Hr))) as [Hk Hx].
    destruct (SortedVector.itemAt v i) as [[k' x']|]; [|done]. unfold pair_of. cbn in *. congruence.
Qed.

Lemma editValueAt_spec v m i x : represents v m ->
  match entry_at ltb m i with
  | Some ky => exists v', KeyedVector.editValueAt v i x = Some v' /\ represents v' (<[ky.1 := x]> m)
  | None => KeyedVector.editValueAt v i x = None
  end.
Proof.
  intros HR. rewrite (entry_at_correct v m i HR). destruct (SortedVector.itemAt v i) as [[k y]|] eqn:E; cbn.
  - apply (editValueAt_correct v m i k x y HR); [unfold KeyedVector.keyAt|unfold KeyedVector.valueAt]; by rewrite E.
  - unfold KeyedVector.editValueAt, SortedVector.editItemAt. by rewrite E.
Qed.

Lemma itemAt_inside {T} (v : list T) i : 0 <= i -> (i <? Z.of_nat (length v)) = bool_decide (is_Some (SortedVector.itemAt v i)).
Proof.
  intros Hi. unfold SortedVector.itemAt. rewrite (proj2 (Z.ltb_ge i 0)) by lia.
  destruct (Z.ltb_spec i (Z.of_nat (length v))); symmetry.
  - apply bool_decide_eq_true_2, lookup_lt_is_Some. lia.
  - apply bool_decide_eq_false_2. rewrite lookup_lt_is_Some. lia.
Qed.

Lemma replaceValueAt_spec v m i x : represents v m -> 0 <= i ->
  match entry_at ltb m i with
  | Some ky => exists v', KeyedVector.replaceValueAt v i x = Some (i, v') /\ represents v' (<[ky.1 := x]> m)
  | None => KeyedVector.replaceValueAt v i x = Some (BAD_INDEX, v)
  end.
Proof.
  intros HR Hi. pose proof (editValueAt_spec v m i x HR) as He. rewrite (entry_at_correct v m i HR) in *.
  unfold KeyedVector.replaceValueAt, KeyedVector.size, SortedVector.size. rewrite itemAt_inside by done.
  destruct (SortedVector.itemAt v i) as [[k y]|]; cbn in *; [|done]. destruct He as (v' & E & HR').
  unfold KeyedVector.editValueAt in E. rewrite E. by exists v'.
Qed.

Lemma as_index_rank m k r : index_or_negative (bool_decide (is_Some (m !! k))) (rank m k) r -> as_index r = index_of ltb m k.
Proof.
  unfold index_of, as_index. destruct (m !! k); cbn.
  - intros ->. unfold SortedVectors.rank. by rewrite (proj2 (Z.ltb_ge _ _)) by lia.
  - intros Hr. by rewrite (proj2 (Z.ltb_lt _ _) Hr).
Qed.

Lemma rank_index m k : as_index (rank m k) = Some (rank m k).
Proof. unfold as_index, SortedVectors.rank. by rewrite (proj2 (Z.ltb_ge _ _)) by lia. Qed.

(** Both answers are the same, or neither side has one. *)
Definition same {A} (r : option (A * list (key_value_pair_t K V))) (r' : option (A * gmap K V)) : Prop :=
  match r, r' with
  | Some (a, v), Some (a', m) => a = a' /\ represents v m
  | None, None => True
  | _, _ => False
  end.

Lemma call_same c v m : represents v m -> same (answer_call ltb default c v) (map_call ltb c m).
Proof.
  intros HR. destruct c as [|k|k|d k|i|i|k x|i x|k x|k x|i x|k|]; cbn [answer_call map_call].
  - by rewrite (items_count v m HR).
  - rewrite (as_index_rank m k) by by apply indexOfKey_correct. done.
  - rewrite (valueFor_correct v m k HR). by destruct (m !! k).
  - by rewrite (valueFor_default_correct d v m k HR).
  - rewrite (entry_at_correct v m _ HR). unfold KeyedVector.keyAt. by destruct (SortedVector.itemAt v _).
  - rewrite (entry_at_correct v m _ HR). unfold KeyedVector.valueAt. by destruct (SortedVector.itemAt v _).
  - pose proof (editValueFor_correct v m k x HR) as He. destruct (m !! k); cbn; [|by rewrite He]. by destruct He as (v' & -> & ?).
  - pose proof (editValueAt_spec v m (Z.of_N i) x HR) as He. destruct (entry_at ltb m _); cbn; [|by rewrite He].
    by destruct He as (v' & -> & ?).
  - destruct (add_correct v m k x HR) as [Hi HR']. destruct (KeyedVector.add _ _ _ _). cbn in *. subst. by rewrite rank_index.
  - destruct (replaceValueFor_correct v m k x HR) as [Hi HR']. destruct (KeyedVector.replaceValueFor _ _ _ _). cbn in *. subst.
    by rewrite rank_index.
  - pose proof (replaceValueAt_spec v m (Z.of_N i) x HR ltac:(lia)) as He. destruct (entry_at ltb m _); cbn; [|by rewrite He].
    destruct He as (v' & -> & ?). cbn. unfold as_index. by rewrite (proj2 (Z.ltb_ge _ _)) by lia.
  - destruct (remove_correct v m k default HR) as [Hi HR']. unfold KeyedVector.removeItem, KeyedVector.only_key.
    destruct (SortedVector.remove _ _ _). cbn in *. by rewrite (as_index_rank m k).
  - split; [done|]. unfold KeyedVector.clear, SortedVector.clear. rewrite clear_all. by split; [constructor|].
Qed.

Lemma calls_same cs v m : represents v m ->
  same (answer_all (answer_call ltb default) cs v) (answer_all (map_call ltb) cs m).
Proof.
  revert v m. induction cs as [|c cs IH]; intros v m HR; [done|]. cbn [answer_all]. pose proof (call_same c v m HR) as Hc.
  unfold mbind, st_bind. destruct (answer_call _ _ c v) as [[a v']|], (map_call _ c m) as [[a' m']|]; try done. cbn in Hc |- *.
  destruct Hc as [<- HR']. specialize (IH v' m' HR'). cbn.
  destruct (answer_all _ cs v') as [[l v'']|], (answer_all _ cs m') as [[l' m'']|]; try done. cbn in IH |- *.
  by destruct IH as [<- ?].
Qed.

Lemma removeItemsAt_correct v m i n : represents v m -> 0 <= i -> 0 <= n -> i + n <= KeyedVector.size v ->
  (KeyedVector.removeItemsAt v i n).1 = i
  /\ represents (KeyedVector.removeItemsAt v i n).2 (filter (fun kv => ~ (i <= rank m kv.1 < i + n)) m).
Proof.
  intros HR Hi Hn Hs. unfold KeyedVector.size, SortedVector.size in Hs. unfold KeyedVector.removeItemsAt, SortedVector.removeItemsAt.
  set (l1 := take (Z.to_nat i) v). set (l2 := take (Z.to_nat n) (drop (Z.to_nat i) v)). set (l3 := drop (Z.to_nat n) (drop (Z.to_nat i) v)).
  assert (v = l1 ++ l2 ++ l3) as Ev by (unfold l1, l2, l3; by rewrite !take_drop).
  assert (i = Z.of_nat (length l1)) as E1 by (unfold l1; rewrite length_take; lia).
  assert (n = Z.of_nat (length l2)) as E2 by (unfold l2; rewrite length_take, length_drop; lia).
  clearbody l1 l2 l3. rewrite Ev, E1, E2, removeItemsAt_inside. split; [done|]. cbn. subst v.
  pose proof (represents_sorted _ _ _ HR) as HS. unfold sorted in HS. rewrite !StronglySorted_app in HS.
  destruct HS as (H1 & HS1 & H2 & HS2 & HS3). apply (represents_iff ltb).
  { apply StronglySorted_app. split; [|done]. intros x y Hx Hy. apply H1; [done|]. set_solver. }
  intros k x. rewrite map_lookup_filter_Some, (lookup_represents ltb _ _ _ _ HR). cbn.
  assert (forall a b, l1 ++ l2 ++ l3 = a ++ Pair k x :: b -> rank m k = Z.of_nat (length a)) as Hr.
  { intros a b E. eapply (rank_at ltb); [exact HR|]. right. by exists x. }
  split.
  - intros [Hin Hn']. apply elem_of_app in Hin as [Hin|Hin]; [set_solver|]. apply elem_of_app in Hin as [Hin|Hin]; [|set_solver].
    exfalso. apply Hn'. apply list_elem_of_split in Hin as (a & b & ->). rewrite (Hr (l1 ++ a) (b ++ l3)) by by rewrite <- !app_assoc.
    rewrite !length_app in *. cbn. lia.
  - intros Hin. apply elem_of_app in Hin as [Hin|Hin]; (split; [set_solver|]); apply list_elem_of_split in Hin as (a & b & ->).
    + rewrite (Hr a (b ++ l2 ++ l3)) by by rewrite <- !app_assoc. rewrite !length_app. cbn. lia.
    + rewrite (Hr (l1 ++ l2 ++ a) b) by by rewrite <- !app_assoc. rewrite !length_app. lia.
Qed.
End Operations.

(** * Properties *)

(** C19. A KeyedVector is a finite map, on top of any SortedVectorImpl that does
    what its comments say: a sequence of calls on an empty vector, in any order,
    gives the answers of the map, where the index of a key is the number of keys
    below it, an index is negative when the key is not there, and adding
    replaces; it breaks off where the map has no answer, at the value of a key
    that is not there or an item outside the vector; and what is left represents
    the map that is left.  Removing the items of a range of indices removes
    these keys. *)
Theorem KeyedVector_correct {K V} `{Countable K} (ltb : K -> K -> bool) `{!TotalLess ltb} (default : V)
    `{HI : SortedVectorImpl} `{!SortedVectorLaws HI} (cs : list (call K V)) (i n : N) :
  same ltb (answer_all (answer_call ltb default) cs []) (answer_all (map_call ltb) cs ∅)
  /\ forall l v m, answer_all (answer_call ltb default) cs [] = Some (l, v) -> answer_all (map_call ltb) cs ∅ = Some (l, m) ->
       Z.of_N i + Z.of_N n <= KeyedVector.size v ->
       (KeyedVector.removeItemsAt v (Z.of_N i) (Z.of_N n)).1 = Z.of_N i
       /\ represents ltb (KeyedVector.removeItemsAt v (Z.of_N i) (Z.of_N n)).2
            (filter (fun kv => ~ (Z.of_N i <= rank ltb m kv.1 < Z.of_N i + Z.of_N n)) m).
Proof.
  assert (same ltb (answer_all (answer_call ltb default) cs []) (answer_all (map_call ltb) cs ∅)) as Hs.
  { apply calls_same; [done|done|]. by split; [constructor|]. }
  split; [exact Hs|]. intros l v m Ev Em Hn. rewrite Ev, Em in Hs. destruct Hs as [_ HR]. apply removeItemsAt_correct; first [exact HR|lia|done].
Qed.

(** With the linear search: two keys, one of them replaced. *)
Lemma KeyedVector_correct_witness :
  let cs := [Add 7 70; Add 3 30; Add 7 77; KeyAt 1; ValueFor 7; RemoveItem 5; ReplaceValueAt 2 0] in
  same Z.ltb (answer_all (answer_call (H := linear_search) Z.ltb 0) cs []) (answer_all (map_call Z.ltb) cs ∅)
  /\ fst <$> answer_all (answer_call (H := linear_search) Z.ltb 0) cs []
     = Some [Index (Some 0); Index (Some 0); Index (Some 1); Key 7; Value 77; Index None; Index None].
Proof.
  intros cs. split; [|by vm_compute].
  exact (proj1 (KeyedVector_correct (HI := linear_search) Z.ltb 0 cs 0 1)).
Defined.
