(* ===== verification/Flattenable.v ===== *)
(** * Flat copies of objects: utils/Flattenable.h

    A buffer is a pointer into a memory of bytes together with the [size_t] that
    counts what is left of it.  A plain type is known by the size, the alignment
    and the bytes of its values.  An access outside the memory, or to an address
    its type is not aligned for, is undefined. *)
From S2P Require Import Prelude Digits.

(** ** Plain types *)

Record pod := {
  value :> Type;
  sizeof : nat;
  alignof : Z;
  bytes : value -> list Z;
  of_bytes : list Z -> value;
  bytes_length v : length (bytes v) = sizeof;
  of_bytes_bytes v : of_bytes (bytes v) = v
}.

Abbreviation memory := (gmap Z Z).

Definition aligned (T : pod) (p : Z) : bool := p mod alignof T =? 0.

Fixpoint store_bytes (p : Z) (l : list Z) (m : memory) : option memory :=
  match l with
  | [] => Some m
  | b :: l => _ ← m !! p; store_bytes (p + 1) l (<[p := b]> m)
  end.
Fixpoint load_bytes (p : Z) (n : nat) (m : memory) : option (list Z) :=
  match n with
  | O => Some []
  | S n => b ← m !! p; l ← load_bytes (p + 1) n m; Some (b :: l)
  end.

(** [*static_cast<T*>(p) = v] and [*static_cast<T const*>(p)]. *)
Definition store (T : pod) (p : Z) (v : T) (m : memory) : option memory := if aligned T p then store_bytes p (bytes T v) m else None.
Definition load (T : pod) (p : Z) (m : memory) : option T := if aligned T p then of_bytes T <$> load_bytes p (sizeof T) m else None.

(** ** FlattenableUtils *)

Record cursor := Cursor { buffer : Z; size : Z }.

(** A [size_t] and an [intptr_t] have 64 bits. *)
Definition align_size (N size : Z) : Z := u64 (size + (N - 1)) .& u64 (Z.lnot (N - 1)).

(** The new pointer, and the bytes that are skipped; the sum is one of signed
    numbers. *)
Definition align_buffer (N buffer : Z) : option (Z * Z) :=
  let b := s64 buffer in
  if b + (N - 1) <? 2 ^ 63 then
    let buffer := u64 (Z.land (b + (N - 1)) (Z.lnot (N - 1))) in
    Some (buffer, u64 (s64 buffer - b))
  else None.

Definition advance (c : cursor) (offset : Z) : cursor := Cursor (u64 (buffer c + offset)) (u64 (size c - offset)).

Definition write (T : pod) (c : cursor) (v : T) (m : memory) : option (cursor * memory) :=
  m ← store T (buffer c) v m; Some (advance c (Z.of_nat (sizeof T)), m).
Definition read (T : pod) (c : cursor) (m : memory) : option (T * cursor) :=
  v ← load T (buffer c) m; Some (v, advance c (Z.of_nat (sizeof T))).

(** ** LightFlattenable

    The protocol, and what it is for the types that are plain. *)

Definition NO_ERROR : Z := 0.
Definition NO_MEMORY : Z := -12.

Class LightFlattenable (T : Type) := {
  isFixedSize : T -> bool;
  getFlattenedSize : T -> Z;
  flatten : T -> Z -> Z -> memory -> option (Z * memory);
  unflatten : T -> Z -> Z -> memory -> option (Z * T)
}.

#[export] Instance LightFlattenablePod (T : pod) : LightFlattenable T := {|
  isFixedSize _ := true;
  getFlattenedSize _ := Z.of_nat (sizeof T);
  flatten v buffer size m := if size <? Z.of_nat (sizeof T) then Some (NO_MEMORY, m) else m ← store T buffer v m; Some (NO_ERROR, m);
  unflatten _ buffer _ m := v ← load T buffer m; Some (NO_ERROR, v)
|}.

(** ** Several values

    What a flatten method does with its fields: each is written behind the last
    one, and read in the same order. *)

Definition field := { T : pod & value T }.

Fixpoint write_all (l : list field) (c : cursor) (m : memory) : option (cursor * memory) :=
  match l with
  | [] => Some (c, m)
  | existT T v :: l => '(c, m) ← write T c v m; write_all l c m
  end.

Fixpoint read_all (types : list pod) (c : cursor) (m : memory) : option (list field * cursor) :=
  match types with
  | [] => Some ([], c)
  | T :: types => '(v, c) ← read T c m; '(l, c) ← read_all types c m; Some (existT T v :: l, c)
  end.

(** * Bytes in the memory *)

Definition within (p : Z) (n : nat) (a : Z) : Prop := p <= a < p + Z.of_nat n.

Lemma store_bytes_spec p l m : (forall a, within p (length l) a -> a ∈ dom m) ->
  exists m', store_bytes p l m = Some m' /\ dom m' = dom m /\ load_bytes p (length l) m' = Some l
    /\ forall a, ~ within p (length l) a -> m' !! a = m !! a.
Proof.
  revert p m. induction l as [|b l IH]; intros p m H; [by exists m|]. unfold within in *. cbn [length store_bytes] in *.
  assert (exists x, m !! p = Some x) as [x Ex] by (apply elem_of_dom, H; lia). rewrite Ex. cbn.
  assert (dom (<[p := b]> m) = dom m) as Ed by (rewrite dom_insert_lookup_L; [done|by eexists]).
  destruct (IH (p + 1) (<[p := b]> m)) as (m' & E & Hd & Hl & Hf); [intros a Ha; rewrite Ed; apply H; lia|].
  exists m'. split; [done|]. split; [congruence|]. split.
  - rewrite Hf by lia. rewrite lookup_insert_eq. cbn. by rewrite Hl.
  - intros a Ha. rewrite Hf by lia. apply lookup_insert_ne. lia.
Qed.

Lemma load_bytes_ext p n m m' : (forall a, within p n a -> m' !! a = m !! a) -> load_bytes p n m' = load_bytes p n m.
Proof.
  revert p. induction n as [|n IH]; intros p H; [done|]. unfold within in *. cbn [load_bytes]. rewrite H by lia.
  rewrite IH; [done|]. intros a Ha. apply H. lia.
Qed.

Lemma store_spec T p v m : aligned T p = true -> (forall a, within p (sizeof T) a -> a ∈ dom m) ->
  exists m', store T p v m = Some m' /\ dom m' = dom m /\ load T p m' = Some v /\ forall a, ~ within p (sizeof T) a -> m' !! a = m !! a.
Proof.
  intros Ha H. rewrite <- (bytes_length T v) in H. destruct (store_bytes_spec p (bytes T v) m H) as (m' & E & Hd & Hl & Hf).
  exists m'. unfold store, load. rewrite Ha. split; [done|]. split; [done|]. rewrite <- (bytes_length T v). split; [|done].
  rewrite Hl. cbn. by rewrite of_bytes_bytes.
Qed.

Lemma load_ext T p m m' : (forall a, within p (sizeof T) a -> m' !! a = m !! a) -> load T p m' = load T p m.
Proof. intros H. unfold load. by rewrite (load_bytes_ext _ _ _ _ H). Qed.

(** ** Fields *)

Definition field_size (f : field) : nat := sizeof (projT1 f).
Definition total (l : list field) : nat := list_sum (map field_size l).

(** Every field stands at an address its type is aligned for. *)
Fixpoint all_aligned (l : list field) (p : Z) : bool :=
  match l with
  | [] => true
  | f :: l => aligned (projT1 f) p && all_aligned l (p + Z.of_nat (field_size f))
  end.

(** A buffer of the memory: its addresses do not wrap. *)
Record room (c : cursor) (n : nat) (m : memory) : Prop := {
  room_buffer : 0 <= buffer c /\ buffer c + Z.of_nat n < 2 ^ 64;
  room_memory a : within (buffer c) n a -> a ∈ dom m
}.

Lemma advance_buffer c n k m : room c (n + k) m -> buffer (advance c (Z.of_nat n)) = buffer c + Z.of_nat n.
Proof. intros [[H1 H2] _]. apply u64_small. unfold is_word. lia. Qed.

Lemma advance_room c n k m m' : room c (n + k) m -> dom m' = dom m -> room (advance c (Z.of_nat n)) k m'.
Proof.
  intros H Hd. pose proof (advance_buffer _ _ _ _ H) as E. destruct H as [[H1 H2] H3]. split; rewrite E; [lia|].
  intros a Ha. rewrite Hd. apply H3. unfold within in *. lia.
Qed.

Lemma advance_twice c a b : advance (advance c a) b = advance c (a + b).
Proof.
  unfold advance. cbn. f_equal; rewrite !u64_mod; [rewrite Zplus_mod_idemp_l|rewrite Zminus_mod_idemp_l]; f_equal; lia.
Qed.

Lemma write_all_spec l c m : room c (total l) m -> all_aligned l (buffer c) = true -> is_word 64 (size c) ->
  exists m', write_all l c m = Some (advance c (Z.of_nat (total l)), m') /\ dom m' = dom m
    /\ read_all (map (@projT1 _ _) l) c m' = Some (l, advance c (Z.of_nat (total l)))
    /\ forall a, ~ within (buffer c) (total l) a -> m' !! a = m !! a.
Proof.
  revert c m. induction l as [|[T v] l IH]; intros c m H Ha Hs.
  { destruct H as [[H1 H2] _]. cbn in H2. exists m.
    assert (advance c (Z.of_nat (total [])) = c) as ->; [|done]. destruct c as [b n]. unfold advance. cbn in *.
    rewrite Z.add_0_r, Z.sub_0_r, !u64_small; [done|done|unfold is_word; lia]. }
  change (total (existT T v :: l)) with (sizeof T + total l)%nat in *. cbn [all_aligned field_size projT1] in Ha. apply andb_prop in Ha as [Ha Hal].
  destruct (store_spec T (buffer c) v m Ha) as (m1 & E1 & Hd1 & Hl1 & Hf1).
  { intros a Hr. apply H. unfold within in *. lia. }
  pose proof (advance_buffer _ _ _ _ H) as Eb.
  destruct (IH (advance c (Z.of_nat (sizeof T))) m1) as (m' & E & Hd & Hr & Hf).
  { by eapply advance_room. } { rewrite Eb. exact Hal. } { apply u64_range. }
  rewrite advance_twice, <- Nat2Z.inj_add in E, Hr. rewrite Eb in Hf. exists m'. split; [|split; [congruence|split]].
  - cbn [write_all]. unfold write. rewrite E1. exact E.
  - cbn [map projT1 read_all]. unfold read. rewrite (load_ext T _ m1 m'), Hl1; [|intros a Hw; apply Hf; unfold within in *; lia].
    cbn. by rewrite Hr.
  - intros a Hw. rewrite Hf, Hf1; [done| |]; unfold within in *; lia.
Qed.

(** * Alignment *)

Lemma clear_low x k : 0 <= k -> Z.land x (Z.lnot (2 ^ k - 1)) = x / 2 ^ k * 2 ^ k.
Proof.
  intros Hk. replace (2 ^ k - 1) with (Z.ones k) by (rewrite Z.ones_equiv; lia).
  rewrite <- Z.ldiff_land. by rewrite Z.ldiff_ones_r, Z.shiftl_mul_pow2, Z.shiftr_div_pow2.
Qed.

(** The least multiple of [N] that is not below [x]. *)
Definition next_multiple (N x r : Z) : Prop := r mod N = 0 /\ x <= r < x + N.

Lemma next_multiple_div N x : 0 < N -> next_multiple N x ((x + (N - 1)) / N * N).
Proof.
  intros HN. split; [apply Z_mod_mult|]. pose proof (Z.div_mod (x + (N - 1)) N ltac:(lia)).
  pose proof (Z.mod_pos_bound (x + (N - 1)) N HN). lia.
Qed.

Lemma align_size_spec k size : 0 <= k < 31 -> is_word 64 size ->
  if size + (2 ^ k - 1) <? 2 ^ 64 then next_multiple (2 ^ k) size (align_size (2 ^ k) size) else align_size (2 ^ k) size = 0.
Proof.
  intros Hk Hs. unfold is_word in Hs. assert (0 < 2 ^ k < 2 ^ 64) as HN by (split; [lia|apply Z.pow_lt_mono_r; lia]).
  assert (align_size (2 ^ k) size = u64 (size + (2 ^ k - 1)) / 2 ^ k * 2 ^ k) as ->.
  { unfold align_size. rewrite <- clear_low by lia. unfold u64. apply Z.bits_inj'. intros n Hn. rewrite !Z.land_spec.
    by destruct (Z.testbit (size + _) n), (Z.testbit _ n), (Z.testbit _ n). }
  destruct (Z.ltb_spec (size + (2 ^ k - 1)) (2 ^ 64)).
  - rewrite u64_small by (unfold is_word; lia). apply next_multiple_div. lia.
  - replace (u64 (size + (2 ^ k - 1))) with (size + (2 ^ k - 1) - 2 ^ 64).
    + rewrite Z.div_small; lia.
    + rewrite u64_mod. apply (Z.mod_unique_pos _ _ 1); lia.
Qed.

Lemma align_buffer_spec k b : 0 <= k < 31 -> 0 <= b -> b + 2 ^ k <= 2 ^ 63 ->
  exists r, align_buffer (2 ^ k) b = Some (r, r - b) /\ next_multiple (2 ^ k) b r.
Proof.
  intros Hk Hb Hr. assert (0 < 2 ^ k) as HN by lia. pose proof (next_multiple_div (2 ^ k) b HN) as Hm.
  exists ((b + (2 ^ k - 1)) / 2 ^ k * 2 ^ k). split; [|done]. unfold align_buffer. rewrite s64_small by lia.
  rewrite (proj2 (Z.ltb_lt _ _)) by lia. rewrite clear_low by lia. destruct Hm as [_ Hm].
  set (r := (b + (2 ^ k - 1)) / 2 ^ k * 2 ^ k) in *. clearbody r.
  rewrite (u64_small r), s64_small, u64_small by (unfold is_word; lia). done.
Qed.

(** * Properties *)

(** C23. Fields that are written one behind the other into a buffer with room for
    them, each at an address its type is aligned for, are read back in order as
    they were, and reading stops where writing did; no byte outside the buffer
    changes.  A plain type flattens into a buffer of its size or more and
    unflattens to the same value, and leaves a smaller buffer alone with the
    error NO_MEMORY. *)
Theorem fields_roundtrip (l : list field) (c : cursor) (m : memory) :
  room c (total l) m -> is_word 64 (size c) ->
  (all_aligned l (buffer c) = true ->
     exists m', write_all l c m = Some (advance c (Z.of_nat (total l)), m')
       /\ read_all (map (@projT1 _ _) l) c m' = Some (l, advance c (Z.of_nat (total l)))
       /\ forall a, ~ within (buffer c) (total l) a -> m' !! a = m !! a)
  /\ (forall f, l = [f] -> aligned (projT1 f) (buffer c) = true ->
     if size c <? getFlattenedSize (projT2 f) then flatten (projT2 f) (buffer c) (size c) m = Some (NO_MEMORY, m)
     else exists m', flatten (projT2 f) (buffer c) (size c) m = Some (NO_ERROR, m')
       /\ forall old n, unflatten (T := projT1 f) old (buffer c) n m' = Some (NO_ERROR, projT2 f)).
Proof.
  intros H Hs. split.
  - intros Ha. destruct (write_all_spec l c m H Ha Hs) as (m' & E & _ & Er & Hf). by exists m'.
  - intros [T v] -> Ha. cbn [projT1 projT2] in *. cbn. destruct (size c <? _); [done|].
    destruct (store_spec T (buffer c) v m Ha) as (m' & E & _ & El & _).
    { intros a Hw. apply H. cbn. by rewrite Nat.add_0_r. }
    exists m'. rewrite E. split; [done|]. intros _ _. by rewrite El.
Qed.

(** Two plain types, of one byte and of two. *)
Definition of_bool (b : bool) : Z := if b then 1 else 0.
Definition to_bool (z : Z) : bool := negb (z =? 0).

Lemma to_of_bool b : to_bool (of_bool b) = b.
Proof. by destruct b. Qed.

Definition flag : pod := {|
  value := bool; sizeof := 1; alignof := 1; bytes b := [of_bool b]; of_bytes l := to_bool (nth 0 l 0);
  bytes_length b := eq_refl; of_bytes_bytes b := to_of_bool b |}.

Lemma two_flags_bytes (v : bool * bool) : (to_bool (nth 0 [of_bool v.1; of_bool v.2] 0), to_bool (nth 1 [of_bool v.1; of_bool v.2] 0)) = v.
Proof. by destruct v as [[] []]. Qed.

Definition two_flags : pod := {|
  value := bool * bool; sizeof := 2; alignof := 2; bytes v := [of_bool v.1; of_bool v.2];
  of_bytes l := (to_bool (nth 0 l 0), to_bool (nth 1 l 0)); bytes_length v := eq_refl; of_bytes_bytes := two_flags_bytes |}.

Definition three_bytes : memory := <[8 := 0]> (<[9 := 0]> {[ 10 := 0 ]}).

Lemma fields_roundtrip_witness :
  let l := [existT two_flags (true, false); existT flag true] in
  exists m', write_all l (Cursor 8 3) three_bytes = Some (Cursor 11 0, m')
    /\ read_all [two_flags; flag] (Cursor 8 3) m' = Some (l, Cursor 11 0).
Proof.
  intros l. assert (room (Cursor 8 3) (total l) three_bytes) as H.
  { split; [cbn; lia|]. intros a Ha. unfold within in Ha. cbn in Ha. assert (a = 8 \/ a = 9 \/ a = 10) as [->|[->| ->]] by lia;
      by apply elem_of_dom; eexists. }
  destruct (fields_roundtrip l (Cursor 8 3) three_bytes H) as [Hw _]; [vm_compute; split; congruence|].
  destruct (Hw ltac:(by vm_compute)) as (m' & E & Er & _). exists m'. split; [exact E|exact Er].
Defined.

(** [align] rounds a size up to the next multiple of a power of two, or
    wraps to 0 when there is none below 2^64, and moves a pointer up to the next
    address of that alignment and says by how much, as long as that address is
    one of signed numbers. *)
Theorem align_correct k x : 0 <= k < 31 -> is_word 64 x ->
  (if x + (2 ^ k - 1) <? 2 ^ 64 then next_multiple (2 ^ k) x (align_size (2 ^ k) x) else align_size (2 ^ k) x = 0)
  /\ (x + 2 ^ k <= 2 ^ 63 -> exists r, align_buffer (2 ^ k) x = Some (r, r - x) /\ next_multiple (2 ^ k) x r).
Proof.
  intros Hk Hx. split; [by apply align_size_spec|]. intros Hr. apply align_buffer_spec; [done|apply Hx|done].
Qed.

Lemma align_correct_witness : align_size 4 (2 ^ 64 - 2) = 0 /\ exists r, align_buffer 4 9 = Some (r, r - 9) /\ next_multiple 4 9 r.
Proof.
  split.
  - apply (align_correct 2 (2 ^ 64 - 2)); [lia|unfold is_word; lia].
  - apply (align_correct 2 9); [lia|unfold is_word; lia|lia].
Defined.
