(* ===== verification/WeakPointer.v ===== *)
(** * Weak references: wp of utils/RefBase.h

    A [wp] variable points to an object of RefBase and holds a reference to its
    weakref_type, which outlives the object.  RefBase and weakref_type are
    declared in the header and defined elsewhere, and nothing is assumed of
    them: the calls that [wp] makes are recorded in their order with the
    variable that makes them, and what they answer is any function of the calls
    before.  The code behind a call may delete objects, and so run operations
    on further variables before it returns: an operation here comes with the
    operations that happen inside its calls.  The variables are named as in
    StrongPointer. *)
From S2P Require Import Prelude Linked StrongPointer.

(** ** RefBase *)

(** A call, with the [this] of the variable as its id; an object and its
    weakref_type are at addresses. *)
Inductive call :=
| CreateWeak (o : ptr) (id : var) (refs : ptr)
| IncWeak (refs : ptr) (id : var)
| DecWeak (refs : ptr) (id : var)
| AttemptIncStrong (refs : ptr) (success : bool).

(** What the calls answer after the calls made so far. *)
Class RefBase := {
  createWeak_answer : list call -> ptr -> var -> ptr;
  attemptIncStrong_answer : list call -> ptr -> bool
}.

(** ** wp *)

(** A member [m_refs] that was never set has no value. *)
Record wp := { m_ptr : option ptr; m_refs : option (option ptr) }.

(** The variables that are there, the calls, and the variables that are inside
    an operation. *)
Record weaks := { wps : gmap var wp; trace : list call; busy : gset var }.

#[local] Abbreviation M := (ST weaks).

Definition variable (x : var) : M wp := fun s => w ← wps s !! x; Some (w, s).
Definition set (x : var) (m_ptr : option ptr) (m_refs : option (option ptr)) : M unit := modify (fun s =>
  {| wps := <[x := {| m_ptr := m_ptr; m_refs := m_refs |}]> (wps s); trace := trace s; busy := busy s |}).
Definition end_variable (x : var) : M unit := modify (fun s =>
  {| wps := delete x (wps s); trace := trace s; busy := busy s |}).

(** A call is made, and the code behind it does [inside]. *)
Definition invoke (c : call) (inside : M unit) : M unit :=
  _ ← modify (fun s => {| wps := wps s; trace := trace s ++ [c]; busy := busy s |}); inside.

Section wp.
Context `{RefBase}.

(** What happens inside the calls that give and that take away a reference. *)
Context (gaining losing : M unit).

Definition createWeak (id : var) (o : ptr) : M ptr :=
  p ← gets (fun s => createWeak_answer (trace s) o id);
  _ ← invoke (CreateWeak o id p) gaining;
  mret p.
Definition incWeak (id : var) (p : ptr) : M unit := invoke (IncWeak p id) gaining.
Definition decWeak (id : var) (p : ptr) : M unit := invoke (DecWeak p id) losing.
Definition attemptIncStrong (p : ptr) : M bool :=
  b ← gets (fun s => attemptIncStrong_answer (trace s) p);
  _ ← invoke (AttemptIncStrong p b) gaining;
  mret b.

(** [m_refs->f(this)] *)
Definition through {A} (refs : option (option ptr)) (f : ptr -> M A) : M A :=
  match refs with Some (Some p) => f p | _ => lift None end.
(** [if (m_ptr) m_refs->f(this);] *)
Definition if_set (w : wp) (f : ptr -> M unit) : M unit := match m_ptr w with Some _ => through (m_refs w) f | None => mret tt end.

(** [other ? other->createWeak(this) : 0] *)
Definition newRefs (x : var) (other : option ptr) : M (option ptr) :=
  match other with Some o => p ← createWeak x o; mret (Some p) | None => mret None end.

Definition wp_default (x : var) : M unit := set x None None.
(** From a pointer or an [sp], which is null or points to an object. *)
Definition wp_from (x : var) (other : option ptr) : M unit :=
  _ ← set x other None;
  match other with Some o => p ← createWeak x o; set x other (Some (Some p)) | None => mret tt end.
Definition wp_copy (x other : var) : M unit := w ← variable other; _ ← set x (m_ptr w) (m_refs w); if_set w (incWeak x).
Definition wp_destructor (x : var) : M unit := w ← variable x; _ ← if_set w (decWeak x); end_variable x.

(** From a pointer or an [sp]. *)
Definition wp_assign_from (x : var) (other : option ptr) : M unit :=
  newRefs ← newRefs x other;
  w ← variable x;
  _ ← if_set w (decWeak x);
  set x other (Some newRefs).

Definition wp_assign (x other : var) : M unit :=
  o ← variable other;
  _ ← if_set o (incWeak x);
  w ← variable x;
  _ ← if_set w (decWeak x);
  set x (m_ptr o) (m_refs o).

Definition set_object_and_refs (x : var) (other refs : option ptr) : M unit :=
  _ ← if_set {| m_ptr := other; m_refs := Some refs |} (incWeak x);
  w ← variable x;
  _ ← if_set w (decWeak x);
  set x other (Some refs).

Definition wp_clear (x : var) : M unit :=
  w ← variable x;
  match m_ptr w with
  | Some _ => _ ← through (m_refs w) (decWeak x); set x None (m_refs w)
  | None => mret tt
  end.

(** The pointer of the [sp] that is returned. *)
Definition promote (x : var) : M (option ptr) :=
  w ← variable x;
  match m_ptr w with
  | None => mret None
  | Some o => b ← through (m_refs w) attemptIncStrong; mret (if b : bool then Some o else None)
  end.
End wp.

(** *** Comparisons

    They are undefined on a member without a value. *)

Definition address (p : option ptr) : Z := match p with Some p => Zpos p | None => 0 end.
Definition compare_refs (cmp : Z -> Z -> bool) (w o : wp) : option bool :=
  p ← m_refs w; q ← m_refs o; Some (cmp (address p) (address q)).

Definition wp_eq (w o : wp) : option bool :=
  if address (m_ptr w) =? address (m_ptr o) then compare_refs Z.eqb w o else Some false.
Definition wp_ne (w o : wp) : option bool := compare_refs (fun a b => negb (a =? b)) w o.
Definition wp_gt (w o : wp) : option bool :=
  if address (m_ptr w) =? address (m_ptr o) then compare_refs Z.gtb w o else Some (address (m_ptr w) >? address (m_ptr o)).
Definition wp_lt (w o : wp) : option bool :=
  if address (m_ptr w) =? address (m_ptr o) then compare_refs Z.ltb w o else Some (address (m_ptr w) <? address (m_ptr o)).
Definition wp_le (w o : wp) : option bool := negb <$> wp_gt w o.
Definition wp_ge (w o : wp) : option bool := negb <$> wp_lt w o.

(** ** Operations *)

Inductive weak_operation :=
| WDefault (x : var)
| WFrom (x : var) (other : option ptr)
| WCopy (x other : var)
| WDestroy (x : var)
| WAssignFrom (x : var) (other : option ptr)
| WAssign (x other : var)
| WSet (x : var) (other refs : option ptr)
| WClear (x : var)
| WPromote (x : var).

Definition perform_weak `{RefBase} (gaining losing : M unit) (o : weak_operation) : M unit :=
  match o with
  | WDefault x => wp_default x
  | WFrom x other => wp_from gaining x other
  | WCopy x other => wp_copy gaining x other
  | WDestroy x => wp_destructor losing x
  | WAssignFrom x other => wp_assign_from gaining losing x other
  | WAssign x other => wp_assign gaining losing x other
  | WSet x other refs => set_object_and_refs gaining losing x other refs
  | WClear x => wp_clear losing x
  | WPromote x => _ ← promote gaining x; mret tt
  end.

(** * Specification *)

(** The reference that a call gives a variable or takes from it. *)
Definition gained (c : call) : option (var * ptr) :=
  match c with CreateWeak _ x p | IncWeak p x => Some (x, p) | _ => None end.
Definition lost (c : call) : option (var * ptr) := match c with DecWeak p x => Some (x, p) | _ => None end.

(** How many references on [p] the variable [x] has got and not given back. *)
Definition balance (t : list call) (x : var) (p : ptr) : Z :=
  Z.of_nat (length (filter (fun c => gained c = Some (x, p)) t)) - Z.of_nat (length (filter (fun c => lost c = Some (x, p)) t)).

(** Some variable has a reference on [p]. *)
Definition referenced (t : list call) (p : ptr) : Prop :=
  Exists (fun c => match gained c with Some (x, _) => 0 < balance t x p | None => False end) t.

#[export] Instance referenced_dec t p : Decision (referenced t p).
Proof. unfold referenced. apply Exists_dec. intros c. destruct (gained c) as [[x q]|]; apply _. Defined.

(** The weakref_type that a variable holds a reference on. *)
Definition held (w : wp) : option ptr := match m_ptr w with Some _ => mjoin (m_refs w) | None => None end.

(** A member that is not null is set. *)
Definition known (w : wp) : Prop := m_ptr w <> None -> held w <> None.

(** The variable an operation is on, and the one it reads. *)
Definition subject (o : weak_operation) : var :=
  match o with
  | WDefault x | WFrom x _ | WCopy x _ | WDestroy x | WAssignFrom x _ | WAssign x _ | WSet x _ _ | WClear x | WPromote x => x
  end.
Definition source (o : weak_operation) : option var := match o with WCopy _ y | WAssign _ y => Some y | _ => None end.
Definition constructs (o : weak_operation) : bool := match o with WDefault _ | WFrom _ _ | WCopy _ _ => true | _ => false end.

Section Runs.
Context `{RefBase}.

(** The weakref_types on which something other than [wp] variables keeps a
    reference all the time. *)
Context (kept : gset ptr).

(** What C++ asks of an operation: a constructor is for a new variable, others
    for one that is there, and none is for a variable that is inside an
    operation; a weakref_type given by the caller has a reference. *)
Definition weak_permitted (o : weak_operation) (s : weaks) : bool :=
  bool_decide (subject o ∉ busy s)
  && (if constructs o then bool_decide (subject o ∉ dom (wps s)) else bool_decide (subject o ∈ dom (wps s)))
  && match source o with Some y => bool_decide (y ∉ busy s) && bool_decide (y ∈ dom (wps s)) | None => true end
  && match o with
     | WSet _ (Some _) refs => match refs with Some p => bool_decide (p ∈ kept \/ referenced (trace s) p) | None => false end
     | _ => true
     end.

(** An operation with the operations inside its calls.  One that is not
    permitted is left out. *)
Inductive execution := Execution (o : weak_operation) (gaining losing : list execution).

Fixpoint run (e : execution) : M unit :=
  let fix run_all (l : list execution) : M unit :=
    match l with [] => mret tt | e :: l => _ ← run e; run_all l end in
  match e with
  | Execution o gaining losing =>
    ok ← gets (weak_permitted o);
    if ok : bool then
      _ ← modify (fun s => {| wps := wps s; trace := trace s; busy := {[subject o]} ∪ busy s |});
      _ ← perform_weak (run_all gaining) (run_all losing) o;
      modify (fun s => {| wps := wps s; trace := trace s; busy := busy s ∖ {[subject o]} |})
    else mret tt
  end.

Fixpoint run_all (l : list execution) : M unit :=
  match l with [] => mret tt | e :: l => _ ← run e; run_all l end.

(** A call is on a weakref_type with a reference, and takes away only a
    reference that its variable has. *)
Definition safe_call (t : list call) (c : call) : Prop :=
  match c with
  | CreateWeak _ _ _ => True
  | IncWeak p _ => p ∈ kept \/ referenced t p
  | DecWeak p x => 0 < balance t x p
  | AttemptIncStrong p _ => referenced t p
  end.

Definition safe (t : list call) : Prop := forall t1 c t2, t = t1 ++ c :: t2 -> safe_call t1 c.

(** Each variable that is not null knows its weakref_type and has one reference
    on it, and no variable has another. *)
Record good (s : weaks) : Prop := {
  good_balance x p : x ∉ busy s -> balance (trace s) x p = here (wps s !! x ≫= held) p;
  good_known x w : x ∉ busy s -> wps s !! x = Some w -> known w;
  good_safe : safe (trace s)
}.

(** The members of its variable after an operation. *)
Definition target (s : weaks) (x : var) : option ptr := wps s !! x ≫= m_ptr.

Definition target_after (o : weak_operation) (s : weaks) : option ptr :=
  match o with
  | WDefault x | WDestroy x | WClear x => None
  | WFrom x other | WAssignFrom x other | WSet x other _ => other
  | WCopy x other | WAssign x other => target s other
  | WPromote x => target s x
  end.

(** * Calls *)

Definition delta (c : call) (x : var) (p : ptr) : Z :=
  (if decide (gained c = Some (x, p)) then 1 else 0) - (if decide (lost c = Some (x, p)) then 1 else 0).

Lemma balance_snoc t c x p : balance (t ++ [c]) x p = balance t x p + delta c x p.
Proof.
  unfold balance, delta. rewrite !filter_app, !length_app, !filter_cons, !filter_nil.
  destruct (decide (gained c = _)), (decide (lost c = _)); cbn [length]; lia.
Qed.

Lemma balance_referenced t x p : 0 < balance t x p -> referenced t p.
Proof.
  unfold balance, referenced. intros Hb. apply Exists_exists.
  destruct (filter (fun c => gained c = Some (x, p)) t) as [|c l] eqn:E; [cbn in Hb; lia|].
  assert (c ∈ filter (fun c => gained c = Some (x, p)) t) as [Hg Hc]%list_elem_of_filter by (rewrite E; left).
  exists c. split; [done|]. rewrite Hg. unfold balance. rewrite E. exact Hb.
Qed.

Lemma safe_snoc t c : safe t -> safe_call t c -> safe (t ++ [c]).
Proof.
  intros Ht Hc t1 c1 t2 E. destruct t2 as [|c2 t2 _] using rev_ind.
  - apply app_inj_tail in E as [-> ->]. exact Hc.
  - apply (Ht t1 c1 t2). rewrite app_comm_cons, app_assoc in E. by apply app_inj_tail in E as [-> _].
Qed.

(** Variables that are as before. *)
Definition frozen (U : var -> Prop) (s s' : weaks) : Prop := forall x, U x ->
  wps s' !! x = wps s !! x /\ forall p, balance (trace s') x p = balance (trace s) x p.

(** Code that leaves the variables alone that are inside an operation, and
    those of [U]. *)
Definition quiet (U : var -> Prop) (m : M unit) : Prop := forall s, good s ->
  exists s', m s = Some (tt, s') /\ good s' /\ busy s' = busy s /\ frozen (fun x => x ∈ busy s \/ U x) s s'.

Lemma quiet_none U : quiet U (mret tt).
Proof. intros s Hs. exists s. done. Qed.

Lemma quiet_bind U m m' : quiet U m -> quiet U m' -> quiet U (_ ← m; m').
Proof.
  intros Hm Hm' s Hs. destruct (Hm s Hs) as (s1 & E1 & G1 & B1 & F1). destruct (Hm' s1 G1) as (s2 & E2 & G2 & B2 & F2).
  exists s2. rewrite (bind_some _ _ _ _ _ E1). split; [exact E2|]. split; [exact G2|]. split; [congruence|].
  intros x Hx. destruct (F1 x Hx) as [W1 R1]. rewrite B1 in F2. destruct (F2 x Hx) as [W2 R2].
  split; [congruence|]. intros p. by rewrite R2, R1.
Qed.

Lemma delta_gain c x p y q : gained c = Some (x, p) -> lost c = None -> delta c y q = if decide (y = x) then here (Some p) q else 0.
Proof.
  intros E1 E2. unfold delta, here. rewrite E1, E2. rewrite (decide_False (P := None = Some _)) by done.
  destruct (decide (y = x)) as [->|Hne]; [|rewrite decide_False by congruence; lia].
  destruct (decide (Some p = Some q)) as [[= ->]|Hq]; [by rewrite decide_True|rewrite decide_False by congruence; lia].
Qed.

Lemma delta_loss c x p y q : lost c = Some (x, p) -> gained c = None -> delta c y q = if decide (y = x) then - here (Some p) q else 0.
Proof.
  intros E1 E2. unfold delta, here. rewrite E1, E2. rewrite (decide_False (P := None = Some _)) by done.
  destruct (decide (y = x)) as [->|Hne]; [|rewrite decide_False by congruence; lia].
  destruct (decide (Some p = Some q)) as [[= ->]|Hq]; [by rewrite decide_True|rewrite decide_False by congruence; lia].
Qed.

(** * The operations *)

Lemma known_cases w : known w -> (m_ptr w = None /\ held w = None) \/ exists o p, w = {| m_ptr := Some o; m_refs := Some (Some p) |} /\ held w = Some p.
Proof.
  destruct w as [[o|] [[p|]|]]; intros Hw; try (by left); [right; by exists o, p| |]; destruct (Hw ltac:(done) eq_refl).
Qed.

Section Operations.
Context (U : var -> Prop) (gaining losing : M unit) (Hgaining : quiet U gaining) (Hlosing : quiet U losing).
Context (x : var).

(** What an operation on [x] does besides its effect on [x]. *)
Record steps (s s' : weaks) : Prop := {
  step_good : good s';
  step_busy : busy s' = busy s;
  step_frozen : frozen (fun y => y <> x /\ (y ∈ busy s \/ U y)) s s'
}.

Lemma steps_refl s : good s -> steps s s.
Proof. by split. Qed.

Lemma steps_trans s1 s2 s3 : steps s1 s2 -> steps s2 s3 -> steps s1 s3.
Proof.
  intros [G1 B1 F1] [G2 B2 F2]. split; [done|congruence|]. intros y Hy. destruct (F1 y Hy) as [W1 R1].
  rewrite B1 in F2. destruct (F2 y Hy) as [W2 R2]. split; [congruence|]. intros p. by rewrite R2, R1.
Qed.

(** The variable has the members [w], and references [f]. *)
Definition has (s : weaks) (w : option wp) (f : ptr -> Z) : Prop :=
  wps s !! x = w /\ forall p, balance (trace s) x p = f p.

Lemma invoke_steps c inside s w f :
  quiet U inside -> good s -> x ∈ busy s -> safe_call (trace s) c ->
  (forall y p, y <> x -> delta c y p = 0) -> has s w f ->
  exists s', invoke c inside s = Some (tt, s') /\ steps s s' /\ has s' w (fun p => f p + delta c x p).
Proof.
  intros Hi [Gb Gk Gs] Hx Hc Hd [Hw Hf]. set (s1 := {| wps := wps s; trace := trace s ++ [c]; busy := busy s |}).
  assert (good s1) as G1.
  { split; cbn [wps trace busy s1].
    - intros y p Hy. rewrite balance_snoc, Hd by (intros ->; done). rewrite Z.add_0_r. by apply Gb.
    - exact Gk.
    - by apply safe_snoc. }
  destruct (Hi s1 G1) as (s' & E & G & B & F). exists s'. split.
  { unfold invoke. by rewrite (bind_some _ _ s tt s1). }
  split; [split; [exact G|exact B|]|].
  - intros y [Hne Hy]. destruct (F y Hy) as [W R]. split; [exact W|]. intros p. rewrite R. cbn [trace s1].
    rewrite balance_snoc, Hd by done. lia.
  - destruct (F x (or_introl Hx)) as [W R]. split; [by rewrite W|]. intros p. rewrite R. cbn [trace s1]. by rewrite balance_snoc, Hf.
Qed.


Lemma has_ext s w f g : has s w f -> (forall p, f p = g p) -> has s w g.
Proof. intros [Hw Hf] E. split; [done|]. intros p. by rewrite Hf. Qed.

Lemma gain_steps c p s w f :
  gained c = Some (x, p) -> lost c = None -> good s -> x ∈ busy s -> safe_call (trace s) c -> has s w f ->
  exists s', invoke c gaining s = Some (tt, s') /\ steps s s' /\ has s' w (fun q => f q + here (Some p) q).
Proof.
  intros Eg El Hs Hx Hc Hw. destruct (invoke_steps c gaining s w f) as (s' & E & Hst & Hw'); try done.
  { intros y q Hne. rewrite (delta_gain c x p) by done. by rewrite decide_False. }
  exists s'. split; [done|]. split; [done|]. eapply has_ext; [exact Hw'|]. intros q. cbn beta.
  rewrite (delta_gain c x p) by done. by rewrite decide_True.
Qed.

Lemma if_set_inc w0 s w f :
  known w0 -> (forall p, held w0 = Some p -> p ∈ kept \/ referenced (trace s) p) -> good s -> x ∈ busy s -> has s w f ->
  exists s', if_set w0 (incWeak gaining x) s = Some (tt, s') /\ steps s s' /\ has s' w (fun p => f p + here (held w0) p).
Proof.
  intros Hk Hr Hs Hx Hw. destruct (known_cases w0 Hk) as [[E Eh]|(o & p & -> & Eh)]; rewrite Eh in *.
  - exists s. unfold if_set. rewrite E. split; [done|]. split; [by apply steps_refl|].
    eapply has_ext; [exact Hw|]. intros q. rewrite here_none. lia.
  - apply gain_steps; try done. by apply Hr.
Qed.

Lemma if_set_dec w0 s w f :
  known w0 -> (forall p, held w0 = Some p -> 0 < f p) -> good s -> x ∈ busy s -> has s w f ->
  exists s', if_set w0 (decWeak losing x) s = Some (tt, s') /\ steps s s' /\ has s' w (fun p => f p - here (held w0) p).
Proof.
  intros Hk Hr Hs Hx Hw. destruct (known_cases w0 Hk) as [[E Eh]|(o & p & -> & Eh)]; rewrite Eh in *.
  - exists s. unfold if_set. rewrite E. split; [done|]. split; [by apply steps_refl|].
    eapply has_ext; [exact Hw|]. intros q. rewrite here_none. lia.
  - destruct (invoke_steps (DecWeak p x) losing s w f) as (s' & E & Hst & Hw'); try done.
    { cbn. rewrite (proj2 Hw). by apply Hr. }
    { intros y q Hne. rewrite (delta_loss _ x p) by done. by rewrite decide_False. }
    exists s'. split; [exact E|]. split; [done|]. eapply has_ext; [exact Hw'|]. intros q. cbn beta.
    rewrite (delta_loss _ x p) by done. rewrite decide_True by done. lia.
Qed.

Lemma createWeak_steps o s w f : good s -> x ∈ busy s -> has s w f ->
  exists p s', createWeak gaining x o s = Some (p, s') /\ steps s s' /\ has s' w (fun q => f q + here (Some p) q).
Proof.
  intros Hs Hx Hw. set (p := createWeak_answer (trace s) o x).
  destruct (gain_steps (CreateWeak o x p) p s w f) as (s' & E & Hst & Hw'); try done.
  exists p, s'. split; [|done]. unfold createWeak. rewrite (bind_some _ _ s p s) by done. by rewrite (bind_some _ _ _ _ _ E).
Qed.

Lemma newRefs_steps other s w f : good s -> x ∈ busy s -> has s w f ->
  exists q s', newRefs gaining x other s = Some (q, s') /\ steps s s' /\ has s' w (fun p => f p + here q p)
    /\ held {| m_ptr := other; m_refs := Some q |} = q /\ known {| m_ptr := other; m_refs := Some q |}.
Proof.
  intros Hs Hx Hw. destruct other as [o|].
  - destruct (createWeak_steps o s w f Hs Hx Hw) as (p & s' & E & Hst & Hw').
    exists (Some p), s'. split; [|done]. unfold newRefs. by rewrite (bind_some _ _ _ _ _ E).
  - exists None, s. split; [done|]. split; [by apply steps_refl|]. split; [|by split; [|intros []]].
    eapply has_ext; [exact Hw|]. intros q. rewrite here_none. lia.
Qed.

(** The variable is inside the operation: what it has does not count. *)
Lemma write_steps s s' w f :
  good s -> x ∈ busy s -> has s w f -> trace s' = trace s -> busy s' = busy s ->
  (forall y, y <> x -> wps s' !! y = wps s !! y) -> steps s s' /\ has s' (wps s' !! x) f.
Proof.
  intros [Gb Gk Gs] Hx [Hw Hf] Et Eb Ew. split; [split; [split|done|]|split; [done|]; intros p; by rewrite Et, Hf].
  - intros y p. rewrite Eb, Et. intros Hy. rewrite Ew by (intros ->; done). by apply Gb.
  - intros y v. rewrite Eb. intros Hy. rewrite Ew by (intros ->; done). by apply Gk.
  - by rewrite Et.
  - intros y [Hne _]. split; [by apply Ew|]. intros p. by rewrite Et.
Qed.

Lemma set_steps s a b w f : good s -> x ∈ busy s -> has s w f ->
  exists s', set x a b s = Some (tt, s') /\ steps s s' /\ has s' (Some {| m_ptr := a; m_refs := b |}) f.
Proof.
  intros Hs Hx Hw. eexists. split; [reflexivity|].
  destruct (write_steps s {| wps := <[x := {| m_ptr := a; m_refs := b |}]> (wps s); trace := trace s; busy := busy s |} w f)
    as [H1 H2]; try done.
  - intros y Hne. cbn [wps]. by rewrite lookup_insert_ne.
  - cbn [wps] in H2. rewrite lookup_insert_eq in H2. done.
Qed.

Lemma end_steps s w f : good s -> x ∈ busy s -> has s w f ->
  exists s', end_variable x s = Some (tt, s') /\ steps s s' /\ has s' None f.
Proof.
  intros Hs Hx Hw. eexists. split; [reflexivity|].
  destruct (write_steps s {| wps := delete x (wps s); trace := trace s; busy := busy s |} w f) as [H1 H2]; try done.
  - intros y Hne. cbn [wps]. by rewrite lookup_delete_ne.
  - cbn [wps] in H2. rewrite lookup_delete_eq in H2. done.
Qed.

(** What [x] has after an operation: nothing, or members [w] and their
    reference. *)
Definition settled (s : weaks) (m : M unit) (w : option wp) : Prop :=
  exists s', m s = Some (tt, s') /\ steps s s' /\ has s' w (here (w ≫= held)) /\ forall w', w = Some w' -> known w'.

(** The end of every assignment: the old value is released. *)
Lemma replace s w w' :
  good s -> x ∈ busy s -> known w -> known w' -> has s (Some w) (fun p => here (held w) p + here (held w') p) ->
  settled s (w ← variable x; _ ← if_set w (decWeak losing x); set x (m_ptr w') (m_refs w')) (Some w').
Proof.
  intros Hs Hx Hk Hk' Hw.
  assert (forall p, held w = Some p -> 0 < here (held w) p + here (held w') p) as Hr.
  { intros p ->. pose proof (here_range (held w') p). unfold here at 1. rewrite decide_True by done. lia. }
  destruct (if_set_dec w s (Some w) _ Hk Hr Hs Hx Hw) as (s1 & E1 & St1 & Hw1).
  destruct (set_steps s1 (m_ptr w') (m_refs w') (Some w) _ (step_good _ _ St1) ltac:(by rewrite (step_busy _ _ St1)) Hw1)
    as (s2 & E2 & St2 & Hw2).
  exists s2. split_and!.
  - rewrite (bind_some _ _ s w s) by (unfold variable; by rewrite (proj1 Hw)). by rewrite (bind_some _ _ _ _ _ E1).
  - by eapply steps_trans.
  - eapply has_ext; [replace (Some w') with (Some {| m_ptr := m_ptr w'; m_refs := m_refs w' |}) by (by destruct w'); exact Hw2|].
    intros p. cbn. lia.
  - by intros ? [= <-].
Qed.

(** *** Each of them, on a state in which it is permitted *)

Definition enter (s : weaks) : weaks := {| wps := wps s; trace := trace s; busy := {[x]} ∪ busy s |}.

Definition performed (s : weaks) (m : M unit) (a : option ptr) : Prop := exists w, settled (enter s) m w /\ w ≫= m_ptr = a.

Context (s : weaks) (Hs : good s) (Hx : x ∉ busy s).

Lemma enter_good : good (enter s).
Proof.
  destruct Hs as [Gb Gk Gs]. split; cbn [wps trace busy enter]; [|intros y v Hy; apply Gk; set_solver|done].
  intros y p Hy. apply Gb. set_solver.
Qed.

Lemma enter_busy : x ∈ busy (enter s).
Proof. cbn. set_solver. Qed.

Lemma enter_has w : wps s !! x = w -> has (enter s) w (here (w ≫= held)).
Proof. intros <-. split; [done|]. intros p. by apply (good_balance s Hs). Qed.

Lemma steps_enter_busy s' : steps (enter s) s' -> x ∈ busy s'.
Proof. intros Hst. rewrite (step_busy _ _ Hst). apply enter_busy. Qed.

Lemma variable_bind {A} (f : wp -> M A) s' w g : has s' (Some w) g -> (variable x ≫= f) s' = f w s'.
Proof. intros [Hw _]. apply bind_some. unfold variable. by rewrite Hw. Qed.

(** The members of a variable that can be read. *)
Lemma readable_known y w : y ∉ busy s -> wps s !! y = Some w ->
  known w /\ forall p, held w = Some p -> p ∈ kept \/ referenced (trace s) p.
Proof.
  intros Hy Hw. split; [by apply (good_known s Hs y)|]. intros p Hp. right. apply (balance_referenced _ y).
  rewrite (good_balance s Hs) by done. rewrite Hw. cbn. unfold here. by rewrite decide_True.
Qed.

Lemma wp_default_performed : wps s !! x = None -> performed s (wp_default x) None.
Proof.
  intros Hw. destruct (set_steps (enter s) None None None _ enter_good enter_busy (enter_has None Hw)) as (s' & E & St & Hw').
  exists (Some {| m_ptr := None; m_refs := None |}). split; [|done].
  exists s'. split; [exact E|]. split; [exact St|]. split; [exact Hw'|]. by intros w' [= <-] [].
Qed.

Lemma wp_from_performed other : wps s !! x = None -> performed s (wp_from gaining x other) other.
Proof.
  intros Hw. destruct other as [o|]; [|apply wp_default_performed, Hw].
  destruct (set_steps (enter s) (Some o) None None _ enter_good enter_busy (enter_has None Hw)) as (s1 & E1 & St1 & Hw1).
  destruct (createWeak_steps o s1 _ _ (step_good _ _ St1) (steps_enter_busy s1 St1) Hw1) as (p & s2 & E2 & St2 & Hw2).
  pose proof (steps_trans _ _ _ St1 St2) as St.
  destruct (set_steps s2 (Some o) (Some (Some p)) _ _ (step_good _ _ St) (steps_enter_busy s2 St) Hw2) as (s3 & E3 & St3 & Hw3).
  exists (Some {| m_ptr := Some o; m_refs := Some (Some p) |}). split; [|done]. exists s3. split_and!.
  - unfold wp_from. by rewrite (bind_some _ _ _ _ _ E1), (bind_some _ _ _ _ _ E2).
  - by eapply steps_trans.
  - eapply has_ext; [exact Hw3|]. intros q. cbn. rewrite here_none. lia.
  - by intros w' [= <-].
Qed.

Lemma wp_copy_performed y w : wps s !! x = None -> y ∉ busy s -> wps s !! y = Some w -> performed s (wp_copy gaining x y) (m_ptr w).
Proof.
  intros Hw Hy Hyw. destruct (readable_known y w Hy Hyw) as [Hk Hr].
  destruct (set_steps (enter s) (m_ptr w) (m_refs w) None _ enter_good enter_busy (enter_has None Hw)) as (s1 & E1 & St1 & Hw1).
  assert (trace s1 = trace s) as Et by by injection E1 as <-. rewrite <- Et in Hr.
  destruct (if_set_inc w s1 _ _ Hk Hr (step_good _ _ St1) (steps_enter_busy s1 St1) Hw1) as (s2 & E2 & St2 & Hw2).
  exists (Some w). split; [|done]. exists s2. split_and!.
  - unfold wp_copy. rewrite (bind_some _ _ (enter s) w (enter s)) by (unfold variable; cbn; by rewrite Hyw).
    by rewrite (bind_some _ _ _ _ _ E1).
  - by eapply steps_trans.
  - destruct w. eapply has_ext; [exact Hw2|]. intros q. cbn. rewrite here_none. lia.
  - by intros w' [= <-].
Qed.

Section There.
Context (w : wp) (Hw : wps s !! x = Some w).

Lemma wp_destructor_performed : performed s (wp_destructor losing x) None.
Proof.
  destruct (readable_known x w Hx Hw) as [Hk _]. pose proof (enter_has _ Hw) as Hh.
  assert (forall p, held w = Some p -> 0 < here (Some w ≫= held) p) as Hr.
  { intros p Hp. cbn. rewrite Hp. unfold here. by rewrite decide_True. }
  destruct (if_set_dec w (enter s) _ _ Hk Hr enter_good enter_busy Hh) as (s1 & E1 & St1 & Hw1).
  destruct (end_steps s1 _ _ (step_good _ _ St1) (steps_enter_busy s1 St1) Hw1) as (s2 & E2 & St2 & Hw2).
  exists None. split; [|done]. exists s2. split_and!.
  - unfold wp_destructor. by rewrite (variable_bind _ _ _ _ Hh), (bind_some _ _ _ _ _ E1).
  - by eapply steps_trans.
  - eapply has_ext; [exact Hw2|]. intros q. cbn. rewrite here_none. lia.
  - done.
Qed.

(** After a step that has counted the new value [w']. *)
Lemma replace_performed s1 w' m :
  steps (enter s) s1 -> has s1 (Some w) (fun p => here (held w) p + here (held w') p) -> known w' ->
  m (enter s) = (w ← variable x; _ ← if_set w (decWeak losing x); set x (m_ptr w') (m_refs w')) s1 ->
  performed s m (m_ptr w').
Proof.
  intros St Hw1 Hk' E. destruct (readable_known x w Hx Hw) as [Hk _].
  destruct (replace s1 w w' (step_good _ _ St) (steps_enter_busy s1 St) Hk Hk' Hw1) as (s2 & E2 & St2 & Hw2 & Hk2).
  exists (Some w'). split; [|done]. exists s2. split_and!; [by rewrite E|by eapply steps_trans|done|done].
Qed.

Lemma wp_assign_from_performed other : performed s (wp_assign_from gaining losing x other) other.
Proof.
  destruct (newRefs_steps other (enter s) _ _ enter_good enter_busy (enter_has _ Hw)) as (q & s1 & E1 & St1 & Hw1 & Hq & Hk').
  apply (replace_performed s1 {| m_ptr := other; m_refs := Some q |}); [done|by rewrite Hq|done|].
  unfold wp_assign_from. by rewrite (bind_some _ _ _ _ _ E1).
Qed.

Lemma counted_performed w' m :
  known w' -> (forall p, held w' = Some p -> p ∈ kept \/ referenced (trace s) p) ->
  m (enter s) = (_ ← if_set w' (incWeak gaining x); w ← variable x; _ ← if_set w (decWeak losing x); set x (m_ptr w') (m_refs w')) (enter s) ->
  performed s m (m_ptr w').
Proof.
  intros Hk' Hr E. destruct (if_set_inc w' (enter s) _ _ Hk' Hr enter_good enter_busy (enter_has _ Hw)) as (s1 & E1 & St1 & Hw1).
  rewrite (bind_some _ _ _ _ _ E1) in E. by apply (replace_performed s1 w').
Qed.

Lemma wp_assign_performed y o : y ∉ busy s -> wps s !! y = Some o -> performed s (wp_assign gaining losing x y) (m_ptr o).
Proof.
  intros Hy Ho. destruct (readable_known y o Hy Ho) as [Hk Hr]. apply counted_performed; [done|done|].
  unfold wp_assign. by rewrite (bind_some _ _ (enter s) o (enter s)) by (unfold variable; cbn; by rewrite Ho).
Qed.

Lemma set_object_and_refs_performed other refs :
  (other <> None -> exists p, refs = Some p /\ (p ∈ kept \/ referenced (trace s) p)) ->
  performed s (set_object_and_refs gaining losing x other refs) other.
Proof.
  intros Hr. apply (counted_performed {| m_ptr := other; m_refs := Some refs |}); [| |done].
  - intros Hn. by destruct (Hr Hn) as (p & -> & _); destruct other.
  - intros p Hp. destruct other as [o|]; [|done]. destruct (Hr ltac:(done)) as (p' & -> & Hp'). by injection Hp as <-.
Qed.

Lemma wp_clear_performed : performed s (wp_clear losing x) None.
Proof.
  destruct (m_ptr w) as [o|] eqn:Em.
  - apply (replace_performed (enter s) {| m_ptr := None; m_refs := m_refs w |});
      [exact (steps_refl _ enter_good)| |by intros []|].
    + eapply has_ext; [exact (enter_has _ Hw)|]. intros q. cbn. rewrite here_none. lia.
    + unfold wp_clear. rewrite !(variable_bind _ _ _ _ (enter_has _ Hw)). rewrite Em. unfold if_set. by rewrite Em.
  - exists (Some w). split; [|done]. exists (enter s). split_and!.
    + unfold wp_clear. rewrite (variable_bind _ _ _ _ (enter_has _ Hw)). by rewrite Em.
    + exact (steps_refl _ enter_good).
    + exact (enter_has _ Hw).
    + intros w' [= <-]. by apply (readable_known x).
Qed.

(** [promote] gives the pointer exactly when RefBase gives a strong reference,
    and asks it for one exactly when the variable is not null. *)
Lemma promote_performed :
  exists s', promote gaining x (enter s)
      = Some (match held w with Some p => if attemptIncStrong_answer (trace s) p then m_ptr w else None | None => None end, s')
    /\ steps (enter s) s' /\ has s' (Some w) (here (held w)).
Proof.
  destruct (readable_known x w Hx Hw) as [Hk Hr]. unfold promote. rewrite (variable_bind _ _ _ _ (enter_has _ Hw)).
  destruct (known_cases w Hk) as [[E Eh]|(o & p & -> & Eh)]; rewrite Eh.
  - rewrite E. exists (enter s). split; [done|]. split; [exact (steps_refl _ enter_good)|].
    pose proof (enter_has _ Hw) as Hh. cbn in Hh. by rewrite Eh in Hh.
  - cbn [m_ptr m_refs through]. set (b := attemptIncStrong_answer (trace s) p).
    assert (safe_call (trace (enter s)) (AttemptIncStrong p b)) as Hc.
    { apply (balance_referenced _ x). cbn. rewrite (good_balance s Hs) by done. rewrite Hw. cbn. unfold here. by rewrite decide_True. }
    destruct (invoke_steps (AttemptIncStrong p b) gaining (enter s) _ _ Hgaining enter_good enter_busy Hc ltac:(done) (enter_has _ Hw))
      as (s' & E & St & Hw').
    exists s'. split; [|split; [exact St|]].
    + rewrite (bind_some _ _ (enter s) b s'); [done|]. unfold attemptIncStrong.
      rewrite (bind_some _ _ (enter s) b (enter s)) by done. by rewrite (bind_some _ _ _ _ _ E).
    + eapply has_ext; [exact Hw'|]. intros q. cbn. unfold delta. cbn. lia.
Qed.
End There.
End Operations.

(** * Runs *)

Lemma target_eq s x w : wps s !! x = w -> target s x = w ≫= m_ptr.
Proof. by intros <-. Qed.

Lemma operation_performed U gaining losing o s :
  quiet U gaining -> quiet U losing -> good s -> weak_permitted o s = true ->
  performed U (subject o) s (perform_weak gaining losing o) (target_after o s).
Proof.
  intros Hg Hl Hs. unfold weak_permitted. rewrite !andb_true_iff, bool_decide_eq_true. intros [[[Hb Hd] Hy] Hw].
  assert (if constructs o then wps s !! subject o = None else exists w, wps s !! subject o = Some w) as Hx.
  { destruct (constructs o); apply bool_decide_eq_true in Hd; [by apply not_elem_of_dom|by apply elem_of_dom]. }
  assert (match source o with Some y => y ∉ busy s /\ exists w, wps s !! y = Some w | None => True end) as Hsrc.
  { destruct (source o) as [y|]; [|done]. apply andb_true_iff in Hy as [H1%bool_decide_eq_true H2%bool_decide_eq_true].
    split; [done|]. by apply elem_of_dom. }
  clear Hd Hy. destruct o as [x|x q|x y|x|x q|x y|x q q'|x|x]; cbn [subject constructs source target_after perform_weak] in *.
  - apply (wp_default_performed U gaining losing); done.
  - by eapply (wp_from_performed U gaining losing).
  - destruct Hsrc as [Hy [w Hyw]]. rewrite (target_eq _ _ _ Hyw). by eapply (wp_copy_performed U gaining losing).
  - destruct Hx as [w Hx]. by eapply (wp_destructor_performed U gaining losing).
  - destruct Hx as [w Hx]. by eapply (wp_assign_from_performed U gaining losing).
  - destruct Hx as [w Hx], Hsrc as [Hy [v Hyv]]. rewrite (target_eq _ _ _ Hyv). by eapply (wp_assign_performed U gaining losing).
  - destruct Hx as [w Hx]. eapply (set_object_and_refs_performed U gaining losing); try done. intros Hq. destruct q as [q|]; [|done].
    destruct q' as [p|]; [|done]. apply bool_decide_eq_true in Hw. by exists p.
  - destruct Hx as [w Hx]. by eapply (wp_clear_performed U gaining losing).
  - destruct Hx as [w Hx]. destruct (promote_performed U gaining losing Hg Hl x s Hs Hb w Hx) as (s' & E & St & Hh).
    exists (Some w). split; [|by rewrite (target_eq _ _ _ Hx)]. exists s'. split_and!; [by rewrite (bind_some _ _ _ _ _ E)|done|done|].
    intros w' [= <-]. by apply (good_known s Hs x).
Qed.

(** After the operation its variable counts again. *)
Lemma leave_good U x s s' w :
  x ∉ busy s -> steps U x (enter x s) s' -> has x s' w (here (w ≫= held)) -> (forall w', w = Some w' -> known w') ->
  let s'' := {| wps := wps s'; trace := trace s'; busy := busy s' ∖ {[x]} |} in
  good s'' /\ busy s'' = busy s.
Proof.
  intros Hx [[Gb Gk Gs] B F] [Hw Hf] Hk. cbn [busy enter] in B. assert (busy s' ∖ {[x]} = busy s) as Eb by (rewrite B; set_solver).
  split; [|exact Eb]. split; cbn [wps trace busy].
  - intros y p Hy. destruct (decide (y = x)) as [->|Hne]; [by rewrite Hf, Hw|]. apply Gb. rewrite B. rewrite Eb in Hy. set_solver.
  - intros y v Hy E. destruct (decide (y = x)) as [->|Hne]; [apply Hk; congruence|]. apply (Gk y); [|done]. rewrite B. rewrite Eb in Hy. set_solver.
  - exact Gs.
Qed.

Lemma run_eq o gaining losing s : weak_permitted o s = true ->
  run (Execution o gaining losing) s
  = (_ ← perform_weak (run_all gaining) (run_all losing) o;
     modify (fun s => {| wps := wps s; trace := trace s; busy := busy s ∖ {[subject o]} |})) (enter (subject o) s).
Proof. intros E. cbn [run]. rewrite (bind_some _ _ s true s) by (unfold gets; by rewrite E). reflexivity. Qed.

Lemma run_operation U o gaining losing s :
  quiet U (run_all gaining) -> quiet U (run_all losing) -> good s -> weak_permitted o s = true ->
  exists s', run (Execution o gaining losing) s = Some (tt, s') /\ good s' /\ busy s' = busy s
    /\ frozen (fun y => y <> subject o /\ (y ∈ busy s \/ U y)) s s' /\ target s' (subject o) = target_after o s.
Proof.
  intros Hg Hl Hs Ho. destruct (operation_performed U _ _ o s Hg Hl Hs Ho) as (w & (s' & E & St & Hw & Hk) & Ht).
  assert (subject o ∉ busy s) as Hx.
  { unfold weak_permitted in Ho. rewrite !andb_true_iff, bool_decide_eq_true in Ho. tauto. }
  destruct (leave_good U _ s s' w Hx St Hw Hk) as [Hgood Hb]. eexists. split_and!.
  - rewrite run_eq by done. rewrite (bind_some _ _ _ _ _ E). reflexivity.
  - exact Hgood.
  - exact Hb.
  - intros y [Hne Hy]. apply (step_frozen _ _ _ _ St y). cbn [busy enter]. split; [done|]. set_solver.
  - rewrite <- Ht. unfold target. cbn [wps]. by rewrite (proj1 Hw).
Qed.

Fixpoint execution_induct (P : execution -> Prop)
  (Hp : forall o gaining losing, Forall P gaining -> Forall P losing -> P (Execution o gaining losing)) e : P e :=
  let all := fix all (l : list execution) : Forall P l :=
    match l with [] => Forall_nil_2 P | e :: l => Forall_cons_2 P e l (execution_induct P Hp e) (all l) end in
  match e with Execution o gaining losing => Hp o gaining losing (all gaining) (all losing) end.

Lemma run_all_quiet U l : Forall (fun e => quiet U (run e)) l -> quiet U (run_all l).
Proof. induction 1 as [|e l He _ IH]; [apply quiet_none|]. by apply quiet_bind. Qed.

Lemma run_quiet e : quiet (fun _ => False) (run e).
Proof.
  induction e as [o gaining losing Hg Hl] using execution_induct. intros s Hs.
  destruct (weak_permitted o s) eqn:E.
  - destruct (run_operation (fun _ => False) o gaining losing s) as (s' & E' & G & B & F & _); [by apply run_all_quiet..|done|done|].
    exists s'. split_and!; [done..|]. intros y [Hy|[]]. apply F. split; [|by left]. intros ->.
    unfold weak_permitted in E. rewrite !andb_true_iff, bool_decide_eq_true in E. tauto.
  - exists s. split; [|done]. cbn [run]. rewrite (bind_some _ _ s false s) by (unfold gets; by rewrite E). done.
Qed.

Definition nothing : weaks := {| wps := ∅; trace := []; busy := ∅ |}.

Lemma nothing_good : good nothing.
Proof.
  split; cbn [wps trace busy nothing].
  - intros x p _. rewrite lookup_empty. cbn. by rewrite here_none.
  - intros x w _ [=].
  - intros t1 c t2 E. by destruct t1.
Qed.
End Runs.

(** * Properties *)

(** C21. Weak references, whatever RefBase does and answers.  Take any sequence
    of operations that C++ permits on [wp] variables, from none, where further
    operations, and others inside their calls, happen inside the calls of each:
    it runs; afterwards each variable that is not null has exactly one
    reference, which is on its own weakref_type, and no other variable has one;
    along the way no weakref_type was used on which nobody had a reference, and
    no variable gave back what it did not have.  In such a state every
    operation permitted gives its variable the pointer it should, whatever
    happens inside its calls, and if nothing does the other variables stay. *)
Theorem wp_correct `{RefBase} (kept : gset ptr) (es : list execution) :
  exists s, run_all kept es nothing = Some (tt, s)
    /\ (forall x p, balance (trace s) x p = here (wps s !! x ≫= held) p)
    /\ (forall x, target s x <> None -> wps s !! x ≫= held <> None)
    /\ safe kept (trace s)
    /\ forall o gaining losing, weak_permitted kept o s = true ->
         exists s', run kept (Execution o gaining losing) s = Some (tt, s')
           /\ target s' (subject o) = target_after o s
           /\ (gaining = [] -> losing = [] -> forall y, y <> subject o -> wps s' !! y = wps s !! y).
Proof.
  assert (forall l, quiet kept (fun _ => False) (run_all kept l)) as Hall.
  { intros l. apply run_all_quiet, Forall_forall. intros e _. apply run_quiet. }
  destruct (Hall es nothing (nothing_good kept)) as (s & E & Hs & Hb & _). cbn [busy nothing] in Hb.
  assert (forall x, x ∉ busy s) as Hnb by (intros x; rewrite Hb; set_solver).
  exists s. split_and!; [done| | |apply (good_safe _ _ Hs)|].
  - intros x p. by apply (good_balance kept s Hs).
  - intros x. unfold target. destruct (wps s !! x) as [w|] eqn:Ew; [|done]. by apply (good_known kept s Hs x).
  - intros o gaining losing Ho.
    destruct (run_operation kept (fun _ => False) o gaining losing s) as (s' & E' & _ & _ & _ & Ht); [apply Hall..|done|done|].
    exists s'. split_and!; [done|done|]. intros -> -> y Hy.
    destruct (run_operation kept (fun y => y <> subject o) o [] [] s) as (s2 & E2 & _ & _ & F & _);
      [apply quiet_none..|done|done|]. rewrite E' in E2. injection E2 as <-. apply F. split; [done|by right].
Qed.

(** RefBase for examples: the weakref_type of an object is behind it, and an
    object has a strong reference when its address is even. *)
Definition plain_RefBase : RefBase := {|
  createWeak_answer _ o _ := (o + 100)%positive;
  attemptIncStrong_answer _ p := Z.even (Zpos p)
|}.

(** Two variables of the object at 4; the second is a member of another object
    which goes while the first lets go of its pointer. *)
Definition weak_run : list execution :=
  let first := (None, 0%nat) in let second := (Some 7%positive, 0%nat) in
  [Execution (WFrom first (Some 4%positive)) [] [];
   Execution (WCopy second first) [] [];
   Execution (WAssign first first) [] [];
   Execution (WClear first) [] [Execution (WDestroy second) [] []]].

Example weak_run_calls :
  (trace ∘ snd <$> (let _ := plain_RefBase in run_all ∅ weak_run nothing))
  = Some [CreateWeak 4 (None, 0%nat) 104; IncWeak 104 (Some 7%positive, 0%nat);
          IncWeak 104 (None, 0%nat); DecWeak 104 (None, 0%nat);
          DecWeak 104 (None, 0%nat); DecWeak 104 (Some 7%positive, 0%nat)]%positive.
Proof. vm_compute. reflexivity. Qed.

Lemma wp_correct_witness :
  let _ := plain_RefBase in
  exists s, run_all ∅ weak_run nothing = Some (tt, s) /\ safe ∅ (trace s)
    /\ balance (trace s) (None, 0%nat) 104%positive = 0 /\ target s (None, 0%nat) = None.
Proof.
  intros R. destruct (@wp_correct plain_RefBase ∅ weak_run) as (s & E & Hb & _ & Hsafe & _). exists s.
  split; [exact E|]. split; [exact Hsafe|]. rewrite Hb. vm_compute in E. injection E as <-. by vm_compute.
Defined.

(** [promote] asks for a strong reference exactly when the variable is not
    null, and then gives its pointer exactly when it gets one. *)
Theorem promote_correct `{RefBase} (kept : gset ptr) (es gaining : list execution) x w :
  exists s, run_all kept es nothing = Some (tt, s) /\ (wps s !! x = Some w ->
    exists s', promote (run_all kept gaining) x (enter x s)
        = Some (match held w with Some p => if attemptIncStrong_answer (trace s) p then m_ptr w else None | None => None end, s')
      /\ wps s' !! x = Some w /\ safe kept (trace s')).
Proof.
  assert (forall l, quiet kept (fun _ => False) (run_all kept l)) as Hall.
  { intros l. apply run_all_quiet, Forall_forall. intros e _. apply run_quiet. }
  destruct (Hall es nothing (nothing_good kept)) as (s & E & Hs & Hb & _). exists s. split; [done|]. intros Hw.
  destruct (promote_performed kept (fun _ => False) (run_all kept gaining) (run_all kept []) (Hall _) (Hall _) x s Hs) with (w := w)
    as (s' & E' & St & Hh); [rewrite Hb; cbn; set_solver|done|].
  exists s'. split; [done|]. split; [exact (proj1 Hh)|]. apply (good_safe _ _ (step_good _ _ _ _ _ St)).
Qed.

(** Two variables of one object, one of them cleared: they are neither equal nor
    unequal, since [clear] leaves [m_refs] and [!=] looks at nothing else. *)
Example cleared_neither :
  let w := {| m_ptr := Some 1%positive; m_refs := Some (Some 2%positive) |} in
  let cleared := {| m_ptr := None; m_refs := Some (Some 2%positive) |} in
  wp_eq cleared w = Some false /\ wp_ne cleared w = Some false.
Proof. done. Qed.

(** The comparison of two new variables reads members that have no value. *)
Example default_compared : wp_eq {| m_ptr := None; m_refs := None |} {| m_ptr := None; m_refs := None |} = None.
Proof. done. Qed.
