(* ===== verification/Atomic.v ===== *)
(** * Atomic operations: cutils/atomic.h

    Each function is one step on the [int32_t] at its address; the order of
    threads is the order of their steps, and the memory order of other addresses
    is not modelled.  The arithmetic of an atomic integer wraps around.  The
    comment of the header explains its terms by a simple lock, which is modelled
    with threads in any number and any order. *)
From stdpp Require Import relations.
From S2P Require Import Prelude.

(** ** Functions

    Each takes the value at the address and gives its result and the new value. *)

Definition fetch (f : Z -> Z -> Z) (value a : Z) : Z * Z := (a, s32 (f a value)).

Definition android_atomic_inc (a : Z) : Z * Z := fetch Z.add 1 a.
Definition android_atomic_dec (a : Z) : Z * Z := fetch Z.sub 1 a.
Definition android_atomic_add (value a : Z) : Z * Z := fetch Z.add value a.
Definition android_atomic_and (value a : Z) : Z * Z := fetch Z.land value a.
Definition android_atomic_or (value a : Z) : Z * Z := fetch Z.lor value a.

Definition android_atomic_acquire_load (a : Z) : Z * Z := (a, a).
Definition android_atomic_release_load (a : Z) : Z * Z := (a, a).
Definition android_atomic_acquire_store (value a : Z) : Z := value.
Definition android_atomic_release_store (value a : Z) : Z := value.

(** Whether the exchange is made, and its result, which is 0 when it is. *)
Definition compare_exchange (oldvalue newvalue a : Z) : bool * Z := if a =? oldvalue then (true, newvalue) else (false, a).
Definition android_atomic_acquire_cas (oldvalue newvalue a : Z) : Z * Z :=
  let '(done, a) := compare_exchange oldvalue newvalue a in (Z.b2z (negb done), a).
Definition android_atomic_release_cas (oldvalue newvalue a : Z) : Z * Z :=
  let '(done, a) := compare_exchange oldvalue newvalue a in (Z.b2z (negb done), a).

(** ** Counting

    Threads that add to one counter: their steps in the order they happen, with
    the results. *)

Fixpoint add_all (values : list Z) (a : Z) : list Z * Z :=
  match values with
  | [] => ([], a)
  | v :: values => let '(r, a) := android_atomic_add v a in let '(rs, a) := add_all values a in (r :: rs, a)
  end.

Lemma s32_congr x y : x mod 2 ^ 32 = y mod 2 ^ 32 -> s32 x = s32 y.
Proof. intros H. unfold s32. by rewrite !u32_mod, H. Qed.

Lemma s32_mod x : s32 x mod 2 ^ 32 = x mod 2 ^ 32.
Proof.
  unfold s32. rewrite u32_mod. destruct (_ <? _); [by apply Z.mod_mod|].
  by rewrite <- (Z.mod_add _ 1), Z.mul_1_l, Z.sub_add, Z.mod_mod by lia.
Qed.

Lemma s32_add x y : s32 (s32 x + y) = s32 (x + y).
Proof. apply s32_congr. by rewrite Zplus_mod, s32_mod, <- Zplus_mod. Qed.

(** The results are the counter before each step. *)
Lemma add_all_spec values a : s32 a = a ->
  add_all values a = (map (fun k => s32 (a + foldr Z.add 0 (take k values))) (seq 0 (length values)), s32 (a + foldr Z.add 0 values)).
Proof.
  revert a. induction values as [|v values IH]; intros a Ha; [by rewrite Z.add_0_r, Ha|].
  cbn [add_all android_atomic_add fetch]. unfold android_atomic_add, fetch. rewrite IH by apply s32_congr, s32_mod.
  cbn [length seq map foldr take]. rewrite Z.add_0_r, Ha, s32_add. do 2 f_equal; [|lia]. rewrite <- seq_shift, map_map.
  apply map_ext. intros k. rewrite s32_add. cbn [take foldr]. f_equal. lia.
Qed.

(** ** The lock of the comment

    A thread waits until its compare-and-swap turns the lock from free to held,
    works, and stores that it is free. *)

Definition lock_is_free : Z := 0.
Definition lock_is_held : Z := 1.

Inductive phase := Away | Waiting | Working.

Record lock_state := { word : Z; phases : list phase }.

Definition with_phase (w : Z) (i : nat) (p : phase) (s : lock_state) : lock_state := {| word := w; phases := <[i := p]> (phases s) |}.

(** One step of the thread [i]. *)
Definition thread_step (i : nat) (s : lock_state) : option lock_state :=
  p ← phases s !! i;
  match p with
  | Away => Some (with_phase (word s) i Waiting s)
  | Waiting =>
      let '(r, w) := android_atomic_acquire_cas lock_is_free lock_is_held (word s) in
      Some (with_phase w i (if r =? 0 then Working else Waiting) s)
  | Working => Some (with_phase (android_atomic_release_store lock_is_free (word s)) i Away s)
  end.

Definition any_step (s s' : lock_state) : Prop := exists i, thread_step i s = Some s'.

Definition unlocked (n : nat) : lock_state := {| word := lock_is_free; phases := replicate n Away |}.

(** The lock says whether a thread works, and no two do. *)
Definition guarded (s : lock_state) : Prop :=
  (word s = lock_is_free /\ forall i, phases s !! i <> Some Working)
  \/ exists i, word s = lock_is_held /\ phases s !! i = Some Working /\ forall j, phases s !! j = Some Working -> j = i.

Lemma with_phase_other w i p s j : j <> i -> phases (with_phase w i p s) !! j = phases s !! j.
Proof. intros H. cbn. by rewrite list_lookup_insert_ne. Qed.

Lemma with_phase_same w i p q s : phases s !! i = Some q -> phases (with_phase w i p s) !! i = Some p.
Proof. intros H. cbn. apply list_lookup_insert_eq. by eapply lookup_lt_Some. Qed.

Lemma guarded_step s s' : guarded s -> any_step s s' -> guarded s'.
Proof.
  intros Hg [i Hi]. unfold thread_step in Hi. destruct (phases s !! i) as [p|] eqn:Ep; [|done]. cbn in Hi.
  assert (forall w q j, phases (with_phase w i q s) !! j = Some Working -> (j = i /\ q = Working) \/ (j <> i /\ phases s !! j = Some Working)) as Hw.
  { intros w q j H. destruct (decide (j = i)) as [->|Hn]; [left|right].
    - rewrite (with_phase_same _ _ _ _ _ Ep) in H. split; congruence.
    - by rewrite with_phase_other in H. }
  destruct p; cbn in Hi.
  - injection Hi as <-. destruct Hg as [[Hf Hn]|(k & Hh & Hk & Hu)]; [left|right].
    + split; [done|]. intros j [[_ ?]|[_ Hj]]%Hw; [done|by eapply Hn].
    + exists k. split; [done|]. split; [rewrite with_phase_other; [done|intros ->; congruence]|]. intros j [[_ ?]|[_ Hj]]%Hw; [done|by apply Hu].
  - unfold android_atomic_acquire_cas, compare_exchange in Hi. destruct (Z.eqb_spec (word s) lock_is_free) as [Hf'|Hf']; cbn in Hi; injection Hi as <-.
    + right. exists i. split; [done|]. split; [by eapply with_phase_same|]. intros j [[-> _]|[Hn Hj]]%Hw; [done|].
      destruct Hg as [[_ Hno]|(k & Hh & _)]; [by destruct (Hno j)|by rewrite Hh in Hf'].
    + destruct Hg as [[Hf _]|(k & Hh & Hk & Hu)]; [done|]. right. exists k. split; [done|].
      split; [rewrite with_phase_other; [done|intros ->; congruence]|]. intros j [[_ ?]|[_ Hj]]%Hw; [done|by apply Hu].
  - injection Hi as <-. left. split; [done|]. intros j [[_ ?]|[Hn Hj]]%Hw; [done|].
    destruct Hg as [[_ Hno]|(k & _ & _ & Hu)]; [by destruct (Hno i)|]. apply Hn. by rewrite (Hu j Hj), (Hu i Ep).
Qed.

Lemma guarded_reachable n s : rtc any_step (unlocked n) s -> guarded s.
Proof.
  intros H. assert (guarded (unlocked n)) as H0.
  { left. split; [done|]. intros i Hi. cbn in Hi. apply lookup_replicate_1 in Hi as [Hi _]. done. }
  revert H0. induction H as [s|s1 s2 s3 H12 _ IH]; [done|]. intros H1. apply IH. by eapply guarded_step.
Qed.

Lemma sum_permutation values values' : Permutation values values' -> foldr Z.add 0 values' = foldr Z.add 0 values.
Proof. intros H. induction H; cbn; lia. Qed.

Lemma sum_ones l : Forall (fun v => v = 1) l -> foldr Z.add 0 l = Z.of_nat (length l).
Proof. intros H. induction H; cbn [foldr length]; lia. Qed.

(** * Properties *)

(** The lock excludes: however many threads there are and in whatever order
    their steps come, no two are between their compare-and-swap and their store;
    the word is held exactly while one is; and when none is, the next attempt of
    a thread that waits succeeds. *)
Theorem lock_exclusive n s :
  rtc any_step (unlocked n) s ->
  (forall i j, phases s !! i = Some Working -> phases s !! j = Some Working -> i = j)
  /\ (word s = lock_is_held <-> exists i, phases s !! i = Some Working)
  /\ (forall i, word s = lock_is_free -> phases s !! i = Some Waiting -> exists s', thread_step i s = Some s' /\ phases s' !! i = Some Working).
Proof.
  intros H. apply guarded_reachable in H. split; [|split].
  - intros i j Hi Hj. destruct H as [[_ Hn]|(k & _ & _ & Hu)]; [by destruct (Hn i)|]. by rewrite (Hu i Hi), (Hu j Hj).
  - destruct H as [[-> Hn]|(k & -> & Hk & _)]; [|split; [intros _; by exists k|done]]. split; [done|]. intros [i Hi]. by destruct (Hn i).
  - intros i Hf Hi. unfold thread_step. rewrite Hi. cbn. rewrite Hf. eexists. split; [reflexivity|]. by eapply with_phase_same.
Qed.

Lemma lock_exclusive_witness :
  let s := with_phase 1 0 Working (with_phase 0 0 Waiting (unlocked 2)) in
  (word s = lock_is_held <-> exists i, phases s !! i = Some Working).
Proof.
  apply (lock_exclusive 2). eapply rtc_l; [exists 0%nat; reflexivity|]. eapply rtc_l; [exists 0%nat; reflexivity|]. apply rtc_refl.
Defined.

(** A counter that threads add to ends, in whatever order they come, as the
    sum, reduced to 32 bits, and up to 2^32 calls of android_atomic_inc give
    different results, so that they can be used as names. *)
Theorem counter_correct (values values' : list Z) a :
  s32 a = a -> Permutation values values' ->
  (add_all values a).2 = s32 (a + foldr Z.add 0 values) /\ (add_all values' a).2 = (add_all values a).2
  /\ (Forall (fun v => v = 1) values -> Z.of_nat (length values) <= 2 ^ 32 -> NoDup (add_all values a).1).
Proof.
  intros Ha HP. rewrite !add_all_spec by done. cbn [fst snd]. split; [done|]. split; [by rewrite (sum_permutation _ _ HP)|].
  intros H1 Hn. apply NoDup_fmap_2_strong; [|apply NoDup_seq]. intros i j Hi Hj E. apply elem_of_seq in Hi, Hj.
  rewrite !sum_ones in E by (by apply Forall_take). rewrite !length_take in E.
  apply (f_equal (fun x => x mod 2 ^ 32)) in E. rewrite !s32_mod in E.
  assert (Z.of_nat i mod 2 ^ 32 = Z.of_nat j mod 2 ^ 32) as E'.
  { replace (Z.of_nat i) with (a + Z.of_nat (i `min` length values) - a) by lia.
    replace (Z.of_nat j) with (a + Z.of_nat (j `min` length values) - a) by lia. by rewrite Zminus_mod, E, <- Zminus_mod. }
  rewrite !Z.mod_small in E' by lia. lia.
Qed.

Lemma counter_correct_witness : (add_all [1; 1; 1] (2 ^ 31 - 2)).2 = - (2 ^ 31) + 1 /\ NoDup (add_all [1; 1; 1] (2 ^ 31 - 2)).1.
Proof.
  destruct (counter_correct [1; 1; 1] [1; 1; 1] (2 ^ 31 - 2)) as (E & _ & Hn); [by vm_compute|done|].
  split; [rewrite E; by vm_compute|]. apply Hn; [by repeat constructor|by vm_compute].
Defined.
