(* ===== verification/RefThreads.v ===== *)
(** * References held by threads: LightRefBase of utils/RefBase.h

    The functions of LightRefBase are made for threads that share an object:
    incStrong is one atomic step, and decStrong two, the subtraction and the
    deletion by the thread that saw the count at 1, between which the others go
    on.  StrongPointer has the same functions for one thread, with many objects;
    here is one object, with any number of threads in any order. *)
From stdpp Require Import relations.
From S2P Require Import Prelude.

(** ** State *)

(** A thread holds references and may be about to delete the object. *)
Record thread := { holds : Z; deleting : bool }.

Record shared := { mCount : Z; alive : bool; deletions : Z; threads : list thread }.

(** ** Steps

    An access to the object when it is gone is undefined. *)

Definition fetch_add (n : Z) (s : shared) : option (Z * shared) :=
  if alive s then Some (mCount s, {| mCount := s32 (mCount s + n); alive := alive s; deletions := deletions s; threads := threads s |})
  else None.

Definition set_thread (i : nat) (t : thread) (s : shared) : shared :=
  {| mCount := mCount s; alive := alive s; deletions := deletions s; threads := <[i := t]> (threads s) |}.

(** A thread that holds a reference makes another one. *)
Definition incStrong (i : nat) (t : thread) (s : shared) : option shared :=
  '(_, s) ← fetch_add 1 s; Some (set_thread i {| holds := holds t + 1; deleting := deleting t |} s).

(** [if (mCount.fetch_sub(1) == 1)] *)
Definition decStrong (i : nat) (t : thread) (s : shared) : option shared :=
  '(old, s) ← fetch_add (-1) s; Some (set_thread i {| holds := holds t - 1; deleting := old =? 1 |} s).

(** [delete static_cast<const T*>(this);] *)
Definition delete_object (i : nat) (t : thread) (s : shared) : option shared :=
  if alive s then Some {| mCount := mCount s; alive := false; deletions := deletions s + 1;
                          threads := <[i := {| holds := holds t; deleting := false |}]> (threads s) |}
  else None.

Inductive action := Inc | Dec | Delete.

Definition act (a : action) (i : nat) (s : shared) : option shared :=
  t ← threads s !! i;
  match a with Inc => incStrong i t s | Dec => decStrong i t s | Delete => delete_object i t s end.

Definition total (s : shared) : Z := foldr Z.add 0 (map holds (threads s)).
Definition pending (s : shared) : Z := foldr Z.add 0 (map (fun t => Z.b2z (deleting t)) (threads s)).

(** What a program may do: use and give back the references it holds, as long as
    the count has room, and finish a deletion before anything else. *)
Definition allowed (a : action) (i : nat) (s : shared) : Prop :=
  exists t, threads s !! i = Some t /\
    match a with
    | Inc => deleting t = false /\ 0 < holds t /\ total s + 1 < 2 ^ 31
    | Dec => deleting t = false /\ 0 < holds t
    | Delete => deleting t = true
    end.

Definition step (s s' : shared) : Prop := exists a i, allowed a i s /\ act a i s = Some s'.

(** An object that threads were given references to. *)
Definition given (ns : list Z) : shared :=
  {| mCount := foldr Z.add 0 ns; alive := true; deletions := 0; threads := map (fun n => {| holds := n; deleting := false |}) ns |}.

(** * Invariant *)

Record right (s : shared) : Prop := {
  right_holds i t : threads s !! i = Some t -> 0 <= holds t;
  right_count : mCount s = total s;
  right_total : 0 <= total s < 2 ^ 31;
  right_alive : 0 < total s -> alive s = true /\ pending s = 0;
  right_gone : total s = 0 -> pending s = Z.b2z (alive s);
  right_deletions : deletions s = Z.b2z (negb (alive s))
}.

Lemma sum_insert {A} (f : A -> Z) (l : list A) i x y : l !! i = Some x ->
  foldr Z.add 0 (map f (<[i := y]> l)) = foldr Z.add 0 (map f l) - f x + f y.
Proof.
  revert i. induction l as [|z l IH]; intros [|i] H; [done|done| |].
  - injection H as ->. change (<[0%nat := y]> (x :: l)) with (y :: l). cbn [map foldr]. lia.
  - change (<[S i := y]> (z :: l)) with (z :: <[i := y]> l). cbn [map foldr]. rewrite (IH i H). lia.
Qed.

Lemma sum_bound {A} (f : A -> Z) (l : list A) i x : (forall j y, l !! j = Some y -> 0 <= f y) -> l !! i = Some x ->
  f x <= foldr Z.add 0 (map f l) /\ 0 <= foldr Z.add 0 (map f l).
Proof.
  revert i x. induction l as [|z l IH]; intros i x Hf H; [done|]. cbn.
  assert (0 <= foldr Z.add 0 (map f l)) as H0.
  { destruct l as [|y l]; [done|]. apply (IH 0%nat y); [|done]. intros j. apply (Hf (S j)). }
  pose proof (Hf 0%nat z eq_refl). destruct i as [|i]; [injection H as ->; lia|].
  destruct (IH i x) as [? _]; [intros j; apply (Hf (S j))|done|lia].
Qed.

Lemma pending_bound s i t : threads s !! i = Some t -> Z.b2z (deleting t) <= pending s /\ 0 <= pending s.
Proof. apply (sum_bound (fun t => Z.b2z (deleting t))). intros j y _. destruct (deleting y); cbn; lia. Qed.

(** The state after an action of the thread [i]. *)
Definition after (s : shared) (i : nat) (t' : thread) (c : Z) (a : bool) (d : Z) : shared :=
  {| mCount := c; alive := a; deletions := d; threads := <[i := t']> (threads s) |}.

Lemma after_right s i t t' c a d : right s -> threads s !! i = Some t -> 0 <= holds t' ->
  let n := total s - holds t + holds t' in
  let p := pending s - Z.b2z (deleting t) + Z.b2z (deleting t') in
  c = n -> 0 <= n < 2 ^ 31 -> (0 < n -> a = true /\ p = 0) -> (n = 0 -> p = Z.b2z a) -> d = Z.b2z (negb a) -> right (after s i t' c a d).
Proof.
  intros Hs Ht Ht' n p Hc Hn Hal Hgone Hd.
  assert (total (after s i t' c a d) = n) as En by by apply sum_insert.
  assert (pending (after s i t' c a d) = p) as Ep by by apply (sum_insert (fun t => Z.b2z (deleting t))).
  split; rewrite ?En, ?Ep; [|done..].
  intros j u [(<- & <- & _)|[_ H]]%list_lookup_insert_Some; [done|by eapply right_holds].
Qed.

(** An allowed action is defined and keeps the invariant. *)
Lemma act_right s a i : right s -> allowed a i s -> exists s', act a i s = Some s' /\ right s'.
Proof.
  intros Hs (t & Ht & Ha). unfold act. rewrite Ht. cbn. pose proof (right_holds _ Hs i t Ht) as Hh.
  pose proof (pending_bound s i t Ht) as [Hp Hp0].
  pose proof (sum_bound holds (threads s) i t (right_holds _ Hs) Ht) as [Hle _]. fold (total s) in Hle.
  pose proof (right_count s Hs) as Hc. pose proof (right_total s Hs) as Hn. pose proof (right_deletions s Hs) as Hd.
  destruct a.
  - destruct Ha as (Ed & Hpos & Hroom). destruct (right_alive s Hs) as [Hal Hpe]; [lia|].
    exists (after s i {| holds := holds t + 1; deleting := deleting t |} (s32 (mCount s + 1)) (alive s) (deletions s)).
    split; [unfold incStrong, fetch_add; by rewrite Hal|].
    apply (after_right s i t _ _ _ _ Hs Ht); cbn [holds deleting]; try lia; try done; [rewrite s32_small; lia|]. intros _. split; [done|lia].
  - destruct Ha as [Ed Hpos]. destruct (right_alive s Hs) as [Hal Hpe]; [lia|].
    exists (after s i {| holds := holds t - 1; deleting := mCount s =? 1 |} (s32 (mCount s + -1)) (alive s) (deletions s)).
    split; [unfold decStrong, fetch_add; by rewrite Hal|].
    apply (after_right s i t _ _ _ _ Hs Ht); cbn [holds deleting]; try lia; try done; [rewrite s32_small; lia| |];
      rewrite Ed, Hal, Hpe, Hc; destruct (Z.eqb_spec (total s) 1); cbn; lia.
  - assert (total s = 0 /\ alive s = true) as [Et Hal].
    { rewrite Ha in Hp. cbn in Hp. destruct (decide (total s = 0)) as [E|E].
      - split; [done|]. pose proof (right_gone s Hs E). by destruct (alive s); cbn in *; [|lia].
      - destruct (right_alive s Hs); lia. }
    pose proof (right_gone s Hs Et) as Hg. rewrite Hal in Hg, Hd. cbn in Hg, Hd.
    exists (after s i {| holds := holds t; deleting := false |} (mCount s) false (deletions s + 1)).
    split; [unfold delete_object; by rewrite Hal|].
    apply (after_right s i t _ _ _ _ Hs Ht); cbn [holds deleting]; rewrite ?Ha; cbn; lia.
Qed.

Lemma given_right ns : Forall (fun n => 0 <= n) ns -> 0 < foldr Z.add 0 ns < 2 ^ 31 -> right (given ns).
Proof.
  intros Hns Hn. assert (total (given ns) = foldr Z.add 0 ns) as En by (unfold total, given; cbn; rewrite map_map; cbn; by rewrite map_id).
  assert (pending (given ns) = 0) as Ep by (unfold pending, given; cbn; clear; by induction ns).
  split; rewrite ?En, ?Ep; try done; try lia.
  intros i t Ht. cbn in Ht. apply list_lookup_fmap_Some in Ht as (n & -> & Hl). cbn. rewrite Forall_forall in Hns.
  apply Hns. by eapply list_elem_of_lookup_2.
Qed.

Lemma reachable_right ns s : Forall (fun n => 0 <= n) ns -> 0 < foldr Z.add 0 ns < 2 ^ 31 -> rtc step (given ns) s -> right s.
Proof.
  intros Hns Hn H. pose proof (given_right ns Hns Hn) as H0. revert H0. induction H as [s|s1 s2 s3 (a & i & Ha & E) _ IH]; [done|].
  intros H1. apply IH. destruct (act_right s1 a i H1 Ha) as (s' & E' & Hs). congruence.
Qed.

(** C22. Threads that share an object by LightRefBase, each using and giving back
    the references it holds, in any number and in any order of their atomic
    steps: no step touches the object after its deletion, the count is the
    number of references that are held, the object stays while one is held, and
    when none is held and no thread is at its deletion, it has been deleted, and
    once. *)
Theorem references_correct ns s :
  Forall (fun n => 0 <= n) ns -> 0 < foldr Z.add 0 ns < 2 ^ 31 -> rtc step (given ns) s ->
  (forall a i, allowed a i s -> exists s', act a i s = Some s')
  /\ mCount s = total s
  /\ (0 < total s -> alive s = true)
  /\ (total s = 0 -> pending s = 0 -> alive s = false /\ deletions s = 1)
  /\ deletions s <= 1.
Proof.
  intros Hns Hn H. pose proof (reachable_right ns s Hns Hn H) as Hs. split.
  { intros a i Ha. destruct (act_right s a i Hs Ha) as (s' & E & _). by exists s'. }
  split; [apply Hs|]. split; [apply Hs|]. pose proof (right_deletions s Hs) as Hd. split.
  - intros Ht Hp. pose proof (right_gone s Hs Ht) as Hg. rewrite Hp in Hg. by destruct (alive s).
  - destruct (alive s); cbn in Hd; lia.
Qed.

(** Two threads with one reference each; the second is the last. *)
Definition both_gave_back : shared :=
  {| mCount := 0; alive := false; deletions := 1; threads := [{| holds := 0; deleting := false |}; {| holds := 0; deleting := false |}] |}.

Lemma references_correct_witness : alive both_gave_back = false /\ deletions both_gave_back = 1.
Proof.
  apply (references_correct [1; 1] both_gave_back); [by repeat constructor|by vm_compute| |done|done].
  eapply rtc_l; [exists Dec, 0%nat; split; [eexists; split; [reflexivity|done]|reflexivity]|].
  eapply rtc_l; [exists Dec, 1%nat; split; [eexists; split; [reflexivity|done]|reflexivity]|].
  eapply rtc_l; [exists Delete, 1%nat; split; [eexists; split; [reflexivity|done]|reflexivity]|]. apply rtc_refl.
Defined.
